(* ===== verification/_CoqProject ===== *)
-Q . S2P
Prelude.v
GoStrings.v
Wire.v
Store.v
Ownership.v
EpochGate.v
GoFloat.v
Cost.v
FlapGuard.v
Services.v
Decider.v
Failover.v
Reorder.v
Handoff.v
Netip.v
Flow.v
FlowPool.v
SessionBind.v
Rib.v
Api.v
Plan.v
GatewayAgent.v
Controller.v
ControllerSpec.v
IpsecConfig.v
IpsecRender.v
IpsecNet.v
IpsecClient.v
IpsecClientSpec.v
IpsecGateway.v
Vici.v
ViciEvents.v
IpsecWait.v
ClientAgent.v
ClientIpsec.v
Estimators.v
PathMon.v
EgressObserver.v
HostNet.v
GatewayHost.v
Keys.v
WgPeers.v
NetlinkNet.v
Metrics.v
Tracing.v
Http.v
ClientFiles.v
Command.v
Netem.v
Vpnctl.v
Etcd.v
ClientRun.v
GatewayRun.v
Daemon.v
