(* ===== verification/Prelude.v ===== *)
(** * Egressa: a verification development

    Egressa moves a client's traffic through an access gateway and out of an
    egress gateway, and moves a live session to another path when a better one
    is measured. A controller owns the gateways and the sessions; gateways
    poll it and configure their host; clients measure paths, decide, and ask
    the controller to migrate. Every move raises the session's epoch, and
    gateways drop packets stamped with an older one. Tunnels are WireGuard, or
    IPsec through strongSwan's charon.

    ** Files, and what of src/ they model (paths under internal/ unless given)

    Shared
    - [Prelude]: Go results, machine integers, time, bytes, strings, decimal
      numerals, the JSON codec interface, map order, tactics, shared lemmas.
    - [GoStrings], [GoFloat], [Netip]: what is used of strings and strconv, of
      float64 and math, of net/netip.

    Control plane
    - [Store]: control/store.go (MemStore, watchers, the KVStore and Fencer
      interfaces as classes with laws) and controller/filestore.go.
    - [Etcd]: control/etcdstore.go, which discharges the same laws.
    - [Ownership]: control/ownership.go and ownership_service.go; SetIfNewer is
      a sequence of steps between store calls, alone or among other writers.
    - [Services]: control/membership.go and control/policy.go.
    - [Api], [Controller], [ControllerSpec]: api/types.go, encryption/backend.go,
      the handlers of controller/server.go, and runs of requests.
    - [Http]: api/client.go and the mux, authorization, bodies and long polls
      of controller/server.go: a call through the client is the handler's.
    - [Failover]: control/cache.go and control/failover.go.

    Gateways
    - [EpochGate]: control/epochgate.go, epochgate_watch.go and the packet
      fence of gateway/agent.go.
    - [Plan]: gateway/plan.go. [GatewayAgent]: apply of gateway/agent.go and
      gateway/ipsec.go. [HostNet]: tunnel/iface.go, routing.go, nat.go and
      bucketroute.go, with what the commands of ip and iptables do.
      [GatewayHost]: gateway/netcfg.go, set-up and tear-down. [GatewayRun]: New
      and Run of gateway/agent.go, its goroutines as threads that interleave.
    - [Flow], [FlowPool]: tunnel/flow.go and tunnel/shard.go: packet parser,
      flow tables, worker pool. [SessionBind]: tunnel/sessionbind.go.
    - [Keys]: tunnel/keys.go. [WgPeers]: tunnel/peermanager.go, realdevice.go,
      device.go, roles.go and standby.go.
    - [EgressObserver], [Rib]: measurement/egress.go, destgroup.go and rib.go.

    Clients
    - [Cost], [FlapGuard], [Decider]: measurement/cost.go, decide.go and
      flapguard.go, handoff/deadgateway.go, client/decide.go.
    - [Estimators], [PathMon]: measurement/p2quantile.go, stats.go, probe.go,
      probebudget.go, passive.go and linkstate.go; pathmon/.
    - [ClientAgent]: the locked sections of client/agent.go. [ClientIpsec]:
      client/ipsec.go. [ClientFiles]: client/state.go and status.go, open of
      agent.go, cmd/egressa/config.go. [ClientRun]: Run and its loops.
    - [Handoff], [Reorder]: handoff/armer.go, cutover.go, rollback.go, drain.go;
      reorder/receiver.go.

    IPsec
    - [IpsecConfig], [IpsecRender], [IpsecNet]: ipsec/config.go, sa.go, ike.go,
      net.go and routes.go. [IpsecClient], [IpsecClientSpec]: ipsec/client.go
      in sequence, then under interleaving. [IpsecGateway]: ipsec/gateway.go.
      [Vici], [ViciEvents]: ipsec/vici.go. [IpsecWait]: ipsec/wait.go, loss.go.
      [NetlinkNet]: ipsec/netlink_linux.go.

    Telemetry, tools and programs
    - [Wire]: pkg/wire. [Metrics], [Tracing]: telemetry/.
    - [Netem], [Vpnctl]: netem/ and cmd/vpnctl. [Command]: cmd/egressa.
    - [Daemon]: cmd/controller, cmd/gateway, cmd/client, cliutil/, and Run and
      publish of controller/server.go.

    ** How code becomes definitions

    A struct is a record, an operation a function from the state to its answer
    and the next state, an error a value of [res] or of an enumeration, a
    panic [None]. A mutex held for a whole call makes the call one function;
    where the code lets go of it (SetIfNewer, notify, sessionAuth before
    migrate, the worker pool, Add and Promote of the IPsec client, Start and
    Close of the IPsec gateway, the client's plane, delivery of events, long
    polls, the goroutines of both agents) the model has the steps in between,
    and the theorems are about every interleaving. Unsigned integers wrap with
    [wrap]; a time is nanoseconds since Go's zero time. The clock, random
    values and the outcome of each system call are arguments, or come from the
    world a component runs on.

    Parameters are classes of calls, each with the laws the theorems use in a
    class of its own and an instance on which the theorems are evaluated:
    - data: [Codec], [ApiJson], [ConfJson], [RawJSON] and [StateJson] for JSON;
      [NetParse], [UrlParse], [NumText], [TimeText], [CtlText] for texts;
      [GoMath] for logarithms and exponentials; SHA-256 is defined, HMAC and the
      secret's hash are arguments of the controller;
    - order of Go's maps: [Range] with [RangeLaws], any permutation;
    - the host: [Shell] with [ShellLaws] (ip, iptables), [HostIO], [PeerIO],
      [RunIO], [WgHost], [WgDevice], [KeyHost], [Files], [Environ], [Procs],
      [CmdHost], [DaemonHost], [nlHandle] for netlink, tc in [Netem];
      [Working] says a host on which commands that can succeed do;
    - services: [EtcdClient] with the documented behaviour of transactions,
      [HttpClient], [Vici], and the kernel and charon of [IpsecNet] ([Env]).
    Interfaces of the program itself are classes too and are discharged here:
    [KVStore], [Fencer] and their laws (three stores), [Host] and [HostRules],
    [AgentEnv], [IpsecOps], [ControllerApi], [standbyPeerManager].

    ** What the theorems show

    - Fencing: SetIfNewer under any interleaving only moves a session forward
      and lets one writer of an epoch win; the gate is a running maximum; the
      packet fence decides as the gate does; the session bind delivers exactly
      the admitted payloads; Advance of the IPsec client fences older SAs.
    - The controller: over any sequence of requests the state it reports gives
      each session its own address and key; what a migration does on every
      branch; a call of the API client is the handler's answer; a long poll is
      not left waiting; the etcd store answers as the one in memory; a restart
      on the state file keeps every session, client and gateway.
    - Gateways: the plans of all gateways route every session along its path;
      an apply without errors brings agent and host in line with the plan; a
      gateway that stops leaves its host's rules as they were; the controller
      knows the ports of its backbones.
    - Clients: a session is always one the controller committed; off a live
      path only on evidence that lasted, off a dead path to the cheapest
      alternative with the same egress; a full tunnel leaves no route behind;
      a restart keeps the session.
    - IPsec: tables account for what is held under every interleaving; adding
      rolls back; routes are set all or nothing; rendered files read back;
      netlink refines the interface; events are not lost silently; waits end.
    - Data: the reorder buffer is in order and loses nothing; the trie is the
      longest match; the sharded flow table is one flow table; the worker pool
      handles each packet once; the packet parser and the observer are exact.
    - Operations: a scenario shapes as written; the spans of a migration are
      one timeline; labels of metrics are known ones.

    Behaviour that is not what the code or its comments promise is stated as a
    lemma on a concrete run, in the module of examples at the end of a file.

    ** Fuel

    [SetIfNewer] alone needs three store calls; [drain] of the reorder buffer
    at most one turn per buffered packet and one more; [allocate] one turn per
    used address and two more; each bound is proved to be enough. clearRules
    has the loop's own bound of 100000, which the theorem's hypothesis meets.
    Waiting loops turn timeout/200ms + 2 times, as many as fit; numerals have
    at most 20 digits, marks 8 hexadecimal ones; the cube roots in SHA-256's
    constants are found bit by bit in 40 steps. Loops that end only with their
    context are run over any list of what they meet.

    ** Not modelled

    Declaration of flags and help texts, signals, log lines (logStatus among
    them), the layout of the printed timeline and tables, the listeners and
    handlers of net/http, opening sockets of vici and of the path monitor, the
    Prometheus registry, and build information. wireguard-go, strongSwan,
    netlink, etcd and the kernel are parameters as above. *)

From Stdlib Require Export ZArith Lia.
From stdpp Require Export base tactics numbers option list gmap fin_maps strings sorting pretty.

#[global] Open Scope Z_scope.

(** ** Go results: a value or an error. *)

Inductive res (E A : Type) : Type :=
| Ok (a : A)
| Err (e : E).
Arguments Ok {E A} a.
Arguments Err {E A} e.

Declare Scope go_scope.
Delimit Scope go_scope with go.
#[global] Open Scope go_scope.

Definition res_bind {E A B : Type} (c : res E A) (k : A → res E B) : res E B :=
  match c with Ok a => k a | Err e => Err e end.

Definition res_map_err {E F A : Type} (f : E → F) (c : res E A) : res F A :=
  match c with Ok a => Ok a | Err e => Err (f e) end.

Notation "'try' x ':=' c 'in' k" := (res_bind c (λ x, k))
  (at level 10, x pattern, c at level 100, k at level 200, only parsing) : go_scope.

(** Go's [for _, x := range xs { v, err := f(x); if err != nil { return err }; out = append(out, v) }]. *)
Fixpoint res_mapM {E A B : Type} (f : A → res E B) (xs : list A) : res E (list B) :=
  match xs with
  | [] => Ok []
  | x :: xs => res_bind (f x) (λ y, res_bind (res_mapM f xs) (λ ys, Ok (y :: ys)))
  end.

(** ** Machine integers: a w-bit unsigned value is an integer in [0, 2^w). *)

Definition wrap (w z : Z) : Z := z mod 2 ^ w.
Abbreviation u8 := (wrap 8).
Abbreviation u16 := (wrap 16).
Abbreviation u32 := (wrap 32).
Abbreviation u64 := (wrap 64).

Definition fits (w z : Z) : Prop := 0 ≤ z < 2 ^ w.
Abbreviation is_u8 := (fits 8).
Abbreviation is_u16 := (fits 16).
Abbreviation is_u32 := (fits 32).
Abbreviation is_u64 := (fits 64).

Definition i64_min : Z := -9223372036854775808.
Definition i64_max : Z := 9223372036854775807.
(** Conversion of an integer to int64, with Go's two's complement wrap-around. *)
Definition i64 (z : Z) : Z := (z + 2 ^ 63) mod 2 ^ 64 - 2 ^ 63.

(** ** Time. An instant is a count of nanoseconds since Go's zero time, so the
    zero [time.Time] is 0; a duration is an int64 count of nanoseconds. *)

Abbreviation Time := Z (only parsing).
Abbreviation Duration := Z (only parsing).

Definition zero_time : Time := 0.
Definition time_IsZero (t : Time) : bool := t =? 0.
(** [t.Sub(u)] saturates at the ends of int64. *)
Definition time_Sub (t u : Time) : Duration := Z.max i64_min (Z.min i64_max (t - u)).
Definition time_Before (t u : Time) : bool := t <? u.
Definition time_Add (t : Time) (d : Duration) : Time := t + d.

Definition Microsecond : Duration := 1000.
Definition Millisecond : Duration := 1000 * Microsecond.
Definition Second : Duration := 1000 * Millisecond.
(** [d.Microseconds()]: integer division truncates towards zero. *)
Definition dur_Microseconds (d : Duration) : Z := Z.quot d 1000.

(** ** Bytes *)

Abbreviation bytes := (list Z) (only parsing).
Definition wf_bytes (b : bytes) : Prop := Forall is_u8 b.

(** [binary.BigEndian.PutUintN]: the n bytes of z, most significant first. *)
Fixpoint be_put (n : nat) (z : Z) : bytes :=
  match n with
  | O => []
  | S n => Z.shiftr z (8 * Z.of_nat n) mod 256 :: be_put n z
  end.
(** [binary.BigEndian.UintN] *)
Definition be_get (b : bytes) : Z := fold_left (λ acc x, acc * 256 + x) b 0.

(** Go slicing [b[i:j]]; callers check the bounds. *)
Definition slice {A} (i j : nat) (b : list A) : list A := take (j - i) (drop i b).
(** [copy(dst, src)] at the start of dst. *)
Definition go_copy {A} (dst src : list A) : list A :=
  take (length dst) src ++ drop (length src) dst.

(** Overwriting a stretch of a buffer in place, the way [binary.BigEndian.PutUintN(buf[off:...], v)]
    and [copy(buf[off:], b)] do; callers check the bounds. *)
Definition put_at {A} (off : nat) (b buf : list A) : list A :=
  take off buf ++ b ++ drop (off + length b) buf.

(** ** [encoding/json] as the sources use it: a pair of partial functions per
    type. [codec_ok] holds of the values that encode without error and read
    back unchanged (strings that are valid UTF-8, finite numbers). *)
Class Codec (A : Type) := {
  marshal : A → option bytes;
  unmarshal : bytes → option A;
  codec_ok : A → Prop;
}.
Class CodecLaws (A : Type) `{Codec A} : Prop := {
  marshal_ok : ∀ a, codec_ok a → is_Some (marshal a);
  unmarshal_marshal : ∀ a b, codec_ok a → marshal a = Some b → unmarshal b = Some a;
}.

(** A codec for any countable type, by its binary numeral: it shows that the
    laws can hold together. *)
Fixpoint pos_bits (p : positive) : bytes :=
  match p with xH => [] | xO p => 0 :: pos_bits p | xI p => 1 :: pos_bits p end.
Fixpoint bits_pos (l : bytes) : positive :=
  match l with
  | [] => xH
  | b :: l => if b =? 1 then xI (bits_pos l) else xO (bits_pos l)
  end.
Definition countable_codec (A : Type) `{Countable A} : Codec A := {|
  marshal a := Some (pos_bits (encode a));
  unmarshal b := decode (bits_pos b);
  codec_ok _ := True;
|}.

(** ** Maps *)

(** The order in which Go ranges over a map. *)
Class Range := { range : ∀ {K : Type} `{Countable K} {V : Type}, gmap K V → list (K * V) }.
Class RangeLaws `{Range} : Prop :=
  { range_perm : ∀ {K : Type} `{Countable K} {V : Type} (m : gmap K V), range m ≡ₚ map_to_list m }.

(** ** Ordering of Go strings ([strings.Compare], [<] on strings): bytewise. *)
Fixpoint str_ltb (a b : string) : bool :=
  match a, b with
  | EmptyString, EmptyString => false
  | EmptyString, String _ _ => true
  | String _ _, EmptyString => false
  | String x a', String y b' =>
      let nx := Ascii.nat_of_ascii x in
      let ny := Ascii.nat_of_ascii y in
      if (nx <? ny)%nat then true else if (ny <? nx)%nat then false else str_ltb a' b'
  end.
Definition str_leb (a b : string) : bool := negb (str_ltb b a).

(** [strings.HasPrefix] *)
Fixpoint HasPrefix (s prefix : string) : bool :=
  match prefix, s with
  | EmptyString, _ => true
  | String _ _, EmptyString => false
  | String p prefix', String c s' => Ascii.eqb p c && HasPrefix s' prefix'
  end.

(** [strconv.FormatUint(n, 10)]; 20 digits are enough for a uint64. *)
Definition digit_char (d : Z) : Ascii.ascii := Ascii.ascii_of_nat (48 + Z.to_nat d).
Fixpoint format_digits (fuel : nat) (n : Z) : list Ascii.ascii :=
  match fuel with
  | O => []
  | S fuel =>
      if n <? 10 then [digit_char n]
      else format_digits fuel (n / 10) ++ [digit_char (n mod 10)]
  end.
Definition FormatUint (n : Z) : string := String.string_of_list_ascii (format_digits 20 n).

(** [strconv.ParseUint(s, 10, bits)]: only decimal digits, at least one, and a
    value that fits. *)
Definition char_digit (c : Ascii.ascii) : option Z :=
  let n := Z.of_nat (Ascii.nat_of_ascii c) in
  if (48 <=? n) && (n <=? 57) then Some (n - 48) else None.
Definition parse_step (acc : option Z) (c : Ascii.ascii) : option Z :=
  match acc, char_digit c with Some a, Some d => Some (a * 10 + d) | _, _ => None end.
Definition ParseUint (bits : Z) (s : string) : option Z :=
  match String.list_ascii_of_string s with
  | [] => None
  | cs => match fold_left parse_step cs (Some 0) with
          | Some v => if v <? 2 ^ bits then Some v else None
          | None => None
          end
  end.

(** ** Tactics and hint databases *)

Create HintDb egressa.

(** Split every [if]/[match] the goal or the context is stuck on. *)
Ltac cases :=
  repeat match goal with
  | |- context [match ?x with _ => _ end] => destruct x eqn:?; simplify_eq/=
  | H : context [match ?x with _ => _ end] |- _ => destruct x eqn:?; simplify_eq/=
  end.

(** Turn boolean comparisons into propositions. *)
Ltac zbool :=
  repeat match goal with
  | H : (_ <? _) = true |- _ => apply Z.ltb_lt in H
  | H : (_ <? _) = false |- _ => apply Z.ltb_ge in H
  | H : (_ <=? _) = true |- _ => apply Z.leb_le in H
  | H : (_ <=? _) = false |- _ => apply Z.leb_gt in H
  | H : (_ =? _) = true |- _ => apply Z.eqb_eq in H
  | H : (_ =? _) = false |- _ => apply Z.eqb_neq in H
  | H : (_ >? _) = true |- _ => apply Z.gtb_lt in H
  | H : (_ >? _) = false |- _ => rewrite Z.gtb_ltb in H; apply Z.ltb_ge in H
  | H : (_ >=? _) = true |- _ => apply Z.geb_le in H
  | H : (_ >=? _) = false |- _ => rewrite Z.geb_leb in H; apply Z.leb_gt in H
  | H : negb _ = true |- _ => apply negb_true_iff in H
  | H : negb _ = false |- _ => apply negb_false_iff in H
  | H : (_ && _) = true |- _ => apply andb_true_iff in H; destruct H
  | H : (_ || _) = false |- _ => apply orb_false_iff in H; destruct H
  | H : bool_decide _ = true |- _ => apply bool_decide_eq_true_1 in H
  | H : bool_decide _ = false |- _ => apply bool_decide_eq_false_1 in H
  end.

Ltac go_lia := unfold wrap, fits, i64_min, i64_max in *; zbool; lia.

(** ** Shared lemmas: integers *)

Lemma wrap_small w z : fits w z → wrap w z = z.
Proof. intros ?. apply Z.mod_small. done. Qed.

Lemma wrap_fits w z : 0 ≤ w → fits w (wrap w z).
Proof. intros ?. apply Z.mod_pos_bound. by apply Z.pow_pos_nonneg. Qed.

Lemma wrap_wrap w z : 0 ≤ w → wrap w (wrap w z) = wrap w z.
Proof. intros ?. apply wrap_small. by apply wrap_fits. Qed.

Lemma u64_fits z : is_u64 (u64 z).
Proof. by apply wrap_fits. Qed.

Lemma u32_fits z : is_u32 (u32 z).
Proof. by apply wrap_fits. Qed.

#[export] Hint Resolve u64_fits u32_fits wrap_fits : egressa.

Lemma time_Sub_lt t u d :
  i64_min < d ≤ i64_max → (time_Sub t u <? d) = (t - u <? d).
Proof.
  intros ?. unfold time_Sub.
  destruct (Z.ltb_spec (t - u) d), (Z.ltb_spec (Z.max i64_min (Z.min i64_max (t - u))) d);
    unfold i64_min, i64_max in *; lia.
Qed.

(** ** Shared lemmas: bytes *)

Lemma length_be_put n z : length (be_put n z) = n.
Proof. induction n; simpl; auto. Qed.

Lemma be_put_wf n z : wf_bytes (be_put n z).
Proof.
  induction n; simpl; constructor; auto.
  unfold fits. change (2 ^ 8) with 256. apply Z.mod_pos_bound. lia.
Qed.

Lemma be_get_acc b acc :
  fold_left (λ acc x, acc * 256 + x) b acc = acc * 256 ^ Z.of_nat (length b) + be_get b.
Proof.
  unfold be_get. revert acc. induction b as [|x b IH]; intros acc; simpl.
  - rewrite Z.mul_1_r. lia.
  - rewrite IH, (IH (0 * 256 + x)).
    rewrite Nat2Z.inj_succ, Z.pow_succ_r by lia. ring.
Qed.

Lemma be_get_cons x b : be_get (x :: b) = x * 256 ^ Z.of_nat (length b) + be_get b.
Proof.
  unfold be_get at 1. simpl. rewrite be_get_acc. f_equal.
Qed.

Lemma be_get_put_mod n z : be_get (be_put n z) = z mod 256 ^ Z.of_nat n.
Proof.
  induction n as [|n IH].
  - cbn. by rewrite Z.mod_1_r.
  - simpl be_put. rewrite be_get_cons, length_be_put, IH.
    rewrite Z.shiftr_div_pow2 by lia.
    rewrite Z.pow_mul_r by lia. change (2 ^ 8) with 256.
    rewrite Nat2Z.inj_succ, Z.pow_succ_r by lia.
    rewrite (Z.mul_comm 256), Z.rem_mul_r by (try apply Z.pow_nonzero; lia). lia.
Qed.

Lemma be_get_put n z w :
  fits w z → w = 8 * Z.of_nat n → be_get (be_put n z) = z.
Proof.
  intros Hz ->. rewrite be_get_put_mod. apply Z.mod_small.
  unfold fits in Hz. rewrite Z.pow_mul_r in Hz by lia. done.
Qed.

Lemma be_get_bound b : wf_bytes b → 0 ≤ be_get b < 256 ^ Z.of_nat (length b).
Proof.
  induction 1 as [|x b Hx Hb IH]; [cbn; lia|].
  rewrite be_get_cons. unfold fits in Hx. change (2 ^ 8) with 256 in Hx.
  cbn [length]. rewrite Nat2Z.inj_succ, Z.pow_succ_r by lia. nia.
Qed.

Lemma be_put_get b : wf_bytes b → be_put (length b) (be_get b) = b.
Proof.
  induction 1 as [|x b Hx Hb IH]; [done|].
  cbn [length be_put]. rewrite be_get_cons.
  pose proof (be_get_bound b Hb) as Hbd.
  unfold fits in Hx. change (2 ^ 8) with 256 in Hx.
  f_equal.
  - rewrite Z.shiftr_div_pow2, Z.pow_mul_r by lia. change (2 ^ 8) with 256.
    rewrite Z.div_add_l by lia. rewrite (Z.div_small (be_get b)) by lia.
    rewrite Z.mod_small; lia.
  - transitivity (be_put (length b) (be_get b)); [|done].
    clear IH. generalize dependent (be_get b). intros g Hg.
    assert (∀ n, (n ≤ length b)%nat →
      be_put n (x * 256 ^ Z.of_nat (length b) + g) = be_put n g) as Hgen.
    { induction n as [|n IHn]; intros Hn; [done|]. cbn [be_put].
      rewrite IHn by lia. f_equal.
      rewrite !Z.shiftr_div_pow2, Z.pow_mul_r by lia. change (2 ^ 8) with 256.
      replace (Z.of_nat (length b)) with (Z.of_nat (length b - S n) + 1 + Z.of_nat n) by lia.
      rewrite !Z.pow_add_r by lia. rewrite !Z.mul_assoc.
      rewrite Z.div_add_l by (apply Z.pow_nonzero; lia).
      rewrite Z.pow_1_r, Z.add_comm. rewrite Z.mod_add by lia. done. }
    by apply Hgen.
Qed.

Lemma length_slice {A} i j (b : list A) :
  (i ≤ j)%nat → (j ≤ length b)%nat → length (slice i j b) = (j - i)%nat.
Proof. intros. unfold slice. rewrite length_take, length_drop. lia. Qed.

Lemma length_put_at {A} off (b buf : list A) :
  (off + length b ≤ length buf)%nat → length (put_at off b buf) = length buf.
Proof. intros. unfold put_at. rewrite !length_app, length_take, length_drop. lia. Qed.

Lemma slice_put_at_eq {A} off (b buf : list A) :
  (off + length b ≤ length buf)%nat → slice off (off + length b) (put_at off b buf) = b.
Proof.
  intros. unfold slice, put_at.
  rewrite drop_app_ge by (rewrite length_take; lia).
  rewrite length_take, Nat.min_l, Nat.sub_diag, drop_0 by lia.
  replace (off + length b - off)%nat with (length b) by lia.
  by rewrite take_app_length.
Qed.

Lemma slice_lookup {A} i j k (b : list A) :
  (k < j - i)%nat → slice i j b !! k = b !! (i + k)%nat.
Proof. intros. unfold slice. rewrite lookup_take_lt, lookup_drop by lia. done. Qed.

Lemma lookup_put_at {A} off (b buf : list A) i :
  (off + length b ≤ length buf)%nat →
  put_at off b buf !! i =
    if decide (off ≤ i < off + length b)%nat then b !! (i - off)%nat else buf !! i.
Proof.
  intros Hl. unfold put_at. case_decide as Hi.
  - rewrite lookup_app_r by (rewrite length_take; lia).
    rewrite length_take, Nat.min_l by lia. rewrite lookup_app_l by lia. done.
  - destruct (decide (i < off)%nat).
    + rewrite lookup_app_l by (rewrite length_take; lia). by rewrite lookup_take_lt.
    + rewrite lookup_app_r, lookup_app_r by (rewrite ?length_app, length_take; lia).
      rewrite length_take, Nat.min_l by lia. rewrite lookup_drop. f_equal. lia.
Qed.

Lemma length_go_copy {A} (dst src : list A) : length (go_copy dst src) = length dst.
Proof.
  unfold go_copy. rewrite length_app, length_take, length_drop. lia.
Qed.

(** ** Shared lemmas: strings *)

Lemma HasPrefix_app p s : HasPrefix (p +:+ s) p = true.
Proof.
  induction p as [|c p IH]; [by destruct s|].
  change (Ascii.eqb c c && HasPrefix (p +:+ s) p = true).
  by rewrite Ascii.eqb_refl, IH.
Qed.

Lemma str_ltb_cons x a y b :
  str_ltb (String x a) (String y b) =
  if (Ascii.nat_of_ascii x <? Ascii.nat_of_ascii y)%nat then true
  else if (Ascii.nat_of_ascii y <? Ascii.nat_of_ascii x)%nat then false else str_ltb a b.
Proof. done. Qed.

Lemma str_ltb_irrefl s : str_ltb s s = false.
Proof. induction s; [done|]. by rewrite str_ltb_cons, Nat.ltb_irrefl. Qed.

Lemma str_ltb_trans a b c : str_ltb a b = true → str_ltb b c = true → str_ltb a c = true.
Proof.
  revert b c. induction a as [|x a IH]; intros [|y b] [|z c]; try done.
  rewrite !str_ltb_cons. intros H1 H2.
  repeat match goal with
  | H : context [(?m <? ?n)%nat] |- _ => destruct (Nat.ltb_spec m n)
  | |- context [(?m <? ?n)%nat] => destruct (Nat.ltb_spec m n)
  end; try done; try lia. eauto.
Qed.

Lemma str_ltb_total a b : str_ltb a b = false → str_ltb b a = false → a = b.
Proof.
  revert b. induction a as [|x a IH]; intros [|y b]; try done.
  rewrite !str_ltb_cons. intros H1 H2.
  destruct (Nat.ltb_spec (Ascii.nat_of_ascii x) (Ascii.nat_of_ascii y)); [done|].
  destruct (Nat.ltb_spec (Ascii.nat_of_ascii y) (Ascii.nat_of_ascii x)); [done|].
  f_equal; [|by apply IH].
  rewrite <- (Ascii.ascii_nat_embedding x), <- (Ascii.ascii_nat_embedding y). f_equal. lia.
Qed.

(** ** Shared lemmas: decimal numerals *)

Lemma char_digit_char d : 0 ≤ d < 10 → char_digit (digit_char d) = Some d.
Proof.
  intros Hd. unfold char_digit, digit_char.
  rewrite Ascii.nat_ascii_embedding by lia.
  destruct (Z.leb_spec 48 (Z.of_nat (48 + Z.to_nat d))); [|lia].
  destruct (Z.leb_spec (Z.of_nat (48 + Z.to_nat d)) 57); [|lia]. simpl. f_equal. lia.
Qed.

Lemma parse_format_digits fuel n :
  0 ≤ n < 10 ^ Z.of_nat fuel → fold_left parse_step (format_digits fuel n) (Some 0) = Some n.
Proof.
  revert n. induction fuel as [|fuel IH]; intros n Hn.
  - change (10 ^ Z.of_nat 0) with 1 in Hn. simpl. f_equal. lia.
  - rewrite Nat2Z.inj_succ, Z.pow_succ_r in Hn by lia. cbn [format_digits].
    destruct (Z.ltb_spec n 10) as [Hlt|Hge].
    + cbn [fold_left]. unfold parse_step. rewrite char_digit_char by lia. f_equal; lia.
    + rewrite fold_left_app, IH by (split; [apply Z.div_pos; lia|apply Z.div_lt_upper_bound; lia]).
      cbn [fold_left]. unfold parse_step.
      rewrite char_digit_char by (apply Z.mod_pos_bound; lia). f_equal.
      pose proof (Z.div_mod n 10). lia.
Qed.

Lemma format_digits_ne fuel n : (0 < fuel)%nat → format_digits fuel n ≠ [].
Proof.
  destruct fuel; [lia|]. intros _. cbn [format_digits].
  destruct (n <? 10); [done|]. intros [_ ?]%app_eq_nil. done.
Qed.

Lemma format_digits_digits fuel n :
  0 ≤ n → Forall (λ c, ∃ d, char_digit c = Some d) (format_digits fuel n).
Proof.
  revert n. induction fuel as [|fuel IH]; intros n Hn; cbn [format_digits]; [constructor|].
  destruct (Z.ltb_spec n 10).
  - repeat constructor. exists n. apply char_digit_char. lia.
  - apply Forall_app. split; [apply IH; apply Z.div_pos; lia|].
    repeat constructor. eexists. apply char_digit_char, Z.mod_pos_bound. lia.
Qed.

Lemma Parse_FormatUint n : is_u64 n → ParseUint 64 (FormatUint n) = Some n.
Proof.
  intros Hn. unfold ParseUint, FormatUint. rewrite String.list_ascii_of_string_of_list_ascii.
  destruct (format_digits 20 n) as [|c cs] eqn:E; [by apply format_digits_ne in E; [|lia]|].
  rewrite <- E, parse_format_digits by (unfold fits in Hn; split; [lia|]; lia).
  unfold fits in Hn. destruct (Z.ltb_spec n (2 ^ 64)); [done|lia].
Qed.

Lemma i64_small z : i64_min ≤ z ≤ i64_max → i64 z = z.
Proof. unfold i64, i64_min, i64_max. intros. rewrite Z.mod_small; lia. Qed.

(** ** Shared lemmas: codecs *)

Lemma bits_pos_bits p : bits_pos (pos_bits p) = p.
Proof. induction p; simpl; congruence. Qed.

Lemma countable_codec_laws (A : Type) `{Countable A} : @CodecLaws A (countable_codec A).
Proof.
  split; simpl; [eauto|]. intros a b _ [= <-]. by rewrite bits_pos_bits, decode_encode.
Qed.

Lemma marshal_Some {A} `{CodecLaws A} (a : A) :
  codec_ok a → ∃ b, marshal a = Some b ∧ unmarshal b = Some a.
Proof. intros Hok. destruct (marshal_ok a Hok) as [b Hb]. eauto using unmarshal_marshal. Qed.

(** ** Shared lemmas: the error monad *)

Lemma res_bind_Ok {E A B} (c : res E A) (k : A → res E B) b :
  res_bind c k = Ok b ↔ ∃ a, c = Ok a ∧ k a = Ok b.
Proof. destruct c; simpl; naive_solver. Qed.

Lemma res_mapM_Ok {E A B} (f : A → res E B) xs ys :
  res_mapM f xs = Ok ys ↔ Forall2 (λ x y, f x = Ok y) xs ys.
Proof.
  revert ys. induction xs as [|x xs IH]; intros ys; simpl.
  - split; [intros [= <-]; constructor | by inversion 1].
  - split.
    + intros (y & Hy & (ys' & Hys & [= <-])%res_bind_Ok)%res_bind_Ok.
      constructor; [done|]. by apply IH.
    + inversion 1 as [|?? ?? Hy Hys]; subst. rewrite Hy. simpl.
      apply IH in Hys. by rewrite Hys.
Qed.

(** ** Shared lemmas: lists related pointwise *)

Lemma Forall2_elem_l {A B} (R : A → B → Prop) l k x :
  Forall2 R l k → x ∈ l → ∃ y, y ∈ k ∧ R x y.
Proof.
  intros HF (i & Hi)%list_elem_of_lookup.
  destruct (Forall2_lookup_l _ _ _ _ _ HF Hi) as (y & Hy & HR).
  exists y. split; [|done]. by eapply list_elem_of_lookup_2.
Qed.

Lemma Forall2_elem_r {A B} (R : A → B → Prop) l k y :
  Forall2 R l k → y ∈ k → ∃ x, x ∈ l ∧ R x y.
Proof.
  intros HF (i & Hi)%list_elem_of_lookup.
  destruct (Forall2_lookup_r _ _ _ _ _ HF Hi) as (x & Hx & HR).
  exists x. split; [|done]. by eapply list_elem_of_lookup_2.
Qed.

Lemma elem_of_snoc {A} (l : list A) x y : x ∈ l ++ [y] ↔ x ∈ l ∨ x = y.
Proof. by rewrite elem_of_app, list_elem_of_singleton. Qed.

Lemma prefix_snoc_inv {A} (l k : list A) x :
  l `prefix_of` k ++ [x] → l `prefix_of` k ∨ l = k ++ [x].
Proof.
  intros [m Hm]. destruct m as [|y m _] using rev_ind; [right; by rewrite app_nil_r in Hm|left].
  rewrite app_assoc in Hm. apply app_inj_tail in Hm as [-> _]. by exists m.
Qed.

(** ** Sorting by a string: the order [slices.Sort] and [strings.Compare] use *)

Definition le_by {A} (key : A → string) (a b : A) : Prop := str_leb (key a) (key b) = true.

#[export] Instance le_by_dec {A} (key : A → string) : RelDecision (le_by key).
Proof. intros a b. unfold le_by. apply _. Defined.

#[export] Instance le_by_total {A} (key : A → string) : Total (le_by key).
Proof.
  intros a b. unfold le_by, str_leb. rewrite !negb_true_iff.
  destruct (str_ltb (key b) (key a)) eqn:E; [right|by left].
  destruct (str_ltb (key a) (key b)) eqn:E'; [|done].
  rewrite <- (str_ltb_irrefl (key a)). symmetry. eapply str_ltb_trans; eauto.
Qed.

(** ** Shared lemmas: lists without duplicates *)

Lemma NoDup_by {A B C} (f : A → B) (g : A → C) l :
  NoDup (f <$> l) → (∀ x y, x ∈ l → y ∈ l → g x = g y → f x = f y) → NoDup (g <$> l).
Proof.
  induction l as [|x l IH]; simpl; intros Hnd Hinj; [constructor|].
  apply NoDup_cons in Hnd as [Hx Hnd]. apply NoDup_cons. split.
  - intros (y & Hy & Hin)%list_elem_of_fmap. apply Hx. rewrite (Hinj x y); [|left|by right|done].
    by apply list_elem_of_fmap_2.
  - apply IH; [done|]. intros y z Hy Hz. apply Hinj; by right.
Qed.

Lemma omap_Forall2 {A B} (f : A → option B) (R : A → B → Prop) l :
  (∀ x, x ∈ l → ∃ y, f x = Some y ∧ R x y) → Forall2 R l (omap f l).
Proof.
  induction l as [|x l IH]; intros H; simpl; [constructor|].
  destruct (H x) as (y & -> & HR); [left|]. constructor; [done|]. apply IH. intros z Hz. apply H. by right.
Qed.

Lemma Forall2_fmap_eq {A B C} (R : A → B → Prop) (f : A → C) (g : B → C) l k :
  Forall2 R l k → (∀ x y, R x y → f x = g y) → f <$> l = g <$> k.
Proof. induction 1; intros H'; simpl; [done|]. f_equal; auto. Qed.

(** ** Shared lemmas: filters *)

Lemma list_filter_ext {A} (P Q : A → Prop) `{!∀ x, Decision (P x), !∀ x, Decision (Q x)} (l : list A) :
  (∀ x, x ∈ l → P x ↔ Q x) → filter P l = filter Q l.
Proof.
  induction l as [|x l IH]; intros Hx; [done|]. rewrite !filter_cons, IH by (intros; apply Hx; by right).
  pose proof (Hx x ltac:(by left)). repeat case_decide; tauto || done.
Qed.

Lemma list_filter_all {A} (P : A → Prop) `{!∀ x, Decision (P x)} (l : list A) : (∀ x, x ∈ l → P x) → filter P l = l.
Proof.
  induction l as [|x l IH]; intros Hx; [done|]. rewrite filter_cons_True by (apply Hx; by left).
  f_equal. apply IH. intros. apply Hx. by right.
Qed.

Lemma NoDup_fmap_inj_on {A B} (f : A → B) l x y : NoDup (f <$> l) → x ∈ l → y ∈ l → f x = f y → x = y.
Proof.
  intros Hnd [i Hi]%list_elem_of_lookup [j Hj]%list_elem_of_lookup E.
  assert (i = j) as ->; [|congruence]. apply (NoDup_lookup _ i j (f x) Hnd); rewrite list_lookup_fmap, ?Hi, ?Hj; cbn; congruence.
Qed.
