(* ===== verification/GoStrings.v ===== *)
(** * Strings: what the sources use of package strings and strconv, for ASCII *)

From S2P Require Import Prelude.

(** [strconv.Itoa] *)
Definition Itoa (n : Z) : string := if n <? 0 then "-" +:+ FormatUint (- n) else FormatUint n.

(** [strconv.ParseInt(s, 10, 64)] *)
Definition ParseInt (s : string) : option Z :=
  let '(neg, body) :=
    match s with
    | String c r => if (Ascii.nat_of_ascii c =? 45)%nat then (true, r) else if (Ascii.nat_of_ascii c =? 43)%nat then (false, r) else (false, s)
    | EmptyString => (false, s)
    end in
  match ParseUint 64 body with
  | None => None
  | Some n => if (neg : bool) then (if n <=? 2 ^ 63 then Some (- n) else None) else if n <? 2 ^ 63 then Some n else None
  end.

(** [strings.Contains] *)
Fixpoint substr (s sub : string) : bool :=
  HasPrefix s sub || match s with EmptyString => false | String _ s => substr s sub end.

(** [strings.TrimSpace] *)
Definition is_space (c : Ascii.ascii) : bool := let n := Ascii.nat_of_ascii c in ((9 <=? n) && (n <=? 13) || (n =? 32))%nat.
Fixpoint drop_spaces (l : list Ascii.ascii) : list Ascii.ascii :=
  match l with c :: l' => if is_space c then drop_spaces l' else l | [] => [] end.
Definition TrimSpace (s : string) : string :=
  String.string_of_list_ascii (rev (drop_spaces (rev (drop_spaces (String.list_ascii_of_string s))))).

(** [strings.Fields]: maximal runs of characters that are not spaces. *)
Fixpoint fields_loop (cur l : list Ascii.ascii) : list (list Ascii.ascii) :=
  let flush := match cur with [] => [] | _ => [rev cur] end in
  match l with
  | [] => flush
  | c :: l => if is_space c then flush ++ fields_loop [] l else fields_loop (c :: cur) l
  end.
Definition Fields (s : string) : list string :=
  String.string_of_list_ascii <$> fields_loop [] (String.list_ascii_of_string s).

(** [strings.Split(s, sep)] for a separator of one character. *)
Fixpoint split_loop (sep : Ascii.ascii) (cur l : list Ascii.ascii) : list (list Ascii.ascii) :=
  match l with
  | [] => [rev cur]
  | c :: l => if Ascii.eqb c sep then rev cur :: split_loop sep [] l else split_loop sep (c :: cur) l
  end.
Definition Split (sep : Ascii.ascii) (s : string) : list string :=
  String.string_of_list_ascii <$> split_loop sep [] (String.list_ascii_of_string s).
Definition newline : Ascii.ascii := Ascii.ascii_of_nat 10.

(** [strings.Cut(s, sep)] for a separator of one character. *)
Fixpoint Cut (sep : Ascii.ascii) (s : string) : option (string * string) :=
  match s with
  | EmptyString => None
  | String c s =>
      if Ascii.eqb c sep then Some (EmptyString, s)
      else match Cut sep s with Some (a, b) => Some (String c a, b) | None => None end
  end.

(** [strings.Join] *)
Fixpoint Join (sep : string) (l : list string) : string :=
  match l with [] => "" | [s] => s | s :: l => s +:+ sep +:+ Join sep l end.

(** ** Lemmas *)

#[local] Arguments Ascii.eqb : simpl never.
#[local] Arguments String.append : simpl nomatch.

(** A string without a character. *)
Fixpoint lacks (sep : Ascii.ascii) (s : string) : bool :=
  match s with EmptyString => true | String c s => negb (Ascii.eqb c sep) && lacks sep s end.

Lemma Cut_app sep a b : lacks sep a = true → Cut sep (a +:+ String sep b) = Some (a, b).
Proof.
  induction a as [|c a IH]; cbn; [by rewrite Ascii.eqb_refl|]. intros [Hc Ha]%andb_true_iff.
  apply negb_true_iff in Hc. by rewrite Hc, IH.
Qed.

Lemma Cut_Some sep s a b : Cut sep s = Some (a, b) → s = a +:+ String sep b ∧ lacks sep a = true.
Proof.
  revert a. induction s as [|c s IH]; intros a; cbn; [done|]. destruct (Ascii.eqb_spec c sep) as [->|Hn].
  - intros [= <- <-]. done.
  - destruct (Cut sep s) as [[a' b']|]; [|done]. intros [= <- <-]. destruct (IH a' eq_refl) as [-> Hl].
    split; [done|]. cbn. rewrite Hl, andb_true_r. by apply negb_true_iff, Ascii.eqb_neq.
Qed.

Lemma split_loop_app sep a cur rest :
  Forall (λ c, c ≠ sep) a → split_loop sep cur (a ++ sep :: rest) = (rev cur ++ a) :: split_loop sep [] rest.
Proof.
  intros Ha. revert cur. induction Ha as [|c a Hc Ha IH]; intros cur; cbn.
  - by rewrite Ascii.eqb_refl, app_nil_r.
  - apply Ascii.eqb_neq in Hc. rewrite Hc, IH. cbn. by rewrite <- app_assoc.
Qed.

Lemma lacks_list sep s : lacks sep s = true ↔ Forall (λ c, c ≠ sep) (String.list_ascii_of_string s).
Proof.
  induction s as [|c s IH]; cbn; [done|]. rewrite andb_true_iff, negb_true_iff, Forall_cons, IH, Ascii.eqb_neq. done.
Qed.

Lemma list_of_string_app a b : String.list_ascii_of_string (a +:+ b) = String.list_ascii_of_string a ++ String.list_ascii_of_string b.
Proof. induction a as [|c a IH]; cbn; [done|]. f_equal. exact IH. Qed.

(** Splitting off the first line. *)
Lemma Split_cons sep a s : lacks sep a = true → Split sep (a +:+ String sep s) = a :: Split sep s.
Proof.
  intros Ha%lacks_list. unfold Split. rewrite list_of_string_app. cbn [String.list_ascii_of_string].
  rewrite split_loop_app by done. cbn. by rewrite String.string_of_list_ascii_of_string.
Qed.

Lemma Split_one sep a : lacks sep a = true → Split sep a = [a].
Proof.
  intros Ha%lacks_list. unfold Split. assert (∀ cur, split_loop sep cur (String.list_ascii_of_string a) = [rev cur ++ String.list_ascii_of_string a]) as ->.
  { induction Ha as [|c l Hc Ha IH]; intros cur; cbn; [by rewrite app_nil_r|]. apply Ascii.eqb_neq in Hc.
    rewrite Hc, IH. cbn. by rewrite <- app_assoc. }
  cbn. by rewrite String.string_of_list_ascii_of_string.
Qed.

Lemma lacks_app sep a b : lacks sep (a +:+ b) = lacks sep a && lacks sep b.
Proof. induction a as [|c a IH]; cbn; [done|]. by rewrite <- andb_assoc, <- IH. Qed.

Lemma append_assoc (a b c : string) : (a +:+ b) +:+ c = a +:+ (b +:+ c).
Proof. induction a as [|x a IH]; cbn; [done|]. f_equal. exact IH. Qed.

(** ** Numbers as text *)

Lemma FormatUint_digits n : 0 ≤ n → Forall (λ c, is_Some (char_digit c)) (String.list_ascii_of_string (FormatUint n)).
Proof.
  intros Hn. unfold FormatUint. rewrite String.list_ascii_of_string_of_list_ascii.
  eapply Forall_impl; [by apply format_digits_digits|]. intros c [d ->]. eauto.
Qed.

Lemma FormatUint_lacks sep n : 0 ≤ n → char_digit sep = None → lacks sep (FormatUint n) = true.
Proof.
  intros Hn Hs. apply lacks_list. eapply Forall_impl; [by apply FormatUint_digits|]. cbn. intros c [d Hd] ->. congruence.
Qed.

Lemma Itoa_lacks sep n : char_digit sep = None → Ascii.nat_of_ascii sep ≠ 45%nat → lacks sep (Itoa n) = true.
Proof.
  intros Hs Hm. unfold Itoa. destruct (Z.ltb_spec n 0); [|by apply FormatUint_lacks].
  rewrite lacks_app, FormatUint_lacks by (done || lia). cbn. rewrite !andb_true_r. apply negb_true_iff, Ascii.eqb_neq. by intros <-.
Qed.

Lemma ParseInt_FormatUint n : 0 ≤ n < 2 ^ 63 → ParseInt (FormatUint n) = Some n.
Proof.
  intros Hn. unfold ParseInt. pose proof (FormatUint_digits n ltac:(lia)) as Hd. pose proof (Parse_FormatUint n ltac:(unfold fits; lia)) as Hp.
  destruct (FormatUint n) as [|c r] eqn:E; [done|]. cbn [String.list_ascii_of_string] in Hd. apply Forall_cons in Hd as [[d Hc] _].
  unfold char_digit in Hc. destruct (Z.leb_spec 48 (Z.of_nat (Ascii.nat_of_ascii c))); [|done].
  assert ((Ascii.nat_of_ascii c =? 45)%nat = false ∧ (Ascii.nat_of_ascii c =? 43)%nat = false) as [-> ->] by (split; apply Nat.eqb_neq; lia).
  rewrite Hp. destruct (Z.ltb_spec n (2 ^ 63)); [done|lia].
Qed.

Lemma ParseInt_Itoa n : - 2 ^ 63 ≤ n < 2 ^ 63 → ParseInt (Itoa n) = Some n.
Proof.
  intros Hn. unfold Itoa. destruct (Z.ltb_spec n 0); [|apply ParseInt_FormatUint; lia].
  unfold ParseInt. cbn [String.append]. change (Ascii.nat_of_ascii _ =? 45)%nat with true. cbv iota beta.
  rewrite Parse_FormatUint by (unfold fits; lia). destruct (Z.leb_spec (- n) (2 ^ 63)); [|lia]. f_equal. lia.
Qed.

Lemma ParseUint16_FormatUint n : is_u16 n → ParseUint 16 (FormatUint n) = Some n.
Proof.
  unfold fits. intros Hn. pose proof (Parse_FormatUint n ltac:(unfold fits; lia)) as H. unfold ParseUint in *.
  destruct (String.list_ascii_of_string (FormatUint n)); [done|]. destruct (fold_left _ _ _) as [v|]; [|done].
  destruct (v <? 2 ^ 64); simplify_eq. destruct (Z.ltb_spec n (2 ^ 16)); [done|lia].
Qed.
