(* ===== verification/Wire.v ===== *)
(** * The wire contract: pkg/wire/header.go and pkg/wire/message.go

    The fixed 24-byte session header carried by every data-plane datagram,
    its encoder and decoder byte by byte, and the control-plane envelope.
    The theorems are the round trips both ways, the length errors, and that
    encoding never touches the payload behind the header. *)

From S2P Require Import Prelude.

Module Header.

Definition SessionHeaderSize : nat := 24.
Definition Version : Z := 1.

(** [type PacketType uint8] *)
Definition PacketTypeData : Z := 0.
Definition PacketTypeProbe : Z := 1.
Definition PacketTypeKeepalive : Z := 2.

Definition PacketType_String (t : Z) : string :=
  if t =? PacketTypeData then "DATA"
  else if t =? PacketTypeProbe then "PROBE"
  else if t =? PacketTypeKeepalive then "KEEPALIVE"
  else ("UNKNOWN(" +:+ pretty t +:+ ")")%string.

(** [type Direction uint8] *)
Definition DirUpstream : Z := 0.
Definition DirDownstream : Z := 1.

Definition flagDirectionBit : Z := Z.shiftl 1 0.

Record SessionHeader := mkHeader {
  h_Version : Z;
  h_Type : Z;
  h_Direction : Z;
  h_SessionID : Z;
  h_Epoch : Z;
  h_SessionSeq : Z;
}.

#[export] Instance SessionHeader_eq_dec : EqDecision SessionHeader.
Proof. solve_decision. Defined.

Inductive wire_error :=
| EncodeBufferTooSmall (have need : nat)
| DecodeShortBuffer (have need : nat).

(** [EncodeTo] writes into the caller's buffer: the result is the buffer
    after the call. *)
Definition EncodeTo (h : SessionHeader) (buf : bytes) : res wire_error bytes :=
  if (length buf <? SessionHeaderSize)%nat then
    Err (EncodeBufferTooSmall (length buf) SessionHeaderSize)
  else
    let buf := <[0%nat := h_Version h]> buf in
    let buf := <[1%nat := h_Type h]> buf in
    let flags := if h_Direction h =? DirDownstream then Z.lor 0 flagDirectionBit else 0 in
    let buf := <[2%nat := flags]> buf in
    let buf := <[3%nat := 0]> buf in
    let buf := put_at 4 (be_put 8 (h_SessionID h)) buf in
    let buf := put_at 12 (be_put 4 (h_Epoch h)) buf in
    let buf := put_at 16 (be_put 8 (h_SessionSeq h)) buf in
    Ok buf.

(** [Encode] allocates a zeroed buffer; a failure of [EncodeTo] is a panic. *)
Definition Encode (h : SessionHeader) : option bytes :=
  match EncodeTo h (replicate SessionHeaderSize 0) with
  | Ok buf => Some buf
  | Err _ => None
  end.

Definition Decode (buf : bytes) : res wire_error (SessionHeader * nat) :=
  if (length buf <? SessionHeaderSize)%nat then
    Err (DecodeShortBuffer (length buf) SessionHeaderSize)
  else
    let flags := nth 2 buf 0 in
    let dir := if negb (Z.land flags flagDirectionBit =? 0) then DirDownstream else DirUpstream in
    let h := {|
      h_Version := nth 0 buf 0;
      h_Type := nth 1 buf 0;
      h_Direction := dir;
      h_SessionID := be_get (slice 4 12 buf);
      h_Epoch := be_get (slice 12 16 buf);
      h_SessionSeq := be_get (slice 16 24 buf);
    |} in
    Ok (h, SessionHeaderSize).

(** A header whose fields fit their Go types and whose direction is one of
    the two named constants. *)
Record wf_header (h : SessionHeader) : Prop := {
  wf_Version : is_u8 (h_Version h);
  wf_Type : is_u8 (h_Type h);
  wf_Direction : h_Direction h = DirUpstream ∨ h_Direction h = DirDownstream;
  wf_SessionID : is_u64 (h_SessionID h);
  wf_Epoch : is_u32 (h_Epoch h);
  wf_SessionSeq : is_u64 (h_SessionSeq h);
}.

(** The same header bytes written out as one list: the layout table of the
    header's doc comment. *)
Definition layout (h : SessionHeader) : bytes :=
  [h_Version h; h_Type h; (if h_Direction h =? DirDownstream then 1 else 0); 0]
  ++ be_put 8 (h_SessionID h) ++ be_put 4 (h_Epoch h) ++ be_put 8 (h_SessionSeq h).

(** ** Lemmas *)

Lemma length_layout h : length (layout h) = SessionHeaderSize.
Proof. done. Qed.

Lemma EncodeTo_layout h buf :
  (SessionHeaderSize ≤ length buf)%nat →
  EncodeTo h buf = Ok (layout h ++ drop SessionHeaderSize buf).
Proof.
  intros Hl. unfold EncodeTo. destruct (Nat.ltb_spec (length buf) SessionHeaderSize); [lia|].
  unfold SessionHeaderSize in *.
  do 24 (destruct buf as [|? buf]; [simpl in Hl; lia|]). reflexivity.
Qed.

Lemma Decode_app h rest :
  wf_header h → Decode (layout h ++ rest) = Ok (h, SessionHeaderSize).
Proof.
  intros [HV HT HD HS HE HQ]. unfold Decode.
  rewrite length_app, length_layout.
  destruct (Nat.ltb_spec (SessionHeaderSize + length rest) SessionHeaderSize); [lia|].
  unfold layout. rewrite <- !app_assoc.
  set (p4 := [h_Version h; _; _; _]).
  set (sid := be_put 8 _); set (ep := be_put 4 _); set (sq := be_put 8 (h_SessionSeq h)).
  assert (slice 4 12 (p4 ++ sid ++ ep ++ sq ++ rest) = sid) as -> by reflexivity.
  assert (slice 12 16 (p4 ++ sid ++ ep ++ sq ++ rest) = ep) as -> by reflexivity.
  assert (slice 16 24 (p4 ++ sid ++ ep ++ sq ++ rest) = sq) as -> by reflexivity.
  unfold sid, ep, sq.
  rewrite (be_get_put 8 _ 64), (be_get_put 4 _ 32), (be_get_put 8 _ 64) by done.
  simpl. destruct h as [v t d s e q]; simpl in *.
  by destruct HD as [-> | ->].
Qed.

Lemma Decode_inv buf h n :
  Decode buf = Ok (h, n) → n = SessionHeaderSize ∧ (SessionHeaderSize ≤ length buf)%nat.
Proof.
  unfold Decode. destruct (Nat.ltb_spec (length buf) SessionHeaderSize); [done|].
  intros [= <- <-]. done.
Qed.

(** ** Properties *)

(** A header encoded into any large enough buffer decodes to itself, the
    decoder consumes exactly the 24 header bytes, and the bytes behind the
    header are left as they were. *)
Theorem header_roundtrip h buf :
  wf_header h → (SessionHeaderSize ≤ length buf)%nat →
  ∃ buf', EncodeTo h buf = Ok buf' ∧ Decode buf' = Ok (h, SessionHeaderSize) ∧
          length buf' = length buf ∧ drop SessionHeaderSize buf' = drop SessionHeaderSize buf.
Proof.
  intros Hwf Hl. exists (layout h ++ drop SessionHeaderSize buf). split_and!.
  - by apply EncodeTo_layout.
  - by apply Decode_app.
  - rewrite length_app, length_drop, length_layout. lia.
  - by apply drop_app_length'.
Qed.

Lemma header_roundtrip_witness :
  ∃ buf', EncodeTo (mkHeader 1 0 1 (2 ^ 63 + 5) 7 300) (replicate 30 9) = Ok buf' ∧
          Decode buf' = Ok (mkHeader 1 0 1 (2 ^ 63 + 5) 7 300, SessionHeaderSize) ∧
          length buf' = length (replicate 30 9) ∧
          drop SessionHeaderSize buf' = drop SessionHeaderSize (replicate 30 9).
Proof.
  apply (header_roundtrip (mkHeader 1 0 1 (2 ^ 63 + 5) 7 300) (replicate 30 9)).
  - split; simpl; unfold fits; first [lia | by right].
  - simpl. unfold SessionHeaderSize. lia.
Defined.

(** Decoding fails exactly on buffers shorter than 24 bytes, whatever the
    version, type, flag and reserved bytes are; every other buffer of bytes
    decodes to a header whose fields fit their types. *)
Theorem Decode_total buf :
  wf_bytes buf →
  ((length buf < SessionHeaderSize)%nat ∧
     Decode buf = Err (DecodeShortBuffer (length buf) SessionHeaderSize)) ∨
  ((SessionHeaderSize ≤ length buf)%nat ∧
     ∃ h, Decode buf = Ok (h, SessionHeaderSize) ∧ wf_header h ∧
          h_Version h = nth 0 buf 0 ∧ h_Type h = nth 1 buf 0).
Proof.
  intros Hb. unfold Decode.
  destruct (Nat.ltb_spec (length buf) SessionHeaderSize); [by left|right].
  split; [done|]. eexists. split; [done|]. split; [|done].
  assert (∀ i, is_u8 (nth i buf 0)) as Hnth.
  { intros i. destruct (nth_in_or_default i buf 0) as [Hin| ->]; [|unfold fits; lia].
    unfold wf_bytes in Hb. rewrite Forall_forall in Hb. apply Hb, list_elem_of_In, Hin. }
  assert (∀ i j, (i ≤ j)%nat → (j ≤ 24)%nat →
    0 ≤ be_get (slice i j buf) < 256 ^ Z.of_nat (j - i)) as Hget.
  { intros i j ??. rewrite <- (length_slice i j buf) by (unfold SessionHeaderSize in *; lia).
    apply be_get_bound, Forall_take, Forall_drop, Hb. }
  split; simpl; try apply Hnth.
  - destruct (negb _); [by right | by left].
  - exact (Hget 4%nat 12%nat ltac:(lia) ltac:(lia)).
  - exact (Hget 12%nat 16%nat ltac:(lia) ltac:(lia)).
  - exact (Hget 16%nat 24%nat ltac:(lia) ltac:(lia)).
Qed.

Lemma Decode_total_witness :
  Decode (replicate 24 255) = Ok (mkHeader 255 255 1 (2 ^ 64 - 1) (2 ^ 32 - 1) (2 ^ 64 - 1), 24%nat).
Proof.
  destruct (Decode_total (replicate 24 255)) as [[Hlt _]|_].
  - apply Forall_replicate. unfold fits. lia.
  - exfalso. unfold SessionHeaderSize in Hlt. simpl in Hlt. lia.
  - reflexivity.
Defined.

End Header.

(** ** The control-plane envelope (message.go) *)

Module Message.

Definition MsgHello : string := "HELLO".
Definition MsgHeartbeat : string := "HEARTBEAT".
Definition MsgMigratePrepare : string := "MIGRATE_PREPARE".
Definition MsgSessionStateTransfer : string := "SESSION_STATE_TRANSFER".
Definition MsgSessionReady : string := "SESSION_READY".
Definition MsgMigrateCommit : string := "MIGRATE_COMMIT".
Definition MsgDrain : string := "DRAIN".
Definition MsgMigrateComplete : string := "MIGRATE_COMPLETE".
Definition MsgMigrateAbort : string := "MIGRATE_ABORT".

(** [Payload] is a [json.RawMessage]: the payload's own encoding, uninterpreted. *)
Record Envelope := mkEnvelope {
  e_Type : string;
  e_SessionID : Z;
  e_Epoch : Z;
  e_Payload : bytes;
}.

Record MigratePreparePayload := mkPrepare {
  TargetGateway : string;
  NewEpoch : Z;
}.

#[export] Instance Envelope_eq_dec : EqDecision Envelope.
Proof. solve_decision. Defined.
#[export] Instance Envelope_countable : Countable Envelope.
Proof.
  refine (inj_countable' (λ e, (e_Type e, e_SessionID e, e_Epoch e, e_Payload e))
            (λ '(t, s, n, p), mkEnvelope t s n p) _). by intros [].
Defined.
#[export] Instance MigratePreparePayload_eq_dec : EqDecision MigratePreparePayload.
Proof. solve_decision. Defined.
#[export] Instance MigratePreparePayload_countable : Countable MigratePreparePayload.
Proof.
  refine (inj_countable' (λ p, (TargetGateway p, NewEpoch p)) (λ '(g, n), mkPrepare g n) _).
  by intros [].
Defined.

Inductive message_error :=
| EncodeFailed
| DecodeFailed
| MissingType
| PrepareEncodeFailed
| WrongType (got want : string)
| PrepareDecodeFailed.

Section Messages.
Context `{!Codec Envelope, !Codec MigratePreparePayload}.

Definition Envelope_Encode (e : Envelope) : res message_error bytes :=
  match marshal e with Some b => Ok b | None => Err EncodeFailed end.

Definition DecodeEnvelope (data : bytes) : res message_error Envelope :=
  match unmarshal data with
  | None => Err DecodeFailed
  | Some e => if decide (e_Type e = "") then Err MissingType else Ok e
  end.

Definition NewMigratePrepare (sessionID currentEpoch : Z) (targetGateway : string) (newEpoch : Z)
    : res message_error Envelope :=
  match marshal (mkPrepare targetGateway newEpoch) with
  | None => Err PrepareEncodeFailed
  | Some payload => Ok (mkEnvelope MsgMigratePrepare sessionID currentEpoch payload)
  end.

Definition AsMigratePrepare (e : Envelope) : res message_error MigratePreparePayload :=
  if negb (bool_decide (e_Type e = MsgMigratePrepare)) then
    Err (WrongType (e_Type e) MsgMigratePrepare)
  else
    match unmarshal (e_Payload e) with
    | None => Err PrepareDecodeFailed
    | Some p => Ok p
    end.

Context `{!CodecLaws Envelope, !CodecLaws MigratePreparePayload}.

(** A decoded envelope always has a type, and an encoded one with a type reads
    back unchanged. *)
Lemma DecodeEnvelope_type data e : DecodeEnvelope data = Ok e → e_Type e ≠ "".
Proof. unfold DecodeEnvelope. intros. cases; done. Qed.

Lemma Envelope_roundtrip e b :
  codec_ok e → e_Type e ≠ "" → Envelope_Encode e = Ok b → DecodeEnvelope b = Ok e.
Proof.
  unfold Envelope_Encode, DecodeEnvelope. intros Hok Ht Hm.
  destruct (marshal e) eqn:?; simplify_eq.
  erewrite unmarshal_marshal by done. by rewrite decide_False.
Qed.

(** A MIGRATE_PREPARE message built by one side, sent as an encoded
    envelope and decoded by the other yields the session, epoch, target
    gateway and new epoch it was built from. *)
Theorem migrate_prepare_roundtrip sid epoch gw ne e b :
  codec_ok (mkPrepare gw ne) → codec_ok e →
  NewMigratePrepare sid epoch gw ne = Ok e → Envelope_Encode e = Ok b →
  ∃ e', DecodeEnvelope b = Ok e' ∧ e_SessionID e' = sid ∧ e_Epoch e' = epoch ∧
        AsMigratePrepare e' = Ok (mkPrepare gw ne).
Proof.
  intros Hp He Hnew Henc. exists e.
  unfold NewMigratePrepare in Hnew. destruct (marshal (mkPrepare gw ne)) eqn:Hm; simplify_eq.
  rewrite (Envelope_roundtrip _ _ He ltac:(done) Henc). split_and!; try done.
  unfold AsMigratePrepare; simpl. by erewrite unmarshal_marshal.
Qed.

End Messages.

Lemma migrate_prepare_roundtrip_witness :
  let CE := countable_codec Envelope in
  let CP := countable_codec MigratePreparePayload in
  ∃ e b e', @NewMigratePrepare CP 7 3 "sg" 4 = Ok e ∧ @Envelope_Encode CE e = Ok b ∧
    @DecodeEnvelope CE b = Ok e' ∧ @AsMigratePrepare CP e' = Ok (mkPrepare "sg" 4).
Proof.
  intros CE CP. destruct (@NewMigratePrepare CP 7 3 "sg" 4) as [e|] eqn:Hn; [|discriminate].
  destruct (@Envelope_Encode CE e) as [b|] eqn:Hb; [|discriminate].
  destruct (@migrate_prepare_roundtrip CE CP (countable_codec_laws _) (countable_codec_laws _)
              7 3 "sg" 4 e b I I Hn Hb) as (e' & Hd & _ & _ & Ha).
  by exists e, b, e'.
Defined.

End Message.
