(* ===== verification/Store.v ===== *)
(** * The key-value store: internal/control/store.go and internal/controller/filestore.go

    [MemStore] is modelled with its data map, its revision counter and its
    watch channels. A method that holds the mutex throughout is one function;
    [notify], which releases the mutex before it sends, is split into the
    steps another goroutine can interleave with. [KVStore] and [Fencer] are
    the Go interfaces as classes; their laws are what the ownership service
    relies on, and [MemStore] discharges them. [FileStore] adds the file,
    with the file system's answer to each save as an input. *)

From S2P Require Import Prelude.

(** ** The interfaces *)

Inductive store_error := StoreFailure (msg : string).

Record Event := mkEvent { ev_Key : string; ev_Value : bytes; ev_Deleted : bool }.

(** [Put] and [CompareAndSwap] change the store; the other methods only read
    it. [None] as an error is Go's nil. *)
Class KVStore (S : Type) := {
  kv_Put : string → bytes → S → S * option store_error;
  kv_Get : string → S → res store_error (option bytes);
  kv_List : string → S → res store_error (gmap string bytes);
}.

Class Fencer (S : Type) := {
  fence_Revision : string → S → res store_error (option Z);
  fence_CompareAndSwap : string → Z → bytes → S → S * res store_error (Z * bool);
}.

(** What a fenced store promises on the states satisfying [kv_inv]. *)
Class FencedLaws (S : Type) `{KVStore S, Fencer S} := {
  kv_inv : S → Prop;
  (** room for one more write *)
  kv_room : S → Prop;
  (** reads that find a key agree, and a found revision is not zero *)
  law_Revision_Get : ∀ s k, kv_inv s →
    (fence_Revision k s = Ok None ∧ kv_Get k s = Ok None) ∨
    (∃ r v, fence_Revision k s = Ok (Some r) ∧ kv_Get k s = Ok (Some v) ∧ r ≠ 0);
  (** a swap whose expectation holds stores the value and nothing else *)
  law_CAS_hit : ∀ s k v, kv_inv s → kv_room s →
    let expected := match fence_Revision k s with Ok (Some r) => r | _ => 0 end in
    ∃ s' r, fence_CompareAndSwap k expected v s = (s', Ok (r, true)) ∧
      kv_inv s' ∧ kv_Get k s' = Ok (Some v) ∧
      (∀ k', k' ≠ k → kv_Get k' s' = kv_Get k' s);
}.

(** ** MemStore *)

Record memEntry := mkEntry { me_value : bytes; me_revision : Z }.

(** A channel is a name; [chans] holds the buffers of the open ones. A
    channel that is not in [chans] any more has been closed. *)
Record MemStore := mkMem {
  ms_data : gmap string memEntry;
  ms_nextRev : Z;
  ms_watchers : gmap string (list nat);
  ms_chans : gmap nat (list Event);
  ms_nextChan : nat;
}.

Definition NewMemStore : MemStore := mkMem ∅ 0 ∅ ∅ 0.

(** The critical section [Put] and [CompareAndSwap] share. *)
Definition mem_write (key : string) (value : bytes) (m : MemStore) : MemStore :=
  let rev := i64 (ms_nextRev m + 1) in
  mkMem (<[key := mkEntry value rev]> (ms_data m)) rev
        (ms_watchers m) (ms_chans m) (ms_nextChan m).

(** [notify], first half: the channels to send to, collected under the mutex. *)
Definition notify_collect (ev : Event) (m : MemStore) : list nat :=
  concat (snd <$> filter (λ pc, HasPrefix (ev_Key ev) pc.1) (map_to_list (ms_watchers m))).

Definition chan_cap : nat := 16.

(** [notify], second half, for one channel: a send that never blocks. A full
    buffer drops the event; sending on a closed channel panics ([None]). *)
Definition notify_send (ch : nat) (ev : Event) (m : MemStore) : option MemStore :=
  match ms_chans m !! ch with
  | None => None
  | Some buf =>
      if (length buf <? chan_cap)%nat then
        Some (mkMem (ms_data m) (ms_nextRev m) (ms_watchers m)
                    (<[ch := buf ++ [ev]]> (ms_chans m)) (ms_nextChan m))
      else Some m
  end.

Fixpoint notify_sends (chs : list nat) (ev : Event) (m : MemStore) : option MemStore :=
  match chs with
  | [] => Some m
  | ch :: chs => match notify_send ch ev m with
                 | None => None
                 | Some m => notify_sends chs ev m
                 end
  end.

Definition notify (ev : Event) (m : MemStore) : option MemStore :=
  notify_sends (notify_collect ev m) ev m.

(** [Put] run without interruption; [None] is a panic. *)
Definition mem_Put (key : string) (value : bytes) (m : MemStore) : option MemStore :=
  notify (mkEvent key value false) (mem_write key value m).

Definition mem_Get (key : string) (m : MemStore) : option bytes :=
  me_value <$> ms_data m !! key.

Definition mem_List (prefix : string) (m : MemStore) : gmap string bytes :=
  me_value <$> filter (λ ke, HasPrefix ke.1 prefix) (ms_data m).

(** [Watch]: register a fresh buffered channel. *)
Definition mem_Watch (prefix : string) (m : MemStore) : MemStore * nat :=
  let ch := ms_nextChan m in
  (mkMem (ms_data m) (ms_nextRev m)
         (<[prefix := default [] (ms_watchers m !! prefix) ++ [ch]]> (ms_watchers m))
         (<[ch := []]> (ms_chans m)) (S ch), ch).

(** What [Watch]'s goroutine does once the context ends: drop the channel
    from the watchers (its first occurrence) and close it. *)
Fixpoint remove_first (ch : nat) (chs : list nat) : list nat :=
  match chs with
  | [] => []
  | c :: chs => if decide (c = ch) then chs else c :: remove_first ch chs
  end.

Definition mem_Unwatch (prefix : string) (ch : nat) (m : MemStore) : MemStore :=
  mkMem (ms_data m) (ms_nextRev m)
        (<[prefix := remove_first ch (default [] (ms_watchers m !! prefix))]> (ms_watchers m))
        (delete ch (ms_chans m)) (ms_nextChan m).

Definition mem_Revision (key : string) (m : MemStore) : option Z :=
  me_revision <$> ms_data m !! key.

Definition mem_CompareAndSwap (key : string) (expectedRevision : Z) (value : bytes) (m : MemStore)
    : option (MemStore * (Z * bool)) :=
  let cur := match ms_data m !! key with Some e => me_revision e | None => 0 end in
  if negb (cur =? expectedRevision) then Some (m, (cur, false))
  else
    let m' := mem_write key value m in
    let rev := ms_nextRev m' in
    match notify (mkEvent key value false) m' with
    | None => None
    | Some m'' => Some (m'', (rev, true))
    end.

(** ** Invariant: revisions are fresh and positive, and every channel a
    watcher list names is open. *)
Record mem_ok (m : MemStore) : Prop := {
  ok_rev_bound : 0 ≤ ms_nextRev m ≤ i64_max;
  ok_rev : ∀ k e, ms_data m !! k = Some e → 0 < me_revision e ≤ ms_nextRev m;
  ok_open : ∀ p chs ch, ms_watchers m !! p = Some chs → ch ∈ chs → is_Some (ms_chans m !! ch);
  ok_fresh : ∀ ch, is_Some (ms_chans m !! ch) → (ch < ms_nextChan m)%nat;
}.

(** The store is not about to run out of revisions. *)
Definition mem_room (m : MemStore) : Prop := ms_nextRev m < i64_max.

(** Two stores with the same data and revision counter: the watchers and
    their buffers may differ. *)
Definition same_data (m m' : MemStore) : Prop :=
  ms_data m = ms_data m' ∧ ms_nextRev m = ms_nextRev m'.

(** ** Lemmas *)

#[export] Instance same_data_equiv : Equivalence same_data.
Proof. split; unfold same_data; [done | by intros ?? [-> ->] | intros ??? [-> ->] [-> ->]; done]. Qed.

#[export] Instance mem_Get_proper k : Proper (same_data ==> eq) (mem_Get k).
Proof. intros ?? [Hd _]. unfold mem_Get. by rewrite Hd. Qed.

#[export] Instance mem_Revision_proper k : Proper (same_data ==> eq) (mem_Revision k).
Proof. intros ?? [Hd _]. unfold mem_Revision. by rewrite Hd. Qed.

Lemma mem_write_nextRev k v m :
  mem_ok m → mem_room m → ms_nextRev (mem_write k v m) = ms_nextRev m + 1.
Proof.
  intros [? _ _ _] ?. unfold mem_room in *. simpl. apply i64_small.
  unfold i64_min, i64_max in *. lia.
Qed.

Lemma mem_write_ok k v m : mem_ok m → mem_room m → mem_ok (mem_write k v m).
Proof.
  intros Hok Hroom. pose proof (mem_write_nextRev k v m Hok Hroom) as Hn.
  destruct Hok as [Hb Hr Ho Hf]. unfold mem_room in Hroom.
  split; [rewrite Hn; lia| | exact Ho | exact Hf].
  intros k' e He. rewrite Hn. simpl in *. rewrite Hn in He.
  apply lookup_insert_Some in He as [[-> <-]|[_ He]]; simpl; [lia|].
  apply Hr in He. lia.
Qed.

Lemma notify_send_open ch ev m :
  is_Some (ms_chans m !! ch) →
  ∃ m', notify_send ch ev m = Some m' ∧ same_data m m' ∧
        ms_watchers m' = ms_watchers m ∧ ms_nextChan m' = ms_nextChan m ∧
        (∀ c, is_Some (ms_chans m' !! c) ↔ is_Some (ms_chans m !! c)).
Proof.
  intros [buf Hb]. unfold notify_send. rewrite Hb.
  destruct (_ <? _)%nat; eexists; split_and!; try done.
  intros c. simpl. destruct (decide (c = ch)) as [->|]; simplify_map_eq; [|done].
  split; eauto.
Qed.

Lemma notify_sends_open chs ev m :
  (∀ ch, ch ∈ chs → is_Some (ms_chans m !! ch)) →
  ∃ m', notify_sends chs ev m = Some m' ∧ same_data m m' ∧
        ms_watchers m' = ms_watchers m ∧ ms_nextChan m' = ms_nextChan m ∧
        (∀ c, is_Some (ms_chans m' !! c) ↔ is_Some (ms_chans m !! c)).
Proof.
  revert m. induction chs as [|ch chs IH]; intros m Hall; simpl; [by exists m|].
  destruct (notify_send_open ch ev m) as (m1 & -> & Hd1 & Hw1 & Hn1 & Hc1); [apply Hall; left|].
  destruct (IH m1) as (m2 & -> & Hd2 & Hw2 & Hn2 & Hc2).
  { intros c Hc. apply Hc1, Hall. by right. }
  exists m2. split_and!; try congruence; [by etrans|].
  intros c. by rewrite Hc2, Hc1.
Qed.

Lemma notify_collect_In ev m ch :
  ch ∈ notify_collect ev m ↔
  ∃ p chs, ms_watchers m !! p = Some chs ∧ HasPrefix (ev_Key ev) p = true ∧ ch ∈ chs.
Proof.
  unfold notify_collect. rewrite list_elem_of_In, in_concat. split.
  - intros (chs & Hin & Hch). apply list_elem_of_In, list_elem_of_fmap in Hin as ([p chs'] & -> & Hin).
    apply list_elem_of_filter in Hin as [Hp Hin]. apply elem_of_map_to_list in Hin.
    exists p, chs'. split_and!; [done| |by apply list_elem_of_In].
    simpl in Hp. by destruct (HasPrefix (ev_Key ev) p).
  - intros (p & chs & Hw & Hp & Hch). exists chs. split; [|by apply list_elem_of_In].
    apply list_elem_of_In, list_elem_of_fmap. exists (p, chs). split; [done|].
    apply list_elem_of_filter. split; [simpl; by rewrite Hp | by apply elem_of_map_to_list].
Qed.

Lemma notify_ok ev m :
  mem_ok m → ∃ m', notify ev m = Some m' ∧ mem_ok m' ∧ same_data m m'.
Proof.
  intros [Hb Hr Ho Hf]. unfold notify.
  destruct (notify_sends_open (notify_collect ev m) ev m) as (m' & -> & Hd & Hw & Hn & Hc).
  { intros ch (p & chs & Hp & _ & Hin)%notify_collect_In. eauto. }
  exists m'. split_and!; [done| |done]. destruct Hd as [Hd Hrev].
  split; rewrite <- ?Hd, <- ?Hrev, ?Hw, ?Hn; try done.
  - intros p chs ch Hp Hin. apply Hc. eauto.
  - intros ch Hch. apply Hf, Hc, Hch.
Qed.

Lemma mem_Put_ok k v m :
  mem_ok m → mem_room m →
  ∃ m', mem_Put k v m = Some m' ∧ mem_ok m' ∧ same_data (mem_write k v m) m'.
Proof. intros Hok Hr. apply notify_ok. by apply mem_write_ok. Qed.

Lemma mem_Get_write k v m k' :
  mem_Get k' (mem_write k v m) = if decide (k = k') then Some v else mem_Get k' m.
Proof. unfold mem_Get. simpl. rewrite lookup_insert. by case_decide. Qed.

Lemma mem_CAS_spec k x v m :
  mem_ok m → mem_room m →
  let cur := default 0 (mem_Revision k m) in
  ∃ m' r ok, mem_CompareAndSwap k x v m = Some (m', (r, ok)) ∧ mem_ok m' ∧
    (ok = true ∧ x = cur ∧ same_data (mem_write k v m) m' ∧ r = ms_nextRev m' ∨
     ok = false ∧ x ≠ cur ∧ m' = m ∧ r = cur).
Proof.
  intros Hok Hr cur. unfold mem_CompareAndSwap.
  assert (match ms_data m !! k with Some e => me_revision e | None => 0 end = cur) as ->.
  { unfold cur, mem_Revision. by destruct (ms_data m !! k). }
  destruct (Z.eqb_spec cur x) as [<-|Hne]; simpl.
  - destruct (notify_ok (mkEvent k v false) (mem_write k v m)) as (m' & -> & Hok' & Hd).
    { by apply mem_write_ok. }
    exists m', (ms_nextRev (mem_write k v m)), true. split_and!; try done. left.
    split_and!; try done. apply Hd.
  - exists m, cur, false. split_and!; try done. right. by split_and!.
Qed.

Lemma mem_Watch_ok p m : mem_ok m → mem_ok (mem_Watch p m).1.
Proof.
  intros [Hb Hr Ho Hf]. split; simpl; try done.
  - intros q chs ch Hq Hin. rewrite lookup_insert_is_Some'.
    apply lookup_insert_Some in Hq as [[<- <-]|[_ Hq]]; [|right; eauto].
    apply elem_of_app in Hin as [Hin| ->%list_elem_of_singleton]; [|by left].
    destruct (ms_watchers m !! p) eqn:E; simpl in Hin; [|by apply elem_of_nil in Hin].
    right. eauto.
  - intros ch [->|Hch]%lookup_insert_is_Some'; [lia|]. apply Hf in Hch. lia.
Qed.

(** ** FileStore *)

Record FileStore := mkFile {
  fs_mem : MemStore;
  fs_disk : option (gmap string bytes);
  (** the file system's answer to each coming save: [true] when every step
      of writing and renaming the temporary file succeeds *)
  fs_saves : list bool;
}.

(** What a value reads back as after it was saved and loaded: the file holds
    every value as raw JSON, re-indented by [json.MarshalIndent], and a value
    that is not JSON fails the save ([None]). *)
Class RawJSON := { reformat : bytes → option bytes }.

Section FileStore.
Context {RJ : RawJSON}.

(** The file's content for a store: all values reformatted, or an error. *)
Definition fs_content (m : MemStore) : option (gmap string bytes) :=
  let kv := mem_List "" m in
  if decide (map_Forall (λ _ v, is_Some (reformat v)) kv) then Some (omap reformat kv) else None.

(** [save] writes every key to a temporary file and renames it over the
    state file, so a failure leaves the file as it was. *)
Definition fs_save (f : FileStore) : FileStore * option store_error :=
  match fs_content (fs_mem f) with
  | None => (f, Some (StoreFailure "encode state"))
  | Some kv =>
      match fs_saves f with
      | true :: rest => (mkFile (fs_mem f) (Some kv) rest, None)
      | false :: rest => (mkFile (fs_mem f) (fs_disk f) rest, Some (StoreFailure "save state"))
      | [] => (mkFile (fs_mem f) (Some kv) [], None)
      end
  end.

Definition fs_Put (key : string) (value : bytes) (f : FileStore)
    : option (FileStore * option store_error) :=
  match mem_Put key value (fs_mem f) with
  | None => None
  | Some m => Some (fs_save (mkFile m (fs_disk f) (fs_saves f)))
  end.

Definition fs_CompareAndSwap (key : string) (expectedRevision : Z) (value : bytes) (f : FileStore)
    : option (FileStore * (Z * bool * option store_error)) :=
  match mem_CompareAndSwap key expectedRevision value (fs_mem f) with
  | None => None
  | Some (m, (rev, ok)) =>
      let f' := mkFile m (fs_disk f) (fs_saves f) in
      if negb ok then Some (f', (rev, ok, None))
      else let '(f'', err) := fs_save f' in Some (f'', (rev, ok, err))
  end.
End FileStore.

(** [OpenFileStore]: a missing file is an empty store; otherwise every key of
    the file is [Put], in the (arbitrary) order of the map. *)
Definition OpenFileStore (disk : option (gmap string bytes)) (saves : list bool) : option FileStore :=
  match disk with
  | None => Some (mkFile NewMemStore None saves)
  | Some kv =>
      match foldr (λ kv m, match m with Some m => mem_Put kv.1 kv.2 m | None => None end)
                  (Some NewMemStore) (map_to_list kv) with
      | None => None
      | Some m => Some (mkFile m (Some kv) saves)
      end
  end.

Lemma mem_List_all m : mem_List "" m = me_value <$> ms_data m.
Proof.
  unfold mem_List. f_equal. apply map_filter_id. intros k e _. simpl. by destruct k.
Qed.

Lemma NewMemStore_ok : mem_ok NewMemStore.
Proof.
  split; simpl; [unfold i64_max; lia| | |]; intros *; rewrite ?lookup_empty; try done.
Qed.

Lemma puts_ok l m :
  mem_ok m → ms_nextRev m + Z.of_nat (length l) ≤ i64_max → NoDup l.*1 →
  ∃ m', foldr (λ kv m, match m with Some m => mem_Put kv.1 kv.2 m | None => None end) (Some m) l
          = Some m' ∧ mem_ok m' ∧ ms_nextRev m' = ms_nextRev m + Z.of_nat (length l) ∧
        ∀ k, mem_Get k m' = match (list_to_map l : gmap string bytes) !! k with
                            | Some v => Some v | None => mem_Get k m end.
Proof.
  intros Hok. induction l as [|[k v] l IH]; intros Hb Hnd.
  - exists m. simpl. split_and!; [done|done|lia|]. intros k. by rewrite lookup_empty.
  - cbn [length] in *. rewrite Nat2Z.inj_succ in *. apply NoDup_cons in Hnd as [Hk Hnd].
    destruct IH as (m1 & Hm1 & Hok1 & Hr1 & Hg1); [lia|done|].
    cbn [foldr fst snd]. rewrite Hm1.
    destruct (mem_Put_ok k v m1) as (m2 & -> & Hok2 & Hd2); [done|unfold mem_room; lia|].
    exists m2. split_and!; try done.
    + destruct Hd2 as [_ <-]. rewrite mem_write_nextRev by (done || unfold mem_room; lia). lia.
    + intros k'. rewrite <- (mem_Get_proper k' _ _ Hd2), mem_Get_write.
      change (list_to_map ((k, v) :: l) : gmap string bytes) with
        (<[k := v]> (list_to_map l : gmap string bytes)).
      rewrite lookup_insert. case_decide; simplify_eq; [done|]. apply Hg1.
Qed.

(** ** The classes, discharged for MemStore. A panicking method has no
    answer, so the instance answers as the source does outside a panic; the
    invariant rules the panic out. *)

#[export] Instance MemStore_KVStore : KVStore MemStore := {
  kv_Put k v m := (default m (mem_Put k v m), None);
  kv_Get k m := Ok (mem_Get k m);
  kv_List p m := Ok (mem_List p m);
}.

#[export] Instance MemStore_Fencer : Fencer MemStore := {
  fence_Revision k m := Ok (mem_Revision k m);
  fence_CompareAndSwap k x v m :=
    match mem_CompareAndSwap k x v m with
    | Some (m', r) => (m', Ok r)
    | None => (m, Err (StoreFailure "panic"))
    end;
}.

#[export] Instance MemStore_FencedLaws : FencedLaws MemStore.
Proof.
  refine {| kv_inv := mem_ok; kv_room := mem_room |}.
  - intros m k [_ Hr _ _]. simpl. unfold mem_Revision, mem_Get.
    destruct (ms_data m !! k) as [e|] eqn:E; simpl; [right|by left].
    exists (me_revision e), (me_value e). split_and!; try done. apply Hr in E. lia.
  - intros m k v Hok Hroom expected. simpl.
    assert (expected = default 0 (mem_Revision k m)) as Hx.
    { unfold expected. simpl. by destruct (mem_Revision k m). }
    destruct (mem_CAS_spec k expected v m Hok Hroom) as (m' & r & ok & -> & Hok' & [Hh|Hm]).
    + destruct Hh as (-> & _ & Hd & _). exists m', r. split_and!; try done.
      * rewrite <- (mem_Get_proper k _ _ Hd), mem_Get_write. by rewrite decide_True.
      * intros k' Hk. rewrite <- (mem_Get_proper k' _ _ Hd), mem_Get_write.
        by rewrite decide_False.
    + destruct Hm as (_ & Hne & _). by rewrite Hx in Hne.
Defined.

(** The store as a map from keys to values: what the services that only put,
    get and list rely on. *)
Class KVLaws (S : Type) `{KVStore S} := {
  kvl_inv : S → Prop;
  (** how many more writes the store has revisions for *)
  kvl_left : S → Z;
  kvl_data : S → gmap string bytes;
  law_Get : ∀ s k, kvl_inv s → kv_Get k s = Ok (kvl_data s !! k);
  law_List : ∀ s p, kvl_inv s →
    kv_List p s = Ok (filter (λ kv, HasPrefix kv.1 p = true) (kvl_data s));
  law_Put : ∀ s k v, kvl_inv s → 0 < kvl_left s →
    ∃ s', kv_Put k v s = (s', None) ∧ kvl_inv s' ∧ kvl_left s' = kvl_left s - 1 ∧
      kvl_data s' = <[k := v]> (kvl_data s);
}.

(** The same, with the fencing operations: for what puts, gets, lists and
    swaps on one store. *)
Class FencedView (S : Type) `{KVLaws S, Fencer S} := {
  law_Revision : ∀ s k, kvl_inv s →
    match kvl_data s !! k with
    | None => fence_Revision k s = Ok None
    | Some _ => ∃ r, fence_Revision k s = Ok (Some r) ∧ r ≠ 0
    end;
  law_CAS : ∀ s k v, kvl_inv s → 0 < kvl_left s →
    let expected := match fence_Revision k s with Ok (Some r) => r | _ => 0 end in
    ∃ s' r, fence_CompareAndSwap k expected v s = (s', Ok (r, true)) ∧ kvl_inv s' ∧
      kvl_left s' = kvl_left s - 1 ∧ kvl_data s' = <[k := v]> (kvl_data s);
}.

#[export] Instance MemStore_KVLaws : KVLaws MemStore.
Proof.
  refine {| kvl_inv := mem_ok; kvl_left m := i64_max - ms_nextRev m;
            kvl_data m := me_value <$> ms_data m |}.
  - intros m k _. simpl. by rewrite lookup_fmap.
  - intros m p _. simpl. unfold mem_List. f_equal. apply map_eq. intros k.
    rewrite lookup_fmap. apply option_eq. intros v.
    rewrite fmap_Some, map_lookup_filter_Some, lookup_fmap, fmap_Some.
    setoid_rewrite map_lookup_filter_Some. split.
    + intros (e & [He Hp] & ->). split; [by exists e|]. by destruct (HasPrefix _ _).
    + intros [(e & He & ->) Hp]. exists e. split; [|done]. split; [done|]. simpl in *. by rewrite Hp.
  - intros m k v Hok Hl. assert (mem_room m) as Hr by (unfold mem_room; lia).
    pose proof (mem_write_nextRev k v m Hok Hr) as Hn.
    destruct (mem_Put_ok k v m Hok Hr) as (m' & Hm & Hok' & Hd).
    exists m'. simpl. rewrite Hm. destruct Hd as [Hd1 Hd2]. split_and!; try done.
    + rewrite <- Hd2. lia.
    + rewrite <- Hd1. simpl. by rewrite fmap_insert.
Defined.

#[export] Instance MemStore_FencedView : FencedView MemStore.
Proof.
  split.
  - intros m k [_ Hr _ _]. simpl. unfold mem_Revision. rewrite lookup_fmap.
    destruct (ms_data m !! k) as [e|] eqn:E; simpl; [|done].
    exists (me_revision e). split; [done|]. apply Hr in E. lia.
  - intros m k v Hok Hl expected. simpl.
    assert (mem_room m) as Hr by (unfold mem_room; simpl in Hl; lia).
    pose proof (mem_write_nextRev k v m Hok Hr) as Hn.
    assert (expected = default 0 (mem_Revision k m)) as Hx.
    { unfold expected. simpl. by destruct (mem_Revision k m). }
    destruct (mem_CAS_spec k expected v m Hok Hr) as (m' & r & ok & -> & Hok' & [Hh|Hm]).
    + destruct Hh as (-> & _ & [Hd1 Hd2] & _). exists m', r. split_and!; try done; simpl.
      * rewrite <- Hd2. lia.
      * rewrite <- Hd1. simpl. by rewrite fmap_insert.
    + destruct Hm as (_ & Hne & _). by rewrite Hx in Hne.
Qed.

(** ** Properties *)

(** A compare-and-swap on the in-memory store succeeds exactly when the
    key's revision is the expected one (0 for an absent key); a success
    stores the value under a revision above every earlier one and touches no
    other key, and a failure reports the current revision and changes nothing. *)
Theorem MemStore_CompareAndSwap k x v m :
  mem_ok m → mem_room m →
  let cur := default 0 (mem_Revision k m) in
  ∃ m', mem_CompareAndSwap k x v m =
          Some (m', (if x =? cur then ms_nextRev m + 1 else cur, x =? cur)) ∧
    mem_ok m' ∧
    (x = cur → mem_Get k m' = Some v ∧ mem_Revision k m' = Some (ms_nextRev m + 1) ∧
               ∀ k', k' ≠ k → mem_Get k' m' = mem_Get k' m ∧ mem_Revision k' m' = mem_Revision k' m) ∧
    (x ≠ cur → m' = m).
Proof.
  intros Hok Hr cur.
  pose proof (mem_write_nextRev k v m Hok Hr) as Hn.
  destruct (mem_CAS_spec k x v m Hok Hr) as (m' & r & ok & -> & Hok' & [Hh|Hm]); exists m'.
  - destruct Hh as (-> & -> & Hd & ->). rewrite Z.eqb_refl. split_and!; try done.
    + destruct Hd as [_ <-]. by rewrite Hn.
    + intros _. rewrite <- (mem_Get_proper k _ _ Hd), <- (mem_Revision_proper k _ _ Hd).
      rewrite mem_Get_write, decide_True by done. split_and!; try done.
      * unfold mem_Revision. simpl in *. rewrite lookup_insert_eq. simpl. by rewrite Hn.
      * intros k' Hk. rewrite <- (mem_Get_proper k' _ _ Hd), <- (mem_Revision_proper k' _ _ Hd).
        rewrite mem_Get_write, decide_False by done. split; [done|].
        unfold mem_Revision. simpl. by rewrite lookup_insert_ne.
  - destruct Hm as (-> & Hne & -> & ->). destruct (Z.eqb_spec x cur); [done|].
    by split_and!.
Qed.

Definition two_puts : MemStore :=
  default NewMemStore (mem_Put "b" [2] (default NewMemStore (mem_Put "a" [1] NewMemStore))).

Lemma two_puts_ok : mem_ok two_puts.
Proof.
  unfold two_puts.
  destruct (mem_Put_ok "a" [1] NewMemStore) as (m1 & -> & Hok1 & Hd1);
    [apply NewMemStore_ok|unfold mem_room, i64_max; simpl; lia|]. simpl.
  destruct (mem_Put_ok "b" [2] m1) as (m2 & -> & Hok2 & Hd2); [done| |done].
  destruct Hd1 as [_ Hr]. unfold mem_room. rewrite <- Hr. vm_compute. done.
Qed.

Lemma MemStore_CompareAndSwap_witness :
  ∃ m', mem_CompareAndSwap "a" 1 [7] two_puts = Some (m', (3, true)) ∧
        mem_Get "a" m' = Some [7].
Proof.
  destruct (MemStore_CompareAndSwap "a" 1 [7] two_puts) as (m' & Heq & _ & Hhit & _).
  - apply two_puts_ok.
  - vm_compute. done.
  - exists m'. split; [exact Heq|]. apply Hhit. reflexivity.
Defined.

(** Sending on a channel whose watcher has gone away panics: between
    [notify] collecting the channels and sending to them, the watch's
    goroutine can close one. The three steps below are one such schedule. *)
Theorem notify_may_panic :
  ∃ m ch, mem_ok m ∧
    let ev := mkEvent "/egressa/session/1" [1] false in
    let m1 := mem_write (ev_Key ev) (ev_Value ev) m in
    let chs := notify_collect ev m1 in
    let m2 := mem_Unwatch "/egressa/session/" ch m1 in
    chs = [ch] ∧ notify_sends chs ev m1 ≠ None ∧ notify_sends chs ev m2 = None.
Proof.
  exists (mem_Watch "/egressa/session/" NewMemStore).1, 0%nat. split.
  - apply mem_Watch_ok, NewMemStore_ok.
  - vm_compute. split_and!; done.
Qed.

(** When a [Put] on the file store returns no error, a controller that
    restarts from the file finds exactly the keys of the running store, each
    with its value reformatted, so every decoder that does not depend on the
    JSON text's layout reads the same values; when the save fails the file is
    as it was before the call. *)
Theorem FileStore_Put_durable {RJ : RawJSON} k v f f' err :
  mem_ok (fs_mem f) → mem_room (fs_mem f) →
  Z.of_nat (size (ms_data (fs_mem f))) < i64_max →
  fs_Put k v f = Some (f', err) →
  mem_Get k (fs_mem f') = Some v ∧
  match err with
  | None => ∃ g, OpenFileStore (fs_disk f') [] = Some g ∧
      (∀ k', mem_Get k' (fs_mem g) = mem_Get k' (fs_mem f') ≫= reformat) ∧
      ∀ (A : Type) (dec : bytes → A), (∀ b b', reformat b = Some b' → dec b' = dec b) →
        ∀ k', dec <$> mem_Get k' (fs_mem g) = dec <$> mem_Get k' (fs_mem f')
  | Some _ => fs_disk f' = fs_disk f
  end.
Proof.
  intros Hok Hroom Hsz Hput. unfold fs_Put in Hput.
  destruct (mem_Put_ok k v _ Hok Hroom) as (m & Hm & Hokm & Hd). rewrite Hm in Hput.
  injection Hput as Hput. unfold fs_save in Hput. simpl in Hput.
  assert (fs_mem f' = m) as Hfm.
  { by destruct (fs_content m), (fs_saves f) as [|[] ?]; inversion Hput; subst. }
  rewrite Hfm. split.
  { rewrite <- (mem_Get_proper k _ _ Hd), mem_Get_write. by rewrite decide_True. }
  destruct err as [e|].
  { by destruct (fs_content m), (fs_saves f) as [|[] ?]; inversion Hput; subst. }
  destruct (fs_content m) as [kv|] eqn:Hkv; [|by inversion Hput].
  assert (fs_disk f' = Some kv) as -> by (by destruct (fs_saves f) as [|[] ?]; inversion Hput; subst).
  unfold fs_content in Hkv. case_decide as Hall; [|done]. injection Hkv as <-. rewrite mem_List_all in *.
  assert (size (omap reformat (me_value <$> ms_data m)) ≤ size (ms_data m))%nat as Hsize.
  { rewrite <- (map_size_fmap me_value (ms_data m)), <- !size_dom. apply subseteq_size, dom_omap_subseteq. }
  unfold OpenFileStore.
  destruct (puts_ok (map_to_list (omap reformat (me_value <$> ms_data m))) NewMemStore)
    as (g & -> & _ & _ & Hg).
  - apply NewMemStore_ok.
  - simpl. rewrite length_map_to_list. destruct Hd as [Hd _]. rewrite <- Hd in Hsize |- *. simpl in *.
    rewrite map_size_insert in Hsize. destruct (ms_data (fs_mem f) !! k); unfold id in *; lia.
  - apply NoDup_fst_map_to_list.
  - assert (∀ k', mem_Get k' g = mem_Get k' m ≫= reformat) as Hget.
    { intros k'. rewrite Hg, list_to_map_to_list, lookup_omap, lookup_fmap. unfold mem_Get.
      destruct (ms_data m !! k'); simpl; [|done]. by destruct (reformat _). }
    eexists. split; [done|]. split; [exact Hget|]. intros A dec Hdec k'. simpl. rewrite Hget.
    destruct (mem_Get k' m) as [b|] eqn:Hb; simpl; [|done].
    assert (is_Some (reformat b)) as [b' Hb'].
    { apply (Hall k'). unfold mem_Get in Hb. by rewrite lookup_fmap. }
    rewrite Hb'. simpl. f_equal. by apply Hdec.
Qed.

Lemma FileStore_Put_durable_witness :
  let RJ := {| reformat b := Some (b ++ [32]) |} in
  let f := mkFile two_puts None [true] in
  ∃ f', @fs_Put RJ "c" [3] f = Some (f', None) ∧
    ∃ g, OpenFileStore (fs_disk f') [] = Some g ∧ mem_Get "c" (fs_mem g) = Some [3; 32].
Proof.
  intros RJ f. destruct (@fs_Put RJ "c" [3] f) as [[f' err]|] eqn:E; [|vm_compute in E; done].
  assert (err = None) as -> by (vm_compute in E; congruence).
  exists f'. split; [done|].
  destruct (@FileStore_Put_durable RJ "c" [3] f f' None) as (Hc & g & Hg & Hget & _).
  - apply two_puts_ok.
  - vm_compute. done.
  - vm_compute. done.
  - exact E.
  - exists g. split; [exact Hg|]. rewrite Hget, Hc. reflexivity.
Defined.
