(* ===== verification/Ownership.v ===== *)
(** * Session ownership: internal/control/ownership.go and ownership_service.go

    A session's ownership record says which access and egress gateway carry
    it, at which epoch. [SetIfNewer] is the fencing write: it is modelled as
    the steps between its calls to the store, so that the same definition
    runs alone (the functional theorem) and interleaved with other writers
    (the safety theorem). *)

From S2P Require Import Prelude Store.

Record OwnershipRecord := mkOwn {
  Session : string;
  Access : string;
  Egress : string;
  Epoch : Z;
}.

#[export] Instance OwnershipRecord_eq_dec : EqDecision OwnershipRecord.
Proof. solve_decision. Defined.

#[export] Instance OwnershipRecord_countable : Countable OwnershipRecord.
Proof.
  refine (inj_countable' (λ r, (Session r, Access r, Egress r, Epoch r))
            (λ '(s, a, e, n), mkOwn s a e n) _). by intros [].
Defined.

Inductive own_error :=
| EmptySession
| EmptyAccess
| EmptyEgress
| DecodeOwnership
| EncodeOwnership
| OwnStore (e : store_error).

Definition Validate (r : OwnershipRecord) : option own_error :=
  if decide (Session r = "") then Some EmptySession
  else if decide (Access r = "") then Some EmptyAccess
  else if decide (Egress r = "") then Some EmptyEgress
  else None.

Definition NextEpoch (newEgress : string) (r : OwnershipRecord) : OwnershipRecord :=
  mkOwn (Session r) (Access r) newEgress (u64 (Epoch r + 1)).

Definition NextAccessEpoch (newAccess : string) (r : OwnershipRecord) : OwnershipRecord :=
  mkOwn (Session r) newAccess (Egress r) (u64 (Epoch r + 1)).

Definition Newer (r existing : OwnershipRecord) : bool := Epoch r >? Epoch existing.

Definition sessionKeyPrefix : string := "/egressa/session/".
Definition SessionKey (sessionID : string) : string := (sessionKeyPrefix +:+ sessionID)%string.

Section Codec.
Context `{!Codec OwnershipRecord}.

Definition MarshalOwnership (r : OwnershipRecord) : res own_error bytes :=
  match Validate r with
  | Some e => Err e
  | None => match marshal r with Some b => Ok b | None => Err EncodeOwnership end
  end.

Definition UnmarshalOwnership (data : bytes) : res own_error OwnershipRecord :=
  match unmarshal data with
  | None => Err DecodeOwnership
  | Some r => match Validate r with Some e => Err e | None => Ok r end
  end.

(** [OwnershipService.Watch]: the goroutine's loop over the store's events. *)
Definition watch_records (events : list Event) : list OwnershipRecord :=
  omap (λ ev, if ev_Deleted ev then None
              else match UnmarshalOwnership (ev_Value ev) with Ok r => Some r | Err _ => None end)
       events.
End Codec.

(** ** The service, over any store. [fencer] says whether the store's dynamic
    type implements [Fencer]. *)

Inductive sin_pc :=
| SinRevision                                   (* before fencer.Revision *)
| SinGet (rev : Z)                              (* found at rev; before store.Get *)
| SinSwap (expected : Z)                        (* before fencer.CompareAndSwap *)
| SinDone (applied : bool) (err : option own_error).

Section Service.
Context `{!Codec OwnershipRecord} {St : Type} `{!KVStore St}.

Definition own_Get (sessionID : string) (s : St) : res own_error (option OwnershipRecord) :=
  match kv_Get (SessionKey sessionID) s with
  | Err e => Err (OwnStore e)
  | Ok None => Ok None
  | Ok (Some data) => match UnmarshalOwnership data with Err e => Err e | Ok r => Ok (Some r) end
  end.

Definition own_List (s : St) : res own_error (list OwnershipRecord) :=
  match kv_List sessionKeyPrefix s with
  | Err e => Err (OwnStore e)
  | Ok raw => res_mapM UnmarshalOwnership (map_to_list raw).*2
  end.

(** One stretch of [SetIfNewer]'s loop, up to and including its next call to
    the store. *)
Definition sin_step `{!Fencer St} (rec : OwnershipRecord) (s : St) (pc : sin_pc) : St * sin_pc :=
  let key := SessionKey (Session rec) in
  match pc with
  | SinRevision =>
      match fence_Revision key s with
      | Err e => (s, SinDone false (Some (OwnStore e)))
      | Ok None => (s, SinSwap 0)
      | Ok (Some rev) => (s, SinGet rev)
      end
  | SinGet rev =>
      match kv_Get key s with
      | Err e => (s, SinDone false (Some (OwnStore e)))
      | Ok data =>
          match UnmarshalOwnership (default [] data) with
          | Err e => (s, SinDone false (Some e))
          | Ok current =>
              if negb (Newer rec current) then (s, SinDone false None) else (s, SinSwap rev)
          end
      end
  | SinSwap expected =>
      match MarshalOwnership rec with
      | Err e => (s, SinDone false (Some e))
      | Ok data =>
          match fence_CompareAndSwap key expected data s with
          | (s, Err e) => (s, SinDone false (Some (OwnStore e)))
          | (s, Ok (_, ok)) => if ok then (s, SinDone true None) else (s, SinRevision)
          end
      end
  | SinDone _ _ => (s, pc)
  end.

Fixpoint sin_run `{!Fencer St} (fuel : nat) (rec : OwnershipRecord) (s : St) (pc : sin_pc)
    : St * option (bool * option own_error) :=
  match pc with
  | SinDone applied err => (s, Some (applied, err))
  | _ => match fuel with
         | O => (s, None)
         | S fuel => let '(s, pc) := sin_step rec s pc in sin_run fuel rec s pc
         end
  end.

(** The branch for a store that cannot fence: read, compare, write. *)
Definition set_unfenced (rec : OwnershipRecord) (s : St) : St * (bool * option own_error) :=
  match own_Get (Session rec) s with
  | Err e => (s, (false, Some e))
  | Ok current =>
      if match current with Some current => negb (Newer rec current) | None => false end
      then (s, (false, None))
      else match MarshalOwnership rec with
           | Err e => (s, (false, Some e))
           | Ok data =>
               let '(s, err) := kv_Put (SessionKey (Session rec)) data s in
               (s, (true, OwnStore <$> err))
           end
  end.

(** [SetIfNewer]; [None] when [fuel] steps were not enough. *)
Definition SetIfNewer (fencer : option (Fencer St)) (fuel : nat) (rec : OwnershipRecord) (s : St)
    : St * option (bool * option own_error) :=
  match Validate rec with
  | Some e => (s, Some (false, Some e))
  | None =>
      match fencer with
      | None => let '(s, r) := set_unfenced rec s in (s, Some r)
      | Some F => sin_run fuel rec s SinRevision
      end
  end.
End Service.

(** A key's stored record. *)
Definition owner {St} `{!Codec OwnershipRecord, !KVStore St} (s : St) (sessionID : string)
    : option OwnershipRecord :=
  match own_Get sessionID s with Ok r => r | Err _ => None end.

(** ** Lemmas *)

Lemma SessionKey_inj a b : SessionKey a = SessionKey b → a = b.
Proof. unfold SessionKey. intros H. by simplify_eq/=. Qed.

Section Lemmas.
Context `{!Codec OwnershipRecord, !CodecLaws OwnershipRecord}.

Lemma Validate_None r :
  Validate r = None ↔ Session r ≠ "" ∧ Access r ≠ "" ∧ Egress r ≠ "".
Proof. unfold Validate. repeat case_decide; naive_solver. Qed.

Lemma UnmarshalOwnership_valid b r : UnmarshalOwnership b = Ok r → Validate r = None.
Proof. unfold UnmarshalOwnership. intros. cases; done. Qed.

Lemma ownership_codec r :
  Validate r = None → codec_ok r →
  ∃ b, MarshalOwnership r = Ok b ∧ UnmarshalOwnership b = Ok r.
Proof.
  intros Hv Hok. destruct (marshal_Some r Hok) as (b & Hm & Hu). exists b.
  unfold MarshalOwnership, UnmarshalOwnership. by rewrite Hv, Hm, Hu, Hv.
Qed.

(** Every value under a session's key decodes. *)
Definition sessions_decode {St} `{!KVStore St} (s : St) : Prop :=
  ∀ id v, kv_Get (SessionKey id) s = Ok (Some v) → ∃ r, UnmarshalOwnership v = Ok r.

Section Sequential.
Context {St : Type} `{!KVStore St, !Fencer St, !FencedLaws St}.

(** Run alone, the loop makes its swap against the revision it read, so it
    never goes round twice. *)
Lemma SetIfNewer_alone rec s fuel :
  Validate rec = None → codec_ok rec → kv_inv s → kv_room s → sessions_decode s →
  (3 ≤ fuel)%nat →
  let wins := match owner s (Session rec) with Some cur => Newer rec cur | None => true end in
  ∃ s', SetIfNewer (Some _) fuel rec s = (s', Some (wins, None)) ∧ kv_inv s' ∧
    (wins = true → owner s' (Session rec) = Some rec) ∧ (wins = false → s' = s) ∧
    (∀ id, id ≠ Session rec → owner s' id = owner s id).
Proof.
  intros Hv Hok Hinv Hroom Hdec Hfuel wins.
  destruct fuel as [|[|[|fuel]]]; try lia. clear Hfuel.
  unfold SetIfNewer. rewrite Hv.
  destruct (ownership_codec rec Hv Hok) as (b & Hb & Hub).
  set (key := SessionKey (Session rec)).
  destruct (law_CAS_hit s key b Hinv Hroom) as (s' & r & Hcas & Hinv' & Hget & Hother).
  assert (owner s' (Session rec) = Some rec) as Hown.
  { unfold owner, own_Get. fold key. by rewrite Hget, Hub. }
  assert (∀ id, id ≠ Session rec → owner s' id = owner s id) as Hoth.
  { intros id Hid. unfold owner, own_Get. rewrite Hother; [done|].
    intros ?%SessionKey_inj. done. }
  destruct (law_Revision_Get s key Hinv) as [[HR HG]|(rv & v & HR & HG & Hrv)].
  - assert (wins = true) as ->.
    { unfold wins, owner, own_Get. fold key. by rewrite HG. }
    rewrite HR in Hcas. exists s'. cbn. fold key. rewrite HR. cbn. rewrite Hb. fold key.
    rewrite Hcas. destruct fuel; by split_and!.
  - destruct (Hdec _ _ HG) as [cur Hcur].
    assert (wins = Newer rec cur) as ->.
    { unfold wins, owner, own_Get. fold key. by rewrite HG, Hcur. }
    cbn. fold key. rewrite HR. cbn. fold key. rewrite HG. cbn. rewrite Hcur. rewrite HR in Hcas.
    destruct (Newer rec cur) eqn:HN; cbn.
    + exists s'. rewrite Hb. fold key. rewrite Hcas. destruct fuel; by split_and!.
    + exists s. by split_and!.
Qed.
End Sequential.
End Lemmas.

(** ** Many writers on one MemStore

    Each writer is somewhere in [SetIfNewer]; a schedule names the writer
    that runs next. Every stretch between two store calls is atomic, because
    the store's methods hold its mutex. *)

Record sys := mkSys {
  sy_mem : MemStore;
  sy_thr : gmap nat (OwnershipRecord * sin_pc);
}.

Section Concurrent.
Context `{!Codec OwnershipRecord}.

Definition sys_step (s : sys) (i : nat) : sys :=
  match sy_thr s !! i with
  | None => s
  | Some (rec, pc) =>
      let '(m, pc) := sin_step rec (sy_mem s) pc in
      mkSys m (<[i := (rec, pc)]> (sy_thr s))
  end.

Definition sys_run (s : sys) (sched : list nat) : sys := fold_left sys_step sched s.

(** Writers about to start, all with records that are valid and encode. *)
Definition starting (thr : gmap nat (OwnershipRecord * sin_pc)) : Prop :=
  ∀ i rec pc, thr !! i = Some (rec, pc) → Validate rec = None ∧ codec_ok rec ∧ pc = SinRevision.

Definition applied (s : sys) (i : nat) (rec : OwnershipRecord) : Prop :=
  sy_thr s !! i = Some (rec, SinDone true None).

(** What a writer between its steps may rely on. *)
Definition pc_ok (m : MemStore) (rec : OwnershipRecord) (pc : sin_pc) : Prop :=
  match pc with
  | SinRevision => True
  | SinGet rev => 0 < rev ≤ ms_nextRev m
  | SinSwap x =>
      0 ≤ x ≤ ms_nextRev m ∧
      (mem_Revision (SessionKey (Session rec)) m = Some x →
       ∃ cur, owner m (Session rec) = Some cur ∧ Epoch cur < Epoch rec)
  | SinDone true _ => ∃ cur, owner m (Session rec) = Some cur ∧ Epoch rec ≤ Epoch cur
  | SinDone false _ => True
  end.

Record sys_inv (s : sys) : Prop := {
  si_mem : mem_ok (sy_mem s);
  si_dec : sessions_decode (sy_mem s);
  si_thr : ∀ i rec pc, sy_thr s !! i = Some (rec, pc) →
    Validate rec = None ∧ codec_ok rec ∧ pc_ok (sy_mem s) rec pc;
  si_uniq : ∀ i j ri rj, applied s i ri → applied s j rj → i ≠ j →
    Session ri = Session rj → Epoch ri ≠ Epoch rj;
}.

(** The store moved on: no session lost its record or went back. *)
Definition epochs_le (m m' : MemStore) : Prop :=
  ∀ id r, owner m id = Some r → ∃ r', owner m' id = Some r' ∧ Epoch r ≤ Epoch r'.

#[export] Instance epochs_le_preorder : PreOrder epochs_le.
Proof.
  split; [intros m id r ?; exists r; split; [done|lia]|].
  intros m1 m2 m3 H1 H2 id r Hr.
  destruct (H1 _ _ Hr) as (r' & Hr' & ?). destruct (H2 _ _ Hr') as (r'' & ? & ?).
  exists r''. split; [done|lia].
Qed.

Lemma owner_same_data m m' id : same_data m m' → owner m id = owner m' id.
Proof.
  intros Hd. unfold owner, own_Get. simpl. by rewrite (mem_Get_proper _ _ _ Hd).
Qed.

Lemma owner_write id k v m :
  owner (mem_write k v m) id =
  if decide (k = SessionKey id) then
    match UnmarshalOwnership v with Ok r => Some r | Err _ => None end
  else owner m id.
Proof.
  unfold owner, own_Get. simpl. rewrite mem_Get_write. case_decide; [|done].
  by destruct (UnmarshalOwnership v).
Qed.

Lemma sessions_decode_same m m' : same_data m m' → sessions_decode m → sessions_decode m'.
Proof.
  intros Hd H id v. simpl. rewrite <- (mem_Get_proper _ _ _ Hd). apply (H id v).
Qed.

Context `{!CodecLaws OwnershipRecord}.

(** A writer's successful swap: the store after it is a fresh write of the
    writer's record. *)
Definition swapped (rec : OwnershipRecord) (m m' : MemStore) : Prop :=
  ∃ b, UnmarshalOwnership b = Ok rec ∧
       same_data (mem_write (SessionKey (Session rec)) b m) m'.

(** Every step either leaves the data alone or is a writer's swap over a
    strictly older record (or over none). *)
Lemma sin_step_cases rec m pc m' pc' :
  mem_ok m → mem_room m → sessions_decode m →
  Validate rec = None → codec_ok rec → pc_ok m rec pc →
  sin_step rec m pc = (m', pc') →
  (m' = m ∧ pc_ok m rec pc' ∧ (∀ e, pc' = SinDone true e → pc = pc')) ∨
  (pc' = SinDone true None ∧ swapped rec m m' ∧ mem_ok m' ∧
   ∀ cur, owner m (Session rec) = Some cur → Epoch cur < Epoch rec).
Proof.
  intros Hok Hroom Hdec Hv Hc Hpc Hstep.
  destruct pc as [|rev|x|a e]; simpl in Hstep.
  - left. unfold mem_Revision in Hstep.
    destruct (ms_data m !! SessionKey (Session rec)) as [en|] eqn:E; injection Hstep as <- <-.
    + apply (ok_rev _ Hok) in E. split_and!; try done; lia.
    + pose proof (ok_rev_bound _ Hok). split_and!; [done| |done]. split; [lia|].
      unfold mem_Revision. by rewrite E.
  - left. simpl in Hpc. destruct (mem_Get _ m) as [v|] eqn:HG; simpl in Hstep.
    + destruct (Hdec (Session rec) v) as [cur Hcur]; [simpl; by rewrite HG|].
      rewrite Hcur in Hstep. destruct (Newer rec cur) eqn:HN; injection Hstep as <- <-; [|done].
      split_and!; [done| |done]. split; [lia|]. intros _. exists cur.
      unfold owner, own_Get. simpl. rewrite HG, Hcur. split; [done|].
      unfold Newer in HN. by zbool.
    + destruct (UnmarshalOwnership []) as [cur|]; [|by injection Hstep as <- <-].
      destruct (Newer rec cur); injection Hstep as <- <-; [|done].
      split_and!; [done| |done]. split; [lia|]. intros HR. exfalso. unfold mem_Revision, mem_Get in *.
      by destruct (ms_data m !! _).
  - destruct Hpc as [Hx Hcur].
    destruct (ownership_codec rec Hv Hc) as (b & Hb & Hub). rewrite Hb in Hstep.
    destruct (mem_CAS_spec (SessionKey (Session rec)) x b m Hok Hroom)
      as (m1 & r & okb & Heq & Hok1 & Hres). rewrite Heq in Hstep.
    destruct Hres as [(-> & Hxc & Hd & _)|(-> & _ & -> & _)]; simpl in Hstep;
      injection Hstep as <- <-; [right|by left].
    split_and!; simpl; try done; [by exists b|].
    intros cur Ho. unfold mem_Revision in *.
    destruct (ms_data m !! SessionKey (Session rec)) as [en|] eqn:E; simpl in *.
    + destruct Hcur as (c' & Hc' & ?); [by f_equal|]. by simplify_eq.
    + unfold owner, own_Get in Ho. simpl in Ho. unfold mem_Get in Ho. by rewrite E in Ho.
  - left. by injection Hstep as <- <-.
Qed.

Lemma owner_swapped rec m m' id :
  swapped rec m m' → owner m' id = if decide (id = Session rec) then Some rec else owner m id.
Proof.
  intros (b & Hb & Hd). rewrite <- (owner_same_data _ _ _ Hd), owner_write, Hb.
  destruct (decide (id = Session rec)) as [->|]; [by rewrite decide_True|].
  by rewrite decide_False by (by intros ?%SessionKey_inj).
Qed.

Lemma swapped_decode rec m m' : swapped rec m m' → sessions_decode m → sessions_decode m'.
Proof.
  intros (b & Hb & Hd) Hdec. eapply sessions_decode_same; [exact Hd|].
  intros id v. simpl. rewrite mem_Get_write. case_decide.
  - intros [= <-]. eauto.
  - intros Hg. by apply (Hdec id).
Qed.

(** A swap by one writer keeps what the others rely on. *)
Lemma pc_ok_swapped rec m m' rec2 pc2 :
  mem_ok m → mem_room m → swapped rec m m' →
  (∀ cur, owner m (Session rec) = Some cur → Epoch cur < Epoch rec) →
  pc_ok m rec2 pc2 → pc_ok m' rec2 pc2.
Proof.
  intros Hok Hroom Hsw Hlt Hpc.
  assert (ms_nextRev m' = ms_nextRev m + 1) as Hn.
  { destruct Hsw as (b & _ & _ & <-). by apply mem_write_nextRev. }
  destruct pc2 as [|rev|x|[] e]; simpl in *; try done; [lia| |].
  - destruct Hpc as [Hx Hcur]. split; [lia|]. intros HR.
    destruct (decide (Session rec2 = Session rec)) as [He|Hne].
    + exfalso. destruct Hsw as (b & _ & Hd). rewrite <- (mem_Revision_proper _ _ _ Hd) in HR.
      unfold mem_Revision in HR. rewrite He in HR. simpl in HR. rewrite lookup_insert_eq in HR.
      simpl in HR. pose proof (mem_write_nextRev (SessionKey (Session rec)) b m Hok Hroom).
      simpl in *. simplify_eq. lia.
    + rewrite (owner_swapped _ _ _ (Session rec2) Hsw), decide_False by done. apply Hcur.
      destruct Hsw as (b & _ & Hd). rewrite <- (mem_Revision_proper _ _ _ Hd) in HR.
      unfold mem_Revision in *. simpl in HR. rewrite lookup_insert_ne in HR; [done|].
      by intros ?%SessionKey_inj.
  - destruct Hpc as (cur & Ho & Hle).
    rewrite (owner_swapped _ _ _ (Session rec2) Hsw). case_decide as He; [|by eauto].
    exists rec. split; [done|]. rewrite He in Ho. apply Hlt in Ho. lia.
Qed.

Lemma swapped_epochs_le rec m m' :
  swapped rec m m' → (∀ cur, owner m (Session rec) = Some cur → Epoch cur < Epoch rec) →
  epochs_le m m'.
Proof.
  intros Hsw Hlt id r Hr. rewrite (owner_swapped _ _ _ id Hsw).
  case_decide as He; [|exists r; split; [done|lia]].
  subst. apply Hlt in Hr. exists rec. split; [done|lia].
Qed.

Lemma sys_step_inv s i :
  sys_inv s → mem_room (sy_mem s) →
  sys_inv (sys_step s i) ∧ epochs_le (sy_mem s) (sy_mem (sys_step s i)) ∧
  ms_nextRev (sy_mem (sys_step s i)) ≤ ms_nextRev (sy_mem s) + 1.
Proof.
  intros [Hok Hdec Hthr Huniq] Hroom. unfold sys_step.
  destruct (sy_thr s !! i) as [[rec pc]|] eqn:Hi; [|split_and!; [done|done|lia]].
  destruct (Hthr _ _ _ Hi) as (Hv & Hc & Hpc).
  destruct (sin_step rec (sy_mem s) pc) as [m' pc'] eqn:Hstep.
  destruct (sin_step_cases _ _ _ _ _ Hok Hroom Hdec Hv Hc Hpc Hstep)
    as [(-> & Hpc' & Hdone)|(-> & Hsw & Hok' & Hlt)]; simpl.
  - split_and!; [|done|lia]. split; simpl; try done.
    + intros j r p. rewrite lookup_insert_Some. intros [[<- [= <- <-]]|[_ Hj]]; eauto.
    + intros a b ra rb Ha Hb. unfold applied in *. simpl in *.
      assert (∀ j r, <[i := (rec, pc')]> (sy_thr s) !! j = Some (r, SinDone true None) →
                sy_thr s !! j = Some (r, SinDone true None)) as Hback.
      { intros j r. rewrite lookup_insert_Some. intros [[<- [= <- ->]]|[_ ?]]; [|done].
        by rewrite Hi, (Hdone None). }
      apply Huniq; eauto.
  - split_and!.
    + split; simpl; try done; [by eapply swapped_decode| |].
      * intros j r p. rewrite lookup_insert_Some. intros [[<- [= <- <-]]|[_ Hj]].
        -- split_and!; try done. exists rec. rewrite (owner_swapped _ _ _ _ Hsw), decide_True by done.
           split; [done|lia].
        -- destruct (Hthr _ _ _ Hj) as (? & ? & Hp). split_and!; try done.
           exact (pc_ok_swapped rec _ _ _ _ Hok Hroom Hsw Hlt Hp).
      * assert (∀ j r, sy_thr s !! j = Some (r, SinDone true None) → Session r = Session rec →
                  Epoch r < Epoch rec) as Hold.
        { intros j r Hj He. destruct (Hthr _ _ _ Hj) as (_ & _ & cur & Ho & Hle).
          rewrite He in Ho. apply Hlt in Ho. lia. }
        intros a b ra rb. unfold applied. simpl. rewrite !lookup_insert_Some.
        intros [[<- [= <-]]|[Hna Ha]] [[<- [= <-]]|[Hnb Hb]] Hne Hs; try done.
        -- apply Hold in Hb; [lia|done].
        -- apply Hold in Ha; [lia|done].
        -- by eapply Huniq.
    + by eapply swapped_epochs_le.
    + destruct Hsw as (b & _ & _ & <-). rewrite mem_write_nextRev by done. lia.
Qed.

Lemma sys_run_inv sched s :
  sys_inv s → ms_nextRev (sy_mem s) + Z.of_nat (length sched) ≤ i64_max →
  sys_inv (sys_run s sched) ∧ epochs_le (sy_mem s) (sy_mem (sys_run s sched)).
Proof.
  revert s. induction sched as [|i sched IH]; intros s Hinv Hb; simpl; [done|].
  cbn [length] in Hb. rewrite Nat2Z.inj_succ in Hb.
  destruct (sys_step_inv s i Hinv) as (Hinv' & Hle & Hn); [unfold mem_room; lia|].
  destruct (IH _ Hinv') as [? ?]; [lia|]. split; [done|]. by etrans.
Qed.

Lemma starting_inv m thr :
  mem_ok m → sessions_decode m → starting thr → sys_inv (mkSys m thr).
Proof.
  intros Hok Hdec Hst. split; simpl; try done.
  - intros i r p Hi. destruct (Hst _ _ _ Hi) as (? & ? & ->). by split_and!.
  - intros i j ri rj Hi. unfold applied in Hi. simpl in Hi.
    by destruct (Hst _ _ _ Hi) as (_ & _ & ?).
Qed.

(** ** Properties *)

(** C1: with any number of concurrent writers and any schedule of their store
    calls, (1) no session's stored epoch ever goes down, (2) two writers that
    are both told their write was applied to the same session wrote different
    epochs, so an epoch is committed at most once, and (3) a writer told so
    finds the session at its epoch or a later one. *)
Theorem SetIfNewer_fencing m thr sched :
  mem_ok m → sessions_decode m → starting thr →
  ms_nextRev m + Z.of_nat (length sched) ≤ i64_max →
  let s := sys_run (mkSys m thr) sched in
  epochs_le m (sy_mem s) ∧
  (∀ i j ri rj, applied s i ri → applied s j rj → i ≠ j →
     Session ri = Session rj → Epoch ri ≠ Epoch rj) ∧
  (∀ i rec, applied s i rec →
     ∃ cur, owner (sy_mem s) (Session rec) = Some cur ∧ Epoch rec ≤ Epoch cur).
Proof.
  intros Hok Hdec Hst Hb s.
  destruct (sys_run_inv sched (mkSys m thr) (starting_inv _ _ Hok Hdec Hst) Hb) as [Hinv Hle].
  split_and!; [done|apply (si_uniq _ Hinv)|].
  intros i rec Hi. by destruct (si_thr _ Hinv _ _ _ Hi) as (_ & _ & ?).
Qed.

(** Run without interference against any fenced store that keeps its
    laws, [SetIfNewer] terminates within three store calls; it applies the
    record exactly when the session has none or an older one, afterwards the
    record is the stored one, a refused write changes nothing, and no other
    session is touched. *)
Theorem SetIfNewer_functional {St : Type} `{!KVStore St, !Fencer St, !FencedLaws St} rec s fuel :
  Validate rec = None → codec_ok rec → kv_inv s → kv_room s → sessions_decode s →
  (3 ≤ fuel)%nat →
  let wins := match owner s (Session rec) with Some cur => Newer rec cur | None => true end in
  ∃ s', SetIfNewer (Some _) fuel rec s = (s', Some (wins, None)) ∧ kv_inv s' ∧
    (wins = true → owner s' (Session rec) = Some rec) ∧ (wins = false → s' = s) ∧
    (∀ id, id ≠ Session rec → owner s' id = owner s id).
Proof. apply SetIfNewer_alone. Qed.

End Concurrent.

(** Concrete instances for the witnesses. *)
Definition own_codec : Codec OwnershipRecord := countable_codec OwnershipRecord.
Definition own_codec_laws : @CodecLaws OwnershipRecord own_codec :=
  countable_codec_laws OwnershipRecord.

Lemma NewMemStore_decode `{!Codec OwnershipRecord} : sessions_decode NewMemStore.
Proof. intros id v. simpl. unfold mem_Get. simpl. by rewrite lookup_empty. Qed.

(** Two controllers race to commit epoch 1 of session 7 and a third commits
    epoch 2. *)
Definition race : gmap nat (OwnershipRecord * sin_pc) :=
  {[ 0%nat := (mkOwn "7" "hk" "sg" 1, SinRevision);
     1%nat := (mkOwn "7" "tk" "sg" 1, SinRevision);
     2%nat := (mkOwn "7" "sg" "sg" 2, SinRevision) ]}.
Definition race_sched : list nat := [0; 1; 0; 1; 1; 1; 2; 2; 2]%nat.

Lemma race_starting : @starting own_codec race.
Proof.
  intros i rec pc H. unfold race in H.
  do 2 (apply lookup_insert_Some in H as [[_ [= <- <-]]|[_ H]]; [by split_and!|]).
  apply lookup_singleton_Some in H as [_ [= <- <-]]. by split_and!.
Qed.

Lemma SetIfNewer_fencing_witness :
  let s := @sys_run own_codec (mkSys NewMemStore race) race_sched in
  sy_thr s !! 0%nat = Some (mkOwn "7" "hk" "sg" 1, SinDone true None) ∧
  sy_thr s !! 1%nat = Some (mkOwn "7" "tk" "sg" 1, SinDone false None) ∧
  sy_thr s !! 2%nat = Some (mkOwn "7" "sg" "sg" 2, SinDone true None) ∧
  @epochs_le own_codec NewMemStore (sy_mem s).
Proof.
  split; [reflexivity|]. split; [reflexivity|]. split; [reflexivity|].
  refine (proj1 (@SetIfNewer_fencing own_codec own_codec_laws NewMemStore race race_sched _ _ _ _)).
  - apply NewMemStore_ok.
  - apply NewMemStore_decode.
  - apply race_starting.
  - vm_compute. discriminate.
Defined.

Lemma SetIfNewer_functional_witness :
  ∃ s', @SetIfNewer own_codec MemStore _ (Some _) 3 (mkOwn "7" "hk" "sg" 1) NewMemStore
          = (s', Some (true, None)) ∧
        @owner MemStore own_codec _ s' "7" = Some (mkOwn "7" "hk" "sg" 1).
Proof.
  destruct (@SetIfNewer_functional own_codec own_codec_laws MemStore _ _ _
              (mkOwn "7" "hk" "sg" 1) NewMemStore 3) as (s' & Heq & _ & Hown & _).
  - reflexivity.
  - exact I.
  - apply NewMemStore_ok.
  - vm_compute. reflexivity.
  - apply NewMemStore_decode.
  - lia.
  - exists s'. split; [exact Heq|]. apply Hown. reflexivity.
Defined.
