(* ===== verification/EpochGate.v ===== *)
(** * Epoch fencing: internal/control/epochgate.go, epochgate_watch.go and the
    packet fence of internal/gateway/agent.go

    [EpochGate] holds the highest epoch observed per session. The gateway
    agent keeps a copy of it indexed by the numeric session ID, which is what
    the packet path reads. The theorems: the gate is a running maximum, so the
    order in which ownership events arrive does not matter; the packet path's
    copy decides as the gate does; an admitted packet is never older than what
    the gateway has seen committed. *)

From S2P Require Import Prelude Store Ownership Wire.

Record EpochGate := mkGate { known : gmap string Z }.

Definition NewEpochGate : EpochGate := mkGate ∅.

Definition Update (session : string) (epoch : Z) (g : EpochGate) : EpochGate :=
  match known g !! session with
  | None => mkGate (<[session := epoch]> (known g))
  | Some cur => if epoch >? cur then mkGate (<[session := epoch]> (known g)) else g
  end.

Definition Admit (session : string) (epoch : Z) (g : EpochGate) : bool :=
  match known g !! session with
  | None => true
  | Some cur => epoch >=? cur
  end.

Definition AdmitAndAdvance (session : string) (epoch : Z) (g : EpochGate) : EpochGate * bool :=
  let cur := default 0 (known g !! session) in
  let ok := bool_decide (is_Some (known g !! session)) in
  if ok && (epoch <? cur) then (g, false)
  else if negb ok || (epoch >? cur) then (mkGate (<[session := epoch]> (known g)), true)
  else (g, true).

Definition Known (session : string) (g : EpochGate) : option Z := known g !! session.

(** [Follow] runs until the channel closes, over every record it carried. *)
Definition Follow (events : list OwnershipRecord) (g : EpochGate) : EpochGate :=
  fold_left (λ g rec, Update (Session rec) (Epoch rec) g) events g.

(** [FollowOwnership]: the records are the store's events that decode. *)
Definition FollowOwnership `{!Codec OwnershipRecord} (events : list Event) (g : EpochGate) : EpochGate :=
  Follow (watch_records events) g.

(** ** The gateway's fence *)

Record Fence := mkFence {
  f_gate : EpochGate;
  f_fenced : gmap string Z;     (* session -> its ID, parsed *)
  f_fence : gmap Z Z;           (* what packet_admit reads: session ID -> lowest epoch admitted *)
}.

Definition newFence : Fence := mkFence NewEpochGate ∅ ∅.

(** [updateFenceLocked], first loop: parse the sessions not seen before. *)
Definition fence_parse (epochs : gmap string Z) (fenced : gmap string Z) : gmap string Z :=
  map_fold (λ session _ fenced,
    match fenced !! session with
    | Some _ => fenced
    | None => match ParseUint 64 session with
              | Some id => <[session := id]> fenced
              | None => fenced
              end
    end) fenced epochs.

(** Second loop: a new fence map with the gate's epoch of every session. *)
Definition fence_build (g : EpochGate) (fenced : gmap string Z) : gmap Z Z :=
  map_fold (λ session id next,
    match Known session g with Some epoch => <[id := epoch]> next | None => next end) ∅ fenced.

Definition updateFenceLocked (epochs : gmap string Z) (f : Fence) : Fence :=
  let fenced := fence_parse epochs (f_fenced f) in
  mkFence (f_gate f) fenced (fence_build (f_gate f) fenced).

(** The part of [apply] that gates: every epoch of the plan, then the fence. *)
Definition applyEpochs (epochs : gmap string Z) (f : Fence) : Fence :=
  let gate := map_fold (λ session epoch g, Update session epoch g) (f_gate f) epochs in
  updateFenceLocked epochs (mkFence gate (f_fenced f) (f_fence f)).

(** [packet_admit]: whether a client packet with this header is let through. *)
Definition packet_admit (f : Fence) (h : Header.SessionHeader) : bool :=
  if Header.h_SessionID h =? 0 then true
  else match f_fence f !! Header.h_SessionID h with
       | Some known => negb (Header.h_Epoch h <? known)
       | None => true
       end.

(** ** Lemmas: the gate is a running maximum *)

Definition join (o : option Z) (e : Z) : option Z :=
  Some (match o with Some c => Z.max c e | None => e end).

Lemma known_Update s e g s' :
  known (Update s e g) !! s' = if decide (s = s') then join (known g !! s) e else known g !! s'.
Proof.
  unfold Update, join. destruct (known g !! s) as [c|] eqn:E; simpl.
  - rewrite Z.gtb_ltb. destruct (Z.ltb_spec c e); simpl.
    + rewrite lookup_insert. case_decide; [|done]. f_equal. lia.
    + case_decide; [|done]. subst. rewrite E. f_equal. lia.
  - rewrite lookup_insert. by case_decide.
Qed.

Lemma gate_eq g g' : (∀ s, known g !! s = known g' !! s) → g = g'.
Proof. destruct g, g'. intros H. f_equal. by apply map_eq. Qed.

Lemma Update_comm s e s' e' g : Update s e (Update s' e' g) = Update s' e' (Update s e g).
Proof.
  apply gate_eq. intros k. rewrite !known_Update.
  destruct (decide (s = k)), (decide (s' = k)), (decide (s' = s)), (decide (s = s')); subst; try done.
  unfold join. f_equal. destruct (known g !! k); lia.
Qed.

Lemma Update_idemp s e g : Update s e (Update s e g) = Update s e g.
Proof.
  apply gate_eq. intros k. rewrite !known_Update. case_decide; [|done].
  rewrite decide_True by done. unfold join. f_equal. destruct (known g !! s); lia.
Qed.

Lemma Admit_Known s e g :
  Admit s e g = match Known s g with Some c => c <=? e | None => true end.
Proof. unfold Admit, Known. destruct (known g !! s); [|done]. apply Z.geb_leb. Qed.

(** Knowledge only grows. *)
Definition gate_le (g g' : EpochGate) : Prop :=
  ∀ s c, Known s g = Some c → ∃ c', Known s g' = Some c' ∧ c ≤ c'.

#[export] Instance gate_le_preorder : PreOrder gate_le.
Proof.
  split; [intros g s c ?; exists c; split; [done|lia]|].
  intros g1 g2 g3 H1 H2 s c Hc. destruct (H1 _ _ Hc) as (c' & Hc' & ?).
  destruct (H2 _ _ Hc') as (c'' & ? & ?). exists c''. split; [done|lia].
Qed.

Lemma Update_le s e g : gate_le g (Update s e g).
Proof.
  intros k c Hc. unfold Known in *. rewrite known_Update. case_decide; [|exists c; split; [done|lia]].
  subst. rewrite Hc. eexists. split; [done|lia].
Qed.

Lemma Follow_le events g : gate_le g (Follow events g).
Proof.
  revert g. induction events as [|r events IH]; intros g; simpl; [done|].
  etrans; [apply Update_le|apply IH].
Qed.

Lemma Follow_app l1 l2 g : Follow (l1 ++ l2) g = Follow l2 (Follow l1 g).
Proof. unfold Follow. by rewrite fold_left_app. Qed.

Lemma Known_Follow rec events g :
  rec ∈ events → ∃ c, Known (Session rec) (Follow events g) = Some c ∧ Epoch rec ≤ c.
Proof.
  intros (l1 & l2 & ->)%list_elem_of_split. rewrite Follow_app. simpl.
  set (g1 := Update _ _ _).
  assert (∃ c, Known (Session rec) g1 = Some c ∧ Epoch rec ≤ c) as (c & Hc & ?).
  { unfold Known, g1. rewrite known_Update, decide_True by done. unfold join.
    eexists. split; [done|]. destruct (known _ !! _); lia. }
  destruct (Follow_le l2 g1 _ _ Hc) as (c' & ? & ?). exists c'. split; [done|lia].
Qed.

Lemma AdmitAndAdvance_spec s e g :
  AdmitAndAdvance s e g = if Admit s e g then (Update s e g, true) else (g, false).
Proof.
  unfold AdmitAndAdvance, Admit, Update.
  destruct (known g !! s) as [c|] eqn:E; simpl; [|done].
  rewrite Z.geb_leb, Z.gtb_ltb.
  destruct (Z.ltb_spec e c), (Z.leb_spec c e); try lia; [done|].
  by destruct (c <? e).
Qed.

Lemma Update_fold_lookup (epochs : gmap string Z) g s :
  known (map_fold (λ session epoch g, Update session epoch g) g epochs) !! s =
  match epochs !! s with Some e => join (known g !! s) e | None => known g !! s end.
Proof.
  revert s. apply (map_fold_weak_ind (λ g' (epochs : gmap string Z), ∀ s,
    known g' !! s =
    match epochs !! s with Some e => join (known g !! s) e | None => known g !! s end)).
  - intros s. by rewrite lookup_empty.
  - intros k e m g' Hk IH s. rewrite known_Update, !IH, lookup_insert, Hk.
    case_decide; by subst.
Qed.

(** ** Lemmas: the fence copies the gate *)

Lemma fence_parse_lookup epochs fenced s :
  fence_parse epochs fenced !! s =
  match fenced !! s with
  | Some id => Some id
  | None => match epochs !! s with Some _ => ParseUint 64 s | None => None end
  end.
Proof.
  unfold fence_parse. revert s.
  apply (map_fold_weak_ind (λ m (epochs : gmap string Z), ∀ s, m !! s =
    match fenced !! s with
    | Some id => Some id
    | None => match epochs !! s with Some _ => ParseUint 64 s | None => None end
    end)).
  - intros s. rewrite lookup_empty. by destruct (fenced !! s).
  - intros k e m r Hk IH s. rewrite lookup_insert.
    destruct (decide (k = s)) as [->|Hne].
    + rewrite IH, Hk. destruct (fenced !! s) eqn:E; [by rewrite IH, E|].
      destruct (ParseUint 64 s) eqn:Hp; [by rewrite lookup_insert_eq|].
      by rewrite IH, E, Hk.
    + destruct (r !! k); [apply IH|]. destruct (ParseUint 64 k); [|apply IH].
      rewrite lookup_insert_ne by done. apply IH.
Qed.

(** What the agent keeps true between applications of a plan: session IDs are
    parsed as they were printed, and the fence is the gate, by number. *)
Record fence_ok (f : Fence) : Prop := {
  fo_ids : ∀ s id, f_fenced f !! s = Some id → s = FormatUint id ∧ is_u64 id;
  fo_all : ∀ s, is_Some (Known s (f_gate f)) → is_Some (f_fenced f !! s);
  fo_fence : ∀ id, is_u64 id → f_fence f !! id = Known (FormatUint id) (f_gate f);
}.

(** Every session the controller names has the form [randomSessionID] gives it. *)
Definition canonical_ids (epochs : gmap string Z) : Prop :=
  ∀ s e, epochs !! s = Some e → ∃ id, is_u64 id ∧ s = FormatUint id.

Lemma fence_build_lookup g (fenced : gmap string Z) id :
  (∀ s i, fenced !! s = Some i → s = FormatUint i) →
  fence_build g fenced !! id =
  match fenced !! FormatUint id with
  | Some i => if decide (i = id) then Known (FormatUint id) g else None
  | None => None
  end.
Proof.
  unfold fence_build.
  apply (map_fold_weak_ind (λ (m : gmap Z Z) (fenced : gmap string Z),
    (∀ s i, fenced !! s = Some i → s = FormatUint i) →
    m !! id =
    match fenced !! FormatUint id with
    | Some i => if decide (i = id) then Known (FormatUint id) g else None
    | None => None
    end)).
  - intros _. by rewrite !lookup_empty.
  - intros s i m next Hs IH Hall.
    assert (s = FormatUint i) as -> by (apply Hall, lookup_insert_eq).
    assert (next !! id = match m !! FormatUint id with
      | Some i => if decide (i = id) then Known (FormatUint id) g else None
      | None => None end) as Hn.
    { apply IH. intros s' i' Hi'. apply Hall. rewrite lookup_insert_ne; [done|].
      intros <-. congruence. }
    rewrite lookup_insert. destruct (decide (i = id)) as [->|Hne].
    + rewrite (decide_True _ _ (eq_refl (FormatUint id))), (decide_True _ _ (eq_refl id)).
      destruct (Known (FormatUint id) g); [by rewrite lookup_insert_eq|]. by rewrite Hn, Hs.
    + destruct (decide (FormatUint i = FormatUint id)) as [He|He].
      * assert (next !! id = None) as HnN by (rewrite Hn, <- He, Hs; done).
        rewrite decide_False by done.
        destruct (Known (FormatUint i) g); [by rewrite lookup_insert_ne|done].
      * destruct (Known (FormatUint i) g); [by rewrite lookup_insert_ne|done].
Qed.

Lemma applyEpochs_ok epochs f :
  fence_ok f → canonical_ids epochs → fence_ok (applyEpochs epochs f).
Proof.
  intros [Hids Hall Hf] Hcan.
  set (f' := applyEpochs epochs f).
  assert (∀ s id, f_fenced f' !! s = Some id → s = FormatUint id ∧ is_u64 id) as Hids'.
  { intros s id. unfold f', applyEpochs, updateFenceLocked. simpl. rewrite fence_parse_lookup.
    destruct (f_fenced f !! s) eqn:E; [intros [= <-]; by apply Hids|].
    destruct (epochs !! s) as [e|] eqn:He; [|done]. destruct (Hcan _ _ He) as (i & Hi & ->).
    rewrite Parse_FormatUint by done. by intros [= <-]. }
  assert (∀ s, is_Some (Known s (f_gate f')) → is_Some (f_fenced f' !! s)) as Hall'.
  { intros s. unfold f', applyEpochs, updateFenceLocked. simpl.
    unfold Known. rewrite Update_fold_lookup, fence_parse_lookup.
    destruct (f_fenced f !! s) eqn:E; [done|].
    destruct (epochs !! s) as [e|] eqn:He.
    - destruct (Hcan _ _ He) as (i & Hi & ->). rewrite Parse_FormatUint by done. eauto.
    - intros Hk. destruct (Hall s Hk). congruence. }
  split; [done..|]. intros id Hid.
  change (f_fence f') with (fence_build (f_gate f') (f_fenced f')).
  rewrite fence_build_lookup by (intros s i Hi; by apply Hids' in Hi as [? _]).
  destruct (f_fenced f' !! FormatUint id) as [i|] eqn:E.
  - apply Hids' in E as [He Hi]. assert (i = id) as ->; [|by rewrite decide_True].
    assert (Some i = Some id); [|congruence].
    rewrite <- (Parse_FormatUint id Hid), <- (Parse_FormatUint i Hi). by rewrite He.
  - destruct (Known (FormatUint id) (f_gate f')) eqn:Ek; [|done].
    destruct (Hall' (FormatUint id)) as [? ?]; [by rewrite Ek|]. congruence.
Qed.

Lemma newFence_ok : fence_ok newFence.
Proof. split; simpl; unfold Known; simpl; intros *; rewrite ?lookup_empty; try done. Qed.

Lemma applyEpochs_seen p f s c :
  Known s (f_gate f) = Some c ∨ p !! s = Some c →
  ∃ c', Known s (f_gate (applyEpochs p f)) = Some c' ∧ c ≤ c'.
Proof.
  intros Hc. unfold Known, applyEpochs, updateFenceLocked in *. simpl.
  rewrite Update_fold_lookup. unfold join.
  destruct Hc as [->|Hc]; [destruct (p !! s)|rewrite Hc; destruct (known (f_gate f) !! s)];
    eexists; (split; [done|lia]).
Qed.

Lemma applyEpochs_plans plans f :
  Forall canonical_ids plans → fence_ok f →
  let f' := fold_left (λ f p, applyEpochs p f) plans f in
  fence_ok f' ∧ gate_le (f_gate f) (f_gate f') ∧
  ∀ p s e, p ∈ plans → p !! s = Some e → ∃ c, Known s (f_gate f') = Some c ∧ e ≤ c.
Proof.
  revert f. induction plans as [|p plans IH]; intros f Hp Hok; simpl.
  { split_and!; try done. by intros ??? ?%elem_of_nil. }
  inversion Hp as [|? ? Hp1 Hp2]; subst.
  destruct (IH (applyEpochs p f) Hp2 (applyEpochs_ok _ _ Hok Hp1)) as (Hok' & Hle & Hseen).
  split_and!; [done| |].
  - etrans; [|exact Hle]. intros s c Hc. apply applyEpochs_seen. by left.
  - intros q s e [->|Hin]%elem_of_cons Hq; [|by eapply Hseen].
    destruct (applyEpochs_seen p f s e (or_intror Hq)) as (c & Hc & ?).
    destruct (Hle _ _ Hc) as (c' & ? & ?). exists c'. split; [done|lia].
Qed.

(** ** Properties *)

(** A gate that follows ownership events is the maximum of what it saw:
    any reordering of the events, and any repetition, leaves it the same, and
    it never forgets. Delivery order out of the store does not matter. *)
Theorem Follow_order_insensitive events events' g :
  events ≡ₚ events' →
  Follow events g = Follow events' g ∧ Follow (events ++ events) g = Follow events g ∧
  gate_le g (Follow events g) ∧
  ∀ rec, rec ∈ events → ∀ e, e < Epoch rec → Admit (Session rec) e (Follow events g) = false.
Proof.
  intros HP. split_and!.
  - unfold Follow. revert g. induction HP as [|r l1 l2 _ IH|r1 r2 l|l1 l2 l3 _ IH1 _ IH2]; intros g; simpl.
    + done.
    + apply IH.
    + by rewrite Update_comm.
    + by rewrite IH1.
  - rewrite Follow_app. clear HP events'. unfold Follow. revert g.
    induction events as [|r l IH]; intros g; simpl; [done|].
    assert (∀ g, fold_left (λ g rec, Update (Session rec) (Epoch rec) g) l
                   (Update (Session r) (Epoch r) g) =
                 Update (Session r) (Epoch r)
                   (fold_left (λ g rec, Update (Session rec) (Epoch rec) g) l g)) as Hswap.
    { clear. induction l as [|r' l IH]; intros g; simpl; [done|]. by rewrite Update_comm, IH. }
    rewrite !Hswap. by rewrite Update_idemp, IH.
  - apply Follow_le.
  - intros rec Hin e He. rewrite Admit_Known.
    destruct (Known_Follow rec events g Hin) as (c & -> & ?). apply Z.leb_gt. lia.
Qed.

Lemma Follow_order_insensitive_witness :
  let a := mkOwn "7" "hk" "sg" 1 in
  let b := mkOwn "7" "tk" "sg" 2 in
  Follow [a; b] NewEpochGate = Follow [b; a] NewEpochGate ∧
  Admit "7" 1 (Follow [b; a] NewEpochGate) = false.
Proof.
  split; [|reflexivity].
  apply (Follow_order_insensitive [mkOwn "7" "hk" "sg" 1; mkOwn "7" "tk" "sg" 2]
           [mkOwn "7" "tk" "sg" 2; mkOwn "7" "hk" "sg" 1]). constructor.
Defined.

(** [AdmitAndAdvance] admits exactly the epochs [Admit] admits; an admitted
    epoch becomes known, so afterwards every older one is refused, and a
    refused one changes nothing. *)
Theorem AdmitAndAdvance_fences s e g :
  let '(g', ok) := AdmitAndAdvance s e g in
  ok = Admit s e g ∧ gate_le g g' ∧
  (ok = true → Known s g' = Some (match Known s g with Some c => Z.max c e | None => e end) ∧
               ∀ e', e' < e → Admit s e' g' = false) ∧
  (ok = false → g' = g).
Proof.
  rewrite AdmitAndAdvance_spec. destruct (Admit s e g) eqn:E; [|by split_and!].
  assert (Known s (Update s e g) = Some (match Known s g with Some c => Z.max c e | None => e end)) as Hk.
  { unfold Known. rewrite known_Update, decide_True by done. done. }
  split_and!; [done|apply Update_le| |done]. intros _. split; [done|].
  intros e' He'. rewrite Admit_Known, Hk. apply Z.leb_gt. destruct (Known s g); lia.
Qed.

(** C26: the packet path decides as the gate does. After any sequence of plans
    whose session IDs are printed uint64s, a packet of a numbered session is
    admitted by the fence map exactly when the gate admits its epoch, and the
    gate has seen every epoch of every plan. *)
Theorem admit_refines_gate plans h :
  Forall canonical_ids plans →
  is_u64 (Header.h_SessionID h) → Header.h_SessionID h ≠ 0 →
  let f := fold_left (λ f p, applyEpochs p f) plans newFence in
  packet_admit f h = Admit (FormatUint (Header.h_SessionID h)) (Header.h_Epoch h) (f_gate f) ∧
  ∀ p s e, p ∈ plans → p !! s = Some e → ∃ c, Known s (f_gate f) = Some c ∧ e ≤ c.
Proof.
  intros Hp Hid Hnz f.
  destruct (applyEpochs_plans plans newFence Hp newFence_ok) as (Hok & _ & Hseen).
  fold f in Hok, Hseen. split; [|exact Hseen]. unfold packet_admit. destruct (Z.eqb_spec (Header.h_SessionID h) 0); [done|].
  rewrite (fo_fence _ Hok _ Hid), Admit_Known.
  destruct (Known _ (f_gate f)) as [c|]; [|done]. by rewrite Z.leb_antisym.
Qed.

Lemma admit_refines_gate_witness :
  let h := Header.mkHeader 1 0 0 7 2 1 in
  let plans := [{[ "7" := 2 ]}; {[ "7" := 3 ]}] in
  packet_admit (fold_left (λ f p, applyEpochs p f) plans newFence) h = false ∧
  packet_admit (fold_left (λ f p, applyEpochs p f) plans newFence) h =
    Admit (FormatUint 7) 2 (f_gate (fold_left (λ f p, applyEpochs p f) plans newFence)).
Proof.
  split; [reflexivity|].
  refine (proj1 (admit_refines_gate [{[ "7" := 2 ]}; {[ "7" := 3 ]}] (Header.mkHeader 1 0 0 7 2 1) _ _ _)).
  - repeat constructor; intros s e [<- _]%lookup_singleton_Some; exists 7; by split.
  - by split.
  - done.
Defined.

(** The session header carries 32 bits of the epoch and the gate 64. Once
    a session's epoch reaches 2^32, a client that stamps its packets with the
    low 32 bits of that very epoch, as the agent does, has every packet
    dropped by a gateway that knows the epoch. *)
Theorem epoch_truncation_fences f h epoch :
  fence_ok f → is_u64 (Header.h_SessionID h) → Header.h_SessionID h ≠ 0 →
  Known (FormatUint (Header.h_SessionID h)) (f_gate f) = Some epoch →
  Header.h_Epoch h = u32 epoch → 2 ^ 32 ≤ epoch →
  packet_admit f h = false.
Proof.
  intros Hok Hid Hnz Hk He Hbig. unfold packet_admit.
  destruct (Z.eqb_spec (Header.h_SessionID h) 0); [done|].
  rewrite (fo_fence _ Hok _ Hid), Hk, He.
  pose proof (u32_fits epoch) as Hu. unfold fits in Hu.
  destruct (Z.ltb_spec (u32 epoch) epoch); [done|lia].
Qed.

Lemma epoch_truncation_fences_witness :
  packet_admit (applyEpochs {[ "7" := 2 ^ 32 ]} newFence) (Header.mkHeader 1 0 0 7 0 1) = false.
Proof.
  apply (epoch_truncation_fences _ _ (2 ^ 32)).
  - apply applyEpochs_ok; [apply newFence_ok|].
    intros s e [<- _]%lookup_singleton_Some. exists 7. by split.
  - by split.
  - done.
  - reflexivity.
  - reflexivity.
  - reflexivity.
Defined.
