(* ===== verification/GoFloat.v ===== *)
(** * Go's float64 and the parts of package math the sources use

    float64 is IEEE 754 binary64 with rounding to nearest even, by the
    executable specification of the Standard Library ([SpecFloat] at precision
    53). Each Go operation rounds once; an explicit multiply-add is never
    fused, as on amd64. [math.Sqrt] is exact rounding. [math.Log] and
    [math.Exp2] differ between architectures in the last bit, so the sources'
    definitions take them as the class [GoMath]; [pure_GoMath] is the portable
    Go implementation of both, and no theorem depends on which one is used. *)

From Stdlib Require Import SpecFloat.
From S2P Require Import Prelude.

Abbreviation float64 := spec_float (only parsing).
Abbreviation prec := 53 (only parsing).
Abbreviation emax := 1024 (only parsing).

Definition fadd (x y : float64) : float64 := SFadd prec emax x y.
Definition fsub (x y : float64) : float64 := SFsub prec emax x y.
Definition fmul (x y : float64) : float64 := SFmul prec emax x y.
Definition fdiv (x y : float64) : float64 := SFdiv prec emax x y.
Definition fneg (x : float64) : float64 := SFopp x.
Definition math_Sqrt (x : float64) : float64 := SFsqrt prec emax x.

Definition flt (x y : float64) : bool := SFltb x y.
Definition fle (x y : float64) : bool := SFleb x y.
Definition fgt (x y : float64) : bool := SFltb y x.
Definition fge (x y : float64) : bool := SFleb y x.
Definition feq (x y : float64) : bool := SFeqb x y.

Definition f0 : float64 := S754_zero false.
(** Conversion of an integer: one rounding. *)
Definition of_int (z : Z) : float64 := binary_normalize prec emax z 0 false.
Definition f1 : float64 := of_int 1.
(** A decimal constant n/d: both parts are exact, so the quotient is the
    constant correctly rounded. *)
Definition of_ratio (n d : Z) : float64 := fdiv (of_int n) (of_int d).

Definition Inf (sign : Z) : float64 := S754_infinity (sign <? 0).
Definition NaN : float64 := S754_nan.
Definition IsNaN (x : float64) : bool := match x with S754_nan => true | _ => false end.
Definition IsInf (x : float64) (sign : Z) : bool :=
  match x with
  | S754_infinity false => 0 <=? sign
  | S754_infinity true => sign <=? 0
  | _ => false
  end.

(** [int(x)]: truncation towards zero (only used on finite values). *)
Definition to_int (x : float64) : Z :=
  match x with
  | S754_finite s m e =>
      let a := if 0 <=? e then Z.pos m * 2 ^ e else Z.pos m / 2 ^ (- e) in
      if s then - a else a
  | _ => 0
  end.

Class GoMath := {
  math_Log : float64 → float64;
  math_Exp2 : float64 → float64;
}.

(** A float64 given by its bits: sign, biased exponent, 52 fraction bits. *)
Definition of_bits (b : Z) : float64 :=
  let s := Z.testbit b 63 in
  let ex := Z.land (Z.shiftr b 52) 2047 in
  let fr := Z.land b (2 ^ 52 - 1) in
  if ex =? 0 then (match fr with Z.pos m => S754_finite s m (-1074) | _ => S754_zero s end)
  else if ex =? 2047 then (if fr =? 0 then S754_infinity s else S754_nan)
  else S754_finite s (Z.to_pos (fr + 2 ^ 52)) (ex - 1075).

(** src/math/log.go of the Go distribution. *)
Definition pure_Log (x : float64) : float64 :=
  if IsNaN x || IsInf x 1 then x
  else if flt x f0 then NaN
  else if feq x f0 then Inf (-1)
  else
    let '(f1a, ki0) := SFfrexp prec emax x in
    let '(f1b, ki) := if flt f1a (of_bits 0x3FE6A09E667F3BCD)
                      then (fmul f1a (of_int 2), ki0 - 1) else (f1a, ki0) in
    let f := fsub f1b f1 in
    let k := of_int ki in
    let s := fdiv f (fadd (of_int 2) f) in
    let s2 := fmul s s in
    let s4 := fmul s2 s2 in
    let L1 := of_bits 0x3FE5555555555593 in
    let L2 := of_bits 0x3FD999999997FA04 in
    let L3 := of_bits 0x3FD2492494229359 in
    let L4 := of_bits 0x3FCC71C51D8E78AF in
    let L5 := of_bits 0x3FC7466496CB03DE in
    let L6 := of_bits 0x3FC39A09D078C69F in
    let L7 := of_bits 0x3FC2F112DF3E5244 in
    let Ln2Hi := of_bits 0x3FE62E42FEE00000 in
    let Ln2Lo := of_bits 0x3DEA39EF35793C76 in
    let t1 := fmul s2 (fadd L1 (fmul s4 (fadd L3 (fmul s4 (fadd L5 (fmul s4 L7)))))) in
    let t2 := fmul s4 (fadd L2 (fmul s4 (fadd L4 (fmul s4 L6)))) in
    let R := fadd t1 t2 in
    let hfsq := fmul (fmul (of_ratio 1 2) f) f in
    fsub (fmul k Ln2Hi)
         (fsub (fsub hfsq (fadd (fmul s (fadd hfsq R)) (fmul k Ln2Lo))) f).

(** src/math/exp.go of the Go distribution: exp2 and expmulti. *)
Definition pure_Exp2 (x : float64) : float64 :=
  if IsNaN x || IsInf x 1 then x
  else if IsInf x (-1) then f0
  else if fgt x (of_bits 0x408FFFFFFFFFFFFF) then Inf 1
  else if flt x (of_int (-1074)) then f0
  else
    let k := if fgt x f0 then to_int (fadd x (of_ratio 1 2))
             else if flt x f0 then to_int (fsub x (of_ratio 1 2)) else 0 in
    let t := fsub x (of_int k) in
    let hi := fmul t (of_bits 0x3FE62E42FEE00000) in
    let lo := fmul (fneg t) (of_bits 0x3DEA39EF35793C76) in
    let r := fsub hi lo in
    let t := fmul r r in
    let P1 := of_bits 0x3FC5555555555555 in
    let P2 := of_bits 0xBF66C16C16BEBD93 in
    let P3 := of_bits 0x3F11566AAF25DE2C in
    let P4 := of_bits 0xBEBBBD41C5D26BF1 in
    let P5 := of_bits 0x3E66376972BEA4D0 in
    let c := fsub r (fmul t (fadd P1 (fmul t (fadd P2 (fmul t (fadd P3 (fmul t (fadd P4 (fmul t P5))))))))) in
    let y := fsub f1 (fsub (fsub lo (fdiv (fmul r c) (fsub (of_int 2) c))) hi) in
    SFldexp prec emax y k.

Definition pure_GoMath : GoMath := {| math_Log := pure_Log; math_Exp2 := pure_Exp2 |}.

#[export] Instance float64_eq_dec : EqDecision float64.
Proof. solve_decision. Defined.

(** ** Order lemmas: comparisons of float64 values, NaN included. They hold
    for every value of the type, normalised or not. *)

(** A total order key: the comparison of two numbers is that of their keys. *)
Definition fkey (x : float64) : option (Z * Z * Z) :=
  match x with
  | S754_nan => None
  | S754_infinity true => Some (-2, 0, 0)
  | S754_infinity false => Some (2, 0, 0)
  | S754_zero _ => Some (0, 0, 0)
  | S754_finite true m e => Some (-1, - e, - Z.pos m)
  | S754_finite false m e => Some (1, e, Z.pos m)
  end.

Definition key_lt (a b : Z * Z * Z) : Prop :=
  let '(a1, a2, a3) := a in let '(b1, b2, b3) := b in
  a1 < b1 ∨ a1 = b1 ∧ (a2 < b2 ∨ a2 = b2 ∧ a3 < b3).

Lemma key_lt_trans a b c : key_lt a b → key_lt b c → key_lt a c.
Proof. destruct a as [[??]?], b as [[??]?], c as [[??]?]. simpl. lia. Qed.

Lemma SFcompare_key x y :
  match SFcompare x y, fkey x, fkey y with
  | None, None, _ | None, _, None => True
  | Some Lt, Some a, Some b => key_lt a b
  | Some Eq, Some a, Some b => a = b
  | Some Gt, Some a, Some b => key_lt b a
  | _, _, _ => False
  end.
Proof.
  destruct x as [[]|[]| |[] m e], y as [[]|[]| |[] m' e']; simpl; try done; try lia;
    destruct (Z.compare_spec e e'); simpl; try lia;
    change (Pos.compare_cont Eq m m') with (m ?= m')%positive;
    destruct (Pos.compare_spec m m'); simpl; subst; try lia; done.
Qed.

Lemma flt_key x y :
  flt x y = true ↔ ∃ a b, fkey x = Some a ∧ fkey y = Some b ∧ key_lt a b.
Proof.
  unfold flt, SFltb. pose proof (SFcompare_key x y) as H. split.
  - destruct (SFcompare x y) as [[]|]; try done. intros _.
    destruct (fkey x), (fkey y); try done. eauto.
  - intros (a & b & Ha & Hb & Hlt). rewrite Ha, Hb in H.
    destruct (SFcompare x y) as [[]|]; try done; exfalso.
    + subst. destruct b as [[??]?]. simpl in *. lia.
    + destruct a as [[??]?], b as [[??]?]. simpl in *. lia.
Qed.

Lemma fle_key x y :
  fle x y = true ↔ ∃ a b, fkey x = Some a ∧ fkey y = Some b ∧ ¬ key_lt b a.
Proof.
  unfold fle, SFleb. pose proof (SFcompare_key x y) as H. split.
  - destruct (SFcompare x y) as [[]|]; try done; intros _;
      destruct (fkey x) as [[[??]?]|], (fkey y) as [[[??]?]|]; try done;
      eexists _, _; split_and!; try done; simpl in *; [simplify_eq|]; lia.
  - intros (a & b & Ha & Hb & Hlt). rewrite Ha, Hb in H.
    by destruct (SFcompare x y) as [[]|].
Qed.

Lemma flt_irrefl x : flt x x = false.
Proof.
  destruct (flt x x) eqn:E; [|done]. apply flt_key in E as (a & b & Ha & Hb & Hlt).
  rewrite Ha in Hb. injection Hb as <-. destruct a as [[??]?]. simpl in Hlt. lia.
Qed.

Lemma flt_trans x y z : flt x y = true → flt y z = true → flt x z = true.
Proof.
  rewrite !flt_key. intros (a & b & Ha & Hb & H1) (b' & c & Hb' & Hc & H2).
  rewrite Hb in Hb'. injection Hb' as <-. exists a, c. eauto using key_lt_trans.
Qed.

Lemma flt_asym x y : flt x y = true → flt y x = false.
Proof.
  intros H. destruct (flt y x) eqn:E; [|done].
  pose proof (flt_trans _ _ _ H E) as Hc. by rewrite flt_irrefl in Hc.
Qed.

Lemma fle_flt_trans x y z : fle x y = true → flt y z = true → flt x z = true.
Proof.
  rewrite fle_key, !flt_key. intros (a & b & Ha & Hb & H1) (b' & c & Hb' & Hc & H2).
  rewrite Hb in Hb'. injection Hb' as <-. exists a, c. split_and!; try done.
  destruct a as [[??]?], b as [[??]?], c as [[??]?]. simpl in *. lia.
Qed.

Lemma flt_fle_trans x y z : flt x y = true → fle y z = true → flt x z = true.
Proof.
  rewrite fle_key, !flt_key. intros (a & b & Ha & Hb & H1) (b' & c & Hb' & Hc & H2).
  rewrite Hb in Hb'. injection Hb' as <-. exists a, c. split_and!; try done.
  destruct a as [[??]?], b as [[??]?], c as [[??]?]. simpl in *. lia.
Qed.

(** For numbers that are not NaN, "not less" is "at most the other way". *)
Lemma flt_false_fle x y : IsNaN x = false → IsNaN y = false → flt x y = false → fle y x = true.
Proof.
  intros Hx Hy Hf.
  assert (∀ z, IsNaN z = false → ∃ a, fkey z = Some a) as Hk.
  { intros z Hz. destruct z as [|[]| |[]]; try done; by eexists. }
  destruct (Hk _ Hx) as [a Ha], (Hk _ Hy) as [b Hb].
  apply fle_key. exists b, a. split_and!; try done. intros Hlt.
  assert (flt x y = true) as Ht by (apply flt_key; eauto). congruence.
Qed.

(** Nothing is above +Inf or below -Inf. *)
Lemma flt_PInf x : flt (Inf 1) x = false.
Proof. by destruct x as [[]|[]| |[]]. Qed.
Lemma flt_NInf x : flt x (Inf (-1)) = false.
Proof. by destruct x as [[]|[]| |[]]. Qed.

Lemma flt_NaN_l x : flt NaN x = false.
Proof. done. Qed.
Lemma flt_NaN_r x : flt x NaN = false.
Proof. by destruct x as [|[]| |[]]. Qed.

Create Rewrite HintDb float.
#[export] Hint Rewrite flt_irrefl flt_PInf flt_NInf flt_NaN_l flt_NaN_r : float.
