(* ===== verification/Cost.v ===== *)
(** * Path cost and the migration test: internal/measurement/cost.go and decide.go

    The cost of a segment and of a path, its gates, and the confidence bounds
    that [DecideMigration] compares, in float64 arithmetic with infinities and
    NaN. *)

From S2P Require Import Prelude GoFloat.

(** [SegmentStats] (stats.go) *)
Record SegmentStats := mkStats {
  P50Micros : float64;
  P95Micros : float64;
  LossRate : float64;
  VarianceMicros2 : float64;
  N : Z;
  Age : Duration;
  Confidence : float64;
}.

(** The zero value: a segment nothing is known about. *)
Definition zeroStats : SegmentStats := mkStats f0 f0 f0 f0 0 0 f0.

Record CostWeights := mkCW {
  TailWeight : float64;
  LossWeight : float64;
  LossGate : float64;
  MaxCapacityFraction : float64;
}.

Definition DefaultCostWeights : CostWeights :=
  mkCW (of_int 1) (of_int 995033) (of_ratio 20 100) (of_ratio 90 100).

Inductive GateReason := GateNone | GateLoss | GateCapacity.

Definition GateReason_String (r : GateReason) : string :=
  match r with GateNone => "none" | GateLoss => "loss" | GateCapacity => "capacity" end.

Record PathCandidate := mkCandidate {
  EgressID : string;
  Segments : list SegmentStats;
  CapacityFraction : float64;
}.

Record PathScore := mkScore { sc_Cost : float64; sc_Gate : GateReason; sc_GatedSegment : Z }.

Inductive diff_error :=
| DifferentEgress (a b : string)
| NegativeSuffix (n : Z)
| SuffixTooLong (n : Z) (a b : nat)
| SharedSuffixGated
| EgressAtCapacity.

Record DeltaEstimate := mkDelta { d_Point : float64; d_Lower : float64; d_Upper : float64 }.

Record DecisionWeights := mkDW { dw_Z : float64; MigrationCost : float64; SafetyMargin : float64 }.

Definition DefaultDecisionWeights : DecisionWeights := mkDW (of_ratio 1645 1000) f0 f0.

Record MigrationDecision := mkDecision {
  md_Migrate : bool;
  md_Delta : DeltaEstimate;
  md_Threshold : float64;
}.

Section Cost.
Context {GM : GoMath}.

Definition lossPenalty (p weight : float64) : float64 :=
  if fge p (of_int 1) then Inf 1
  else fmul (fneg (math_Log (fsub (of_int 1) p))) weight.

(** [latency] of [SegmentCost]; [segmentCostBound] computes it again. *)
Definition latencyPoint (s : SegmentStats) (w : CostWeights) : float64 :=
  let tailPremium := fsub (P95Micros s) (P50Micros s) in
  let tailPremium := if flt tailPremium f0 then f0 else tailPremium in
  fadd (P50Micros s) (fmul (TailWeight w) tailPremium).

Definition SegmentCost (s : SegmentStats) (w : CostWeights) : float64 :=
  fadd (latencyPoint s w) (lossPenalty (LossRate s) (LossWeight w)).

(** The loop of [ScorePath] over the segments from index [i] on. *)
Fixpoint score_loop (i : Z) (total : float64) (segs : list SegmentStats) (w : CostWeights) : PathScore :=
  match segs with
  | [] => mkScore total GateNone (-1)
  | seg :: segs =>
      if fge (LossRate seg) (LossGate w) then mkScore (Inf 1) GateLoss i
      else score_loop (i + 1) (fadd total (SegmentCost seg w)) segs w
  end.

Definition ScorePath (c : PathCandidate) (w : CostWeights) : PathScore :=
  if fge (CapacityFraction c) (MaxCapacityFraction w) then mkScore (Inf 1) GateCapacity (-1)
  else score_loop 0 f0 (Segments c) w.

Definition segmentsGated (segs : list SegmentStats) (w : CostWeights) : bool :=
  existsb (λ s, fge (LossRate s) (LossGate w)) segs.

Fixpoint differingCost_loop (total : float64) (segs : list SegmentStats) (w : CostWeights) : float64 :=
  match segs with
  | [] => total
  | seg :: segs =>
      if fge (LossRate seg) (LossGate w) then Inf 1
      else differingCost_loop (fadd total (SegmentCost seg w)) segs w
  end.
Definition differingCost (segs : list SegmentStats) (w : CostWeights) : float64 :=
  differingCost_loop f0 segs w.

Definition validateDifferential (a b : PathCandidate) (sharedSuffixLen : Z) (w : CostWeights)
    : res diff_error (list SegmentStats * list SegmentStats) :=
  let la := length (Segments a) in
  let lb := length (Segments b) in
  if negb (bool_decide (EgressID a = EgressID b)) then Err (DifferentEgress (EgressID a) (EgressID b))
  else if sharedSuffixLen <? 0 then Err (NegativeSuffix sharedSuffixLen)
  else if (sharedSuffixLen >? Z.of_nat la) || (sharedSuffixLen >? Z.of_nat lb) then
    Err (SuffixTooLong sharedSuffixLen la lb)
  else
    let n := Z.to_nat sharedSuffixLen in
    if (sharedSuffixLen >? 0) && segmentsGated (drop (la - n) (Segments a)) w then Err SharedSuffixGated
    else if fge (CapacityFraction a) (MaxCapacityFraction w)
         || fge (CapacityFraction b) (MaxCapacityFraction w) then Err EgressAtCapacity
    else Ok (take (la - n) (Segments a), take (lb - n) (Segments b)).

Definition PathDifferential (a b : PathCandidate) (sharedSuffixLen : Z) (w : CostWeights)
    : res diff_error float64 :=
  try (differingA, differingB) := validateDifferential a b sharedSuffixLen w in
  Ok (fsub (differingCost differingA w) (differingCost differingB w)).

Definition clamp01 (x : float64) : float64 :=
  if flt x f0 then f0 else if fgt x (of_int 1) then of_int 1 else x.

Definition segmentCostBound (s : SegmentStats) (w : CostWeights) (z : float64)
    : float64 * float64 * float64 :=
  let point := SegmentCost s w in
  if (N s =? 0) || fle (Confidence s) f0 then (point, Inf (-1), Inf 1)
  else
    let latencyPoint := latencyPoint s w in
    let confidenceInflation := math_Sqrt (Confidence s) in
    let se := fdiv (math_Sqrt (fdiv (VarianceMicros2 s) (of_int (N s)))) confidenceInflation in
    let latencySpread := fmul (fmul z se) (fadd (of_int 1) (TailWeight w)) in
    let p := clamp01 (LossRate s) in
    let lossSE := fdiv (math_Sqrt (fdiv (fmul p (fsub (of_int 1) p)) (of_int (N s)))) confidenceInflation in
    let pLow := clamp01 (fsub p (fmul z lossSE)) in
    let pHigh := clamp01 (fadd p (fmul z lossSE)) in
    let lower := fadd (fsub latencyPoint latencySpread) (lossPenalty pLow (LossWeight w)) in
    let upper := fadd (fadd latencyPoint latencySpread) (lossPenalty pHigh (LossWeight w)) in
    let lower := if fgt lower point then point else lower in
    let upper := if flt upper point then point else upper in
    (point, lower, upper).

(** The accumulators of [aggregateBounds]: point, upperSpreadSq, lowerSpreadSq
    and untrusted. *)
Definition agg_step (w : CostWeights) (z : float64)
    (acc : float64 * float64 * float64 * bool) (s : SegmentStats)
    : float64 * float64 * float64 * bool :=
  let '(point, up, lo, untrusted) := acc in
  let '(p, l, u) := segmentCostBound s w z in
  let point := fadd point p in
  if IsInf l (-1) || IsInf u 1 then (point, up, lo, true)
  else (point, fadd up (fmul (fsub u p) (fsub u p)), fadd lo (fmul (fsub p l) (fsub p l)), untrusted).

Definition aggregateBounds (segs : list SegmentStats) (w : CostWeights) (z : float64)
    : float64 * float64 * float64 :=
  let '(point, up, lo, untrusted) := fold_left (agg_step w z) segs (f0, f0, f0, false) in
  if untrusted : bool then (point, Inf (-1), Inf 1)
  else (point, fsub point (math_Sqrt lo), fadd point (math_Sqrt up)).

Definition DecideMigration (current candidate : PathCandidate) (sharedSuffixLen : Z)
    (cw : CostWeights) (dw : DecisionWeights) : res diff_error MigrationDecision :=
  try (differingA, differingB) := validateDifferential current candidate sharedSuffixLen cw in
  let boundsA := aggregateBounds differingA cw (dw_Z dw) in
  let boundsB := aggregateBounds differingB cw (dw_Z dw) in
  let '(pointA, lowerA, upperA) :=
    if segmentsGated differingA cw then (Inf 1, Inf 1, Inf 1) else boundsA in
  let '(pointB, lowerB, upperB) :=
    if segmentsGated differingB cw then (Inf 1, Inf 1, Inf 1) else boundsB in
  let delta := mkDelta (fsub pointA pointB) (fsub lowerA upperB) (fsub upperA lowerB) in
  let threshold := fadd (MigrationCost dw) (SafetyMargin dw) in
  Ok (mkDecision (fgt (d_Lower delta) threshold) delta threshold).

(** A segment with no usable observations. *)
Definition unmeasured (s : SegmentStats) : bool := (N s =? 0) || fle (Confidence s) f0.

(** ** Lemmas *)

Lemma score_loop_spec i total segs w :
  match list_find (λ s, fge (LossRate s) (LossGate w) = true) segs with
  | Some (j, _) => score_loop i total segs w = mkScore (Inf 1) GateLoss (i + Z.of_nat j)
  | None => score_loop i total segs w =
            mkScore (fold_left (λ t s, fadd t (SegmentCost s w)) segs total) GateNone (-1)
  end.
Proof.
  revert i total. induction segs as [|s segs IH]; intros i total; simpl; [done|].
  destruct (fge (LossRate s) (LossGate w)) eqn:E; simpl.
  - f_equal. lia.
  - specialize (IH (i + 1) (fadd total (SegmentCost s w))).
    destruct (list_find _ segs) as [[j x]|]; simpl in *; [|done]. rewrite IH. f_equal. lia.
Qed.

Lemma differingCost_score i total segs w :
  differingCost_loop total segs w = sc_Cost (score_loop i total segs w).
Proof.
  revert i total. induction segs as [|s segs IH]; intros i total; simpl; [done|].
  destruct (fge _ _); [done|]. apply IH.
Qed.

Lemma segmentsGated_find segs w :
  segmentsGated segs w = true ↔
  is_Some (list_find (λ s, fge (LossRate s) (LossGate w) = true) segs).
Proof.
  induction segs as [|s segs IH]; simpl; [split; [done|by intros [??]]|].
  destruct (fge (LossRate s) (LossGate w)) eqn:E; simpl; [split; eauto|].
  rewrite IH. split; intros [[j x] Hj]; rewrite ?Hj; simpl; eauto.
  destruct (list_find _ segs) as [[??]|] eqn:Ef; simpl in *; eauto.
Qed.

Lemma fsub_PInf_not_gt x t : flt t (fsub x (Inf 1)) = false.
Proof. by destruct x as [[]|[]| |[]], t as [[]|[]| |[]]. Qed.

Lemma fsub_NInf_not_gt x t : flt t (fsub (Inf (-1)) x) = false.
Proof. by destruct x as [[]|[]| |[]], t as [[]|[]| |[]]. Qed.

Lemma agg_untrusted w z segs acc :
  (acc.2 = true ∨ Exists (λ s, unmeasured s = true) segs) →
  (fold_left (agg_step w z) segs acc).2 = true.
Proof.
  revert acc. induction segs as [|s segs IH]; intros [[[pt up] lo] un] H; simpl.
  - destruct H as [H|H]; [done|inversion H].
  - apply IH. destruct (segmentCostBound s w z) as [[p l] u] eqn:E.
    destruct H as [H|H]; simpl in *.
    + left. by destruct (_ || _).
    + inversion H as [? ? Hu|]; subst; [left|by right].
      unfold segmentCostBound in E. unfold unmeasured in Hu. rewrite Hu in E. by simplify_eq.
Qed.

Lemma aggregateBounds_unmeasured segs w z :
  Exists (λ s, unmeasured s = true) segs →
  ∃ p, aggregateBounds segs w z = (p, Inf (-1), Inf 1).
Proof.
  intros H. unfold aggregateBounds.
  pose proof (agg_untrusted w z segs (f0, f0, f0, false) (or_intror H)) as Hu.
  destruct (fold_left _ _ _) as [[[pt up] lo] un]. simpl in Hu. subst. eauto.
Qed.

Lemma validateDifferential_zero a b w :
  validateDifferential a b 0 w =
  if negb (bool_decide (EgressID a = EgressID b)) then Err (DifferentEgress (EgressID a) (EgressID b))
  else if fge (CapacityFraction a) (MaxCapacityFraction w)
       || fge (CapacityFraction b) (MaxCapacityFraction w) then Err EgressAtCapacity
  else Ok (Segments a, Segments b).
Proof.
  unfold validateDifferential. destruct (negb _); [done|]. simpl.
  destruct (Z.gtb_spec 0 (Z.of_nat (length (Segments a)))); [lia|].
  destruct (Z.gtb_spec 0 (Z.of_nat (length (Segments b)))); [lia|]. simpl.
  destruct (_ || _); [done|]. by rewrite !Nat.sub_0_r, !firstn_all.
Qed.

(** ** Properties *)

(** [ScorePath] is exactly its gates: at or above the capacity limit the
    whole path is gated; otherwise the first segment whose loss reaches the
    loss gate gates the path and is the one reported; otherwise the cost is
    the sum of the segments' costs, in order, and it is the cost the
    differential comparison gives the same segments. *)
Theorem ScorePath_spec c w :
  let cap := fge (CapacityFraction c) (MaxCapacityFraction w) in
  ScorePath c w =
    (if cap then mkScore (Inf 1) GateCapacity (-1)
     else match list_find (λ s, fge (LossRate s) (LossGate w) = true) (Segments c) with
          | Some (i, _) => mkScore (Inf 1) GateLoss (Z.of_nat i)
          | None => mkScore (fold_left (λ t s, fadd t (SegmentCost s w)) (Segments c) f0) GateNone (-1)
          end) ∧
  (cap = false → sc_Cost (ScorePath c w) = differingCost (Segments c) w) ∧
  (sc_Gate (ScorePath c w) = GateNone ↔ cap = false ∧ segmentsGated (Segments c) w = false).
Proof.
  intros cap. pose proof (score_loop_spec 0 f0 (Segments c) w) as Hs.
  pose proof (segmentsGated_find (Segments c) w) as Hg.
  unfold ScorePath. fold cap. split_and!.
  - destruct cap; [done|]. by destruct (list_find _ _) as [[i x]|].
  - intros ->. unfold differingCost. by rewrite (differingCost_score 0).
  - destruct cap; [split; [done|by intros [? _]]|].
    destruct (list_find _ _) as [[i x]|]; rewrite Hs; simpl.
    + split; [done|]. intros [_ H]. rewrite (proj2 Hg) in H; [done|eauto].
    + destruct (segmentsGated _ _); [|done]. destruct (proj1 Hg eq_refl). done.
Qed.


(** Evidence is required on both sides. When the candidate's compared
    segments include one that is loss-gated or unmeasured, or the current
    path's are not gated but include an unmeasured one, [DecideMigration]
    never asks to migrate, whatever the other numbers are. *)
Theorem DecideMigration_needs_evidence cur cand n cw dw d da db :
  validateDifferential cur cand n cw = Ok (da, db) →
  segmentsGated db cw = true ∨ Exists (λ s, unmeasured s = true) db ∨
  (segmentsGated da cw = false ∧ Exists (λ s, unmeasured s = true) da) →
  DecideMigration cur cand n cw dw = Ok d → md_Migrate d = false.
Proof.
  intros Hv Hc Hd. unfold DecideMigration in Hd. rewrite Hv in Hd. simpl in Hd.
  destruct (if segmentsGated da cw then _ else _) as [[pA lA] uA] eqn:EA.
  destruct (if segmentsGated db cw then _ else _) as [[pB lB] uB] eqn:EB.
  injection Hd as <-. simpl.
  change (fgt (fsub lA uB) (fadd (MigrationCost dw) (SafetyMargin dw)))
    with (flt (fadd (MigrationCost dw) (SafetyMargin dw)) (fsub lA uB)).
  destruct Hc as [Hg|[Hu|[Hg Hu]]].
  - rewrite Hg in EB. simplify_eq. apply fsub_PInf_not_gt.
  - destruct (aggregateBounds_unmeasured db cw (dw_Z dw) Hu) as [p Hp].
    rewrite Hp in EB. destruct (segmentsGated db cw); simplify_eq; apply fsub_PInf_not_gt.
  - rewrite Hg in EA. destruct (aggregateBounds_unmeasured da cw (dw_Z dw) Hu) as [p Hp].
    rewrite Hp in EA. simplify_eq. apply fsub_NInf_not_gt.
Qed.

End Cost.

(** One probe segment with the given statistics, measured 30 times. *)
Definition seg (p50 p95 sd loss100 : Z) : SegmentStats :=
  mkStats (of_int p50) (of_int p95) (of_ratio loss100 100) (of_int (sd * sd)) 30 0 (of_ratio 6 10).

Lemma DecideMigration_needs_evidence_witness :
  let cur := mkCandidate "sg" [seg 180000 200000 10000 0] f0 in
  let cand := mkCandidate "sg" [seg 30000 36000 3000 0; zeroStats] f0 in
  ∃ d, @DecideMigration pure_GoMath cur cand 0 DefaultCostWeights DefaultDecisionWeights = Ok d ∧
       md_Migrate d = false.
Proof.
  intros cur cand.
  destruct (@DecideMigration pure_GoMath cur cand 0 DefaultCostWeights DefaultDecisionWeights)
    as [d|e] eqn:E; [|vm_compute in E; discriminate].
  exists d. split; [reflexivity|].
  refine (@DecideMigration_needs_evidence pure_GoMath cur cand 0 DefaultCostWeights
            DefaultDecisionWeights d (Segments cur) (Segments cand) _ _ E).
  - reflexivity.
  - right. left. apply Exists_cons_tl, Exists_cons_hd. reflexivity.
Defined.

(** The worked example of docs/measurement.md: a current path at 200 ms and a
    candidate at 36 ms, 30 samples each, is a migration; the lower bound of
    the improvement is between 153 and 155 ms. *)
Example worked_example :
  let cur := mkCandidate "sg" [seg 180000 200000 10000 0] f0 in
  let cand := mkCandidate "sg" [seg 30000 36000 3000 0] f0 in
  match @DecideMigration pure_GoMath cur cand 0 DefaultCostWeights DefaultDecisionWeights with
  | Ok d => md_Migrate d = true ∧ flt (of_int 153000) (d_Lower (md_Delta d)) = true ∧
            flt (d_Lower (md_Delta d)) (of_int 155000) = true
  | Err _ => False
  end.
Proof. vm_compute. done. Qed.
