(* ===== verification/FlapGuard.v ===== *)
(** * The anti-flapping guard: internal/measurement/flapguard.go and
    internal/handoff/deadgateway.go

    [Evaluate] is called once per decision tick. The theorems read a whole
    run of ticks: an approval means the same candidate qualified at every
    tick of a long enough stretch, and two approvals of one guard are apart. *)

From S2P Require Import Prelude.

Record FlapGuardConfig := mkFGC {
  ConfirmationWindow : Duration;
  MinResidence : Duration;
  Cooldown : Duration;
}.

Definition DefaultFlapGuardConfig : FlapGuardConfig :=
  mkFGC (5 * Second) (30 * Second) (10 * Second).

Record FlapGuard := mkFG {
  fg_cfg : FlapGuardConfig;
  activeSince : Time;
  lastMigrationAt : Time;
  haveMigrated : bool;
  pendingCandidate : string;
  pendingSince : Time;
  havePending : bool;
}.

Definition NewFlapGuard (cfg : FlapGuardConfig) (now : Time) : FlapGuard :=
  mkFG cfg now zero_time false "" zero_time false.

Definition Evaluate (now : Time) (qualifies : bool) (candidateID : string) (f : FlapGuard)
    : FlapGuard * bool :=
  if negb qualifies then
    (mkFG (fg_cfg f) (activeSince f) (lastMigrationAt f) (haveMigrated f)
          (pendingCandidate f) (pendingSince f) false, false)
  else
    let f :=
      if negb (havePending f) || negb (bool_decide (pendingCandidate f = candidateID)) then
        mkFG (fg_cfg f) (activeSince f) (lastMigrationAt f) (haveMigrated f) candidateID now true
      else f in
    if time_Sub now (pendingSince f) <? ConfirmationWindow (fg_cfg f) then (f, false)
    else if time_Sub now (activeSince f) <? MinResidence (fg_cfg f) then (f, false)
    else if haveMigrated f && (time_Sub now (lastMigrationAt f) <? Cooldown (fg_cfg f)) then (f, false)
    else (mkFG (fg_cfg f) now now true (pendingCandidate f) (pendingSince f) false, true).

Definition Pending (now : Time) (f : FlapGuard) : option (string * Duration) :=
  if negb (havePending f) then None
  else Some (pendingCandidate f, time_Sub now (pendingSince f)).

Definition Residence (now : Time) (f : FlapGuard) : Duration := time_Sub now (activeSince f).

(** [ShouldCutover]: a dead gateway bypasses the guard, which does not change. *)
Definition ShouldCutover (flap : FlapGuard) (deadGateway : bool) (now : Time) (qualifies : bool)
    (candidateID : string) : FlapGuard * bool :=
  if deadGateway then (flap, true) else Evaluate now qualifies candidateID flap.

(** ** Runs of ticks *)

Record tick := mkTick { t_now : Time; t_qualifies : bool; t_candidate : string }.

Definition step_tick (f : FlapGuard) (t : tick) : FlapGuard * bool :=
  Evaluate (t_now t) (t_qualifies t) (t_candidate t) f.

(** The guard after a run, newest tick first, and each tick's answer. *)
Fixpoint after (f0 : FlapGuard) (ts : list tick) : FlapGuard :=
  match ts with [] => f0 | t :: ts => (step_tick (after f0 ts) t).1 end.

Definition approves (f0 : FlapGuard) (ts : list tick) (t : tick) : bool :=
  (step_tick (after f0 ts) t).2.

(** Every tick of [ts] offers candidate [c]. *)
Definition offers (c : string) (ts : list tick) : Prop :=
  Forall (λ t, t_qualifies t = true ∧ t_candidate t = c) ts.

(** The time of the newest tick. *)
Definition latest (start : Time) (ts : list tick) : Time :=
  match ts with [] => start | t :: _ => t_now t end.

(** Time does not run backwards over the run. *)
Fixpoint ordered (start : Time) (ts : list tick) : Prop :=
  match ts with [] => True | t :: ts => latest start ts ≤ t_now t ∧ ordered start ts end.

(** What the guard remembers of the run [ts] since it was created at [start]. *)
Record remembers (cfg : FlapGuardConfig) (start : Time) (ts : list tick) (f : FlapGuard) : Prop := {
  rm_cfg : fg_cfg f = cfg;
  (** the pending stretch is a run of ticks offering the pending candidate *)
  rm_pending : havePending f = true →
    ∃ run rest first, ts = run ++ rest ∧ offers (pendingCandidate f) run ∧
      last run = Some first ∧ t_now first = pendingSince f;
  rm_past : start ≤ activeSince f ≤ latest start ts;
  (** the current path dates from the newest approval *)
  rm_active : ∀ t older newer,
    ts = newer ++ t :: older → approves (NewFlapGuard cfg start) older t = true →
    haveMigrated f = true ∧ t_now t ≤ activeSince f ∧ lastMigrationAt f = activeSince f;
}.

(** ** Lemmas *)

Lemma time_Sub_mono now a b : a ≤ b → time_Sub now b ≤ time_Sub now a.
Proof. unfold time_Sub. lia. Qed.

(** [Evaluate] on a qualifying tick: the pending stretch it leaves behind, and
    the three conditions of an approval. *)
Lemma Evaluate_qualifies now c f :
  let since := if havePending f && bool_decide (pendingCandidate f = c) then pendingSince f else now in
  let ok := negb (time_Sub now since <? ConfirmationWindow (fg_cfg f)) &&
            negb (time_Sub now (activeSince f) <? MinResidence (fg_cfg f)) &&
            negb (haveMigrated f && (time_Sub now (lastMigrationAt f) <? Cooldown (fg_cfg f))) in
  Evaluate now true c f =
    (if ok then mkFG (fg_cfg f) now now true c since false
     else mkFG (fg_cfg f) (activeSince f) (lastMigrationAt f) (haveMigrated f) c since true, ok).
Proof.
  destruct f as [cfg act lm hm pc ps hp]. unfold Evaluate. simpl.
  destruct hp; simpl; [case_bool_decide as Hc; simpl; subst|];
    repeat match goal with |- context [?a <? ?b] => destruct (a <? b); simpl end;
    destruct hm; done.
Qed.

Lemma remembers_step cfg start ts f t :
  remembers cfg start ts f → f = after (NewFlapGuard cfg start) ts → latest start ts ≤ t_now t →
  remembers cfg start (t :: ts) (step_tick f t).1.
Proof.
  intros [Hcfg Hpend Hpast Hact] Haf Hlt.
  assert (∀ f', haveMigrated f' = haveMigrated f → activeSince f' = activeSince f →
    lastMigrationAt f' = lastMigrationAt f → (step_tick f t).2 = false →
    ∀ t0 older newer, t :: ts = newer ++ t0 :: older →
      approves (NewFlapGuard cfg start) older t0 = true →
      haveMigrated f' = true ∧ t_now t0 ≤ activeSince f' ∧ lastMigrationAt f' = activeSince f') as Hkeep.
  { intros f' -> -> -> Hno t0 older [|n newer] Heq Hap; simplify_eq/=; [|by eapply Hact].
    unfold approves in Hap. congruence. }
  unfold step_tick in *. destruct (t_qualifies t) eqn:Hq.
  - pose proof (Evaluate_qualifies (t_now t) (t_candidate t) f) as HE. simpl in HE.
    rewrite HE in *. destruct (_ && _ && _) eqn:Hok; simpl in *.
    + split; simpl; [done..|lia|]. intros t0 older [|n newer] Heq Hap; simplify_eq/=; [done|].
      destruct (Hact t0 older newer eq_refl Hap) as (_ & ? & _). split_and!; [done|lia|done].
    + split; simpl; [done| |lia|by apply Hkeep].
      intros _. destruct (havePending f) eqn:Hp; simpl; [case_bool_decide as Hc; simpl|].
      * destruct (Hpend eq_refl) as (run & rest & first & -> & Hof & Hl & Hs).
        exists (t :: run), rest, first. split_and!; try done.
        -- constructor; [by rewrite Hq|]. by rewrite <- Hc.
        -- destruct run; [done|]. by rewrite last_cons_cons.
      * exists [t], ts, t. split_and!; try done. by repeat constructor.
      * exists [t], ts, t. split_and!; try done. by repeat constructor.
  - unfold Evaluate in *. simpl in *. split; simpl; [done|done|lia|by apply Hkeep].
Qed.

Lemma remembers_run cfg start ts :
  ordered start ts → remembers cfg start ts (after (NewFlapGuard cfg start) ts).
Proof.
  induction ts as [|t ts IH]; simpl.
  - intros _. split; simpl; [done|done|lia|]. by intros ?? [].
  - intros [Hlt Ho]. by apply remembers_step; [apply IH| |].
Qed.

(** ** Properties *)

(** C23: when the guard approves a migration, the candidate of that tick has
    qualified at every tick of a stretch at least [ConfirmationWindow] long
    that ends now, the path has been in use for [MinResidence] since the guard
    was created, and every earlier approval of this guard is at least
    [MinResidence] and [Cooldown] ago. *)
Theorem FlapGuard_approval cfg start ts t :
  ordered start (t :: ts) →
  approves (NewFlapGuard cfg start) ts t = true →
  (∃ run rest first, t :: ts = run ++ rest ∧ offers (t_candidate t) run ∧
     last run = Some first ∧ ConfirmationWindow cfg ≤ time_Sub (t_now t) (t_now first)) ∧
  MinResidence cfg ≤ time_Sub (t_now t) start ∧
  (∀ t' older newer, ts = newer ++ t' :: older →
     approves (NewFlapGuard cfg start) older t' = true →
     MinResidence cfg ≤ time_Sub (t_now t) (t_now t') ∧
     Cooldown cfg ≤ time_Sub (t_now t) (t_now t')).
Proof.
  intros [Hlt Ho] Hap.
  pose proof (remembers_run cfg start ts Ho) as [Hcfg Hpend Hpast Hact].
  unfold approves, step_tick in Hap. set (f := after _ ts) in *.
  destruct (t_qualifies t) eqn:Hq; [|done].
  pose proof (Evaluate_qualifies (t_now t) (t_candidate t) f) as HE. simpl in HE.
  rewrite HE in Hap. simpl in Hap. rewrite Hcfg in Hap. zbool.
  split_and!.
  - destruct (havePending f) eqn:Hp; simpl in *; [case_bool_decide as Hc; simpl in *|].
    + destruct (Hpend eq_refl) as (run & rest & first & -> & Hof & Hl & Hs).
      exists (t :: run), rest, first. split_and!; try done; [| |by rewrite Hs].
      * constructor; [done|]. by rewrite <- Hc.
      * destruct run; [done|]. by rewrite last_cons_cons.
    + exists [t], ts, t. split_and!; try done. by repeat constructor.
    + exists [t], ts, t. split_and!; try done. by repeat constructor.
  - pose proof (time_Sub_mono (t_now t) start (activeSince f)). lia.
  - intros t' older newer -> Ht'. destruct (Hact t' older newer eq_refl Ht') as (Hm & Hle & Hlm).
    pose proof (time_Sub_mono (t_now t) (t_now t') (activeSince f) Hle).
    rewrite Hm, Hlm in *. simpl in *. zbool. lia.
Qed.

Definition demo_ticks : list tick :=
  [mkTick (6 * Second) true "tk"; mkTick (5 * Second) true "tk"; mkTick (4 * Second) false "tk"].

Lemma FlapGuard_approval_witness :
  let cfg := mkFGC (2 * Second) (3 * Second) (10 * Second) in
  approves (NewFlapGuard cfg 0) demo_ticks (mkTick (7 * Second) true "tk") = true ∧
  approves (NewFlapGuard cfg 0) (tail demo_ticks) (mkTick (6 * Second) true "tk") = false ∧
  MinResidence cfg ≤ time_Sub (7 * Second) 0.
Proof.
  split; [reflexivity|]. split; [reflexivity|].
  refine (proj1 (proj2 (FlapGuard_approval (mkFGC (2 * Second) (3 * Second) (10 * Second)) 0
            demo_ticks (mkTick (7 * Second) true "tk") _ _))).
  - vm_compute. split_and!; done.
  - reflexivity.
Defined.
