(* ===== verification/Services.v ===== *)
(** * The other services on the store: internal/control/membership.go and policy.go

    The membership service keeps one record per gateway, the policy service
    one document. Both are written against the store's interface [KVStore]
    and proved against its laws [KVLaws]. *)

From S2P Require Import Prelude Store GoFloat Cost FlapGuard.

Module Membership.

(** [GatewayRole] is an int used as a bit set. *)
Definition RoleAccess : Z := Z.shiftl 1 0.
Definition RoleEgress : Z := Z.shiftl 1 1.

Definition Has (r role : Z) : bool := negb (Z.land r role =? 0).

Definition Role_String (r : Z) : string :=
  if Has r RoleAccess && Has r RoleEgress then "access+egress"
  else if Has r RoleAccess then "access"
  else if Has r RoleEgress then "egress"
  else "none".

Record GatewayMember := mkMember { ID : string; Roles : Z; Address : string }.

#[export] Instance GatewayMember_eq_dec : EqDecision GatewayMember.
Proof. solve_decision. Defined.

#[export] Instance GatewayMember_countable : Countable GatewayMember.
Proof.
  refine (inj_countable' (λ m, (ID m, Roles m, Address m)) (λ '(i, r, a), mkMember i r a) _).
  by intros [].
Defined.

Inductive member_error :=
| EmptyID
| EmptyAddress
| NoRoles
| EncodeMember
| DecodeMember
| MemberStore (e : store_error).

Definition Validate (m : GatewayMember) : option member_error :=
  if decide (ID m = "") then Some EmptyID
  else if decide (Address m = "") then Some EmptyAddress
  else if Roles m =? 0 then Some NoRoles
  else None.

Definition membershipKeyPrefix : string := "/egressa/gateway/".
Definition GatewayKey (id : string) : string := (membershipKeyPrefix +:+ id)%string.

Section Service.
Context `{!Codec GatewayMember} {St : Type} `{!KVStore St}.

Definition MarshalMembership (m : GatewayMember) : res member_error bytes :=
  match Validate m with
  | Some e => Err e
  | None => match marshal m with Some b => Ok b | None => Err EncodeMember end
  end.

Definition UnmarshalMembership (data : bytes) : res member_error GatewayMember :=
  match unmarshal data with
  | None => Err DecodeMember
  | Some m => match Validate m with Some e => Err e | None => Ok m end
  end.

Definition member_Put (m : GatewayMember) (s : St) : St * option member_error :=
  match MarshalMembership m with
  | Err e => (s, Some e)
  | Ok data => let '(s, err) := kv_Put (GatewayKey (ID m)) data s in (s, MemberStore <$> err)
  end.

Definition member_List (s : St) : res member_error (list GatewayMember) :=
  match kv_List membershipKeyPrefix s with
  | Err e => Err (MemberStore e)
  | Ok raw => res_mapM UnmarshalMembership (map_to_list raw).*2
  end.

(** [Watch]'s goroutine, on the events the store sends. *)
Definition member_watch (events : list Event) : list GatewayMember :=
  omap (λ ev, if ev_Deleted ev then None
              else match UnmarshalMembership (ev_Value ev) with Ok m => Some m | Err _ => None end)
       events.
End Service.

(** ** Lemmas *)

Lemma GatewayKey_inj a b : GatewayKey a = GatewayKey b → a = b.
Proof. unfold GatewayKey. intros H. by simplify_eq/=. Qed.

Lemma GatewayKey_prefix id : HasPrefix (GatewayKey id) membershipKeyPrefix = true.
Proof. apply HasPrefix_app. Qed.

Section Laws.
Context `{!Codec GatewayMember, !CodecLaws GatewayMember} {St : Type} `{!KVStore St, !KVLaws St}.

(** Every value under the gateways' prefix is the record of the gateway its
    key names. *)
Definition members_ok (s : St) : Prop :=
  ∀ k v, kvl_data s !! k = Some v → HasPrefix k membershipKeyPrefix = true →
  ∃ m, UnmarshalMembership v = Ok m ∧ k = GatewayKey (ID m).

(** Gateway [m] is registered. *)
Definition registered (s : St) (m : GatewayMember) : Prop :=
  ∃ v, kvl_data s !! GatewayKey (ID m) = Some v ∧ UnmarshalMembership v = Ok m.

Lemma membership_codec m :
  Validate m = None → codec_ok m →
  ∃ b, MarshalMembership m = Ok b ∧ UnmarshalMembership b = Ok m.
Proof.
  intros Hv Hok. destruct (marshal_Some m Hok) as (b & Hm & Hu). exists b.
  unfold MarshalMembership, UnmarshalMembership. by rewrite Hv, Hm, Hu, Hv.
Qed.

Lemma member_List_ok s :
  kvl_inv s → members_ok s →
  ∃ ms, member_List s = Ok ms ∧ ∀ m, m ∈ ms ↔ registered s m.
Proof.
  intros Hinv Hok. unfold member_List. rewrite law_List by done.
  set (raw := filter _ _).
  assert (Forall (λ v, ∃ m, UnmarshalMembership v = Ok m) (map_to_list raw).*2) as Hall.
  { apply Forall_fmap, Forall_forall. intros [k v] Hin.
    apply elem_of_map_to_list, map_lookup_filter_Some in Hin as [Hk Hp]. simpl.
    destruct (Hok k v Hk Hp) as (m & Hm & _). eauto. }
  apply Forall_exists_Forall2_l in Hall as [ms Hms].
  exists ms. split; [by apply res_mapM_Ok|]. intros m. split.
  - intros Hin. destruct (Forall2_elem_r _ _ _ _ Hms Hin) as (v & Hv & Hu).
    apply list_elem_of_fmap in Hv as ([k v'] & -> & Hin').
    apply elem_of_map_to_list, map_lookup_filter_Some in Hin' as [Hk Hp]. simpl in *.
    destruct (Hok k v' Hk Hp) as (m' & Hm' & ->).
    rewrite Hu in Hm'. simplify_eq. by exists v'.
  - intros (v & Hk & Hu).
    destruct (Forall2_elem_l _ _ _ v Hms) as (m' & Hm' & Hu').
    { apply list_elem_of_fmap. exists (GatewayKey (ID m), v). split; [done|].
      apply elem_of_map_to_list, map_lookup_filter_Some. split; [done|apply GatewayKey_prefix]. }
    rewrite Hu in Hu'. by simplify_eq.
Qed.

(** ** Property *)

(** Registering a gateway that validates succeeds on a store with room,
    and the list afterwards is that gateway together with every earlier one
    of a different id: an id has one record, the last one put. *)
Theorem member_Put_List m s :
  Validate m = None → codec_ok m → kvl_inv s → 0 < kvl_left s → members_ok s →
  ∃ s' ms ms', member_Put m s = (s', None) ∧ kvl_inv s' ∧ members_ok s' ∧
    member_List s = Ok ms ∧ member_List s' = Ok ms' ∧
    ∀ x, x ∈ ms' ↔ x = m ∨ (x ∈ ms ∧ ID x ≠ ID m).
Proof.
  intros Hv Hok Hinv Hroom Hms.
  destruct (membership_codec m Hv Hok) as (b & Hb & Hu).
  destruct (law_Put s (GatewayKey (ID m)) b Hinv Hroom) as (s' & Hp & Hinv' & _ & Hd).
  assert (members_ok s') as Hms'.
  { intros k v. rewrite Hd. intros [[<- <-]|[_ Hk]]%lookup_insert_Some; [by exists m|]. by apply Hms. }
  destruct (member_List_ok s Hinv Hms) as (ms & Hl & Hin).
  destruct (member_List_ok s' Hinv' Hms') as (ms' & Hl' & Hin').
  exists s', ms, ms'. split_and!; try done.
  { unfold member_Put. by rewrite Hb, Hp. }
  intros x. rewrite Hin', Hin. unfold registered. rewrite Hd.
  destruct (decide (ID x = ID m)) as [Heq|Hne].
  - rewrite Heq, lookup_insert_eq. split.
    + intros (v & [= <-] & Hux). rewrite Hu in Hux. left. congruence.
    + intros [->|[_ ?]]; [eauto|done].
  - rewrite lookup_insert_ne by (intros ?%GatewayKey_inj; congruence). naive_solver.
Qed.
End Laws.

Lemma member_Put_List_witness :
  let C := countable_codec GatewayMember in
  ∃ s', @member_Put C _ _ (mkMember "sg" 3 "10.0.0.1:51820") NewMemStore = (s', None) ∧
    ∃ ms', @member_List C _ _ s' = Ok ms' ∧ mkMember "sg" 3 "10.0.0.1:51820" ∈ ms'.
Proof.
  intros C.
  destruct (@member_Put_List C (countable_codec_laws _) MemStore _ _
              (mkMember "sg" 3 "10.0.0.1:51820") NewMemStore)
    as (s' & ms & ms' & Hput & _ & _ & _ & Hl & Hin).
  - reflexivity.
  - exact I.
  - exact NewMemStore_ok.
  - vm_compute. reflexivity.
  - intros k v Hk. vm_compute in Hk. discriminate.
  - exists s'. split; [exact Hput|]. exists ms'. split; [exact Hl|]. apply Hin. by left.
Defined.

End Membership.

Module Policy.

Record PolicyDocument := mkPolicy {
  Version : Z;
  pol_Cost : CostWeights;
  pol_Decision : DecisionWeights;
  pol_FlapGuard : FlapGuardConfig;
}.

Definition DefaultPolicyDocument : PolicyDocument :=
  mkPolicy 0 DefaultCostWeights DefaultDecisionWeights DefaultFlapGuardConfig.

Definition NextVersion (doc : PolicyDocument) : PolicyDocument :=
  mkPolicy (u64 (Version doc + 1)) (pol_Cost doc) (pol_Decision doc) (pol_FlapGuard doc).

Definition policyKey : string := "/egressa/policy/current".

Inductive policy_error := EncodePolicy | DecodePolicy | PolicyStore (e : store_error).

Section Service.
Context `{!Codec PolicyDocument} {St : Type} `{!KVStore St}.

Definition MarshalPolicy (doc : PolicyDocument) : res policy_error bytes :=
  match marshal doc with Some b => Ok b | None => Err EncodePolicy end.

Definition UnmarshalPolicy (data : bytes) : res policy_error PolicyDocument :=
  match unmarshal data with Some doc => Ok doc | None => Err DecodePolicy end.

Definition policy_Set (doc : PolicyDocument) (s : St) : St * option policy_error :=
  match MarshalPolicy doc with
  | Err e => (s, Some e)
  | Ok data => let '(s, err) := kv_Put policyKey data s in (s, PolicyStore <$> err)
  end.

Definition policy_Get (s : St) : res policy_error PolicyDocument :=
  match kv_Get policyKey s with
  | Err e => Err (PolicyStore e)
  | Ok None => Ok DefaultPolicyDocument
  | Ok (Some data) => UnmarshalPolicy data
  end.

(** [Watch]'s goroutine, on the events the store sends. *)
Definition policy_watch (events : list Event) : list PolicyDocument :=
  omap (λ ev, if ev_Deleted ev then None
              else match UnmarshalPolicy (ev_Value ev) with Ok d => Some d | Err _ => None end)
       events.
End Service.

Section Laws.
Context `{!Codec PolicyDocument, !CodecLaws PolicyDocument} {St : Type} `{!KVStore St, !KVLaws St}.

Lemma policy_Set_Get doc s :
  codec_ok doc → kvl_inv s → 0 < kvl_left s →
  ∃ s', policy_Set doc s = (s', None) ∧ kvl_inv s' ∧ policy_Get s' = Ok doc.
Proof.
  intros Hok Hinv Hroom. destruct (marshal_Some doc Hok) as (b & Hm & Hu).
  destruct (law_Put s policyKey b Hinv Hroom) as (s' & Hp & Hinv' & _ & Hd).
  exists s'. unfold policy_Set, MarshalPolicy, policy_Get, UnmarshalPolicy.
  rewrite Hm, Hp, law_Get, Hd, lookup_insert_eq, Hu by done. done.
Qed.

Lemma policy_Get_default s :
  kvl_inv s → kvl_data s !! policyKey = None → policy_Get s = Ok DefaultPolicyDocument.
Proof. intros Hinv Hn. unfold policy_Get. by rewrite law_Get, Hn. Qed.
End Laws.

End Policy.
