(* ===== verification/Decider.v ===== *)
(** * The client's decision: internal/client/decide.go

    [Decide] looks at every measured path once per tick. It is written on top
    of the cost model (Cost), the flap guard (FlapGuard) and the policy
    (Services), and its state is the guard's. *)

From S2P Require Import Prelude GoFloat Cost FlapGuard Services.
Import Policy.

Record Path := mkPath {
  pa_Access : string;
  pa_Egress : string;
  pa_Segments : list SegmentStats;
  Reachable : bool;
}.

Definition zeroPath : Path := mkPath "" "" [] false.

Definition candidate (p : Path) : PathCandidate := mkCandidate (pa_Egress p) (pa_Segments p) f0.

Record PathEval := mkEval {
  ev_Access : string;
  ev_Egress : string;
  ev_Cost : float64;
  ev_Delta : DeltaEstimate;
  HasDelta : bool;
}.

Definition zeroDelta : DeltaEstimate := mkDelta f0 f0 f0.

(** The sentences [Reason] is formatted from. *)
Inductive Reason :=
| NoReason
| StoppedAnswering (access : string)
| ChangingEgress (egress : string)
| NothingAnswers
| NotMeasured
| Confirming (access : string)
| Better (access : string) (millis : float64).

(** telemetry.Outcome* and telemetry.Cause*; the zero value is the empty string. *)
Definition OutcomeStay : string := "stay".
Definition OutcomeConfirming : string := "confirming".
Definition OutcomeMigrate : string := "migrate".
Definition OutcomeNoAlternative : string := "no_alternative".
Definition CauseBetterPath : string := "better_path".
Definition CauseAccessDead : string := "access_dead".
Definition CauseEgressChange : string := "egress_change".

Record Decision := mkDec {
  Migrate : bool;
  dec_Access : string;
  dec_Egress : string;
  dec_Reason : Reason;
  Outcome : string;
  Cause : string;
  Threshold : float64;
  Evals : list PathEval;
}.

Record Decider := mkDecider { policy : PolicyDocument; flap : FlapGuard }.

Definition NewDecider (policy : PolicyDocument) (now : Time) : Decider :=
  mkDecider policy (NewFlapGuard (pol_FlapGuard policy) now).

Definition Reset (now : Time) (d : Decider) : Decider :=
  mkDecider (policy d) (NewFlapGuard (pol_FlapGuard (policy d)) now).

(** Store the guard back into the decider. *)
Definition set_flap (d : Decider) (f : FlapGuard) : Decider := mkDecider (policy d) f.

Section Decider.
Context {GM : GoMath}.

Definition cost (d : Decider) (p : Path) : float64 :=
  sc_Cost (ScorePath (candidate p) (pol_Cost (policy d))).

(** The loop of [cheapest], from the best path so far. *)
Fixpoint cheapest_loop (d : Decider) (keep : Path → bool) (paths : list Path)
    (best : Path) (bestCost : float64) (found : bool) : Path * bool :=
  match paths with
  | [] => (best, found)
  | p :: paths =>
      if negb (Reachable p) || negb (keep p) then cheapest_loop d keep paths best bestCost found
      else
        let c := cost d p in
        if flt c bestCost then cheapest_loop d keep paths p c true
        else cheapest_loop d keep paths best bestCost found
  end.

Definition cheapest (d : Decider) (paths : list Path) (keep : Path → bool) : option Path :=
  let '(best, found) := cheapest_loop d keep paths zeroPath (Inf 1) false in
  if found then Some best else None.

Definition evals (d : Decider) (paths : list Path) : list PathEval :=
  (λ p, mkEval (pa_Access p) (pa_Egress p) (cost d p) zeroDelta false) <$> paths.

Definition other (access egress : string) (p : Path) : bool :=
  bool_decide (pa_Egress p = egress) && negb (bool_decide (pa_Access p = access)).

Definition is_current (access egress : string) (p : Path) : bool :=
  bool_decide (pa_Access p = access) && bool_decide (pa_Egress p = egress).

(** The loop over the candidates, from index [i] on: the best of them so far
    and the evaluations, to which each computed delta is added. *)
Fixpoint best_loop (d : Decider) (access egress : string) (current : Path) (i : nat)
    (paths : list Path) (best : option (Path * MigrationDecision)) (evs : list PathEval)
    : option (Path * MigrationDecision) * list PathEval :=
  match paths with
  | [] => (best, evs)
  | p :: paths =>
      if negb (Reachable p) || negb (other access egress p) then
        best_loop d access egress current (S i) paths best evs
      else
        match DecideMigration (candidate current) (candidate p) 0
                (pol_Cost (policy d)) (pol_Decision (policy d)) with
        | Err _ => best_loop d access egress current (S i) paths best evs
        | Ok dec =>
            let evs := alter (λ e, mkEval (ev_Access e) (ev_Egress e) (ev_Cost e) (md_Delta dec) true) i evs in
            let best :=
              match best with
              | None => Some (p, dec)
              | Some (_, bestDec) =>
                  if fgt (d_Lower (md_Delta dec)) (d_Lower (md_Delta bestDec)) then Some (p, dec) else best
              end in
            best_loop d access egress current (S i) paths best evs
        end
  end.

(** A decision that does not migrate, as the source's literals build it. *)
Definition noMove (reason : Reason) (outcome : string) (evs : list PathEval) : Decision :=
  mkDec false "" "" reason outcome "" f0 evs.

Definition move (p : Path) (reason : Reason) (cause : string) (evs : list PathEval) : Decision :=
  mkDec true (pa_Access p) (pa_Egress p) reason "" cause f0 evs.

(** The dead branch falls through from one cheapest path to the next. *)
Definition decide_dead (now : Time) (access egress : string) (paths : list Path) (d : Decider)
    : Decider * Decision :=
  let evs := evals d paths in
  let changeEgress (d : Decider) :=
    match cheapest d paths (λ p, negb (bool_decide (pa_Egress p = egress))) with
    | Some p => (d, move p (ChangingEgress egress) CauseEgressChange evs)
    | None => (d, noMove NothingAnswers OutcomeNoAlternative evs)
    end in
  match cheapest d paths (other access egress) with
  | Some p =>
      let '(f, go) := ShouldCutover (flap d) true now true (pa_Access p) in
      if go then (set_flap d f, move p (StoppedAnswering access) CauseAccessDead evs)
      else changeEgress (set_flap d f)
  | None => changeEgress d
  end.

Definition decide_live (now : Time) (access egress : string) (paths : list Path) (d : Decider)
    : Decider * Decision :=
  let evs := evals d paths in
  let noted := set_flap d (Evaluate now false "" (flap d)).1 in
  match list_find (λ p, is_current access egress p = true) paths with
  | None => (noted, noMove NotMeasured "" evs)
  | Some (_, current) =>
      let '(best, evs) := best_loop d access egress current 0 paths None evs in
      match best with
      | None => (noted, noMove NoReason OutcomeNoAlternative evs)
      | Some (best, bestDec) =>
          if negb (md_Migrate bestDec) then (noted, noMove NoReason "" evs)
          else
            let '(f, go) := ShouldCutover (flap d) false now true (pa_Access best) in
            if go then
              (set_flap d f, move best (Better (pa_Access best)
                 (fdiv (d_Lower (md_Delta bestDec)) (of_int 1000))) CauseBetterPath evs)
            else (set_flap d f, noMove (Confirming (pa_Access best)) OutcomeConfirming evs)
      end
  end.

Definition decide_path (now : Time) (access egress : string) (paths : list Path) (currentDead : bool)
    (d : Decider) : Decider * Decision :=
  if currentDead then decide_dead now access egress paths d
  else decide_live now access egress paths d.

Definition Decide (now : Time) (access egress : string) (paths : list Path) (currentDead : bool)
    (d : Decider) : Decider * Decision :=
  let '(d', dec) := decide_path now access egress paths currentDead d in
  let threshold := fadd (MigrationCost (pol_Decision (policy d))) (SafetyMargin (pol_Decision (policy d))) in
  let outcome := if bool_decide (Outcome dec = "") then OutcomeStay else Outcome dec in
  let outcome := if Migrate dec then OutcomeMigrate else outcome in
  (d', mkDec (Migrate dec) (dec_Access dec) (dec_Egress dec) (dec_Reason dec) outcome (Cause dec)
             threshold (Evals dec)).

(** A path [cheapest] may return: it answers, it is accepted and it is not gated. *)
Definition eligible (d : Decider) (keep : Path → bool) (p : Path) : Prop :=
  Reachable p = true ∧ keep p = true ∧ flt (cost d p) (Inf 1) = true.

(** ** Lemmas *)

(** What the loop of [cheapest] knows after the paths [seen]. *)
Definition best_of (d : Decider) (keep : Path → bool) (seen : list Path)
    (best : Path) (c : float64) (found : bool) : Prop :=
  if found then
    best ∈ seen ∧ eligible d keep best ∧ c = cost d best ∧
    ∀ q, q ∈ seen → eligible d keep q → flt (cost d q) c = false
  else c = Inf 1 ∧ ∀ q, q ∈ seen → ¬ eligible d keep q.

Lemma cheapest_loop_best d keep paths seen best c found :
  best_of d keep seen best c found →
  ∃ c', let '(b, f) := cheapest_loop d keep paths best c found in
        best_of d keep (seen ++ paths) b c' f.
Proof.
  revert seen best c found. induction paths as [|p paths IH]; intros seen best c found Hb; simpl.
  { exists c. by rewrite app_nil_r. }
  rewrite cons_middle, app_assoc.
  assert (¬ eligible d keep p ∨ flt (cost d p) c = false →
          best_of d keep (seen ++ [p]) best c found) as Hskip.
  { intros Hp. unfold best_of in *. destruct found.
    - destruct Hb as (Hin & He & Hc & Hall). split_and!; [apply elem_of_snoc; by left|done|done|].
      intros q [Hq| ->]%elem_of_snoc Heq; [by apply Hall|]. by destruct Hp.
    - destruct Hb as [-> Hall]. split; [done|]. intros q [Hq| ->]%elem_of_snoc Heq; [by eapply Hall|].
      destruct Hp as [Hp|Hp]; [done|]. destruct Heq as (_ & _ & Hfin). congruence. }
  destruct (Reachable p) eqn:Hr, (keep p) eqn:Hk; simpl;
    try (apply IH, Hskip; left; intros (? & ? & _); congruence).
  destruct (flt (cost d p) c) eqn:Ec; apply IH; [|apply Hskip; by right].
  unfold best_of in *. destruct found.
  - destruct Hb as (Hin & He & Hc & Hall). split_and!; [apply elem_of_snoc; by right| |done|].
    + split_and!; try done. eapply flt_trans; [exact Ec|]. subst c. apply He.
    + intros q [Hq| ->]%elem_of_snoc Heq; [|apply flt_irrefl].
      destruct (flt (cost d q) (cost d p)) eqn:E; [|done].
      rewrite <- (Hall q Hq Heq). symmetry. eapply flt_trans; eauto.
  - destruct Hb as [-> Hall]. split_and!; [apply elem_of_snoc; by right|done|done|].
    intros q [Hq| ->]%elem_of_snoc Heq; [by destruct (Hall q Hq)|apply flt_irrefl].
Qed.

(** [cheapest] returns an eligible path no eligible path is cheaper than, and
    nothing only when no path is eligible. *)
Lemma cheapest_spec d paths keep :
  match cheapest d paths keep with
  | Some b => b ∈ paths ∧ eligible d keep b ∧
              ∀ q, q ∈ paths → eligible d keep q → flt (cost d q) (cost d b) = false
  | None => ∀ q, q ∈ paths → ¬ eligible d keep q
  end.
Proof.
  unfold cheapest.
  destruct (cheapest_loop_best d keep paths [] zeroPath (Inf 1) false) as [c' Hc].
  { split; [done|]. by intros q ?%elem_of_nil. }
  destruct (cheapest_loop d keep paths zeroPath (Inf 1) false) as [b [|]]; simpl in Hc.
  - destruct Hc as (Hin & He & -> & Hall). by split_and!.
  - by destruct Hc.
Qed.

(** The candidates the live branch compares. *)
Definition contender (d : Decider) (access egress : string) (current p : Path)
    (dec : MigrationDecision) : Prop :=
  Reachable p = true ∧ other access egress p = true ∧
  DecideMigration (candidate current) (candidate p) 0
    (pol_Cost (policy d)) (pol_Decision (policy d)) = Ok dec.

Lemma contender_fun d access egress current p d1 d2 :
  contender d access egress current p d1 → contender d access egress current p d2 → d1 = d2.
Proof. intros (_ & _ & H1) (_ & _ & H2). congruence. Qed.

Lemma best_loop_contender d access egress current i paths best evs seen :
  (∀ p dec, best = Some (p, dec) → p ∈ seen ∧ contender d access egress current p dec) →
  ∀ p dec, (best_loop d access egress current i paths best evs).1 = Some (p, dec) →
  p ∈ seen ++ paths ∧ contender d access egress current p dec.
Proof.
  revert i best evs seen. induction paths as [|q paths IH]; intros i best evs seen Hb p dec; simpl.
  { rewrite app_nil_r. apply Hb. }
  assert (∀ p dec, best = Some (p, dec) → p ∈ seen ++ [q] ∧ contender d access egress current p dec) as Hb'.
  { intros p' dec' H. destruct (Hb _ _ H). rewrite elem_of_snoc. tauto. }
  rewrite cons_middle, app_assoc.
  destruct (Reachable q) eqn:Hr, (other access egress q) eqn:Ho; simpl; try (apply IH; done).
  destruct (DecideMigration _ _ _ _ _) as [dq|] eqn:Hd; [|by apply IH].
  apply IH. intros p' dec' H. destruct best as [[pb db]|]; [|injection H as <- <-].
  - destruct (fgt _ _); [injection H as <- <-|by apply Hb'].
    rewrite elem_of_snoc. split; [by right|done].
  - rewrite elem_of_snoc. split; [by right|done].
Qed.

(** No contender's lower bound is above that of the loop's choice. *)
Lemma best_loop_greatest d access egress current i paths best evs seen :
  (∀ p dec, p ∈ seen → contender d access egress current p dec →
     ∃ pb db, best = Some (pb, db) ∧ flt (d_Lower (md_Delta db)) (d_Lower (md_Delta dec)) = false) →
  ∀ p dec, p ∈ seen ++ paths → contender d access egress current p dec →
  ∃ pb db, (best_loop d access egress current i paths best evs).1 = Some (pb, db) ∧
           flt (d_Lower (md_Delta db)) (d_Lower (md_Delta dec)) = false.
Proof.
  revert i best evs seen. induction paths as [|q paths IH]; intros i best evs seen Hb; simpl.
  { rewrite app_nil_r. apply Hb. }
  rewrite cons_middle, app_assoc.
  assert (¬ (∃ dq, contender d access egress current q dq) →
    ∀ p dec, p ∈ seen ++ [q] → contender d access egress current p dec →
     ∃ pb db, best = Some (pb, db) ∧ flt (d_Lower (md_Delta db)) (d_Lower (md_Delta dec)) = false) as Hskip.
  { intros Hq p dec [Hp| ->]%elem_of_snoc Hc; [by eapply Hb|].
    destruct Hq. eauto. }
  destruct (Reachable q) eqn:Hr, (other access egress q) eqn:Ho; simpl;
    try (apply IH, Hskip; intros [? (? & ? & _)]; congruence).
  destruct (DecideMigration _ _ _ _ _) as [dq|] eqn:Hd.
  2:{ apply IH, Hskip. intros [? (_ & _ & ?)]. congruence. }
  assert (contender d access egress current q dq) as Hq by done.
  destruct best as [[pb db]|].
  - change (fgt (d_Lower (md_Delta dq)) (d_Lower (md_Delta db)))
      with (flt (d_Lower (md_Delta db)) (d_Lower (md_Delta dq))).
    destruct (flt (d_Lower (md_Delta db)) (d_Lower (md_Delta dq))) eqn:E; apply IH.
    + intros p dec [Hp| ->]%elem_of_snoc Hc.
      * destruct (Hb p dec Hp Hc) as (? & ? & [= <- <-] & Hle). exists q, dq. split; [done|].
        destruct (flt (d_Lower (md_Delta dq)) (d_Lower (md_Delta dec))) eqn:E'; [|done].
        rewrite <- Hle. symmetry. eapply flt_trans; eauto.
      * exists q, dq. split; [done|]. rewrite (contender_fun _ _ _ _ _ _ _ Hc Hq). apply flt_irrefl.
    + intros p dec [Hp| ->]%elem_of_snoc Hc; [by eapply Hb|].
      exists pb, db. split; [done|]. by rewrite (contender_fun _ _ _ _ _ _ _ Hc Hq).
  - apply IH. intros p dec [Hp| ->]%elem_of_snoc Hc.
    + by destruct (Hb p dec Hp Hc) as (? & ? & ? & _).
    + exists q, dq. split; [done|]. rewrite (contender_fun _ _ _ _ _ _ _ Hc Hq). apply flt_irrefl.
Qed.

Lemma gated_pair_NaN d access egress current p dec :
  segmentsGated (pa_Segments current) (pol_Cost (policy d)) = true →
  segmentsGated (pa_Segments p) (pol_Cost (policy d)) = true →
  contender d access egress current p dec →
  IsNaN (d_Lower (md_Delta dec)) = true ∧ md_Migrate dec = false.
Proof.
  intros Hc Hp (_ & _ & Hd). unfold DecideMigration in Hd.
  rewrite validateDifferential_zero in Hd.
  destruct (negb _); [done|]. destruct (_ || _); [done|].
  cbn [res_bind candidate Segments] in Hd. rewrite Hc, Hp in Hd. injection Hd as <-. split; [done|]. apply flt_NaN_r.
Qed.

(** A best candidate whose lower bound is NaN stays the best. *)
Lemma best_loop_NaN d access egress current i paths p dec evs :
  IsNaN (d_Lower (md_Delta dec)) = true →
  (best_loop d access egress current i paths (Some (p, dec)) evs).1 = Some (p, dec).
Proof.
  intros Hn. revert i evs. induction paths as [|q paths IH]; intros i evs; simpl; [done|].
  destruct (_ || _); [apply IH|]. destruct (DecideMigration _ _ _ _ _) as [dq|]; [|apply IH].
  change (fgt (d_Lower (md_Delta dq)) (d_Lower (md_Delta dec)))
    with (flt (d_Lower (md_Delta dec)) (d_Lower (md_Delta dq))).
  destruct (d_Lower (md_Delta dec)); try done; apply IH.
Qed.

(** Paths that are not compared leave the loop's state alone. *)
Lemma best_loop_skip d access egress current i pre paths best evs :
  Forall (λ q, Reachable q && other access egress q = false) pre →
  best_loop d access egress current i (pre ++ paths) best evs =
  best_loop d access egress current (i + length pre) paths best evs.
Proof.
  intros H. revert i. induction H as [|q pre Hq _ IH]; intros i; simpl.
  - by rewrite Nat.add_0_r.
  - replace (negb (Reachable q) || negb (other access egress q)) with true
      by (destruct (Reachable q), (other access egress q); done).
    rewrite IH. f_equal. lia.
Qed.

(** ** Properties *)

(** C13: when the current path is dead, an egress change is the last resort.
    If any path to the current egress through another access answers and is
    not gated, the session migrates to one of them that none of them is
    cheaper than, keeping its egress; only otherwise it may take a path to
    another egress, again a cheapest one; and it stays put only when no other
    path answers at all. The flap guard is not consulted and does not change. *)
Theorem Decide_dead now access egress paths d :
  let '(d', dec) := Decide now access egress paths true d in
  let same := other access egress in
  let elsewhere := λ p, negb (bool_decide (pa_Egress p = egress)) in
  let best_among keep := ∃ p, p ∈ paths ∧ eligible d keep p ∧
      dec_Access dec = pa_Access p ∧ dec_Egress dec = pa_Egress p ∧
      ∀ q, q ∈ paths → eligible d keep q → flt (cost d q) (cost d p) = false in
  d' = d ∧
  ((∃ p, p ∈ paths ∧ eligible d same p) →
     Migrate dec = true ∧ dec_Egress dec = egress ∧ best_among same) ∧
  ((∀ p, p ∈ paths → ¬ eligible d same p) → (∃ p, p ∈ paths ∧ eligible d elsewhere p) →
     Migrate dec = true ∧ dec_Egress dec ≠ egress ∧ best_among elsewhere) ∧
  ((∀ p, p ∈ paths → ¬ eligible d same p ∧ ¬ eligible d elsewhere p) →
     Migrate dec = false ∧ Outcome dec = OutcomeNoAlternative).
Proof.
  pose proof (cheapest_spec d paths (other access egress)) as Hs.
  pose proof (cheapest_spec d paths (λ p, negb (bool_decide (pa_Egress p = egress)))) as He.
  assert (mkDecider (policy d) (flap d) = d) as Hd by by destruct d.
  unfold Decide, decide_path, decide_dead.
  destruct (cheapest d paths (other access egress)) as [b|]; simpl.
  - destruct Hs as (Hin & Hel & Hall). unfold set_flap. split_and!; [done| | |].
    + intros _. split_and!; [done| |by exists b].
      destruct Hel as (_ & Hk & _). unfold other in Hk. zbool. done.
    + intros Hno. by destruct (Hno b Hin).
    + intros Hno. by destruct (Hno b Hin).
  - destruct (cheapest d paths (λ p, _)) as [b|]; simpl.
    + destruct He as (Hin & Hel & Hall). split_and!; [done| | |].
      * intros (p & Hp & Hpe). by destruct (Hs p Hp).
      * intros _ _. split_and!; [done| |by exists b].
        destruct Hel as (_ & Hk & _). simpl in Hk. zbool. done.
      * intros Hno. by destruct (Hno b Hin).
    + split_and!; [done| | |done].
      * intros (p & Hp & Hpe). by destruct (Hs p Hp).
      * intros _ (p & Hp & Hpe). by destruct (He p Hp).
Qed.

(** C12: while the current path answers, a migration keeps the egress, goes to
    a listed path through another access that answers, is one
    [DecideMigration] asks for by the greatest lower bound on the improvement
    of all the candidates compared, and was approved by the flap guard at
    this very tick. *)
Theorem Decide_live_migration now access egress paths d d' dec :
  Decide now access egress paths false d = (d', dec) → Migrate dec = true →
  dec_Egress dec = egress ∧ dec_Access dec ≠ access ∧
  Evaluate now true (dec_Access dec) (flap d) = (flap d', true) ∧
  ∃ current p md, current ∈ paths ∧ pa_Access current = access ∧ pa_Egress current = egress ∧
    p ∈ paths ∧ pa_Access p = dec_Access dec ∧ contender d access egress current p md ∧
    md_Migrate md = true ∧
    ∀ q mq, q ∈ paths → contender d access egress current q mq →
      flt (d_Lower (md_Delta md)) (d_Lower (md_Delta mq)) = false.
Proof.
  unfold Decide, decide_path, decide_live. intros H Hm.
  destruct (list_find _ paths) as [[i current]|] eqn:Hf; simpl in *; [|by simplify_eq/=].
  apply list_find_Some in Hf as (Hi & Hcur & _). unfold is_current in Hcur. zbool.
  destruct (best_loop _ _ _ _ _ _ _ _) as [best evs] eqn:Hb.
  assert (best = (best_loop d access egress current 0 paths None (evals d paths)).1) as Hbest
    by by rewrite Hb.
  destruct best as [[p md]|]; [|by simplify_eq/=].
  destruct (md_Migrate md) eqn:Hmig; simpl in *; [|by simplify_eq/=].
  destruct (Evaluate now true (pa_Access p) (flap d)) as [f go] eqn:Hev.
  destruct go; [|by simplify_eq/=]. injection H as <- <-. simpl in *.
  destruct (best_loop_contender d access egress current 0 paths None (evals d paths) []) with p md
    as (Hin & Hc); [done|done|].
  pose proof Hc as (_ & Ho & _). unfold other in Ho. zbool.
  split_and!; try done.
  exists current, p, md. split_and!; try done; [by eapply list_elem_of_lookup_2|].
  intros q mq Hq Hcq.
  destruct (best_loop_greatest d access egress current 0 paths None (evals d paths) []) with q mq
    as (pb & db & Heq & Hle); [by intros ?? ?%elem_of_nil|done|done|].
  rewrite Heq in Hbest. by simplify_eq.
Qed.

(** Two loss-gated paths hide every better one. When the current path is
    loss-gated (but still answers) and the first candidate in the list is
    loss-gated too, the difference of their bounds is infinity minus infinity,
    a NaN no later candidate compares above: the session does not move,
    whatever the other candidates measure. *)
Theorem Decide_gated_pair_blocks now access egress pre p post d i current :
  let paths := pre ++ p :: post in
  list_find (λ q, is_current access egress q = true) paths = Some (i, current) →
  segmentsGated (pa_Segments current) (pol_Cost (policy d)) = true →
  Forall (λ q, Reachable q && other access egress q = false) pre →
  Reachable p = true → other access egress p = true →
  segmentsGated (pa_Segments p) (pol_Cost (policy d)) = true →
  fge f0 (MaxCapacityFraction (pol_Cost (policy d))) = false →
  let '(d', dec) := Decide now access egress paths false d in
  Migrate dec = false ∧ Outcome dec = OutcomeStay.
Proof.
  intros paths Hf Hgc Hpre Hr Ho Hgp Hcap. unfold Decide, decide_path, decide_live.
  rewrite Hf. apply list_find_Some in Hf as (_ & Hcur & _). unfold is_current in Hcur.
  unfold paths. rewrite best_loop_skip by done. cbn [best_loop]. rewrite Hr, Ho.
  pose proof Ho as Hot. unfold other in Hot. zbool.
  destruct (DecideMigration _ _ _ _ _) as [dec|e] eqn:Hd.
  - destruct (gated_pair_NaN d access egress current p dec) as [HN Hm]; try done.
    cbn [negb orb]. set (evs := alter _ _ _).
    pose proof (best_loop_NaN d access egress current (S (0 + length pre)%nat) post p dec evs HN) as HB.
    destruct (best_loop _ _ _ _ _ _ _ _) as [best evs']. simpl in HB. subst best.
    simpl. rewrite Hm. done.
  - exfalso. unfold DecideMigration in Hd. rewrite validateDifferential_zero in Hd.
    rewrite bool_decide_eq_true_2 in Hd by (simpl; congruence).
    cbn [candidate CapacityFraction negb] in Hd. rewrite Hcap in Hd.
    cbn [res_bind candidate Segments orb] in Hd. by rewrite Hgc, Hgp in Hd.
Qed.

(** A decider that was reset enforces no cooldown. After [Reset] at [t0]
    (which the agent does whenever the session moves) a candidate that
    qualifies at [t1] and at [t2] is approved as soon as the confirmation
    window and the minimum residence have passed, however long the policy's
    cooldown between two switches is. *)
Theorem Reset_drops_cooldown d t0 t1 t2 c :
  i64_min ≤ t2 - t1 ≤ i64_max → i64_min ≤ t2 - t0 ≤ i64_max →
  ConfirmationWindow (pol_FlapGuard (policy d)) ≤ t2 - t1 →
  MinResidence (pol_FlapGuard (policy d)) ≤ t2 - t0 →
  let '(f1, go1) := Evaluate t1 true c (flap (Reset t0 d)) in
  go1 || (Evaluate t2 true c f1).2 = true.
Proof.
  intros H1 H2 Hw Hm. unfold Reset, NewFlapGuard. unfold Evaluate at 1. simpl.
  assert (∀ go, (if true then go else false) = go) as Hgo by done.
  assert (time_Sub t2 t1 = t2 - t1 ∧ time_Sub t2 t0 = t2 - t0) as [E1 E2] by (unfold time_Sub; lia).
  assert ((Evaluate t2 true c (mkFG (pol_FlapGuard (policy d)) t0 zero_time false c t1 true)).2 = true)
    as Happ.
  { unfold Evaluate. simpl. rewrite bool_decide_eq_true_2 by done. simpl. rewrite E1, E2.
    destruct (Z.ltb_spec (t2 - t1) (ConfirmationWindow (pol_FlapGuard (policy d)))); [lia|].
    destruct (Z.ltb_spec (t2 - t0) (MinResidence (pol_FlapGuard (policy d)))); [lia|done]. }
  destruct (_ <? ConfirmationWindow _); [done|]. destruct (_ <? MinResidence _); done.
Qed.

End Decider.

(** ** Witnesses *)

(** Three accesses to the egress "sg": the current one and "b" lose half of
    the packets, "c" none. *)
Definition ex_paths : list Path :=
  [mkPath "a" "sg" [seg 40000 60000 5000 50] true;
   mkPath "b" "sg" [seg 40000 60000 5000 50] true;
   mkPath "c" "sg" [seg 30000 36000 3000 0] true].
Definition ex_swapped : list Path :=
  [mkPath "a" "sg" [seg 40000 60000 5000 50] true;
   mkPath "c" "sg" [seg 30000 36000 3000 0] true;
   mkPath "b" "sg" [seg 40000 60000 5000 50] true].

(** The decider one minute after it was created, with "c" pending since. *)
Definition ex_decider : Decider :=
  (@Decide pure_GoMath (30 * Second) "a" "sg" ex_swapped false (NewDecider DefaultPolicyDocument 0)).1.

Lemma Decide_live_migration_witness :
  ∃ d' dec, @Decide pure_GoMath (60 * Second) "a" "sg" ex_swapped false ex_decider = (d', dec) ∧
    Migrate dec = true ∧ dec_Egress dec = "sg" ∧ dec_Access dec = "c".
Proof.
  destruct (@Decide pure_GoMath (60 * Second) "a" "sg" ex_swapped false ex_decider) as [d' dec] eqn:E.
  exists d', dec.
  assert (Migrate dec = true ∧ dec_Access dec = "c") as [Hm Ha].
  { change dec with (d', dec).2. rewrite <- E. vm_compute. split; reflexivity. }
  destruct (@Decide_live_migration pure_GoMath _ _ _ _ _ _ _ E Hm) as (He & _).
  exact (conj eq_refl (conj Hm (conj He Ha))).
Defined.

(** The same three paths: in this order the session stays, with the last two
    swapped it migrates. *)
Lemma Decide_gated_pair_blocks_witness :
  Migrate (@Decide pure_GoMath (60 * Second) "a" "sg" ex_paths false ex_decider).2 = false ∧
  Migrate (@Decide pure_GoMath (60 * Second) "a" "sg" ex_swapped false ex_decider).2 = true.
Proof.
  split; [|vm_compute; reflexivity].
  pose proof (@Decide_gated_pair_blocks pure_GoMath (60 * Second) "a" "sg"
    [mkPath "a" "sg" [seg 40000 60000 5000 50] true]
    (mkPath "b" "sg" [seg 40000 60000 5000 50] true)
    [mkPath "c" "sg" [seg 30000 36000 3000 0] true] ex_decider 0
    (mkPath "a" "sg" [seg 40000 60000 5000 50] true)) as H.
  cbv zeta in H.
  do 7 match type of H with
    ?A → _ => let Hp := fresh in
      assert A as Hp by (vm_compute; repeat constructor); specialize (H Hp); clear Hp
    end.
  change ([_] ++ _ :: [_]) with ex_paths in H.
  destruct (Decide (60 * Second) "a" "sg" ex_paths false ex_decider) as [d' dec].
  exact (proj1 H).
Defined.

(** Cooldown one hour, yet approved 40 s after the reset. *)
Lemma Reset_drops_cooldown_witness :
  let cfg := mkFGC (5 * Second) (30 * Second) (3600 * Second) in
  let d := NewDecider (mkPolicy 1 DefaultCostWeights DefaultDecisionWeights cfg) 0 in
  let '(f1, go1) := Evaluate (1020 * Second) true "c" (flap (Reset (1000 * Second) d)) in
  go1 || (Evaluate (1040 * Second) true "c" f1).2 = true.
Proof.
  intros cfg d.
  apply (Reset_drops_cooldown d (1000 * Second) (1020 * Second) (1040 * Second) "c");
    vm_compute; try split; discriminate.
Defined.
