(* ===== verification/Failover.v ===== *)
(** * The gateway's cached view: internal/control/cache.go and failover.go

    The cache keeps the last ownership record seen and a local epoch that
    counts the emergency failovers made without the control plane. The
    controller's methods are functions of the cache and the store. *)

From S2P Require Import Prelude Store Ownership Services.
Import Policy.

Record LocalEpoch := mkLE { Global : Z; Local : Z }.
Definition zeroLE : LocalEpoch := mkLE 0 0.

Definition Less (e other : LocalEpoch) : bool :=
  if negb (Global e =? Global other) then Global e <? Global other
  else Local e <? Local other.

Record cachedSession := mkCached { c_record : OwnershipRecord; c_epoch : LocalEpoch; c_updatedAt : Time }.
Definition zeroCached : cachedSession := mkCached (mkOwn "" "" "" 0) zeroLE zero_time.

Record ConfigCache := mkCache {
  cc_sessions : gmap string cachedSession;
  cc_policy : PolicyDocument;
  cc_havePolicy : bool;
}.

Definition zeroPolicy : PolicyDocument :=
  mkPolicy 0 (Cost.mkCW GoFloat.f0 GoFloat.f0 GoFloat.f0 GoFloat.f0)
    (Cost.mkDW GoFloat.f0 GoFloat.f0 GoFloat.f0) (FlapGuard.mkFGC 0 0 0).
Definition NewConfigCache : ConfigCache := mkCache ∅ zeroPolicy false.

Definition set_session (k : string) (cs : cachedSession) (c : ConfigCache) : ConfigCache :=
  mkCache (<[k := cs]> (cc_sessions c)) (cc_policy c) (cc_havePolicy c).

Definition StoreOwnership (rec : OwnershipRecord) (now : Time) (c : ConfigCache) : ConfigCache :=
  set_session (Session rec) (mkCached rec (mkLE (Epoch rec) 0) now) c.

Definition cc_Ownership (session : string) (now : Time) (c : ConfigCache)
    : option (OwnershipRecord * LocalEpoch * Duration) :=
  match cc_sessions c !! session with
  | None => None
  | Some cs => Some (c_record cs, c_epoch cs, time_Sub now (c_updatedAt cs))
  end.

Definition bumpLocal (session : string) (rec : OwnershipRecord) (now : Time) (c : ConfigCache)
    : ConfigCache * LocalEpoch :=
  let cs := default zeroCached (cc_sessions c !! session) in
  let epoch := mkLE (Global (c_epoch cs)) (u64 (Local (c_epoch cs) + 1)) in
  (set_session session (mkCached rec epoch now) c, epoch).

Definition StorePolicy (doc : PolicyDocument) (c : ConfigCache) : ConfigCache :=
  mkCache (cc_sessions c) doc true.

Definition cc_Policy (c : ConfigCache) : PolicyDocument :=
  if cc_havePolicy c then cc_policy c else DefaultPolicyDocument.

(** ** The controller *)

Inductive fo_error := ErrSessionNotCached | FoOwn (e : own_error).

Section Controller.
Context `{!Codec OwnershipRecord} {St : Type} `{!KVStore St}.
Context (fencer : option (Fencer St)).

Definition Refresh (session : string) (now : Time) (c : ConfigCache) (s : St)
    : ConfigCache * option fo_error :=
  match own_Get session s with
  | Err e => (c, Some (FoOwn e))
  | Ok None => (c, None)
  | Ok (Some rec) => (StoreOwnership rec now c, None)
  end.

Definition Forward (session : string) (now : Time) (c : ConfigCache) : option (string * LocalEpoch) :=
  match cc_Ownership session now c with
  | None => None
  | Some (rec, epoch, _) => Some (Egress rec, epoch)
  end.

(** [applied], [deferred] and the error; [None] when [fuel] did not suffice
    for [SetIfNewer]. *)
Definition AttemptPlannedMigration (fuel : nat) (session newEgress : string) (now : Time)
    (c : ConfigCache) (s : St) : ConfigCache * St * option (bool * bool * option fo_error) :=
  match cc_Ownership session now c with
  | None => (c, s, Some (false, false, Some ErrSessionNotCached))
  | Some (rec, _, _) =>
      let cand := NextEpoch newEgress rec in
      match SetIfNewer fencer fuel cand s with
      | (s, None) => (c, s, None)
      | (s, Some (_, Some _)) => (c, s, Some (false, true, None))
      | (s, Some (false, None)) => ((Refresh session now c s).1, s, Some (false, false, None))
      | (s, Some (true, None)) => (StoreOwnership cand now c, s, Some (true, false, None))
      end
  end.

Definition EmergencyFailover (session newEgress : string) (now : Time) (c : ConfigCache)
    : ConfigCache * res fo_error LocalEpoch :=
  match cc_Ownership session now c with
  | None => (c, Err ErrSessionNotCached)
  | Some (rec, _, _) =>
      let '(c, epoch) := bumpLocal session (mkOwn (Session rec) (Access rec) newEgress (Epoch rec)) now c in
      (c, Ok epoch)
  end.

Definition Reconcile (fuel : nat) (session : string) (now : Time) (c : ConfigCache) (s : St)
    : ConfigCache * St * option (res fo_error bool) :=
  match cc_Ownership session now c with
  | None => (c, s, Some (Err ErrSessionNotCached))
  | Some (cached, localEpoch, _) =>
      match own_Get session s with
      | Err e => (c, s, Some (Err (FoOwn e)))
      | Ok remote =>
          let adopted := match remote with
          | Some current =>
              if Epoch current >? Global localEpoch then Some (StoreOwnership current now c) else None
          | None => None
          end in
          match adopted with
          | Some c => (c, s, Some (Ok false))
          | None =>
              if Local localEpoch =? 0 then (c, s, Some (Ok false))
              else
                let cand := NextEpoch (Egress cached) cached in
                match SetIfNewer fencer fuel cand s with
                | (s, None) => (c, s, None)
                | (s, Some (_, Some e)) => (c, s, Some (Err (FoOwn e)))
                | (s, Some (false, None)) => ((Refresh session now c s).1, s, Some (Ok false))
                | (s, Some (true, None)) => (StoreOwnership cand now c, s, Some (Ok true))
                end
          end
      end
  end.
End Controller.

(** ** Invariant: a cached record belongs to the session it is cached under,
    and its epoch is the global part of the local epoch. *)
Definition cache_ok (c : ConfigCache) : Prop :=
  ∀ k cs, cc_sessions c !! k = Some cs →
    Session (c_record cs) = k ∧ Epoch (c_record cs) = Global (c_epoch cs).

(** ** Lemmas *)

Lemma StoreOwnership_ok rec now c : cache_ok c → cache_ok (StoreOwnership rec now c).
Proof.
  intros Hok k cs Hk. simpl in Hk.
  apply lookup_insert_Some in Hk as [[<- <-]|[_ Hk]]; [done|by apply Hok].
Qed.

Lemma cc_Ownership_Some session now c rec e age :
  cc_Ownership session now c = Some (rec, e, age) →
  ∃ cs, cc_sessions c !! session = Some cs ∧ c_record cs = rec ∧ c_epoch cs = e.
Proof. unfold cc_Ownership. intros. cases. eauto. Qed.

Lemma EmergencyFailover_ok session egress now c :
  cache_ok c → cache_ok (EmergencyFailover session egress now c).1.
Proof.
  intros Hok. unfold EmergencyFailover.
  destruct (cc_Ownership session now c) as [[[rec e] age]|] eqn:E; [|done].
  apply cc_Ownership_Some in E as (cs & Hcs & <- & <-). simpl.
  intros k cs' Hk. simpl in Hk. rewrite Hcs in Hk.
  apply lookup_insert_Some in Hk as [[<- <-]|[_ Hk]]; [|by apply Hok]. exact (Hok _ _ Hcs).
Qed.

Section Laws.
Context `{!Codec OwnershipRecord, !CodecLaws OwnershipRecord}.
Context {St : Type} `{!KVStore St, !Fencer St, !FencedLaws St}.

Lemma Refresh_ok session now c (s : St) : cache_ok c → cache_ok (Refresh session now c s).1.
Proof.
  intros Hok. unfold Refresh. destruct (own_Get _ _) as [[rec|]|]; simpl; try done.
  by apply StoreOwnership_ok.
Qed.

(** ** Properties *)

(** With the control plane unreachable, an emergency failover of a cached
    session takes effect at once: the session forwards to the new egress at a
    strictly greater local epoch, the global epoch is not touched, the other
    sessions forward as before, and the cache stays consistent. *)
Theorem EmergencyFailover_effective session egress now later c rec e age :
  cache_ok c → cc_Ownership session now c = Some (rec, e, age) →
  0 ≤ Local e < 2 ^ 64 - 1 →
  ∃ c' e', EmergencyFailover session egress now c = (c', Ok e') ∧ cache_ok c' ∧
    Forward session later c' = Some (egress, e') ∧
    Less e e' = true ∧ Global e' = Global e ∧
    (∀ other, other ≠ session → Forward other later c' = Forward other later c).
Proof.
  intros Hok Hc Hl.
  pose proof (EmergencyFailover_ok session egress now c Hok) as Hok'.
  pose proof Hc as Hc'. apply cc_Ownership_Some in Hc' as (cs & Hcs & Hrec & He).
  unfold EmergencyFailover in *. rewrite Hc in *. unfold bumpLocal in *. rewrite Hcs in *.
  simpl in *. eexists _, _. split_and!; [done|done| | | |].
  - unfold Forward, cc_Ownership. simpl. by rewrite lookup_insert_eq.
  - unfold Less. simpl. rewrite He, Z.eqb_refl. simpl.
    rewrite wrap_small by (unfold fits; lia). apply Z.ltb_lt. lia.
  - simpl. by rewrite He.
  - intros other Ho. unfold Forward, cc_Ownership. simpl. by rewrite lookup_insert_ne.
Qed.

(** C24: once the control plane answers again, [Reconcile] after an emergency
    failover always ends with the cache and the store agreeing on the session
    and with no local epoch left. If the store moved on in the meantime its
    record wins and the store is not written; otherwise the emergency egress
    becomes the stored one, at the next global epoch. *)
Theorem Reconcile_converges fuel session now c (s : St) rec e age :
  cache_ok c → cc_Ownership session now c = Some (rec, e, age) → 0 < Local e →
  Validate rec = None → codec_ok (NextEpoch (Egress rec) rec) → 0 ≤ Epoch rec < 2 ^ 64 - 1 →
  kv_inv s → kv_room s → sessions_decode s → (3 ≤ fuel)%nat →
  match owner s session with Some cur => Session cur = session | None => True end →
  let superseded := match owner s session with Some cur => Epoch cur >? Epoch rec | None => false end in
  ∃ c' s', Reconcile (Some _) fuel session now c s = (c', s', Some (Ok (negb superseded))) ∧
    cache_ok c' ∧
    (∃ cur, owner s' session = Some cur ∧
       cc_Ownership session now c' = Some (cur, mkLE (Epoch cur) 0, 0)) ∧
    (superseded = true → s' = s) ∧
    (superseded = false → owner s' session = Some (mkOwn session (Access rec) (Egress rec) (Epoch rec + 1))).
Proof.
  intros Hok Hc Hloc Hv Hcod Hep Hinv Hroom Hdec Hfuel Hkey superseded.
  pose proof Hc as Hc'. apply cc_Ownership_Some in Hc' as (cs & Hcs & Hrec & He).
  destruct (Hok _ _ Hcs) as [Hses Hglob]. rewrite Hrec in Hses, Hglob. rewrite He in Hglob.
  assert (∀ r, Session r = session →
    cc_Ownership session now (StoreOwnership r now c) = Some (r, mkLE (Epoch r) 0, 0)) as Hstored.
  { intros r <-. unfold cc_Ownership. simpl. rewrite lookup_insert_eq. simpl.
    unfold time_Sub, i64_min, i64_max. repeat f_equal. lia. }
  assert (own_Get session s = Ok (owner s session)) as Hget.
  { unfold owner. destruct (own_Get session s) eqn:Eg; [done|]. exfalso.
    unfold own_Get in Eg. destruct (law_Revision_Get s (SessionKey session) Hinv)
      as [[_ HG]|(? & v & _ & HG & _)]; rewrite HG in Eg; [done|].
    destruct (Hdec _ _ HG) as [r Hr]. by rewrite Hr in Eg. }
  unfold Reconcile. rewrite Hc, Hget, <- Hglob. clear Hget.
  destruct superseded eqn:Hsup; unfold superseded in Hsup.
  - destruct (owner s session) as [cur|] eqn:Ho; [|done]. rewrite Hsup.
    exists (StoreOwnership cur now c), s. split_and!; try done; [by apply StoreOwnership_ok|].
    exists cur. split; [done|]. by apply Hstored.
  - assert (match owner s session with
            | Some current => if Epoch current >? Epoch rec then Some (StoreOwnership current now c) else None
            | None => None end = None) as ->.
    { destruct (owner s session); [by rewrite Hsup|done]. }
    destruct (Z.eqb_spec (Local e) 0); [lia|].
    set (cand := NextEpoch (Egress rec) rec).
    assert (cand = mkOwn session (Access rec) (Egress rec) (Epoch rec + 1)) as Hcand.
    { unfold cand, NextEpoch. rewrite wrap_small by (unfold fits; lia). by rewrite Hses. }
    assert (Validate cand = None) as Hvc.
    { apply Validate_None in Hv as (? & ? & ?). by apply Validate_None. }
    destruct (SetIfNewer_alone cand s fuel Hvc Hcod Hinv Hroom Hdec Hfuel) as (s' & Hset & _ & Hwon & _ & _).
    assert (match owner s (Session cand) with Some cur => Newer cand cur | None => true end = true) as Hwins.
    { rewrite Hcand. simpl. destruct (owner s session) as [cur|]; [|done].
      unfold Newer. simpl. rewrite Z.gtb_ltb in *. apply Z.ltb_lt. zbool. lia. }
    rewrite Hwins in Hset, Hwon. rewrite Hset. specialize (Hwon eq_refl).
    assert (Session cand = session) as Hcs' by by rewrite Hcand.
    exists (StoreOwnership cand now c), s'. split_and!; try done; [by apply StoreOwnership_ok| |].
    + exists cand. rewrite <- Hcs' at 1. split; [done|]. by apply Hstored.
    + intros _. rewrite <- Hcs' at 1. rewrite Hwon. by rewrite Hcand.
Qed.
End Laws.

(** ** Witnesses: a session cached at epoch 4, failed over to "tk" while the
    store was out of reach. *)
Definition ex_cache : ConfigCache := StoreOwnership (mkOwn "7" "hk" "sg" 4) 0 NewConfigCache.
Definition ex_failed_over : ConfigCache := (EmergencyFailover "7" "tk" 10 ex_cache).1.

Lemma ex_cache_ok : cache_ok ex_cache.
Proof. apply StoreOwnership_ok. intros k cs Hk. simpl in Hk. by rewrite lookup_empty in Hk. Qed.

Lemma EmergencyFailover_effective_witness :
  ∃ c' e', EmergencyFailover "7" "tk" 10 ex_cache = (c', Ok e') ∧
    Forward "7" 20 c' = Some ("tk", e') ∧ Less (mkLE 4 0) e' = true.
Proof.
  destruct (EmergencyFailover_effective "7" "tk" 10 20 ex_cache
              (mkOwn "7" "hk" "sg" 4) (mkLE 4 0) 10) as (c' & e' & H1 & _ & H2 & H3 & _).
  - exact ex_cache_ok.
  - reflexivity.
  - simpl. lia.
  - exists c', e'. exact (conj H1 (conj H2 H3)).
Defined.

Lemma Reconcile_converges_witness :
  ∃ c' s', @Reconcile own_codec MemStore _ (Some _) 3 "7" 30 ex_failed_over NewMemStore
             = (c', s', Some (Ok true)) ∧
    @owner MemStore own_codec _ s' "7" = Some (mkOwn "7" "hk" "tk" 5).
Proof.
  destruct (@Reconcile_converges own_codec own_codec_laws MemStore _ _ _ 3 "7" 30
              ex_failed_over NewMemStore (mkOwn "7" "hk" "tk" 4) (mkLE 4 1) 20)
    as (c' & s' & H1 & _ & _ & _ & H2).
  - apply EmergencyFailover_ok, ex_cache_ok.
  - reflexivity.
  - reflexivity.
  - reflexivity.
  - exact I.
  - simpl. lia.
  - apply NewMemStore_ok.
  - vm_compute. reflexivity.
  - apply NewMemStore_decode.
  - lia.
  - exact I.
  - exists c', s'. exact (conj H1 (H2 eq_refl)).
Defined.
