(* ===== verification/Reorder.v ===== *)
(** * The reorder buffer: internal/reorder/receiver.go

    A receiver delivers packets in sequence order, buffering at most a window
    of early ones. Sequence numbers and epochs are uint64; the additions the
    source makes wrap. *)

From S2P Require Import Prelude.

Record Packet := mkPacket { p_Epoch : Z; Seq : Z; Payload : bytes }.

#[export] Instance Packet_eq_dec : EqDecision Packet.
Proof. solve_decision. Defined.

Inductive DropReason := NotDropped | DropEpochStale | DropDuplicate | DropOutOfWindow | DropClosed.

#[export] Instance DropReason_eq_dec : EqDecision DropReason.
Proof. solve_decision. Defined.

(** The default case formats the number: [DropClosed], the fifth constant, has
    no case of its own. *)
Definition DropReason_String (r : DropReason) : string :=
  match r with
  | NotDropped => "not dropped"
  | DropEpochStale => "epoch stale"
  | DropDuplicate => "duplicate"
  | DropOutOfWindow => "out of window"
  | DropClosed => "DropReason(4)"
  end.

Record Config := mkConfig { WindowSize : Z }.
Definition DefaultConfig : Config := mkConfig 64.

Record Receiver := mkReceiver {
  r_cfg : Config;
  currentEpoch : Z;
  delivered : Z;
  pending : gmap Z Packet;
  closed : bool;
}.

Definition NewReceiver (cfg : Config) (epoch seedSeq : Z) : Receiver :=
  mkReceiver cfg epoch seedSeq ∅ false.

Definition AdvanceEpoch (epoch : Z) (r : Receiver) : Receiver :=
  if epoch >? currentEpoch r
  then mkReceiver (r_cfg r) epoch (delivered r) (pending r) (closed r)
  else r.

(** The loop of [Receive] that delivers a run of consecutive packets. Every
    turn takes one packet out of the buffer, so one turn more than the buffer
    has packets always reaches the break. *)
Fixpoint drain (fuel : nat) (del : Z) (pend : gmap Z Packet) (out : list Packet)
    : Z * gmap Z Packet * list Packet :=
  match fuel with
  | O => (del, pend, out)
  | S fuel =>
      let next := u64 (del + 1) in
      match pend !! next with
      | None => (del, pend, out)
      | Some p => drain fuel next (delete next pend) (out ++ [p])
      end
  end.

Definition Receive (pkt : Packet) (r : Receiver) : Receiver * (list Packet * DropReason) :=
  if closed r then (r, ([], DropClosed))
  else if p_Epoch pkt <? currentEpoch r then (r, ([], DropEpochStale))
  else if Seq pkt <=? delivered r then (r, ([], DropDuplicate))
  else match pending r !! Seq pkt with
  | Some _ => (r, ([], DropDuplicate))
  | None =>
      if u64 (Seq pkt - delivered r) >? u64 (WindowSize (r_cfg r) + 1)
      then (r, ([], DropOutOfWindow))
      else
        let pend := <[Seq pkt := pkt]> (pending r) in
        let '(del, pend, out) := drain (S (size pend)) (delivered r) pend [] in
        (mkReceiver (r_cfg r) (currentEpoch r) del pend (closed r), (out, NotDropped))
  end.

Definition PendingCount (r : Receiver) : nat := size (pending r).

(** [Close] returns the buffered packets by ascending sequence number. *)
Definition Close (r : Receiver) : Receiver * list Packet :=
  if closed r then (r, [])
  else
    let r := mkReceiver (r_cfg r) (currentEpoch r) (delivered r) (pending r) true in
    if bool_decide (size (pending r) = 0%nat) then (r, [])
    else
      let seqs := merge_sort Z.le (map_to_list (pending r)).*1 in
      (mkReceiver (r_cfg r) (currentEpoch r) (delivered r) ∅ true,
       omap (λ s, pending r !! s) seqs).

(** ** Runs: a receiver's operations in any order *)

Inductive op := OpReceive (pkt : Packet) | OpAdvance (epoch : Z).

(** One operation: the receiver after it, what it delivers, and the packet it
    accepts, if any. *)
Definition step (r : Receiver) (o : op) : Receiver * list Packet * list Packet :=
  match o with
  | OpReceive pkt =>
      let '(r, (out, reason)) := Receive pkt r in
      (r, out, match reason with NotDropped => [pkt] | _ => [] end)
  | OpAdvance e => (AdvanceEpoch e r, [], [])
  end.

(** The receiver after a run, everything it delivered and everything it accepted. *)
Fixpoint run (r : Receiver) (ops : list op) : Receiver * list Packet * list Packet :=
  match ops with
  | [] => (r, [], [])
  | o :: ops =>
      let '(r1, out1, acc1) := step r o in
      let '(r2, out2, acc2) := run r1 ops in
      (r2, out1 ++ out2, acc1 ++ acc2)
  end.

Definition op_ok (o : op) : Prop :=
  match o with
  | OpReceive pkt => is_u64 (p_Epoch pkt) ∧ is_u64 (Seq pkt)
  | OpAdvance e => is_u64 e
  end.

(** ** Invariant: the buffer holds packets under their own numbers, all beyond
    the next one to deliver and within the window. *)
Record recv_ok (r : Receiver) : Prop := {
  ok_window : 0 ≤ WindowSize (r_cfg r) < 2 ^ 64 - 1;
  ok_epoch : is_u64 (currentEpoch r);
  ok_delivered : is_u64 (delivered r);
  ok_pending : ∀ k p, pending r !! k = Some p →
    Seq p = k ∧ is_u64 k ∧ delivered r + 1 < k ≤ delivered r + WindowSize (r_cfg r) + 1;
}.

(** ** Lemmas *)

(** The packets of a buffer, in no particular order. *)
Abbreviation vals m := ((map_to_list m).*2).

(** What the buffer holds while the loop runs: as [ok_pending], but the next
    packet may be there. *)
Definition buffer_ok (w del : Z) (pend : gmap Z Packet) : Prop :=
  is_u64 del ∧ ∀ k p, pend !! k = Some p → Seq p = k ∧ is_u64 k ∧ del < k ≤ del + w + 1.

Lemma next_pending w del pend p :
  buffer_ok w del pend → pend !! u64 (del + 1) = Some p →
  u64 (del + 1) = del + 1 ∧ Seq p = del + 1 ∧ buffer_ok w (del + 1) (delete (del + 1) pend).
Proof.
  intros [Hd Hp] Hl. destruct (Hp _ _ Hl) as (Hs & Hk & Hlt & _).
  assert (u64 (del + 1) = del + 1) as He.
  { destruct (decide (del + 1 < 2 ^ 64)); [apply wrap_small; unfold fits in *; lia|].
    exfalso. unfold wrap, fits in *. replace (del + 1) with (2 ^ 64) in * by lia.
    rewrite Z.mod_same in * by lia. lia. }
  rewrite He in *. split_and!; [done|done|]. split; [done|].
  intros k q [Hne Hk']%lookup_delete_Some. destruct (Hp _ _ Hk') as (? & ? & ? & ?).
  split_and!; try done; lia.
Qed.

Lemma drain_spec w fuel del pend out :
  buffer_ok w del pend → (size pend < fuel)%nat →
  let '(del', pend', out') := drain fuel del pend out in
  ∃ run, out' = out ++ run ∧ Seq <$> run = seqZ (del + 1) (del' - del) ∧ del ≤ del' ∧
    buffer_ok w del' pend' ∧ pend' !! u64 (del' + 1) = None ∧
    vals pend ≡ₚ run ++ vals pend'.
Proof.
  revert del pend out. induction fuel as [|fuel IH]; intros del pend out Hb Hf; [lia|]. cbn [drain].
  destruct (pend !! u64 (del + 1)) as [p|] eqn:Hl.
  - destruct (next_pending w del pend p Hb Hl) as (He & Hs & Hb').
    rewrite He in *. specialize (IH (del + 1) (delete (del + 1) pend) (out ++ [p]) Hb').
    destruct (drain fuel (del + 1) (delete (del + 1) pend) (out ++ [p])) as [[del' pend'] out'].
    destruct IH as (rn & -> & Hseq & Hle & Hb'' & Hstop & Hperm).
    { rewrite map_size_delete, Hl. simpl. destruct (size pend) eqn:E; [|lia].
      apply map_size_empty_iff in E. by rewrite E, lookup_empty in Hl. }
    exists (p :: rn). split_and!; try done; try lia.
    + by rewrite <- app_assoc.
    + rewrite fmap_cons, Hseq, Hs, (seqZ_cons (del + 1) (del' - del)) by lia.
      f_equal. f_equal; lia.
    + rewrite <- app_comm_cons, <- Hperm.
      by rewrite <- (map_to_list_delete pend (del + 1) p Hl), fmap_cons.
  - exists []. rewrite app_nil_r, Z.sub_diag. split_and!; try done; try lia.
Qed.

(** The whole of [Receive] on the branch that accepts the packet. *)
Lemma Receive_accept pkt r :
  recv_ok r → is_u64 (Seq pkt) → (Receive pkt r).2.2 = NotDropped →
  let '(r', (out, _)) := Receive pkt r in
  recv_ok r' ∧ closed r' = false ∧ currentEpoch r' = currentEpoch r ∧
  Seq <$> out = seqZ (delivered r + 1) (delivered r' - delivered r) ∧ delivered r ≤ delivered r' ∧
  pkt :: vals (pending r) ≡ₚ out ++ vals (pending r').
Proof.
  intros [Hw He Hd Hp] Hs. unfold Receive.
  destruct (closed r) eqn:Hc; [done|]. destruct (_ <? _); [done|].
  destruct (Z.leb_spec (Seq pkt) (delivered r)) as [|Hlt]; [done|].
  destruct (pending r !! Seq pkt) eqn:Hl; [done|].
  rewrite (wrap_small 64 (Seq pkt - _)) by (unfold fits in *; lia).
  rewrite (wrap_small 64 (WindowSize _ + 1)) by (unfold fits; lia).
  destruct (Z.gtb_spec (Seq pkt - delivered r) (WindowSize (r_cfg r) + 1)) as [|Hin]; [done|].
  intros _. set (pend := <[Seq pkt := pkt]> (pending r)).
  assert (buffer_ok (WindowSize (r_cfg r)) (delivered r) pend) as Hb.
  { split; [done|]. intros k p [[<- <-]|[_ Hk]]%lookup_insert_Some.
    - split_and!; try done; lia.
    - destruct (Hp _ _ Hk) as (? & ? & ? & ?). split_and!; try done; lia. }
  pose proof (drain_spec _ (S (size pend)) (delivered r) pend [] Hb ltac:(lia)) as Hdr.
  destruct (drain _ _ _ _) as [[del' pend'] out'].
  destruct Hdr as (rn & -> & Hseq & Hle & [Hd' Hb'] & Hstop & Hperm). simpl.
  split_and!; try done.
  - split; simpl; try done. intros k p Hk. destruct (Hb' _ _ Hk) as (? & Hku & ? & ?).
    split_and!; try done. assert (k ≠ del' + 1); [|lia]. intros ->.
    rewrite wrap_small in Hstop by done. by rewrite Hk in Hstop.
  - change (rn ++ vals pend') with ([] ++ rn ++ vals pend'). simpl. rewrite <- Hperm.
    unfold pend. by rewrite (map_to_list_insert _ _ _ Hl), fmap_cons.
Qed.

Lemma Receive_drop pkt r :
  (Receive pkt r).2.2 ≠ NotDropped → (Receive pkt r).1 = r ∧ (Receive pkt r).2.1 = [].
Proof.
  unfold Receive. repeat case_match; simpl; try done.
Qed.

Lemma Receive_ok pkt r : recv_ok r → is_u64 (Seq pkt) → recv_ok (Receive pkt r).1.
Proof.
  intros Hr Hs. destruct (Receive pkt r).2.2 eqn:E.
  1: pose proof (Receive_accept pkt r Hr Hs E) as H;
     destruct (Receive pkt r) as [r' [out re]]; by destruct H.
  all: destruct (Receive_drop pkt r) as [-> _]; [by rewrite E|done].
Qed.

Lemma AdvanceEpoch_ok e r : recv_ok r → is_u64 e → recv_ok (AdvanceEpoch e r).
Proof.
  intros Hr He. unfold AdvanceEpoch. destruct (_ >? _); [|done].
  destruct Hr. split; simpl; done.
Qed.

Lemma AdvanceEpoch_delivered e r : delivered (AdvanceEpoch e r) = delivered r ∧ pending (AdvanceEpoch e r) = pending r.
Proof. unfold AdvanceEpoch. by destruct (_ >? _). Qed.

Lemma run_spec ops r :
  recv_ok r → Forall op_ok ops →
  let '(r', outs, acc) := run r ops in
  recv_ok r' ∧ delivered r ≤ delivered r' ∧
  Seq <$> outs = seqZ (delivered r + 1) (delivered r' - delivered r) ∧
  acc ++ vals (pending r) ≡ₚ outs ++ vals (pending r').
Proof.
  intros Hr Hops. revert r Hr. induction Hops as [|o ops Ho Hops IH]; intros r Hr; simpl.
  { rewrite Z.sub_diag. split_and!; try done; lia. }
  assert (let '(r1, out1, acc1) := step r o in
    recv_ok r1 ∧ delivered r ≤ delivered r1 ∧
    Seq <$> out1 = seqZ (delivered r + 1) (delivered r1 - delivered r) ∧
    acc1 ++ vals (pending r) ≡ₚ out1 ++ vals (pending r1)) as Hstep.
  { destruct o as [pkt|e]; simpl in *.
    - pose proof (Receive_accept pkt r Hr (proj2 Ho)) as Ha.
      pose proof (Receive_drop pkt r) as Hd.
      destruct (Receive pkt r) as [r1 [out1 reason]]; simpl in *.
      destruct (decide (reason = NotDropped)) as [->|Hne].
      + destruct (Ha eq_refl) as (? & _ & _ & ? & ? & ?). by split_and!.
      + destruct (Hd Hne) as [-> ->]. rewrite Z.sub_diag. destruct reason; try done; split_and!; try done; lia.
    - destruct (AdvanceEpoch_delivered e r) as [-> ->]. rewrite Z.sub_diag.
      split_and!; try done; try lia. by apply AdvanceEpoch_ok. }
  destruct (step r o) as [[r1 out1] acc1]. destruct Hstep as (Hr1 & Hle1 & Hs1 & Hp1).
  specialize (IH r1 Hr1). destruct (run r1 ops) as [[r2 out2] acc2].
  destruct IH as (Hr2 & Hle2 & Hs2 & Hp2). split_and!; [done|lia| |].
  - rewrite fmap_app, Hs1, Hs2.
    replace (delivered r2 - delivered r) with
      (delivered r1 - delivered r + (delivered r2 - delivered r1)) by lia.
    rewrite seqZ_app by lia. f_equal. f_equal; lia.
  - rewrite (Permutation_app_comm acc1 acc2), <- app_assoc, Hp1.
    rewrite <- app_assoc, <- Hp2. rewrite !app_assoc. apply Permutation_app_tail, Permutation_app_comm.
Qed.

(** A buffer within the window has at most that many packets. *)
Lemma PendingCount_bound r : recv_ok r → Z.of_nat (PendingCount r) ≤ WindowSize (r_cfg r).
Proof.
  intros [Hw _ _ Hp]. unfold PendingCount. rewrite <- length_map_to_list, <- (length_fmap fst).
  set (ks := (map_to_list (pending r)).*1).
  assert (ks ⊆+ seqZ (delivered r + 2) (WindowSize (r_cfg r))) as Hsub.
  { apply NoDup_submseteq; [apply NoDup_fst_map_to_list|].
    intros k ([k' p] & -> & Hin)%list_elem_of_fmap. apply elem_of_map_to_list, Hp in Hin as (_ & _ & ?).
    apply elem_of_seqZ. simpl. lia. }
  apply submseteq_length in Hsub. rewrite length_seqZ in Hsub. lia.
Qed.

Lemma omap_lookup_keys {A} (m : gmap Z A) l :
  (∀ k v, (k, v) ∈ l → m !! k = Some v) → omap (λ k, m !! k) l.*1 = l.*2.
Proof.
  induction l as [|[k v] l IH]; intros H; simpl; [done|].
  rewrite (H k v) by left. f_equal. apply IH. intros k' v' Hin. apply H. by right.
Qed.

(** [Close] hands back the buffer, sorted. *)
Lemma Close_spec r :
  recv_ok r → closed r = false →
  let '(r', stuck) := Close r in
  closed r' = true ∧ pending r' = ∅ ∧ delivered r' = delivered r ∧
  stuck ≡ₚ vals (pending r) ∧ StronglySorted Z.le (Seq <$> stuck).
Proof.
  intros Hr Hc. unfold Close. rewrite Hc. simpl. case_bool_decide as Hz.
  - apply map_size_empty_inv in Hz. simpl. rewrite Hz, map_to_list_empty. split_and!; try done.
    constructor.
  - set (ks := (map_to_list (pending r)).*1). split_and!; try done.
    + rewrite (merge_sort_Permutation Z.le ks). unfold ks. rewrite omap_lookup_keys; [done|].
      intros k v. by rewrite elem_of_map_to_list.
    + assert (∀ l : list Z, (∀ k, k ∈ l → ∃ p, pending r !! k = Some p ∧ Seq p = k) →
        Seq <$> omap (λ k, pending r !! k) l = l) as Hid.
      { induction l as [|k l IH]; intros H; simpl; [done|].
        destruct (H k) as (p & Hp & Hs); [left|]. rewrite Hp. simpl. rewrite Hs. f_equal.
        apply IH. intros k' Hk'. apply H. by right. }
      rewrite Hid; [apply (StronglySorted_merge_sort Z.le)|].
      intros k. rewrite merge_sort_Permutation. intros ([k' p] & -> & Hin)%list_elem_of_fmap.
      apply elem_of_map_to_list in Hin. exists p. split; [done|]. by apply (ok_pending _ Hr).
Qed.

Lemma seqZ_sorted m n : StronglySorted Z.lt (seqZ m n).
Proof.
  destruct (decide (0 ≤ n)) as [Hn|]; [|rewrite seqZ_nil by lia; constructor].
  revert m. pattern n. apply natlike_ind; [| |done]; clear n Hn.
  - intros m. rewrite seqZ_nil by lia. constructor.
  - intros n Hn IH m. rewrite seqZ_cons by lia. constructor; [replace (Z.pred (Z.succ n)) with n by lia; apply IH|].
    apply Forall_forall. intros x Hx%elem_of_seqZ. lia.
Qed.

Lemma StronglySorted_strict l : StronglySorted Z.le l → NoDup l → StronglySorted Z.lt l.
Proof.
  induction 1 as [|x l Hs IH Hx]; intros Hnd; constructor; apply NoDup_cons in Hnd as [Hn Hnd].
  - by apply IH.
  - apply Forall_forall. intros y Hy. pose proof (proj1 (Forall_forall _ _) Hx y Hy).
    assert (x ≠ y) by (by intros ->). lia.
Qed.

(** The numbers in a well-formed buffer are its keys. *)
Lemma vals_Seq r : recv_ok r → Seq <$> vals (pending r) = (map_to_list (pending r)).*1.
Proof.
  intros Hr. rewrite <- list_fmap_compose. apply list_fmap_ext. intros i [k p] Hi. simpl.
  apply list_elem_of_lookup_2, elem_of_map_to_list in Hi. by apply (ok_pending _ Hr).
Qed.

Lemma NewReceiver_ok cfg epoch seed :
  0 ≤ WindowSize cfg < 2 ^ 64 - 1 → is_u64 epoch → is_u64 seed → recv_ok (NewReceiver cfg epoch seed).
Proof. intros. by split. Qed.

Lemma run_closed ops r : closed r = false → closed (run r ops).1.1 = false.
Proof.
  revert r. induction ops as [|o ops IH]; intros r Hc; simpl; [done|].
  assert (closed (step r o).1.1 = false) as H1.
  { destruct o; simpl; [|unfold AdvanceEpoch; by destruct (_ >? _)].
    unfold Receive. rewrite Hc. repeat case_match; simplify_eq/=; try done. }
  destruct (step r o) as [[r1 out1] acc1]. specialize (IH r1 H1).
  by destruct (run r1 ops) as [[r2 out2] acc2].
Qed.

(** ** Properties *)

(** C10: over any run of packets and epoch advances, however they are reordered,
    duplicated or stale, the receiver delivers consecutive sequence numbers
    starting after the seed, each once; it never buffers more than the window;
    and it never stalls: as soon as every number up to [n] has been accepted,
    everything up to [n] has been delivered. *)
Theorem receiver_in_order cfg epoch seed ops :
  0 ≤ WindowSize cfg < 2 ^ 64 - 1 → is_u64 epoch → is_u64 seed → Forall op_ok ops →
  let '(r, outs, acc) := run (NewReceiver cfg epoch seed) ops in
  seed ≤ delivered r ∧
  Seq <$> outs = seqZ (seed + 1) (delivered r - seed) ∧
  Z.of_nat (PendingCount r) ≤ WindowSize (r_cfg r) ∧
  ∀ n, (∀ k, seed < k ≤ n → ∃ p, p ∈ acc ∧ Seq p = k) → n ≤ delivered r.
Proof.
  intros Hw He Hs Hops.
  pose proof (run_spec ops (NewReceiver cfg epoch seed) (NewReceiver_ok _ _ _ Hw He Hs) Hops) as H.
  destruct (run _ ops) as [[r outs] acc]. destruct H as (Hr & Hle & Hseq & Hperm).
  simpl in *. rewrite map_to_list_empty, app_nil_r in Hperm.
  split_and!; try done; [by apply PendingCount_bound|].
  intros n Hall. destruct (decide (n ≤ delivered r)) as [|Hlt]; [done|exfalso].
  destruct (Hall (delivered r + 1)) as (p & Hp & Hps); [lia|].
  rewrite Hperm in Hp. apply elem_of_app in Hp as [Hp|Hp]; apply (list_elem_of_fmap_2 Seq) in Hp.
  - rewrite Hseq, elem_of_seqZ in Hp. lia.
  - rewrite vals_Seq in Hp by done. apply list_elem_of_fmap in Hp as ([k q] & Hk & Hin).
    apply elem_of_map_to_list, (ok_pending _ Hr) in Hin. simpl in *. lia.
Qed.

(** Draining loses nothing. When a receiver is closed after any run, what
    it delivered followed by what [Close] hands back is exactly what it
    accepted, every packet once, in strictly increasing sequence order; and
    from then on every packet is refused. *)
Theorem receiver_Close_drains cfg epoch seed ops :
  0 ≤ WindowSize cfg < 2 ^ 64 - 1 → is_u64 epoch → is_u64 seed → Forall op_ok ops →
  let '(r, outs, acc) := run (NewReceiver cfg epoch seed) ops in
  let '(r', stuck) := Close r in
  outs ++ stuck ≡ₚ acc ∧ StronglySorted Z.lt (Seq <$> (outs ++ stuck)) ∧
  (∀ pkt, Receive pkt r' = (r', ([], DropClosed))) ∧ Close r' = (r', []).
Proof.
  intros Hw He Hs Hops.
  pose proof (run_spec ops (NewReceiver cfg epoch seed) (NewReceiver_ok _ _ _ Hw He Hs) Hops) as H.
  pose proof (run_closed ops (NewReceiver cfg epoch seed) eq_refl) as Hcl.
  destruct (run _ ops) as [[r outs] acc]. destruct H as (Hr & Hle & Hseq & Hperm). simpl in *.
  rewrite map_to_list_empty, app_nil_r in Hperm.
  pose proof (Close_spec r Hr Hcl) as Hclose. destruct (Close r) as [r' stuck].
  destruct Hclose as (Hc' & _ & _ & Hst & Hsort). split_and!.
  - by rewrite Hst, Hperm.
  - assert (Seq <$> stuck ≡ₚ (map_to_list (pending r)).*1) as Hkeys by by rewrite Hst, vals_Seq.
    rewrite fmap_app, Hseq. apply StronglySorted_app. split_and!.
    + intros x y Hx%elem_of_seqZ Hy. rewrite Hkeys in Hy.
      apply list_elem_of_fmap in Hy as ([k q] & -> & Hin).
      apply elem_of_map_to_list, (ok_pending _ Hr) in Hin. simpl. lia.
    + apply seqZ_sorted.
    + apply StronglySorted_strict; [done|]. rewrite Hkeys. apply NoDup_fst_map_to_list.
  - intros pkt. unfold Receive. by rewrite Hc'.
  - unfold Close. by rewrite Hc'.
Qed.

(** ** Witnesses *)

Definition ex_ops : list op :=
  [OpReceive (mkPacket 1 6 [1]); OpReceive (mkPacket 1 8 [3]); OpReceive (mkPacket 1 8 [3]);
   OpReceive (mkPacket 1 7 [2]); OpAdvance 2; OpReceive (mkPacket 1 9 [4]);
   OpReceive (mkPacket 2 11 [6]); OpReceive (mkPacket 2 500 [9])].

Lemma ex_ops_ok : Forall op_ok ex_ops.
Proof. repeat constructor; simpl; unfold fits; lia. Qed.

Lemma receiver_in_order_witness :
  let '(r, outs, acc) := run (NewReceiver DefaultConfig 1 5) ex_ops in
  Seq <$> outs = [6; 7; 8] ∧ 8 ≤ delivered r.
Proof.
  pose proof (receiver_in_order DefaultConfig 1 5 ex_ops) as H.
  destruct (run (NewReceiver DefaultConfig 1 5) ex_ops) as [[r outs] acc] eqn:E.
  destruct H as (_ & Hseq & _ & Hlive); [split; done|split; done|split; done|exact ex_ops_ok|].
  vm_compute in E. injection E as <- <- <-. split; [exact Hseq|].
  apply Hlive. intros k Hk. assert (k = 6 ∨ k = 7 ∨ k = 8) as Hk' by lia.
  destruct Hk' as [->|[->| ->]]; [exists (mkPacket 1 6 [1])|exists (mkPacket 1 7 [2])|exists (mkPacket 1 8 [3])];
    (split; [|reflexivity]); apply (bool_decide_eq_true_1 _); reflexivity.
Defined.

Lemma receiver_Close_drains_witness :
  let '(r, outs, acc) := run (NewReceiver DefaultConfig 1 5) ex_ops in
  let '(r', stuck) := Close r in
  Seq <$> stuck = [11] ∧ outs ++ stuck ≡ₚ acc.
Proof.
  pose proof (receiver_Close_drains DefaultConfig 1 5 ex_ops) as H.
  assert (match run (NewReceiver DefaultConfig 1 5) ex_ops with
          (r, _, _) => Seq <$> (Close r).2 = [11] end) as Hst by reflexivity.
  destruct (run (NewReceiver DefaultConfig 1 5) ex_ops) as [[r outs] acc].
  destruct (Close r) as [r' stuck].
  destruct H as (Hp & _); [split; done|split; done|split; done|exact ex_ops_ok|].
  exact (conj Hst Hp).
Defined.
