(* ===== verification/Handoff.v ===== *)
(** * Make-before-break handoff: internal/handoff/armer.go, cutover.go, drain.go
    and rollback.go

    A standby gateway is armed for a session at the next epoch, marked ready,
    and consumed by the cutover that commits the new access to the control
    plane. The old gateway's receiver is then drained. *)

From S2P Require Import Prelude Store Ownership Reorder.

Inductive ArmPhase := PhaseIdle | PhasePrepare | PhaseReady.

#[export] Instance ArmPhase_eq_dec : EqDecision ArmPhase.
Proof. solve_decision. Defined.

Definition ArmPhase_String (p : ArmPhase) : string :=
  match p with PhaseIdle => "idle" | PhasePrepare => "prepare" | PhaseReady => "ready" end.

Inductive handoff_error :=
| ErrSessionMismatch
| ErrStaleEpoch
| ErrNoArmInProgress
| ErrEpochMismatch
| EmptySessionID
| EmptyVirtualIP
| ErrNotReady
| HandoffOwn (e : own_error).

Record AccessState := mkAccess { SessionID : string; VirtualIP : string; SeqHighWater : Z }.

Definition access_Validate (s : AccessState) : option handoff_error :=
  if bool_decide (SessionID s = "") then Some EmptySessionID
  else if bool_decide (VirtualIP s = "") then Some EmptyVirtualIP
  else None.

Record armEntry := mkArm { phase : ArmPhase; targetEpoch : Z; arm_state : AccessState; armedAt : Time }.

(** [StandbyArmer]: its map. Every method holds the mutex throughout. *)
Abbreviation StandbyArmer := (gmap string armEntry) (only parsing).
Definition NewStandbyArmer : StandbyArmer := ∅.

Definition Prepare (session : string) (currentEpoch : Z) (state : AccessState) (now : Time)
    (a : StandbyArmer) : StandbyArmer * option handoff_error :=
  if negb (bool_decide (SessionID state = session)) then (a, Some ErrSessionMismatch)
  else match access_Validate state with
  | Some e => (a, Some e)
  | None =>
      let target := u64 (currentEpoch + 1) in
      let existing := a !! session in
      if match existing with Some e => target <? targetEpoch e | None => false end
      then (a, Some ErrStaleEpoch)
      else
        let ph := match existing with
                  | Some e => if (target =? targetEpoch e) && bool_decide (phase e = PhaseReady)
                              then PhaseReady else PhasePrepare
                  | None => PhasePrepare
                  end in
        (<[session := mkArm ph target state now]> a, None)
  end.

Definition MarkReady (session : string) (epoch : Z) (a : StandbyArmer)
    : StandbyArmer * option handoff_error :=
  match a !! session with
  | None => (a, Some ErrNoArmInProgress)
  | Some existing =>
      if bool_decide (phase existing = PhaseIdle) then (a, Some ErrNoArmInProgress)
      else if negb (targetEpoch existing =? epoch) then (a, Some ErrEpochMismatch)
      else (<[session := mkArm PhaseReady (targetEpoch existing) (arm_state existing) (armedAt existing)]> a,
            None)
  end.

Definition ConsumeReady (session : string) (epoch : Z) (a : StandbyArmer)
    : StandbyArmer * option AccessState :=
  match a !! session with
  | None => (a, None)
  | Some e =>
      if negb (bool_decide (phase e = PhaseReady)) || negb (targetEpoch e =? epoch) then (a, None)
      else (delete session a, Some (arm_state e))
  end.

Definition arm_Reset (session : string) (a : StandbyArmer) : StandbyArmer := delete session a.

Definition Phase (session : string) (a : StandbyArmer) : ArmPhase :=
  match a !! session with Some e => phase e | None => PhaseIdle end.

Definition Snapshot (session : string) (a : StandbyArmer) : option (Z * AccessState * ArmPhase * Time) :=
  match a !! session with
  | None => None
  | Some e => Some (targetEpoch e, arm_state e, phase e, armedAt e)
  end.

(** ** Cutover, rollback and drain *)

Record CutoverResult := mkCutover {
  co_Session : string;
  OldAccess : string;
  NewAccess : string;
  co_Egress : string;
  co_Epoch : Z;
  co_State : AccessState;
  CommittedAt : Time;
}.

Section Cutover.
Context `{!Codec OwnershipRecord} {St : Type} `{!KVStore St}.
Context (fencer : option (Fencer St)).

(** [ok] is a [Some] result; [None] outside when [fuel] did not suffice for
    [SetIfNewer]. *)
Definition Cutover (fuel : nat) (session newAccess : string) (current : OwnershipRecord) (now : Time)
    (a : StandbyArmer) (s : St)
    : StandbyArmer * St * option (res handoff_error (option CutoverResult)) :=
  let wantEpoch := u64 (Epoch current + 1) in
  match ConsumeReady session wantEpoch a with
  | (a, None) => (a, s, Some (Err ErrNotReady))
  | (a, Some state) =>
      let cand := NextAccessEpoch newAccess current in
      match SetIfNewer fencer fuel cand s with
      | (s, None) => (a, s, None)
      | (s, Some (_, Some e)) => (a, s, Some (Err (HandoffOwn e)))
      | (s, Some (false, None)) => (a, s, Some (Ok None))
      | (s, Some (true, None)) =>
          (a, s, Some (Ok (Some (mkCutover session (Access current) newAccess (Egress cand)
                                          (Epoch cand) state now))))
      end
  end.
End Cutover.

Record RollbackResult := mkRollback { rb_Session : string; HadArm : bool }.

Definition Rollback (session : string) (a : StandbyArmer) : StandbyArmer * RollbackResult :=
  let hadArm := bool_decide (is_Some (Snapshot session a)) in
  (arm_Reset session a, mkRollback session hadArm).

Record DrainResult := mkDrain { dr_Session : string; Stuck : list Packet }.

Definition DrainOldGateway (session : string) (rec : Receiver) : Receiver * DrainResult :=
  let '(rec, stuck) := Close rec in (rec, mkDrain session stuck).

(** ** The armer as a state machine *)

Inductive arm_op :=
| ArmPrepare (session : string) (currentEpoch : Z) (state : AccessState) (now : Time)
| ArmMarkReady (session : string) (epoch : Z)
| ArmConsume (session : string) (epoch : Z)
| ArmReset (session : string).

Definition arm_step (a : StandbyArmer) (o : arm_op) : StandbyArmer :=
  match o with
  | ArmPrepare s e st now => (Prepare s e st now a).1
  | ArmMarkReady s e => (MarkReady s e a).1
  | ArmConsume s e => (ConsumeReady s e a).1
  | ArmReset s => arm_Reset s a
  end.

Definition arm_run (ops : list arm_op) : StandbyArmer := fold_left arm_step ops NewStandbyArmer.

(** [session] is armed and ready for [epoch]. *)
Definition ready_at (session : string) (epoch : Z) (a : StandbyArmer) : Prop :=
  ∃ e, a !! session = Some e ∧ phase e = PhaseReady ∧ targetEpoch e = epoch.

(** ** Lemmas *)

Lemma arm_run_snoc ops o : arm_run (ops ++ [o]) = arm_step (arm_run ops) o.
Proof. unfold arm_run. by rewrite fold_left_app. Qed.

(** A step that leaves a session ready found it ready at the same epoch, or is
    the [MarkReady] for that epoch. *)
Lemma arm_step_ready a o session epoch :
  ready_at session epoch (arm_step a o) →
  ready_at session epoch a ∨ o = ArmMarkReady session epoch.
Proof.
  intros (e & He & Hp & Ht). destruct o as [s ce st now|s ep|s ep|s]; simpl in He.
  - unfold Prepare in He.
    destruct (negb _); [left; by exists e|]. destruct (access_Validate st); [left; by exists e|].
    destruct (match a !! s with Some _ => _ | None => _ end); [left; by exists e|]. simpl in He.
    apply lookup_insert_Some in He as [[-> <-]|[_ He]]; [|left; by exists e]. simpl in *.
    destruct (a !! session) as [e'|] eqn:E; [|done].
    destruct (_ && _) eqn:Eb; [|done]. zbool. left. exists e'. split_and!; [done|done|congruence].
  - unfold MarkReady in He. destruct (a !! s) as [e'|] eqn:E; simpl in He; [|left; by exists e].
    destruct (bool_decide _); [left; by exists e|].
    destruct (negb _) eqn:Eb; simpl in He; [left; by exists e|]. zbool.
    apply lookup_insert_Some in He as [[-> <-]|[_ He]]; [|left; by exists e]. simpl in *. right. congruence.
  - unfold ConsumeReady in He. destruct (a !! s) as [e'|]; simpl in He; [|left; by exists e].
    destruct (_ || _); simpl in He; [left; by exists e|].
    apply lookup_delete_Some in He as [_ He]. left. by exists e.
  - unfold arm_Reset in He. apply lookup_delete_Some in He as [_ He]. left. by exists e.
Qed.

Lemma ConsumeReady_spec session epoch a :
  match ConsumeReady session epoch a with
  | (a', Some st) => ready_at session epoch a ∧ a' = delete session a
  | (a', None) => ¬ ready_at session epoch a ∧ a' = a
  end.
Proof.
  unfold ConsumeReady. destruct (a !! session) as [e|] eqn:E.
  - destruct (_ || _) eqn:Eb.
    + split; [|done]. intros (e' & He' & Hp & Ht). rewrite E in He'. injection He' as <-.
      rewrite bool_decide_eq_true_2, Ht, Z.eqb_refl in Eb by done. done.
    + zbool. split; [|done]. by exists e.
  - split; [|done]. intros (e' & He' & _). congruence.
Qed.

(** ** Properties *)

(** A standby is ready at an epoch only because it was marked ready at that
    very epoch, and nothing consumed, reset or re-armed it since: it has been
    ready at that epoch at every moment after the [MarkReady]. *)
Theorem ready_since_MarkReady ops session epoch :
  ready_at session epoch (arm_run ops) →
  ∃ pre post, ops = pre ++ ArmMarkReady session epoch :: post ∧
    ∀ mid, mid `prefix_of` post →
      ready_at session epoch (arm_run (pre ++ ArmMarkReady session epoch :: mid)).
Proof.
  induction ops as [|o ops IH] using rev_ind.
  { intros (e & He & _). unfold arm_run, NewStandbyArmer in He. simpl in He. by rewrite lookup_empty in He. }
  intros Hr. pose proof Hr as Hr'. rewrite arm_run_snoc in Hr'.
  destruct (arm_step_ready _ _ _ _ Hr') as [Hold| ->].
  - destruct (IH Hold) as (pre & post & -> & Hall).
    exists pre, (post ++ [o]). split; [by rewrite <- app_assoc|].
    intros mid [Hmid| ->]%prefix_snoc_inv; [by apply Hall|].
    by rewrite <- app_assoc in Hr.
  - exists ops, []. split; [done|]. intros mid ->%prefix_nil_inv. done.
Qed.

Section Properties.
Context `{!Codec OwnershipRecord, !CodecLaws OwnershipRecord}.
Context {St : Type} `{!KVStore St, !Fencer St, !FencedLaws St}.

(** What a cutover commits. Without a standby ready for the epoch after
    the caller's record, nothing changes and the error says so. With one, the
    arm is spent; if the store still holds nothing newer than the caller's
    record the session's owner becomes that record with the new access and
    the next epoch, its egress kept; if another writer was faster the store
    is left as it is and no result is reported. Either way the same arm
    cannot be spent again. *)
Theorem Cutover_commits fuel session newAccess current now a (s : St) :
  Session current = session → Validate (NextAccessEpoch newAccess current) = None →
  codec_ok (NextAccessEpoch newAccess current) → 0 ≤ Epoch current < 2 ^ 64 - 1 →
  kv_inv s → kv_room s → sessions_decode s → (3 ≤ fuel)%nat →
  let next := mkOwn session newAccess (Egress current) (Epoch current + 1) in
  let free := match owner s session with Some cur => Epoch cur <=? Epoch current | None => true end in
  let '(a', s', r) := Cutover (Some _) fuel session newAccess current now a s in
  (¬ ready_at session (Epoch current + 1) a →
     r = Some (Err ErrNotReady) ∧ a' = a ∧ s' = s) ∧
  (ready_at session (Epoch current + 1) a →
     a' = delete session a ∧ ¬ ready_at session (Epoch current + 1) a' ∧
     (free = true → owner s' session = Some next ∧
        ∃ st, r = Some (Ok (Some (mkCutover session (Access current) newAccess (Egress current)
                                    (Epoch current + 1) st now)))) ∧
     (free = false → r = Some (Ok None) ∧ s' = s)).
Proof.
  intros Hses Hv Hcod Hep Hinv Hroom Hdec Hfuel next free. unfold Cutover.
  rewrite (wrap_small 64 (Epoch current + 1)) by (unfold fits; lia).
  pose proof (ConsumeReady_spec session (Epoch current + 1) a) as Hcon.
  destruct (ConsumeReady session (Epoch current + 1) a) as [a1 [st|]]; destruct Hcon as [Hready ->].
  2:{ split; [done|]. intros ?. done. }
  assert (NextAccessEpoch newAccess current = next) as Hnext.
  { unfold NextAccessEpoch, next. rewrite wrap_small by (unfold fits; lia). by rewrite Hses. }
  rewrite Hnext in *.
  destruct (SetIfNewer_alone next s fuel Hv Hcod Hinv Hroom Hdec Hfuel) as (s' & Hset & _ & Hwon & Hlost & _).
  simpl in Hset, Hwon, Hlost.
  assert (match owner s session with Some cur => Newer next cur | None => true end = free) as Hfree.
  { unfold free, Newer. destruct (owner s session); [|done]. simpl. rewrite Z.gtb_ltb.
    destruct (Z.ltb_spec (Epoch o) (Epoch current + 1)), (Z.leb_spec (Epoch o) (Epoch current)); lia || done. }
  rewrite Hfree in *. rewrite Hset.
  assert (¬ ready_at session (Epoch current + 1) (delete session a)) as Hspent.
  { intros (e & He & _). by rewrite lookup_delete_eq in He. }
  destruct free; (split; [done|]); intros _; split_and!; try done.
  - intros _. split; [by apply Hwon|]. by exists st.
  - intros _. split; [done|by apply Hlost].
Qed.
End Properties.

(** ** Witnesses *)

Definition ex_arm_ops : list arm_op :=
  [ArmPrepare "7" 4 (mkAccess "7" "10.0.0.9" 100) 0; ArmMarkReady "7" 5;
   ArmPrepare "8" 1 (mkAccess "8" "10.0.0.8" 1) 1].

Lemma ready_since_MarkReady_witness :
  ∃ pre post, ex_arm_ops = pre ++ ArmMarkReady "7" 5 :: post.
Proof.
  destruct (ready_since_MarkReady ex_arm_ops "7" 5) as (pre & post & Heq & _).
  - eexists. split; [reflexivity|]. split; reflexivity.
  - by exists pre, post.
Defined.

Lemma Cutover_commits_witness :
  let '(a', s', r) := @Cutover own_codec MemStore _ (Some _) 3 "7" "tk" (mkOwn "7" "hk" "sg" 4) 20
                        (arm_run ex_arm_ops) NewMemStore in
  @owner MemStore own_codec _ s' "7" = Some (mkOwn "7" "tk" "sg" 5).
Proof.
  pose proof (@Cutover_commits own_codec own_codec_laws MemStore _ _ _ 3 "7" "tk"
    (mkOwn "7" "hk" "sg" 4) 20 (arm_run ex_arm_ops) NewMemStore eq_refl eq_refl I) as H.
  destruct (Cutover _ _ _ _ _ _ _) as [[a' s'] r].
  refine (proj1 (proj1 (proj2 (proj2 (proj2 (H _ _ _ _ _) _))) _)).
  - simpl. lia.
  - apply NewMemStore_ok.
  - vm_compute. reflexivity.
  - apply NewMemStore_decode.
  - lia.
  - eexists. split; [reflexivity|]. split; reflexivity.
  - reflexivity.
Defined.
