(* ===== verification/Netip.v ===== *)
(** * Addresses and prefixes: what the sources use of net/netip

    An address is invalid (the zero value), IPv4 or IPv6; an IPv6 address may
    be an IPv4-mapped one. Zones are not modelled: no function here looks at
    them. A prefix is an address and a length, -1 when it is invalid. *)

From S2P Require Import Prelude.

Inductive Addr := AddrInvalid | Addr4 (v : Z) | Addr6 (v : Z).

#[export] Instance Addr_eq_dec : EqDecision Addr.
Proof. solve_decision. Defined.
#[export] Instance Addr_countable : Countable Addr.
Proof.
  refine (inj_countable' (λ a, match a with AddrInvalid => inl () | Addr4 v => inr (inl v) | Addr6 v => inr (inr v) end)
            (λ s, match s with inl _ => AddrInvalid | inr (inl v) => Addr4 v | inr (inr v) => Addr6 v end) _).
  by intros [].
Defined.

Definition addr_IsValid (a : Addr) : bool := match a with AddrInvalid => false | _ => true end.
Definition Is4 (a : Addr) : bool := match a with Addr4 _ => true | _ => false end.
Definition Is6 (a : Addr) : bool := match a with Addr6 _ => true | _ => false end.
(** ::ffff:0:0/96 *)
Definition Is4In6 (a : Addr) : bool :=
  match a with Addr6 v => Z.shiftr v 32 =? 65535 | _ => false end.

Definition BitLen (a : Addr) : Z := match a with AddrInvalid => 0 | Addr4 _ => 32 | Addr6 _ => 128 end.

Definition AddrFrom4 (b : bytes) : Addr := Addr4 (be_get b).
Definition AddrFrom16 (b : bytes) : Addr := Addr6 (be_get b).

(** [As4] panics ([None]) on an address that is neither IPv4 nor IPv4-mapped. *)
Definition As4 (a : Addr) : option bytes :=
  match a with
  | Addr4 v => Some (be_put 4 v)
  | Addr6 v => if Is4In6 a then Some (be_put 4 v) else None
  | AddrInvalid => None
  end.
Definition As16 (a : Addr) : bytes :=
  match a with
  | AddrInvalid => replicate 16 0
  | Addr4 v => be_put 16 (Z.lor (Z.shiftl 65535 32) v)
  | Addr6 v => be_put 16 v
  end.

Definition addr_ok (a : Addr) : Prop :=
  match a with AddrInvalid => True | Addr4 v => fits 32 v | Addr6 v => fits 128 v end.

Record Prefix := mkPrefix { pf_Addr : Addr; pf_Bits : Z }.

#[export] Instance Prefix_eq_dec : EqDecision Prefix.
Proof. solve_decision. Defined.
#[export] Instance Prefix_countable : Countable Prefix.
Proof.
  refine (inj_countable' (λ p, (pf_Addr p, pf_Bits p)) (λ '(a, b), mkPrefix a b) _). by intros [].
Defined.

Definition zeroPrefix : Prefix := mkPrefix AddrInvalid (-1).

Definition pf_IsValid (p : Prefix) : bool :=
  addr_IsValid (pf_Addr p) && (0 <=? pf_Bits p) && (pf_Bits p <=? BitLen (pf_Addr p)).

(** The address with all but its first [bits] bits cleared. *)
Definition mask_addr (a : Addr) (bits : Z) : Addr :=
  match a with
  | AddrInvalid => AddrInvalid
  | Addr4 v => Addr4 (Z.shiftl (Z.shiftr v (32 - bits)) (32 - bits))
  | Addr6 v => Addr6 (Z.shiftl (Z.shiftr v (128 - bits)) (128 - bits))
  end.

(** [addr.Prefix(bits)]; [None] is its error. The length counts bits of the
    address as it is, so 128 for an IPv4-mapped address too. *)
Definition addr_Prefix (a : Addr) (bits : Z) : option Prefix :=
  match a with
  | AddrInvalid => if bits <? 0 then None else Some zeroPrefix
  | _ => if (bits <? 0) || (bits >? BitLen a) then None else Some (mkPrefix (mask_addr a bits) bits)
  end.

Definition Masked (p : Prefix) : Prefix := default zeroPrefix (addr_Prefix (pf_Addr p) (pf_Bits p)).

(** [p.Contains(ip)] for addresses of the same family (and no zone). *)
Definition Contains (p : Prefix) (a : Addr) : bool :=
  pf_IsValid p &&
  match pf_Addr p, a with
  | Addr4 v, Addr4 w => Z.shiftr v (32 - pf_Bits p) =? Z.shiftr w (32 - pf_Bits p)
  | Addr6 v, Addr6 w => Z.shiftr v (128 - pf_Bits p) =? Z.shiftr w (128 - pf_Bits p)
  | _, _ => false
  end.

(** ** Lemmas *)

Lemma shiftr_below v w n : 0 ≤ n → fits (w + n) v → 0 ≤ w → fits w (Z.shiftr v n).
Proof.
  unfold fits. intros Hn [? Hv] Hw. rewrite Z.shiftr_div_pow2 by done.
  split; [apply Z.div_pos; lia|]. apply Z.div_lt_upper_bound; [lia|].
  by rewrite <- Z.pow_add_r, Z.add_comm by lia.
Qed.

(** Clearing the low [n] bits leaves the others. *)
Lemma testbit_cleared v n i :
  0 ≤ n → 0 ≤ i → Z.testbit (Z.shiftl (Z.shiftr v n) n) i = Z.testbit v i && (n <=? i).
Proof.
  intros Hn Hi. rewrite Z.shiftl_spec by done. destruct (Z.leb_spec n i).
  - rewrite Z.shiftr_spec, andb_true_r by lia. f_equal. lia.
  - rewrite Z.testbit_neg_r by lia. by rewrite andb_false_r.
Qed.
