(* ===== verification/Flow.v ===== *)
(** * Flows: internal/tunnel/flow.go and internal/tunnel/shard.go

    The parser that finds a packet's flow key, the table that pins a flow to
    its egress, the sharded table of the fast path and the worker pool that
    runs one worker per shard. A slice or index expression of the parser
    that would be out of range is [None], Go's panic; the clock a table
    reads is an argument of the call. Workers are steps: any worker with
    work left may take the next one. *)

From S2P Require Import Prelude Netip.

(** ** Keys *)

Definition ProtoICMP : Z := 1.
Definition ProtoTCP : Z := 6.
Definition ProtoUDP : Z := 17.
Definition ProtoICMPv6 : Z := 58.

Record FlowKey := mkKey {
  k_Proto : Z;
  k_SrcAddr : Addr;
  k_SrcPort : Z;
  k_DstAddr : Addr;
  k_DstPort : Z;
}.

#[export] Instance FlowKey_eq_dec : EqDecision FlowKey.
Proof. solve_decision. Defined.
#[export] Instance FlowKey_countable : Countable FlowKey.
Proof.
  refine (inj_countable' (λ k, (k_Proto k, k_SrcAddr k, k_SrcPort k, k_DstAddr k, k_DstPort k))
            (λ '(p, sa, sp, da, dp), mkKey p sa sp da dp) _). by intros [].
Defined.

Definition Reverse (k : FlowKey) : FlowKey :=
  {| k_Proto := k_Proto k; k_SrcAddr := k_DstAddr k; k_SrcPort := k_DstPort k;
     k_DstAddr := k_SrcAddr k; k_DstPort := k_SrcPort k |}.

Inductive flow_error :=
| EmptyPacket
| UnrecognizedVersion (v : Z)
| IPv4TooShort (len : nat)
| IPv4HeaderLength (ihl len : nat)
| IPv4Protocol (proto : Z)
| IPv6TooShort (len : nat)
| IPv6NextHeader (proto : Z)
| TransportTooShort (len : nat) (proto : Z).

(** [b[i:j]], a panic when it is out of range. *)
Definition slice_chk (i j : nat) (b : bytes) : option bytes :=
  if (i <=? j)%nat && (j <=? length b)%nat then Some (slice i j b) else None.

(** [setPorts] fills the ports in and fails on a short header. *)
Definition setPorts (key : FlowKey) (transport : bytes) : option (res flow_error FlowKey) :=
  if (length transport <? 4)%nat then Some (Err (TransportTooShort (length transport) (k_Proto key)))
  else
    s ← slice_chk 0 2 transport;
    d ← slice_chk 2 4 transport;
    Some (Ok {| k_Proto := k_Proto key; k_SrcAddr := k_SrcAddr key; k_SrcPort := be_get s;
                k_DstAddr := k_DstAddr key; k_DstPort := be_get d |}).

Definition parseFlowKeyIPv4 (packet : bytes) : option (res flow_error FlowKey) :=
  if (length packet <? 20)%nat then Some (Err (IPv4TooShort (length packet)))
  else
    b0 ← packet !! 0%nat;
    let ihl := (Z.to_nat (Z.land b0 15) * 4)%nat in
    if (ihl <? 20)%nat || (length packet <? ihl)%nat
    then Some (Err (IPv4HeaderLength ihl (length packet)))
    else
      proto ← packet !! 9%nat;
      src ← slice_chk 12 16 packet;
      dst ← slice_chk 16 20 packet;
      let key := mkKey proto (AddrFrom4 src) 0 (AddrFrom4 dst) 0 in
      if (proto =? ProtoTCP) || (proto =? ProtoUDP) then
        transport ← slice_chk ihl (length packet) packet;
        setPorts key transport
      else if proto =? ProtoICMP then Some (Ok key)
      else Some (Err (IPv4Protocol proto)).

Definition ipv6HeaderLen : nat := 40.

Definition parseFlowKeyIPv6 (packet : bytes) : option (res flow_error FlowKey) :=
  if (length packet <? ipv6HeaderLen)%nat then Some (Err (IPv6TooShort (length packet)))
  else
    proto ← packet !! 6%nat;
    src ← slice_chk 8 24 packet;
    dst ← slice_chk 24 40 packet;
    let key := mkKey proto (AddrFrom16 src) 0 (AddrFrom16 dst) 0 in
    if (proto =? ProtoTCP) || (proto =? ProtoUDP) then
      transport ← slice_chk ipv6HeaderLen (length packet) packet;
      setPorts key transport
    else if proto =? ProtoICMPv6 then Some (Ok key)
    else Some (Err (IPv6NextHeader proto)).

Definition ParseFlowKey (packet : bytes) : option (res flow_error FlowKey) :=
  if (length packet <? 1)%nat then Some (Err EmptyPacket)
  else
    b0 ← packet !! 0%nat;
    let v := Z.shiftr b0 4 in
    if v =? 4 then parseFlowKeyIPv4 packet
    else if v =? 6 then parseFlowKeyIPv6 packet
    else Some (Err (UnrecognizedVersion v)).

(** ** The flow table *)

Definition FlowPolicy := FlowKey → string.
Definition StaticEgressPolicy (egressID : string) : FlowPolicy := λ _, egressID.

Record FlowEntry := mkEntry { fe_EgressID : string; fe_CreatedAt : Time; fe_LastSeen : Time }.

Record FlowTable := mkTable {
  ft_flows : gmap FlowKey FlowEntry;
  ft_policy : FlowPolicy;
  ft_idleTTL : Duration;
}.

Definition NewFlowTable (policy : FlowPolicy) (idleTTL : Duration) : FlowTable :=
  mkTable ∅ policy idleTTL.

Definition with_flows (t : FlowTable) (m : gmap FlowKey FlowEntry) : FlowTable :=
  mkTable m (ft_policy t) (ft_idleTTL t).

Definition ft_Egress (now : Time) (key : FlowKey) (t : FlowTable) : string * FlowTable :=
  let entry := match ft_flows t !! key with
               | Some e => e
               | None => mkEntry (ft_policy t key) now zero_time
               end in
  (fe_EgressID entry,
   with_flows t (<[key := mkEntry (fe_EgressID entry) (fe_CreatedAt entry) now]> (ft_flows t))).

Definition ft_Lookup (key : FlowKey) (t : FlowTable) : option string := fe_EgressID <$> ft_flows t !! key.
Definition ft_Snapshot (key : FlowKey) (t : FlowTable) : option FlowEntry := ft_flows t !! key.
Definition ft_Len (t : FlowTable) : nat := size (ft_flows t).

Definition idle (cutoff : Time) (e : FlowEntry) : bool := time_Before (fe_LastSeen e) cutoff.

Definition ft_EvictIdle (now : Time) (t : FlowTable) : nat * FlowTable :=
  if ft_idleTTL t <=? 0 then (0%nat, t)
  else
    let cutoff := time_Add now (- ft_idleTTL t) in
    (size (filter (λ kv, idle cutoff kv.2 = true) (ft_flows t)),
     with_flows t (filter (λ kv, idle cutoff kv.2 = false) (ft_flows t))).

(** ** The sharded table *)

Definition offset64 : Z := 14695981039346656037.
Definition prime64 : Z := 1099511628211.
Definition fnv (h b : Z) : Z := u64 (Z.lxor h b * prime64).

Definition hashFlowKey (key : FlowKey) : Z :=
  let h := fnv offset64 (k_Proto key) in
  let h := fold_left fnv (As16 (k_SrcAddr key)) h in
  let h := fnv h (k_SrcPort key) in
  let h := fold_left fnv (As16 (k_DstAddr key)) h in
  fnv h (k_DstPort key).

Record ShardedFlowTable := mkSharded { shards : list FlowTable }.

(** [numCPU] stands for runtime.NumCPU(). *)
Definition NewShardedFlowTable (numCPU : nat) (shardCount : Z) (policy : FlowPolicy) (idleTTL : Duration)
    : ShardedFlowTable :=
  let n := if shardCount <=? 0 then numCPU else Z.to_nat shardCount in
  mkSharded (replicate n (NewFlowTable policy idleTTL)).

Definition ShardCount (s : ShardedFlowTable) : nat := length (shards s).

(** The remainder by zero of an empty table is a panic. *)
Definition ShardIndex (s : ShardedFlowTable) (key : FlowKey) : option nat :=
  if (ShardCount s =? 0)%nat then None
  else Some (Z.to_nat (hashFlowKey key mod Z.of_nat (ShardCount s))).

Definition s_Egress (now : Time) (key : FlowKey) (s : ShardedFlowTable) : option (string * ShardedFlowTable) :=
  i ← ShardIndex s key;
  t ← shards s !! i;
  let '(e, t') := ft_Egress now key t in
  Some (e, mkSharded (<[i := t']> (shards s))).

Definition s_Lookup (key : FlowKey) (s : ShardedFlowTable) : option (option string) :=
  i ← ShardIndex s key; t ← shards s !! i; Some (ft_Lookup key t).
Definition s_Snapshot (key : FlowKey) (s : ShardedFlowTable) : option (option FlowEntry) :=
  i ← ShardIndex s key; t ← shards s !! i; Some (ft_Snapshot key t).

Definition s_Len (s : ShardedFlowTable) : nat := sum_list (ft_Len <$> shards s).

(** Every shard reads the clock for itself. *)
Definition s_EvictIdle (clock : nat → Time) (s : ShardedFlowTable) : nat * ShardedFlowTable :=
  let rs := imap (λ i t, ft_EvictIdle (clock i) t) (shards s) in
  (sum_list rs.*1, mkSharded rs.*2).

Definition FastPathDecide (now : Time) (packet : bytes) (s : ShardedFlowTable)
    : option (res flow_error (FlowKey * string) * ShardedFlowTable) :=
  r ← ParseFlowKey packet;
  match r with
  | Err e => Some (Err e, s)
  | Ok key => '(eg, s') ← s_Egress now key s; Some (Ok (key, eg), s')
  end.

(** ** Specification of the parser: the packets that carry a flow

    An IP header written out field by field, with the transport header
    behind it. [icmp] is the protocol without ports of the IP version. *)

Inductive transport (icmp : Z) : Z → Z → Z → bytes → Prop :=
| transport_ports proto sp dp rest :
    proto = ProtoTCP ∨ proto = ProtoUDP → is_u16 sp → is_u16 dp →
    transport icmp proto sp dp (be_put 2 sp ++ be_put 2 dp ++ rest)
| transport_icmp rest : transport icmp icmp 0 0 rest.

Inductive carries : bytes → FlowKey → Prop :=
| carries4 (k : nat) h ck opts tr proto src dst sp dp :
    (k ≤ 10)%nat → length h = 8%nat → length ck = 2%nat → length opts = (4 * k)%nat →
    is_u32 src → is_u32 dst → transport ProtoICMP proto sp dp tr →
    carries (69 + Z.of_nat k :: h ++ proto :: ck ++ be_put 4 src ++ be_put 4 dst ++ opts ++ tr)
            (mkKey proto (Addr4 src) sp (Addr4 dst) dp)
| carries6 lo h hop tr proto src dst sp dp :
    0 ≤ lo < 16 → length h = 5%nat → fits 128 src → fits 128 dst →
    transport ProtoICMPv6 proto sp dp tr →
    carries (96 + lo :: h ++ proto :: hop :: be_put 16 src ++ be_put 16 dst ++ tr)
            (mkKey proto (Addr6 src) sp (Addr6 dst) dp).

(** ** Lemmas: the parser *)

Lemma slice_chk_ok i j b : (i ≤ j)%nat → (j ≤ length b)%nat → slice_chk i j b = Some (slice i j b).
Proof.
  intros. unfold slice_chk.
  by rewrite (proj2 (Nat.leb_le _ _)), (proj2 (Nat.leb_le _ _)) by done.
Qed.

Lemma setPorts_eq key t :
  setPorts key t =
  if (length t <? 4)%nat then Some (Err (TransportTooShort (length t) (k_Proto key)))
  else Some (Ok (mkKey (k_Proto key) (k_SrcAddr key) (be_get (take 2 t))
                       (k_DstAddr key) (be_get (take 2 (drop 2 t))))).
Proof.
  unfold setPorts. destruct (Nat.ltb_spec (length t) 4); [done|].
  rewrite !slice_chk_ok by lia. done.
Qed.

(** The switch on the protocol both parsers end with. *)
Definition finish (icmp : Z) (bad : Z → flow_error) (key : FlowKey) (t : bytes) : option (res flow_error FlowKey) :=
  if (k_Proto key =? ProtoTCP) || (k_Proto key =? ProtoUDP) then setPorts key t
  else if k_Proto key =? icmp then Some (Ok key) else Some (Err (bad (k_Proto key))).

Lemma parse4_pieces b0 h proto ck s d r :
  length h = 8%nat → length ck = 2%nat → length s = 4%nat → length d = 4%nat →
  parseFlowKeyIPv4 (b0 :: h ++ proto :: ck ++ s ++ d ++ r) =
  let ihl := (Z.to_nat (Z.land b0 15) * 4)%nat in
  if (ihl <? 20)%nat || (20 + length r <? ihl)%nat
  then Some (Err (IPv4HeaderLength ihl (20 + length r)))
  else finish ProtoICMP IPv4Protocol (mkKey proto (AddrFrom4 s) 0 (AddrFrom4 d) 0) (drop (ihl - 20) r).
Proof.
  intros Hh Hck Hs Hd.
  do 8 (destruct h as [|? h]; [discriminate|]); destruct h; [|discriminate].
  do 2 (destruct ck as [|? ck]; [discriminate|]); destruct ck; [|discriminate].
  do 4 (destruct s as [|? s]; [discriminate|]); destruct s; [|discriminate].
  do 4 (destruct d as [|? d]; [discriminate|]); destruct d; [|discriminate].
  set (packet := b0 :: _).
  assert (length packet = 20 + length r)%nat as Hlen by done.
  unfold parseFlowKeyIPv4. rewrite Hlen.
  destruct (Nat.ltb_spec (20 + length r) 20); [lia|].
  change (packet !! 0%nat) with (Some b0). cbn [mbind option_bind]. cbv zeta.
  destruct ((_ <? 20)%nat || _) eqn:Hi; [done|].
  apply orb_false_iff in Hi as [H1%Nat.ltb_ge H2%Nat.ltb_ge].
  change (packet !! 9%nat) with (Some proto). rewrite !slice_chk_ok by lia.
  cbn [mbind option_bind]. unfold finish. cbn [k_Proto].
  destruct ((proto =? _) || _); [|done]. f_equal.
  remember (Z.to_nat (Z.land b0 15) * 4)%nat as ihl eqn:E. clear E.
  unfold slice. rewrite take_ge by (rewrite length_drop; lia).
  replace ihl with (20 + (ihl - 20))%nat at 1 by lia. done.
Qed.

Lemma parse6_pieces b0 h proto hop s d r :
  length h = 5%nat → length s = 16%nat → length d = 16%nat →
  parseFlowKeyIPv6 (b0 :: h ++ proto :: hop :: s ++ d ++ r) =
  finish ProtoICMPv6 IPv6NextHeader (mkKey proto (AddrFrom16 s) 0 (AddrFrom16 d) 0) r.
Proof.
  intros Hh Hs Hd.
  do 5 (destruct h as [|? h]; [discriminate|]); destruct h; [|discriminate].
  do 16 (destruct s as [|? s]; [discriminate|]); destruct s; [|discriminate].
  do 16 (destruct d as [|? d]; [discriminate|]); destruct d; [|discriminate].
  set (packet := b0 :: _).
  assert (length packet = 40 + length r)%nat as Hlen by done.
  unfold parseFlowKeyIPv6, ipv6HeaderLen. rewrite Hlen.
  destruct (Nat.ltb_spec (40 + length r) 40); [lia|].
  change (packet !! 6%nat) with (Some proto). rewrite !slice_chk_ok by lia.
  cbn [mbind option_bind]. cbv zeta. unfold finish. cbn [k_Proto].
  destruct ((proto =? _) || _); [|done]. f_equal.
  unfold slice. rewrite take_ge by (rewrite length_drop; lia). done.
Qed.

Lemma finish_Some icmp bad key t : is_Some (finish icmp bad key t).
Proof. unfold finish. rewrite setPorts_eq. repeat case_match; eauto. Qed.

Lemma finish_Ok icmp bad proto sa da t key :
  icmp ≠ ProtoTCP → icmp ≠ ProtoUDP → wf_bytes t →
  finish icmp bad (mkKey proto sa 0 da 0) t = Some (Ok key) ↔
  ∃ sp dp, transport icmp proto sp dp t ∧ key = mkKey proto sa sp da dp.
Proof.
  intros Ht Hu Hwf. unfold finish. cbn [k_Proto]. split.
  - destruct ((proto =? ProtoTCP) || (proto =? ProtoUDP)) eqn:Hp.
    + rewrite setPorts_eq. destruct (Nat.ltb_spec (length t) 4) as [|Hl]; [done|]. intros [= <-].
      do 4 (destruct t as [|? t]; [simpl in Hl; lia|]).
      exists (be_get [z; z0]), (be_get [z1; z2]). split; [|done].
      assert (wf_bytes [z; z0] ∧ wf_bytes [z1; z2]) as [H1 H2].
      { unfold wf_bytes in *. rewrite !Forall_cons in *. naive_solver. }
      assert (z :: z0 :: z1 :: z2 :: t = be_put 2 (be_get [z; z0]) ++ be_put 2 (be_get [z1; z2]) ++ t) as ->.
      { pose proof (be_put_get _ H1) as E1. pose proof (be_put_get _ H2) as E2.
        cbn [length] in E1, E2. by rewrite E1, E2. }
      apply transport_ports; [|exact (be_get_bound _ H1)|exact (be_get_bound _ H2)].
      apply orb_true_iff in Hp as [->%Z.eqb_eq| ->%Z.eqb_eq]; auto.
    + destruct (Z.eqb_spec proto icmp) as [->|]; [|done]. intros [= <-].
      do 2 eexists. split; [constructor|done].
  - intros (sp & dp & Htr & ->). inversion Htr as [????? Hsp Hdp|]; subst.
    + replace ((proto =? ProtoTCP) || (proto =? ProtoUDP)) with true
        by (symmetry; apply orb_true_iff; rewrite !Z.eqb_eq; done).
      rewrite setPorts_eq.
      destruct (Nat.ltb_spec (length (be_put 2 sp ++ be_put 2 dp ++ rest)) 4); [simpl in *; lia|].
      change (take 2 (drop 2 _)) with (be_put 2 dp). change (take 2 (_ ++ _)) with (be_put 2 sp).
      by rewrite (be_get_put 2 sp 16), (be_get_put 2 dp 16).
    + apply Z.eqb_neq in Ht, Hu. by rewrite Ht, Hu, Z.eqb_refl.
Qed.

Lemma wf_bytes_app a b : wf_bytes (a ++ b) ↔ wf_bytes a ∧ wf_bytes b.
Proof. apply Forall_app. Qed.
Lemma wf_bytes_cons x b : wf_bytes (x :: b) ↔ is_u8 x ∧ wf_bytes b.
Proof. apply Forall_cons. Qed.

(** Cutting [n] bytes off the front. *)
Lemma cut (n : nat) (l : bytes) : (n ≤ length l)%nat → ∃ a r, l = a ++ r ∧ length a = n ∧ (length r = length l - n)%nat.
Proof.
  intros. exists (take n l), (drop n l). rewrite take_drop, length_take, length_drop. split_and!; lia || done.
Qed.

Lemma cut4 (packet : bytes) : (20 ≤ length packet)%nat →
  ∃ b0 h proto ck s d r, packet = b0 :: h ++ proto :: ck ++ s ++ d ++ r ∧
    length h = 8%nat ∧ length ck = 2%nat ∧ length s = 4%nat ∧ length d = 4%nat.
Proof.
  intros Hl. destruct packet as [|b0 l]; simpl in Hl; [lia|].
  destruct (cut 8 l) as (h & l1 & -> & Hh & H1); [lia|].
  destruct l1 as [|proto l1]; simpl in *; [lia|].
  destruct (cut 2 l1) as (ck & l2 & -> & Hck & H2); [lia|].
  destruct (cut 4 l2) as (s & l3 & -> & Hs & H3); [lia|].
  destruct (cut 4 l3) as (d & r & -> & Hd & H4); [lia|].
  by exists b0, h, proto, ck, s, d, r.
Qed.

Lemma cut6 (packet : bytes) : (40 ≤ length packet)%nat →
  ∃ b0 h proto hop s d r, packet = b0 :: h ++ proto :: hop :: s ++ d ++ r ∧
    length h = 5%nat ∧ length s = 16%nat ∧ length d = 16%nat.
Proof.
  intros Hl. destruct packet as [|b0 l]; simpl in Hl; [lia|].
  destruct (cut 5 l) as (h & l1 & -> & Hh & H1); [lia|].
  destruct l1 as [|proto [|hop l1]]; simpl in *; [lia|lia|].
  destruct (cut 16 l1) as (s & l2 & -> & Hs & H2); [lia|].
  destruct (cut 16 l2) as (d & r & -> & Hd & H3); [lia|].
  by exists b0, h, proto, hop, s, d, r.
Qed.

(** A byte is its two nibbles. *)
Lemma nibbles b : is_u8 b → b = 16 * Z.shiftr b 4 + Z.land b 15 ∧ 0 ≤ Z.land b 15 < 16.
Proof.
  intros Hb. unfold fits in Hb. change 15 with (Z.ones 4). rewrite Z.land_ones by lia.
  rewrite Z.shiftr_div_pow2 by lia. change (2 ^ 4) with 16.
  split; [apply Z.div_mod; lia | apply Z.mod_pos_bound; lia].
Qed.

Lemma high_low_nibble hi lo : 0 ≤ lo < 16 → Z.shiftr (16 * hi + lo) 4 = hi ∧ Z.land (16 * hi + lo) 15 = lo.
Proof.
  intros Hlo. change 15 with (Z.ones 4). rewrite Z.land_ones, Z.shiftr_div_pow2 by lia. change (2 ^ 4) with 16.
  rewrite Z.mul_comm. split; [rewrite Z.div_add_l by lia; rewrite (Z.div_small lo) by lia; lia|].
  rewrite Z.add_comm, Z.mod_add by lia. by apply Z.mod_small.
Qed.

Lemma parse_total packet : is_Some (ParseFlowKey packet).
Proof.
  unfold ParseFlowKey. destruct packet as [|b0 l] eqn:E; [simpl; eauto|].
  cbn [length]. destruct (Nat.ltb_spec (S (length l)) 1); [lia|]. cbn [lookup list_lookup mbind option_bind].
  rewrite <- E. destruct (_ =? 4); [|destruct (_ =? 6); [|eauto]].
  - destruct (decide (20 ≤ length packet)%nat) as [Hl|Hl].
    + destruct (cut4 packet Hl) as (?&?&?&?&?&?&?&->&?&?&?&?). rewrite parse4_pieces by done.
      cbv zeta. case_match; [eauto|apply finish_Some].
    + unfold parseFlowKeyIPv4. destruct (Nat.ltb_spec (length packet) 20); [eauto|lia].
  - destruct (decide (40 ≤ length packet)%nat) as [Hl|Hl].
    + destruct (cut6 packet Hl) as (?&?&?&?&?&?&?&->&?&?&?). rewrite parse6_pieces by done.
      apply finish_Some.
    + unfold parseFlowKeyIPv6, ipv6HeaderLen. destruct (Nat.ltb_spec (length packet) 40); [eauto|lia].
Qed.

Lemma ParseFlowKey_version b0 l :
  ParseFlowKey (b0 :: l) =
  if Z.shiftr b0 4 =? 4 then parseFlowKeyIPv4 (b0 :: l)
  else if Z.shiftr b0 4 =? 6 then parseFlowKeyIPv6 (b0 :: l)
  else Some (Err (UnrecognizedVersion (Z.shiftr b0 4))).
Proof. done. Qed.

Lemma parse_carries packet key : wf_bytes packet → carries packet key → ParseFlowKey packet = Some (Ok key).
Proof.
  intros Hwf Hc. destruct Hc as [k h ck opts tr proto src dst sp dp Hk Hh Hck Ho Hs Hd Ht
                                |lo h hop tr proto src dst sp dp Hlo Hh Hs Hd Ht];
    rewrite ParseFlowKey_version.
  - replace (69 + Z.of_nat k) with (16 * 4 + (5 + Z.of_nat k)) by lia.
    destruct (high_low_nibble 4 (5 + Z.of_nat k)) as [E1 E2]; [lia|]. rewrite E1. cbn [Z.eqb Pos.eqb].
    rewrite parse4_pieces by (rewrite ?length_be_put; done). cbv zeta. rewrite E2, length_app.
    replace (Z.to_nat (5 + Z.of_nat k) * 4)%nat with (20 + 4 * k)%nat by lia.
    destruct (Nat.ltb_spec (20 + 4 * k) 20), (Nat.ltb_spec (20 + (length opts + length tr)) (20 + 4 * k)); try lia.
    cbn [orb]. replace (20 + 4 * k - 20)%nat with (length opts) by lia. rewrite drop_app_length.
    unfold AddrFrom4. rewrite !(be_get_put 4 _ 32) by done.
    apply finish_Ok; [done|done| |by eauto].
    rewrite !wf_bytes_cons, !wf_bytes_app, !wf_bytes_cons, !wf_bytes_app in Hwf. tauto.
  - replace (96 + lo) with (16 * 6 + lo) by lia.
    destruct (high_low_nibble 6 lo Hlo) as [E1 E2]. rewrite E1. cbn [Z.eqb Pos.eqb].
    rewrite parse6_pieces by (rewrite ?length_be_put; done).
    unfold AddrFrom16. rewrite !(be_get_put 16 _ 128) by done.
    apply finish_Ok; [done|done| |by eauto].
    rewrite !wf_bytes_cons, !wf_bytes_app, !wf_bytes_cons, !wf_bytes_app in Hwf. tauto.
Qed.

(** Bytes are the encoding of the number they stand for. *)
Lemma be_get_exact (n : nat) s :
  length s = n → wf_bytes s → be_put n (be_get s) = s ∧ fits (8 * Z.of_nat n) (be_get s).
Proof.
  intros <- Hwf. split; [by apply be_put_get|]. pose proof (be_get_bound s Hwf).
  unfold fits. by rewrite Z.pow_mul_r by lia.
Qed.

Lemma parse4_carries packet b0 l key :
  packet = b0 :: l → wf_bytes packet → Z.shiftr b0 4 = 4 →
  parseFlowKeyIPv4 packet = Some (Ok key) → carries packet key.
Proof.
  intros Ep Hwf Hv. destruct (decide (20 ≤ length packet)%nat) as [Hl|Hl]; cycle 1.
  { unfold parseFlowKeyIPv4. destruct (Nat.ltb_spec (length packet) 20); [done|lia]. }
  destruct (cut4 packet Hl) as (b&h&proto&ck&s&d&r&E&Hh&Hck&Hs&Hd). rewrite E in *. injection Ep as <- <-.
  rewrite parse4_pieces by done. cbv zeta.
  rewrite wf_bytes_cons, wf_bytes_app, wf_bytes_cons, !wf_bytes_app in Hwf. destruct_and! Hwf.
  destruct (nibbles b) as [Eb Hb]; [done|]. set (ihl := (Z.to_nat (Z.land b 15) * 4)%nat).
  destruct ((ihl <? 20)%nat || _) eqn:Hi; [done|].
  apply orb_false_iff in Hi as [Hi1%Nat.ltb_ge Hi2%Nat.ltb_ge].
  rewrite finish_Ok by (done || by apply Forall_drop). intros (sp & dp & Ht & ->).
  destruct (be_get_exact 4 s) as [Es Fs], (be_get_exact 4 d) as [Ed Fd]; try done.
  rewrite <- (take_drop (ihl - 20) r) at 1. rewrite <- Es at 1. rewrite <- Ed at 1.
  replace b with (69 + Z.of_nat (Z.to_nat (Z.land b 15) - 5)) by lia.
  apply carries4; try done; try lia. rewrite length_take. lia.
Qed.

Lemma parse6_carries packet b0 l key :
  packet = b0 :: l → wf_bytes packet → Z.shiftr b0 4 = 6 →
  parseFlowKeyIPv6 packet = Some (Ok key) → carries packet key.
Proof.
  intros Ep Hwf Hv. destruct (decide (40 ≤ length packet)%nat) as [Hl|Hl]; cycle 1.
  { unfold parseFlowKeyIPv6, ipv6HeaderLen. destruct (Nat.ltb_spec (length packet) 40); [done|lia]. }
  destruct (cut6 packet Hl) as (b&h&proto&hop&s&d&r&E&Hh&Hs&Hd). rewrite E in *. injection Ep as <- <-.
  rewrite parse6_pieces by done.
  rewrite wf_bytes_cons, wf_bytes_app, !wf_bytes_cons, !wf_bytes_app in Hwf. destruct_and! Hwf.
  destruct (nibbles b) as [Eb Hb]; [done|].
  rewrite finish_Ok by done. intros (sp & dp & Ht & ->).
  destruct (be_get_exact 16 s) as [Es Fs], (be_get_exact 16 d) as [Ed Fd]; try done.
  rewrite <- Es at 1. rewrite <- Ed at 1. replace b with (96 + Z.land b 15) by lia.
  by apply carries6.
Qed.

(** ** Properties: the parser *)

(** C38: ParseFlowKey never indexes out of range, whatever the packet, and it
    returns a key exactly for the packets that carry that flow: an IPv4
    header with any options, or an IPv6 header, in front of a TCP or UDP
    header with the key's ports, or of an ICMP message of the same family. *)
Theorem ParseFlowKey_correct packet :
  wf_bytes packet →
  is_Some (ParseFlowKey packet) ∧
  ∀ key, ParseFlowKey packet = Some (Ok key) ↔ carries packet key.
Proof.
  intros Hwf. split; [apply parse_total|]. intros key. split; [|by apply parse_carries].
  destruct packet as [|b0 l] eqn:E; [done|]. rewrite ParseFlowKey_version.
  destruct (Z.eqb_spec (Z.shiftr b0 4) 4) as [Hv|]; [by eapply parse4_carries|].
  destruct (Z.eqb_spec (Z.shiftr b0 4) 6) as [Hv|]; [by eapply parse6_carries|]. done.
Qed.

(** A UDP packet from 10.0.0.1:53 to 10.0.0.2:4000 with four bytes of IP options. *)
Definition demo_packet : bytes :=
  [70; 0; 0; 36; 0; 0; 0; 0; 64; 17; 0; 0; 10; 0; 0; 1; 10; 0; 0; 2; 1; 1; 1; 0] ++ [0; 53; 15; 160; 0; 12; 0; 0].

Lemma ParseFlowKey_correct_witness :
  carries demo_packet (mkKey 17 (Addr4 167772161) 53 (Addr4 167772162) 4000).
Proof.
  apply (ParseFlowKey_correct demo_packet); [|vm_compute; exact eq_refl].
  repeat constructor; vm_compute; congruence.
Defined.

(** ** Runs of operations on the two tables *)

Inductive flow_op :=
| OpEgress (now : Time) (key : FlowKey)
| OpLookup (key : FlowKey)
| OpSnapshot (key : FlowKey)
| OpLen
| OpEvictIdle (now : Time).

Inductive flow_answer :=
| AnsEgress (egress : string)
| AnsLookup (egress : option string)
| AnsSnapshot (entry : option FlowEntry)
| AnsCount (n : nat).

Definition ft_do (op : flow_op) (t : FlowTable) : flow_answer * FlowTable :=
  match op with
  | OpEgress now key => let '(e, t') := ft_Egress now key t in (AnsEgress e, t')
  | OpLookup key => (AnsLookup (ft_Lookup key t), t)
  | OpSnapshot key => (AnsSnapshot (ft_Snapshot key t), t)
  | OpLen => (AnsCount (ft_Len t), t)
  | OpEvictIdle now => let '(n, t') := ft_EvictIdle now t in (AnsCount n, t')
  end.

(** The shards read the same instant in one [EvictIdle]. *)
Definition s_do (op : flow_op) (s : ShardedFlowTable) : option (flow_answer * ShardedFlowTable) :=
  match op with
  | OpEgress now key => '(e, s') ← s_Egress now key s; Some (AnsEgress e, s')
  | OpLookup key => a ← s_Lookup key s; Some (AnsLookup a, s)
  | OpSnapshot key => a ← s_Snapshot key s; Some (AnsSnapshot a, s)
  | OpLen => Some (AnsCount (s_Len s), s)
  | OpEvictIdle now => let '(n, s') := s_EvictIdle (λ _, now) s in Some (AnsCount n, s')
  end.

Fixpoint ft_run (ops : list flow_op) (t : FlowTable) : list flow_answer * FlowTable :=
  match ops with
  | [] => ([], t)
  | op :: ops => let '(a, t') := ft_do op t in let '(l, t'') := ft_run ops t' in (a :: l, t'')
  end.
Fixpoint s_run (ops : list flow_op) (s : ShardedFlowTable) : option (list flow_answer * ShardedFlowTable) :=
  match ops with
  | [] => Some ([], s)
  | op :: ops => '(a, s') ← s_do op s; '(l, s'') ← s_run ops s'; Some (a :: l, s'')
  end.

(** ** Lemmas: maps split over shards *)

Section split.
Context {K A : Type} `{Countable K} (home : K → nat).

(** Every key of the [i]-th map has home [off + i]. *)
Definition homed (off : nat) (ms : list (gmap K A)) : Prop :=
  ∀ i m k, ms !! i = Some m → is_Some (m !! k) → home k = (off + i)%nat.

Lemma homed_cons off m ms :
  homed off (m :: ms) → (∀ k, is_Some (m !! k) → home k = off) ∧ homed (S off) ms.
Proof.
  intros Hh. split.
  - intros k Hk. rewrite (Hh 0%nat m k eq_refl Hk). lia.
  - intros i m' k Hi Hk. rewrite (Hh (S i) m' k Hi Hk). lia.
Qed.

Lemma homed_lookup off ms k x :
  homed off ms → (⋃ ms) !! k = Some x → ∃ i m, ms !! i = Some m ∧ m !! k = Some x ∧ home k = (off + i)%nat.
Proof.
  revert off. induction ms as [|m ms IH]; intros off Hh; simpl; [by rewrite lookup_empty|].
  apply homed_cons in Hh as [Hm Hms]. rewrite lookup_union_Some_raw. intros [Hk|[_ Hk]].
  - exists 0%nat, m. split_and!; [done..|]. rewrite (Hm k) by eauto. lia.
  - destruct (IH _ Hms Hk) as (i & m' & Hi & Hk' & Hik). exists (S i), m'. split_and!; [done..|lia].
Qed.

Lemma homed_disjoint off m ms : homed off (m :: ms) → m ##ₘ ⋃ ms.
Proof.
  intros [Hm Hms]%homed_cons. apply map_disjoint_spec. intros k x y Hx Hy.
  apply (homed_lookup (S off)) in Hy as (i & m' & _ & _ & Hi); [|done].
  rewrite (Hm k) in Hi by eauto. lia.
Qed.

Lemma homed_size off ms : homed off ms → size (⋃ ms) = sum_list (size <$> ms).
Proof.
  revert off. induction ms as [|m ms IH]; intros off Hh; simpl; [apply map_size_empty|].
  rewrite map_size_disj_union by (by eapply homed_disjoint).
  apply homed_cons in Hh as [_ Hms]. by rewrite (IH (S off)).
Qed.

Lemma homed_at off ms i m k :
  homed off ms → ms !! i = Some m → home k = (off + i)%nat → (⋃ ms) !! k = m !! k.
Proof.
  intros Hh Hi Hk. apply option_eq. intros x. split.
  - intros (j & m' & Hj & Hx & Hkj)%(homed_lookup off); [|done].
    assert (i = j) as <- by lia. by simplify_eq.
  - intros Hx. revert off i Hh Hi Hk. induction ms as [|m' ms IH]; intros off i Hh Hi Hk; [done|].
    simpl. rewrite lookup_union_Some by (by eapply homed_disjoint).
    destruct i as [|i]; simplify_eq/=; [by left|right].
    apply homed_cons in Hh as [_ Hms]. apply (IH (S off) i); [done..|lia].
Qed.
End split.

Lemma imap_const {A B} (f : A → B) l : imap (λ _ x, f x) l = f <$> l.
Proof. induction l as [|x l IH]; [done|]. rewrite imap_cons. cbn. f_equal. exact IH. Qed.

(** ** Lemmas: a sharded table and the table it stands for *)

Definition home (n : nat) (key : FlowKey) : nat := Z.to_nat (hashFlowKey key mod Z.of_nat n).

Record shards_of (s : ShardedFlowTable) (t : FlowTable) : Prop := {
  so_pos : ShardCount s ≠ 0%nat;
  so_cfg : Forall (λ sh, ft_policy sh = ft_policy t ∧ ft_idleTTL sh = ft_idleTTL t) (shards s);
  so_homed : homed (home (ShardCount s)) 0 (ft_flows <$> shards s);
  so_flows : ft_flows t = ⋃ (ft_flows <$> shards s);
}.

Lemma home_lt n key : n ≠ 0%nat → (home n key < n)%nat.
Proof.
  intros. unfold home. pose proof (Z.mod_pos_bound (hashFlowKey key) (Z.of_nat n)). lia.
Qed.

Lemma ShardIndex_home s key : ShardCount s ≠ 0%nat → ShardIndex s key = Some (home (ShardCount s) key).
Proof. intros ?%Nat.eqb_neq. unfold ShardIndex. by case_match. Qed.

Lemma shard_at s t key :
  shards_of s t →
  ∃ sh, shards s !! home (ShardCount s) key = Some sh ∧ ft_flows t !! key = ft_flows sh !! key ∧
        ft_policy sh = ft_policy t ∧ ft_idleTTL sh = ft_idleTTL t.
Proof.
  intros [Hpos Hcfg Hh Hf]. destruct (lookup_lt_is_Some_2 (shards s) (home (ShardCount s) key)) as [sh Hsh];
    [by apply home_lt|].
  exists sh. rewrite Forall_lookup in Hcfg. destruct (Hcfg _ _ Hsh). split_and!; try done.
  rewrite Hf. apply (homed_at (home (ShardCount s)) 0 _ (home (ShardCount s) key)); [done| |lia].
  by rewrite list_lookup_fmap, Hsh.
Qed.

(** Two families of maps with the same number of shards and the same
    contents at every key's home have the same union. *)
Lemma union_eq n ms (m : gmap FlowKey FlowEntry) :
  length ms = n → n ≠ 0%nat → homed (home n) 0 ms →
  (∀ k mi, ms !! home n k = Some mi → mi !! k = m !! k) → m = ⋃ ms.
Proof.
  intros Hl Hn Hh Hk. apply map_eq. intros k.
  destruct (lookup_lt_is_Some_2 ms (home n k)) as [mi Hmi]; [rewrite Hl; by apply home_lt|].
  rewrite (homed_at (home n) 0 ms (home n k) mi) by (done || lia). by rewrite (Hk k mi).
Qed.

Lemma egress_simulates now key s t :
  shards_of s t →
  ∃ s', s_Egress now key s = Some ((ft_Egress now key t).1, s') ∧ shards_of s' (ft_Egress now key t).2.
Proof.
  intros Hso. destruct (shard_at s t key Hso) as (sh & Hsh & Hk & Hp & Ht).
  destruct Hso as [Hpos Hcfg Hh Hf]. unfold s_Egress.
  rewrite ShardIndex_home by done. cbn [mbind option_bind]. rewrite Hsh. cbn [mbind option_bind].
  unfold ft_Egress. rewrite Hk, Hp. set (e := match ft_flows sh !! key with Some _ => _ | None => _ end).
  eexists. split; [done|]. cbn [snd]. set (i := home (ShardCount s) key) in *.
  set (sh' := with_flows sh _).
  assert (homed (home (ShardCount s)) 0 (ft_flows <$> <[i := sh']> (shards s))) as Hh'.
  { intros j m k Hj Hs. rewrite list_lookup_fmap_Some in Hj. destruct Hj as (x & -> & Hx).
    apply list_lookup_insert_Some in Hx as [(<- & <- & _)|[_ Hx]].
    - cbn [sh' with_flows ft_flows] in Hs. rewrite lookup_insert_is_Some in Hs.
      destruct Hs as [<-|[_ Hs]]; [done|]. apply (Hh i (ft_flows sh)); [|done]. by rewrite list_lookup_fmap, Hsh.
    - apply (Hh j (ft_flows x)); [|done]. by rewrite list_lookup_fmap, Hx. }
  assert (ShardCount (mkSharded (<[i := sh']> (shards s))) = ShardCount s) as Hn by apply length_insert.
  split; cbn [ft_flows ft_policy ft_idleTTL with_flows shards]; rewrite ?Hn; try done.
  - by apply Forall_insert.
  - apply (union_eq (ShardCount s)); [by rewrite length_fmap, length_insert|done|done|].
    intros k mi Hmi. rewrite list_lookup_fmap_Some in Hmi. destruct Hmi as (x & -> & Hx).
    destruct (decide (k = key)) as [->|Hne].
    + rewrite lookup_insert_eq. fold i in Hx. apply list_lookup_insert_Some in Hx as [(_ & <- & _)|[? _]]; [|done].
      cbn [sh' with_flows ft_flows]. by rewrite lookup_insert_eq.
    + rewrite lookup_insert_ne by done. apply list_lookup_insert_Some in Hx as [(Hik & <- & _)|[_ Hx]].
      * cbn [sh' with_flows ft_flows]. rewrite lookup_insert_ne, Hf by done. symmetry.
        apply (homed_at (home (ShardCount s)) 0 _ i); [done| |lia]. by rewrite list_lookup_fmap, Hsh.
      * rewrite Hf. symmetry. apply (homed_at (home (ShardCount s)) 0 _ (home (ShardCount s) k)); [done| |lia].
        by rewrite list_lookup_fmap, Hx.
Qed.

Lemma homed_filter (P : FlowKey * FlowEntry → Prop) `{∀ kv, Decision (P kv)} n ms :
  homed (home n) 0 ms → homed (home n) 0 (filter P <$> ms).
Proof.
  intros Hh j m k Hj [x Hx]. rewrite list_lookup_fmap_Some in Hj. destruct Hj as (m' & -> & Hm').
  apply map_lookup_filter_Some in Hx as [Hx _]. apply (Hh j m'); eauto.
Qed.

Lemma union_filter (P : FlowKey * FlowEntry → Prop) `{∀ kv, Decision (P kv)} n ms :
  length ms = n → n ≠ 0%nat → homed (home n) 0 ms → filter P (⋃ ms) = ⋃ (filter P <$> ms).
Proof.
  intros Hl Hn Hh. apply (union_eq n); [by rewrite length_fmap|done|by apply homed_filter|].
  intros k mi Hmi. rewrite list_lookup_fmap_Some in Hmi. destruct Hmi as (m' & -> & Hm').
  rewrite !map_lookup_filter. by rewrite (homed_at (home n) 0 ms (home n k) m') by (done || lia).
Qed.

Lemma evict_simulates now s t :
  shards_of s t →
  (s_EvictIdle (λ _, now) s).1 = (ft_EvictIdle now t).1 ∧
  shards_of (s_EvictIdle (λ _, now) s).2 (ft_EvictIdle now t).2.
Proof.
  intros [Hpos Hcfg Hh Hf]. unfold s_EvictIdle. rewrite imap_const. cbn [fst snd].
  set (cutoff := time_Add now (- ft_idleTTL t)).
  assert (ft_EvictIdle now <$> shards s =
          (λ sh, if ft_idleTTL t <=? 0 then (0%nat, sh)
                 else (size (filter (λ kv, idle cutoff kv.2 = true) (ft_flows sh)),
                       with_flows sh (filter (λ kv, idle cutoff kv.2 = false) (ft_flows sh)))) <$> shards s) as ->.
  { apply list_fmap_ext. intros i sh Hi. rewrite Forall_lookup in Hcfg. destruct (Hcfg _ _ Hi) as [_ Ht].
    unfold ft_EvictIdle. by rewrite Ht. }
  unfold ft_EvictIdle. rewrite <- !list_fmap_compose. destruct (ft_idleTTL t <=? 0); cbn [fst snd].
  - split; [clear; by induction (shards s) as [|x l IH]|].
    unfold compose. cbn [snd]. rewrite list_fmap_id. by destruct s.
  - assert (length (ft_flows <$> shards s) = ShardCount s) as Hl by apply length_fmap.
    split.
    + rewrite Hf, (union_filter _ (ShardCount s)) by done.
      rewrite (homed_size (home (ShardCount s)) 0) by (by apply homed_filter).
      by rewrite <- !list_fmap_compose.
    + split; cbn [shards ft_flows ft_policy ft_idleTTL with_flows].
      * unfold ShardCount. cbn [shards]. by rewrite length_fmap.
      * apply Forall_fmap. eapply Forall_impl; [exact Hcfg|]. done.
      * replace (ShardCount _) with (ShardCount s) by (unfold ShardCount; cbn [shards]; by rewrite length_fmap).
        rewrite <- list_fmap_compose. apply (homed_filter (λ kv, idle cutoff kv.2 = false)) in Hh.
        by rewrite <- list_fmap_compose in Hh.
      * rewrite Hf, (union_filter _ (ShardCount s)) by done. f_equal. by rewrite <- !list_fmap_compose.
Qed.

Lemma do_simulates op s t :
  shards_of s t → ∃ s', s_do op s = Some ((ft_do op t).1, s') ∧ shards_of s' (ft_do op t).2.
Proof.
  intros Hso. destruct op as [now key|key|key| |now]; cbn [s_do ft_do].
  - destruct (egress_simulates now key s t Hso) as (s' & E & Hs'). rewrite E. exists s'.
    clear E. by destruct (ft_Egress now key t).
  - destruct (shard_at s t key Hso) as (sh & Hsh & Hk & _). unfold s_Lookup.
    rewrite ShardIndex_home by apply Hso. cbn. rewrite Hsh. cbn. exists s. unfold ft_Lookup. by rewrite Hk.
  - destruct (shard_at s t key Hso) as (sh & Hsh & Hk & _). unfold s_Snapshot.
    rewrite ShardIndex_home by apply Hso. cbn. rewrite Hsh. cbn. exists s. unfold ft_Snapshot. by rewrite Hk.
  - exists s. split; [|done]. unfold s_Len, ft_Len. rewrite (so_flows _ _ Hso).
    rewrite (homed_size (home (ShardCount s)) 0) by apply Hso. by rewrite <- list_fmap_compose.
  - destruct (evict_simulates now s t Hso) as [H1 H2].
    destruct (s_EvictIdle _ s) as [n s'], (ft_EvictIdle now t) as [n' t']. cbn in *. subst. eauto.
Qed.

Lemma run_simulates ops s t :
  shards_of s t → ∃ s', s_run ops s = Some ((ft_run ops t).1, s') ∧ shards_of s' (ft_run ops t).2.
Proof.
  revert s t. induction ops as [|op ops IH]; intros s t Hso; cbn [s_run ft_run]; [by eauto|].
  destruct (do_simulates op s t Hso) as (s1 & -> & H1). cbn. destruct (ft_do op t) as [a t1]. cbn in *.
  destruct (IH s1 t1 H1) as (s2 & -> & H2). cbn. destruct (ft_run ops t1) as [l t2]. eauto.
Qed.

Lemma new_shards_of numCPU shardCount policy ttl :
  (0 < numCPU)%nat → shards_of (NewShardedFlowTable numCPU shardCount policy ttl) (NewFlowTable policy ttl).
Proof.
  intros Hcpu. unfold NewShardedFlowTable. cbv zeta. set (n := if shardCount <=? 0 then _ else _).
  assert (n ≠ 0)%nat as Hn by (unfold n; destruct (Z.leb_spec shardCount 0); lia).
  assert (homed (home n) 0 (ft_flows <$> replicate n (NewFlowTable policy ttl))) as Hh.
  { intros i m k Hi. rewrite fmap_replicate in Hi. apply lookup_replicate_1 in Hi as [-> _].
    cbn. rewrite lookup_empty. by intros []. }
  split; cbn [shards]; unfold ShardCount; cbn [shards]; rewrite ?length_replicate; try done.
  - by apply Forall_replicate.
  - apply (union_eq n); [by rewrite length_fmap, length_replicate|done|done|].
    intros k mi Hi. rewrite fmap_replicate in Hi. apply lookup_replicate_1 in Hi as [-> _]. done.
Qed.

(** ** Properties: the tables *)

(** C31: a sharded flow table, with any shard count, answers every sequence of
    Egress, Lookup, Snapshot, Len and EvictIdle calls exactly as one flow
    table would, and never indexes a shard that does not exist. *)
Theorem sharded_refines_table numCPU shardCount policy ttl ops :
  (0 < numCPU)%nat →
  fst <$> s_run ops (NewShardedFlowTable numCPU shardCount policy ttl) =
  Some (ft_run ops (NewFlowTable policy ttl)).1.
Proof.
  intros Hcpu. destruct (run_simulates ops _ _ (new_shards_of numCPU shardCount policy ttl Hcpu)) as (s' & -> & _).
  done.
Qed.

Lemma sharded_refines_table_witness :
  let k p := mkKey ProtoUDP (Addr4 167772161) p (Addr4 167772162) 53 in
  let ops := [OpEgress 10 (k 1); OpEgress 20 (k 2); OpEgress 70 (k 3); OpLen; OpEvictIdle 75; OpLookup (k 1); OpLen] in
  (fst <$> s_run ops (NewShardedFlowTable 8 3 (StaticEgressPolicy "e1") 50)) =
  Some (ft_run ops (NewFlowTable (StaticEgressPolicy "e1") 50)).1 ∧
  (ft_run ops (NewFlowTable (StaticEgressPolicy "e1") 50)).1 =
  [AnsEgress "e1"; AnsEgress "e1"; AnsEgress "e1"; AnsCount 3; AnsCount 2; AnsLookup None; AnsCount 1].
Proof. intros k ops. split; [apply (sharded_refines_table 8 3); lia|vm_compute; exact eq_refl]. Defined.

(** No [EvictIdle] of the run looks back past [seen], and the flow is not
    seen earlier than [seen] again. *)
Definition keeps (ttl : Duration) (key : FlowKey) (seen : Time) (op : flow_op) : Prop :=
  match op with
  | OpEvictIdle now => now - ttl ≤ seen
  | OpEgress now key' => key' = key → seen ≤ now
  | _ => True
  end.

Lemma keeps_do ttl key seen op t e :
  ft_idleTTL t = ttl → keeps ttl key seen op →
  ft_flows t !! key = Some e → seen ≤ fe_LastSeen e →
  ft_idleTTL (ft_do op t).2 = ttl ∧
  ∃ e', ft_flows (ft_do op t).2 !! key = Some e' ∧ fe_EgressID e' = fe_EgressID e ∧ seen ≤ fe_LastSeen e' ∧
        ∀ now, op = OpEgress now key → (ft_do op t).1 = AnsEgress (fe_EgressID e).
Proof.
  intros Ht Hk He Hs. destruct op as [now key'|?|?| |now]; cbn [ft_do fst snd]; try by (split; [|exists e]; naive_solver).
  - unfold ft_Egress. cbn [fst snd with_flows ft_flows ft_idleTTL]. split; [done|].
    destruct (decide (key' = key)) as [->|Hne].
    + rewrite He, lookup_insert_eq. eexists. split; [done|]. cbn in *. naive_solver.
    + rewrite lookup_insert_ne by done. exists e. naive_solver.
  - unfold ft_EvictIdle. destruct (ft_idleTTL t <=? 0); cbn [fst snd with_flows ft_flows ft_idleTTL].
    + split; [done|]. exists e. naive_solver.
    + split; [done|]. exists e. split_and!; try done. apply map_lookup_filter_Some. split; [done|].
      cbn in *. unfold idle, time_Before, time_Add. apply Z.ltb_ge. lia.
Qed.

Lemma keeps_run ttl key seen ops t e :
  ft_idleTTL t = ttl → Forall (keeps ttl key seen) ops →
  ft_flows t !! key = Some e → seen ≤ fe_LastSeen e →
  ft_Lookup key (ft_run ops t).2 = Some (fe_EgressID e) ∧
  ∀ i now, ops !! i = Some (OpEgress now key) → (ft_run ops t).1 !! i = Some (AnsEgress (fe_EgressID e)).
Proof.
  intros Ht HF. revert t e Ht. induction HF as [|op ops Hop HF IH]; intros t e Ht He Hs; cbn [ft_run].
  - split; [|done]. unfold ft_Lookup. cbn. by rewrite He.
  - destruct (keeps_do ttl key seen op t e Ht Hop He Hs) as (Ht' & e' & He' & Hid & Hs' & Hans).
    destruct (ft_do op t) as [a t1]. cbn [fst snd] in *.
    destruct (IH t1 e' Ht' He' Hs') as [IH1 IH2]. destruct (ft_run ops t1) as [l t2]. cbn [fst snd] in *.
    rewrite Hid in *. split; [done|]. intros [|i] now Hi; cbn in Hi; [|by apply (IH2 i now)].
    injection Hi as ->. cbn. f_equal. by apply (Hans now).
Qed.

(** A flow stays on the egress it was given first. From a call of Egress
    at time [seen] on, whatever the other calls, every later Egress of the flow and the final Lookup return
    the same egress, as long as no eviction happens more than the idle time
    after [seen]. *)
Theorem flow_pinned t key seen ops :
  Forall (keeps (ft_idleTTL t) key seen) ops →
  ft_Lookup key (ft_run ops (ft_Egress seen key t).2).2 = Some (ft_Egress seen key t).1 ∧
  ∀ i now, ops !! i = Some (OpEgress now key) →
    (ft_run ops (ft_Egress seen key t).2).1 !! i = Some (AnsEgress (ft_Egress seen key t).1).
Proof.
  intros HF. unfold ft_Egress at 2 4. cbn [fst].
  set (e := match ft_flows t !! key with Some _ => _ | None => _ end).
  apply (keeps_run (ft_idleTTL t) key seen ops _ (mkEntry (fe_EgressID e) (fe_CreatedAt e) seen)); [done|done| |done].
  unfold ft_Egress. cbn. by rewrite lookup_insert_eq.
Qed.

Lemma flow_pinned_witness :
  let k p := mkKey ProtoUDP (Addr4 167772161) p (Addr4 167772162) 53 in
  let t := NewFlowTable (StaticEgressPolicy "e1") 50 in
  ft_Lookup (k 1) (ft_run [OpEgress 12 (k 2); OpEvictIdle 60; OpEgress 61 (k 1)] (ft_Egress 10 (k 1) t).2).2 = Some "e1".
Proof.
  intros k t. refine (proj1 (flow_pinned t (k 1) 10 [OpEgress 12 (k 2); OpEvictIdle 60; OpEgress 61 (k 1)] _)).
  repeat constructor; cbn; try lia.
Defined.
