(* ===== verification/FlowPool.v ===== *)
(** * The worker pool: PacketBatch and WorkerPool of internal/tunnel/shard.go

    [Submit] resets its scratch batches, scatters the packets over them by
    the shard of their flow, hands every used batch to its worker and waits
    for all of them. The workers run at the same time: a step lets any
    worker with packets left handle its next one, at any clock reading, so
    the steps cover every interleaving the goroutines can have. The log holds
    the calls of the pool's handler in the order they happen. *)

From S2P Require Import Prelude Netip Flow.

Record PacketBatch := mkBatch { pb_packets : list bytes; pb_cap : nat }.

Definition NewPacketBatch (capacity : nat) : PacketBatch := mkBatch [] capacity.
Definition pb_Reset (b : PacketBatch) : PacketBatch := mkBatch [] (pb_cap b).
Definition pb_Add (pkt : bytes) (b : PacketBatch) : bool * PacketBatch :=
  if (pb_cap b <=? length (pb_packets b))%nat then (false, b)
  else (true, mkBatch (pb_packets b ++ [pkt]) (pb_cap b)).
Definition pb_Len (b : PacketBatch) : nat := length (pb_packets b).

Record WorkerPool := mkPool {
  wp_table : ShardedFlowTable;
  wp_scratch : list PacketBatch;
  wp_used : list bool;
}.

Definition NewWorkerPool (table : ShardedFlowTable) (batchCapacity : nat) : WorkerPool :=
  let n := ShardCount table in
  mkPool table (replicate n (NewPacketBatch batchCapacity)) (replicate n false).

(** The first loop of [Submit]. *)
Definition submit_reset (p : WorkerPool) : WorkerPool :=
  mkPool (wp_table p) (pb_Reset <$> wp_scratch p) ((λ _, false) <$> wp_used p).

(** The second loop: a packet without a flow key is skipped, and so is one
    whose batch is full. *)
Fixpoint submit_scatter (table : ShardedFlowTable) (pkts : list bytes)
    (scratch : list PacketBatch) (used : list bool) : option (list PacketBatch * list bool) :=
  match pkts with
  | [] => Some (scratch, used)
  | pkt :: pkts =>
      r ← ParseFlowKey pkt;
      match r with
      | Err _ => submit_scatter table pkts scratch used
      | Ok key =>
          id ← ShardIndex table key;
          b ← scratch !! id;
          let '(added, b') := pb_Add pkt b in
          submit_scatter table pkts (<[id := b']> scratch) (if added then <[id := true]> used else used)
      end
  end.

(** One call of the handler: worker, key, egress and packet. *)
Record handled := mkHandled { hd_worker : nat; hd_key : FlowKey; hd_egress : string; hd_pkt : bytes }.

Record pool_state := mkPS {
  ps_table : ShardedFlowTable;
  ps_queues : list (list bytes);
  ps_log : list handled;
}.

(** What every worker has been sent when the last send of [Submit] is done. *)
Definition queue_of (used : bool) (b : PacketBatch) : list bytes := if used then pb_packets b else [].

Definition Submit (batch : PacketBatch) (p : WorkerPool) : option pool_state :=
  let p := submit_reset p in
  '(scratch, used) ← submit_scatter (wp_table p) (pb_packets batch) (wp_scratch p) (wp_used p);
  Some (mkPS (wp_table p) (zip_with queue_of used scratch) []).

(** [runWorker]: worker [id] handles the next packet of its batch. [None] when
    it has none, or on a panic. *)
Definition worker_step (id : nat) (now : Time) (st : pool_state) : option pool_state :=
  q ← ps_queues st !! id;
  match q with
  | [] => None
  | pkt :: rest =>
      r ← ParseFlowKey pkt;
      match r with
      | Err _ => Some (mkPS (ps_table st) (<[id := rest]> (ps_queues st)) (ps_log st))
      | Ok key =>
          shard ← shards (ps_table st) !! id;
          let '(egress, shard') := ft_Egress now key shard in
          Some (mkPS (mkSharded (<[id := shard']> (shards (ps_table st))))
                     (<[id := rest]> (ps_queues st))
                     (ps_log st ++ [mkHandled id key egress pkt]))
      end
  end.

Definition step (st st' : pool_state) : Prop := ∃ id now, worker_step id now st = Some st'.

(** [Submit] returns: every worker has reported its batch done. *)
Definition finished (st : pool_state) : Prop := Forall (λ q, q = []) (ps_queues st).

(** ** Specification *)

(** The packet's flow lives in shard [i] of [n]. *)
Definition goes_to (n i : nat) (pkt : bytes) : bool :=
  match ParseFlowKey pkt with
  | Some (Ok key) => (home n key =? i)%nat
  | _ => false
  end.

(** The packets worker [i] has handled, in order. *)
Definition handled_by (i : nat) (log : list handled) : list bytes :=
  hd_pkt <$> filter (λ h, hd_worker h = i) log.

(** The packets worker [i] is to handle. *)
Definition share (n i cap : nat) (pkts : list bytes) : list bytes :=
  take cap (filter (λ p, goes_to n i p = true) pkts).

Record pool_ok (cap : nat) (p : WorkerPool) : Prop := {
  po_pos : ShardCount (wp_table p) ≠ 0%nat;
  po_scratch : length (wp_scratch p) = ShardCount (wp_table p);
  po_used : length (wp_used p) = ShardCount (wp_table p);
  po_cap : Forall (λ b, pb_cap b = cap) (wp_scratch p);
}.

(** ** Lemmas *)

Lemma goes_to_inv n i pkt :
  goes_to n i pkt = true → ∃ key, ParseFlowKey pkt = Some (Ok key) ∧ home n key = i.
Proof.
  unfold goes_to. destruct (ParseFlowKey pkt) as [[key|]|] eqn:E; try done.
  intros ?%Nat.eqb_eq. eauto.
Qed.

(** Every batch of the scatter holds its share of the packets seen so far. *)
Lemma scatter_spec table cap pkts : ∀ scratch used n,
  ShardCount table = n → n ≠ 0%nat → length scratch = n → length used = n →
  (∀ i b u, scratch !! i = Some b → used !! i = Some u →
     pb_cap b = cap ∧ (length (pb_packets b) ≤ cap)%nat ∧ queue_of u b = pb_packets b) →
  ∃ scratch' used',
    submit_scatter table pkts scratch used = Some (scratch', used') ∧
    length scratch' = n ∧ length used' = n ∧
    ∀ i b u b', scratch !! i = Some b → scratch' !! i = Some b' → used' !! i = Some u →
      queue_of u b' = take cap (pb_packets b ++ filter (λ p, goes_to n i p = true) pkts).
Proof.
  induction pkts as [|pkt pkts IH]; intros scratch used n Hn Hpos Hls Hlu Hinv; cbn [submit_scatter].
  { exists scratch, used. split_and!; try done. intros i b u b' Hb Hb' Hu. simplify_eq.
    destruct (Hinv _ _ _ Hb Hu) as (_ & Hl & ->). rewrite filter_nil, app_nil_r, take_ge by lia. done. }
  destruct (parse_total pkt) as [r Hr]. rewrite Hr. cbn [mbind option_bind].
  destruct r as [key|e].
  - rewrite ShardIndex_home by lia. rewrite Hn. cbn [mbind option_bind].
    set (id := home n key). assert (id < n)%nat as Hid by (by apply home_lt).
    destruct (lookup_lt_is_Some_2 scratch id) as [b Hb]; [lia|].
    destruct (lookup_lt_is_Some_2 used id) as [u Hu]; [lia|].
    rewrite Hb. cbn [mbind option_bind]. destruct (Hinv _ _ _ Hb Hu) as (Hcap & Hlen & Hq).
    assert (∀ i, goes_to n i pkt = (id =? i)%nat) as Hgo by (intros i; unfold goes_to; by rewrite Hr).
    unfold pb_Add. rewrite Hcap. destruct (Nat.leb_spec cap (length (pb_packets b))) as [Hfull|Hroom].
    + rewrite list_insert_id by done. destruct (IH scratch used n) as (s' & u' & -> & ? & ? & Hres); try done.
      exists s', u'. split_and!; try done. intros i bi ui bi' Hi Hi' Hui.
      rewrite (Hres i bi ui bi') by done. rewrite filter_cons, Hgo. case_decide as Hc; [|done].
      apply Nat.eqb_eq in Hc as <-. simplify_eq. by rewrite !take_app_le by lia.
    + destruct (IH (<[id := mkBatch (pb_packets b ++ [pkt]) cap]> scratch) (<[id := true]> used) n)
        as (s' & u' & Hsc & ? & ? & Hres); rewrite ?length_insert; try done.
      { intros i bi ui Hi Hui. destruct (decide (i = id)) as [->|Hne].
        - rewrite list_lookup_insert_eq in Hi by lia. rewrite list_lookup_insert_eq in Hui by lia.
          simplify_eq/=. split_and!; [done|rewrite length_app; simpl; lia|done].
        - rewrite list_lookup_insert_ne in Hi by done. rewrite list_lookup_insert_ne in Hui by done. eauto. }
      exists s', u'. split_and!; try done. intros i bi ui bi' Hi Hi' Hui.
      rewrite filter_cons, Hgo. destruct (decide (i = id)) as [->|Hne].
      * rewrite (Hres id (mkBatch (pb_packets b ++ [pkt]) cap) ui bi') by (rewrite ?list_lookup_insert_eq by lia; done).
        simplify_eq/=. rewrite Nat.eqb_refl. by rewrite <- app_assoc.
      * rewrite (Hres i bi ui bi') by (rewrite ?list_lookup_insert_ne by done; done).
        assert ((id =? i)%nat = false) as -> by (apply Nat.eqb_neq; lia). done.
  - destruct (IH scratch used n) as (s' & u' & -> & ? & ? & Hres); try done.
    exists s', u'. split_and!; try done. intros i bi ui bi' Hi Hi' Hui.
    rewrite (Hres i bi ui bi') by done. rewrite filter_cons.
    assert (goes_to n i pkt = false) as -> by (unfold goes_to; by rewrite Hr). done.
Qed.

(** What holds between any two steps of the workers. *)
Record pool_inv (table : ShardedFlowTable) (cap : nat) (pkts : list bytes) (st : pool_state) : Prop := {
  pi_shards : ShardCount (ps_table st) = ShardCount table;
  pi_queues : length (ps_queues st) = ShardCount table;
  pi_share : ∀ i q, ps_queues st !! i = Some q →
    handled_by i (ps_log st) ++ q = share (ShardCount table) i cap pkts;
  pi_log : ∀ h, h ∈ ps_log st →
    ParseFlowKey (hd_pkt h) = Some (Ok (hd_key h)) ∧ home (ShardCount table) (hd_key h) = hd_worker h ∧
    ∃ shard, shards (ps_table st) !! hd_worker h = Some shard ∧ ft_Lookup (hd_key h) shard = Some (hd_egress h);
}.

Lemma share_goes n i cap pkts pkt :
  pkt ∈ share n i cap pkts → ∃ key, ParseFlowKey pkt = Some (Ok key) ∧ home n key = i.
Proof.
  intros Hin%(subseteq_take cap). apply list_elem_of_filter in Hin as [Hgo _]. by apply goes_to_inv.
Qed.

(** The packet at the head of a worker's queue is of its own shard. *)
Lemma head_goes table cap pkts st i pkt rest :
  pool_inv table cap pkts st → ps_queues st !! i = Some (pkt :: rest) →
  ∃ key, ParseFlowKey pkt = Some (Ok key) ∧ home (ShardCount table) key = i.
Proof.
  intros Hinv Hq. apply (share_goes (ShardCount table) i cap pkts). rewrite <- (pi_share _ _ _ _ Hinv i _ Hq).
  apply elem_of_app. right. left.
Qed.

Lemma worker_can_step table cap pkts st i pkt rest now :
  pool_inv table cap pkts st → ps_queues st !! i = Some (pkt :: rest) →
  ∃ key shard, ParseFlowKey pkt = Some (Ok key) ∧ shards (ps_table st) !! i = Some shard ∧
    worker_step i now st = Some (mkPS (mkSharded (<[i := (ft_Egress now key shard).2]> (shards (ps_table st))))
      (<[i := rest]> (ps_queues st)) (ps_log st ++ [mkHandled i key (ft_Egress now key shard).1 pkt])).
Proof.
  intros Hinv Hq. destruct (head_goes _ _ _ _ _ _ _ Hinv Hq) as (key & Hp & Hh).
  destruct (lookup_lt_is_Some_2 (shards (ps_table st)) i) as [shard Hsh].
  { fold (ShardCount (ps_table st)). rewrite (pi_shards _ _ _ _ Hinv), <- (pi_queues _ _ _ _ Hinv).
    by apply lookup_lt_Some in Hq. }
  exists key, shard. split_and!; try done. unfold worker_step.
  rewrite Hq. cbn [mbind option_bind]. rewrite Hp. cbn [mbind option_bind]. rewrite Hsh. done.
Qed.

Lemma Egress_Lookup_same now key t : ft_Lookup key (ft_Egress now key t).2 = Some (ft_Egress now key t).1.
Proof. unfold ft_Lookup, ft_Egress. cbn. by rewrite lookup_insert_eq. Qed.

(** Another packet of the same shard changes no flow's egress. *)
Lemma Egress_Lookup_keeps now key key' t e :
  ft_Lookup key' t = Some e → ft_Lookup key' (ft_Egress now key t).2 = Some e.
Proof.
  unfold ft_Lookup, ft_Egress. cbn. destruct (decide (key' = key)) as [->|Hne].
  - rewrite lookup_insert_eq. by destruct (ft_flows t !! key).
  - by rewrite lookup_insert_ne.
Qed.

Lemma handled_by_snoc i log h :
  handled_by i (log ++ [h]) = handled_by i log ++ (if decide (hd_worker h = i) then [hd_pkt h] else []).
Proof.
  unfold handled_by. rewrite filter_app, fmap_app. f_equal. rewrite filter_cons, filter_nil. by case_decide.
Qed.

Lemma step_inv table cap pkts st st' :
  pool_inv table cap pkts st → step st st' → pool_inv table cap pkts st'.
Proof.
  intros Hinv (i & now & Hstep).
  assert (∃ pkt rest, ps_queues st !! i = Some (pkt :: rest)) as (pkt & rest & Hq).
  { unfold worker_step in Hstep. destruct (ps_queues st !! i) as [[|pkt rest]|]; try done. eauto. }
  destruct (worker_can_step _ _ _ _ _ _ _ now Hinv Hq) as (key & shard & Hp & Hsh & Hstep').
  rewrite Hstep in Hstep'. injection Hstep' as ->.
  destruct (head_goes _ _ _ _ _ _ _ Hinv Hq) as (key' & Hp' & Hh).
  assert (key' = key) as -> by congruence.
  assert (i < length (shards (ps_table st)))%nat as Hlt by (by apply lookup_lt_Some in Hsh).
  destruct Hinv as [Hs Hl Hsr Hlg]. split; cbn [ps_table ps_queues ps_log shards].
  - unfold ShardCount in *. cbn [shards]. by rewrite length_insert.
  - by rewrite length_insert.
  - intros j q Hj. rewrite handled_by_snoc. cbn [hd_worker hd_pkt].
    apply list_lookup_insert_Some in Hj as [(<- & <- & _)|[Hne Hj]].
    + rewrite decide_True by done. rewrite <- app_assoc. exact (Hsr i _ Hq).
    + rewrite decide_False, app_nil_r by done. by apply Hsr.
  - intros h [Hin| ->]%elem_of_snoc.
    + destruct (Hlg h Hin) as (H1 & H2 & sh & H3 & H4). split_and!; try done.
      destruct (decide (hd_worker h = i)) as [Ei|Hne].
      * rewrite Ei in *. simplify_eq. eexists. split; [by apply list_lookup_insert_eq|]. by apply Egress_Lookup_keeps.
      * exists sh. split; [|done]. by rewrite list_lookup_insert_ne.
    + cbn [hd_pkt hd_key hd_worker hd_egress]. split_and!; try done.
      eexists. split; [by apply list_lookup_insert_eq|]. apply Egress_Lookup_same.
Qed.

Lemma reset_ok cap p : pool_ok cap p → pool_ok cap (submit_reset p).
Proof.
  intros [H1 H2 H3 H4]. split; cbn; rewrite ?length_fmap; try done.
  apply Forall_fmap. eapply Forall_impl; [exact H4|]. done.
Qed.

Lemma Submit_inv cap p batch :
  pool_ok cap p → ∃ st, Submit batch p = Some st ∧ pool_inv (wp_table p) cap (pb_packets batch) st.
Proof.
  intros Hok. destruct (reset_ok cap p Hok) as [H1 H2 H3 H4]. cbn [wp_table submit_reset] in *.
  assert (∀ i b u, wp_scratch (submit_reset p) !! i = Some b → wp_used (submit_reset p) !! i = Some u →
    pb_packets b = [] ∧ u = false) as Hempty.
  { intros i b u Hb Hu. cbn in Hb, Hu. rewrite list_lookup_fmap_Some in Hb. rewrite list_lookup_fmap_Some in Hu.
    destruct Hb as (? & -> & _), Hu as (? & -> & _). done. }
  destruct (scatter_spec (wp_table p) cap (pb_packets batch) (wp_scratch (submit_reset p))
              (wp_used (submit_reset p)) (ShardCount (wp_table p))) as (sc & us & Hsc & Hl1 & Hl2 & Hres); try done.
  { intros i b u Hb Hu. destruct (Hempty i b u Hb Hu) as [E ->]. rewrite Forall_lookup in H4.
    rewrite (H4 _ _ Hb). unfold queue_of. rewrite E. simpl. split_and!; [done|lia|done]. }
  unfold Submit. cbv zeta. cbn [wp_table submit_reset] in *. rewrite Hsc. cbn [mbind option_bind].
  eexists. split; [done|]. split; cbn [ps_table ps_queues ps_log]; try done.
  - rewrite length_zip_with. lia.
  - intros i q Hq. apply lookup_zip_with_Some in Hq as (u & b' & -> & Hu & Hb').
    destruct (lookup_lt_is_Some_2 (wp_scratch (submit_reset p)) i) as [b Hb].
    { rewrite H2, <- Hl1. by apply lookup_lt_Some in Hb'. }
    destruct (lookup_lt_is_Some_2 (wp_used (submit_reset p)) i) as [u0 Hu0].
    { rewrite H3, <- Hl1. by apply lookup_lt_Some in Hb'. }
    rewrite (Hres i b u b' Hb Hb' Hu). destruct (Hempty i b u0 Hb Hu0) as [-> _]. done.
  - intros h Hh. by apply not_elem_of_nil in Hh.
Qed.

Lemma queue_shrinks id now st st' :
  worker_step id now st = Some st' →
  S (sum_list (length <$> ps_queues st')) = sum_list (length <$> ps_queues st).
Proof.
  unfold worker_step. intros H. destruct (ps_queues st !! id) as [[|pkt rest]|] eqn:Hq; try done. cbn in H.
  assert (ps_queues st' = <[id := rest]> (ps_queues st)) as ->.
  { destruct (ParseFlowKey pkt) as [[key|]|]; cbn in H; try done; [|by injection H as <-].
    destruct (shards (ps_table st) !! id); cbn in H; [|done]. by injection H as <-. }
  rewrite <- (take_drop_middle _ _ _ Hq) at 2. rewrite insert_take_drop by (by apply lookup_lt_Some in Hq).
  rewrite !fmap_app, !fmap_cons, !sum_list_with_app. simpl. lia.
Qed.

(** ** Properties *)


