(* ===== verification/SessionBind.v ===== *)
(** * The session bind: internal/tunnel/sessionbind.go

    [Send] puts a session header in front of every datagram; the wrapped
    receive function strips it, drops what is too short or fenced, and moves
    the survivors to the front of the caller's arrays, in place. The
    underlying conn.Bind is the datagrams it is handed and the arrays it has
    filled; an index or slice out of range is [None]. *)

From S2P Require Import Prelude Wire.
Import Wire.Header.

Record sessionBind := mkBind {
  sb_sessionID : Z;
  sb_epoch : Z;
  sb_seq : Z;
  sb_admit : option (SessionHeader → bool);
}.

Definition newSessionBind (sessionID epoch : Z) : sessionBind := mkBind sessionID epoch 0 None.
Definition setEpoch (epoch : Z) (b : sessionBind) : sessionBind :=
  mkBind (sb_sessionID b) epoch (sb_seq b) (sb_admit b).

(** ** Sending *)

(** The header of the next datagram; the sequence number is incremented first. *)
Definition stamp (b : sessionBind) : SessionHeader * sessionBind :=
  let seq := u64 (sb_seq b + 1) in
  ({| h_Version := Version; h_Type := PacketTypeData; h_Direction := DirUpstream;
      h_SessionID := sb_sessionID b; h_Epoch := sb_epoch b; h_SessionSeq := seq |},
   mkBind (sb_sessionID b) (sb_epoch b) seq (sb_admit b)).

(** [make], [EncodeTo] on its first bytes, [copy] of the payload behind them. *)
Definition frame (h : SessionHeader) (buf : bytes) : res wire_error bytes :=
  let out := replicate (SessionHeaderSize + length buf) 0 in
  try hdr := EncodeTo h (slice 0 SessionHeaderSize out) in
  let out := put_at 0 hdr out in
  Ok (take SessionHeaderSize out ++ go_copy (drop SessionHeaderSize out) buf).

(** The datagrams handed to the real Send, and the bind after the call. *)
Fixpoint Send (bufs : list bytes) (b : sessionBind) : res wire_error (list bytes) * sessionBind :=
  match bufs with
  | [] => (Ok [], b)
  | buf :: bufs =>
      let '(h, b) := stamp b in
      match frame h buf with
      | Err e => (Err e, b)
      | Ok out => let '(r, b) := Send bufs b in (res_bind r (λ l, Ok (out :: l)), b)
      end
  end.

(** ** Receiving *)

Section receive.
  Context {Endpoint : Type}.

(** The caller's arrays, the number of datagrams kept so far and the headers
    given to onRecv. *)
Record recv_state := mkRecv {
  rs_packets : list bytes;
  rs_sizes : list nat;
  rs_eps : list Endpoint;
  rs_out : nat;
  rs_seen : list SessionHeader;
}.

(** One turn of the loop, at index [i]. *)
Definition recv_one (b : sessionBind) (i : nat) (s : recv_state) : option recv_state :=
  p ← rs_packets s !! i;
  size ← rs_sizes s !! i;
  if (length p <? size)%nat then None else
  let data := take size p in
  if (length data <? SessionHeaderSize)%nat then Some s else
  match Decode data with
  | Err _ => Some s
  | Ok (h, consumed) =>
      if match sb_admit b with Some f => negb (f h) | None => false end then Some s else
      let rest := drop consumed data in
      let out := rs_out s in
      dst ← rs_packets s !! out;
      _ ← rs_sizes s !! out;
      _ ← rs_eps s !! out;
      ep ← rs_eps s !! i;
      Some {| rs_packets := <[out := go_copy dst rest]> (rs_packets s);
              rs_sizes := <[out := length rest]> (rs_sizes s);
              rs_eps := <[out := ep]> (rs_eps s);
              rs_out := S out;
              rs_seen := rs_seen s ++ [h] |}
  end.

Fixpoint recv_loop (b : sessionBind) (i n : nat) (s : recv_state) : option recv_state :=
  match n with
  | O => Some s
  | S n => s' ← recv_one b i s; recv_loop b (S i) n s'
  end.

(** The wrapped receive function, after the real one has filled the arrays
    with [n] datagrams. *)
Definition wrapReceiveFunc (b : sessionBind) (n : nat) (packets : list bytes) (sizes : list nat)
    (eps : list Endpoint) : option recv_state :=
  recv_loop b 0 n (mkRecv packets sizes eps 0 []).

End receive.
Arguments recv_state : clear implicits.

(** ** Specification *)

(** What becomes of one datagram: its header and payload, or it is dropped. *)
Definition accept (adm : option (SessionHeader → bool)) (d : bytes) : option (SessionHeader * bytes) :=
  match Decode d with
  | Ok (h, n) => if match adm with Some f => f h | None => true end then Some (h, drop n d) else None
  | Err _ => None
  end.

(** Slot [i] of the arrays holds datagram [d] of endpoint [e]. *)
Definition slot {E} (packets : list bytes) (sizes : list nat) (eps : list E) (i : nat) (d : bytes) (e : E) : Prop :=
  sizes !! i = Some (length d) ∧ eps !! i = Some e ∧
  ∃ p, packets !! i = Some p ∧ (length d ≤ length p)%nat ∧ take (length d) p = d.

(** The arrays hold these datagrams from slot [off] on. *)
Definition holds {E} (packets : list bytes) (sizes : list nat) (eps : list E) (off : nat) (ds : list (bytes * E)) : Prop :=
  ∀ j d e, ds !! j = Some (d, e) → slot packets sizes eps (off + j) d e.

(** The datagrams that get through, with header and endpoint. *)
Definition admitted {E} (adm : option (SessionHeader → bool)) (ds : list (bytes * E))
    : list (SessionHeader * bytes * E) :=
  omap (λ '(d, e), (λ hp, (hp, e)) <$> accept adm d) ds.

(** ** Lemmas *)

Lemma Decode_cases d :
  ((length d < SessionHeaderSize)%nat ∧ ∃ e, Decode d = Err e) ∨
  ((SessionHeaderSize ≤ length d)%nat ∧ ∃ h, Decode d = Ok (h, SessionHeaderSize)).
Proof.
  unfold Decode. destruct (Nat.ltb_spec (length d) SessionHeaderSize); [left|right]; split; eauto.
Qed.

Lemma take_go_copy {A} (dst src : list A) :
  (length src ≤ length dst)%nat → take (length src) (go_copy dst src) = src.
Proof.
  intros. unfold go_copy. rewrite (take_ge src) by done. by rewrite take_app_length.
Qed.

Section loop.
  Context {E : Type} (b : sessionBind) (L : nat).

(** Between two turns: [done] is what has been kept, [todo] what is still to
    be looked at, from slot [i] on. *)
Record loop_inv (i : nat) (s : recv_state E) (done : list (SessionHeader * bytes * E)) (todo : list (bytes * E)) : Prop := {
  li_len : Forall (λ p, length p = L) (rs_packets s);
  li_out : rs_out s = length done;
  li_le : (length done ≤ i)%nat;
  li_seen : rs_seen s = (λ x, x.1.1) <$> done;
  li_done : holds (rs_packets s) (rs_sizes s) (rs_eps s) 0 ((λ x, (x.1.2, x.2)) <$> done);
  li_todo : holds (rs_packets s) (rs_sizes s) (rs_eps s) i todo;
}.

Lemma slot_insert_ne packets sizes (eps : list E) out i dst n ep d e :
  out ≠ i → slot packets sizes eps i d e →
  slot (<[out := dst]> packets) (<[out := n]> sizes) (<[out := ep]> eps) i d e.
Proof. intros Hne. unfold slot. by rewrite !list_lookup_insert_ne. Qed.

Lemma slot_insert_eq packets sizes (eps : list E) out dst d ep :
  (out < length packets)%nat → (out < length sizes)%nat → (out < length eps)%nat →
  (length d ≤ length dst)%nat →
  slot (<[out := go_copy dst d]> packets) (<[out := length d]> sizes) (<[out := ep]> eps) out d ep.
Proof.
  intros. unfold slot. rewrite !list_lookup_insert_eq by done. split_and!; try done.
  eexists. split; [done|]. rewrite length_go_copy, take_go_copy by done. done.
Qed.

(** A slot before a held one exists too. *)
Lemma slot_bounds packets sizes (eps : list E) i j d e :
  slot packets sizes eps i d e → (j ≤ i)%nat →
  (j < length packets)%nat ∧ (j < length sizes)%nat ∧ (j < length eps)%nat.
Proof.
  intros (H1%lookup_lt_Some & H2%lookup_lt_Some & p & H3%lookup_lt_Some & _) Hle. lia.
Qed.

Lemma holds_next i packets sizes (eps : list E) x todo :
  holds packets sizes eps i (x :: todo) → holds packets sizes eps (S i) todo.
Proof. intros H j d e Hj. replace (S i + j)%nat with (i + S j)%nat by lia. by apply H. Qed.

Lemma recv_one_inv i s done d e todo :
  loop_inv i s done ((d, e) :: todo) →
  ∃ s', recv_one b i s = Some s' ∧
        loop_inv (S i) s' (done ++ admitted (sb_admit b) [(d, e)]) todo.
Proof.
  intros [Hlen Hout Hle Hseen Hdone Htodo].
  destruct (Htodo 0%nat d e eq_refl) as (Hsz & Hep & p & Hp & Hdp & Hd). rewrite Nat.add_0_r in *.
  assert (slot (rs_packets s) (rs_sizes s) (rs_eps s) i d e) as Hslot by (unfold slot; split_and!; eauto).
  unfold recv_one. rewrite Hp, Hsz. cbn [mbind option_bind].
  destruct (Nat.ltb_spec (length p) (length d)); [lia|]. rewrite Hd. cbv zeta.
  unfold admitted. cbn [omap list_omap]. unfold accept.
  assert (loop_inv (S i) s (done ++ []) todo) as Hskip.
  { rewrite app_nil_r. split; try done; [lia|]. by eapply holds_next. }
  destruct (Decode_cases d) as [(Hs & err & ->)|(Hl & h & ->)].
  { apply Nat.ltb_lt in Hs. rewrite Hs. by exists s. }
  destruct (Nat.ltb_spec (length d) SessionHeaderSize); [lia|].
  replace (match sb_admit b with Some f => negb (f h) | None => false end)
    with (negb (match sb_admit b with Some f => f h | None => true end)) by (by destruct (sb_admit b)).
  destruct (match sb_admit b with Some f => f h | None => true end); cbn [negb]; [|by exists s].
  destruct (slot_bounds _ _ _ _ (rs_out s) _ _ Hslot) as (B1 & B2 & B3); [lia|].
  destruct (lookup_lt_is_Some_2 _ _ B1) as [dst Hdst], (lookup_lt_is_Some_2 _ _ B2) as [? H2],
    (lookup_lt_is_Some_2 _ _ B3) as [? H3].
  rewrite Hdst, H2, H3, Hep. cbn. eexists. split; [done|].
  set (rest := drop SessionHeaderSize d).
  rewrite Forall_lookup in Hlen. pose proof (Hlen _ _ Hdst) as L1. pose proof (Hlen _ _ Hp) as L2.
  assert (length rest ≤ length dst)%nat as Hfit by (unfold rest; rewrite length_drop; lia).
  split; cbn [rs_packets rs_sizes rs_eps rs_out rs_seen].
  - apply Forall_insert; [by apply Forall_lookup|]. by rewrite length_go_copy.
  - rewrite length_app. simpl. lia.
  - rewrite length_app. simpl. lia.
  - by rewrite fmap_app, Hseen.
  - intros j d' e' Hj. rewrite fmap_app in Hj. apply lookup_app_Some in Hj as [Hj|[Hge Hj]].
    + apply slot_insert_ne; [|by apply Hdone]. apply lookup_lt_Some in Hj. rewrite length_fmap in Hj. lia.
    + rewrite length_fmap in Hge, Hj. destruct (j - length done)%nat eqn:Ej; [|done]. cbn in Hj. injection Hj as <- <-.
      replace (0 + j)%nat with (rs_out s) by lia. by apply slot_insert_eq.
  - intros j d' e' Hj. apply slot_insert_ne; [lia|]. replace (S i + j)%nat with (i + S j)%nat by lia. by apply Htodo.
Qed.

Lemma admitted_cons adm (x : bytes * E) l : admitted adm (x :: l) = admitted adm [x] ++ admitted adm l.
Proof. unfold admitted. cbn. destruct x as [d e]. by destruct (accept adm d). Qed.

Lemma recv_loop_inv todo : ∀ i s done,
  loop_inv i s done todo →
  ∃ s', recv_loop b i (length todo) s = Some s' ∧
        loop_inv (i + length todo) s' (done ++ admitted (sb_admit b) todo) [].
Proof.
  induction todo as [|[d e] todo IH]; intros i s done Hinv; cbn [recv_loop length].
  - exists s. split; [done|]. by rewrite Nat.add_0_r, app_nil_r.
  - destruct (recv_one_inv i s done d e todo Hinv) as (s1 & -> & H1). cbn [mbind option_bind].
    destruct (IH _ _ _ H1) as (s2 & -> & H2). exists s2. split; [done|].
    rewrite admitted_cons, app_assoc. by replace (i + S (length todo))%nat with (S i + length todo)%nat by lia.
Qed.

End loop.

Lemma frame_layout h buf : frame h buf = Ok (layout h ++ buf).
Proof.
  unfold frame. cbv zeta.
  assert (slice 0 SessionHeaderSize (replicate (SessionHeaderSize + length buf) 0) = replicate 24 0) as ->.
  { unfold slice. by rewrite drop_0, take_replicate. }
  rewrite EncodeTo_layout by (rewrite length_replicate; done). cbn [res_bind].
  rewrite drop_ge, app_nil_r by (rewrite length_replicate; done).
  unfold put_at. rewrite take_0, length_layout. cbn [app Nat.add].
  rewrite (take_app_length' (layout h)), (drop_app_length' (layout h)) by done.
  rewrite replicate_add, drop_app_length' by (by rewrite length_replicate).
  unfold go_copy. rewrite length_replicate, firstn_all, drop_ge by (by rewrite length_replicate).
  by rewrite app_nil_r.
Qed.

(** The headers of the next [n] datagrams. *)
Definition stamps (b : sessionBind) (n : nat) : list SessionHeader :=
  (λ i, mkHeader Version PacketTypeData DirUpstream (sb_sessionID b) (sb_epoch b)
          (u64 (sb_seq b + Z.of_nat i + 1))) <$> seq 0 n.

Lemma stamps_cons b n : stamps b (S n) = (stamp b).1 :: stamps (stamp b).2 n.
Proof.
  unfold stamps, stamp. cbn [fst snd sb_sessionID sb_epoch sb_seq seq]. rewrite fmap_cons. f_equal.
  - by rewrite Z.add_0_r.
  - rewrite <- fmap_S_seq, <- list_fmap_compose. apply list_fmap_ext. intros _ i _. unfold compose. f_equal.
    unfold wrap. rewrite <- (Z.add_assoc (_ mod _)), Zplus_mod_idemp_l. f_equal. lia.
Qed.

Lemma Send_frames bufs : ∀ b,
  (Send bufs b).1 = Ok (zip_with (λ h p, layout h ++ p) (stamps b (length bufs)) bufs).
Proof.
  induction bufs as [|buf bufs IH]; intros b; cbn [Send length]; [done|].
  rewrite stamps_cons. destruct (stamp b) as [h b'] eqn:Eb. cbn [fst snd zip_with]. rewrite frame_layout.
  specialize (IH b'). destruct (Send bufs b') as [r b'']. cbn [fst] in *. by rewrite IH.
Qed.

Lemma stamps_wf b n i h :
  is_u64 (sb_sessionID b) → is_u32 (sb_epoch b) → stamps b n !! i = Some h → wf_header h.
Proof.
  intros Hs He. unfold stamps. rewrite list_lookup_fmap_Some. intros (x & -> & _).
  split; cbn; try done; [by left|]. apply u64_fits.
Qed.

Lemma accept_framed f h p : wf_header h → f h = true → accept (Some f) (layout h ++ p) = Some (h, p).
Proof.
  intros Hwf Hf. unfold accept. rewrite Decode_app by done. rewrite Hf.
  by rewrite (drop_app_length' (layout h)) by done.
Qed.

(** ** Properties *)

(** C28: the bind delivers what the peer sent, and only what the fence admits.
    Whatever datagrams the socket hands over, short or forged ones included,
    the wrapped receive function never indexes out of range, and after it the
    front of the caller's arrays holds exactly the payloads of the admitted
    datagrams, in order and with their endpoints, although it compacts them
    in place; onRecv has seen exactly their headers. And a batch sent by a
    peer's Send arrives as the datagrams whose headers carry its session, its
    epoch and consecutive sequence numbers, each with its payload unchanged. *)
Theorem bind_delivers {E} (b : sessionBind) (L : nat) packets sizes (eps : list E) ds :
  Forall (λ p, length p = L) packets → holds packets sizes eps 0 ds →
  (∃ s, wrapReceiveFunc b (length ds) packets sizes eps = Some s ∧
        rs_out s = length (admitted (sb_admit b) ds) ∧
        rs_seen s = (λ x, x.1.1) <$> admitted (sb_admit b) ds ∧
        holds (rs_packets s) (rs_sizes s) (rs_eps s) 0
          ((λ x, (x.1.2, x.2)) <$> admitted (sb_admit b) ds)) ∧
  (∀ (a : sessionBind) bufs f i buf,
     is_u64 (sb_sessionID a) → is_u32 (sb_epoch a) → bufs !! i = Some buf →
     let h := mkHeader Version PacketTypeData DirUpstream (sb_sessionID a) (sb_epoch a)
                (u64 (sb_seq a + Z.of_nat i + 1)) in
     ∃ framed d, (Send bufs a).1 = Ok framed ∧ length framed = length bufs ∧ framed !! i = Some d ∧
       accept (Some f) d = if f h then Some (h, buf) else None).
Proof.
  intros Hlen Hh. split.
  - destruct (recv_loop_inv b L ds 0 (mkRecv packets sizes eps 0 []) []) as (s & Hs & Hi).
    { by split. }
    exists s. split; [exact Hs|]. destruct Hi. cbn in *. done.
  - intros a bufs f i buf Hs He Hi h. eexists _, (layout h ++ buf). split; [apply Send_frames|].
    assert (stamps a (length bufs) !! i = Some h) as Hst.
    { unfold stamps. rewrite list_lookup_fmap, lookup_seq_lt by (by apply lookup_lt_Some in Hi). done. }
    split_and!.
    + rewrite length_zip_with. unfold stamps. rewrite length_fmap, length_seq. lia.
    + apply lookup_zip_with_Some. eauto.
    + pose proof (stamps_wf a _ _ _ Hs He Hst) as Hwf. destruct (f h) eqn:Ef; [by apply accept_framed|].
      unfold accept. rewrite Decode_app by done. by rewrite Ef.
Qed.

(** Three datagrams: one too short, one of an old epoch, one admitted. *)
Lemma bind_delivers_witness :
  let a := mkBind 7 3 0 None in
  let b := mkBind 0 0 0 (Some (λ h, 3 <=? h_Epoch h)) in
  let d1 := layout (mkHeader 1 0 0 7 2 9) ++ [1; 2] in
  let d2 := layout (mkHeader 1 0 0 7 3 1) ++ [4; 5; 6] in
  let pad d := d ++ replicate (64 - length d) 0 in
  let ds := [([9; 9], "x"%string); (d1, "y"%string); (d2, "z"%string)] in
  ∃ s, wrapReceiveFunc b 3 (pad <$> ds.*1) (length <$> ds.*1) ds.*2 = Some s ∧ rs_out s = 1%nat ∧
       holds (rs_packets s) (rs_sizes s) (rs_eps s) 0 [([4; 5; 6], "z"%string)].
Proof.
  intros a b d1 d2 pad ds.
  destruct (bind_delivers b 64 (pad <$> ds.*1) (length <$> ds.*1) ds.*2 ds) as [(s & H1 & H2 & _ & H3) _].
  - repeat constructor.
  - intros [|[|[|j]]] d e Hj; cbn in Hj; try discriminate; injection Hj as <- <-; split_and!;
      try (vm_compute; exact eq_refl); eexists; (split; [vm_compute; exact eq_refl|]); split;
      [vm_compute; lia|vm_compute; exact eq_refl|vm_compute; lia|vm_compute; exact eq_refl
      |vm_compute; lia|vm_compute; exact eq_refl].
  - exists s. split; [exact H1|]. split; [rewrite H2; vm_compute; exact eq_refl|].
    assert ((λ x, (x.1.2, x.2)) <$> admitted (sb_admit b) ds = [([4; 5; 6], "z"%string)]) as Ead by (vm_compute; exact eq_refl).
    rewrite Ead in H3. exact H3.
Defined.
