(* ===== verification/Rib.v ===== *)
(** * Longest-prefix match and destination groups: internal/measurement/rib.go,
    destgroup.go and [PrefixBits] of egress.go

    The trie is the source's: one level per address bit, a node carrying the
    prefix installed there. The theorems compare it with a linear scan of the
    prefixes that were added. *)

From S2P Require Import Prelude Netip.

(** ** The trie *)

(** [Nil] is the nil pointer; a node has its two children and the prefix
    installed there, if any. *)
Inductive ribNode := Nil | Node (child0 child1 : ribNode) (here : option Prefix).

Definition emptyNode : ribNode := Node Nil Nil None.
Definition installed (n : ribNode) : option Prefix :=
  match n with Nil => None | Node _ _ p => p end.
Definition child (n : ribNode) (bit : Z) : ribNode :=
  match n with Nil => Nil | Node c0 c1 _ => if bit =? 0 then c0 else c1 end.
Definition set_child (n : ribNode) (bit : Z) (c : ribNode) : ribNode :=
  match n with
  | Nil => Nil
  | Node c0 c1 p => if bit =? 0 then Node c c1 p else Node c0 c p
  end.
Definition set_installed (n : ribNode) (p : Prefix) : ribNode :=
  match n with Nil => Nil | Node c0 c1 _ => Node c0 c1 (Some p) end.
(** The node made where a child is nil. *)
Definition orNew (n : ribNode) : ribNode := match n with Nil => emptyNode | _ => n end.

Record RIB := mkRIB { v4 : ribNode; v6 : ribNode }.
Definition NewRIB : RIB := mkRIB emptyNode emptyNode.

Definition isTrueIPv6 (a : Addr) : bool := Is6 a && negb (Is4In6 a).

(** [None] is a panic. *)
Definition addrBits (a : Addr) : option bytes :=
  if isTrueIPv6 a then Some (As16 a) else As4 a.

(** [None] is an index out of range. *)
Definition bitAt (b : bytes) (i : nat) : option Z :=
  match b !! (i / 8)%nat with
  | Some x => Some (Z.land (Z.shiftr x (7 - Z.of_nat (i mod 8))) 1)
  | None => None
  end.

(** The loop of [AddPrefix]: walk [todo] more bits, making nodes on the way. *)
Fixpoint add_walk (node : ribNode) (bits : bytes) (i todo : nat) (p : Prefix) : option ribNode :=
  match todo with
  | O => Some (set_installed node p)
  | S todo =>
      match bitAt bits i with
      | None => None
      | Some bit =>
          match add_walk (orNew (child node bit)) bits (S i) todo p with
          | None => None
          | Some c => Some (set_child node bit c)
          end
      end
  end.

Inductive rib_error := InvalidPrefix (p : Prefix).

(** [None] is a panic. *)
Definition AddPrefix (p : Prefix) (r : RIB) : option (RIB * option rib_error) :=
  if negb (pf_IsValid p) then Some (r, Some (InvalidPrefix p))
  else
    let p := Masked p in
    match addrBits (pf_Addr p) with
    | None => None
    | Some bits =>
        if isTrueIPv6 (pf_Addr p) then
          match add_walk (v6 r) bits 0 (Z.to_nat (pf_Bits p)) p with
          | None => None
          | Some n => Some (mkRIB (v4 r) n, None)
          end
        else
          match add_walk (v4 r) bits 0 (Z.to_nat (pf_Bits p)) p with
          | None => None
          | Some n => Some (mkRIB n (v6 r), None)
          end
    end.

Fixpoint LoadPrefixes (ps : list Prefix) (r : RIB) : option (RIB * option rib_error) :=
  match ps with
  | [] => Some (r, None)
  | p :: ps =>
      match AddPrefix p r with
      | None => None
      | Some (r, Some e) => Some (r, Some e)
      | Some (r, None) => LoadPrefixes ps r
      end
  end.

(** The loop of [Lookup] and the test after it. *)
Fixpoint lookup_walk (node : ribNode) (bits : bytes) (i todo : nat) (best : option Prefix)
    : option (option Prefix) :=
  let best := match installed node with Some p => Some p | None => best end in
  match todo with
  | O => Some best
  | S todo =>
      match bitAt bits i with
      | None => None
      | Some bit =>
          match child node bit with
          | Nil => Some best
          | c => lookup_walk c bits (S i) todo best
          end
      end
  end.

Definition rib_Lookup (a : Addr) (r : RIB) : option (option Prefix) :=
  let '(node, width) := if isTrueIPv6 a then (v6 r, 128%nat) else (v4 r, 32%nat) in
  match addrBits a with
  | None => None
  | Some bits => lookup_walk node bits 0 width None
  end.

(** ** Destination groups *)

Definition ClassifyPort (port : Z) (udp : bool) : string :=
  if port =? 53 then "dns"
  else if udp && (port =? 443) then "quic"
  else if negb udp && ((port =? 80) || (port =? 443)) then "web"
  else "other".

Record PrefixBits := mkPB { IPv4 : Z; IPv6 : Z }.
Definition DefaultPrefixBits : PrefixBits := mkPB 24 48.

Definition Mask (b : PrefixBits) (addr : Addr) : Prefix :=
  let bits := if Is6 addr && negb (Is4In6 addr) then IPv6 b else IPv4 b in
  match addr_Prefix addr bits with
  | Some p => p
  | None => default zeroPrefix (addr_Prefix addr (BitLen addr))
  end.

Inductive MatchTier := MatchNone | MatchRIB | MatchCoarseFallback.
Definition MatchTier_String (m : MatchTier) : string :=
  match m with MatchNone => "none" | MatchRIB => "rib" | MatchCoarseFallback => "coarse-fallback" end.

Record GroupKey := mkGroup { gk_Prefix : Prefix; gk_PortClass : string }.
Definition zeroGroup : GroupKey := mkGroup zeroPrefix "".

(** The fallback [NewDestinationGroups] keeps. *)
Definition groups_fallback (fallback : PrefixBits) : PrefixBits :=
  mkPB (if IPv4 fallback <=? 0 then IPv4 DefaultPrefixBits else IPv4 fallback)
       (if IPv6 fallback <=? 0 then IPv6 DefaultPrefixBits else IPv6 fallback).

(** [DestinationGroups.Lookup]; [classify] is the configured classifier. *)
Definition group_Lookup (rib : RIB) (classify : Z → bool → string) (fallback : PrefixBits)
    (addr : Addr) (port : Z) (udp : bool) : option (GroupKey * MatchTier) :=
  if negb (addr_IsValid addr) then Some (zeroGroup, MatchNone)
  else match rib_Lookup addr rib with
  | None => None
  | Some (Some prefix) => Some (mkGroup prefix (classify port udp), MatchRIB)
  | Some None => Some (mkGroup (Mask fallback addr) (classify port udp), MatchCoarseFallback)
  end.

(** ** Lemmas: bits *)

Lemma lookup_be_put n z j :
  (j < n)%nat → be_put n z !! j = Some (Z.shiftr z (8 * Z.of_nat (n - 1 - j)) mod 256).
Proof.
  revert j. induction n as [|n IH]; intros j Hj; [lia|]. cbn [be_put]. destruct j as [|j]; simpl.
  - do 4 f_equal. lia.
  - rewrite IH by lia. do 4 f_equal. lia.
Qed.

Lemma bitAt_be_put n z i :
  (i < 8 * n)%nat → bitAt (be_put n z) i = Some (Z.b2z (Z.testbit z (Z.of_nat (8 * n - 1 - i)))).
Proof.
  intros Hi. pose proof (Nat.div_mod i 8 ltac:(lia)) as Hdm.
  pose proof (Nat.mod_upper_bound i 8 ltac:(lia)) as Hm.
  unfold bitAt. rewrite lookup_be_put by (apply Nat.Div0.div_lt_upper_bound; lia). f_equal.
  set (q := (i / 8)%nat) in *. set (m := (i mod 8)%nat) in *.
  rewrite (Z.land_ones _ 1), <- Z.bit0_mod by lia. f_equal.
  rewrite Z.shiftr_spec by lia. change 256 with (2 ^ 8).
  rewrite Z.mod_pow2_bits_low, Z.shiftr_spec by lia. f_equal. lia.
Qed.

(** ** Lemmas: the trie on bit paths *)

Fixpoint add_path (n : ribNode) (path : list bool) (p : Prefix) : ribNode :=
  match path with
  | [] => set_installed n p
  | b :: path => set_child n (Z.b2z b) (add_path (orNew (child n (Z.b2z b))) path p)
  end.

Fixpoint lookup_path (n : ribNode) (path : list bool) (best : option Prefix) : option Prefix :=
  let best := match installed n with Some p => Some p | None => best end in
  match path with
  | [] => best
  | b :: path => match child n (Z.b2z b) with Nil => best | c => lookup_path c path best end
  end.

Fixpoint trie_get (n : ribNode) (path : list bool) : option Prefix :=
  match path with
  | [] => installed n
  | b :: path => trie_get (child n (Z.b2z b)) path
  end.

(** The bits the loops read from index [i] on are [path]. *)
Definition reads (bits : bytes) (i : nat) (path : list bool) : Prop :=
  ∀ j b, path !! j = Some b → bitAt bits (i + j) = Some (Z.b2z b).

Lemma reads_cons bits i b path :
  reads bits i (b :: path) → bitAt bits i = Some (Z.b2z b) ∧ reads bits (S i) path.
Proof.
  intros H. split.
  - rewrite <- (Nat.add_0_r i). by apply H.
  - intros j c Hj. replace (S i + j)%nat with (i + S j)%nat by lia. by apply H.
Qed.

Lemma add_walk_path n bits i path p :
  reads bits i path → add_walk n bits i (length path) p = Some (add_path n path p).
Proof.
  revert n i. induction path as [|b path IH]; intros n i H; simpl; [done|].
  apply reads_cons in H as [-> H]. by rewrite IH.
Qed.

Lemma lookup_walk_path n bits i path best :
  reads bits i path → lookup_walk n bits i (length path) best = Some (lookup_path n path best).
Proof.
  revert n i best. induction path as [|b path IH]; intros n i best H; simpl; [done|].
  apply reads_cons in H as [-> H]. destruct (child n (Z.b2z b)); [done|]. by apply IH.
Qed.

Lemma trie_get_Nil path : trie_get Nil path = None.
Proof. by induction path. Qed.

Lemma trie_get_orNew n path : trie_get (orNew n) path = trie_get n path.
Proof.
  destruct n; [|done]. rewrite trie_get_Nil. destruct path as [|[] ?]; simpl; auto using trie_get_Nil.
Qed.

Lemma trie_get_add n path p path' :
  n ≠ Nil → trie_get (add_path n path p) path' =
            if decide (path = path') then Some p else trie_get n path'.
Proof.
  revert n path'. induction path as [|b path IH]; intros n path' Hn; destruct n as [|c0 c1 h]; try done.
  - destruct path'; [done|]. by rewrite decide_False.
  - destruct path' as [|b' path'].
    { rewrite decide_False by done. by destruct b. }
    destruct (decide (b = b')) as [<-|Hb].
    + assert (trie_get (add_path (Node c0 c1 h) (b :: path) p) (b :: path') =
              trie_get (add_path (orNew (child (Node c0 c1 h) (Z.b2z b))) path p) path') as ->
        by by destruct b.
      rewrite IH, trie_get_orNew by by destruct (child _ _).
      destruct (decide (path = path')) as [->|].
      * by rewrite decide_True.
      * rewrite decide_False by congruence. by destruct b.
    + rewrite decide_False by congruence. by destruct b, b'.
Qed.

(** The walk ends with the deepest installed prefix on the path. *)
Lemma lookup_path_spec n path best :
  (∃ k p, (k ≤ length path)%nat ∧ trie_get n (take k path) = Some p ∧
     (∀ m, (k < m ≤ length path)%nat → trie_get n (take m path) = None) ∧
     lookup_path n path best = Some p) ∨
  ((∀ k, (k ≤ length path)%nat → trie_get n (take k path) = None) ∧ lookup_path n path best = best).
Proof.
  revert n best. induction path as [|b path IH]; intros n best; simpl.
  - destruct (installed n) as [p|] eqn:E.
    + left. exists 0%nat, p. split_and!; [lia|done|lia|done].
    + right. split; [|done]. intros k Hk. by destruct k.
  - set (best' := match installed n with Some p => Some p | None => best end).
    assert (match child n (Z.b2z b) with Nil => best' | c => lookup_path c path best' end
            = lookup_path (child n (Z.b2z b)) path best') as ->.
    { destruct (child n (Z.b2z b)); [|done]. by destruct path. }
    destruct (IH (child n (Z.b2z b)) best') as [(k & p & Hk & Hg & Hlater & ->)|[Hnone ->]].
    + left. exists (S k), p. split_and!; [lia|done| |done].
      intros m Hm. destruct m as [|m]; [lia|]. apply Hlater. lia.
    + destruct (installed n) as [p|] eqn:E; subst best'; simpl.
      * left. exists 0%nat, p. split_and!; [lia|done| |done].
        intros m Hm. destruct m as [|m]; [lia|]. simpl. apply Hnone. lia.
      * right. split; [|done]. intros k Hk. destruct k; [done|]. simpl. apply Hnone. lia.
Qed.

(** ** Lemmas: addresses as bit paths *)

(** [Unmap] of net/netip: an IPv4-mapped address as its IPv4 address. *)
Definition Unmap (a : Addr) : Addr :=
  match a with Addr6 v => if Is4In6 a then Addr4 (v mod 2 ^ 32) else a | _ => a end.

Definition bits_path (w : nat) (v : Z) (n : nat) : list bool :=
  (λ i, Z.testbit v (Z.of_nat (w - 1 - i))) <$> seq 0 n.

#[local] Arguments bits_path : simpl never.
#[local] Arguments be_put : simpl never.

(** The first [n] bits of an address, most significant first. *)
Definition apath (a : Addr) (n : nat) : list bool :=
  match Unmap a with
  | AddrInvalid => []
  | Addr4 v => bits_path 32 v n
  | Addr6 v => bits_path 128 v n
  end.
Definition awidth (a : Addr) : nat := if isTrueIPv6 a then 128 else 32.

Lemma length_bits_path w v n : length (bits_path w v n) = n.
Proof. unfold bits_path. by rewrite length_fmap, length_seq. Qed.

Lemma lookup_bits_path w v n i b :
  bits_path w v n !! i = Some b ↔ (i < n)%nat ∧ b = Z.testbit v (Z.of_nat (w - 1 - i)).
Proof.
  unfold bits_path. rewrite list_lookup_fmap_Some. setoid_rewrite lookup_seq. naive_solver lia.
Qed.

Lemma testbit_high w v i : fits w v → w ≤ i → Z.testbit v i = false.
Proof.
  intros Hv Hi. destruct (decide (0 ≤ w)).
  - rewrite <- (Z.mod_small v (2 ^ w)) by done. apply Z.mod_pow2_bits_high. lia.
  - unfold fits in Hv. rewrite Z.pow_neg_r in Hv by lia. lia.
Qed.

(** Two values agree on their first [n] bits exactly when their shifts do. *)
Lemma shiftr_path w v u n :
  (n ≤ w)%nat → fits (Z.of_nat w) v → fits (Z.of_nat w) u →
  Z.shiftr v (Z.of_nat w - Z.of_nat n) = Z.shiftr u (Z.of_nat w - Z.of_nat n) ↔
  bits_path w v n = bits_path w u n.
Proof.
  intros Hn Hv Hu. split.
  - intros Heq. apply list_fmap_ext. intros i j Hj. apply lookup_seq in Hj as [-> Hj]. simpl.
    replace (Z.of_nat (w - 1 - i)) with
      (Z.of_nat (n - 1 - i) + (Z.of_nat w - Z.of_nat n)) by lia.
    rewrite <- !Z.shiftr_spec by lia. by rewrite Heq.
  - intros Heq. apply Z.bits_inj'. intros j Hj. rewrite !Z.shiftr_spec by done.
    destruct (decide (j < Z.of_nat n)).
    + assert (∀ x, Z.testbit x (j + (Z.of_nat w - Z.of_nat n)) =
        Z.testbit x (Z.of_nat (w - 1 - (n - 1 - Z.to_nat j)))) as Hx by (intros; f_equal; lia).
      rewrite !Hx.
      assert (n - 1 - Z.to_nat j < n)%nat as Hlt by lia.
      pose proof (proj2 (lookup_bits_path w v n (n - 1 - Z.to_nat j) _) (conj Hlt eq_refl)) as H1.
      rewrite Heq in H1. by apply lookup_bits_path in H1 as [_ ?].
    + by rewrite !(testbit_high (Z.of_nat w)) by (done || lia).
Qed.

Lemma take_bits_path w v n m : (n ≤ m)%nat → take n (bits_path w v m) = bits_path w v n.
Proof.
  intros H. unfold bits_path. rewrite <- fmap_take. f_equal.
  replace m with (n + (m - n))%nat by lia. by rewrite seq_app, take_app_length' by by rewrite length_seq.
Qed.

Lemma reads_be_put k v n :
  (n ≤ 8 * k)%nat → reads (be_put k v) 0 (bits_path (8 * k) v n).
Proof.
  intros Hn j b [Hj ->]%lookup_bits_path. rewrite bitAt_be_put by lia. done.
Qed.

Lemma bits_path_mod v n : (n ≤ 32)%nat → bits_path 32 (v mod 2 ^ 32) n = bits_path 32 v n.
Proof.
  intros Hn. apply list_fmap_ext. intros i j Hj. apply lookup_seq in Hj as [-> Hj].
  by rewrite Z.mod_pow2_bits_low by lia.
Qed.

Lemma addrBits_reads a n :
  addr_IsValid a = true → (n ≤ awidth a)%nat →
  ∃ bits, addrBits a = Some bits ∧ reads bits 0 (apath a n).
Proof.
  unfold addrBits, awidth, apath, isTrueIPv6, Unmap, As4, As16. intros Hv Hn.
  destruct a as [|v|v]; [done| |]; cbn [Is6 Is4In6 andb negb] in *.
  - exists (be_put 4 v). split; [done|]. by apply (reads_be_put 4).
  - destruct (Z.shiftr v 32 =? 65535); cbn [Is6 andb negb] in *; eexists; (split; [reflexivity|]).
    + rewrite bits_path_mod by done. by apply (reads_be_put 4).
    + by apply (reads_be_put 16).
Qed.

Lemma length_apath a n : addr_IsValid a = true → length (apath a n) = n.
Proof.
  unfold apath, Unmap. destruct a as [|v|v]; intros ?; [done|apply length_bits_path|].
  destruct (Is4In6 (Addr6 v)); apply length_bits_path.
Qed.

(** ** Lemmas: the table against the list of prefixes *)

(** A prefix the table can hold: valid, and not IPv4-mapped once masked. *)
Definition rib_prefix_ok (p : Prefix) : Prop :=
  pf_IsValid p = true ∧ addr_ok (pf_Addr p) ∧ Is4In6 (pf_Addr (Masked p)) = false.

Definition root (wide : bool) (r : RIB) : ribNode := if wide then v6 r else v4 r.

Definition ppath (p : Prefix) : list bool := apath (pf_Addr p) (Z.to_nat (pf_Bits p)).

(** The table holds exactly the masked prefixes of [ps], each at its path. *)
Record rib_holds (ps : list Prefix) (r : RIB) : Prop := {
  holds_nodes : v4 r ≠ Nil ∧ v6 r ≠ Nil;
  holds_sound : ∀ wide path p, trie_get (root wide r) path = Some p →
    p ∈ Masked <$> ps ∧ isTrueIPv6 (pf_Addr p) = wide ∧ ppath p = path;
  holds_complete : ∀ p, p ∈ ps →
    is_Some (trie_get (root (isTrueIPv6 (pf_Addr (Masked p))) r) (ppath (Masked p)));
}.

Lemma Masked_valid p :
  pf_IsValid p = true →
  Masked p = mkPrefix (mask_addr (pf_Addr p) (pf_Bits p)) (pf_Bits p) ∧
  0 ≤ pf_Bits p ≤ BitLen (pf_Addr p) ∧ addr_IsValid (pf_Addr p) = true.
Proof.
  unfold pf_IsValid, Masked, addr_Prefix. intros H. zbool. split_and!; try done.
  replace (pf_Bits p <? 0) with false by lia.
  replace (pf_Bits p >? BitLen (pf_Addr p)) with false by lia.
  by destruct (pf_Addr p).
Qed.

(** The path of a prefix the table can hold has one bit per bit of its length. *)
Lemma rib_prefix_width p :
  rib_prefix_ok p → (Z.to_nat (pf_Bits p) ≤ awidth (pf_Addr (Masked p)))%nat ∧
  addr_IsValid (pf_Addr (Masked p)) = true.
Proof.
  intros (Hv & _ & H46). destruct (Masked_valid p Hv) as (Hm & Hb & Ha).
  unfold awidth, isTrueIPv6. rewrite H46. rewrite Hm. cbn [pf_Addr].
  destruct (pf_Addr p) as [|v|v]; [done| |]; cbn [mask_addr Is6 andb negb BitLen] in *; split; try done; lia.
Qed.

Lemma add_path_ne n path p : n ≠ Nil → add_path n path p ≠ Nil.
Proof. destruct n as [|c0 c1 h]; [done|]. destruct path as [|[] ?]; done. Qed.

Lemma AddPrefix_holds ps p r :
  rib_holds ps r → rib_prefix_ok p →
  ∃ r', AddPrefix p r = Some (r', None) ∧ rib_holds (ps ++ [p]) r'.
Proof.
  intros [[Hn4 Hn6] Hs Hc] Hp. pose proof Hp as (Hv & Hok & H46).
  destruct (Masked_valid p Hv) as (Hm & Hb & _). destruct (rib_prefix_width p Hp) as [Hw Hva].
  assert (pf_Bits (Masked p) = pf_Bits p) as Hbits by by rewrite Hm.
  unfold AddPrefix. rewrite Hv. cbn [negb].
  destruct (addrBits_reads (pf_Addr (Masked p)) (Z.to_nat (pf_Bits p)) Hva Hw) as (bits & -> & Hr).
  rewrite Hbits.
  assert (∀ n, add_walk n bits 0 (Z.to_nat (pf_Bits p)) (Masked p) =
               Some (add_path n (ppath (Masked p)) (Masked p))) as Hadd.
  { intros n. unfold ppath. rewrite Hbits, <- (add_walk_path _ bits 0) by done.
    by rewrite length_apath. }
  rewrite !Hadd.
  set (w := isTrueIPv6 (pf_Addr (Masked p))) in *.
  set (n' := add_path (root w r) (ppath (Masked p)) (Masked p)).
  assert (root w r ≠ Nil) as Hnw by (unfold root; by destruct w).
  set (r' := if w then mkRIB (v4 r) n' else mkRIB n' (v6 r)).
  exists r'. split; [unfold r', n', root; by destruct w|].
  assert (∀ w' path, trie_get (root w' r') path =
    if decide (w = w' ∧ ppath (Masked p) = path) then Some (Masked p) else trie_get (root w' r) path) as Hget.
  { intros w' path. destruct (decide (w = w')) as [<-|Hne].
    - assert (root w r' = n') as -> by (unfold r'; by destruct w).
      unfold n'. rewrite trie_get_add by done.
      destruct (decide (ppath (Masked p) = path)); [by rewrite decide_True|].
      rewrite decide_False; [done|]. by intros [_ ?].
    - rewrite decide_False by (by intros [? _]). unfold r', root.
      by destruct w, w'. }
  split.
  - unfold r'. destruct w; simpl; split; try done; by apply add_path_ne.
  - intros w' path q. rewrite Hget, fmap_app, elem_of_app. case_decide as Hd.
    + intros [= <-]. destruct Hd as [<- <-]. split_and!; [right; simpl; left|done|done].
    + intros Hq. destruct (Hs _ _ _ Hq) as (? & ? & ?). split_and!; [by left|done|done].
  - intros q [Hq| ->]%elem_of_snoc; rewrite Hget; case_decide; eauto. naive_solver.
Qed.

Lemma LoadPrefixes_holds ps qs r :
  rib_holds qs r → Forall rib_prefix_ok ps →
  ∃ r', LoadPrefixes ps r = Some (r', None) ∧ rib_holds (qs ++ ps) r'.
Proof.
  intros Hr Hps. revert qs r Hr. induction Hps as [|p ps Hp Hps IH]; intros qs r Hr; simpl.
  { exists r. by rewrite app_nil_r. }
  destruct (AddPrefix_holds qs p r Hr Hp) as (r1 & -> & Hr1).
  destruct (IH _ _ Hr1) as (r2 & -> & Hr2). exists r2. by rewrite <- app_assoc in Hr2.
Qed.

Lemma NewRIB_holds : rib_holds [] NewRIB.
Proof.
  split; [done| |by intros p ?%elem_of_nil].
  intros w path p H. exfalso. destruct w, path as [|[] path]; simpl in H; by rewrite ?trie_get_Nil in H.
Qed.

Lemma Unmap_wide a : isTrueIPv6 (Unmap a) = isTrueIPv6 a ∧ Is4In6 (Unmap a) = false.
Proof.
  destruct a as [|v|v]; [done|done|]. unfold isTrueIPv6, Unmap.
  destruct (Is4In6 (Addr6 v)) eqn:E; cbn [Is6 Is4In6 andb negb] in *; by rewrite ?E.
Qed.

(** A prefix contains an address exactly when its path begins the address's. *)
Lemma Contains_path p a :
  rib_prefix_ok p → addr_ok a → Is4In6 a = false →
  Contains p a = true ↔
  addr_IsValid a = true ∧ isTrueIPv6 (pf_Addr (Masked p)) = isTrueIPv6 a ∧
  ppath (Masked p) = take (Z.to_nat (pf_Bits p)) (apath a (awidth a)).
Proof.
  intros (Hv & Hok & H46) Ha Ha46. destruct (Masked_valid p Hv) as (Hm & Hb & Hva).
  assert (∀ w W u k, W = Z.of_nat w → (k ≤ w)%nat →
    bits_path w (Z.shiftl (Z.shiftr u (W - Z.of_nat k)) (W - Z.of_nat k)) k = bits_path w u k) as Hclear.
  { intros w W u k -> Hk. apply list_fmap_ext. intros i j Hj. apply lookup_seq in Hj as [-> Hj].
    rewrite testbit_cleared by lia.
    rewrite (proj2 (Z.leb_le (Z.of_nat w - Z.of_nat k) _)) by lia. by rewrite andb_true_r. }
  unfold Contains. rewrite Hv. cbn [andb]. unfold ppath, apath, Unmap, awidth, isTrueIPv6.
  rewrite Hm in *. cbn [pf_Addr pf_Bits] in *. rewrite H46, Ha46.
  set (k := Z.to_nat (pf_Bits p)). replace (pf_Bits p) with (Z.of_nat k) in * by lia.
  destruct (pf_Addr p) as [|v|v]; [done| |];
    destruct a as [|u|u]; cbn [mask_addr Is6 andb negb addr_IsValid BitLen addr_ok] in *;
    try (split; [done|by intros (? & ? & _)]).
  - rewrite take_bits_path, (Hclear 32%nat 32), Z.eqb_eq by lia.
    rewrite (shiftr_path 32 v u k ltac:(lia) Hok Ha). tauto.
  - rewrite take_bits_path, (Hclear 128%nat 128), Z.eqb_eq by lia.
    rewrite (shiftr_path 128 v u k ltac:(lia) Hok Ha). tauto.
Qed.

Lemma apath_Unmap a n : apath (Unmap a) n = apath a n.
Proof.
  assert (Unmap (Unmap a) = Unmap a) as Heq; [|unfold apath; by rewrite Heq].
  destruct (Unmap_wide a) as [_ H]. destruct (Unmap a) as [| |v]; try done.
  unfold Unmap. by rewrite H.
Qed.

Lemma Unmap_ok a : addr_ok a → addr_IsValid a = true →
  addr_ok (Unmap a) ∧ addr_IsValid (Unmap a) = true ∧ awidth (Unmap a) = awidth a.
Proof.
  intros Ha Hv. destruct (Unmap_wide a) as [Hw _]. unfold awidth. rewrite Hw.
  destruct a as [|v|v]; [done|done|]. unfold Unmap. destruct (Is4In6 (Addr6 v)); [|done].
  split_and!; try done. apply Z.mod_pos_bound. lia.
Qed.

(** Looking up an address in a table that holds [ps]. *)
Lemma rib_Lookup_holds ps r a :
  rib_holds ps r → Forall rib_prefix_ok ps → addr_ok a → addr_IsValid a = true →
  ∃ best, rib_Lookup a r = Some best ∧
    match best with
    | Some p => p ∈ Masked <$> ps ∧ Contains p (Unmap a) = true ∧
        ∀ q, q ∈ ps → Contains q (Unmap a) = true → pf_Bits q ≤ pf_Bits p
    | None => ∀ q, q ∈ ps → Contains q (Unmap a) = false
    end.
Proof.
  intros [_ Hs Hc] Hps Ha Hv.
  destruct (Unmap_wide a) as [Hwide H46]. destruct (Unmap_ok a Ha Hv) as (Hua & Huv & Huw).
  destruct (addrBits_reads a (awidth a) Hv (le_n _)) as (bits & Hbits & Hreads).
  set (n := root (isTrueIPv6 a) r). set (path := apath a (awidth a)).
  assert (rib_Lookup a r = Some (lookup_path n path None)) as Hlook.
  { unfold rib_Lookup. rewrite Hbits. unfold n, root.
    rewrite <- (lookup_walk_path _ bits 0) by done. unfold path. rewrite length_apath by done.
    unfold awidth. by destruct (isTrueIPv6 a). }
  assert (length path = awidth a) as Hlen by by apply length_apath.
  (* a prefix of [ps] that contains the address is on its path *)
  assert (∀ q, q ∈ ps → Contains q (Unmap a) = true →
    (Z.to_nat (pf_Bits q) ≤ length path)%nat ∧
    is_Some (trie_get n (take (Z.to_nat (pf_Bits q)) path))) as Hon.
  { intros q Hq Hcon. pose proof (proj1 (Forall_forall _ _) Hps q Hq) as Hqok.
    apply Contains_path in Hcon as (_ & Hw & Hp); try done.
    rewrite apath_Unmap, Huw in Hp. destruct (rib_prefix_width q Hqok) as [Hwd _].
    rewrite Hwide in Hw. split.
    - rewrite Hlen. unfold awidth in *. by rewrite Hw in Hwd.
    - unfold n. rewrite <- Hw. fold path in Hp. rewrite <- Hp. by apply Hc. }
  exists (lookup_path n path None). split; [done|].
  destruct (lookup_path_spec n path None) as [(k & p & Hk & Hg & Hlater & ->)|[Hnone ->]].
  - destruct (Hs _ _ _ Hg) as (Hin & Hpw & Hpp). split_and!; [done| |].
    + apply list_elem_of_fmap in Hin as (q & -> & Hq).
      pose proof (proj1 (Forall_forall _ _) Hps q Hq) as Hqok.
      destruct (rib_prefix_width q Hqok) as [_ Hmv].
      destruct Hqok as (Hqv & Hqok & Hq46). destruct (Masked_valid q Hqv) as (Hqm & Hqb & Hqa).
      assert (Contains (Masked q) (Unmap a) = Contains q (Unmap a)) as ->.
      { unfold Contains, pf_IsValid. rewrite Hqm. cbn [pf_Addr pf_Bits].
        destruct (pf_Addr q) as [|v|v]; [done| |]; cbn [mask_addr addr_IsValid BitLen] in *;
          destruct (Unmap a); try done; do 2 f_equal;
          rewrite Z.shiftr_shiftl_l by lia; rewrite Z.sub_diag; apply Z.shiftl_0_r. }
      apply Contains_path; try done. rewrite Huv, Hwide, apath_Unmap, Huw. split_and!; try done.
      rewrite Hpp. fold path. f_equal.
      assert (length (ppath (Masked q)) = k) as Hl by (rewrite Hpp, length_take; lia).
      unfold ppath in Hl. rewrite length_apath, Hqm in Hl by done. by simpl in Hl.
    + intros q Hq Hcon. destruct (Hon q Hq Hcon) as [Hql [x Hx]].
      assert (Z.to_nat (pf_Bits q) ≤ k)%nat as Hle.
      { destruct (decide (Z.to_nat (pf_Bits q) ≤ k)%nat) as [|Hgt]; [done|].
        rewrite Hlater in Hx by lia. done. }
      apply list_elem_of_fmap in Hin as (q' & -> & Hq').
      pose proof (proj1 (Forall_forall _ _) Hps q' Hq') as Hqok'.
      destruct (rib_prefix_width q' Hqok') as [_ Hmv].
      destruct (Masked_valid q' (proj1 Hqok')) as (Hqm & Hqb & _).
      assert (length (ppath (Masked q')) = k) as Hl by (rewrite Hpp, length_take; lia).
      unfold ppath in Hl. rewrite length_apath, Hqm in Hl by done. simpl in Hl.
      rewrite Hqm. simpl. lia.
  - intros q Hq. destruct (Contains q (Unmap a)) eqn:Hcon; [|done].
    destruct (Hon q Hq Hcon) as [Hql [x Hx]]. by rewrite Hnone in Hx.
Qed.

(** ** Properties *)

(** C29: longest-prefix match. Loading any list of valid prefixes (none of them
    IPv4-mapped) succeeds, and a lookup then returns one of them, masked, that
    contains the address and is at least as long as every listed prefix that
    does; it finds nothing exactly when no listed prefix contains it. An
    IPv4-mapped address is looked up as its IPv4 address. *)
Theorem rib_longest_match ps a :
  Forall rib_prefix_ok ps → addr_ok a → addr_IsValid a = true →
  ∃ r best, LoadPrefixes ps NewRIB = Some (r, None) ∧ rib_Lookup a r = Some best ∧
    match best with
    | Some p => p ∈ Masked <$> ps ∧ Contains p (Unmap a) = true ∧
        ∀ q, q ∈ ps → Contains q (Unmap a) = true → pf_Bits q ≤ pf_Bits p
    | None => ∀ q, q ∈ ps → Contains q (Unmap a) = false
    end.
Proof.
  intros Hps Ha Hv.
  destruct (LoadPrefixes_holds ps [] NewRIB NewRIB_holds Hps) as (r & Hl & Hr). simpl in Hr.
  destruct (rib_Lookup_holds ps r a Hr Hps Ha Hv) as (best & Hb & Hspec). by exists r, best.
Qed.

(** A valid prefix can make the table panic. For an IPv4-mapped IPv6
    prefix longer than 32 bits [addrBits] returns the four bytes of the IPv4
    address while the loop still runs over the prefix's full length, so
    [bitAt] indexes past them. *)
Theorem AddPrefix_mapped_panics p r :
  pf_IsValid p = true → Is4In6 (pf_Addr (Masked p)) = true → 32 < pf_Bits p →
  AddPrefix p r = None.
Proof.
  intros Hv H46 Hb. destruct (Masked_valid p Hv) as (Hm & Hbd & _).
  unfold AddPrefix. rewrite Hv. cbn [negb].
  assert (pf_Bits (Masked p) = pf_Bits p) as -> by by rewrite Hm.
  unfold addrBits, isTrueIPv6, As4. rewrite H46, andb_false_r.
  destruct (pf_Addr (Masked p)) as [|v|v]; [done|done|].
  assert (∀ n i k, (i ≤ 32)%nat → (32 < i + k)%nat → add_walk n (be_put 4 v) i k (Masked p) = None) as Hwalk.
  { intros n i k. revert n i. induction k as [|k IH]; intros n i Hi Hk; [lia|]. cbn [add_walk].
    destruct (decide (i = 32)%nat) as [->|Hne].
    - done.
    - rewrite bitAt_be_put by lia. by rewrite IH by lia. }
  by rewrite Hwalk by lia.
Qed.

(** The coarse fallback puts every IPv4-mapped address into one group. Its
    IPv4 prefix length is applied to the 128-bit address, so with any length
    up to 80 the mask of every such address is the same all-zero prefix. *)
Theorem Mask_mapped_collapses b v :
  fits 128 v → Is4In6 (Addr6 v) = true → 0 ≤ IPv4 b ≤ 80 →
  Mask b (Addr6 v) = mkPrefix (Addr6 0) (IPv4 b).
Proof.
  intros Hv H46 Hb. unfold Mask. rewrite H46. cbn [Is6 andb negb addr_Prefix BitLen].
  replace (IPv4 b <? 0) with false by lia. replace (IPv4 b >? 128) with false by lia.
  cbn [orb mask_addr]. do 2 f_equal.
  assert (Z.shiftr v (128 - IPv4 b) = 0) as ->; [|apply Z.shiftl_0_l].
  cbn [Is4In6] in H46. zbool. replace (128 - IPv4 b) with (32 + (96 - IPv4 b)) by lia.
  rewrite <- Z.shiftr_shiftr, H46, Z.shiftr_div_pow2 by lia. apply Z.div_small. split; [lia|].
  apply Z.lt_le_trans with (2 ^ 16); [lia|]. apply Z.pow_le_mono_r; lia.
Qed.

(** ** Witnesses: 10.0.0.0/8, 10.1.2.0/24 and 2001:db8::/32. *)

Definition ex_prefixes : list Prefix :=
  [mkPrefix (Addr4 167772160) 8; mkPrefix (Addr4 167838209) 24;
   mkPrefix (Addr6 42540766411282592856903984951653826560) 32].

Lemma ex_prefixes_ok : Forall rib_prefix_ok ex_prefixes.
Proof.
  repeat (apply Forall_cons; split); [..|apply Forall_nil; exact I];
    (split; [reflexivity|split; [split; done|reflexivity]]).
Qed.

Lemma rib_longest_match_witness :
  ∃ r best, LoadPrefixes ex_prefixes NewRIB = Some (r, None) ∧
    rib_Lookup (Addr4 167838217) r = Some (Some best) ∧ 24 ≤ pf_Bits best.
Proof.
  destruct (rib_longest_match ex_prefixes (Addr4 167838217)) as (r & [best|] & Hl & Hb & Hspec).
  - exact ex_prefixes_ok.
  - split; done.
  - reflexivity.
  - exists r, best. split; [exact Hl|]. split; [exact Hb|].
    destruct Hspec as (_ & _ & Hmax). apply (Hmax (mkPrefix (Addr4 167838209) 24)); [|reflexivity].
    right. left.
  - discriminate (Hspec (mkPrefix (Addr4 167838209) 24) ltac:(right; left)).
Defined.

(** ::ffff:10.0.0.0/104 *)
Lemma AddPrefix_mapped_panics_witness :
  AddPrefix (mkPrefix (Addr6 281470849482752) 104) NewRIB = None.
Proof. apply AddPrefix_mapped_panics; reflexivity. Defined.

(** ::ffff:1.1.1.1 and ::ffff:8.8.8.8 share the group of ::/24. *)
Lemma Mask_mapped_collapses_witness :
  Mask DefaultPrefixBits (Addr6 281470698586369) = Mask DefaultPrefixBits (Addr6 281470816487432).
Proof.
  rewrite (Mask_mapped_collapses DefaultPrefixBits 281470698586369),
    (Mask_mapped_collapses DefaultPrefixBits 281470816487432); try reflexivity;
    vm_compute; split; congruence.
Defined.
