(* ===== verification/Api.v ===== *)
(** * The controller's API: internal/api/types.go, internal/encryption/backend.go

    The records that travel between the controller, the gateways and the
    clients, and the small functions on them. *)

From S2P Require Import Prelude Netip GoFloat Cost Services.
Import Membership.

Definition BackendWireGuard : string := "wireguard".
Definition BackendIPsec : string := "ipsec".

Definition ValidBackend (b : string) : bool :=
  bool_decide (b = "") || bool_decide (b = BackendWireGuard) || bool_decide (b = BackendIPsec).

Definition IPsecGatewayID (id : string) : string := ("gw-" +:+ id)%string.
Definition IPsecClientID (session : string) : string := ("s" +:+ session)%string.

(** [base64.StdEncoding.DecodeString] yields 32 bytes: it skips line breaks,
    and 32 bytes are 43 digits and one padding character. *)
Definition b64_digit (c : Ascii.ascii) : bool :=
  let n := Ascii.nat_of_ascii c in
  ((65 <=? n) && (n <=? 90) || (97 <=? n) && (n <=? 122) || (48 <=? n) && (n <=? 57)
   || (n =? 43) || (n =? 47))%nat.
Definition line_break (c : Ascii.ascii) : bool :=
  let n := Ascii.nat_of_ascii c in ((n =? 10) || (n =? 13))%nat.
Definition base64_32 (s : string) : bool :=
  let cs := filter (λ c, line_break c = false) (String.list_ascii_of_string s) in
  bool_decide (length cs = 44%nat) && forallb b64_digit (take 43 cs) &&
  bool_decide (drop 43 cs = [Ascii.ascii_of_nat 61]).

Record Gateway := mkGateway {
  g_ID : string;
  g_Roles : Z;
  g_Endpoint : string;
  g_PublicKey : string;
  g_NodeIP : Addr;
  g_BackbonePorts : gmap string Z;
  g_IPsec : bool;
  g_Alive : bool;
}.

#[export] Instance Gateway_eq_dec : EqDecision Gateway.
Proof. solve_decision. Defined.
#[export] Instance Gateway_countable : Countable Gateway.
Proof.
  refine (inj_countable' (λ g, (g_ID g, g_Roles g, g_Endpoint g, g_PublicKey g,
            g_NodeIP g, g_BackbonePorts g, g_IPsec g, g_Alive g))
            (λ '(i, r, e, k, n, b, p, a), mkGateway i r e k n b p a) _). by intros [].
Defined.

(** [Gateway{}], which [FindGateway] returns when it finds nothing. *)
Definition zeroGateway : Gateway := mkGateway "" 0 "" "" AddrInvalid ∅ false false.

(** net/netip's parser of "ip:port", as the sources use it. *)
Class NetParse := { ParseAddrPort : string → option (Addr * Z) }.

Definition Host `{NetParse} (g : Gateway) : option Addr := fst <$> ParseAddrPort (g_Endpoint g).

Record RegisterGatewayRequest := mkRegister {
  rg_Roles : Z;
  rg_Endpoint : string;
  rg_PublicKey : string;
  rg_BackbonePorts : gmap string Z;
  rg_IPsec : bool;
}.

Record Network := mkNetwork { ClientSubnet : Prefix; NodeSubnet : Prefix; ProbePort : Z }.

(** [api.Session] *)
Record ApiSession := mkSession {
  s_ID : string;
  s_PublicKey : string;
  s_VirtualIP : Addr;
  s_Access : string;
  s_Egress : string;
  s_Epoch : Z;
  s_Backend : string;
  s_IPsecPSK : string;
}.

Record GatewayState := mkGWState {
  st_Version : Z;
  st_Network : Network;
  st_Gateways : list Gateway;
  st_Sessions : list ApiSession;
}.

Record Link := mkLink { l_From : string; l_To : string; l_Stats : SegmentStats; l_Staleness : Duration }.

Record CreateSessionRequest := mkCreate {
  cr_PublicKey : string;
  cr_Egress : string;
  cr_Secret : string;
  cr_Backend : string;
}.

Record CreateSessionResponse := mkCreated {
  cs_Session : ApiSession;
  cs_Secret : string;
  cs_Network : Network;
}.

Record ClientState := mkCState {
  cl_Version : Z;
  cl_Network : Network;
  cl_Session : ApiSession;
  cl_Gateways : list Gateway;
  cl_Links : list Link;
  cl_Policy : Policy.PolicyDocument;
}.

Record MigrateRequest := mkMigrate { m_Epoch : Z; m_Access : string; m_Egress : string }.

Definition FindGateway (gws : list Gateway) (id : string) : Gateway * bool :=
  match list_find (λ g, g_ID g = id) gws with
  | None => (zeroGateway, false)
  | Some (_, g) => (g, true)
  end.

Lemma FindGateway_true gws id g :
  FindGateway gws id = (g, true) → g ∈ gws ∧ g_ID g = id.
Proof.
  unfold FindGateway. destruct (list_find _ gws) as [[i x]|] eqn:E; [|done].
  intros [= <-]. apply list_find_Some in E as (Hi & ? & _).
  split; [by eapply list_elem_of_lookup_2|done].
Qed.

Lemma FindGateway_false gws id g :
  FindGateway gws id = (g, false) → g = zeroGateway ∧ ∀ x, x ∈ gws → g_ID x ≠ id.
Proof.
  unfold FindGateway. destruct (list_find _ gws) as [[i x]|] eqn:E; [done|].
  intros [= <-]. split; [done|]. apply list_find_None in E.
  intros x Hx. by apply (proj1 (Forall_forall _ _) E).
Qed.

(** ** Encryption backends *)

Inductive Fencing := FencingEpochHeader | FencingSATeardown.

Record Capabilities := mkCaps {
  KernelDataPath : bool;
  InBandSessionHeader : bool;
  AuthenticatedSessionMetadata : bool;
  PassiveLoss : bool;
  PassiveJitter : bool;
  CrossPathDedup : bool;
  cap_Fencing : Fencing;
}.

(** [None] is the panic on an unknown backend. *)
Definition backend_Capabilities (b : string) : option Capabilities :=
  if bool_decide (b = BackendWireGuard) then
    Some (mkCaps false true false true true true FencingEpochHeader)
  else if bool_decide (b = BackendIPsec) then
    Some (mkCaps true false true true false false FencingSATeardown)
  else None.
