(* ===== verification/Plan.v ===== *)
(** * A gateway's plan: internal/gateway/plan.go

    [MakePlan] computes what one gateway should configure for a state the
    controller reports. The theorems put the plans of the gateways of a path
    together: traffic and its replies take the path the session record names. *)

From S2P Require Import Prelude Netip Services Api.
Import Membership.

Record Backbone := mkBackbone {
  b_PublicKey : string;
  (** the address and port the endpoint string is made of; [None] is empty *)
  b_Endpoint : option (Addr * Z);
  b_NodeIP : Addr;
}.

Record IPsecClient := mkIPsecClient { ic_VirtualIP : Addr; ic_PSK : string }.

Record SessionPath := mkSessionPath { sp_VirtualIP : Addr; sp_Access : string; sp_Egress : string; sp_Epoch : Z }.

Record Plan := mkPlan {
  Peers : gmap string Addr;
  Backbones : gmap string Backbone;
  Forward : gmap Addr string;
  Return : gmap Addr string;
  Epochs : gmap string Z;
  AccessSessions : Z;
  EgressSessions : Z;
  Sessions : gmap string SessionPath;
  IPsec : gmap string IPsecClient;
  IPsecHere : gmap Addr bool;
}.

Section Plan.
Context `{NetParse}.

(** The loop over the gateways. *)
Definition plan_gateway (me : string) (bs : gmap string Backbone) (g : Gateway) : gmap string Backbone :=
  if bool_decide (g_ID g = me) then bs
  else
    let endpoint :=
      match g_BackbonePorts g !! me with
      | Some port => match Host g with Some host => Some (host, port) | None => None end
      | None => None
      end in
    <[g_ID g := mkBackbone (g_PublicKey g) endpoint (g_NodeIP g)]> bs.

Definition known_gateways (gws : list Gateway) : gset string := list_to_set (g_ID <$> gws).

(** The loop over the sessions, one field at a time: each is what the body
    does to that field. *)
Section Session.
Context (me : string) (isAccess isEgress : bool) (known : gset string).

Definition plan_peer (m : gmap string Addr) (s : ApiSession) :=
  if isAccess && negb (bool_decide (s_Backend s = BackendIPsec))
  then <[s_PublicKey s := s_VirtualIP s]> m else m.
Definition plan_forward (m : gmap Addr string) (s : ApiSession) :=
  if isAccess && negb (bool_decide (s_Egress s = me)) && bool_decide (s_Egress s ∈ known)
  then <[s_VirtualIP s := s_Egress s]> m else m.
Definition plan_return (m : gmap Addr string) (s : ApiSession) :=
  if isEgress && bool_decide (s_Egress s = me) && negb (bool_decide (s_Access s = me))
     && bool_decide (s_Access s ∈ known)
  then <[s_VirtualIP s := s_Access s]> m else m.
Definition plan_ipsec (m : gmap string IPsecClient) (s : ApiSession) :=
  if isAccess && bool_decide (s_Backend s = BackendIPsec)
  then <[s_ID s := mkIPsecClient (s_VirtualIP s) (s_IPsecPSK s)]> m else m.
Definition plan_here (m : gmap Addr bool) (s : ApiSession) :=
  if isAccess && bool_decide (s_Backend s = BackendIPsec) && bool_decide (s_Access s = me)
  then <[s_VirtualIP s := true]> m else m.

Definition plan_session (p : Plan) (s : ApiSession) : Plan :=
  mkPlan (plan_peer (Peers p) s) (Backbones p) (plan_forward (Forward p) s) (plan_return (Return p) s)
    (<[s_ID s := s_Epoch s]> (Epochs p))
    (if isAccess && bool_decide (s_Access s = me) then AccessSessions p + 1 else AccessSessions p)
    (if isEgress && bool_decide (s_Egress s = me) then EgressSessions p + 1 else EgressSessions p)
    (<[s_ID s := mkSessionPath (s_VirtualIP s) (s_Access s) (s_Egress s) (s_Epoch s)]> (Sessions p))
    (plan_ipsec (IPsec p) s) (plan_here (IPsecHere p) s).
End Session.

Definition MakePlan (me : string) (roles : Z) (st : GatewayState) : Plan :=
  let known := known_gateways (st_Gateways st) in
  let p := mkPlan ∅ (fold_left (plan_gateway me) (st_Gateways st) ∅) ∅ ∅ ∅ 0 0 ∅ ∅ ∅ in
  fold_left (plan_session me (Has roles RoleAccess) (Has roles RoleEgress) known) (st_Sessions st) p.

Definition BackboneIDs (p : Plan) : list string :=
  merge_sort (le_by id) (map_to_list (Backbones p)).*1.

(** ** Lemmas *)

(** A loop that inserts one entry per accepted session. *)
Definition collect {K V} `{Countable K} (c : ApiSession → bool) (k : ApiSession → K) (x : ApiSession → V)
    (l : list ApiSession) (m : gmap K V) : gmap K V :=
  fold_left (λ m s, if c s then <[k s := x s]> m else m) l m.

Lemma collect_lookup {K V} `{Countable K} c k (x : ApiSession → V) l (m : gmap K V) key v :
  NoDup (k <$> l) →
  collect c k x l m !! key = Some v ↔
  (∃ s, s ∈ l ∧ c s = true ∧ k s = key ∧ x s = v) ∨
  (m !! key = Some v ∧ ∀ s, s ∈ l → c s = true → k s ≠ key).
Proof.
  unfold collect. revert m. induction l as [|s l IH]; intros m Hnd; simpl.
  { split; [intros Hm; right; split; [done|by intros ? ?%elem_of_nil]|].
    intros [(s & Hs%elem_of_nil & _)|[Hm _]]; done. }
  apply NoDup_cons in Hnd as [Hs Hnd]. rewrite IH by done.
  assert (∀ t, t ∈ l → k t ≠ k s) as Hne.
  { intros t Ht Heq. apply Hs. rewrite <- Heq. by apply list_elem_of_fmap_2. }
  setoid_rewrite elem_of_cons. destruct (c s) eqn:Ec.
  - rewrite lookup_insert_Some. split.
    + intros [(t & Ht & Hc & Hk & Hx)|[[[Hk Hx]|[Hk Hm]] Hall]].
      * left. exists t. by split_and!; [right| | |].
      * left. exists s. by split_and!; [left| | |].
      * right. split; [done|]. intros t [->|Ht] Hc; [done|by apply Hall].
    + intros [(t & [->|Ht] & Hc & Hk & Hx)|[Hm Hall]].
      * right. split; [by left|]. intros t Ht _ Hkt. apply (Hne t Ht). congruence.
      * left. by exists t.
      * right. split; [right; split; [|done]; apply Hall; [by left|done]|].
        intros t Ht Hc. apply Hall; [by right|done].
  - split.
    + intros [(t & Ht & Hc & Hk & Hx)|[Hm Hall]].
      * left. exists t. by split_and!; [right| | |].
      * right. split; [done|]. intros t [->|Ht] Hc; [congruence|by apply Hall].
    + intros [(t & [->|Ht] & Hc & Hk & Hx)|[Hm Hall]]; [congruence| |].
      * left. by exists t.
      * right. split; [done|]. intros t Ht Hc. apply Hall; [by right|done].
Qed.

(** The plan's fields are these loops. *)
Lemma plan_loop_fields me ia ie known l p0 :
  let p := fold_left (plan_session me ia ie known) l p0 in
  Forward p = collect (λ s, ia && negb (bool_decide (s_Egress s = me)) && bool_decide (s_Egress s ∈ known))
                s_VirtualIP s_Egress l (Forward p0) ∧
  Return p = collect (λ s, ie && bool_decide (s_Egress s = me) && negb (bool_decide (s_Access s = me))
                           && bool_decide (s_Access s ∈ known))
               s_VirtualIP s_Access l (Return p0) ∧
  Peers p = collect (λ s, ia && negb (bool_decide (s_Backend s = BackendIPsec)))
              s_PublicKey s_VirtualIP l (Peers p0) ∧
  IPsec p = collect (λ s, ia && bool_decide (s_Backend s = BackendIPsec))
              s_ID (λ s, mkIPsecClient (s_VirtualIP s) (s_IPsecPSK s)) l (IPsec p0) ∧
  Backbones p = Backbones p0.
Proof.
  revert p0. induction l as [|s l IH]; intros p0 p; [done|].
  destruct (IH (plan_session me ia ie known p0 s)) as (HF & HR & HP & HI & HB).
  unfold p. cbn [fold_left]. rewrite HF, HR, HP, HI, HB. done.
Qed.

Lemma plan_fields me roles st :
  let known := known_gateways (st_Gateways st) in
  let ia := Has roles RoleAccess in
  let ie := Has roles RoleEgress in
  let p := MakePlan me roles st in
  Forward p = collect (λ s, ia && negb (bool_decide (s_Egress s = me)) && bool_decide (s_Egress s ∈ known))
                s_VirtualIP s_Egress (st_Sessions st) ∅ ∧
  Return p = collect (λ s, ie && bool_decide (s_Egress s = me) && negb (bool_decide (s_Access s = me))
                           && bool_decide (s_Access s ∈ known))
               s_VirtualIP s_Access (st_Sessions st) ∅ ∧
  Peers p = collect (λ s, ia && negb (bool_decide (s_Backend s = BackendIPsec)))
              s_PublicKey s_VirtualIP (st_Sessions st) ∅ ∧
  IPsec p = collect (λ s, ia && bool_decide (s_Backend s = BackendIPsec))
              s_ID (λ s, mkIPsecClient (s_VirtualIP s) (s_IPsecPSK s)) (st_Sessions st) ∅ ∧
  Backbones p = fold_left (plan_gateway me) (st_Gateways st) ∅.
Proof. apply plan_loop_fields. Qed.

(** ** Properties *)

(** What the plans are made for: every gateway its own roles, every session a
    virtual IP of its own. *)
Definition state_ok (st : GatewayState) : Prop := NoDup (s_VirtualIP <$> st_Sessions st).

Definition plan_at (st : GatewayState) (g : Gateway) : Plan := MakePlan (g_ID g) (g_Roles g) st.

(** C27: the gateways' plans agree on every session's path. At any access
    gateway, whether or not the session's, the traffic of a session leaving
    elsewhere is forwarded to exactly its egress, and that of a session
    leaving here is not forwarded; at the session's egress the replies are
    returned to exactly its access, or handed over locally when they are the
    same; no other gateway returns them; and no gateway both forwards and
    returns the same address, so the two together cannot loop. *)
Theorem plans_follow_path st s :
  state_ok st → s ∈ st_Sessions st →
  s_Access s ∈ known_gateways (st_Gateways st) → s_Egress s ∈ known_gateways (st_Gateways st) →
  ∀ g, let p := plan_at st g in
  (Has (g_Roles g) RoleAccess = true →
     Forward p !! s_VirtualIP s = if decide (s_Egress s = g_ID g) then None else Some (s_Egress s)) ∧
  (Has (g_Roles g) RoleEgress = true → s_Egress s = g_ID g →
     Return p !! s_VirtualIP s = if decide (s_Access s = g_ID g) then None else Some (s_Access s)) ∧
  (s_Egress s ≠ g_ID g → Return p !! s_VirtualIP s = None) ∧
  (is_Some (Forward p !! s_VirtualIP s) → Return p !! s_VirtualIP s = None).
Proof.
  intros Hnd Hs Ha He g p. destruct (plan_fields (g_ID g) (g_Roles g) st) as (HF & HR & _).
  assert (∀ t, t ∈ st_Sessions st → s_VirtualIP t = s_VirtualIP s → t = s) as Huniq.
  { intros t Ht Heq. apply list_elem_of_lookup in Hs as [i Hi]. apply list_elem_of_lookup in Ht as [j Hj].
    assert (i = j) as <-; [|congruence].
    apply (NoDup_lookup (s_VirtualIP <$> st_Sessions st) _ _ (s_VirtualIP s)); try done;
      rewrite list_lookup_fmap, ?Hi, ?Hj; simpl; congruence. }
  assert (∀ e, Forward p !! s_VirtualIP s = Some e ↔
    Has (g_Roles g) RoleAccess = true ∧ s_Egress s ≠ g_ID g ∧ e = s_Egress s) as HFw.
  { intros e. unfold p, plan_at. rewrite HF, collect_lookup by done. split.
    - intros [(t & Ht & Hc & Hk & <-)|[Hm _]]; [|by rewrite lookup_empty in Hm].
      rewrite (Huniq t Ht Hk) in *. zbool. done.
    - intros (Hacc & Hne & ->). left. exists s. split_and!; try done.
      rewrite Hacc, bool_decide_eq_false_2, bool_decide_eq_true_2 by done. done. }
  assert (∀ a, Return p !! s_VirtualIP s = Some a ↔
    Has (g_Roles g) RoleEgress = true ∧ s_Egress s = g_ID g ∧ s_Access s ≠ g_ID g ∧ a = s_Access s) as HRt.
  { intros a. unfold p, plan_at. rewrite HR, collect_lookup by done. split.
    - intros [(t & Ht & Hc & Hk & <-)|[Hm _]]; [|by rewrite lookup_empty in Hm].
      rewrite (Huniq t Ht Hk) in *. zbool. done.
    - intros (Heg & He' & Hne & ->). left. exists s. split_and!; try done.
      rewrite Heg, (bool_decide_eq_true_2 (s_Egress s = _)), bool_decide_eq_false_2,
        bool_decide_eq_true_2 by done. done. }
  split_and!.
  - intros Hacc. case_decide as Hd; [|by apply HFw]. apply eq_None_not_Some. intros [e Hx].
    apply HFw in Hx as (_ & ? & _). done.
  - intros Heg Hme. case_decide as Hd; [|by apply HRt]. apply eq_None_not_Some. intros [e Hx].
    apply HRt in Hx as (_ & _ & ? & _). done.
  - intros Hne. apply eq_None_not_Some. intros [a Hx]. apply HRt in Hx as (_ & ? & _). done.
  - intros [e (_ & Hne & _)%HFw]. apply eq_None_not_Some. intros [a Hx].
    apply HRt in Hx as (_ & ? & _). done.
Qed.

(** The same state after session [id] moved to another access gateway. *)
Definition move_access (id access : string) (s : ApiSession) : ApiSession :=
  if bool_decide (s_ID s = id)
  then mkSession (s_ID s) (s_PublicKey s) (s_VirtualIP s) access (s_Egress s) (u64 (s_Epoch s + 1))
                 (s_Backend s) (s_IPsecPSK s)
  else s.
Definition moved (id access : string) (st : GatewayState) : GatewayState :=
  mkGWState (st_Version st + 1) (st_Network st) (st_Gateways st) (move_access id access <$> st_Sessions st).

Lemma collect_moved {K V} `{Countable K} c k (x : ApiSession → V) f l (m : gmap K V) :
  (∀ s, c (f s) = c s ∧ k (f s) = k s ∧ x (f s) = x s) → collect c k x (f <$> l) m = collect c k x l m.
Proof.
  intros Hf. unfold collect. revert m. induction l as [|s l IH]; intros m; simpl; [done|].
  destruct (Hf s) as (-> & -> & ->). apply IH.
Qed.

(** A client that changes access is forwarded at once. Moving a session to
    another access gateway leaves the forwarding rules, the tunnel peers, the
    IPsec connections and the backbones of every gateway as they were; apart
    from the epoch and the counters, only the egress's return route and the
    set of IPsec sessions served here follow the move. *)
Theorem access_move_keeps_forwarding me roles id access st :
  let p := MakePlan me roles st in
  let p' := MakePlan me roles (moved id access st) in
  Forward p' = Forward p ∧ Peers p' = Peers p ∧ IPsec p' = IPsec p ∧ Backbones p' = Backbones p.
Proof.
  destruct (plan_fields me roles st) as (HF & _ & HP & HI & HB).
  destruct (plan_fields me roles (moved id access st)) as (HF' & _ & HP' & HI' & HB').
  cbn zeta. rewrite HF, HP, HI, HB, HF', HP', HI', HB'. simpl.
  assert (∀ s, s_Egress (move_access id access s) = s_Egress s ∧ s_VirtualIP (move_access id access s) = s_VirtualIP s ∧
    s_PublicKey (move_access id access s) = s_PublicKey s ∧ s_Backend (move_access id access s) = s_Backend s ∧
    s_ID (move_access id access s) = s_ID s ∧ s_IPsecPSK (move_access id access s) = s_IPsecPSK s) as Hm.
  { intros s. unfold move_access. by case_bool_decide. }
  split_and!; try done; apply collect_moved; intros s; destruct (Hm s) as (E1 & E2 & E3 & E4 & E5 & E6);
    rewrite ?E1, ?E2, ?E3, ?E4, ?E5, ?E6; done.
Qed.
End Plan.

(** ** Witness: gateways hk and sg, a session in through hk and out at sg. *)
Definition ex_state : GatewayState :=
  mkGWState 5 (mkNetwork zeroPrefix zeroPrefix 0)
    [mkGateway "hk" 3 "" "k1" (Addr4 1) ∅ false true; mkGateway "sg" 3 "" "k2" (Addr4 2) ∅ false true]
    [mkSession "7" "pk" (Addr4 100) "hk" "sg" 3 "wireguard" ""].

Lemma plans_follow_path_witness :
  let N := {| ParseAddrPort := λ _, None |} in
  Forward (@plan_at N ex_state (mkGateway "hk" 3 "" "k1" (Addr4 1) ∅ false true)) !! Addr4 100 = Some "sg" ∧
  Return (@plan_at N ex_state (mkGateway "sg" 3 "" "k2" (Addr4 2) ∅ false true)) !! Addr4 100 = Some "hk".
Proof.
  intros N.
  pose proof (@plans_follow_path N ex_state (mkSession "7" "pk" (Addr4 100) "hk" "sg" 3 "wireguard" "")) as H.
  assert (∀ g, g = "hk" ∨ g = "sg" → g ∈ known_gateways (st_Gateways ex_state)) as Hk.
  { intros g Hg. unfold known_gateways. simpl. set_solver. }
  assert (state_ok ex_state) as Hok by (apply NoDup_singleton).
  specialize (H Hok (list_elem_of_here _ _) (Hk _ (or_introl eq_refl)) (Hk _ (or_intror eq_refl))).
  split.
  - exact (proj1 (H (mkGateway "hk" 3 "" "k1" (Addr4 1) ∅ false true)) eq_refl).
  - exact (proj1 (proj2 (H (mkGateway "sg" 3 "" "k2" (Addr4 2) ∅ false true))) eq_refl eq_refl).
Defined.
