(* ===== verification/GatewayAgent.v ===== *)
(** * The gateway agent: apply of internal/gateway/agent.go and the IPsec half
    of it in internal/gateway/ipsec.go

    [apply] brings the host in line with a plan. The host (the ip command,
    WireGuard devices, charon, the probe monitor) is a parameter: a state and
    a function that runs one command and says whether it failed. Go's map
    iteration order is a parameter too. The theorems: an apply without errors
    leaves the agent's tables equal to the plan and the host's policy rules
    equal to the tables, from any earlier state; and what two failing commands
    leave behind. *)

From S2P Require Import Prelude Netip Services Api Plan EpochGate.
Import Membership.

#[export] Instance Backbone_eq_dec : EqDecision Backbone.
Proof. solve_decision. Defined.
#[export] Instance IPsecClient_eq_dec : EqDecision IPsecClient.
Proof. solve_decision. Defined.

Definition egressTableBase : Z := 1000.
Definition backboneKeepalive : Duration := 5 * Second.
Definition ipsecDevice : string := "egi0".

(** Everything the agent asks of the host. *)
Inductive cmd :=
| FlushTable (table : Z)
| Blackhole (table : Z)
| NewDevice (name : string)
| AddrUp (name : string) (addr : Addr)
| DefaultRoute (name : string) (table : Z)
| CloseDevice (name : string)
| DevAddPeer (name key : string) (endpoint : option (Addr * Z)) (keepalive : Duration)
| DevRemovePeer (name key : string)
| NodeRoute (nodeIP : Addr) (name : string) (src : Addr)
| MonitorSet (targets : gmap string (Addr * Z))
| ClientAddPeer (key : string) (vip : Addr)
| ClientRemovePeer (key : string)
| AddRule (vip : Addr) (table : Z)
| DelRule (vip : Addr) (table : Z)
| ReplaceRoute (vip : Addr) (name : string)
| DelRoute (vip : Addr)
| DelRouteDev (vip : Addr) (name : string)
| ProbeRoute (vip : Addr)
| DelProbeRoute (vip : Addr)
| LoadShared (name psk : string) (owner : string)
| LoadConn (name localID remoteID psk : string) (vip : Addr)
| UnloadShared (name : string)
| UnloadConn (name : string)
| TerminateIKE (name : string).

(** [exec] runs a command; [false] is an error the agent does not ignore.
    [handshaken h dev key]: the device has completed a handshake with key. *)
Class Host (H : Type) := {
  exec : cmd → H → bool * H;
  handshaken : H → string → string → bool;
}.

(** [tunnel.DecodeBase64] succeeds. *)
Definition DecodeBase64 (key : string) : bool := base64_32 key.

(** ** State *)

Record backbone := mkBB { bb_name : string; bb_want : Backbone; bb_set : bool; bb_up : bool }.

(** The settings [apply] reads, with the agent's node address and the network's
    probe port, which registration fills in. *)
Record AConfig := mkAConfig {
  ac_ID : string;
  ac_Roles : Z;
  ac_nodeIP : Addr;
  ac_ProbePort : Z;
  ac_IPsec : bool;   (* cfg.IPsec != nil *)
}.

(** The fields under the agent's mutex, with the fence that [apply] publishes. *)
Record Agent := mkAgent {
  ag_index : gmap string Z;
  ag_nextIndex : Z;
  ag_backbones : gmap string backbone;
  ag_peers : gmap string Addr;
  ag_forward : gmap Addr string;
  ag_ret : gmap Addr string;
  ag_fence : Fence;
  ag_sessions : Z * Z;              (* accessSessions, egressSessions *)
  ag_applied : gmap string SessionPath;
  ag_ipsecConns : gmap string IPsecClient;
  ag_ipsecHere : gmap Addr bool;
}.

Definition NewAgent : Agent := mkAgent ∅ 0 ∅ ∅ ∅ ∅ newFence (0, 0) ∅ ∅ ∅.

Inductive apply_error := Failed (c : cmd) | BadKey (key : string).

(** A migration.apply span: session, its path before and now, what the agent
    forwards and returns it to, and whether its routing failed. *)
Record span := mkSpan {
  spn_session : string; spn_was : SessionPath; spn_now : SessionPath;
  spn_forward : string; spn_return : string; spn_failed : bool;
}.

Section agent.
Context {H : Type} `{!Host H} `{!Range} (cfg : AConfig).

(** The agent in the middle of [apply]: its fields, the host, [errs] and the
    keys of [vipErrs]. *)
Record ast := mkAst { as_ag : Agent; as_host : H; as_errs : list apply_error; as_vips : gset Addr }.

Definition on_ag (f : Agent → Agent) (s : ast) : ast := mkAst (f (as_ag s)) (as_host s) (as_errs s) (as_vips s).
Definition add_err (e : apply_error) (s : ast) : ast :=
  mkAst (as_ag s) (as_host s) (as_errs s ++ [e]) (as_vips s).
Definition add_vip (v : Addr) (s : ast) : ast :=
  mkAst (as_ag s) (as_host s) (as_errs s) ({[v]} ∪ as_vips s).

Definition set_index (i : gmap string Z) (n : Z) (a : Agent) : Agent :=
  mkAgent i n (ag_backbones a) (ag_peers a) (ag_forward a) (ag_ret a) (ag_fence a) (ag_sessions a)
    (ag_applied a) (ag_ipsecConns a) (ag_ipsecHere a).
Definition set_backbones (m : gmap string backbone) (a : Agent) : Agent :=
  mkAgent (ag_index a) (ag_nextIndex a) m (ag_peers a) (ag_forward a) (ag_ret a) (ag_fence a) (ag_sessions a)
    (ag_applied a) (ag_ipsecConns a) (ag_ipsecHere a).
Definition set_peers (m : gmap string Addr) (a : Agent) : Agent :=
  mkAgent (ag_index a) (ag_nextIndex a) (ag_backbones a) m (ag_forward a) (ag_ret a) (ag_fence a) (ag_sessions a)
    (ag_applied a) (ag_ipsecConns a) (ag_ipsecHere a).
Definition set_forward (m : gmap Addr string) (a : Agent) : Agent :=
  mkAgent (ag_index a) (ag_nextIndex a) (ag_backbones a) (ag_peers a) m (ag_ret a) (ag_fence a) (ag_sessions a)
    (ag_applied a) (ag_ipsecConns a) (ag_ipsecHere a).
Definition set_ret (m : gmap Addr string) (a : Agent) : Agent :=
  mkAgent (ag_index a) (ag_nextIndex a) (ag_backbones a) (ag_peers a) (ag_forward a) m (ag_fence a) (ag_sessions a)
    (ag_applied a) (ag_ipsecConns a) (ag_ipsecHere a).
Definition set_fence (f : Fence) (n : Z * Z) (a : Agent) : Agent :=
  mkAgent (ag_index a) (ag_nextIndex a) (ag_backbones a) (ag_peers a) (ag_forward a) (ag_ret a) f n
    (ag_applied a) (ag_ipsecConns a) (ag_ipsecHere a).
Definition set_applied (m : gmap string SessionPath) (a : Agent) : Agent :=
  mkAgent (ag_index a) (ag_nextIndex a) (ag_backbones a) (ag_peers a) (ag_forward a) (ag_ret a) (ag_fence a)
    (ag_sessions a) m (ag_ipsecConns a) (ag_ipsecHere a).
Definition set_ipsec (c : gmap string IPsecClient) (h : gmap Addr bool) (a : Agent) : Agent :=
  mkAgent (ag_index a) (ag_nextIndex a) (ag_backbones a) (ag_peers a) (ag_forward a) (ag_ret a) (ag_fence a)
    (ag_sessions a) (ag_applied a) c h.

(** Running a command, its error left to the caller. *)
Definition sys (c : cmd) (s : ast) : bool * ast :=
  let '(ok, h) := exec c (as_host s) in (ok, mkAst (as_ag s) h (as_errs s) (as_vips s)).
(** Running a command whose error is ignored. *)
Definition sys_ (c : cmd) (s : ast) : ast := (sys c s).2.
(** [if err := ...; err != nil { errs = append(errs, err) }] *)
Definition sys_err (c : cmd) (s : ast) : ast :=
  let '(ok, s) := sys c s in if ok then s else add_err (Failed c) s.

(** ** Backbones *)

(** [indexLocked]: the number, an error if there was one. *)
Definition indexLocked (id : string) (s : ast) : option apply_error * Z * ast :=
  match ag_index (as_ag s) !! id with
  | Some n => (None, n, s)
  | None =>
      let n := ag_nextIndex (as_ag s) in
      let s := on_ag (set_index (<[id := n]> (ag_index (as_ag s))) (n + 1)) s in
      let '(ok, s) := sys (FlushTable (egressTableBase + n)) s in
      if negb ok then (Some (Failed (FlushTable (egressTableBase + n))), n, s) else
      let '(ok, s) := sys (Blackhole (egressTableBase + n)) s in
      if negb ok then (Some (Failed (Blackhole (egressTableBase + n))), n, s) else (None, n, s)
  end.

(** A sequence of commands up to the first that fails; [Close] after it. *)
Fixpoint sys_all (cs : list cmd) (s : ast) : option apply_error * ast :=
  match cs with
  | [] => (None, s)
  | c :: cs => let '(ok, s) := sys c s in if ok then sys_all cs s else (Some (Failed c), s)
  end.

(** The first half of [applyBackboneLocked]: the device, made if it is new. *)
Definition backbone_device (id : string) (s : ast) : res apply_error backbone * ast :=
  match ag_backbones (as_ag s) !! id with
  | Some b => (Ok b, s)
  | None =>
      let '(err, n, s) := indexLocked id s in
      match err with
      | Some e => (Err e, s)
      | None =>
          let name := ("egb" +:+ pretty n)%string in
          let '(ok, s) := sys (NewDevice name) s in
          if negb ok then (Err (Failed (NewDevice name)), s) else
          match sys_all [AddrUp name (ac_nodeIP cfg); DefaultRoute name (egressTableBase + n)] s with
          | (Some e, s) => (Err e, sys_ (CloseDevice name) s)
          | (None, s) =>
              let b := mkBB name (mkBackbone "" None AddrInvalid) false false in
              (Ok b, on_ag (λ a, set_backbones (<[id := b]> (ag_backbones a)) a) s)
          end
      end
  end.

Definition set_backbone (id : string) (b : backbone) (s : ast) : ast :=
  on_ag (λ a, set_backbones (<[id := b]> (ag_backbones a)) a) s.

Definition applyBackboneLocked (id : string) (want : Backbone) (s : ast) : option apply_error * ast :=
  match backbone_device id s with
  | (Err e, s) => (Some e, s)
  | (Ok b, s) =>
      if bb_set b && bool_decide (bb_want b = want) then (None, s) else
      let initiator := str_ltb (ac_ID cfg) id in
      let keepalive := if initiator then backboneKeepalive else 0 in
      let '(b, s) :=
        if bb_set b && (negb (bool_decide (b_PublicKey (bb_want b) = b_PublicKey want))
                        || (initiator && negb (bool_decide (b_Endpoint (bb_want b) = b_Endpoint want)))) then
          let s := if DecodeBase64 (b_PublicKey (bb_want b))
                   then sys_ (DevRemovePeer (bb_name b) (b_PublicKey (bb_want b))) s else s in
          let b := mkBB (bb_name b) (bb_want b) (bb_set b) false in
          (b, set_backbone id b s)
        else (b, s) in
      if negb (DecodeBase64 (b_PublicKey want)) then (Some (BadKey (b_PublicKey want)), s) else
      match sys_all [DevAddPeer (bb_name b) (b_PublicKey want) (b_Endpoint want) keepalive;
                     NodeRoute (b_NodeIP want) (bb_name b) (ac_nodeIP cfg)] s with
      | (Some e, s) => (Some e, s)
      | (None, s) => (None, set_backbone id (mkBB (bb_name b) want true (bb_up b)) s)
      end
  end.

(** [setProbeTargetsLocked] *)
Definition probe_target (h : H) (b : backbone) : bool :=
  bb_set b && DecodeBase64 (b_PublicKey (bb_want b)) && handshaken h (bb_name b) (b_PublicKey (bb_want b)).
Definition setProbeTargetsLocked (s : ast) : ast :=
  let bs := ag_backbones (as_ag s) in
  let targets := (λ b, (b_NodeIP (bb_want b), ac_ProbePort cfg)) <$>
                 filter (λ kv, probe_target (as_host s) kv.2 = true) bs in
  let up b := if probe_target (as_host s) b then mkBB (bb_name b) (bb_want b) (bb_set b) true else b in
  sys_err (MonitorSet targets) (on_ag (set_backbones (up <$> bs)) s).

(** ** The loops of [apply] *)

Definition drop_backbone (p : Plan) (s : ast) (kv : string * backbone) : ast :=
  let '(id, b) := kv in
  match Backbones p !! id with
  | Some _ => s
  | None => on_ag (λ a, set_backbones (delete id (ag_backbones a)) a) (sys_ (CloseDevice (bb_name b)) s)
  end.

Definition add_backbone (p : Plan) (s : ast) (id : string) : ast :=
  match Backbones p !! id with
  | Some want => match applyBackboneLocked id want s with (Some e, s) => add_err e s | (None, s) => s end
  | None => s
  end.

Definition drop_peer (p : Plan) (s : ast) (kv : string * Addr) : ast :=
  let '(key, vip) := kv in
  if bool_decide (Peers p !! key = Some vip) then s
  else
    let s := if DecodeBase64 key then sys_err (ClientRemovePeer key) s else s in
    on_ag (λ a, set_peers (delete key (ag_peers a)) a) s.

Definition add_peer (s : ast) (kv : string * Addr) : ast :=
  let '(key, vip) := kv in
  match ag_peers (as_ag s) !! key with
  | Some _ => s
  | None =>
      if negb (DecodeBase64 key) then add_err (BadKey key) s else
      let '(ok, s) := sys (ClientAddPeer key vip) s in
      if negb ok then add_err (Failed (ClientAddPeer key vip)) s
      else on_ag (λ a, set_peers (<[key := vip]> (ag_peers a)) a) s
  end.

(** [p.Forward[vip] == egress]: a missing entry reads as the empty string. *)
Definition drop_forward (p : Plan) (s : ast) (kv : Addr * string) : ast :=
  let '(vip, egress) := kv in
  if bool_decide (default EmptyString (Forward p !! vip) = egress) then s
  else
    let c := DelRule vip (egressTableBase + default 0 (ag_index (as_ag s) !! egress)) in
    let '(ok, s) := sys c s in
    let s := if ok then s else add_vip vip (add_err (Failed c) s) in
    on_ag (λ a, set_forward (delete vip (ag_forward a)) a) s.

Definition add_forward (s : ast) (kv : Addr * string) : ast :=
  let '(vip, egress) := kv in
  match ag_forward (as_ag s) !! vip with
  | Some _ => s
  | None =>
      match indexLocked egress s with
      | (Some e, _, s) => add_vip vip (add_err e s)
      | (None, n, s) =>
          let c := AddRule vip (egressTableBase + n) in
          let '(ok, s) := sys c s in
          if negb ok then add_vip vip (add_err (Failed c) s)
          else on_ag (λ a, set_forward (<[vip := egress]> (ag_forward a)) a) s
      end
  end.

Definition drop_return (p : Plan) (s : ast) (kv : Addr * string) : ast :=
  let '(vip, access) := kv in
  if bool_decide (default EmptyString (Return p !! vip) = access) then s
  else
    let '(ok, s) := sys (DelRoute vip) s in
    let s := if ok then s else add_vip vip (add_err (Failed (DelRoute vip)) s) in
    on_ag (λ a, set_ret (delete vip (ag_ret a)) a) s.

Definition add_return (s : ast) (kv : Addr * string) : ast :=
  let '(vip, access) := kv in
  match ag_ret (as_ag s) !! vip with
  | Some _ => s
  | None =>
      match ag_backbones (as_ag s) !! access with
      | None => s
      | Some b =>
          let c := ReplaceRoute vip (bb_name b) in
          let '(ok, s) := sys c s in
          if negb ok then add_vip vip (add_err (Failed c) s)
          else on_ag (λ a, set_ret (<[vip := access]> (ag_ret a)) a) s
      end
  end.

(** ** IPsec clients *)

Definition ipsecConnName (session : string) : string := ("egressa-s" +:+ session)%string.

Definition ipsecConnection (me session : string) (c : IPsecClient) : cmd :=
  LoadConn (ipsecConnName session) (IPsecGatewayID me) (IPsecClientID session) (ic_PSK c) (ic_VirtualIP c).

Definition unloadIPsec (session : string) (c : IPsecClient) (s : ast) : ast :=
  let name := ipsecConnName session in
  sys_err (DelProbeRoute (ic_VirtualIP c)) (sys_err (UnloadShared name)
    (sys_err (UnloadConn name) (sys_err (TerminateIKE name) s))).

Definition drop_conn (p : Plan) (s : ast) (kv : string * IPsecClient) : ast :=
  let '(session, have) := kv in
  if bool_decide (IPsec p !! session = Some have) then s
  else on_ag (λ a, set_ipsec (delete session (ag_ipsecConns a)) (ag_ipsecHere a) a) (unloadIPsec session have s).

Definition drop_here (p : Plan) (s : ast) (kv : Addr * bool) : ast :=
  let vip := kv.1 in
  if default false (IPsecHere p !! vip) then s
  else on_ag (λ a, set_ipsec (ag_ipsecConns a) (delete vip (ag_ipsecHere a)) a)
         (sys_err (DelRouteDev vip ipsecDevice) s).

Definition removeIPsecLocked (p : Plan) (s : ast) : ast :=
  let s := fold_left (drop_conn p) (range (ag_ipsecConns (as_ag s))) s in
  fold_left (drop_here p) (range (ag_ipsecHere (as_ag s))) s.

Definition add_conn (s : ast) (kv : string * IPsecClient) : ast :=
  let '(session, c) := kv in
  match ag_ipsecConns (as_ag s) !! session with
  | Some _ => s
  | None =>
      let conn := ipsecConnection (ac_ID cfg) session c in
      let secret := LoadShared (ipsecConnName session) (ic_PSK c) (IPsecClientID session) in
      let '(ok, s) := sys secret s in
      if negb ok then add_err (Failed secret) s else
      let '(ok, s) := sys conn s in
      if negb ok then sys_ (UnloadShared (ipsecConnName session)) (add_err (Failed conn) s) else
      on_ag (λ a, set_ipsec (<[session := c]> (ag_ipsecConns a)) (ag_ipsecHere a) a)
        (sys_err (ProbeRoute (ic_VirtualIP c)) s)
  end.

Definition add_here (s : ast) (kv : Addr * bool) : ast :=
  let vip := kv.1 in
  if default false (ag_ipsecHere (as_ag s) !! vip) then s
  else
    let c := ReplaceRoute vip ipsecDevice in
    let '(ok, s) := sys c s in
    if negb ok then add_err (Failed c) s
    else on_ag (λ a, set_ipsec (ag_ipsecConns a) (<[vip := true]> (ag_ipsecHere a)) a) s.

Definition addIPsecLocked (p : Plan) (s : ast) : ast :=
  fold_left add_here (range (IPsecHere p)) (fold_left add_conn (range (IPsec p)) s).

(** ** [traceMovesLocked] *)

Definition trace_move (acc : list span * ast) (kv : string * SessionPath) : list span * ast :=
  let '(spans, s) := acc in
  let '(id, now) := kv in
  let a := as_ag s in
  let s' := on_ag (λ a, set_applied (<[id := now]> (ag_applied a)) a) s in
  match ag_applied a !! id with
  | Some was =>
      if sp_Epoch now <=? sp_Epoch was then (spans, s')
      else (spans ++ [mkSpan id was now (default EmptyString (ag_forward a !! sp_VirtualIP now))
                        (default EmptyString (ag_ret a !! sp_VirtualIP now))
                        (bool_decide (sp_VirtualIP now ∈ as_vips s))], s')
  | None => (spans, s')
  end.
Definition traceMovesLocked (p : Plan) (s : ast) : list span * ast :=
  fold_left trace_move (range (Sessions p)) ([], s).

(** ** [apply] *)

Definition ipsecOn : bool := ac_IPsec cfg && Has (ac_Roles cfg) RoleAccess.

Definition apply_backbones (p : Plan) (s : ast) : ast :=
  let s := fold_left (drop_backbone p) (range (ag_backbones (as_ag s))) s in
  setProbeTargetsLocked (fold_left (add_backbone p) (BackboneIDs p) s).

Definition apply_peers (p : Plan) (s : ast) : ast :=
  let s := fold_left (drop_peer p) (range (ag_peers (as_ag s))) s in
  fold_left add_peer (range (Peers p)) s.

Definition apply_epochs (p : Plan) (s : ast) : ast :=
  on_ag (λ a, set_fence (applyEpochs (Epochs p) (ag_fence a)) (AccessSessions p, EgressSessions p) a) s.

Definition apply_forward (p : Plan) (s : ast) : ast :=
  let s := fold_left (drop_forward p) (range (ag_forward (as_ag s))) s in
  fold_left add_forward (range (Forward p)) s.

Definition apply_return (p : Plan) (s : ast) : ast :=
  let s := fold_left (drop_return p) (range (ag_ret (as_ag s))) s in
  fold_left add_return (range (Return p)) s.

Definition apply_all (p : Plan) (s : ast) : ast :=
  let s := apply_backbones p s in
  let s := apply_peers p s in
  let s := apply_epochs p s in
  let s := apply_forward p s in
  let s := if ipsecOn then removeIPsecLocked p s else s in
  let s := apply_return p s in
  if ipsecOn then addIPsecLocked p s else s.

Definition apply (p : Plan) (a : Agent) (h : H) : list apply_error * list span * Agent * H :=
  let s := apply_all p (mkAst a h [] ∅) in
  let '(spans, s) := traceMovesLocked p s in
  (as_errs s, spans, as_ag s, as_host s).

End agent.

(** ** Lemmas: loops that reconcile a table *)

Lemma fold_left_inv {A B} (P : A → Prop) (f : A → B → A) l a :
  P a → (∀ a x, x ∈ l → P a → P (f a x)) → P (fold_left f l a).
Proof.
  revert a. induction l as [|x l IH]; intros a Ha Hf; [done|]. cbn. apply IH; [apply Hf; [left|done]|].
  intros. apply Hf; [by right|done].
Qed.

(** A projection no turn of the loop changes. *)
Lemma fold_left_frame {A B X} (proj : A → X) (f : A → B → A) l a :
  (∀ a x, proj (f a x) = proj a) → proj (fold_left f l a) = proj a.
Proof.
  intros Hf. apply (fold_left_inv (λ a', proj a' = proj a)); [done|]. intros a' x _ <-. apply Hf.
Qed.

(** Errors are only ever added, so a loop that ends without one had none. *)
Lemma fold_left_errs {A B E} (errs : A → list E) (f : A → B → A) l a :
  (∀ a x, errs (f a x) = [] → errs a = []) → errs (fold_left f l a) = [] → errs a = [].
Proof.
  intros Hf. revert a. induction l as [|x l IH]; intros a He; [done|]. cbn in He. eapply Hf, IH, He.
Qed.

Section reconcile.
Context {K V S : Type} `{Countable K} (get : S → gmap K V).

(** The loop that drops what the plan no longer has. *)
Lemma fold_drop (body : S → K * V → S) (keep : K → V → bool) l s m :
  (∀ s k v, get (body s (k, v)) = if keep k v then get s else delete k (get s)) →
  get s = m → l ≡ₚ map_to_list m →
  get (fold_left body l s) = filter (λ kv, keep kv.1 kv.2 = true) m.
Proof.
  intros Hb Hm Hl.
  assert (∀ k, get (fold_left body l s) !! k =
    if decide (Exists (λ kv, kv.1 = k ∧ keep kv.1 kv.2 = false) l) then None else get s !! k) as Hall.
  { clear Hl Hm. revert s. induction l as [|[k v] l IH]; intros s k'; cbn.
    - rewrite decide_False; [done|]. by inversion 1.
    - rewrite IH, Hb. destruct (decide (Exists _ l)) as [He|He].
      + rewrite decide_True; [done|]. by right.
      + destruct (keep k v) eqn:Ek.
        * rewrite decide_False; [done|]. inversion 1 as [?? [_ Hc]|]; cbn in *; congruence.
        * rewrite lookup_delete. case_decide as Hd.
          -- subst. rewrite decide_True; [done|]. by left.
          -- rewrite decide_False; [done|]. inversion 1 as [?? [Hc _]|]; cbn in *; congruence. }
  apply map_eq. intros k. rewrite Hall, Hm. rewrite map_lookup_filter.
  assert (∀ v, (k, v) ∈ l ↔ m !! k = Some v) as Hin.
  { intros v. by rewrite Hl, elem_of_map_to_list. }
  case_decide as He.
  - apply Exists_exists in He as ([k' v] & Hv & <- & Hk). cbn in *. apply Hin in Hv. rewrite Hv. cbn.
    rewrite option_guard_False by congruence. done.
  - destruct (m !! k) as [v|] eqn:E; [|done]. cbn. rewrite option_guard_True; [done|].
    destruct (keep k v) eqn:Ek; [done|]. exfalso. apply He, Exists_exists. exists (k, v). split; [by apply Hin|done].
Qed.

(** The loop that adds what is missing, when it reports no error. *)
Lemma fold_add {E} (errs : S → list E) (I : S → Prop) (body : S → K * V → S) l s want :
  (∀ s x, errs (body s x) = [] → errs s = []) →
  (∀ s k v, want !! k = Some v → I s → errs (body s (k, v)) = [] →
     I (body s (k, v)) ∧
     get (body s (k, v)) = match get s !! k with Some _ => get s | None => <[k := v]> (get s) end) →
  I s → l ≡ₚ map_to_list want → get s ⊆ want → errs (fold_left body l s) = [] →
  I (fold_left body l s) ∧ get (fold_left body l s) = want.
Proof.
  intros Hmono Hb HI Hl Hsub Herr.
  assert (∀ kv, kv ∈ l → want !! kv.1 = Some kv.2) as Hin.
  { intros [k v] Hkv. rewrite Hl in Hkv. by apply elem_of_map_to_list in Hkv. }
  assert (I (fold_left body l s) ∧ get (fold_left body l s) ⊆ want ∧
    ∀ k, is_Some (get s !! k) ∨ k ∈ l.*1 → is_Some (get (fold_left body l s) !! k)) as (H1 & H2 & H3).
  { clear Hl. revert s HI Hsub Herr. induction l as [|[k v] l IH]; intros s HI Hsub Herr; cbn in *.
    - split_and!; try done. intros k [Hk|Hk]; [done|by apply not_elem_of_nil in Hk].
    - assert (want !! k = Some v) as Hk by (by apply (Hin (k, v)); left).
      assert (errs (body s (k, v)) = []) as He by (by eapply fold_left_errs).
      destruct (Hb s k v Hk HI He) as [HI' Hg].
      assert (∀ k', is_Some (get s !! k') ∨ k' = k → is_Some (get (body s (k, v)) !! k')) as Hgrow.
      { intros k' Hk'. rewrite Hg. destruct (get s !! k) as [v0|] eqn:Eg.
        - destruct Hk' as [?| ->]; [done|]. by rewrite Eg.
        - rewrite lookup_insert_is_Some'. naive_solver. }
      destruct (IH (λ kv Hkv, Hin kv (list_elem_of_further _ _ _ Hkv)) (body s (k, v))) as (E1 & E2 & E3); try done.
      + rewrite Hg. destruct (get s !! k) as [v0|]; [done|]. by apply insert_subseteq_l.
      + split_and!; try done. intros k' Hk'. apply E3. rewrite elem_of_cons in Hk'.
        destruct Hk' as [?|[->|?]]; [left; apply Hgrow; auto|left; apply Hgrow; auto|by right]. }
  split; [done|]. apply map_eq. intros k. destruct (want !! k) as [v|] eqn:Ek.
  - destruct (H3 k) as [v' Hv'].
    + right. apply list_elem_of_fmap. exists (k, v). split; [done|]. by rewrite Hl, elem_of_map_to_list.
    + rewrite Hv'. apply (lookup_weaken _ want) in Hv'; [congruence|done].
  - by apply (lookup_weaken_None _ want).
Qed.
End reconcile.

(** ** Lemmas: what each step of [apply] leaves alone, and its errors *)

Section lemmas.
Context {H : Type} `{!Host H, !Range, !RangeLaws} (cfg : AConfig).
Implicit Types s : ast (H := H).

(** The errors of [s'] extend those of [s]. *)
Definition errs_le s s' : Prop := as_errs s `prefix_of` as_errs s'.

#[export] Instance errs_le_refl : Reflexive errs_le.
Proof. intros s. unfold errs_le. done. Qed.
#[export] Instance errs_le_trans : Transitive errs_le.
Proof. intros s1 s2 s3. unfold errs_le. intros. by etransitivity. Qed.

Lemma errs_nil s s' : errs_le s s' → as_errs s' = [] → as_errs s = [].
Proof. intros Hp He. unfold errs_le in Hp. rewrite He in Hp. by apply prefix_nil_inv in Hp. Qed.

(** Run every command of a step and split on every test of it. *)
Ltac step_cases :=
  repeat first
    [ progress cbn
    | match goal with
      | |- context [exec ?c ?h] => destruct (exec c h) as [[] ?]
      | |- context [match ?x with _ => _ end] => destruct x
      end ].
Ltac solve_errs := unfold errs_le; step_cases; (done || by repeat (eapply prefix_app_r)).

Lemma errs_sys c s : as_errs (sys c s).2 = as_errs s.
Proof. unfold sys. by destruct (exec c (as_host s)). Qed.

Lemma errs_sys_err c s : errs_le s (sys_err c s).
Proof. unfold sys_err, sys. solve_errs. Qed.

Lemma errs_indexLocked id s : as_errs (indexLocked id s).2 = as_errs s.
Proof. unfold indexLocked, sys. step_cases; done. Qed.

Lemma errs_sys_all cs s : as_errs (sys_all cs s).2 = as_errs s.
Proof.
  revert s. induction cs as [|c cs IH]; intros s; cbn; [done|].
  pose proof (errs_sys c s). destruct (sys c s) as [[] s']; cbn in *; [|done]. by rewrite IH.
Qed.

Lemma errs_backbone_device id s : as_errs (backbone_device cfg id s).2 = as_errs s.
Proof.
  unfold backbone_device. destruct (ag_backbones _ !! id); [done|].
  pose proof (errs_indexLocked id s) as E. destruct (indexLocked id s) as [[[e|] n] s1]; [done|].
  pose proof (errs_sys (NewDevice ("egb" +:+ pretty n)) s1) as E1.
  destruct (sys (NewDevice _) s1) as [[] s2]; cbn [negb snd] in *; [|congruence].
  pose proof (errs_sys_all [AddrUp ("egb" +:+ pretty n) (ac_nodeIP cfg); DefaultRoute ("egb" +:+ pretty n) (egressTableBase + n)] s2) as E2.
  destruct (sys_all _ s2) as [[e|] s3]; cbn [snd] in *; [|cbn; congruence].
  unfold sys_. rewrite errs_sys. congruence.
Qed.

Lemma errs_applyBackbone id want s : as_errs (applyBackboneLocked cfg id want s).2 = as_errs s.
Proof.
  unfold applyBackboneLocked. pose proof (errs_backbone_device id s) as E.
  destruct (backbone_device cfg id s) as [[b|e] s1]; [|done]. cbn [snd] in E. rewrite <- E. clear E.
  destruct (bb_set b && _); [done|].
  match goal with |- context [let '(b, s) := ?x in _] => assert (as_errs x.2 = as_errs s1) as E2; [|destruct x as [b2 s2]] end.
  { destruct (bb_set b && _); [|done]. cbn. destruct (DecodeBase64 _); [|done]. unfold sys_. apply errs_sys. }
  cbn [snd] in E2. rewrite <- E2. destruct (negb _); [done|].
  match goal with |- context [sys_all ?cs s2] => pose proof (errs_sys_all cs s2) as E3; destruct (sys_all cs s2) as [[e|] s3] end; done.
Qed.

Lemma errs_drop_backbone p s x : errs_le s (drop_backbone p s x).
Proof. destruct x as [id b]. unfold drop_backbone, sys_, sys. solve_errs. Qed.

Lemma errs_add_backbone p s id : errs_le s (add_backbone cfg p s id).
Proof.
  unfold add_backbone. destruct (Backbones p !! id) as [w|]; [|done].
  pose proof (errs_applyBackbone id w s) as E. destruct (applyBackboneLocked cfg id w s) as [[e|] s1]; cbn in E.
  - unfold errs_le. cbn. rewrite E. by eapply prefix_app_r.
  - unfold errs_le. by rewrite E.
Qed.

Lemma errs_drop_peer p s x : errs_le s (drop_peer p s x).
Proof. destruct x as [key vip]. unfold drop_peer, sys_err, sys. solve_errs. Qed.
Lemma errs_add_peer s x : errs_le s (add_peer s x).
Proof. destruct x as [key vip]. unfold add_peer, sys. solve_errs. Qed.
Lemma errs_drop_forward p s x : errs_le s (drop_forward p s x).
Proof. destruct x as [key vip]. unfold drop_forward, sys. solve_errs. Qed.
Lemma errs_add_forward s x : errs_le s (add_forward s x).
Proof.
  destruct x as [vip e]. unfold add_forward. destruct (ag_forward _ !! vip); [done|].
  pose proof (errs_indexLocked e s) as E. destruct (indexLocked e s) as [[[err|] n] s1]; cbn [snd] in E;
    unfold errs_le; rewrite <- E; unfold sys; step_cases; (done || by eapply prefix_app_r).
Qed.
Lemma errs_drop_return p s x : errs_le s (drop_return p s x).
Proof. destruct x as [vip e]. unfold drop_return, sys. solve_errs. Qed.
Lemma errs_add_return s x : errs_le s (add_return s x).
Proof. destruct x as [vip e]. unfold add_return, sys. solve_errs. Qed.
Lemma errs_drop_conn p s x : errs_le s (drop_conn p s x).
Proof.
  destruct x as [id c]. unfold drop_conn. case_bool_decide; [done|]. unfold unloadIPsec, errs_le. cbn.
  repeat (etransitivity; [|apply errs_sys_err]). done.
Qed.
Lemma errs_drop_here p s x : errs_le s (drop_here p s x).
Proof. unfold drop_here, sys_err, sys. solve_errs. Qed.
Lemma errs_add_conn s x : errs_le s (add_conn cfg s x).
Proof. destruct x as [id c]. unfold add_conn, sys_err, sys_, sys. solve_errs. Qed.
Lemma errs_add_here s x : errs_le s (add_here s x).
Proof. unfold add_here, sys. solve_errs. Qed.

(** *** Frames *)

(** Every table but the one a group of loops works on. *)
Definition but_backbones (a : Agent) :=
  (ag_peers a, ag_forward a, ag_ret a, ag_fence a, ag_sessions a, ag_applied a, ag_ipsecConns a, ag_ipsecHere a).
Definition but_peers (a : Agent) :=
  (ag_index a, ag_nextIndex a, ag_backbones a, ag_forward a, ag_ret a, ag_fence a, ag_sessions a, ag_applied a,
   ag_ipsecConns a, ag_ipsecHere a).
Definition but_forward (a : Agent) :=
  (ag_backbones a, ag_peers a, ag_ret a, ag_fence a, ag_sessions a, ag_applied a, ag_ipsecConns a, ag_ipsecHere a).
Definition but_ret (a : Agent) :=
  (ag_index a, ag_nextIndex a, ag_backbones a, ag_peers a, ag_forward a, ag_fence a, ag_sessions a, ag_applied a,
   ag_ipsecConns a, ag_ipsecHere a).
Definition but_ipsec (a : Agent) :=
  (ag_index a, ag_nextIndex a, ag_backbones a, ag_peers a, ag_forward a, ag_ret a, ag_fence a, ag_sessions a, ag_applied a).
Definition but_applied (a : Agent) :=
  (ag_index a, ag_nextIndex a, ag_backbones a, ag_peers a, ag_forward a, ag_ret a, ag_fence a, ag_sessions a,
   ag_ipsecConns a, ag_ipsecHere a).

Lemma ag_sys c s : as_ag (sys c s).2 = as_ag s.
Proof. unfold sys. by destruct (exec c (as_host s)). Qed.
Lemma ag_sys_err c s : as_ag (sys_err c s) = as_ag s.
Proof. unfold sys_err, sys. step_cases; done. Qed.
Lemma ag_sys_all cs s : as_ag (sys_all cs s).2 = as_ag s.
Proof.
  revert s. induction cs as [|c cs IH]; intros s; cbn; [done|].
  pose proof (ag_sys c s). destruct (sys c s) as [[] s']; cbn in *; [|done]. by rewrite IH.
Qed.

Definition but_index (a : Agent) := (ag_backbones a, but_backbones a).

Lemma frame_indexLocked id s : but_index (as_ag (indexLocked id s).2) = but_index (as_ag s).
Proof. unfold indexLocked, sys. step_cases; done. Qed.

Lemma frame_backbone_device id s : but_backbones (as_ag (backbone_device cfg id s).2) = but_backbones (as_ag s).
Proof.
  unfold backbone_device. destruct (ag_backbones _ !! id); [done|].
  pose proof (frame_indexLocked id s) as E. destruct (indexLocked id s) as [[[e|] n] s1]; cbn [snd] in E.
  { exact (f_equal snd E). }
  assert (but_backbones (as_ag s1) = but_backbones (as_ag s)) as <- by exact (f_equal snd E). clear E.
  pose proof (ag_sys (NewDevice ("egb" +:+ pretty n)) s1) as E1.
  destruct (sys (NewDevice _) s1) as [[] s2]; cbn [negb snd] in *; [|congruence].
  pose proof (ag_sys_all [AddrUp ("egb" +:+ pretty n) (ac_nodeIP cfg); DefaultRoute ("egb" +:+ pretty n) (egressTableBase + n)] s2) as E2.
  destruct (sys_all _ s2) as [[e|] s3]; cbn [snd] in *.
  - unfold sys_. rewrite ag_sys. congruence.
  - cbn. rewrite <- E1, <- E2. done.
Qed.

Lemma frame_applyBackbone id want s :
  but_backbones (as_ag (applyBackboneLocked cfg id want s).2) = but_backbones (as_ag s).
Proof.
  unfold applyBackboneLocked. pose proof (frame_backbone_device id s) as E.
  destruct (backbone_device cfg id s) as [[b|e] s1]; [|done]. cbn [snd] in E. rewrite <- E. clear E.
  destruct (bb_set b && _); [done|].
  match goal with |- context [let '(b, s) := ?x in _] =>
    assert (but_backbones (as_ag x.2) = but_backbones (as_ag s1)) as E2; [|destruct x as [b2 s2]] end.
  { destruct (bb_set b && _); [|done]. cbn. destruct (DecodeBase64 _); [|done]. unfold sys_.
    change (but_backbones (as_ag (sys (DevRemovePeer (bb_name b) (b_PublicKey (bb_want b))) s1).2) = but_backbones (as_ag s1)).
    by rewrite ag_sys. }
  cbn [snd] in E2. rewrite <- E2. destruct (negb _); [done|].
  match goal with |- context [sys_all ?cs s2] => pose proof (ag_sys_all cs s2) as E3; destruct (sys_all cs s2) as [[e|] s3] end;
    cbn [snd] in *; [by rewrite E3|]. rewrite <- E3. done.
Qed.

Lemma frame_apply_backbones p s : but_backbones (as_ag (apply_backbones cfg p s)) = but_backbones (as_ag s).
Proof.
  unfold apply_backbones, setProbeTargetsLocked. rewrite ag_sys_err.
  transitivity (but_backbones (as_ag (fold_left (add_backbone cfg p) (BackboneIDs p)
    (fold_left (drop_backbone p) (range (ag_backbones (as_ag s))) s)))); [done|].
  rewrite (fold_left_frame (λ s, but_backbones (as_ag s))).
  - apply (fold_left_frame (λ s, but_backbones (as_ag s))). intros s' [id b]. unfold drop_backbone, sys_, sys. step_cases; done.
  - intros s' id. unfold add_backbone. destruct (Backbones p !! id) as [w|]; [|done].
    pose proof (frame_applyBackbone id w s') as E. destruct (applyBackboneLocked cfg id w s') as [[e|] s1]; done.
Qed.

Lemma frame_apply_peers p s : but_peers (as_ag (apply_peers p s)) = but_peers (as_ag s).
Proof.
  unfold apply_peers. rewrite (fold_left_frame (λ s, but_peers (as_ag s))).
  - apply (fold_left_frame (λ s, but_peers (as_ag s))). intros s' [k v]. unfold drop_peer, sys_err, sys. step_cases; done.
  - intros s' [k v]. unfold add_peer, sys. step_cases; done.
Qed.

Lemma frame_apply_forward p s : but_forward (as_ag (apply_forward p s)) = but_forward (as_ag s).
Proof.
  unfold apply_forward. rewrite (fold_left_frame (λ s, but_forward (as_ag s))).
  - apply (fold_left_frame (λ s, but_forward (as_ag s))). intros s' [k v]. unfold drop_forward, sys. step_cases; done.
  - intros s' [k v]. unfold add_forward. destruct (ag_forward _ !! k); [done|].
    pose proof (frame_indexLocked v s') as E. destruct (indexLocked v s') as [[[err|] n] s1]; cbn [snd] in E;
      injection E; unfold sys; intros; step_cases; unfold but_forward; cbn; congruence.
Qed.

Lemma frame_apply_return p s : but_ret (as_ag (apply_return p s)) = but_ret (as_ag s).
Proof.
  unfold apply_return. rewrite (fold_left_frame (λ s, but_ret (as_ag s))).
  - apply (fold_left_frame (λ s, but_ret (as_ag s))). intros s' [k v]. unfold drop_return, sys. step_cases; done.
  - intros s' [k v]. unfold add_return, sys. step_cases; done.
Qed.

Lemma frame_removeIPsec p s : but_ipsec (as_ag (removeIPsecLocked p s)) = but_ipsec (as_ag s).
Proof.
  unfold removeIPsecLocked. rewrite (fold_left_frame (λ s, but_ipsec (as_ag s))).
  - apply (fold_left_frame (λ s, but_ipsec (as_ag s))). intros s' [k v]. unfold drop_conn.
    case_bool_decide; [done|]. unfold unloadIPsec.
    change (but_ipsec (as_ag (sys_err (DelProbeRoute (ic_VirtualIP v)) (sys_err (UnloadShared (ipsecConnName k))
      (sys_err (UnloadConn (ipsecConnName k)) (sys_err (TerminateIKE (ipsecConnName k)) s'))))) = but_ipsec (as_ag s')).
    by rewrite !ag_sys_err.
  - intros s' [k v]. unfold drop_here, sys_err, sys. step_cases; done.
Qed.

Lemma frame_addIPsec p s : but_ipsec (as_ag (addIPsecLocked cfg p s)) = but_ipsec (as_ag s).
Proof.
  unfold addIPsecLocked. rewrite (fold_left_frame (λ s, but_ipsec (as_ag s))).
  - apply (fold_left_frame (λ s, but_ipsec (as_ag s))). intros s' [k v]. unfold add_conn, sys_err, sys_, sys. step_cases; done.
  - intros s' [k v]. unfold add_here, sys. step_cases; done.
Qed.

(** *** Errors of the groups of loops *)

Lemma errs_fold {B} (body : ast → B → ast) l s : (∀ s x, errs_le s (body s x)) → errs_le s (fold_left body l s).
Proof.
  intros Hb. apply (fold_left_inv (errs_le s)); [done|]. intros s' x _ Hs. etransitivity; [exact Hs|apply Hb].
Qed.

Lemma errs_fold2 {B C} (f : ast → B → ast) (g : ast → C → ast) l k s :
  (∀ s x, errs_le s (f s x)) → (∀ s x, errs_le s (g s x)) → errs_le s (fold_left g k (fold_left f l s)).
Proof. intros Hf Hg. etransitivity; [by apply (errs_fold f l)|by apply errs_fold]. Qed.

Lemma errs_apply_backbones p s : errs_le s (apply_backbones cfg p s).
Proof.
  unfold apply_backbones, setProbeTargetsLocked.
  etransitivity; [|apply errs_sys_err].
  change (errs_le s (fold_left (add_backbone cfg p) (BackboneIDs p) (fold_left (drop_backbone p) (range (ag_backbones (as_ag s))) s))).
  apply errs_fold2; intros; [apply errs_drop_backbone|apply errs_add_backbone].
Qed.
Lemma errs_apply_peers p s : errs_le s (apply_peers p s).
Proof. unfold apply_peers. apply errs_fold2; intros; [apply errs_drop_peer|apply errs_add_peer]. Qed.
Lemma errs_apply_forward p s : errs_le s (apply_forward p s).
Proof. unfold apply_forward. apply errs_fold2; intros; [apply errs_drop_forward|apply errs_add_forward]. Qed.
Lemma errs_apply_return p s : errs_le s (apply_return p s).
Proof. unfold apply_return. apply errs_fold2; intros; [apply errs_drop_return|apply errs_add_return]. Qed.
Lemma errs_removeIPsec p s : errs_le s (removeIPsecLocked p s).
Proof. unfold removeIPsecLocked. apply errs_fold2; intros; [apply errs_drop_conn|apply errs_drop_here]. Qed.
Lemma errs_addIPsec p s : errs_le s (addIPsecLocked cfg p s).
Proof. unfold addIPsecLocked. apply errs_fold2; intros; [apply errs_add_conn|apply errs_add_here]. Qed.

(** *** What the loops do to their table *)

Lemma sync_peers p s : as_errs (apply_peers p s) = [] → ag_peers (as_ag (apply_peers p s)) = Peers p.
Proof.
  intros He. unfold apply_peers in *.
  eapply (fold_add (λ s, ag_peers (as_ag s)) as_errs (λ _, True)); try done.
  - intros s' x. apply errs_nil, errs_add_peer.
  - intros s' k v _ _ He'. split; [done|]. revert He'. unfold add_peer. destruct (ag_peers (as_ag s') !! k); [done|].
    destruct (DecodeBase64 k); cbn [negb].
    + unfold sys. destruct (exec _ _) as [[] h]; cbn; [done|]. by intros [_ ?]%app_eq_nil.
    + cbn. by intros [_ ?]%app_eq_nil.
  - apply range_perm.
  - rewrite (fold_drop (λ s, ag_peers (as_ag s)) _ (λ k v, bool_decide (Peers p !! k = Some v)) _ _ (ag_peers (as_ag s)));
      [|intros s' k v|done|apply range_perm].
    + apply map_subseteq_spec. intros k v [_ Hk]%map_lookup_filter_Some. cbn in Hk. by apply bool_decide_eq_true in Hk.
    + unfold drop_peer. case_bool_decide; [done|]. unfold sys_err, sys. step_cases; done.
Qed.

(** No table maps an address to the empty name. *)
Definition named (m : gmap Addr string) : Prop := ∀ k, m !! k ≠ Some EmptyString.

Lemma named_kept (want m : gmap Addr string) :
  named m → filter (λ kv, bool_decide (default EmptyString (want !! kv.1) = kv.2) = true) m ⊆ want.
Proof.
  intros Hn. apply map_subseteq_spec. intros k v [Hm Hk]%map_lookup_filter_Some. cbn in Hk.
  apply bool_decide_eq_true in Hk. destruct (want !! k); cbn in Hk; [congruence|]. subst. by apply Hn in Hm.
Qed.

Lemma sync_forward p s :
  named (ag_forward (as_ag s)) → as_errs (apply_forward p s) = [] →
  ag_forward (as_ag (apply_forward p s)) = Forward p.
Proof.
  intros Hn He. unfold apply_forward in *.
  eapply (fold_add (λ s, ag_forward (as_ag s)) as_errs (λ _, True)); try done.
  - intros s' x. apply errs_nil, errs_add_forward.
  - intros s' k v _ _ He'. split; [done|]. revert He'. unfold add_forward. destruct (ag_forward (as_ag s') !! k) eqn:E; [done|].
    pose proof (frame_indexLocked v s') as Ef.
    assert (ag_forward (as_ag (indexLocked v s').2) = ag_forward (as_ag s')) as Efw by (by injection Ef). clear Ef.
    destruct (indexLocked v s') as [[[err|] n] s1]; cbn [snd] in *.
    + cbn. by intros [_ ?]%app_eq_nil.
    + unfold sys. destruct (exec _ _) as [[] h]; cbn; [by rewrite Efw|]. by intros [_ ?]%app_eq_nil.
  - apply range_perm.
  - rewrite (fold_drop (λ s, ag_forward (as_ag s)) _ (λ k v, bool_decide (default EmptyString (Forward p !! k) = v)) _ _ (ag_forward (as_ag s)));
      [by apply named_kept|intros s' k v|done|apply range_perm].
    unfold drop_forward. case_bool_decide; [done|]. unfold sys. step_cases; done.
Qed.

Lemma sync_return p s :
  named (ag_ret (as_ag s)) →
  (∀ k v, Return p !! k = Some v → is_Some (ag_backbones (as_ag s) !! v)) →
  as_errs (apply_return p s) = [] → ag_ret (as_ag (apply_return p s)) = Return p.
Proof.
  intros Hn Hb He. unfold apply_return in *.
  eapply (fold_add (λ s, ag_ret (as_ag s)) as_errs
            (λ s, ∀ k v, Return p !! k = Some v → is_Some (ag_backbones (as_ag s) !! v))); try done.
  - intros s' x. apply errs_nil, errs_add_return.
  - intros s' k v Hk HI. unfold add_return. destruct (ag_ret (as_ag s') !! k) eqn:E; [done|].
    destruct (HI k v Hk) as [b Hbk]. rewrite Hbk. unfold sys. destruct (exec _ _) as [[] h]; cbn; [done|].
    by intros [_ ?]%app_eq_nil.
  - intros k v Hk.
    assert (ag_backbones (as_ag (fold_left (drop_return p) (range (ag_ret (as_ag s))) s)) = ag_backbones (as_ag s)) as ->;
      [|by eapply Hb].
    apply (fold_left_frame (λ s, ag_backbones (as_ag s))). intros s' [k' v']. unfold drop_return, sys. step_cases; done.
  - apply range_perm.
  - rewrite (fold_drop (λ s, ag_ret (as_ag s)) _ (λ k v, bool_decide (default EmptyString (Return p !! k) = v)) _ _ (ag_ret (as_ag s)));
      [by apply named_kept|intros s' k v|done|apply range_perm].
    unfold drop_return. case_bool_decide; [done|]. unfold sys. step_cases; done.
Qed.

Lemma kept_conns p s :
  ag_ipsecConns (as_ag (removeIPsecLocked p s)) ⊆ IPsec p.
Proof.
  unfold removeIPsecLocked.
  rewrite (fold_left_frame (λ s, ag_ipsecConns (as_ag s)));
    [|intros s' [k v]; unfold drop_here, sys_err, sys; step_cases; done].
  rewrite (fold_drop (λ s, ag_ipsecConns (as_ag s)) _ (λ k v, bool_decide (IPsec p !! k = Some v)) _ _ (ag_ipsecConns (as_ag s)));
    [|intros s' k v|done|apply range_perm].
  - apply map_subseteq_spec. intros k v [_ Hk]%map_lookup_filter_Some. cbn in Hk. by apply bool_decide_eq_true in Hk.
  - unfold drop_conn. case_bool_decide; [done|]. unfold unloadIPsec. cbn. by rewrite !ag_sys_err.
Qed.

(** The set of virtual IPs served here, as a map to [true]. *)
Definition all_true (m : gmap Addr bool) : Prop := ∀ k v, m !! k = Some v → v = true.

Lemma kept_here p s :
  all_true (ag_ipsecHere (as_ag s)) → all_true (IPsecHere p) →
  ag_ipsecHere (as_ag (removeIPsecLocked p s)) ⊆ IPsecHere p.
Proof.
  intros Ha Hp. unfold removeIPsecLocked. cbv zeta.
  set (s1 := fold_left (drop_conn p) _ s).
  assert (ag_ipsecHere (as_ag s1) = ag_ipsecHere (as_ag s)) as E1.
  { apply (fold_left_frame (λ s, ag_ipsecHere (as_ag s))). intros s' [k v]. unfold drop_conn.
    case_bool_decide; [done|]. unfold unloadIPsec. cbn. by rewrite !ag_sys_err. }
  rewrite (fold_drop (λ s, ag_ipsecHere (as_ag s)) _ (λ k v, default false (IPsecHere p !! k)) _ _ (ag_ipsecHere (as_ag s1)));
    [|intros s' k v|done|apply range_perm].
  - apply map_subseteq_spec. intros k v [Hk Hd]%map_lookup_filter_Some. cbn in Hd. rewrite E1 in Hk.
    destruct (IPsecHere p !! k) as [b|] eqn:E; cbn in Hd; [|done]. subst. by rewrite (Ha k v Hk).
  - unfold drop_here. cbn. destruct (default false _); [done|]. unfold sys_err, sys. step_cases; done.
Qed.

Lemma sync_ipsec p s :
  ag_ipsecConns (as_ag s) ⊆ IPsec p → ag_ipsecHere (as_ag s) ⊆ IPsecHere p → all_true (IPsecHere p) →
  as_errs (addIPsecLocked cfg p s) = [] →
  ag_ipsecConns (as_ag (addIPsecLocked cfg p s)) = IPsec p ∧ ag_ipsecHere (as_ag (addIPsecLocked cfg p s)) = IPsecHere p.
Proof.
  intros Hc Hh Ht He. unfold addIPsecLocked in *. set (s1 := fold_left (add_conn cfg) _ s) in *.
  assert (as_errs s1 = []) as He1.
  { eapply fold_left_errs; [|exact He]. intros s' x. apply errs_nil, errs_add_here. }
  assert (ag_ipsecHere (as_ag s1) = ag_ipsecHere (as_ag s)) as E1.
  { apply (fold_left_frame (λ s, ag_ipsecHere (as_ag s))). intros s' [k v].
    unfold add_conn, sys_err, sys_, sys. step_cases; done. }
  split.
  - rewrite (fold_left_frame (λ s, ag_ipsecConns (as_ag s)));
      [|intros s' [k v]; unfold add_here, sys; step_cases; done].
    eapply (fold_add (λ s, ag_ipsecConns (as_ag s)) as_errs (λ _, True)); try done.
    + intros s' x. apply errs_nil, errs_add_conn.
    + intros s' k v _ _ He'. split; [done|]. revert He'. unfold add_conn.
      destruct (ag_ipsecConns (as_ag s') !! k) eqn:E; [done|]. unfold sys_err, sys_, sys.
      step_cases; (done || by intros [_ ?]%app_eq_nil).
    + apply range_perm.
  - eapply (fold_add (λ s, ag_ipsecHere (as_ag s)) as_errs (λ s, all_true (ag_ipsecHere (as_ag s)))); try done.
    + intros s' x. apply errs_nil, errs_add_here.
    + intros s' k v Hk HI He'. rewrite (Ht k v Hk) in *. revert He'. unfold add_here. cbn [fst].
      destruct (ag_ipsecHere (as_ag s') !! k) as [b|] eqn:E.
      * rewrite (HI k b E). cbn [default]. done.
      * cbn [default]. unfold sys. destruct (exec _ _) as [[] h]; cbn; [|by intros [_ ?]%app_eq_nil].
        intros _. split; [|done]. intros k' v' [[_ <-]|[_ Hk']]%lookup_insert_Some; [done|by eapply HI].
    + intros k v Hk. rewrite E1 in Hk. apply (lookup_weaken _ _ _ _ Hk) in Hh. by apply (Ht k).
    + apply range_perm.
    + by rewrite E1.
Qed.

(** *** Backbones *)

Lemma backbone_device_ok id s b s' :
  backbone_device cfg id s = (Ok b, s') → ag_backbones (as_ag s') = <[id := b]> (ag_backbones (as_ag s)).
Proof.
  unfold backbone_device. destruct (ag_backbones (as_ag s) !! id) as [b0|] eqn:E.
  { intros [= -> ->]. by rewrite insert_id. }
  pose proof (frame_indexLocked id s) as Ef. destruct (indexLocked id s) as [[[e|] n] s1]; [done|].
  assert (ag_backbones (as_ag s1) = ag_backbones (as_ag s)) as <- by (by injection Ef). clear Ef.
  pose proof (ag_sys (NewDevice ("egb" +:+ pretty n)) s1) as E1.
  destruct (sys (NewDevice _) s1) as [[] s2]; cbn [negb snd] in *; [|done].
  pose proof (ag_sys_all [AddrUp ("egb" +:+ pretty n) (ac_nodeIP cfg); DefaultRoute ("egb" +:+ pretty n) (egressTableBase + n)] s2) as E2.
  destruct (sys_all _ s2) as [[e|] s3]; [done|]. intros [= <- <-]. cbn [snd] in *. cbn. by rewrite E2, E1.
Qed.

Lemma applyBackbone_ok id want s s' :
  applyBackboneLocked cfg id want s = (None, s') →
  ∃ b, bb_want b = want ∧ bb_set b = true ∧ ag_backbones (as_ag s') = <[id := b]> (ag_backbones (as_ag s)).
Proof.
  unfold applyBackboneLocked. destruct (backbone_device cfg id s) as [[b|e] s1] eqn:Ed; [|done].
  apply backbone_device_ok in Ed.
  destruct (bb_set b && _) eqn:Es.
  { intros [= <-]. apply andb_true_iff in Es as [Hs Hw%bool_decide_eq_true]. by exists b. }
  match goal with |- context [let '(b, s) := ?x in _] =>
    assert (∃ b', ag_backbones (as_ag x.2) = <[id := b']> (ag_backbones (as_ag s))) as [b' E2]; [|destruct x as [b2 s2]] end.
  { clear Es. destruct (bb_set b && _); [|eauto]. cbv zeta. cbn [snd set_backbone on_ag as_ag ag_backbones set_backbones].
    match goal with |- context [as_ag ?x] => assert (as_ag x = as_ag s1) as -> end.
    { destruct (DecodeBase64 _); [apply ag_sys|done]. }
    rewrite Ed. eexists. apply insert_insert_eq. }
  destruct (negb _); [done|].
  match goal with |- context [sys_all ?cs s2] => pose proof (ag_sys_all cs s2) as E3; destruct (sys_all cs s2) as [[e|] s3] end;
    [done|].
  intros [= <-]. cbn [snd] in *. eexists. split; [|split; [|cbn; by rewrite E3, E2, insert_insert_eq]]; done.
Qed.

(** What the plan wants of the backbones, and what the agent believes it has set. *)
Definition wanted (m : gmap string Backbone) : gmap string (Backbone * bool) := (λ w, (w, true)) <$> m.
Definition have (a : Agent) : gmap string (Backbone * bool) := (λ b, (bb_want b, bb_set b)) <$> ag_backbones a.

Lemma add_backbone_have p s id :
  as_errs (add_backbone cfg p s id) = [] →
  have (as_ag (add_backbone cfg p s id)) =
    match wanted (Backbones p) !! id with Some x => <[id := x]> (have (as_ag s)) | None => have (as_ag s) end.
Proof.
  unfold add_backbone, wanted. rewrite lookup_fmap. destruct (Backbones p !! id) as [w|]; [|done]. cbn.
  destruct (applyBackboneLocked cfg id w s) as [[e|] s1] eqn:E; cbn; [by intros [_ ?]%app_eq_nil|].
  intros _. apply applyBackbone_ok in E as (b & <- & Hs & E). unfold have. rewrite E, fmap_insert. by rewrite Hs.
Qed.

Lemma add_backbones_have p l s :
  as_errs (fold_left (add_backbone cfg p) l s) = [] →
  ∀ k, have (as_ag (fold_left (add_backbone cfg p) l s)) !! k =
    if decide (k ∈ l) then (match wanted (Backbones p) !! k with Some x => Some x | None => have (as_ag s) !! k end)
    else have (as_ag s) !! k.
Proof.
  revert s. induction l as [|id l IH]; intros s He k; cbn.
  { rewrite decide_False; [done|]. apply not_elem_of_nil. }
  cbn in He. rewrite (IH _ He). rewrite (add_backbone_have p s id).
  2: { eapply fold_left_errs; [|exact He]. intros s' x. apply errs_nil, errs_add_backbone. }
  destruct (decide (k ∈ l)) as [Hl|Hl].
  - rewrite decide_True by (by right). destruct (wanted (Backbones p) !! k) eqn:Ek; [done|].
    destruct (decide (id = k)) as [->|Hne]; [by rewrite Ek|]. destruct (wanted _ !! id); [|done]. by rewrite lookup_insert_ne.
  - destruct (decide (id = k)) as [->|Hne].
    + rewrite decide_True by left. destruct (wanted _ !! k); [by rewrite lookup_insert_eq|done].
    + rewrite decide_False by (rewrite elem_of_cons; naive_solver). destruct (wanted _ !! id); [|done]. by rewrite lookup_insert_ne.
Qed.

Lemma sync_backbones p s : as_errs (apply_backbones cfg p s) = [] → have (as_ag (apply_backbones cfg p s)) = wanted (Backbones p).
Proof.
  intros He. unfold apply_backbones in *. cbv zeta in *. set (s1 := fold_left (drop_backbone p) _ s) in *.
  set (s2 := fold_left (add_backbone cfg p) _ s1) in *.
  assert (as_errs s2 = []) as He2.
  { unfold setProbeTargetsLocked in He. cbv zeta in He. eapply errs_nil in He; [|apply errs_sys_err]. exact He. }
  assert (have (as_ag (setProbeTargetsLocked cfg s2)) = have (as_ag s2)) as ->.
  { unfold setProbeTargetsLocked, have. rewrite ag_sys_err. cbn. rewrite <- map_fmap_compose. apply map_fmap_ext.
    intros k b _. cbn. by destruct (probe_target _ b). }
  apply map_eq. intros k. unfold s2. rewrite add_backbones_have by done.
  assert (∀ k, k ∈ BackboneIDs p ↔ is_Some (Backbones p !! k)) as Hids.
  { intros k'. unfold BackboneIDs. rewrite merge_sort_Permutation, list_elem_of_fmap. split.
    - intros ([k0 w] & -> & Hk%elem_of_map_to_list). eauto.
    - intros [w Hw]. exists (k', w). by rewrite elem_of_map_to_list. }
  case_decide as Hk.
  - apply Hids in Hk as [w Hw]. unfold wanted. by rewrite lookup_fmap, Hw.
  - unfold wanted, have. rewrite !lookup_fmap.
    assert (Backbones p !! k = None) as HN by (apply eq_None_not_Some; by rewrite <- Hids).
    rewrite HN. cbn.
    assert (ag_backbones (as_ag s1) !! k = None) as ->; [|done].
    unfold s1. rewrite (fold_drop (λ s, ag_backbones (as_ag s)) _ (λ k _, bool_decide (is_Some (Backbones p !! k))) _ _ (ag_backbones (as_ag s)));
      [|intros s' k' v|done|apply range_perm].
    + apply map_lookup_filter_None. right. intros b _. cbn. rewrite HN. intros Hb%bool_decide_eq_true. by destruct Hb.
    + unfold drop_backbone. destruct (Backbones p !! k') as [w|].
      * by rewrite bool_decide_true by eauto.
      * rewrite bool_decide_false by (by intros []). unfold sys_. cbn. by rewrite ag_sys.
Qed.
End lemmas.

(** ** The host's policy rules

    What the agent relies on: [ip rule add] and [ip rule del] change the rules
    from one address, a command that fails changes none, and no other command
    of the agent touches them. *)

Definition not_rule (c : cmd) : Prop := match c with AddRule _ _ | DelRule _ _ => False | _ => True end.

Class HostRules (H : Type) `{Host H} := {
  rules_of : H → Addr → gset Z;
  law_AddRule : ∀ h h' v t, exec (AddRule v t) h = (true, h') →
    ∀ v', rules_of h' v' = if decide (v' = v) then {[t]} ∪ rules_of h v' else rules_of h v';
  law_DelRule : ∀ h h' v t, exec (DelRule v t) h = (true, h') →
    ∀ v', rules_of h' v' = if decide (v' = v) then rules_of h v' ∖ {[t]} else rules_of h v';
  law_failed : ∀ c h h', exec c h = (false, h') → ∀ v, rules_of h' v = rules_of h v;
  law_other : ∀ c h ok h', not_rule c → exec c h = (ok, h') → ∀ v, rules_of h' v = rules_of h v;
}.

Section rules.
Context {H : Type} `{!Host H, !Range, !RangeLaws, !HostRules H} (cfg : AConfig).
Implicit Types s : ast (H := H).

(** Each address the agent forwards has one rule, to its egress's table, and
    no other address has one. *)
Definition rules_ok (a : Agent) (h : H) : Prop :=
  ∀ vip, match ag_forward a !! vip with
         | Some e => ∃ n, ag_index a !! e = Some n ∧ rules_of h vip = {[egressTableBase + n]}
         | None => rules_of h vip = ∅
         end.

(** No two gateways share a number, so none share a routing table. *)
Definition index_ok (a : Agent) : Prop :=
  (∀ id n, ag_index a !! id = Some n → n < ag_nextIndex a) ∧
  (∀ id id' n, ag_index a !! id = Some n → ag_index a !! id' = Some n → id = id').

(** A step that leaves the rules and the forwarding table alone. *)
Record ri_le s s' : Prop := {
  ri_indexok : index_ok (as_ag s) → index_ok (as_ag s');
  ri_rules : ∀ v, rules_of (as_host s') v = rules_of (as_host s) v;
  ri_forward : ag_forward (as_ag s') = ag_forward (as_ag s);
  ri_index : ag_index (as_ag s) ⊆ ag_index (as_ag s');
}.

#[export] Instance ri_le_refl : Reflexive ri_le.
Proof. by split. Qed.
#[export] Instance ri_le_trans : Transitive ri_le.
Proof.
  intros s1 s2 s3 [A0 A1 A2 A3] [B0 B1 B2 B3]. split; [auto| |congruence|by etransitivity]. intros v. by rewrite B1.
Qed.

Lemma rules_ok_le s s' : ri_le s s' → rules_ok (as_ag s) (as_host s) → rules_ok (as_ag s') (as_host s').
Proof.
  intros [_ Hr Hf Hi] Hok vip. specialize (Hok vip). rewrite Hf, Hr. destruct (ag_forward (as_ag s) !! vip) as [e|]; [|done].
  destruct Hok as (n & Hn & ->). exists n. split; [|done]. by eapply lookup_weaken.
Qed.

Lemma ri_sys c s : not_rule c → ri_le s (sys c s).2.
Proof.
  intros Hc. unfold sys. destruct (exec c (as_host s)) as [ok h] eqn:E. split; [done| |done|done].
  by apply (law_other c _ ok).
Qed.
Lemma ri_sys_ c s : not_rule c → ri_le s (sys_ c s).
Proof. apply ri_sys. Qed.
Lemma ri_sys_err c s : not_rule c → ri_le s (sys_err c s).
Proof.
  intros Hc. unfold sys_err. pose proof (ri_sys c s Hc) as Hs. destruct (sys c s) as [[] s1]; [done|].
  etransitivity; [exact Hs|]. by split.
Qed.
Lemma ri_sys_all cs s : Forall not_rule cs → ri_le s (sys_all cs s).2.
Proof.
  intros HF. revert s. induction HF as [|c cs Hc HF IH]; intros s; cbn; [done|].
  pose proof (ri_sys c s Hc) as Hs. destruct (sys c s) as [[] s1]; [|done].
  etransitivity; [exact Hs|apply IH].
Qed.
Lemma ri_on_ag f s :
  ag_forward (f (as_ag s)) = ag_forward (as_ag s) → ag_index (f (as_ag s)) = ag_index (as_ag s) →
  ag_nextIndex (f (as_ag s)) = ag_nextIndex (as_ag s) → ri_le s (on_ag f s).
Proof. intros Hf Hi Hn. split; cbn; [|done|done|by rewrite Hi]. unfold index_ok. by rewrite Hi, Hn. Qed.
Lemma ri_err e s : ri_le s (add_err e s).
Proof. by split. Qed.
Lemma ri_vip v s : ri_le s (add_vip v s).
Proof. by split. Qed.

Lemma ri_indexLocked id s : ri_le s (indexLocked id s).2.
Proof.
  unfold indexLocked. destruct (ag_index (as_ag s) !! id) as [n|] eqn:E; [done|]. cbv zeta.
  set (n := ag_nextIndex (as_ag s)). set (s1 := on_ag _ s).
  assert (ri_le s s1) as G1.
  { split; [|done|done|cbn; by apply insert_subseteq]. intros [A1 A2]. split; cbn.
    - intros id' m [[_ <-]|[_ Hm%A1]]%lookup_insert_Some; unfold n in *; lia.
    - intros i j m [[<- <-]|[_ Hi]]%lookup_insert_Some [[<- ?]|[_ Hj]]%lookup_insert_Some; try done; [| |by eapply A2].
      + apply A1 in Hj. unfold n in Hj. lia.
      + apply A1 in Hi. unfold n in *. lia. }
  pose proof (ri_sys (FlushTable (egressTableBase + n)) s1 I) as G2.
  destruct (sys (FlushTable _) s1) as [[] s2]; cbn [negb snd] in *; [|by etransitivity].
  pose proof (ri_sys (Blackhole (egressTableBase + n)) s2 I) as G3.
  destruct (sys (Blackhole _) s2) as [[] s3]; cbn [negb snd] in *; by repeat (etransitivity; [eassumption|]).
Qed.

Lemma indexLocked_index id s e n s' :
  indexLocked id s = (e, n, s') → ag_index (as_ag s') !! id = Some n.
Proof.
  unfold indexLocked. destruct (ag_index (as_ag s) !! id) as [m|] eqn:E; [by intros [= <- <- <-]|]. unfold sys. cbn.
  destruct (exec (FlushTable _) _) as [[] h1]; cbn; [destruct (exec (Blackhole _) _) as [[] h2]; cbn|];
    intros [= <- <- <-]; cbn; apply lookup_insert_eq.
Qed.

Lemma ri_backbone_device id s : ri_le s (backbone_device cfg id s).2.
Proof.
  unfold backbone_device. destruct (ag_backbones _ !! id); [done|].
  pose proof (ri_indexLocked id s) as G1. destruct (indexLocked id s) as [[[e|] n] s1]; [done|].
  pose proof (ri_sys (NewDevice ("egb" +:+ pretty n)) s1 I) as G2.
  destruct (sys (NewDevice _) s1) as [[] s2]; cbn [negb snd] in *; [|by etransitivity].
  pose proof (ri_sys_all [AddrUp ("egb" +:+ pretty n) (ac_nodeIP cfg); DefaultRoute ("egb" +:+ pretty n) (egressTableBase + n)] s2) as G3.
  destruct (sys_all _ s2) as [[e|] s3]; cbn [snd] in *; (etransitivity; [exact G1|]); (etransitivity; [exact G2|]);
    (etransitivity; [apply G3; repeat constructor|]); [by apply ri_sys_|by apply ri_on_ag].
Qed.

Lemma ri_applyBackbone id want s : ri_le s (applyBackboneLocked cfg id want s).2.
Proof.
  unfold applyBackboneLocked. pose proof (ri_backbone_device id s) as G1.
  destruct (backbone_device cfg id s) as [[b|e] s1]; [|done]. cbn [snd] in G1. etransitivity; [exact G1|]. clear G1.
  destruct (bb_set b && bool_decide _); [done|].
  match goal with |- context [let '(b, s) := ?x in _] => assert (ri_le s1 x.2) as G2; [|destruct x as [b2 s2]] end.
  { destruct (bb_set b && _); [|done]. cbn [snd]. etransitivity; [|by apply ri_on_ag].
    destruct (DecodeBase64 _); [by apply ri_sys_|done]. }
  etransitivity; [exact G2|]. destruct (negb _); [done|]. cbn [snd].
  match goal with |- context [sys_all ?cs s2] => pose proof (ri_sys_all cs s2) as G3; destruct (sys_all cs s2) as [[e|] s3] end;
    cbn [snd] in *; [apply G3; repeat constructor|]. etransitivity; [apply G3; repeat constructor|by apply ri_on_ag].
Qed.

Lemma ri_fold {B} (body : ast → B → ast) l s : (∀ s x, ri_le s (body s x)) → ri_le s (fold_left body l s).
Proof.
  intros Hb. apply (fold_left_inv (ri_le s)); [done|]. intros s' x _ Hs. etransitivity; [exact Hs|apply Hb].
Qed.

Lemma ri_apply_backbones p s : ri_le s (apply_backbones cfg p s).
Proof.
  unfold apply_backbones, setProbeTargetsLocked. cbv zeta.
  etransitivity; [|by apply ri_sys_err]. etransitivity; [|by apply ri_on_ag].
  etransitivity; [apply (ri_fold (drop_backbone p))|apply ri_fold].
  - intros s' [id b]. unfold drop_backbone. destruct (Backbones p !! id); [done|].
    etransitivity; [|by apply ri_on_ag]; by apply ri_sys_.
  - intros s' id. unfold add_backbone. destruct (Backbones p !! id) as [w|]; [|done].
    pose proof (ri_applyBackbone id w s') as G. destruct (applyBackboneLocked cfg id w s') as [[e|] s1]; [|done].
    etransitivity; [exact G|apply ri_err].
Qed.

Lemma ri_apply_peers p s : ri_le s (apply_peers p s).
Proof.
  unfold apply_peers. etransitivity; [apply (ri_fold (drop_peer p))|apply ri_fold].
  - intros s' [k v]. unfold drop_peer. case_bool_decide; [done|]. etransitivity; [|by apply ri_on_ag].
    destruct (DecodeBase64 k); [by apply ri_sys_err|done].
  - intros s' [k v]. unfold add_peer. destruct (ag_peers (as_ag s') !! k); [done|].
    destruct (DecodeBase64 k); cbn [negb]; [|apply ri_err].
    pose proof (ri_sys (ClientAddPeer k v) s' I) as G. destruct (sys _ s') as [[] s1]; cbn [negb snd] in *;
      (etransitivity; [exact G|]); [by apply ri_on_ag|apply ri_err].
Qed.

Lemma ri_apply_return p s : ri_le s (apply_return p s).
Proof.
  unfold apply_return. etransitivity; [apply (ri_fold (drop_return p))|apply ri_fold].
  - intros s' [k v]. unfold drop_return. case_bool_decide; [done|].
    pose proof (ri_sys (DelRoute k) s' I) as G. destruct (sys _ s') as [[] s1]; cbn [snd] in *;
      (etransitivity; [exact G|]); (etransitivity; [|by apply ri_on_ag]); [done|].
    etransitivity; [apply ri_err|apply ri_vip].
  - intros s' [k v]. unfold add_return. destruct (ag_ret (as_ag s') !! k); [done|].
    destruct (ag_backbones (as_ag s') !! v) as [b|]; [|done].
    pose proof (ri_sys (ReplaceRoute k (bb_name b)) s' I) as G. destruct (sys _ s') as [[] s1]; cbn [negb snd] in *;
      (etransitivity; [exact G|]); [by apply ri_on_ag|]. etransitivity; [apply ri_err|apply ri_vip].
Qed.

Lemma ri_removeIPsec p s : ri_le s (removeIPsecLocked p s).
Proof.
  unfold removeIPsecLocked. etransitivity; [apply (ri_fold (drop_conn p))|apply ri_fold].
  - intros s' [k v]. unfold drop_conn. case_bool_decide; [done|]. etransitivity; [|by apply ri_on_ag].
    unfold unloadIPsec. repeat (etransitivity; [|by apply ri_sys_err]). done.
  - intros s' [k v]. unfold drop_here. cbn [fst]. destruct (default false _); [done|].
    etransitivity; [|by apply ri_on_ag]; by apply ri_sys_err.
Qed.

Lemma ri_addIPsec p s : ri_le s (addIPsecLocked cfg p s).
Proof.
  unfold addIPsecLocked. etransitivity; [apply (ri_fold (add_conn cfg))|apply ri_fold].
  - intros s' [k v]. unfold add_conn. destruct (ag_ipsecConns (as_ag s') !! k); [done|]. cbv zeta.
    pose proof (ri_sys (LoadShared (ipsecConnName k) (ic_PSK v) (IPsecClientID k)) s' I) as G.
    destruct (sys (LoadShared _ _ _) s') as [[] s1]; cbn [negb snd] in *; (etransitivity; [exact G|]); [|apply ri_err].
    pose proof (ri_sys (ipsecConnection (ac_ID cfg) k v) s1 I) as G2.
    destruct (sys (ipsecConnection _ _ _) s1) as [[] s2]; cbn [negb snd] in *; (etransitivity; [exact G2|]).
    + etransitivity; [|by apply ri_on_ag]; by apply ri_sys_err.
    + etransitivity; [apply ri_err|by apply ri_sys_].
  - intros s' [k v]. unfold add_here. cbn [fst]. destruct (default false _); [done|].
    pose proof (ri_sys (ReplaceRoute k ipsecDevice) s' I) as G. destruct (sys _ s') as [[] s1]; cbn [negb snd] in *;
      (etransitivity; [exact G|]); [by apply ri_on_ag|apply ri_err].
Qed.

(** No rule the agent tried to delete was left behind. *)
Definition no_stale (errs : list apply_error) : Prop := ∀ v t, Failed (DelRule v t) ∉ errs.

Lemma no_stale_le s s' : errs_le s s' → no_stale (as_errs s') → no_stale (as_errs s).
Proof. intros [k E] Hn v t Hin. apply (Hn v t). rewrite E. apply elem_of_app. by left. Qed.

Lemma drop_forward_rules p s x :
  ag_forward (as_ag s) !! x.1 = Some x.2 →
  no_stale (as_errs (drop_forward p s x)) → rules_ok (as_ag s) (as_host s) →
  rules_ok (as_ag (drop_forward p s x)) (as_host (drop_forward p s x)).
Proof.
  destruct x as [vip e]. cbn [fst snd]. intros Hx Hn Hok. unfold drop_forward in *. case_bool_decide; [done|].
  cbv zeta in *.
  assert (∃ n, ag_index (as_ag s) !! e = Some n ∧ rules_of (as_host s) vip = {[egressTableBase + n]}) as (n & Hi & Hr).
  { specialize (Hok vip). by rewrite Hx in Hok. }
  rewrite Hi in *. change (default 0 (Some n)) with n in *. unfold sys in *.
  destruct (exec (DelRule vip (egressTableBase + n)) (as_host s)) as [[] h] eqn:E.
  - intros v. cbn. rewrite (law_DelRule _ _ _ _ E), lookup_delete. specialize (Hok v).
    destruct (decide (vip = v)) as [->|Hne].
    + rewrite decide_True, Hr by done. set_solver.
    + by rewrite decide_False by congruence.
  - exfalso. cbn in Hn. apply (Hn vip (egressTableBase + n)). apply elem_of_app. right. left.
Qed.

Lemma add_forward_rules s x :
  rules_ok (as_ag s) (as_host s) → rules_ok (as_ag (add_forward s x)) (as_host (add_forward s x)).
Proof.
  destruct x as [vip e]. intros Hok. unfold add_forward. destruct (ag_forward (as_ag s) !! vip) eqn:Ef; [done|].
  pose proof (ri_indexLocked e s) as G. destruct (indexLocked e s) as [[err n] s1] eqn:Ei.
  apply indexLocked_index in Ei. cbn [snd] in G. pose proof (rules_ok_le _ _ G Hok) as Hok1.
  destruct err as [err|].
  { eapply rules_ok_le; [|exact Hok1]. etransitivity; [apply ri_err|apply ri_vip]. }
  cbv zeta. unfold sys. destruct (exec (AddRule vip (egressTableBase + n)) (as_host s1)) as [[] h] eqn:E; cbn [negb].
  - intros v. cbn. rewrite (law_AddRule _ _ _ _ E), lookup_insert. specialize (Hok1 v).
    destruct (decide (vip = v)) as [->|Hne].
    + rewrite (ri_forward _ _ G), Ef in Hok1. rewrite decide_True, Hok1 by done. exists n. split; [done|]. set_solver.
    + by rewrite decide_False by congruence.
  - intros v. cbn. rewrite (law_failed _ _ _ E). apply Hok1.
Qed.

Lemma apply_forward_index p s : index_ok (as_ag s) → index_ok (as_ag (apply_forward p s)).
Proof.
  intros Hs. unfold apply_forward. apply (fold_left_inv (λ s, index_ok (as_ag s))).
  - apply (fold_left_inv (λ s, index_ok (as_ag s))); [done|]. intros s' [k v] _ Hs'. unfold drop_forward.
    case_bool_decide; [done|]. unfold sys. by destruct (exec _ _) as [[] h].
  - intros s' [k v] _ Hs'. unfold add_forward. destruct (ag_forward (as_ag s') !! k); [done|].
    pose proof (ri_indexok _ _ (ri_indexLocked v s') Hs') as Hi.
    destruct (indexLocked v s') as [[[err|] n] s1]; [done|]. unfold sys. by destruct (exec _ _) as [[] h].
Qed.

(** The loop visits the entries the table had; those not yet visited are
    still there. *)
Lemma drop_forwards_rules p l s :
  NoDup l.*1 → (∀ x, x ∈ l → ag_forward (as_ag s) !! x.1 = Some x.2) →
  no_stale (as_errs (fold_left (drop_forward p) l s)) → rules_ok (as_ag s) (as_host s) →
  rules_ok (as_ag (fold_left (drop_forward p) l s)) (as_host (fold_left (drop_forward p) l s)).
Proof.
  revert s. induction l as [|[vip e] l IH]; intros s Hnd Hin Hn Hok; [done|]. cbn [fold_left] in *.
  rewrite fmap_cons, NoDup_cons in Hnd. destruct Hnd as [Hvip Hnd]. cbn [fst] in Hvip.
  apply IH; [done| |done|].
  - intros [v e'] Hx. cbn [fst snd].
    assert (v ≠ vip) as Hne. { intros ->. apply Hvip, list_elem_of_fmap. by exists (vip, e'). }
    pose proof (Hin (v, e') ltac:(by right)) as Hv. cbn [fst snd] in Hv. unfold drop_forward.
    case_bool_decide; [done|]. unfold sys. destruct (exec _ _) as [[] h]; cbn; by rewrite lookup_delete_ne.
  - apply drop_forward_rules; [exact (Hin (vip, e) ltac:(left))| |done].
    eapply no_stale_le; [|exact Hn]. apply errs_fold. intros. apply errs_drop_forward.
Qed.

Lemma apply_forward_rules p s :
  no_stale (as_errs (apply_forward p s)) → rules_ok (as_ag s) (as_host s) →
  rules_ok (as_ag (apply_forward p s)) (as_host (apply_forward p s)).
Proof.
  intros Hn Hok. unfold apply_forward in *. cbv zeta in *.
  apply (fold_left_inv (λ s, rules_ok (as_ag s) (as_host s))); [|intros; by apply add_forward_rules].
  apply drop_forwards_rules; [| | |done].
  - rewrite range_perm. apply NoDup_fst_map_to_list.
  - intros [v e] Hx. rewrite range_perm in Hx. by apply elem_of_map_to_list in Hx.
  - eapply no_stale_le; [|exact Hn]. apply errs_fold. intros. apply errs_add_forward.
Qed.
End rules.

(** ** Whole runs *)

(** What [MakePlan] promises of a plan. *)
Record plan_ok (p : Plan) : Prop := {
  pk_forward : named (Forward p);
  pk_return : named (Return p);
  pk_backbone : ∀ vip access, Return p !! vip = Some access → is_Some (Backbones p !! access);
  pk_here : all_true (IPsecHere p);
}.

Section run.
Context {H : Type} `{!Host H, !Range, !RangeLaws, !HostRules H} (cfg : AConfig).

(** The states an agent reaches from a host without rules of its own: any
    plans in any order, any command failing except the deletion of a rule. *)
Inductive reaches : Agent → H → Prop :=
| reach_new h : (∀ v, rules_of h v = ∅) → reaches NewAgent h
| reach_apply p a h errs spans a' h' :
    reaches a h → plan_ok p → apply cfg p a h = (errs, spans, a', h') → no_stale errs → reaches a' h'.

(** The agent is configured as the plan says. *)
Record in_sync (p : Plan) (a : Agent) : Prop := {
  is_backbones : have a = wanted (Backbones p);
  is_peers : ag_peers a = Peers p;
  is_forward : ag_forward a = Forward p;
  is_ret : ag_ret a = Return p;
  is_sessions : ag_sessions a = (AccessSessions p, EgressSessions p);
  is_conns : ipsecOn cfg = true → ag_ipsecConns a = IPsec p;
  is_here : ipsecOn cfg = true → ag_ipsecHere a = IPsecHere p;
}.

Record agent_ok (a : Agent) (h : H) : Prop := {
  ao_forward : named (ag_forward a);
  ao_ret : named (ag_ret a);
  ao_here : all_true (ag_ipsecHere a);
  ao_rules : rules_ok a h;
  ao_index : index_ok a;
}.

Ltac frame L := let F := fresh in pose proof L as F; injection F; clear F; intros; congruence.

Lemma named_insert m k v : named m → v ≠ EmptyString → named (<[k := v]> m).
Proof. intros Hm Hv k' [[_ ?]|[_ Hk]]%lookup_insert_Some; [done|by apply Hm in Hk]. Qed.
Lemma named_delete m k : named m → named (delete k m).
Proof. intros Hm k' [_ Hk]%lookup_delete_Some. by apply Hm in Hk. Qed.

Lemma named_apply_forward p (s : ast (H := H)) :
  named (Forward p) → named (ag_forward (as_ag s)) → named (ag_forward (as_ag (apply_forward p s))).
Proof.
  intros Hp Hs. unfold apply_forward. apply (fold_left_inv (λ s, named (ag_forward (as_ag s)))).
  - apply (fold_left_inv (λ s, named (ag_forward (as_ag s)))); [done|]. intros s' [k v] _ Hs'. unfold drop_forward.
    case_bool_decide; [done|]. unfold sys. destruct (exec _ _) as [[] h]; cbn; by apply named_delete.
  - intros s' [k v] Hin Hs'. rewrite range_perm, elem_of_map_to_list in Hin. unfold add_forward.
    destruct (ag_forward (as_ag s') !! k); [done|].
    assert (ag_forward (as_ag (indexLocked v s').2) = ag_forward (as_ag s')) as Ef by (frame (frame_indexLocked v s')).
    destruct (indexLocked v s') as [[[err|] n] s1]; cbn [snd] in Ef; [cbn; by rewrite Ef|].
    unfold sys. destruct (exec _ _) as [[] h]; cbn; rewrite Ef; [|done]. apply named_insert; [done|]. intros ->. by apply (Hp k).
Qed.

Lemma named_apply_return p (s : ast (H := H)) :
  named (Return p) → named (ag_ret (as_ag s)) → named (ag_ret (as_ag (apply_return p s))).
Proof.
  intros Hp Hs. unfold apply_return. apply (fold_left_inv (λ s, named (ag_ret (as_ag s)))).
  - apply (fold_left_inv (λ s, named (ag_ret (as_ag s)))); [done|]. intros s' [k v] _ Hs'. unfold drop_return.
    case_bool_decide; [done|]. unfold sys. destruct (exec _ _) as [[] h]; cbn; by apply named_delete.
  - intros s' [k v] Hin Hs'. rewrite range_perm, elem_of_map_to_list in Hin. unfold add_return.
    destruct (ag_ret (as_ag s') !! k); [done|]. destruct (ag_backbones (as_ag s') !! v); [|done].
    unfold sys. destruct (exec _ _) as [[] h]; cbn; [|done]. apply named_insert; [done|]. intros ->. by apply (Hp k).
Qed.

Lemma true_removeIPsec p (s : ast (H := H)) :
  all_true (ag_ipsecHere (as_ag s)) → all_true (ag_ipsecHere (as_ag (removeIPsecLocked p s))).
Proof.
  intros Hs. unfold removeIPsecLocked. apply (fold_left_inv (λ s, all_true (ag_ipsecHere (as_ag s)))).
  - apply (fold_left_inv (λ s, all_true (ag_ipsecHere (as_ag s)))); [done|]. intros s' [k v] _ Hs'. unfold drop_conn.
    case_bool_decide; [done|]. unfold unloadIPsec. cbn. by rewrite !ag_sys_err.
  - intros s' [k v] _ Hs'. unfold drop_here. cbn [fst]. destruct (default false _); [done|]. cbn. rewrite ag_sys_err.
    intros k' v' [_ Hk]%lookup_delete_Some. by eapply Hs'.
Qed.

Lemma true_addIPsec p (s : ast (H := H)) :
  all_true (ag_ipsecHere (as_ag s)) → all_true (ag_ipsecHere (as_ag (addIPsecLocked cfg p s))).
Proof.
  intros Hs. unfold addIPsecLocked. apply (fold_left_inv (λ s, all_true (ag_ipsecHere (as_ag s)))).
  - apply (fold_left_inv (λ s, all_true (ag_ipsecHere (as_ag s)))); [done|]. intros s' [k v] _ Hs'. unfold add_conn.
    destruct (ag_ipsecConns (as_ag s') !! k); [done|]. cbv zeta. unfold sys.
    destruct (exec (LoadShared _ _ _) _) as [[] h1]; cbn [negb]; [|done]. cbn [as_host].
    destruct (exec (ipsecConnection _ _ _) _) as [[] h2]; cbn [negb].
    + cbn. by rewrite ag_sys_err.
    + unfold sys_. by rewrite ag_sys.
  - intros s' [k v] _ Hs'. unfold add_here. cbn [fst]. destruct (default false _); [done|]. unfold sys.
    destruct (exec _ _) as [[] h]; cbn; [|done]. intros k' v' [[_ <-]|[_ Hk]]%lookup_insert_Some; [done|by eapply Hs'].
Qed.

Lemma trace_frame p (s : ast (H := H)) :
  but_applied (as_ag (traceMovesLocked p s).2) = but_applied (as_ag s) ∧
  as_host (traceMovesLocked p s).2 = as_host s ∧ as_errs (traceMovesLocked p s).2 = as_errs s.
Proof.
  unfold traceMovesLocked.
  pose (proj := λ acc : list span * ast (H := H), (but_applied (as_ag acc.2), as_host acc.2, as_errs acc.2)).
  assert (proj (fold_left trace_move (range (Sessions p)) ([], s)) = proj ([], s)) as E.
  { apply fold_left_frame. intros [spans s'] [id now]. unfold proj, trace_move. cbn [snd].
    destruct (ag_applied (as_ag s') !! id); [|done]. by destruct (_ <=? _). }
  split; [exact (f_equal (λ x, x.1.1) E)|]. split; [exact (f_equal (λ x, x.1.2) E)|exact (f_equal snd E)].
Qed.

(** What the stages up to the forwarding rules leave alone. *)
Lemma stage_forward p (s : ast (H := H)) :
  let b := apply_backbones cfg p s in
  let f := apply_forward p (apply_epochs p (apply_peers p b)) in
  ag_ret (as_ag f) = ag_ret (as_ag s) ∧ ag_ipsecHere (as_ag f) = ag_ipsecHere (as_ag s) ∧
  ag_ipsecConns (as_ag f) = ag_ipsecConns (as_ag s) ∧ ag_backbones (as_ag f) = ag_backbones (as_ag b) ∧
  ag_peers (as_ag f) = ag_peers (as_ag (apply_peers p b)) ∧
  ag_forward (as_ag (apply_epochs p (apply_peers p b))) = ag_forward (as_ag s) ∧
  ag_sessions (as_ag f) = (AccessSessions p, EgressSessions p).
Proof.
  cbv zeta. pose proof (frame_apply_backbones cfg p s) as F1. pose proof (frame_apply_peers p (apply_backbones cfg p s)) as F2.
  pose proof (frame_apply_forward p (apply_epochs p (apply_peers p (apply_backbones cfg p s)))) as F3.
  injection F1. injection F2. injection F3. intros. cbn in *. split_and!; congruence.
Qed.

(** What the later stages leave alone. *)
Lemma stage_rest p (f : ast (H := H)) :
  let r := if ipsecOn cfg then removeIPsecLocked p f else f in
  let t := apply_return p r in
  let u := if ipsecOn cfg then addIPsecLocked cfg p t else t in
  ag_ret (as_ag r) = ag_ret (as_ag f) ∧ ag_backbones (as_ag r) = ag_backbones (as_ag f) ∧
  ag_ipsecConns (as_ag t) = ag_ipsecConns (as_ag r) ∧ ag_ipsecHere (as_ag t) = ag_ipsecHere (as_ag r) ∧
  ag_backbones (as_ag u) = ag_backbones (as_ag f) ∧ ag_peers (as_ag u) = ag_peers (as_ag f) ∧
  ag_forward (as_ag u) = ag_forward (as_ag f) ∧ ag_ret (as_ag u) = ag_ret (as_ag t) ∧
  ag_sessions (as_ag u) = ag_sessions (as_ag f).
Proof.
  cbv zeta. set (r := if ipsecOn cfg then removeIPsecLocked p f else f).
  assert (but_ipsec (as_ag r) = but_ipsec (as_ag f)) as F1 by (unfold r; destruct (ipsecOn cfg); [apply frame_removeIPsec|done]).
  pose proof (frame_apply_return p r) as F2. set (t := apply_return p r) in *.
  set (u := if ipsecOn cfg then addIPsecLocked cfg p t else t).
  assert (but_ipsec (as_ag u) = but_ipsec (as_ag t)) as F3 by (unfold u; destruct (ipsecOn cfg); [apply frame_addIPsec|done]).
  clearbody r t u. injection F1. injection F2. injection F3. intros. split_and!; congruence.
Qed.

(** An apply keeps the invariant, whatever fails but the deletion of a rule. *)
Lemma apply_all_ok p a h :
  let u := apply_all cfg p (mkAst a h [] ∅) in
  agent_ok a h → plan_ok p → no_stale (as_errs u) → agent_ok (as_ag u) (as_host u).
Proof.
  intros u [Hf Hr Hh Hrules Hidx] [Pf Pr Pb Ph] Hn. unfold u, apply_all in *. clear u. cbv zeta in *.
  set (s0 := mkAst a h [] ∅) in *. set (b := apply_backbones cfg p s0) in *. set (q := apply_peers p b) in *.
  set (e := apply_epochs p q) in *. set (f := apply_forward p e) in *.
  assert (ri_le s0 e) as Ge.
  { etransitivity; [apply (ri_apply_backbones cfg p)|]. etransitivity; [apply (ri_apply_peers p)|]. by apply ri_on_ag. }
  assert (ag_ret (as_ag f) = ag_ret a ∧ ag_ipsecHere (as_ag f) = ag_ipsecHere a) as [Efr Efh].
  { destruct (stage_forward p s0) as (E1 & E2 & _). done. }
  assert (named (ag_forward (as_ag f))) as Nf.
  { apply named_apply_forward; [done|]. by rewrite (ri_forward _ _ Ge). }
  set (r := if ipsecOn cfg then removeIPsecLocked p f else f) in *.
  set (t := apply_return p r) in *. set (u := if ipsecOn cfg then addIPsecLocked cfg p t else t) in *.
  assert (errs_le f u) as Eu.
  { unfold u, t, r. destruct (ipsecOn cfg); [|apply errs_apply_return].
    unfold errs_le. etransitivity; [apply errs_removeIPsec|]. etransitivity; [apply errs_apply_return|apply errs_addIPsec]. }
  assert (ri_le f u) as Gu.
  { unfold u, t, r. destruct (ipsecOn cfg); [|apply ri_apply_return].
    etransitivity; [apply (ri_removeIPsec p)|]. etransitivity; [apply (ri_apply_return p)|apply ri_addIPsec]. }
  destruct (stage_rest p f) as (Er & _ & _ & Eth & _ & _ & _ & Eur & _).
  fold r in Er, Eth, Eur. fold t in Eth, Eur. fold u in Eur.
  assert (named (ag_ret (as_ag t))) as Nt by (apply named_apply_return; [done|by rewrite Er, Efr]).
  assert (all_true (ag_ipsecHere (as_ag t))) as Ht.
  { rewrite Eth. unfold r. destruct (ipsecOn cfg); [apply true_removeIPsec|]; by rewrite Efh. }
  split.
  - by rewrite (ri_forward _ _ Gu).
  - by rewrite Eur.
  - unfold u. destruct (ipsecOn cfg); [|done]. by apply true_addIPsec.
  - eapply rules_ok_le; [exact Gu|]. apply apply_forward_rules; [by eapply no_stale_le|]. by eapply rules_ok_le.
  - apply (ri_indexok _ _ Gu), apply_forward_index, (ri_indexok _ _ Ge). done.
Qed.

Lemma apply_all_sync p a h :
  let u := apply_all cfg p (mkAst a h [] ∅) in
  agent_ok a h → plan_ok p → as_errs u = [] → in_sync p (as_ag u).
Proof.
  intros u [Hf Hr Hh Hrules _] [Pf Pr Pb Ph] He. unfold u, apply_all in *. clear u. cbv zeta in *.
  set (s0 := mkAst a h [] ∅) in *. set (b := apply_backbones cfg p s0) in *. set (q := apply_peers p b) in *.
  set (e := apply_epochs p q) in *. set (f := apply_forward p e) in *.
  destruct (stage_forward p s0) as (F1 & F2 & F3 & F4 & F5 & F6 & F7).
  fold b in F1, F2, F3, F4, F5, F6, F7. fold q in F1, F2, F3, F4, F5, F6, F7.
  fold e in F1, F2, F3, F4, F6, F7, F5. fold f in F1, F2, F3, F4, F5, F7.
  destruct (stage_rest p f) as (R1 & R2 & R3 & R4 & R5 & R6 & R7 & R8 & R9).
  set (r := if ipsecOn cfg then removeIPsecLocked p f else f) in *.
  set (t := apply_return p r) in *. set (u := if ipsecOn cfg then addIPsecLocked cfg p t else t) in *.
  assert (as_errs t = []) as Et.
  { eapply errs_nil; [|exact He]. unfold u. destruct (ipsecOn cfg); [apply errs_addIPsec|done]. }
  assert (as_errs f = []) as Ef.
  { eapply errs_nil; [|exact (errs_nil _ _ (errs_apply_return p r) Et)]. unfold r.
    destruct (ipsecOn cfg); [apply errs_removeIPsec|done]. }
  assert (as_errs q = []) as Eq by exact (errs_nil _ _ (errs_apply_forward p e) Ef).
  assert (as_errs b = []) as Eb by exact (errs_nil _ _ (errs_apply_peers p b) Eq).
  assert (have (as_ag b) = wanted (Backbones p)) as Sb by (by apply sync_backbones).
  assert (ag_ret (as_ag t) = Return p) as St.
  { apply sync_return; [by rewrite R1, F1| |done]. intros k v Hk. rewrite R2, F4. destruct (Pb k v Hk) as [w Hw].
    assert (have (as_ag b) !! v = Some (w, true)) as Hv by (by rewrite Sb; unfold wanted; rewrite lookup_fmap, Hw).
    unfold have in Hv. rewrite lookup_fmap in Hv. destruct (ag_backbones (as_ag b) !! v); [eauto|done]. }
  assert (ipsecOn cfg = true → ag_ipsecConns (as_ag u) = IPsec p ∧ ag_ipsecHere (as_ag u) = IPsecHere p) as Sip.
  { intros Hon. unfold u, r in *. rewrite Hon in *. apply sync_ipsec; [| |done|done].
    - rewrite R3. apply kept_conns.
    - rewrite R4. apply kept_here; [by rewrite F2|done]. }
  split.
  - unfold have. by rewrite R5, F4.
  - rewrite R6, F5. by apply sync_peers.
  - rewrite R7. apply sync_forward; [by rewrite F6|done].
  - by rewrite R8.
  - by rewrite R9.
  - intros Hon. by apply Sip.
  - intros Hon. by apply Sip.
Qed.

Lemma apply_stages p a h errs spans a' h' :
  apply cfg p a h = (errs, spans, a', h') →
  let u := apply_all cfg p (mkAst a h [] ∅) in
  errs = as_errs u ∧ but_applied a' = but_applied (as_ag u) ∧ h' = as_host u.
Proof.
  unfold apply. cbv zeta. set (u := apply_all cfg p _). destruct (trace_frame p u) as (F1 & F2 & F3).
  destruct (traceMovesLocked p u) as [sp s']. cbn [snd] in *. intros [= <- _ <- <-]. by rewrite F3.
Qed.

Lemma agent_ok_frame (a a' : Agent) (h : H) : but_applied a' = but_applied a → agent_ok a h → agent_ok a' h.
Proof.
  intros F. injection F as E1 E2 E3 E4 E5 E6 E7 E8 E9 E10. intros [A1 A2 A3 A4 A5].
  split; unfold rules_ok, index_ok in *; by rewrite ?E1, ?E2, ?E5, ?E6, ?E10.
Qed.

Lemma reaches_ok a h : reaches a h → agent_ok a h.
Proof.
  induction 1 as [h Hh|p a h errs spans a' h' _ IH Hp Happ Hn].
  - by split.
  - destruct (apply_stages _ _ _ _ _ _ _ Happ) as (-> & F & ->).
    eapply agent_ok_frame; [exact F|]. by apply apply_all_ok.
Qed.

(** ** Properties *)

(** C8: whatever plans the gateway has applied before, and whichever commands
    failed on the way (the deletion of a rule excepted), an apply that reports
    no error leaves the agent configured exactly as the plan says: its
    backbones, client peers, forwarding and return tables, and IPsec clients.
    The host then has, for every virtual IP the plan forwards, one policy rule
    and no other, to the routing table of that session's egress; tables of
    different egresses differ; and no rule for any other address. *)
Theorem apply_converges p a h spans a' h' :
  reaches a h → plan_ok p → apply cfg p a h = ([], spans, a', h') →
  in_sync p a' ∧
  (∀ vip, match Forward p !! vip with
          | Some e => ∃ n, ag_index a' !! e = Some n ∧ rules_of h' vip = {[egressTableBase + n]}
          | None => rules_of h' vip = ∅
          end) ∧
  (∀ e e' n, ag_index a' !! e = Some n → ag_index a' !! e' = Some n → e = e').
Proof.
  intros Hr%reaches_ok Hp Happ. destruct (apply_stages _ _ _ _ _ _ _ Happ) as (He & F & ->).
  set (u := apply_all cfg p (mkAst a h [] ∅)) in *.
  assert (agent_ok a' (as_host u)) as Hok.
  { eapply agent_ok_frame; [exact F|]. apply apply_all_ok; [done|done|]. fold u. rewrite <- He. intros v t. apply not_elem_of_nil. }
  assert (in_sync p (as_ag u)) as [S1 S2 S3 S4 S5 S6 S7] by (by apply apply_all_sync).
  injection F as E1 E2 E3 E4 E5 E6 E7 E8 E9 E10.
  assert (in_sync p a') as Hs by (split; unfold have in *; rewrite ?E3, ?E4, ?E5, ?E6, ?E8, ?E9, ?E10; done).
  split; [exact Hs|]. split; [|exact (proj2 (ao_index _ _ Hok))].
  intros vip. rewrite <- (is_forward _ _ Hs). apply (ao_rules _ _ Hok).
Qed.
End run.

(** ** Plans made by MakePlan *)

Lemma collect_from {K V} `{Countable K} c k (x : ApiSession → V) l (key : K) v :
  collect c k x l ∅ !! key = Some v → ∃ s, s ∈ l ∧ c s = true ∧ x s = v.
Proof.
  revert v. unfold collect.
  apply (fold_left_inv (λ m : gmap K V, ∀ v, m !! key = Some v → ∃ s, s ∈ l ∧ c s = true ∧ x s = v)).
  - intros v'. by rewrite lookup_empty.
  - intros m s Hs IH v'. destruct (c s) eqn:Ec; [|by apply IH].
    intros [[_ <-]|[_ Hm]]%lookup_insert_Some; [by eauto|by apply IH].
Qed.

Lemma MakePlan_ok `{NetParse} me roles st :
  (∀ g, g ∈ st_Gateways st → g_ID g ≠ EmptyString) → plan_ok (MakePlan me roles st).
Proof.
  intros Hid. destruct (plan_fields me roles st) as (HF & HR & _ & _ & HB). cbv zeta in *.
  assert (∀ id, id ∈ known_gateways (st_Gateways st) → id ≠ EmptyString) as Hk.
  { intros id Hin. unfold known_gateways in Hin. rewrite elem_of_list_to_set, list_elem_of_fmap in Hin.
    destruct Hin as (g & -> & Hg). by apply Hid. }
  split.
  - intros vip Hv. rewrite HF in Hv. apply collect_from in Hv as (s & _ & Hc & Hs). zbool.
    apply (Hk (s_Egress s)); done.
  - intros vip Hv. rewrite HR in Hv. apply collect_from in Hv as (s & _ & Hc & Hs). zbool. apply (Hk (s_Access s)); done.
  - intros vip access Hv. rewrite HR in Hv. apply collect_from in Hv as (s & _ & Hc & <-). zbool. rewrite HB.
    assert (∀ l (m : gmap string Backbone), (∃ g, g ∈ l ∧ g_ID g = s_Access s) ∨ is_Some (m !! s_Access s) →
      is_Some (fold_left (plan_gateway me) l m !! s_Access s)) as Hall.
    { induction l as [|g l IH]; intros m [(g' & Hg & Eg)|Hm]; cbn; [by apply not_elem_of_nil in Hg|done|apply IH..].
      - apply elem_of_cons in Hg as [->|Hg]; [right|left; eauto]. unfold plan_gateway. rewrite Eg.
        rewrite bool_decide_false by done. apply lookup_insert_is_Some'. by left.
      - right. unfold plan_gateway. case_bool_decide; [done|]. apply lookup_insert_is_Some'. by right. }
    apply Hall. left. match goal with Hin : s_Access s ∈ known_gateways _ |- _ =>
      unfold known_gateways in Hin; rewrite elem_of_list_to_set, list_elem_of_fmap in Hin; destruct Hin as (g & Eg & Hg) end.
    by exists g.
  - unfold MakePlan. cbv zeta. apply (fold_left_inv (λ p, all_true (IPsecHere p))).
    + intros k v Hv. cbn in Hv. by rewrite lookup_empty in Hv.
    + intros p s _ Hp. unfold plan_session. cbn. unfold plan_here. destruct (_ && _); [|done].
      intros k v [[_ <-]|[_ Hv]]%lookup_insert_Some; [done|by eapply Hp].
Qed.

(** ** A host that satisfies the laws, and runs on it *)

Module Demo.

(** Rules, the tables with a blackhole and those with a default route, and
    which commands fail. *)
Record dhost := mkHost {
  d_rules : gmap Addr (gset Z);
  d_black : gset Z;
  d_default : gset Z;
  d_broken : cmd → bool;
}.

Definition effect (c : cmd) (h : dhost) : dhost :=
  match c with
  | AddRule v t => mkHost (<[v := {[t]} ∪ default ∅ (d_rules h !! v)]> (d_rules h)) (d_black h) (d_default h) (d_broken h)
  | DelRule v t => mkHost (<[v := default ∅ (d_rules h !! v) ∖ {[t]}]> (d_rules h)) (d_black h) (d_default h) (d_broken h)
  | FlushTable t => mkHost (d_rules h) (d_black h ∖ {[t]}) (d_default h ∖ {[t]}) (d_broken h)
  | Blackhole t => mkHost (d_rules h) ({[t]} ∪ d_black h) (d_default h) (d_broken h)
  | DefaultRoute _ t => mkHost (d_rules h) (d_black h) ({[t]} ∪ d_default h) (d_broken h)
  | _ => h
  end.

#[export] Instance dhost_Host : Host dhost := {|
  exec c h := if d_broken h c then (false, h) else (true, effect c h);
  handshaken _ _ _ := false;
|}.

#[export] Instance dRange : Range := {| range K _ _ V m := map_to_list m |}.
#[export] Instance dRangeLaws : RangeLaws.
Proof. by split. Qed.

#[export] Instance dhost_rules : HostRules dhost.
Proof.
  refine {| rules_of h v := default ∅ (d_rules h !! v) |}; cbn.
  - intros h h' v t E v'. destruct (d_broken h _); [done|]. injection E as <-. cbn.
    rewrite lookup_insert. by repeat case_decide; subst.
  - intros h h' v t E v'. destruct (d_broken h _); [done|]. injection E as <-. cbn.
    rewrite lookup_insert. by repeat case_decide; subst.
  - intros c h h' E v. destruct (d_broken h c); [|done]. by injection E as <-.
  - intros c h ok h' Hc E v. destruct (d_broken h c); injection E as _ <-; [done|]. by destruct c.
Defined.

Definition fresh : dhost := mkHost ∅ ∅ ∅ (λ _, false).
Definition break (f : cmd → bool) (h : dhost) : dhost := mkHost (d_rules h) (d_black h) (d_default h) f.
Definition cfg0 : AConfig := mkAConfig "hk" 3 (Addr4 1) 9 false.

(** 43 digits and the padding. *)
Definition key32 : string := "AAAAAAAAAAAAAAAAAAAAAAAAAAAAAAAAAAAAAAAAAAA=".

Definition gw (id : string) (n : Z) : Gateway := mkGateway id 3 "" key32 (Addr4 n) ∅ false true.
Definition state_via (egress : string) (epoch : Z) : GatewayState :=
  mkGWState 5 (mkNetwork zeroPrefix zeroPrefix 0) [gw "hk" 1; gw "jp" 2; gw "sg" 3]
    [mkSession "7" key32 (Addr4 100) "hk" egress epoch "wireguard" ""].
Definition plan_via (egress : string) (epoch : Z) : Plan :=
  @MakePlan {| ParseAddrPort := λ _, None |} "hk" 3 (state_via egress epoch).

Lemma plan_via_ok egress epoch : plan_ok (plan_via egress epoch).
Proof.
  apply MakePlan_ok. intros g Hg. cbn in Hg. rewrite !elem_of_cons in Hg.
  destruct Hg as [->|[->|[->|Hg]]]; try discriminate. by apply not_elem_of_nil in Hg.
Qed.

Abbreviation apply0 := (apply (H := dhost) cfg0).

(** A session moved from egress sg to egress jp: two applies in a row. *)
Definition after (p : Plan) (ah : Agent * dhost) : Agent * dhost := let r := apply0 p ah.1 ah.2 in (r.1.2, r.2).
Definition errs_of (p : Plan) (ah : Agent * dhost) : list apply_error := (apply0 p ah.1 ah.2).1.1.1.

Lemma apply_converges_witness :
  let s1 := after (plan_via "sg" 1) (NewAgent, fresh) in
  let s2 := after (plan_via "jp" 2) s1 in
  ag_forward s2.1 !! Addr4 100 = Some "jp" ∧ ∃ n, rules_of s2.2 (Addr4 100) = {[egressTableBase + n]}.
Proof.
  intros s1 s2.
  assert (reaches cfg0 s1.1 s1.2) as Hr.
  { refine (reach_apply cfg0 (plan_via "sg" 1) NewAgent fresh (errs_of (plan_via "sg" 1) (NewAgent, fresh))
              (apply0 (plan_via "sg" 1) NewAgent fresh).1.1.2 _ _ _ _ _ _).
    - apply reach_new. intros v. exact eq_refl.
    - apply plan_via_ok.
    - unfold s1, after, errs_of. cbn [fst snd]. destruct (apply0 _ _ _) as [[[? ?] ?] ?]. exact eq_refl.
    - assert (errs_of (plan_via "sg" 1) (NewAgent, fresh) = []) as -> by (vm_compute; exact eq_refl).
      intros v t. apply not_elem_of_nil. }
  destruct (apply_converges cfg0 (plan_via "jp" 2) s1.1 s1.2 (apply0 (plan_via "jp" 2) s1.1 s1.2).1.1.2 s2.1 s2.2)
    as (Hs & Hrules & _).
  - exact Hr.
  - apply plan_via_ok.
  - assert (errs_of (plan_via "jp" 2) s1 = []) as He by (vm_compute; exact eq_refl).
    unfold s2, after. unfold errs_of in He. destruct (apply0 _ _ _) as [[[es sp] a'] h']. cbn in *. by rewrite He.
  - assert (Forward (plan_via "jp" 2) !! Addr4 100 = Some "jp"%string) as Hf by (vm_compute; exact eq_refl).
    specialize (Hrules (Addr4 100)). rewrite Hf in Hrules. destruct Hrules as (n & _ & Hn).
    split; [rewrite (is_forward _ _ _ Hs); exact Hf|]. exists n. exact Hn.
Defined.

(** A rule whose deletion fails once is forgotten: [apply] drops the entry
    all the same. When the command works again and a later apply reports no
    error, the address still has the old egress's rule beside the new one. *)
Lemma failed_delete_leaves_rule :
  let s1 := after (plan_via "sg" 1) (NewAgent, fresh) in
  let s2 := after (plan_via "jp" 2) (s1.1, break (λ c, match c with DelRule _ _ => true | _ => false end) s1.2) in
  let s3 := (s2.1, break (λ _, false) s2.2) in
  errs_of (plan_via "jp" 2) s3 = [] ∧
  let s4 := after (plan_via "jp" 2) s3 in
  ag_forward s4.1 !! Addr4 100 = Some "jp" ∧
  bool_decide (rules_of s4.2 (Addr4 100) = {[egressTableBase + 0; egressTableBase + 1]}) = true.
Proof. vm_compute. repeat split. Qed.

(** When flushing a new egress's table fails once, its number stays assigned,
    so the same apply already installs the rule, to a table with neither a
    default route nor the blackhole, and no later apply adds the blackhole. *)
Lemma failed_flush_skips_blackhole :
  let s1 := after (plan_via "sg" 1)
              (NewAgent, break (λ c, match c with FlushTable _ => true | _ => false end) fresh) in
  let s2 := after (plan_via "sg" 1) (s1.1, break (λ _, false) s1.2) in
  bool_decide (rules_of s1.2 (Addr4 100) = {[egressTableBase + 1]}) = true ∧
  bool_decide (egressTableBase + 1 ∈ d_black s1.2 ∪ d_default s1.2) = false ∧
  errs_of (plan_via "sg" 1) (s1.1, break (λ _, false) s1.2) = [] ∧
  bool_decide (egressTableBase + 1 ∈ d_black s2.2) = false.
Proof. vm_compute. repeat split. Qed.

End Demo.
