(* ===== verification/Controller.v ===== *)
(** * The controller: internal/controller/server.go

    The one writer of gateway membership and of every session's ownership
    record. Every handler that writes holds the server's mutex from its first
    read to its last write, so a handler is one function of the server's
    state; the random values and the clock are its inputs. Responses keep the
    status code and the body, error texts are left out. SHA-256, HMAC and
    net/netip's parser are parameters. *)

From S2P Require Import Prelude Store Ownership Services Netip GoFloat Cost Api.
Import Membership.

Definition gatewayKeyPrefix : string := "/egressa/gw/".
Definition clientKeyPrefix : string := "/egressa/client/".
Definition DefaultAliveAfter : Duration := 10 * Second.

(** [regexp.MustCompile(`^[a-z0-9][a-z0-9-]{0,31}$`)] *)
Definition id_char (c : Ascii.ascii) : bool :=
  let n := Ascii.nat_of_ascii c in
  ((97 <=? n) && (n <=? 122) || (48 <=? n) && (n <=? 57))%nat.
Definition gatewayIDRE (id : string) : bool :=
  match String.list_ascii_of_string id with
  | [] => false
  | c :: cs => id_char c && forallb (λ c, id_char c || Ascii.eqb c (Ascii.ascii_of_nat 45)) cs && (length cs <=? 31)%nat
  end.

Definition parsePublicKey (s : string) : bool := base64_32 s.

Record SConfig := mkSConfig {
  GatewayToken : string;
  ClientToken : string;
  cfg_Network : Network;
  AliveAfter : Duration;
  IPsecKey : bytes;
}.

Record clientRecord := mkClient {
  c_ID : string;
  c_PublicKey : string;
  c_VirtualIP : Addr;
  c_SecretHash : string;
  c_Backend : string;
}.

#[export] Instance clientRecord_eq_dec : EqDecision clientRecord.
Proof. solve_decision. Defined.
#[export] Instance clientRecord_countable : Countable clientRecord.
Proof.
  refine (inj_countable' (λ c, (c_ID c, c_PublicKey c, c_VirtualIP c, c_SecretHash c, c_Backend c))
            (λ '(i, k, v, h, b), mkClient i k v h b) _). by intros [].
Defined.

Record linkEntry := mkLinkEntry { le_link : Link; le_received : Time }.

Record Server (St : Type) := mkServer {
  sv_store : St;
  version : Z;
  links : gmap string (gmap string linkEntry);
  lastSeen : gmap string Time;
  alive : gmap string bool;
}.
Arguments mkServer {St} _ _ _ _ _.
Arguments sv_store {St} _.
Arguments version {St} _.
Arguments links {St} _.
Arguments lastSeen {St} _.
Arguments alive {St} _.

Inductive body :=
| NoBody
| ErrorBody (current : option ApiSession)
| RegisteredBody (nodeIP : Addr) (net : Network)
| CreatedBody (r : CreateSessionResponse)
| SessionBody (s : ApiSession)
| GatewaysBody (gws : list Gateway)
| GatewayStateBody (st : GatewayState)
| ClientStateBody (st : ClientState).

Record response := mkResp { resp_code : Z; resp_body : body }.
Definition failed (code : Z) : response := mkResp code (ErrorBody None).

Definition StatusOK : Z := 200.
Definition StatusNoContent : Z := 204.
Definition StatusBadRequest : Z := 400.
Definition StatusUnauthorized : Z := 401.
Definition StatusNotFound : Z := 404.
Definition StatusConflict : Z := 409.
Definition StatusInternalServerError : Z := 500.
Definition StatusServiceUnavailable : Z := 503.

(** [strings.CutPrefix(h, "Bearer ")] *)
Definition bearer (h : string) : string :=
  if HasPrefix h "Bearer " then String.substring 7 (String.length h - 7) h else "".

(** [subtle.ConstantTimeCompare] on the strings' bytes. *)
Definition tokenOK (want got : string) : bool := bool_decide (want = "") || bool_decide (want = got).

Definition normBackend (b : string) : string := if bool_decide (b = "") then BackendWireGuard else b.

Definition canAccess (g : Gateway) (backend : string) : bool :=
  Has (g_Roles g) RoleAccess && (negb (bool_decide (backend = BackendIPsec)) || g_IPsec g).

(** [addr.Next()]: the zero address after the last one. *)
Definition Next (a : Addr) : Addr :=
  match a with
  | AddrInvalid => AddrInvalid
  | Addr4 v => if v =? 2 ^ 32 - 1 then AddrInvalid else Addr4 (v + 1)
  | Addr6 v => if v =? 2 ^ 128 - 1 then AddrInvalid else Addr6 (v + 1)
  end.

(** The loop of [allocate]. It passes over used addresses and stops at the
    first unused one (or leaves the prefix just after it), so two turns more
    than there are used addresses are enough. *)
Fixpoint alloc_loop (fuel : nat) (p : Prefix) (used : gset Addr) (a : Addr) : option Addr :=
  match fuel with
  | O => None
  | S fuel =>
      if negb (Contains p a) then None
      else if bool_decide (a ∉ used) && Contains p (Next a) then Some a
      else alloc_loop fuel p used (Next a)
  end.
Definition allocate (p : Prefix) (used : gset Addr) : option Addr :=
  alloc_loop (size used + 2) p used (Next (Next (pf_Addr p))).

(** [randomSessionID]: eight random bytes until they are not all zero; the
    argument is what [rand.Read] returns, [None] its failure. *)
Fixpoint randomSessionID (draws : list bytes) : option string :=
  match draws with
  | [] => None
  | b :: draws => if be_get b =? 0 then randomSessionID draws else Some (FormatUint (be_get b))
  end.

(** [pickPath]; the error texts are left out. *)
Definition pickPath (gws : list Gateway) (alive : gmap string bool) (egress backend : string)
    : option (string * string) :=
  let usable (g : Gateway) (role : Z) := Has (g_Roles g) role && default false (alive !! g_ID g) in
  let eg :=
    if negb (bool_decide (egress = "")) then
      let '(g, ok) := FindGateway gws egress in
      if negb ok || negb (Has (g_Roles g) RoleEgress) then None else Some (g_ID g)
    else
      Some (match list_find (λ g, usable g RoleEgress = true) gws with
            | Some (_, g) => g_ID g
            | None => ""
            end) in
  match eg with
  | None => None
  | Some eg =>
      if bool_decide (eg = "") then None
      else if canAccess (FindGateway gws eg).1 backend then Some (eg, eg)
      else match list_find (λ g, usable g RoleAccess && canAccess g backend = true) gws with
           | Some (_, g) => Some (g_ID g, eg)
           | None => None
           end
  end.

Section Server.
Context `{!NetParse, !Codec Gateway, !Codec clientRecord, !Codec OwnershipRecord, !Codec Policy.PolicyDocument}.
Context {St : Type} `{!KVStore St} (fencer : option (Fencer St)).
Context (hashSecret : string → string) (hmacPSK : bytes → string → string) (cfg : SConfig).

Definition set_store (s : Server St) (st : St) : Server St :=
  mkServer st (version s) (links s) (lastSeen s) (alive s).

(** [bumpLocked]; closing and remaking the channel wakes the long polls. *)
Definition bumpLocked (s : Server St) : Server St :=
  mkServer (sv_store s) (u64 (version s + 1)) (links s) (lastSeen s) (alive s).

Definition seenLocked (id : string) (now : Time) (s : Server St) : Server St :=
  let s := mkServer (sv_store s) (version s) (links s) (<[id := now]> (lastSeen s)) (alive s) in
  if negb (default false (alive s !! id))
  then bumpLocked (mkServer (sv_store s) (version s) (links s) (lastSeen s) (<[id := true]> (alive s)))
  else s.

Definition sweep_one (now : Time) (s : Server St) (ia : string * bool) : Server St :=
  if ia.2 && (time_Sub now (default zero_time (lastSeen s !! ia.1)) >? AliveAfter cfg)
  then bumpLocked (mkServer (sv_store s) (version s) (links s) (lastSeen s) (<[ia.1 := false]> (alive s)))
  else s.
(** [sweep]: the loop over the map [alive]. *)
Definition sweep (now : Time) (s : Server St) : Server St :=
  fold_left (sweep_one now) (map_to_list (alive s)) s.

(** [None] is an error: the store's or the decoder's. *)
Definition decode_all {A} `{!Codec A} (raw : gmap string bytes) : option (list A) :=
  mapM unmarshal (map_to_list raw).*2.

Definition gateways (st : St) : option (list Gateway) :=
  match kv_List gatewayKeyPrefix st with
  | Err _ => None
  | Ok raw => merge_sort (le_by g_ID) <$> decode_all raw
  end.

Definition clients (st : St) : option (list clientRecord) :=
  match kv_List clientKeyPrefix st with
  | Err _ => None
  | Ok raw => merge_sort (le_by c_ID) <$> decode_all raw
  end.

Definition clientByID (id : string) (st : St) : option (option clientRecord) :=
  match kv_Get (clientKeyPrefix +:+ id)%string st with
  | Err _ => None
  | Ok None => Some None
  | Ok (Some data) => Some <$> unmarshal data
  end.

(** [put]; the flag says whether it succeeded. *)
Definition put {A} `{!Codec A} (key : string) (v : A) (st : St) : St * bool :=
  match marshal v with
  | None => (st, false)
  | Some data => match kv_Put key data st with (st, None) => (st, true) | (st, Some _) => (st, false) end
  end.

Definition session (c : clientRecord) (st : St) : option ApiSession :=
  match own_Get (c_ID c) st with
  | Err _ => None
  | Ok None => None
  | Ok (Some own) =>
      Some (if bool_decide (c_Backend c = BackendIPsec)
            then mkSession (c_ID c) (c_PublicKey c) (c_VirtualIP c) (Access own) (Egress own) (Epoch own)
                   BackendIPsec (hmacPSK (IPsecKey cfg) (c_ID c))
            else mkSession (c_ID c) (c_PublicKey c) (c_VirtualIP c) (Access own) (Egress own) (Epoch own)
                   BackendWireGuard "")
  end.

(** ** Gateways *)

(** [gatewayEqual]: the JSON texts, with [Alive] cleared, are the same. *)
Definition gatewayEqual (a b : Gateway) : bool :=
  let clear g := mkGateway (g_ID g) (g_Roles g) (g_Endpoint g) (g_PublicKey g) (g_NodeIP g)
                   (g_BackbonePorts g) (g_IPsec g) false in
  bool_decide (default [] (marshal (clear a)) = default [] (marshal (clear b))).

(** [req] is [None] when the body does not decode. *)
Definition registerGateway (id : string) (req : option RegisterGatewayRequest) (now : Time)
    (s : Server St) : Server St * response :=
  if negb (gatewayIDRE id) then (s, failed StatusBadRequest)
  else match req with
  | None => (s, failed StatusBadRequest)
  | Some req =>
      match ParseAddrPort (rg_Endpoint req) with
      | None => (s, failed StatusBadRequest)
      | Some _ =>
          if negb (parsePublicKey (rg_PublicKey req)) then (s, failed StatusBadRequest)
          else if negb (Has (rg_Roles req) RoleAccess) && negb (Has (rg_Roles req) RoleEgress)
          then (s, failed StatusBadRequest)
          else match gateways (sv_store s) with
          | None => (s, failed StatusInternalServerError)
          | Some gws =>
              let '(g, existed) := FindGateway gws id in
              let nodeIP :=
                if negb existed
                then allocate (NodeSubnet (cfg_Network cfg)) (list_to_set (g_NodeIP <$> gws))
                else Some (g_NodeIP g) in
              match nodeIP with
              | None => (s, failed StatusServiceUnavailable)
              | Some nodeIP =>
                  let next := mkGateway id (rg_Roles req) (rg_Endpoint req) (rg_PublicKey req) nodeIP
                                (rg_BackbonePorts req) (rg_IPsec req) false in
                  let ok := mkResp StatusOK (RegisteredBody nodeIP (cfg_Network cfg)) in
                  if negb existed || negb (gatewayEqual g next) then
                    match put (gatewayKeyPrefix +:+ id)%string next (sv_store s) with
                    | (st, false) => (set_store s st, failed StatusInternalServerError)
                    | (st, true) => (seenLocked id now (bumpLocked (set_store s st)), ok)
                    end
                  else (seenLocked id now s, ok)
              end
          end
      end
  end.

Definition reportLinks (id : string) (rep : option (list Link)) (now : Time) (s : Server St)
    : Server St * response :=
  match rep with
  | None => (s, failed StatusBadRequest)
  | Some ls =>
      match kv_Get (gatewayKeyPrefix +:+ id)%string (sv_store s) with
      | Err _ | Ok None => (s, failed StatusNotFound)
      | Ok (Some _) =>
          let m := fold_left (λ m l, <[l_To l := mkLinkEntry (mkLink id (l_To l) (l_Stats l) (l_Staleness l)) now]> m)
                     ls ∅ in
          (seenLocked id now (mkServer (sv_store s) (version s) (<[id := m]> (links s)) (lastSeen s) (alive s)),
           mkResp StatusNoContent NoBody)
      end
  end.

Definition snapshot (s : Server St) : option (Z * list Gateway) :=
  match gateways (sv_store s) with
  | None => None
  | Some gws =>
      Some (version s,
            (λ g, mkGateway (g_ID g) (g_Roles g) (g_Endpoint g) (g_PublicKey g) (g_NodeIP g)
                    (g_BackbonePorts g) (g_IPsec g) (default false (alive s !! g_ID g))) <$> gws)
  end.

Definition listGateways (s : Server St) : response :=
  match snapshot s with
  | None => failed StatusInternalServerError
  | Some (_, gws) =>
      mkResp StatusOK (GatewaysBody ((λ g, mkGateway (g_ID g) (g_Roles g) (g_Endpoint g) (g_PublicKey g)
                                       (g_NodeIP g) ∅ (g_IPsec g) (g_Alive g)) <$> gws))
  end.

Definition gatewayState (s : Server St) : response :=
  match snapshot s with
  | None => failed StatusInternalServerError
  | Some (v, gws) =>
      match clients (sv_store s) with
      | None => failed StatusInternalServerError
      | Some cs =>
          mkResp StatusOK (GatewayStateBody
            (mkGWState v (cfg_Network cfg) gws (omap (λ c, session c (sv_store s)) cs)))
      end
  end.

(** ** Sessions *)

Definition sessionAuth (id secret : string) (s : Server St) : res response clientRecord :=
  match clientByID id (sv_store s) with
  | None => Err (failed StatusInternalServerError)
  | Some None => Err (failed StatusUnauthorized)
  | Some (Some rec) =>
      if negb (bool_decide (c_SecretHash rec = hashSecret secret)) then Err (failed StatusUnauthorized)
      else Ok rec
  end.

(** [switchBackendLocked]: [Some true] is success, [Some false] an error, [None]
    when [SetIfNewer] needs more than [fuel] steps. *)
Definition switchBackendLocked (fuel : nat) (c : clientRecord) (backend : string) (s : Server St)
    : Server St * option bool :=
  match session c (sv_store s), gateways (sv_store s) with
  | None, _ | _, None => (s, Some false)
  | Some cur, Some gws =>
      let moved : Server St * option bool :=
        if negb (canAccess (FindGateway gws (s_Access cur)).1 backend) then
          match pickPath gws (alive s) (s_Egress cur) backend with
          | None => (s, Some false)
          | Some (access, _) =>
              let next := mkOwn (c_ID c) access (s_Egress cur) (u64 (s_Epoch cur + 1)) in
              match SetIfNewer fencer fuel next (sv_store s) with
              | (st, None) => (set_store s st, None)
              | (st, Some (_, Some _)) => (set_store s st, Some false)
              | (st, Some (_, None)) => (set_store s st, Some true)
              end
          end
        else (s, Some true) in
      match moved with
      | (s, Some true) =>
          let c := mkClient (c_ID c) (c_PublicKey c) (c_VirtualIP c) (c_SecretHash c) backend in
          match put (clientKeyPrefix +:+ c_ID c)%string c (sv_store s) with
          | (st, false) => (set_store s st, Some false)
          | (st, true) => (bumpLocked (set_store s st), Some true)
          end
      | r => r
      end
  end.

(** A key that already holds a session: [cs[i]] of [createSession]. *)
Definition reopenSession (fuel : nat) (c : clientRecord) (secret backend : string) (s : Server St)
    : Server St * option response :=
  if negb (bool_decide (c_SecretHash c = hashSecret secret)) then (s, Some (failed StatusConflict))
  else
    let switched : Server St * option bool * clientRecord :=
      if negb (bool_decide (normBackend (c_Backend c) = backend)) then
        (switchBackendLocked fuel c backend s,
         mkClient (c_ID c) (c_PublicKey c) (c_VirtualIP c) (c_SecretHash c) backend)
      else (s, Some true, c) in
    match switched with
    | (s, None, _) => (s, None)
    | (s, Some false, _) => (s, Some (failed StatusServiceUnavailable))
    | (s, Some true, c) =>
        match session c (sv_store s) with
        | None => (s, Some (failed StatusInternalServerError))
        | Some sess => (s, Some (mkResp StatusOK (CreatedBody (mkCreated sess secret (cfg_Network cfg)))))
        end
    end.

(** The rest of [createSession], for a key without a session; [rnd] are the
    random bytes for the ID and the random secret. *)
Definition openSession (fuel : nat) (req : CreateSessionRequest) (backend : string)
    (cs : list clientRecord) (rnd : list bytes * option string) (s : Server St)
    : Server St * option response :=
  match gateways (sv_store s) with
  | None => (s, Some (failed StatusInternalServerError))
  | Some gws =>
      match pickPath gws (alive s) (cr_Egress req) backend with
      | None => (s, Some (failed StatusServiceUnavailable))
      | Some (access, egress) =>
          match allocate (ClientSubnet (cfg_Network cfg)) (list_to_set (c_VirtualIP <$> cs)) with
          | None => (s, Some (failed StatusServiceUnavailable))
          | Some vip =>
              match randomSessionID rnd.1, rnd.2 with
              | None, _ | _, None => (s, Some (failed StatusInternalServerError))
              | Some id, Some secret =>
                  match SetIfNewer fencer fuel (mkOwn id access egress 1) (sv_store s) with
                  | (st, None) => (set_store s st, None)
                  | (st, Some (_, Some _)) => (set_store s st, Some (failed StatusInternalServerError))
                  | (st, Some (_, None)) =>
                      let rec := mkClient id (cr_PublicKey req) vip (hashSecret secret) backend in
                      match put (clientKeyPrefix +:+ id)%string rec st with
                      | (st, false) => (set_store s st, Some (failed StatusInternalServerError))
                      | (st, true) =>
                          let s := bumpLocked (set_store s st) in
                          match session rec st with
                          | None => (s, Some (failed StatusInternalServerError))
                          | Some sess =>
                              (s, Some (mkResp StatusOK (CreatedBody (mkCreated sess secret (cfg_Network cfg)))))
                          end
                      end
                  end
              end
          end
      end
  end.

Definition createSession (fuel : nat) (token : string) (req : option CreateSessionRequest)
    (rnd : list bytes * option string) (s : Server St) : Server St * option response :=
  if negb (tokenOK (ClientToken cfg) token) then (s, Some (failed StatusUnauthorized))
  else match req with
  | None => (s, Some (failed StatusBadRequest))
  | Some req =>
      if negb (parsePublicKey (cr_PublicKey req)) then (s, Some (failed StatusBadRequest))
      else if negb (ValidBackend (cr_Backend req)) then (s, Some (failed StatusBadRequest))
      else
        let backend := normBackend (cr_Backend req) in
        if bool_decide (backend = BackendIPsec) && bool_decide (IPsecKey cfg = [])
        then (s, Some (failed StatusBadRequest))
        else match clients (sv_store s) with
        | None => (s, Some (failed StatusInternalServerError))
        | Some cs =>
            match list_find (λ c, c_PublicKey c = cr_PublicKey req) cs with
            | Some (_, c) => reopenSession fuel c (cr_Secret req) backend s
            | None => openSession fuel req backend cs rnd s
            end
        end
  end.

(** The order of two links in a client's state. *)
Definition link_key (l : Link) : string := (l_From l +:+ String (Ascii.ascii_of_nat 0) (l_To l))%string.

Definition clientState (c : clientRecord) (now : Time) (s : Server St) : response :=
  match snapshot s, session c (sv_store s), Policy.policy_Get (sv_store s) with
  | Some (v, gws), Some sess, Ok pol =>
      let ls := g ← gws; e ← (map_to_list (default ∅ (links s !! g_ID g))).*2;
                [mkLink (l_From (le_link e)) (l_To (le_link e)) (l_Stats (le_link e))
                        (time_Sub now (le_received e))] in
      mkResp StatusOK (ClientStateBody (mkCState v (cfg_Network cfg) sess gws (merge_sort (le_by link_key) ls) pol))
  | _, _, _ => failed StatusInternalServerError
  end.

Definition migrate (fuel : nat) (c : clientRecord) (req : option MigrateRequest) (s : Server St)
    : Server St * option response :=
  match req with
  | None => (s, Some (failed StatusBadRequest))
  | Some req =>
      match gateways (sv_store s) with
      | None => (s, Some (failed StatusInternalServerError))
      | Some gws =>
          let '(ga, oka) := FindGateway gws (m_Access req) in
          if negb oka || negb (canAccess ga (normBackend (c_Backend c)))
          then (s, Some (failed StatusBadRequest))
          else
            let '(ge, oke) := FindGateway gws (m_Egress req) in
            if negb oke || negb (Has (g_Roles ge) RoleEgress) then (s, Some (failed StatusBadRequest))
            else match session c (sv_store s) with
            | None => (s, Some (failed StatusInternalServerError))
            | Some cur =>
                let conflict (sess : ApiSession) := mkResp StatusConflict (ErrorBody (Some sess)) in
                if negb (m_Epoch req =? s_Epoch cur) then (s, Some (conflict cur))
                else
                  let next := mkOwn (c_ID c) (m_Access req) (m_Egress req) (u64 (s_Epoch cur + 1)) in
                  match SetIfNewer fencer fuel next (sv_store s) with
                  | (st, None) => (set_store s st, None)
                  | (st, Some (_, Some _)) => (set_store s st, Some (failed StatusInternalServerError))
                  | (st, Some (false, None)) =>
                      (set_store s st,
                       Some (match session c st with
                             | Some now => conflict now
                             | None => failed StatusConflict
                             end))
                  | (st, Some (true, None)) =>
                      (bumpLocked (set_store s st),
                       Some (mkResp StatusOK (SessionBody
                         (mkSession (s_ID cur) (s_PublicKey cur) (s_VirtualIP cur) (Access next) (Egress next)
                            (Epoch next) (s_Backend cur) (s_IPsecPSK cur)))))
                  end
            end
      end
  end.
End Server.
