(* ===== verification/ControllerSpec.v ===== *)
(** * What the controller guarantees

    Theorems about Controller: address allocation, the invariant of the
    stored gateways, clients and ownership records over any sequence of
    requests, and each session handler's behaviour. They are proved for every
    store that satisfies the laws of [KVLaws] and [FencedView]. *)

From S2P Require Import Prelude Store Ownership Services Netip GoFloat Cost Api Plan Controller.
Import Membership.

(** ** Address allocation *)

(** A masked IPv4 prefix with base address [b] and [2^k] addresses. *)
Definition subnet (p : Prefix) (b k : Z) : Prop :=
  p = mkPrefix (Addr4 b) (32 - k) ∧ 0 ≤ k ≤ 32 ∧ fits 32 b ∧ b mod 2 ^ k = 0.

(** The addresses of a subnet from its third to its last but one. *)
Definition usable (p : Prefix) (a : Addr) : Prop :=
  ∃ b k v, subnet p b k ∧ a = Addr4 v ∧ b + 2 ≤ v ≤ b + 2 ^ k - 2.

Lemma subnet_Contains p b k v :
  subnet p b k → Contains p (Addr4 v) = true ↔ b ≤ v < b + 2 ^ k.
Proof.
  intros (-> & Hk & Hb & Hm). unfold Contains, pf_IsValid. cbn [pf_Addr pf_Bits addr_IsValid BitLen].
  replace (0 <=? 32 - k) with true by lia. replace (32 - k <=? 32) with true by lia. cbn [andb].
  replace (32 - (32 - k)) with k by lia. rewrite Z.eqb_eq, !Z.shiftr_div_pow2 by lia.
  assert (0 < 2 ^ k) as Hp by (apply Z.pow_pos_nonneg; lia).
  pose proof (Z.div_mod b (2 ^ k) ltac:(lia)). pose proof (Z.div_mod v (2 ^ k) ltac:(lia)).
  pose proof (Z.mod_pos_bound v (2 ^ k) Hp). split; intros; [nia|].
  apply Z.div_unique_pos with (v - b); lia || nia.
Qed.

Lemma subnet_end p b k : subnet p b k → b + 2 ^ k ≤ 2 ^ 32.
Proof.
  intros (_ & Hk & [Hb0 Hb] & Hm).
  assert (0 < 2 ^ k) as Hp by (apply Z.pow_pos_nonneg; lia).
  assert (2 ^ 32 = 2 ^ (32 - k) * 2 ^ k) as He by (rewrite <- Z.pow_add_r by lia; f_equal; lia).
  pose proof (Z.div_mod b (2 ^ k) ltac:(lia)) as Hd. rewrite Hm in Hd.
  assert (b / 2 ^ k < 2 ^ (32 - k)); [|nia]. apply Z.div_lt_upper_bound; lia.
Qed.

Lemma subnet_Contains_Next p b k v :
  subnet p b k → b ≤ v < b + 2 ^ k → Contains p (Next (Addr4 v)) = true ↔ v + 1 < b + 2 ^ k.
Proof.
  intros Hs Hv. pose proof (subnet_end p b k Hs) as He. cbn [Next].
  destruct (Z.eqb_spec v (2 ^ 32 - 1)) as [->|Hne].
  - split; [|lia]. unfold Contains. destruct Hs as (-> & _). cbn. by rewrite andb_false_r.
  - rewrite (subnet_Contains p b k) by done. lia.
Qed.

(** The addresses passed over so far are all used, so there are not more of
    them than used addresses. *)
Lemma passed_used used b i :
  (∀ j, (j < i)%nat → Addr4 (b + Z.of_nat j) ∈ used) → (i ≤ size (used : gset Addr))%nat.
Proof.
  intros H. set (l := (λ j, Addr4 (b + Z.of_nat j)) <$> seq 0 i).
  assert (NoDup l) as Hnd.
  { apply NoDup_fmap; [intros x y [=]; lia|apply NoDup_seq]. }
  rewrite <- (length_seq i 0), <- (length_fmap (λ j, Addr4 (b + Z.of_nat j)) (seq 0 i)). fold l.
  rewrite <- (size_list_to_set (C := gset Addr) l Hnd). apply subseteq_size.
  intros x Hx. apply elem_of_list_to_set, list_elem_of_fmap in Hx as (j & -> & Hj).
  apply elem_of_seq in Hj. apply H. lia.
Qed.

Lemma alloc_loop_spec p b k used fuel i :
  subnet p b k → (size used + 2 ≤ fuel + i)%nat → b + 2 + Z.of_nat i < 2 ^ 32 →
  (∀ j, (j < i)%nat → Addr4 (b + 2 + Z.of_nat j) ∈ used) →
  match alloc_loop fuel p used (Addr4 (b + 2 + Z.of_nat i)) with
  | Some a => ∃ v, a = Addr4 v ∧ (a ∉ used) ∧ b + 2 ≤ v ≤ b + 2 ^ k - 2 ∧
      ∀ w, b + 2 ≤ w < v → Addr4 w ∈ used
  | None => ∀ w, b + 2 ≤ w ≤ b + 2 ^ k - 2 → Addr4 w ∈ used
  end.
Proof.
  intros Hs. revert i. induction fuel as [|fuel IH]; intros i Hf Hlt Hused.
  { pose proof (passed_used used (b + 2) i Hused). lia. }
  pose proof (passed_used used (b + 2) i Hused) as Hi.
  pose proof (subnet_end p b k Hs) as He.
  assert (∀ w, b + 2 ≤ w < b + 2 + Z.of_nat i → Addr4 w ∈ used) as Hbelow.
  { intros w Hw. replace w with (b + 2 + Z.of_nat (Z.to_nat (w - b - 2))) by lia. apply Hused. lia. }
  set (a := Addr4 (b + 2 + Z.of_nat i)). cbn [alloc_loop].
  destruct (Contains p a) eqn:Hc; cbn [negb].
  2:{ intros w Hw. apply Hbelow. assert (¬ b + 2 + Z.of_nat i < b + 2 ^ k); [|lia].
      intros Hx. assert (Contains p a = true) by (apply (subnet_Contains p b k); [done|lia]). congruence. }
  apply (subnet_Contains p b k) in Hc; [|done].
  destruct (Contains p (Next a)) eqn:Hn.
  - apply (subnet_Contains_Next p b k) in Hn; [|done..].
    case_bool_decide as Hu; cbn [andb].
    + exists (b + 2 + Z.of_nat i). split_and!; try done; try lia. 
    + subst a. cbn [Next].
      destruct (Z.eqb_spec (b + 2 + Z.of_nat i) (2 ^ 32 - 1)); [lia|].
      replace (b + 2 + Z.of_nat i + 1) with (b + 2 + Z.of_nat (S i)) by lia.
      apply IH; [lia|lia|]. intros j Hj. destruct (decide (j = i)) as [->|]; [done|apply Hused; lia].
  - assert (¬ b + 2 + Z.of_nat i + 1 < b + 2 ^ k) as Hlast.
    { intros Hx. apply (subnet_Contains_Next p b k) in Hx; [|done..]. unfold a in Hn. congruence. }
    rewrite andb_false_r. destruct fuel as [|fuel]; [lia|]. cbn [alloc_loop]. rewrite Hn. cbn [negb].
    intros w Hw. apply Hbelow. lia.
Qed.

Lemma allocate_spec p b k used :
  subnet p b k →
  match allocate p used with
  | Some a => usable p a ∧ (a ∉ used) ∧ ∀ v w, a = Addr4 v → b + 2 ≤ w < v → Addr4 w ∈ used
  | None => ∀ a, usable p a → a ∈ used
  end.
Proof.
  intros Hs. pose proof Hs as (Hp & Hk & Hb & _). pose proof (subnet_end p b k Hs) as He.
  assert (∀ b' k', subnet p b' k' → b' = b ∧ k' = k) as Huniq.
  { intros b' k' (Hp' & _). rewrite Hp in Hp'. injection Hp'. lia. }
  unfold fits in Hb. unfold allocate. replace (pf_Addr p) with (Addr4 b) by (by rewrite Hp).
  destruct (decide (b + 2 < 2 ^ 32)) as [Hlt|Hge].
  - assert (Next (Next (Addr4 b)) = Addr4 (b + 2 + Z.of_nat 0)) as ->.
    { cbn [Next]. destruct (Z.eqb_spec b (2 ^ 32 - 1)); [lia|]. cbn [Next].
      destruct (Z.eqb_spec (b + 1) (2 ^ 32 - 1)); [lia|]. f_equal. lia. }
    pose proof (alloc_loop_spec p b k used (size used + 2) 0 Hs ltac:(lia) ltac:(lia) ltac:(lia)) as H.
    destruct (alloc_loop _ _ _ _) as [a|].
    + destruct H as (v & -> & Hu & Hr & Hlow). split_and!; [by exists b, k, v|done|].
      intros v' w [= <-] Hw. by apply Hlow.
    + intros a (b' & k' & v & Hs' & -> & Hr). destruct (Huniq _ _ Hs') as [-> ->]. by apply H.
  - assert (Next (Next (Addr4 b)) = AddrInvalid) as ->.
    { cbn [Next]. destruct (Z.eqb_spec b (2 ^ 32 - 1)); [done|]. cbn [Next].
      destruct (Z.eqb_spec (b + 1) (2 ^ 32 - 1)); [done|lia]. }
    replace (size used + 2)%nat with (S (S (size used))) by lia. cbn [alloc_loop].
    assert (Contains p AddrInvalid = false) as ->.
    { rewrite Hp. unfold Contains. cbn. by rewrite andb_false_r. }
    simpl. intros a (b' & k' & v & Hs' & -> & Hr). destruct (Huniq _ _ Hs') as [-> ->]. lia.
Qed.

(** ** Writing ownership records, seen as a map *)

Section Laws.
Context `{!NetParse, !Codec Gateway, !Codec clientRecord, !Codec OwnershipRecord, !Codec Policy.PolicyDocument}.
Context `{!CodecLaws Gateway, !CodecLaws clientRecord, !CodecLaws OwnershipRecord}.
Context {St : Type} `{!KVStore St, !KVLaws St, !Fencer St, !FencedView St}.
Context (hashSecret : string → string) (hmacPSK : bytes → string → string) (cfg : SConfig).
(** The strings of this program are valid UTF-8: they come from JSON bodies,
    from path segments matched by [gatewayIDRE], or are digits. *)
Context (gateways_encode : ∀ g : Gateway, codec_ok g) (clients_encode : ∀ c : clientRecord, codec_ok c)
        (owners_encode : ∀ r : OwnershipRecord, codec_ok r).

(** Ownership records as the store's map has them. *)
Definition owner_at (d : gmap string bytes) (id : string) : option OwnershipRecord :=
  match d !! SessionKey id with
  | Some v => match UnmarshalOwnership v with Ok r => Some r | Err _ => None end
  | None => None
  end.

Definition owners_ok (d : gmap string bytes) : Prop :=
  ∀ id v, d !! SessionKey id = Some v → ∃ r, UnmarshalOwnership v = Ok r ∧ Session r = id.

Lemma own_Get_data id st :
  kvl_inv st → owners_ok (kvl_data st) → own_Get id st = Ok (owner_at (kvl_data st) id).
Proof.
  intros Hinv Hok. unfold own_Get, owner_at. rewrite law_Get by done.
  destruct (kvl_data st !! SessionKey id) as [v|] eqn:E; [|done].
  destruct (Hok _ _ E) as (r & -> & _). done.
Qed.

(** [SetIfNewer] run alone: the map gains the record, or nothing changes. *)
Lemma SetIfNewer_data fuel rec st :
  Ownership.Validate rec = None → kvl_inv st → 0 < kvl_left st → owners_ok (kvl_data st) → (3 ≤ fuel)%nat →
  let wins := match owner_at (kvl_data st) (Session rec) with Some cur => Newer rec cur | None => true end in
  ∃ st', SetIfNewer (Some _) fuel rec st = (st', Some (wins, None)) ∧ kvl_inv st' ∧
    (wins = false → st' = st) ∧
    (wins = true → kvl_left st' = kvl_left st - 1 ∧
       ∃ b, UnmarshalOwnership b = Ok rec ∧
         kvl_data st' = <[SessionKey (Session rec) := b]> (kvl_data st)).
Proof.
  intros Hv Hinv Hleft Hok Hfuel wins. destruct fuel as [|[|[|fuel]]]; try lia. clear Hfuel.
  destruct (ownership_codec rec Hv (owners_encode rec)) as (b & Hb & Hub).
  set (key := SessionKey (Session rec)).
  destruct (law_CAS st key b Hinv Hleft) as (st' & r & Hcas & Hinv' & Hl & Hd).
  pose proof (law_Revision st key Hinv) as Hrev.
  unfold SetIfNewer. rewrite Hv. unfold wins, owner_at. fold key.
  destruct (kvl_data st !! key) as [v|] eqn:E.
  - destruct Hrev as (rv & HR & Hrv). destruct (Hok _ _ E) as (cur & Hcur & _).
    cbn. fold key. rewrite HR. cbn. fold key. rewrite (law_Get st key Hinv), E. cbn. rewrite Hcur.
    rewrite HR in Hcas. destruct (Newer rec cur) eqn:HN; cbn.
    + exists st'. rewrite Hb. fold key. rewrite Hcas. destruct fuel; split_and!; try done;
        intros _; (split; [done|]); by exists b.
    + exists st. by split_and!.
  - rewrite Hrev in Hcas. exists st'. cbn. fold key. rewrite Hrev. cbn. rewrite Hb. fold key.
    rewrite Hcas. destruct fuel; split_and!; try done; intros _; (split; [done|]); by exists b.
Qed.

(** ** The invariant of the stored data *)

Definition gw_at (d : gmap string bytes) (g : Gateway) : Prop :=
  ∃ v, d !! (gatewayKeyPrefix +:+ g_ID g)%string = Some v ∧ unmarshal v = Some g.
Definition cl_at (d : gmap string bytes) (c : clientRecord) : Prop :=
  ∃ v, d !! (clientKeyPrefix +:+ c_ID c)%string = Some v ∧ unmarshal v = Some c.

Record data_ok (d : gmap string bytes) : Prop := {
  (** every value under a prefix is a record stored under its own key *)
  dk_gw : ∀ k v, d !! k = Some v → HasPrefix k gatewayKeyPrefix = true →
    ∃ g, unmarshal v = Some g ∧ k = (gatewayKeyPrefix +:+ g_ID g)%string;
  dk_cl : ∀ k v, d !! k = Some v → HasPrefix k clientKeyPrefix = true →
    ∃ c, unmarshal v = Some c ∧ k = (clientKeyPrefix +:+ c_ID c)%string;
  dk_own : owners_ok d;
  (** addresses are usable ones of their subnet, and nobody else's *)
  dk_node : ∀ g, gw_at d g → usable (NodeSubnet (cfg_Network cfg)) (g_NodeIP g);
  dk_node_uniq : ∀ g g', gw_at d g → gw_at d g' → g_NodeIP g = g_NodeIP g' → g_ID g = g_ID g';
  dk_vip : ∀ c, cl_at d c → usable (ClientSubnet (cfg_Network cfg)) (c_VirtualIP c);
  dk_vip_uniq : ∀ c c', cl_at d c → cl_at d c' →
    c_VirtualIP c = c_VirtualIP c' ∨ c_PublicKey c = c_PublicKey c' → c_ID c = c_ID c';
  (** every client has an owner *)
  dk_owned : ∀ c, cl_at d c → is_Some (owner_at d (c_ID c));
}.

Lemma key_inj (p a b : string) : (p +:+ a = p +:+ b)%string → a = b.
Proof. induction p as [|x p IH]; simpl; [done|]. intros [=]. by apply IH. Qed.

(** The keys of the three kinds of record are apart. *)
Lemma HasPrefix_apart id :
  HasPrefix (SessionKey id) gatewayKeyPrefix = false ∧ HasPrefix (SessionKey id) clientKeyPrefix = false ∧
  HasPrefix (gatewayKeyPrefix +:+ id) clientKeyPrefix = false ∧
  HasPrefix (clientKeyPrefix +:+ id) gatewayKeyPrefix = false.
Proof. done. Qed.

Lemma keys_apart a b :
  SessionKey a ≠ (gatewayKeyPrefix +:+ b)%string ∧ SessionKey a ≠ (clientKeyPrefix +:+ b)%string ∧
  (gatewayKeyPrefix +:+ a ≠ clientKeyPrefix +:+ b)%string.
Proof. done. Qed.

Lemma decode_all_ok {A} `{!Codec A} (key : A → string) (raw : gmap string bytes) :
  (∀ k v, raw !! k = Some v → ∃ x : A, unmarshal v = Some x ∧ k = key x) →
  ∃ xs, decode_all (A := A) raw = Some xs ∧ NoDup (key <$> xs) ∧
    ∀ x, x ∈ xs ↔ ∃ k v, raw !! k = Some v ∧ unmarshal v = Some x.
Proof.
  intros Hraw. unfold decode_all.
  destruct (mapM (unmarshal (A := A)) (map_to_list raw).*2) as [xs|] eqn:E.
  - exists xs. split; [done|]. apply mapM_Some_1 in E. split.
    { pose proof (proj1 (Forall2_fmap_l _ _ _ _) E) as E'.
      assert (Forall2 (λ kv x, kv ∈ map_to_list raw ∧ unmarshal kv.2 = Some x) (map_to_list raw) xs) as E2.
      { apply Forall2_same_length_lookup. split; [by eapply Forall2_length|].
        intros i kv x Hkv Hx. split; [by eapply list_elem_of_lookup_2|].
        by apply (Forall2_lookup_lr _ _ _ _ _ _ E' Hkv Hx). }
      rewrite <- (Forall2_fmap_eq _ fst key _ _ E2); [apply NoDup_fst_map_to_list|].
      intros [k v] x [Hin Hu]. apply elem_of_map_to_list in Hin. simpl in *.
      destruct (Hraw _ _ Hin) as (x' & Hx' & ->). congruence. }
    intros x. split.
    + intros Hx. destruct (Forall2_elem_r _ _ _ _ E Hx) as (v & Hv & Hu).
      apply list_elem_of_fmap in Hv as ([k v'] & -> & Hin). exists k, v'.
      by apply elem_of_map_to_list in Hin.
    + intros (k & v & Hk & Hu).
      destruct (Forall2_elem_l _ _ _ v E) as (y & Hy & Huy).
      { apply list_elem_of_fmap. exists (k, v). split; [done|]. by apply elem_of_map_to_list. }
      simpl in *. congruence.
  - exfalso. apply mapM_None in E as (v & Hv & Hn)%Exists_exists.
    apply list_elem_of_fmap in Hv as ([k v'] & -> & Hin). apply elem_of_map_to_list in Hin.
    destruct (Hraw _ _ Hin) as (x & Hx & _). simpl in *. congruence.
Qed.

Lemma gateways_ok st :
  kvl_inv st → data_ok (kvl_data st) →
  ∃ gws, gateways st = Some gws ∧ NoDup (g_ID <$> gws) ∧ ∀ g, g ∈ gws ↔ gw_at (kvl_data st) g.
Proof.
  intros Hinv Hd. unfold gateways. rewrite law_List by done.
  destruct (decode_all_ok (λ x : Gateway, gatewayKeyPrefix +:+ g_ID x)%string (filter (λ kv, HasPrefix kv.1 gatewayKeyPrefix = true) (kvl_data st)))
    as (xs & -> & Hnd & Hx).
  { intros k v [Hk Hp]%map_lookup_filter_Some. by apply (dk_gw _ Hd k v). }
  eexists. split; [done|]. split.
  { rewrite merge_sort_Permutation. apply (NoDup_by _ g_ID) in Hnd; [done|]. by intros x y _ _ ->. }
  intros g. rewrite merge_sort_Permutation, Hx. split.
  - intros (k & v & [Hk Hp]%map_lookup_filter_Some & Hu).
    destruct (dk_gw _ Hd k v Hk Hp) as (g' & Hg' & ->). assert (g' = g) as -> by congruence. by exists v.
  - intros (v & Hk & Hu). eexists _, v. split; [|done]. apply map_lookup_filter_Some.
    split; [done|]. apply HasPrefix_app.
Qed.

Lemma clients_ok st :
  kvl_inv st → data_ok (kvl_data st) →
  ∃ cs, clients st = Some cs ∧ NoDup (c_ID <$> cs) ∧ ∀ c, c ∈ cs ↔ cl_at (kvl_data st) c.
Proof.
  intros Hinv Hd. unfold clients. rewrite law_List by done.
  destruct (decode_all_ok (λ x : clientRecord, clientKeyPrefix +:+ c_ID x)%string (filter (λ kv, HasPrefix kv.1 clientKeyPrefix = true) (kvl_data st)))
    as (xs & -> & Hnd & Hx).
  { intros k v [Hk Hp]%map_lookup_filter_Some. by apply (dk_cl _ Hd k v). }
  eexists. split; [done|]. split.
  { rewrite merge_sort_Permutation. apply (NoDup_by _ c_ID) in Hnd; [done|]. by intros x y _ _ ->. }
  intros c. rewrite merge_sort_Permutation, Hx. split.
  - intros (k & v & [Hk Hp]%map_lookup_filter_Some & Hu).
    destruct (dk_cl _ Hd k v Hk Hp) as (c' & Hc' & ->). assert (c' = c) as -> by congruence. by exists v.
  - intros (v & Hk & Hu). eexists _, v. split; [|done]. apply map_lookup_filter_Some.
    split; [done|]. apply HasPrefix_app.
Qed.

(** ** Each kind of write preserves the invariant *)

Lemma gw_at_fun d g g' : gw_at d g → gw_at d g' → g_ID g = g_ID g' → g = g'.
Proof. intros (v & Hv & Hu) (v' & Hv' & Hu') E. rewrite E in Hv. congruence. Qed.

Lemma cl_at_fun d c c' : cl_at d c → cl_at d c' → c_ID c = c_ID c' → c = c'.
Proof. intros (v & Hv & Hu) (v' & Hv' & Hu') E. rewrite E in Hv. congruence. Qed.

Lemma gw_at_insert d g b x :
  unmarshal b = Some g →
  gw_at (<[(gatewayKeyPrefix +:+ g_ID g)%string := b]> d) x ↔ x = g ∨ (gw_at d x ∧ g_ID x ≠ g_ID g).
Proof.
  intros Hb. unfold gw_at. destruct (decide (g_ID x = g_ID g)) as [E|E].
  - rewrite E, lookup_insert_eq. split.
    + intros (v & [= <-] & Hv). left. congruence.
    + intros [->|[_ ?]]; [eauto|done].
  - rewrite lookup_insert_ne by (intros ?%key_inj; done). split; [by right|].
    intros [->|[? _]]; [done|done].
Qed.

Lemma cl_at_insert d c b x :
  unmarshal b = Some c →
  cl_at (<[(clientKeyPrefix +:+ c_ID c)%string := b]> d) x ↔ x = c ∨ (cl_at d x ∧ c_ID x ≠ c_ID c).
Proof.
  intros Hb. unfold cl_at. destruct (decide (c_ID x = c_ID c)) as [E|E].
  - rewrite E, lookup_insert_eq. split.
    + intros (v & [= <-] & Hv). left. congruence.
    + intros [->|[_ ?]]; [eauto|done].
  - rewrite lookup_insert_ne by (intros ?%key_inj; done). split; [by right|].
    intros [->|[? _]]; [done|done].
Qed.

(** A write under one prefix is invisible under the others. *)
Lemma gw_at_other d k b x : HasPrefix k gatewayKeyPrefix = false → gw_at (<[k := b]> d) x ↔ gw_at d x.
Proof.
  intros Hk. unfold gw_at. rewrite lookup_insert_ne; [done|].
  intros ->. by rewrite HasPrefix_app in Hk.
Qed.
Lemma cl_at_other d k b x : HasPrefix k clientKeyPrefix = false → cl_at (<[k := b]> d) x ↔ cl_at d x.
Proof.
  intros Hk. unfold cl_at. rewrite lookup_insert_ne; [done|].
  intros ->. by rewrite HasPrefix_app in Hk.
Qed.
Lemma owner_at_other d k b id : HasPrefix k sessionKeyPrefix = false → owner_at (<[k := b]> d) id = owner_at d id.
Proof.
  intros Hk. unfold owner_at. rewrite lookup_insert_ne; [done|].
  intros ->. unfold SessionKey in Hk. by rewrite HasPrefix_app in Hk.
Qed.
Lemma owners_ok_other d k b : HasPrefix k sessionKeyPrefix = false → owners_ok d → owners_ok (<[k := b]> d).
Proof.
  intros Hk Ho id v. rewrite lookup_insert_ne; [apply Ho|].
  intros ->. unfold SessionKey in Hk. by rewrite HasPrefix_app in Hk.
Qed.

Lemma data_ok_put_gateway d g b :
  data_ok d → unmarshal b = Some g → usable (NodeSubnet (cfg_Network cfg)) (g_NodeIP g) →
  (∀ x, gw_at d x → g_ID x ≠ g_ID g → g_NodeIP x ≠ g_NodeIP g) →
  data_ok (<[(gatewayKeyPrefix +:+ g_ID g)%string := b]> d).
Proof.
  intros [Hgw Hcl Hown Hn Hnu Hv Hvu Ho] Hb Huse Hfresh. split.
  - intros k v [[<- <-]|[_ Hk]]%lookup_insert_Some; [eauto|by apply Hgw].
  - intros k v [[<- _]|[_ Hk]]%lookup_insert_Some; [done|by apply Hcl].
  - by apply owners_ok_other.
  - intros x [->|[Hx _]]%gw_at_insert; [done|by apply Hn|done].
  - intros x y Hx Hy E. rewrite gw_at_insert in Hx, Hy by done.
    destruct Hx as [->|[Hx Hxi]], Hy as [->|[Hy Hyi]]; try done.
    + by destruct (Hfresh y Hy Hyi).
    + by destruct (Hfresh x Hx Hxi).
    + by apply Hnu.
  - intros c Hc. rewrite cl_at_other in Hc by done. by apply Hv.
  - intros c c' Hc Hc'. rewrite cl_at_other in Hc, Hc' by done. by apply Hvu.
  - intros c Hc. rewrite cl_at_other in Hc by done. rewrite owner_at_other by done. by apply Ho.
Qed.

Lemma data_ok_put_client d c b :
  data_ok d → unmarshal b = Some c → usable (ClientSubnet (cfg_Network cfg)) (c_VirtualIP c) →
  (∀ x, cl_at d x → c_ID x ≠ c_ID c → c_VirtualIP x ≠ c_VirtualIP c ∧ c_PublicKey x ≠ c_PublicKey c) →
  is_Some (owner_at d (c_ID c)) →
  data_ok (<[(clientKeyPrefix +:+ c_ID c)%string := b]> d).
Proof.
  intros [Hgw Hcl Hown Hn Hnu Hv Hvu Ho] Hb Huse Hfresh Howned. split.
  - intros k v [[<- _]|[_ Hk]]%lookup_insert_Some; [done|by apply Hgw].
  - intros k v [[<- <-]|[_ Hk]]%lookup_insert_Some; [eauto|by apply Hcl].
  - by apply owners_ok_other.
  - intros g Hg. rewrite gw_at_other in Hg by done. by apply Hn.
  - intros g g' Hg Hg'. rewrite gw_at_other in Hg, Hg' by done. by apply Hnu.
  - intros x [->|[Hx _]]%cl_at_insert; [done|by apply Hv|done].
  - intros x y Hx Hy E. rewrite cl_at_insert in Hx, Hy by done.
    destruct Hx as [->|[Hx Hxi]], Hy as [->|[Hy Hyi]]; try done.
    + destruct (Hfresh y Hy Hyi) as [? ?]. destruct E as [E|E]; congruence.
    + destruct (Hfresh x Hx Hxi) as [? ?]. by destruct E.
    + by apply Hvu.
  - intros x Hx. rewrite owner_at_other by done.
    apply cl_at_insert in Hx as [->|[Hx _]]; [done|by apply Ho|done].
Qed.

Lemma owner_at_insert d r b id :
  UnmarshalOwnership b = Ok r →
  owner_at (<[SessionKey (Session r) := b]> d) id = if decide (id = Session r) then Some r else owner_at d id.
Proof.
  intros Hb. unfold owner_at. case_decide as E.
  - rewrite E, lookup_insert_eq. by rewrite Hb.
  - rewrite lookup_insert_ne; [done|]. intros ?%SessionKey_inj. congruence.
Qed.

Lemma data_ok_put_owner d r b :
  data_ok d → UnmarshalOwnership b = Ok r → data_ok (<[SessionKey (Session r) := b]> d).
Proof.
  intros [Hgw Hcl Hown Hn Hnu Hv Hvu Ho] Hb. split.
  - intros k v [[<- _]|[_ Hk]]%lookup_insert_Some; [done|by apply Hgw].
  - intros k v [[<- _]|[_ Hk]]%lookup_insert_Some; [done|by apply Hcl].
  - intros id v [[E <-]|[_ Hk]]%lookup_insert_Some; [|by apply Hown].
    apply SessionKey_inj in E. eauto.
  - intros g Hg. rewrite gw_at_other in Hg by done. by apply Hn.
  - intros g g' Hg Hg'. rewrite gw_at_other in Hg, Hg' by done. by apply Hnu.
  - intros c Hc. rewrite cl_at_other in Hc by done. by apply Hv.
  - intros c c' Hc Hc'. rewrite cl_at_other in Hc, Hc' by done. by apply Hvu.
  - intros c Hc. rewrite cl_at_other in Hc by done. rewrite (owner_at_insert d r b) by done.
    case_decide; [done|by apply Ho].
Qed.

Lemma put_data {A} `{!Codec A, !CodecLaws A} key (v : A) st :
  codec_ok v → kvl_inv st → 0 < kvl_left st →
  ∃ st' b, put key v st = (st', true) ∧ unmarshal b = Some v ∧ kvl_inv st' ∧
    kvl_left st' = kvl_left st - 1 ∧ kvl_data st' = <[key := b]> (kvl_data st).
Proof.
  intros Hok Hinv Hl. destruct (marshal_Some v Hok) as (b & Hm & Hu).
  destruct (law_Put st key b Hinv Hl) as (st' & Hp & Hinv' & Hl' & Hd).
  exists st', b. unfold put. by rewrite Hm, Hp.
Qed.

(** ** Sessions, as the handlers read them *)

Definition api_session (c : clientRecord) (own : OwnershipRecord) : ApiSession :=
  if bool_decide (c_Backend c = BackendIPsec)
  then mkSession (c_ID c) (c_PublicKey c) (c_VirtualIP c) (Access own) (Egress own) (Epoch own)
         BackendIPsec (hmacPSK (IPsecKey cfg) (c_ID c))
  else mkSession (c_ID c) (c_PublicKey c) (c_VirtualIP c) (Access own) (Egress own) (Epoch own)
         BackendWireGuard "".

Lemma session_data c st :
  kvl_inv st → owners_ok (kvl_data st) →
  session hmacPSK cfg c st = api_session c <$> owner_at (kvl_data st) (c_ID c).
Proof.
  intros Hinv Ho. unfold session. rewrite (own_Get_data _ _ Hinv Ho).
  by destruct (owner_at (kvl_data st) (c_ID c)).
Qed.

Lemma api_session_path c own :
  s_ID (api_session c own) = c_ID c ∧ s_VirtualIP (api_session c own) = c_VirtualIP c ∧
  s_PublicKey (api_session c own) = c_PublicKey c ∧
  s_Access (api_session c own) = Access own ∧ s_Egress (api_session c own) = Egress own ∧
  s_Epoch (api_session c own) = Epoch own.
Proof. unfold api_session. by case_bool_decide. Qed.

(** ** Every request preserves the invariant *)

(** The store is consistent. *)
Definition store_ok (st : St) : Prop := kvl_inv st ∧ data_ok (kvl_data st).

(** [SetIfNewer] on any record: it answers, keeps the invariant, touches only
    the record's key, and without an error the session has an owner after it. *)
Lemma SetIfNewer_store fuel rec st :
  store_ok st → 0 < kvl_left st → (3 ≤ fuel)%nat →
  ∃ st' applied err, SetIfNewer (Some _) fuel rec st = (st', Some (applied, err)) ∧ store_ok st' ∧
    kvl_left st - 1 ≤ kvl_left st' ∧
    (∀ x, gw_at (kvl_data st') x ↔ gw_at (kvl_data st) x) ∧
    (∀ x, cl_at (kvl_data st') x ↔ cl_at (kvl_data st) x) ∧
    (err = None → is_Some (owner_at (kvl_data st') (Session rec))) ∧
    (applied = true → owner_at (kvl_data st') (Session rec) = Some rec) ∧
    (applied = false ∨ err ≠ None → st' = st).
Proof.
  intros [Hinv Hd] Hl Hf. destruct (Ownership.Validate rec) as [e|] eqn:Hv.
  - exists st, false, (Some e). unfold SetIfNewer. rewrite Hv. split_and!; try done. lia.
  - destruct (SetIfNewer_data fuel rec st Hv Hinv Hl (dk_own _ Hd) Hf) as (st' & -> & Hinv' & Hlose & Hwin).
    set (wins := match owner_at (kvl_data st) (Session rec) with Some cur => Newer rec cur | None => true end) in *.
    exists st', wins, None. destruct wins eqn:Ew.
    + destruct (Hwin eq_refl) as (Hl' & b & Hb & Hd'). rewrite Hd'.
      split_and!; try done; try lia; [..|by intros [?|?]].
      * split; [done|]. rewrite Hd'. by apply data_ok_put_owner.
      * intros x. by apply gw_at_other.
      * intros x. by apply cl_at_other.
      * intros _. rewrite (owner_at_insert _ rec b) by done. by rewrite decide_True.
      * intros _. rewrite (owner_at_insert _ rec b) by done. by rewrite decide_True.
    + rewrite (Hlose eq_refl). split_and!; try done; [lia|].
      intros _. unfold wins in Ew. destruct (owner_at (kvl_data st) (Session rec)); [eauto|done].
Qed.

Inductive request :=
| ReqRegister (token id : string) (req : option RegisterGatewayRequest) (now : Time)
| ReqLinks (token id : string) (rep : option (list Link)) (now : Time)
| ReqCreate (token : string) (req : option CreateSessionRequest) (rnd : list bytes * option string)
| ReqMigrate (id secret : string) (req : option MigrateRequest)
| ReqSweep (now : Time).

(** One request, with the authorization its route asks for. *)
Definition serve (fuel : nat) (s : Server St) (r : request) : Server St * option response :=
  match r with
  | ReqRegister token id req now =>
      if negb (tokenOK (GatewayToken cfg) token) then (s, Some (failed StatusUnauthorized))
      else let '(s, resp) := registerGateway cfg id req now s in (s, Some resp)
  | ReqLinks token id rep now =>
      if negb (tokenOK (GatewayToken cfg) token) then (s, Some (failed StatusUnauthorized))
      else let '(s, resp) := reportLinks id rep now s in (s, Some resp)
  | ReqCreate token req rnd => createSession (Some _) hashSecret hmacPSK cfg fuel token req rnd s
  | ReqMigrate id secret req =>
      match sessionAuth hashSecret id secret s with
      | Err resp => (s, Some resp)
      | Ok c => migrate (Some _) hmacPSK cfg fuel c req s
      end
  | ReqSweep now => (sweep cfg now s, None)
  end.

(** [bumpLocked] and [seenLocked] do not touch the store. *)
Lemma seenLocked_store id now (s : Server St) : sv_store (seenLocked id now s) = sv_store s.
Proof. unfold seenLocked. simpl. by destruct (negb _). Qed.

Lemma sweep_store now (s : Server St) : sv_store (sweep cfg now s) = sv_store s.
Proof.
  unfold sweep. generalize (map_to_list (alive s)). intros l. revert s.
  induction l as [|x l IH]; intros s; simpl; [done|]. rewrite IH. unfold sweep_one. by destruct (_ && _).
Qed.

(** What a request may do to the store: keep it consistent, at the cost of at
    most two writes. *)
Definition keeps (st st' : St) : Prop := store_ok st' ∧ kvl_left st - 2 ≤ kvl_left st'.

Lemma keeps_refl st : store_ok st → keeps st st.
Proof. split; [done|lia]. Qed.

(** The two subnets are disjoint IPv4 prefixes, masked, as [New] makes sure. *)
Context (client_b client_k node_b node_k : Z).
Context (Hclient : subnet (ClientSubnet (cfg_Network cfg)) client_b client_k).
Context (Hnode : subnet (NodeSubnet (cfg_Network cfg)) node_b node_k).

Lemma registerGateway_keeps id req now s :
  store_ok (sv_store s) → 2 ≤ kvl_left (sv_store s) →
  keeps (sv_store s) (sv_store (registerGateway cfg id req now s).1).
Proof.
  intros Hok Hl. pose proof (keeps_refl _ Hok) as Hrefl. pose proof Hok as [Hinv Hd].
  unfold registerGateway. destruct (negb (gatewayIDRE id)); [done|]. destruct req as [req|]; [|done].
  destruct (ParseAddrPort _); [|done]. destruct (negb (parsePublicKey _)); [done|].
  destruct (_ && _); [done|].
  destruct (gateways_ok (sv_store s) Hinv Hd) as (gws & -> & _ & Hin).
  destruct (FindGateway gws id) as [g existed] eqn:Hfind.
  set (nodeIP := if negb existed then _ else _).
  assert (∀ ip, nodeIP = Some ip → usable (NodeSubnet (cfg_Network cfg)) ip ∧
    ∀ x, gw_at (kvl_data (sv_store s)) x → g_ID x ≠ id → g_NodeIP x ≠ ip) as Hip.
  { intros ip Hip. unfold nodeIP in Hip. destruct existed; simpl in Hip.
    - injection Hip as <-. apply FindGateway_true in Hfind as [Hg <-]. apply Hin in Hg.
      split; [by apply (dk_node _ Hd)|]. intros x Hx Hne E. by apply Hne, (dk_node_uniq _ Hd).
    - pose proof (allocate_spec _ _ _ (list_to_set (g_NodeIP <$> gws)) Hnode) as Ha.
      rewrite Hip in Ha. destruct Ha as (Hu & Hni & _). split; [done|].
      intros x Hx _ E. apply Hni, elem_of_list_to_set. rewrite <- E.
      apply list_elem_of_fmap_2. by apply Hin. }
  destruct nodeIP as [ip|]; [|done]. destruct (Hip ip eq_refl) as [Huse Hfresh].
  set (next := mkGateway id _ _ _ _ _ _ _).
  destruct (negb existed || _); [|cbn [fst]; by rewrite seenLocked_store].
  destruct (put_data (gatewayKeyPrefix +:+ id) next (sv_store s) (gateways_encode _) Hinv ltac:(lia))
    as (st' & b & -> & Hb & Hinv' & Hl' & Hd').
  simpl. rewrite seenLocked_store. simpl. split; [|lia]. split; [done|].
  rewrite Hd'. by apply (data_ok_put_gateway _ next b).
Qed.

Lemma switchBackendLocked_keeps fuel c backend s :
  store_ok (sv_store s) → 2 ≤ kvl_left (sv_store s) → (3 ≤ fuel)%nat →
  cl_at (kvl_data (sv_store s)) c →
  let '(s', r) := switchBackendLocked (Some _) hmacPSK cfg fuel c backend s in
  keeps (sv_store s) (sv_store s') ∧ is_Some r.
Proof.
  intros Hok Hl Hf Hc. pose proof (keeps_refl _ Hok) as Hrefl. pose proof Hok as [Hinv Hd].
  unfold switchBackendLocked.
  destruct (session hmacPSK cfg c (sv_store s)) as [cur|]; [|by split; [|eauto]].
  destruct (gateways (sv_store s)) as [gws|]; [|by split; [|eauto]].
  set (moved := if negb _ then _ else _).
  assert (∃ s1 r, moved = (s1, Some r) ∧ store_ok (sv_store s1) ∧
    kvl_left (sv_store s) - 1 ≤ kvl_left (sv_store s1) ∧ cl_at (kvl_data (sv_store s1)) c) as (s1 & r & -> & Hok1 & Hl1 & Hc1).
  { unfold moved. destruct (negb _); [|eexists _, _; split_and!; [done|done|lia|done]].
    destruct (pickPath _ _ _ _) as [[access eg]|]; [|eexists _, _; split_and!; [done|done|lia|done]].
    destruct (SetIfNewer_store fuel (mkOwn (c_ID c) access (s_Egress cur) (u64 (s_Epoch cur + 1)))
                (sv_store s) Hok ltac:(lia) Hf) as (st' & ap & err & -> & Hok' & Hl' & _ & Hcl & _).
    destruct err; eexists _, _; (split_and!; [done|done|done|]); simpl; by apply Hcl. }
  destruct r.
  2:{ split; [|eauto]. split; [done|lia]. }
  destruct Hok1 as [Hinv1 Hd1].
  set (c' := mkClient (c_ID c) (c_PublicKey c) (c_VirtualIP c) (c_SecretHash c) backend).
  destruct (put_data (clientKeyPrefix +:+ c_ID c') c' (sv_store s1) (clients_encode _) Hinv1 ltac:(lia))
    as (st' & b & -> & Hb & Hinv' & Hl' & Hd').
  simpl. split; [|eauto]. split; [|simpl; lia]. split; [done|]. simpl. rewrite Hd'.
  apply (data_ok_put_client _ c' b); try done.
  - by apply (dk_vip _ Hd1 c).
  - intros x Hx Hne. split; intros E; apply Hne; apply (dk_vip_uniq _ Hd1 x c Hx Hc1); [by left|by right].
  - by apply (dk_owned _ Hd1 c).
Qed.

Lemma openSession_keeps fuel req backend cs rnd s :
  store_ok (sv_store s) → 2 ≤ kvl_left (sv_store s) → (3 ≤ fuel)%nat →
  (∀ c, c ∈ cs ↔ cl_at (kvl_data (sv_store s)) c) →
  (∀ c, c ∈ cs → c_PublicKey c ≠ cr_PublicKey req) →
  let '(s', r) := openSession (Some _) hashSecret hmacPSK cfg fuel req backend cs rnd s in
  keeps (sv_store s) (sv_store s') ∧ is_Some r.
Proof.
  intros Hok Hl Hf Hcs Hnew. pose proof (keeps_refl _ Hok) as Hrefl. pose proof Hok as [Hinv Hd].
  unfold openSession. destruct (gateways (sv_store s)) as [gws|]; [|by split; [|eauto]].
  destruct (pickPath _ _ _ _) as [[access eg]|]; [|by split; [|eauto]].
  pose proof (allocate_spec _ _ _ (list_to_set (c_VirtualIP <$> cs)) Hclient) as Ha.
  destruct (allocate _ _) as [vip|]; [|by split; [|eauto]]. destruct Ha as (Huse & Hni & _).
  destruct (randomSessionID rnd.1) as [id|]; [|by split; [|eauto]].
  destruct rnd.2 as [secret|]; [|by split; [|eauto]].
  destruct (SetIfNewer_store fuel (mkOwn id access eg 1) (sv_store s) Hok ltac:(lia) Hf)
    as (st1 & ap & err & -> & [Hinv1 Hd1] & Hl1 & _ & Hcl & Hown & _).
  destruct err as [e|].
  { simpl. split; [|eauto]. split; [by split|simpl; lia]. }
  set (rec := mkClient id _ _ _ _).
  destruct (put_data (clientKeyPrefix +:+ id) rec st1 (clients_encode _) Hinv1 ltac:(lia))
    as (st2 & b & -> & Hb & Hinv2 & Hl2 & Hd2).
  assert (keeps (sv_store s) st2) as Hk.
  { split; [|lia]. split; [done|]. rewrite Hd2. apply (data_ok_put_client _ rec b); try done.
    - intros x Hx _. apply Hcl, Hcs in Hx. split; [|by apply Hnew].
      intros E. apply Hni, elem_of_list_to_set. simpl in E. rewrite <- E. by apply list_elem_of_fmap_2.
    - by apply Hown. }
  destruct (session hmacPSK cfg rec st2); simpl; (split; [done|eauto]).
Qed.

Lemma createSession_keeps fuel token req rnd s :
  store_ok (sv_store s) → 2 ≤ kvl_left (sv_store s) → (3 ≤ fuel)%nat →
  let '(s', r) := createSession (Some _) hashSecret hmacPSK cfg fuel token req rnd s in
  keeps (sv_store s) (sv_store s') ∧ is_Some r.
Proof.
  intros Hok Hl Hf. pose proof (keeps_refl _ Hok) as Hrefl. pose proof Hok as [Hinv Hd].
  unfold createSession. destruct (negb (tokenOK _ _)); [by split; [|eauto]|].
  destruct req as [req|]; [|by split; [|eauto]].
  destruct (negb (parsePublicKey _)); [by split; [|eauto]|].
  destruct (negb (ValidBackend _)); [by split; [|eauto]|].
  destruct (_ && _); [by split; [|eauto]|].
  destruct (clients_ok (sv_store s) Hinv Hd) as (cs & -> & _ & Hcs).
  destruct (list_find _ cs) as [[i c]|] eqn:Hfind.
  - apply list_find_Some in Hfind as (Hi & _ & _). apply list_elem_of_lookup_2, Hcs in Hi.
    unfold reopenSession. destruct (negb (bool_decide (c_SecretHash c = _))); [by split; [|eauto]|].
    destruct (negb _).
    + pose proof (switchBackendLocked_keeps fuel c (normBackend (cr_Backend req)) s Hok Hl Hf Hi) as Hs.
      destruct (switchBackendLocked _ _ _ _ _ _ _) as [s' [[|]|]]; destruct Hs as [Hk [? [=]]].
      * destruct (session _ _ _ _); simpl; eauto.
      * eauto.
    + destruct (session _ _ _ _); simpl; eauto.
  - apply list_find_None in Hfind. apply openSession_keeps; try done.
    intros c Hc. by apply (proj1 (Forall_forall _ _) Hfind).
Qed.

Lemma migrate_keeps fuel c req s :
  store_ok (sv_store s) → 2 ≤ kvl_left (sv_store s) → (3 ≤ fuel)%nat →
  let '(s', r) := migrate (Some _) hmacPSK cfg fuel c req s in
  keeps (sv_store s) (sv_store s') ∧ is_Some r.
Proof.
  intros Hok Hl Hf. pose proof (keeps_refl _ Hok) as Hrefl.
  unfold migrate. destruct req as [req|]; [|by split; [|eauto]].
  destruct (gateways (sv_store s)) as [gws|]; [|by split; [|eauto]].
  destruct (FindGateway gws (m_Access req)) as [ga oka]. destruct (_ || _); [by split; [|eauto]|].
  destruct (FindGateway gws (m_Egress req)) as [ge oke]. destruct (_ || _); [by split; [|eauto]|].
  destruct (session hmacPSK cfg c (sv_store s)) as [cur|]; [|by split; [|eauto]].
  destruct (negb _); [by split; [|eauto]|].
  destruct (SetIfNewer_store fuel (mkOwn (c_ID c) (m_Access req) (m_Egress req) (u64 (s_Epoch cur + 1)))
              (sv_store s) Hok ltac:(lia) Hf) as (st' & ap & err & -> & Hok' & Hl' & _).
  destruct err, ap; simpl; (split; [|eauto]); (split; [done|simpl; lia]).
Qed.

Lemma serve_keeps fuel s r :
  store_ok (sv_store s) → 2 ≤ kvl_left (sv_store s) → (3 ≤ fuel)%nat →
  keeps (sv_store s) (sv_store (serve fuel s r).1).
Proof.
  intros Hok Hl Hf. pose proof (keeps_refl _ Hok) as Hrefl. destruct r; simpl.
  - destruct (negb _); [done|]. pose proof (registerGateway_keeps id req now s Hok Hl) as Hk.
    by destruct (registerGateway cfg id req now s).
  - destruct (negb _); [done|]. unfold reportLinks. destruct rep; [|done].
    destruct (kv_Get _ _) as [[v|]|]; try done. cbn [fst]. by rewrite seenLocked_store.
  - pose proof (createSession_keeps fuel token req rnd s Hok Hl Hf) as Hk.
    destruct (createSession _ _ _ _ _ _ _ _ _). by destruct Hk.
  - destruct (sessionAuth _ _ _ _) as [c|resp]; [|done].
    pose proof (migrate_keeps fuel c req s Hok Hl Hf) as Hk. destruct (migrate _ _ _ _ _ _ _). by destruct Hk.
  - by rewrite sweep_store.
Qed.

Lemma run_keeps fuel reqs s :
  store_ok (sv_store s) → 2 * Z.of_nat (length reqs) ≤ kvl_left (sv_store s) → (3 ≤ fuel)%nat →
  store_ok (sv_store (fold_left (λ s r, (serve fuel s r).1) reqs s)).
Proof.
  intros Hok Hl Hf. revert s Hok Hl. induction reqs as [|r reqs IH]; intros s Hok Hl; [done|].
  cbn [fold_left length] in *. destruct (serve_keeps fuel s r Hok ltac:(lia) Hf) as [Hok' Hl'].
  apply IH; [done|lia].
Qed.

(** What a consistent store's report looks like. *)
Lemma gatewayState_ok s :
  store_ok (sv_store s) →
  ∃ st, gatewayState hmacPSK cfg s = mkResp StatusOK (GatewayStateBody st) ∧
    Plan.state_ok st ∧ NoDup (s_PublicKey <$> st_Sessions st) ∧ NoDup (g_NodeIP <$> st_Gateways st) ∧
    (∀ x, x ∈ st_Sessions st → usable (ClientSubnet (cfg_Network cfg)) (s_VirtualIP x)) ∧
    (∀ g, g ∈ st_Gateways st → usable (NodeSubnet (cfg_Network cfg)) (g_NodeIP g)) ∧
    (∀ c, cl_at (kvl_data (sv_store s)) c → ∃ x, x ∈ st_Sessions st ∧ s_ID x = c_ID c).
Proof.
  intros [Hinv Hd]. unfold gatewayState, snapshot.
  destruct (gateways_ok _ Hinv Hd) as (gws & -> & Hndg & Hgws).
  destruct (clients_ok _ Hinv Hd) as (cs & -> & Hndc & Hcs).
  set (mark := λ g, mkGateway (g_ID g) _ _ _ _ _ _ _).
  assert (Forall2 (λ c x, ∃ own, x = api_session c own) cs
            (omap (λ c, session hmacPSK cfg c (sv_store s)) cs)) as HF.
  { apply omap_Forall2. intros c Hc. rewrite session_data by (done || apply Hd).
    destruct (dk_owned _ Hd c) as [own ->]; [by apply Hcs|]. simpl. eauto. }
  assert (∀ (f : clientRecord → Addr) g, (∀ c own, f c = g (api_session c own)) →
    f <$> cs = g <$> omap (λ c, session hmacPSK cfg c (sv_store s)) cs) as HA.
  { intros f g Hfg. apply (Forall2_fmap_eq _ _ _ _ _ HF). intros c x [own ->]. apply Hfg. }
  assert (∀ (f : clientRecord → string) g, (∀ c own, f c = g (api_session c own)) →
    f <$> cs = g <$> omap (λ c, session hmacPSK cfg c (sv_store s)) cs) as HS.
  { intros f g Hfg. apply (Forall2_fmap_eq _ _ _ _ _ HF). intros c x [own ->]. apply Hfg. }
  eexists. split; [done|]. cbn [st_Sessions st_Gateways]. split_and!.
  - unfold Plan.state_ok. cbn [st_Sessions].
    rewrite <- (HA c_VirtualIP s_VirtualIP) by (intros; symmetry; apply api_session_path).
    apply (NoDup_by c_ID); [done|]. intros x y Hx%Hcs Hy%Hcs E. apply (dk_vip_uniq _ Hd); auto.
  - rewrite <- (HS c_PublicKey s_PublicKey) by (intros; symmetry; apply api_session_path).
    apply (NoDup_by c_ID); [done|]. intros x y Hx%Hcs Hy%Hcs E. apply (dk_vip_uniq _ Hd); auto.
  - rewrite <- list_fmap_compose. apply (NoDup_by g_ID); [done|].
    intros x y Hx%Hgws Hy%Hgws E. by apply (dk_node_uniq _ Hd).
  - intros x Hx. destruct (Forall2_elem_r _ _ _ _ HF Hx) as (c & Hc%Hcs & own & ->).
    destruct (api_session_path c own) as (_ & -> & _). by apply (dk_vip _ Hd).
  - intros g (g' & -> & Hg%Hgws)%list_elem_of_fmap. by apply (dk_node _ Hd g').
  - intros c Hc. destruct (Forall2_elem_l _ _ _ c HF) as (x & Hx & own & ->); [by apply Hcs|].
    eexists. split; [done|]. apply api_session_path.
Qed.

(** Without an error nor an owner newer than it, the record is applied. *)
Lemma SetIfNewer_wins fuel rec st :
  store_ok st → 0 < kvl_left st → (3 ≤ fuel)%nat → Ownership.Validate rec = None →
  (∀ cur, owner_at (kvl_data st) (Session rec) = Some cur → Newer rec cur = true) →
  ∃ st' b, SetIfNewer (Some _) fuel rec st = (st', Some (true, None)) ∧ store_ok st' ∧
    UnmarshalOwnership b = Ok rec ∧ kvl_data st' = <[SessionKey (Session rec) := b]> (kvl_data st).
Proof.
  intros [Hinv Hd] Hl Hf Hv Hnew.
  destruct (SetIfNewer_data fuel rec st Hv Hinv Hl (dk_own _ Hd) Hf) as (st' & Heq & Hinv' & _ & Hwin).
  set (wins := match owner_at (kvl_data st) (Session rec) with Some cur => Newer rec cur | None => true end) in *.
  assert (wins = true) as Hw.
  { unfold wins. destruct (owner_at (kvl_data st) (Session rec)); [by apply Hnew|done]. }
  rewrite Hw in *. destruct (Hwin eq_refl) as (_ & b & Hb & Hd'). exists st', b. split_and!; try done.
  split; [done|]. rewrite Hd'. by apply data_ok_put_owner.
Qed.

Lemma FindGateway_at gws id d :
  (∀ g, g ∈ gws ↔ gw_at d g) →
  match FindGateway gws id with
  | (g, true) => gw_at d g ∧ g_ID g = id
  | (_, false) => ∀ g, gw_at d g → g_ID g ≠ id
  end.
Proof.
  intros Hin. destruct (FindGateway gws id) as [g [|]] eqn:E.
  - apply FindGateway_true in E as [Hg ?]. split; [by apply Hin|done].
  - apply FindGateway_false in E as [_ Hall]. intros x Hx. apply Hall. by apply Hin.
Qed.

(** A request that changes the store advances the version, once or twice. *)
Definition bumps (s s' : Server St) : Prop :=
  sv_store s' = sv_store s ∨ version s' = u64 (version s + 1) ∨ version s' = u64 (u64 (version s + 1) + 1).

Lemma bumps_refl s : bumps s s.
Proof. by left. Qed.

Lemma seenLocked_version id now (s : Server St) :
  version (seenLocked id now s) = version s ∨ version (seenLocked id now s) = u64 (version s + 1).
Proof. unfold seenLocked. simpl. destruct (negb _); [by right|by left]. Qed.

Lemma set_store_same (s : Server St) st : st = sv_store s → bumps s (set_store s st).
Proof. intros ->. by left. Qed.

Lemma switchBackendLocked_bumps fuel c backend s :
  store_ok (sv_store s) → 2 ≤ kvl_left (sv_store s) → (3 ≤ fuel)%nat →
  bumps s (switchBackendLocked (Some _) hmacPSK cfg fuel c backend s).1.
Proof.
  intros Hok Hl Hf. pose proof (bumps_refl s) as Hrefl. unfold switchBackendLocked.
  destruct (session hmacPSK cfg c (sv_store s)) as [cur|]; [|done].
  destruct (gateways (sv_store s)) as [gws|]; [|done].
  set (moved := if negb _ then _ else _).
  assert (∃ s1 r, moved = (s1, Some r) ∧ version s1 = version s ∧
    (r = false → sv_store s1 = sv_store s) ∧ kvl_inv (sv_store s1) ∧ 0 < kvl_left (sv_store s1))
    as (s1 & r & -> & Hv & Hs & Hinv1 & Hl1).
  { destruct Hok as [Hinv Hd]. unfold moved.
    destruct (negb _); [|eexists _, _; split_and!; [done|done|done|done|lia]].
    destruct (pickPath _ _ _ _) as [[access eg]|]; [|eexists _, _; split_and!; [done|done|done|done|lia]].
    destruct (SetIfNewer_store fuel (mkOwn (c_ID c) access (s_Egress cur) (u64 (s_Epoch cur + 1)))
                (sv_store s) ltac:(done) ltac:(lia) Hf) as (st' & ap & err & -> & [Hinv' _] & Hl' & _ & _ & _ & _ & Hsame).
    destruct err; eexists _, _; split_and!; try done; simpl; try lia. intros _. apply Hsame. by right. }
  destruct r; [|left; by apply Hs].
  set (c' := mkClient _ _ _ _ _).
  destruct (put_data (clientKeyPrefix +:+ c_ID c') c' (sv_store s1) (clients_encode _) Hinv1 Hl1)
    as (st' & b & -> & _). right. left. simpl. by rewrite Hv.
Qed.

Lemma createSession_bumps fuel token req rnd s :
  store_ok (sv_store s) → 2 ≤ kvl_left (sv_store s) → (3 ≤ fuel)%nat →
  bumps s (createSession (Some _) hashSecret hmacPSK cfg fuel token req rnd s).1.
Proof.
  intros Hok Hl Hf. pose proof (bumps_refl s) as Hrefl.
  unfold createSession. destruct (negb (tokenOK _ _)); [done|].
  destruct req as [req|]; [|done]. destruct (negb (parsePublicKey _)); [done|].
  destruct (negb (ValidBackend _)); [done|]. destruct (_ && _); [done|].
  destruct (clients (sv_store s)) as [cs|]; [|done].
  destruct (list_find _ cs) as [[i c]|].
  - unfold reopenSession. destruct (negb (bool_decide (c_SecretHash c = _))); [done|]. destruct (negb _).
    + pose proof (switchBackendLocked_bumps fuel c (normBackend (cr_Backend req)) s Hok Hl Hf) as Hs.
      destruct (switchBackendLocked _ _ _ _ _ _ _) as [s' [[|]|]]; try done.
      by destruct (session _ _ _ _).
    + by destruct (session _ _ _ _).
  - unfold openSession. destruct (gateways (sv_store s)) as [gws|]; [|done].
    destruct (pickPath _ _ _ _) as [[access eg]|]; [|done]. destruct (allocate _ _) as [vip|]; [|done].
    destruct (randomSessionID rnd.1) as [id|]; [|done]. destruct rnd.2 as [secret|]; [|done].
    destruct (SetIfNewer_store fuel (mkOwn id access eg 1) (sv_store s) Hok ltac:(lia) Hf)
      as (st1 & ap & err & -> & [Hinv1 _] & Hl1 & _ & _ & _ & _ & Hsame).
    destruct err; [apply set_store_same, Hsame; by right|].
    set (rec := mkClient id _ _ _ _).
    destruct (put_data (clientKeyPrefix +:+ id) rec st1 (clients_encode _) Hinv1 ltac:(lia))
      as (st2 & b & -> & _). right. left. by destruct (session _ _ _ _).
Qed.

Lemma migrate_bumps fuel c req s :
  store_ok (sv_store s) → 2 ≤ kvl_left (sv_store s) → (3 ≤ fuel)%nat →
  bumps s (migrate (Some _) hmacPSK cfg fuel c req s).1.
Proof.
  intros Hok Hl Hf. pose proof (bumps_refl s) as Hrefl.
  unfold migrate. destruct req as [req|]; [|done]. destruct (gateways (sv_store s)) as [gws|]; [|done].
  destruct (FindGateway gws (m_Access req)) as [ga oka]. destruct (_ || _); [done|].
  destruct (FindGateway gws (m_Egress req)) as [ge oke]. destruct (_ || _); [done|].
  destruct (session hmacPSK cfg c (sv_store s)) as [cur|]; [|done]. destruct (negb _); [done|].
  destruct (SetIfNewer_store fuel (mkOwn (c_ID c) (m_Access req) (m_Egress req) (u64 (s_Epoch cur + 1)))
              (sv_store s) Hok ltac:(lia) Hf) as (st' & ap & err & -> & _ & _ & _ & _ & _ & _ & Hsame).
  destruct err, ap; cbn [fst].
  - apply set_store_same, Hsame. by right.
  - apply set_store_same, Hsame. by right.
  - right. by left.
  - apply set_store_same, Hsame. by left.
Qed.

Lemma registerGateway_bumps id req now s :
  store_ok (sv_store s) → 2 ≤ kvl_left (sv_store s) → bumps s (registerGateway cfg id req now s).1.
Proof.
  intros [Hinv _] Hl. pose proof (bumps_refl s) as Hrefl.
  unfold registerGateway. destruct (negb (gatewayIDRE id)); [done|]. destruct req as [req|]; [|done].
  destruct (ParseAddrPort _); [|done]. destruct (negb (parsePublicKey _)); [done|].
  destruct (_ && _); [done|]. destruct (gateways (sv_store s)) as [gws|]; [|done].
  destruct (FindGateway gws id) as [g existed]. destruct (if negb existed then _ else _) as [ip|]; [|done].
  set (next := mkGateway id _ _ _ _ _ _ _).
  destruct (negb existed || _); [|left; cbn [fst]; by rewrite seenLocked_store].
  destruct (put_data (gatewayKeyPrefix +:+ id) next (sv_store s) (gateways_encode _) Hinv ltac:(lia))
    as (st' & b & -> & _). cbn [fst]. right.
  by destruct (seenLocked_version id now (bumpLocked (set_store s st'))) as [-> | ->]; [left|right].
Qed.

(** ** Properties *)

(** An address is allocated iff one is free, and it is the lowest free one:
    [allocate] never returns the first two addresses of the subnet, its last
    one, or one in use; it reports the subnet full only when every usable
    address is in use. *)
Theorem allocate_lowest p b k used :
  subnet p b k →
  match allocate p used with
  | Some a => usable p a ∧ (a ∉ used) ∧ ∀ v w, a = Addr4 v → b + 2 ≤ w < v → Addr4 w ∈ used
  | None => ∀ a, usable p a → a ∈ used
  end.
Proof. apply allocate_spec. Qed.

(** C2: the controller's invariant. Whatever requests arrive in whatever order,
    well formed or not, authorized or not, the state reported to the gateways
    always exists and gives every session a virtual IP and a public key of
    its own and every gateway a node IP of its own, all of them usable
    addresses of their subnets; no session that was opened is missing from
    it. *)
Theorem controller_invariant fuel reqs s :
  store_ok (sv_store s) → 2 * Z.of_nat (length reqs) ≤ kvl_left (sv_store s) → (3 ≤ fuel)%nat →
  let s' := fold_left (λ s r, (serve fuel s r).1) reqs s in
  ∃ st, gatewayState hmacPSK cfg s' = mkResp StatusOK (GatewayStateBody st) ∧
    Plan.state_ok st ∧ NoDup (s_PublicKey <$> st_Sessions st) ∧ NoDup (g_NodeIP <$> st_Gateways st) ∧
    (∀ x, x ∈ st_Sessions st → usable (ClientSubnet (cfg_Network cfg)) (s_VirtualIP x)) ∧
    (∀ g, g ∈ st_Gateways st → usable (NodeSubnet (cfg_Network cfg)) (g_NodeIP g)) ∧
    (∀ c, cl_at (kvl_data (sv_store s')) c → ∃ x, x ∈ st_Sessions st ∧ s_ID x = c_ID c).
Proof. intros Hok Hl Hf s'. apply gatewayState_ok. by apply run_keeps. Qed.

(** The gateways a migration may name. *)
Definition may_access (d : gmap string bytes) (c : clientRecord) (id : string) : Prop :=
  ∃ g, gw_at d g ∧ g_ID g = id ∧ canAccess g (normBackend (c_Backend c)) = true.
Definition may_egress (d : gmap string bytes) (id : string) : Prop :=
  ∃ g, gw_at d g ∧ g_ID g = id ∧ Has (g_Roles g) RoleEgress = true.

Lemma migrate_cases fuel c req s cur :
  store_ok (sv_store s) → 2 ≤ kvl_left (sv_store s) → (3 ≤ fuel)%nat →
  owner_at (kvl_data (sv_store s)) (c_ID c) = Some cur →
  0 ≤ Epoch cur < 2 ^ 64 - 1 → m_Access req ≠ "" → m_Egress req ≠ "" →
  let d := kvl_data (sv_store s) in
  let '(s', r) := migrate (Some _) hmacPSK cfg fuel c (Some req) s in
  ((¬ may_access d c (m_Access req) ∨ ¬ may_egress d (m_Egress req)) →
     s' = s ∧ r = Some (failed StatusBadRequest)) ∧
  (may_access d c (m_Access req) → may_egress d (m_Egress req) → m_Epoch req ≠ Epoch cur →
     s' = s ∧ r = Some (mkResp StatusConflict (ErrorBody (Some (api_session c cur))))) ∧
  (may_access d c (m_Access req) → may_egress d (m_Egress req) → m_Epoch req = Epoch cur →
     let next := mkOwn (c_ID c) (m_Access req) (m_Egress req) (Epoch cur + 1) in
     owner_at (kvl_data (sv_store s')) (c_ID c) = Some next ∧
     (∀ id, id ≠ c_ID c → owner_at (kvl_data (sv_store s')) id = owner_at d id) ∧
     version s' = u64 (version s + 1) ∧
     r = Some (mkResp StatusOK (SessionBody (api_session c next)))).
Proof.
  intros Hok Hl Hf Hcur Hep Hna Hne d. pose proof Hok as [Hinv Hd].
  assert (Session cur = c_ID c ∧ c_ID c ≠ "") as [Hses Hid].
  { unfold owner_at in Hcur. destruct (kvl_data (sv_store s) !! SessionKey (c_ID c)) as [v|] eqn:E; [|done].
    destruct (dk_own _ Hd _ _ E) as (r & Hr & Hs). rewrite Hr in Hcur. injection Hcur as ->.
    apply UnmarshalOwnership_valid, Validate_None in Hr as (? & _). split; congruence. }
  unfold migrate. destruct (gateways_ok _ Hinv Hd) as (gws & -> & Hnd & Hgws). fold d in Hgws.
  pose proof (FindGateway_at gws (m_Access req) d Hgws) as HA.
  destruct (FindGateway gws (m_Access req)) as [ga oka].
  assert (may_access d c (m_Access req) ↔ negb oka || negb (canAccess ga (normBackend (c_Backend c))) = false) as Hacc.
  { destruct oka; simpl.
    - destruct HA as [Hga <-]. rewrite negb_false_iff. split; [|by exists ga].
      intros (g & Hg & E & Hc). by rewrite <- (gw_at_fun _ _ _ Hg Hga E).
    - split; [|done]. intros (g & Hg & E & _). by destruct (HA g Hg). }
  destruct (negb oka || _).
  { split_and!; [done| |]; intros Hm; by apply Hacc in Hm. }
  assert (may_access d c (m_Access req)) as Hma by by apply Hacc.
  pose proof (FindGateway_at gws (m_Egress req) d Hgws) as HE.
  destruct (FindGateway gws (m_Egress req)) as [ge oke].
  assert (may_egress d (m_Egress req) ↔ negb oke || negb (Has (g_Roles ge) RoleEgress) = false) as Heg.
  { destruct oke; simpl.
    - destruct HE as [Hge <-]. rewrite negb_false_iff. split; [|by exists ge].
      intros (g & Hg & E & Hc). by rewrite <- (gw_at_fun _ _ _ Hg Hge E).
    - split; [|done]. intros (g & Hg & E & _). by destruct (HE g Hg). }
  destruct (negb oke || _).
  { split_and!; [done| |]; intros _ Hm; by apply Heg in Hm. }
  assert (may_egress d (m_Egress req)) as Hme by by apply Heg.
  rewrite session_data by (done || apply Hd). rewrite Hcur. simpl.
  destruct (api_session_path c cur) as (E1 & E2 & E3 & E4 & E5 & E6).
  rewrite E6. destruct (Z.eqb_spec (m_Epoch req) (Epoch cur)) as [Heq|Hneq]; simpl.
  2:{ split_and!; [intros [?|?]; done|done|done]. }
  rewrite (wrap_small 64 (Epoch cur + 1)) by (unfold fits; lia).
  set (next := mkOwn (c_ID c) (m_Access req) (m_Egress req) (Epoch cur + 1)).
  destruct (SetIfNewer_wins fuel next (sv_store s) Hok ltac:(lia) Hf) as (st' & b & -> & Hok' & Hb & Hd').
  { by apply Validate_None. }
  { intros cur' Hc'. simpl in Hc'. rewrite Hcur in Hc'. injection Hc' as <-.
    unfold Newer. simpl. rewrite Z.gtb_ltb. apply Z.ltb_lt. lia. }
  split_and!; [intros [?|?]; done|done|]. intros _ _ _. simpl. rewrite Hd'.
  split_and!; try done.
  - rewrite (owner_at_insert _ next b) by done. by rewrite decide_True.
  - intros id Hid'. rewrite (owner_at_insert _ next b) by done. by rewrite decide_False.
  - do 3 f_equal. unfold api_session in *. by case_bool_decide.
Qed.

(** C4: a migration request commits exactly one epoch. If it names an access
    gateway that cannot serve the session or an egress that is none, it is a
    bad request; if it was made for another epoch than the session's, it is a
    conflict that reports the session as it is; in both cases nothing
    changes. Otherwise the session is owned by the named gateways at the next
    epoch, every other session's owner is unchanged, the long polls are woken
    and the answer is the session as every later read returns it. *)
Theorem migrate_commits fuel c req s cur :
  store_ok (sv_store s) → 2 ≤ kvl_left (sv_store s) → (3 ≤ fuel)%nat →
  owner_at (kvl_data (sv_store s)) (c_ID c) = Some cur →
  0 ≤ Epoch cur < 2 ^ 64 - 1 → m_Access req ≠ "" → m_Egress req ≠ "" →
  let d := kvl_data (sv_store s) in
  let '(s', r) := migrate (Some _) hmacPSK cfg fuel c (Some req) s in
  ((¬ may_access d c (m_Access req) ∨ ¬ may_egress d (m_Egress req)) →
     s' = s ∧ r = Some (failed StatusBadRequest)) ∧
  (may_access d c (m_Access req) → may_egress d (m_Egress req) → m_Epoch req ≠ Epoch cur →
     s' = s ∧ r = Some (mkResp StatusConflict (ErrorBody (Some (api_session c cur))))) ∧
  (may_access d c (m_Access req) → may_egress d (m_Egress req) → m_Epoch req = Epoch cur →
     let next := mkOwn (c_ID c) (m_Access req) (m_Egress req) (Epoch cur + 1) in
     owner_at (kvl_data (sv_store s')) (c_ID c) = Some next ∧
     (∀ id, id ≠ c_ID c → owner_at (kvl_data (sv_store s')) id = owner_at d id) ∧
     version s' = u64 (version s + 1) ∧
     r = Some (mkResp StatusOK (SessionBody (api_session c next)))).
Proof. apply migrate_cases. Qed.

(** Nothing the controller writes is missed. Any request that changes what
    the store holds also advances the version, which is what wakes the long
    polls of the gateways and clients. *)
Theorem serve_bumps fuel s r :
  store_ok (sv_store s) → 2 ≤ kvl_left (sv_store s) → (3 ≤ fuel)%nat →
  let s' := (serve fuel s r).1 in
  sv_store s' = sv_store s ∨ version s' = u64 (version s + 1) ∨ version s' = u64 (u64 (version s + 1) + 1).
Proof.
  intros Hok Hl Hf. fold (bumps s (serve fuel s r).1). pose proof (bumps_refl s) as Hrefl.
  destruct r; simpl.
  - destruct (negb _); [done|]. pose proof (registerGateway_bumps id req now s Hok Hl) as Hk.
    by destruct (registerGateway cfg id req now s).
  - destruct (negb _); [done|]. unfold reportLinks. destruct rep; [|done].
    destruct (kv_Get _ _) as [[v|]|]; try done. left. cbn [fst]. by rewrite seenLocked_store.
  - by apply createSession_bumps.
  - destruct (sessionAuth _ _ _ _) as [c|resp]; [|done]. by apply migrate_bumps.
  - left. by rewrite sweep_store.
Qed.

(** Knowing a public key is not enough to take its session over. A request
    for a key that has a session is refused without its secret, and changes
    nothing; with the secret and the same backend it gets back the session it
    had, with the same ID and virtual IP and at the path and epoch the store
    has, and changes nothing either. *)
Theorem createSession_reopens fuel token req rnd s c cur :
  store_ok (sv_store s) → cl_at (kvl_data (sv_store s)) c →
  owner_at (kvl_data (sv_store s)) (c_ID c) = Some cur →
  tokenOK (ClientToken cfg) token = true → parsePublicKey (cr_PublicKey req) = true →
  ValidBackend (cr_Backend req) = true → cr_PublicKey req = c_PublicKey c →
  normBackend (cr_Backend req) = normBackend (c_Backend c) →
  (normBackend (cr_Backend req) = BackendIPsec → IPsecKey cfg ≠ []) →
  createSession (Some _) hashSecret hmacPSK cfg fuel token (Some req) rnd s =
  (s, Some (if decide (c_SecretHash c = hashSecret (cr_Secret req))
            then mkResp StatusOK (CreatedBody (mkCreated (api_session c cur) (cr_Secret req) (cfg_Network cfg)))
            else failed StatusConflict)).
Proof.
  intros [Hinv Hd] Hc Hcur Htok Hpk Hvb Hkey Hback Hipsec. unfold createSession.
  rewrite Htok, Hpk, Hvb. simpl.
  assert (bool_decide (normBackend (cr_Backend req) = BackendIPsec) && bool_decide (IPsecKey cfg = []) = false) as ->.
  { destruct (bool_decide (normBackend _ = _)) eqn:E; [|done]. zbool. rewrite bool_decide_eq_false_2; [done|auto]. }
  destruct (clients_ok _ Hinv Hd) as (cs & -> & _ & Hcs).
  destruct (list_find _ cs) as [[i c']|] eqn:Hfind.
  2:{ apply list_find_None in Hfind. exfalso. apply Hcs in Hc.
      by apply (proj1 (Forall_forall _ _) Hfind c Hc). }
  apply list_find_Some in Hfind as (Hi & Hk & _). apply list_elem_of_lookup_2, Hcs in Hi.
  assert (c' = c) as ->.
  { apply (cl_at_fun _ _ _ Hi Hc), (dk_vip_uniq _ Hd); [done|done|]. right. congruence. }
  unfold reopenSession. case_decide as Hs.
  - rewrite bool_decide_eq_true_2 by done. simpl. rewrite (bool_decide_eq_true_2 (normBackend (c_Backend c) = _)) by done.
    simpl. rewrite session_data by (done || apply Hd). by rewrite Hcur.
  - by rewrite bool_decide_eq_false_2.
Qed.
End Laws.

(** ** A concrete controller, for the witnesses: an in-memory store, two
    gateways of which only "hk" accepts IPsec clients, and one session. *)
Module Demo.

#[export] Instance demo_net : NetParse := {| ParseAddrPort _ := Some (Addr4 16909060, 51820) |}.
#[export] Instance gateway_codec : Codec Gateway := countable_codec Gateway.
#[export] Instance gateway_codec_laws : CodecLaws Gateway := countable_codec_laws Gateway.
#[export] Instance client_codec : Codec clientRecord := countable_codec clientRecord.
#[export] Instance client_codec_laws : CodecLaws clientRecord := countable_codec_laws clientRecord.
#[export] Instance owner_codec : Codec OwnershipRecord := countable_codec OwnershipRecord.
#[export] Instance owner_codec_laws : CodecLaws OwnershipRecord := countable_codec_laws OwnershipRecord.
#[export] Instance policy_codec : Codec Policy.PolicyDocument :=
  {| marshal _ := None; unmarshal _ := None; codec_ok _ := False |}.

Definition clientNet : Prefix := mkPrefix (Addr4 167837696) 24.
Definition nodeNet : Prefix := mkPrefix (Addr4 167903232) 24.
Definition demo_cfg : SConfig := mkSConfig "" "" (mkNetwork clientNet nodeNet 7777) DefaultAliveAfter [1; 2; 3].
Definition hash (s : string) : string := ("h" +:+ s)%string.
Definition psk (key : bytes) (id : string) : string := ("p" +:+ id)%string.

Definition key1 : string := "AAAAAAAAAAAAAAAAAAAAAAAAAAAAAAAAAAAAAAAAAAA=".
Definition start : Server MemStore := mkServer NewMemStore 1 ∅ ∅ ∅.

Definition demo_reqs : list request :=
  [ReqRegister "" "hk" (Some (mkRegister 3 "1.2.3.4:51820" key1 ∅ true)) 5;
   ReqRegister "" "sg" (Some (mkRegister 3 "1.2.3.4:51820" key1 ∅ false)) 6;
   ReqCreate "" (Some (mkCreate key1 "hk" "" "wireguard")) ([[0;0;0;0;0;0;0;7]], Some "s3cret")].

Definition serve1 : nat → Server MemStore → request → Server MemStore * option response :=
  serve hash psk demo_cfg.
Definition demo : Server MemStore := fold_left (λ s r, (serve1 3 s r).1) demo_reqs start.

Definition client1 : clientRecord := mkClient "7" key1 (Addr4 167837698) (hash "s3cret") "wireguard".

Lemma client_subnet : subnet clientNet 167837696 8.
Proof. split; [reflexivity|]. split; [lia|]. split; [done|reflexivity]. Qed.
Lemma node_subnet : subnet nodeNet 167903232 8.
Proof. split; [reflexivity|]. split; [lia|]. split; [done|reflexivity]. Qed.

Lemma start_ok : store_ok demo_cfg (sv_store start).
Proof.
  split; [apply NewMemStore_ok|]. simpl. rewrite fmap_empty.
  assert (∀ x, ¬ gw_at ∅ x) as Hg by (intros x (v & Hv & _); by rewrite lookup_empty in Hv).
  assert (∀ x, ¬ cl_at ∅ x) as Hc by (intros x (v & Hv & _); by rewrite lookup_empty in Hv).
  split.
  - intros k v Hv. by rewrite lookup_empty in Hv.
  - intros k v Hv. by rewrite lookup_empty in Hv.
  - intros id v Hv. by rewrite lookup_empty in Hv.
  - intros g H. by destruct (Hg g).
  - intros g g' H. by destruct (Hg g).
  - intros c H. by destruct (Hc c).
  - intros c c' H. by destruct (Hc c).
  - intros c H. by destruct (Hc c).
Qed.

Lemma gateways_enc (g : Gateway) : codec_ok g.
Proof. exact I. Qed.
Lemma clients_enc (c : clientRecord) : codec_ok c.
Proof. exact I. Qed.
Lemma owners_enc (r : OwnershipRecord) : codec_ok r.
Proof. exact I. Qed.

Lemma demo_ok : store_ok demo_cfg (sv_store demo).
Proof.
  apply (run_keeps hash psk demo_cfg gateways_enc clients_enc owners_enc _ _ _ _ client_subnet node_subnet
           3 demo_reqs start); [apply start_ok|vm_compute; discriminate|lia].
Qed.

Lemma demo_client : cl_at (kvl_data (sv_store demo)) client1.
Proof.
  assert (match kvl_data (sv_store demo) !! "/egressa/client/7" with
          | Some v => bool_decide (unmarshal v = Some client1) | None => false end = true) as Hc
    by (vm_compute; reflexivity).
  unfold cl_at. change (clientKeyPrefix +:+ c_ID client1)%string with "/egressa/client/7".
  destruct (kvl_data (sv_store demo) !! "/egressa/client/7") as [v|]; [|done]. exists v. by zbool.
Qed.

Lemma allocate_lowest_witness :
  allocate clientNet {[Addr4 167837698]} = Some (Addr4 167837699) ∧
  Addr4 167837698 ∈ ({[Addr4 167837698]} : gset Addr).
Proof.
  pose proof (allocate_lowest clientNet 167837696 8 {[Addr4 167837698]} client_subnet) as H.
  assert (allocate clientNet {[Addr4 167837698]} = Some (Addr4 167837699)) as E by (vm_compute; reflexivity).
  rewrite E in H. destruct H as (_ & _ & Hlow). split; [exact E|].
  apply (Hlow 167837699 167837698 eq_refl). lia.
Defined.

Lemma controller_invariant_witness :
  ∃ st, gatewayState psk demo_cfg demo = mkResp StatusOK (GatewayStateBody st) ∧ Plan.state_ok st ∧
    ∃ x, x ∈ st_Sessions st ∧ s_ID x = "7".
Proof.
  destruct (controller_invariant hash psk demo_cfg gateways_enc clients_enc owners_enc
              _ _ _ _ client_subnet node_subnet 3 demo_reqs start start_ok) as (st & Hst & Hok & _ & _ & _ & _ & Hall).
  - vm_compute. discriminate.
  - lia.
  - exists st. split; [exact Hst|]. split; [exact Hok|]. exact (Hall client1 demo_client).
Defined.

Definition owner1 : OwnershipRecord := mkOwn "7" "hk" "hk" 1.
Lemma demo_owner : owner_at (kvl_data (sv_store demo)) "7" = Some owner1.
Proof. vm_compute. reflexivity. Qed.

Lemma demo_gateway id (ipsec : bool) :
  (id = "hk" ∧ ipsec = true) ∨ (id = "sg" ∧ ipsec = false) →
  ∃ g, gw_at (kvl_data (sv_store demo)) g ∧ g_ID g = id ∧ g_Roles g = 3 ∧ g_IPsec g = ipsec.
Proof.
  intros Hid.
  assert (match kvl_data (sv_store demo) !! (gatewayKeyPrefix +:+ id)%string with
          | Some v => match unmarshal (A := Gateway) v with
                      | Some g => bool_decide (g_ID g = id) && bool_decide (g_Roles g = 3) && Bool.eqb (g_IPsec g) ipsec
                      | None => false end
          | None => false end = true) as Hg.
  { destruct Hid as [[-> ->]|[-> ->]]; vm_compute; reflexivity. }
  destruct (kvl_data (sv_store demo) !! _) as [v|] eqn:Hv; [|discriminate Hg].
  destruct (unmarshal v) as [g|] eqn:Hu; [|discriminate Hg].
  apply andb_true_iff in Hg as [[H1 H2]%andb_true_iff H3].
  apply bool_decide_eq_true_1 in H1, H2. apply Bool.eqb_prop in H3.
  exists g. split; [|exact (conj H1 (conj H2 H3))]. exists v. rewrite H1. exact (conj Hv Hu).
Qed.

Lemma migrate_commits_witness :
  let '(s', r) := migrate (Some _) psk demo_cfg 3 client1 (Some (mkMigrate 1 "sg" "hk")) demo in
  owner_at (kvl_data (sv_store s')) "7" = Some (mkOwn "7" "sg" "hk" 2).
Proof.
  pose proof (migrate_commits psk demo_cfg owners_enc 3 client1 (mkMigrate 1 "sg" "hk") demo owner1
                demo_ok) as H.
  destruct (migrate (Some _) psk demo_cfg 3 client1 (Some (mkMigrate 1 "sg" "hk")) demo) as [s' r].
  refine (proj1 (proj2 (proj2 (H _ _ _ _ _ _)) _ _ _)).
  - vm_compute. discriminate.
  - lia.
  - exact demo_owner.
  - simpl. lia.
  - discriminate.
  - discriminate.
  - destruct (demo_gateway "sg" false) as (g & Hg & Hid & Hr & _); [by right|].
    exists g. split; [exact Hg|]. split; [exact Hid|]. unfold canAccess. rewrite Hr. reflexivity.
  - destruct (demo_gateway "hk" true) as (g & Hg & Hid & Hr & _); [by left|].
    exists g. split; [exact Hg|]. split; [exact Hid|]. rewrite Hr. reflexivity.
  - reflexivity.
Defined.

Lemma serve_bumps_witness :
  let r := ReqMigrate "7" "s3cret" (Some (mkMigrate 1 "sg" "hk")) in
  let s' := (serve1 3 demo r).1 in
  sv_store s' = sv_store demo ∨ version s' = u64 (version demo + 1) ∨
  version s' = u64 (u64 (version demo + 1) + 1).
Proof.
  apply (serve_bumps hash psk demo_cfg gateways_enc clients_enc owners_enc
           3 demo (ReqMigrate "7" "s3cret" (Some (mkMigrate 1 "sg" "hk")))).
  - exact demo_ok.
  - vm_compute. discriminate.
  - lia.
Defined.

Lemma createSession_reopens_witness :
  createSession (Some _) hash psk demo_cfg 3 "" (Some (mkCreate key1 "" "guess" "")) ([], None) demo =
  (demo, Some (failed StatusConflict)).
Proof.
  rewrite (createSession_reopens hash psk demo_cfg 3 "" (mkCreate key1 "" "guess" "") ([], None) demo
             client1 owner1).
  - reflexivity.
  - exact demo_ok.
  - exact demo_client.
  - exact demo_owner.
  - reflexivity.
  - vm_compute. reflexivity.
  - reflexivity.
  - reflexivity.
  - reflexivity.
  - discriminate.
Defined.

(** A migration can undo a backend switch's choice of gateway. The client
    record a migration checks the gateway against is read before the server's
    mutex is taken; here the session switches to IPsec in between (its access
    "hk" accepts IPsec, so its epoch stays), and the migration is then
    accepted to "sg", which does not. *)
Theorem migrate_stale_backend :
  let s := demo in
  ∃ c s1 s2 x g,
    sessionAuth hash "7" "s3cret" s = Ok c ∧
    createSession (Some _) hash psk demo_cfg 3 ""
      (Some (mkCreate key1 "" "s3cret" "ipsec")) ([], None) s = (s1, x) ∧
    resp_code <$> x = Some StatusOK ∧
    migrate (Some _) psk demo_cfg 3 c (Some (mkMigrate 1 "sg" "hk")) s1 = (s2, g) ∧
    resp_code <$> g = Some StatusOK ∧
    ∃ st sess gw, gatewayState psk demo_cfg s2 = mkResp StatusOK (GatewayStateBody st) ∧
      st_Sessions st = [sess] ∧ s_Backend sess = BackendIPsec ∧
      FindGateway (st_Gateways st) (s_Access sess) = (gw, true) ∧ g_IPsec gw = false.
Proof.
  intros s.
  set (a := sessionAuth hash "7" "s3cret" s).
  set (b := createSession (Some _) hash psk demo_cfg 3 ""
              (Some (mkCreate key1 "" "s3cret" "ipsec")) ([], None) s).
  set (m := migrate (Some _) psk demo_cfg 3 client1 (Some (mkMigrate 1 "sg" "hk")) b.1).
  set (q := gatewayState psk demo_cfg m.1).
  assert (a = Ok client1) as Ha by (vm_compute; reflexivity).
  assert (resp_code <$> b.2 = Some StatusOK) as Hb by (vm_compute; reflexivity).
  assert (resp_code <$> m.2 = Some StatusOK) as Hm by (vm_compute; reflexivity).
  assert (match q with
          | mkResp 200 (GatewayStateBody (mkGWState _ _ gws [x])) =>
              bool_decide (s_Backend x = BackendIPsec) && (FindGateway gws (s_Access x)).2
              && negb (g_IPsec (FindGateway gws (s_Access x)).1)
          | _ => false end = true) as Hq by (vm_compute; reflexivity).
  exists client1, b.1, m.1, b.2, m.2.
  split; [exact Ha|]. split; [apply surjective_pairing|]. split; [exact Hb|].
  split; [apply surjective_pairing|]. split; [exact Hm|].
  change (gatewayState psk demo_cfg m.1) with q. clearbody q. clear -Hq.
  destruct q as [code [| | | | | |[v net gws ss]|]]; try (exfalso; repeat case_match; discriminate).
  destruct ss as [|x [|y ss]]; try (exfalso; repeat case_match; discriminate).
  assert (code = 200) as -> by (repeat case_match; done).
  exists (mkGWState v net gws [x]), x, (FindGateway gws (s_Access x)).1. simpl in Hq |- *.
  destruct (FindGateway gws (s_Access x)) as [gw ok]. simpl in *. zbool. by subst.
Qed.

End Demo.
