(* ===== verification/IpsecConfig.v ===== *)
(** * IPsec connections: internal/ipsec config.go, sa.go, and the types and
    checks of net.go, ike.go and routes.go

    A connection is what is loaded into the IKE daemon; [Validate] is what
    every one passes first, [ChildName] stamps the epoch on its CHILD_SA, from
    whose name it is read back. *)

From Stdlib Require Import Ascii.
From S2P Require Import Prelude Netip.

(** ** Errors *)

(** The sentinels of the package, ctx.Err(), an error with only a text, one
    that wraps another (%w), one that wraps another and mentions a failed
    clean-up (%w ... %v), and errors.Join. *)
Inductive error :=
| ErrExist | ErrNotExist | ErrNotFound | ErrAuthFailed | ErrLossUnavailable
| ErrClosed | ErrContext
| ErrText (msg : string)
| ErrWrap (msg : string) (e : error)
| ErrUndo (msg : string) (e undo : error)
| ErrJoin (es : list error).

(** [errors.Is] against the sentinels the sources test for. *)
Fixpoint is_ErrExist (e : error) : bool :=
  match e with
  | ErrExist => true
  | ErrWrap _ e | ErrUndo _ e _ => is_ErrExist e
  | ErrJoin es => existsb is_ErrExist es
  | _ => false
  end.
Fixpoint is_ErrNotExist (e : error) : bool :=
  match e with
  | ErrNotExist => true
  | ErrWrap _ e | ErrUndo _ e _ => is_ErrNotExist e
  | ErrJoin es => existsb is_ErrNotExist es
  | _ => false
  end.
Fixpoint is_ErrNotFound (e : error) : bool :=
  match e with
  | ErrNotFound => true
  | ErrWrap _ e | ErrUndo _ e _ => is_ErrNotFound e
  | ErrJoin es => existsb is_ErrNotFound es
  | _ => false
  end.

(** [errors.Join]: nil when every error is nil. *)
Definition errors_Join (es : list (option error)) : option error :=
  match omap id es with [] => None | es => Some (ErrJoin es) end.

Definition ignoreNotExist (e : option error) : option error :=
  match e with Some e => if is_ErrNotExist e then None else Some e | None => None end.
Definition ignoreNotFound (e : option error) : option error :=
  match e with Some e => if is_ErrNotFound e then None else Some e | None => None end.

(** ** Addresses with zones *)

(** A netip.Addr with its zone; only an IPv6 address can carry one. *)
Record ZAddr := mkZAddr { za_Addr : Addr; za_Zone : string }.
#[export] Instance ZAddr_eq_dec : EqDecision ZAddr.
Proof. solve_decision. Defined.
#[export] Instance ZAddr_countable : Countable ZAddr.
Proof.
  refine (inj_countable' (λ a, (za_Addr a, za_Zone a)) (λ '(a, z), mkZAddr a z) _). by intros [].
Defined.

Definition unzoned (a : Addr) : ZAddr := mkZAddr a "".
Definition noAddr : ZAddr := unzoned AddrInvalid.
Definition za_IsValid (a : ZAddr) : bool := addr_IsValid (za_Addr a).
Definition za_Is4 (a : ZAddr) : bool := Is4 (za_Addr a).

(** ** net.go *)

Definition FamilyV4 : Z := 4.
Definition FamilyV6 : Z := 6.
Definition familyOf (a : Addr) : Z := if Is4 a then FamilyV4 else FamilyV6.
Definition MainTable : Z := 254.

Record Route := mkRoute { r_Dst : Prefix; r_Gw : ZAddr; r_Dev : string; r_Src : ZAddr; r_Table : Z }.
#[export] Instance Route_eq_dec : EqDecision Route.
Proof. solve_decision. Defined.
Definition route_table (r : Route) : Z := if r_Table r =? 0 then MainTable else r_Table r.

Record Rule := mkRule { ru_Src : Prefix; ru_Iif : string; ru_Table : Z; ru_Priority : Z; ru_Family : Z }.
#[export] Instance Rule_eq_dec : EqDecision Rule.
Proof. solve_decision. Defined.
Definition rule_family (r : Rule) : Z :=
  if pf_IsValid (ru_Src r) then familyOf (pf_Addr (ru_Src r))
  else if ru_Family r =? 0 then FamilyV4 else ru_Family r.

Record XfrmState := mkXfrm {
  xs_Src : ZAddr; xs_Dst : ZAddr; xs_SPI : Z; xs_IfID : Z; xs_Packets : Z; xs_Bytes : Z;
  xs_ReplaySeq : Z; xs_HasReplay : bool;
}.

(** ** The prefixes and checks of routes.go *)

Definition fullTunnelPrefixes (f : Z) : list Prefix :=
  if f =? FamilyV6 then [mkPrefix (Addr6 0) 1; mkPrefix (Addr6 (2 ^ 127)) 1]
  else [mkPrefix (Addr4 0) 1; mkPrefix (Addr4 (2 ^ 31)) 1].
Definition allAddresses (f : Z) : Prefix :=
  if f =? FamilyV6 then mkPrefix (Addr6 0) 0 else mkPrefix (Addr4 0) 0.
(** [netip.PrefixFrom] drops the zone, and makes no valid prefix of an invalid
    address. *)
Definition hostPrefix (a : ZAddr) : Prefix :=
  if za_IsValid a then mkPrefix (za_Addr a) (BitLen (za_Addr a)) else mkPrefix AddrInvalid (-1).
Definition ifaceName (prefix : string) (ifID : Z) : string := prefix +:+ FormatUint ifID.

Definition checkAddr (what : string) (a : ZAddr) : res error () :=
  if negb (za_IsValid a) then Err (ErrText (what +:+ ": missing or invalid address"))
  else if negb (String.eqb (za_Zone a) "") then Err (ErrText (what +:+ ": scoped (zoned) addresses are not supported"))
  else Ok ().

Definition checkSameFamily (what : string) (a b : ZAddr) : res error () :=
  if za_IsValid a && za_IsValid b && negb (Bool.eqb (za_Is4 a) (za_Is4 b))
  then Err (ErrText (what +:+ " is not the same address family")) else Ok ().

Fixpoint checkPrefixes (what : string) (f : Z) (ps : list Prefix) : res error () :=
  match ps with
  | [] => Ok ()
  | p :: ps =>
      if negb (pf_IsValid p) then Err (ErrText (what +:+ ": invalid prefix"))
      else if negb (familyOf (pf_Addr p) =? f) then Err (ErrText (what +:+ " is not of the family"))
      else checkPrefixes what f ps
  end.

(** ** Connections *)

(** The enumerations are Go strings, so any other string is possible too. *)
Definition AuthPSK : string := "psk".
Definition AuthPubkey : string := "pubkey".
Definition StartNone : string := "none".
Definition StartStart : string := "start".
Definition DefaultIKEProposals : list string := ["aes256gcm16-prfsha256-x25519"%string].
Definition DefaultESPProposals : list string := ["aes256gcm16-x25519"%string].
Definition AnyID : string := "%any".

Record Connection := mkConnection {
  cn_Name : string;
  cn_Epoch : Z;
  cn_LocalAddr : ZAddr;
  cn_RemoteAddr : ZAddr;
  cn_LocalID : string;
  cn_RemoteID : string;
  cn_Auth : string;
  cn_PSK : string;
  cn_LocalPubkey : string;
  cn_RemotePubkey : string;
  cn_LocalTS : list Prefix;
  cn_RemoteTS : list Prefix;
  cn_IfID : Z;
  cn_IKEProposals : list string;
  cn_ESPProposals : list string;
  cn_DPDDelay : Duration;
  cn_Start : string;
}.
#[export] Instance Connection_eq_dec : EqDecision Connection.
Proof. solve_decision. Defined.

(** Character classes and the patterns [^[first][rest]{0,max}$]. *)
Definition code (c : Ascii.ascii) : Z := Z.of_nat (Ascii.nat_of_ascii c).
Definition within (lo hi : Z) (c : Ascii.ascii) : bool := (lo <=? code c) && (code c <=? hi).
Definition lower := within 97 122.
Definition upper := within 65 90.
Definition digit := within 48 57.
Definition alnum (c : Ascii.ascii) : bool := lower c || upper c || digit c.
Definition one_of (cs : string) (c : Ascii.ascii) : bool :=
  existsb (Ascii.eqb c) (String.list_ascii_of_string cs).
Definition all_chars (P : Ascii.ascii → bool) (s : string) : bool :=
  forallb P (String.list_ascii_of_string s).
Definition matchRE (first rest : Ascii.ascii → bool) (max : nat) (s : string) : bool :=
  match s with
  | EmptyString => false
  | String c s' => first c && all_chars rest s' && (String.length s' <=? max)%nat
  end.

Definition nameRE : string → bool := matchRE alnum (λ c, alnum c || one_of "_-" c) 47.
Definition idRE : string → bool := matchRE alnum (λ c, alnum c || one_of "._@:-" c) 127.
Definition fileRE : string → bool := matchRE alnum (λ c, alnum c || one_of "._-" c) 127.
Definition proposalRE : string → bool :=
  matchRE (λ c, lower c || digit c) (λ c, lower c || digit c || one_of "_-" c) 127.
Definition ifPrefixRE : string → bool := matchRE lower (λ c, lower c || digit c) 4.

Definition minPSKLen : nat := 16.

(** The source ranges over the runes of the key; every byte of a rune above
    0x7e is above it too. *)
Definition validatePSK (owner psk : string) : res error () :=
  if (String.length psk <? minPSKLen)%nat then Err (ErrText (owner +:+ ": PSK too short"))
  else if negb (all_chars (λ c, within 33 126 c && negb (code c =? 34) && negb (code c =? 92)) psk)
  then Err (ErrText (owner +:+ ": PSK may only contain printable ASCII without spaces, quotes or backslashes"))
  else Ok ().

Definition fail_if (b : bool) (msg : string) : res error () := if b then Err (ErrText msg) else Ok ().

Lemma fail_if_Ok b msg u : fail_if b msg = Ok u ↔ b = false.
Proof. unfold fail_if. destruct b, u; naive_solver. Qed.

Definition Validate (c : Connection) : res error () :=
  try _ := fail_if (negb (nameRE (cn_Name c))) "name" in
  try _ := fail_if (negb (za_IsValid (cn_RemoteAddr c)) && String.eqb (cn_Start c) StartStart)
             "start_action=start needs a concrete RemoteAddr" in
  try _ := fail_if (negb (String.eqb (za_Zone (cn_LocalAddr c)) "") || negb (String.eqb (za_Zone (cn_RemoteAddr c)) ""))
             "scoped (zoned) addresses are not supported" in
  try _ := fail_if (za_IsValid (cn_LocalAddr c) && za_IsValid (cn_RemoteAddr c)
                    && negb (Bool.eqb (za_Is4 (cn_LocalAddr c)) (za_Is4 (cn_RemoteAddr c))))
             "different address families" in
  try _ := fail_if (negb (idRE (cn_LocalID c))) "LocalID" in
  try _ := fail_if (negb (String.eqb (cn_RemoteID c) AnyID) && negb (idRE (cn_RemoteID c))) "RemoteID" in
  try _ := (if String.eqb (cn_Auth c) AuthPSK then validatePSK ("connection " +:+ cn_Name c) (cn_PSK c)
            else if String.eqb (cn_Auth c) AuthPubkey
            then fail_if (negb (fileRE (cn_LocalPubkey c)) || negb (fileRE (cn_RemotePubkey c)))
                   "LocalPubkey/RemotePubkey must be plain file names"
            else Err (ErrText "unknown auth method")) in
  try _ := fail_if ((length (cn_LocalTS c) =? 0)%nat || (length (cn_RemoteTS c) =? 0)%nat)
             "LocalTS and RemoteTS must both be non-empty" in
  try _ := fail_if (negb (forallb pf_IsValid (cn_LocalTS c ++ cn_RemoteTS c))) "invalid traffic selector" in
  try _ := fail_if (cn_IfID c =? 0) "IfID must be non-zero" in
  try _ := fail_if (negb (forallb proposalRE (cn_IKEProposals c ++ cn_ESPProposals c))) "proposal" in
  try _ := fail_if (cn_DPDDelay c <? 0) "DPDDelay must not be negative" in
  fail_if (negb (String.eqb (cn_Start c) "" || String.eqb (cn_Start c) StartNone || String.eqb (cn_Start c) StartStart))
    "unknown start action".

(** ** Names of CHILD_SAs *)

Definition ChildName (conn : string) (epoch : Z) : string := conn +:+ "-e" +:+ FormatUint epoch.

(** [strings.LastIndex(s, "-e")], as the text before it and the text after it. *)
Fixpoint cut_last (s : list Ascii.ascii) : option (list Ascii.ascii * list Ascii.ascii) :=
  match s with
  | [] => None
  | c :: s' =>
      match cut_last s' with
      | Some (b, a) => Some (c :: b, a)
      | None =>
          match s' with
          | d :: s'' => if Ascii.eqb c "-"%char && Ascii.eqb d "e"%char then Some ([], s'') else None
          | [] => None
          end
      end
  end.

Definition ParseChildName (child : string) : option (string * Z) :=
  match cut_last (String.list_ascii_of_string child) with
  | None => None
  | Some ([], _) => None
  | Some (_, []) => None
  | Some (conn, d :: ds) =>
      if Ascii.eqb d "+"%char || Ascii.eqb d "-"%char || ((0 <? length ds)%nat && Ascii.eqb d "0"%char) then None
      else match ParseUint 64 (String.string_of_list_ascii (d :: ds)) with
           | Some e => Some (String.string_of_list_ascii conn, e)
           | None => None
           end
  end.

(** ** SAs as charon reports them (sa.go) *)

Definition IKEStateEstablished : string := "ESTABLISHED".
Definition ChildStateInstalled : string := "INSTALLED".

Record ChildSA := mkChildSA {
  ch_Name : string; ch_UniqueID : Z; ch_State : string; ch_Mode : string; ch_Protocol : string;
  ch_SPIIn : string; ch_SPIOut : string; ch_IfIDIn : Z; ch_IfIDOut : Z; ch_EncrAlg : string;
  ch_BytesIn : Z; ch_PacketsIn : Z; ch_BytesOut : Z; ch_PacketsOut : Z; ch_InstalledFor : Duration;
  ch_LocalTS : list string; ch_RemoteTS : list string;
}.
Record IKESA := mkIKESA {
  sa_Name : string; sa_UniqueID : Z; sa_State : string; sa_LocalHost : string; sa_RemoteHost : string;
  sa_LocalID : string; sa_RemoteID : string; sa_Initiator : bool; sa_EncrAlg : string; sa_PRFAlg : string;
  sa_DHGroup : string; sa_EstablishedFor : Duration; sa_Children : list ChildSA;
}.

Definition Warm (s : IKESA) : bool :=
  String.eqb (sa_State s) IKEStateEstablished
  && existsb (λ c, String.eqb (ch_State c) ChildStateInstalled) (sa_Children s).

Definition find_ike_step (name : string) (best : option IKESA) (s : IKESA) : option IKESA :=
  if String.eqb (sa_Name s) name
     && match best with None => true | Some b => sa_UniqueID s >? sa_UniqueID b end
  then Some s else best.
Definition FindIKE (sas : list IKESA) (name : string) : option IKESA :=
  fold_left (find_ike_step name) sas None.

(** ** ike.go *)

Record SharedSecret := mkSecret { ss_ID : string; ss_PSK : string; ss_Owners : list string }.
#[export] Instance SharedSecret_eq_dec : EqDecision SharedSecret.
Proof. solve_decision. Defined.

Definition secret_Validate (s : SharedSecret) : res error () :=
  try _ := fail_if (negb (idRE (ss_ID s))) "shared secret id" in
  try _ := validatePSK ("shared secret " +:+ ss_ID s) (ss_PSK s) in
  try _ := fail_if (length (ss_Owners s) =? 0)%nat "no owners" in
  fail_if (negb (forallb (λ o, String.eqb o AnyID || idRE o) (ss_Owners s))) "owner".

Inductive EventKind := EventIKEUpDown | EventChildUpDown | EventResync.
Record Event := mkEvent { ev_Kind : EventKind; ev_Up : bool; ev_IKE : option IKESA }.

(** ** Lemmas: the last separator of a name *)

Definition no_dash (s : list ascii) : Prop := Forall (λ c, c ≠ "-"%char) s.

Lemma cut_last_None s : no_dash s → cut_last s = None.
Proof.
  induction 1 as [|c s Hc Hs IH]; [done|]. cbn [cut_last]. rewrite IH.
  destruct s; [done|]. by rewrite (proj2 (Ascii.eqb_neq _ _) Hc).
Qed.

Lemma cut_last_app b a : no_dash a → cut_last (b ++ ["-"%char; "e"%char] ++ a) = Some (b, a).
Proof.
  intros Ha. induction b as [|c b IH].
  - cbn [app]. set (l := "e"%char :: a).
    assert (cut_last l = None) as Hl by (apply cut_last_None; by constructor).
    by cbn [cut_last]; rewrite Hl.
  - change (cut_last (c :: (b ++ ["-"%char; "e"%char] ++ a)) = Some (c :: b, a)).
    cbn [cut_last]. by rewrite IH.
Qed.

Lemma cut_last_inv s b a : cut_last s = Some (b, a) → s = b ++ ["-"%char; "e"%char] ++ a.
Proof.
  revert b a. induction s as [|c s IH]; intros b a; [done|]. cbn [cut_last].
  destruct (cut_last s) as [[b' a']|].
  - intros [= <- <-]. by rewrite (IH b' a').
  - destruct s as [|d s]; [done|]. destruct (_ && _) eqn:E; [|done]. intros [= <- <-].
    by apply andb_true_iff in E as [->%Ascii.eqb_eq ->%Ascii.eqb_eq].
Qed.

Lemma list_ascii_app a b :
  String.list_ascii_of_string (a +:+ b) = String.list_ascii_of_string a ++ String.list_ascii_of_string b.
Proof. induction a as [|c a IH]; [done|]. by apply (f_equal (cons c)). Qed.

Lemma string_of_list_ascii_app a b :
  String.string_of_list_ascii (a ++ b) = String.string_of_list_ascii a +:+ String.string_of_list_ascii b.
Proof. induction a as [|c a IH]; [done|]. by apply (f_equal (String c)). Qed.

(** ** Lemmas: canonical numerals *)

Lemma digit_char_code d : 0 ≤ d < 10 → code (digit_char d) = 48 + d.
Proof. intros. unfold code, digit_char. rewrite Ascii.nat_ascii_embedding; lia. Qed.

Lemma code_inj a b : code a = code b → a = b.
Proof.
  unfold code. intros H%Nat2Z.inj.
  by rewrite <- (Ascii.ascii_nat_embedding a), <- (Ascii.ascii_nat_embedding b), H.
Qed.

Lemma char_digit_Some c d : char_digit c = Some d → c = digit_char d ∧ 0 ≤ d < 10.
Proof.
  unfold char_digit. fold (code c). destruct (_ && _) eqn:E; [|done]. intros [= <-]. zbool.
  split; [|lia]. apply code_inj. rewrite digit_char_code; lia.
Qed.

Lemma char_digit_no_dash c d : char_digit c = Some d → c ≠ "-"%char.
Proof. by intros H ->. Qed.

Lemma format_digits_lead fuel n c cs :
  0 ≤ n < 10 ^ Z.of_nat fuel → format_digits fuel n = c :: cs → c = "0"%char → cs = [].
Proof.
  revert n c cs. induction fuel as [|fuel IH]; intros n c cs Hn; cbn [format_digits]; [done|].
  rewrite Nat2Z.inj_succ, Z.pow_succ_r in Hn by lia.
  destruct (Z.ltb_spec n 10); [by intros [= _ <-]|].
  assert (0 < n / 10 < 10 ^ Z.of_nat fuel) as Hd.
  { split; [apply Z.div_str_pos; lia|apply Z.div_lt_upper_bound; lia]. }
  destruct (format_digits fuel (n / 10)) as [|c' cs'] eqn:E.
  - assert (fuel = O) as ->. { destruct fuel; [done|]. by apply format_digits_ne in E; [|lia]. }
    change (10 ^ Z.of_nat 0) with 1 in Hd. lia.
  - intros [= <- _] ->. exfalso. destruct fuel as [|fuel]; [done|].
    pose proof (IH (n / 10) _ _ ltac:(lia) E eq_refl) as ->.
    pose proof (parse_format_digits (S fuel) (n / 10) ltac:(lia)) as Hp. rewrite E in Hp.
    change (Some 0 = Some (n / 10)) in Hp. injection Hp. lia.
Qed.

Lemma parse_step_None ds : fold_left parse_step ds None = None.
Proof. by induction ds. Qed.

Lemma parse_digits_format ds acc n f :
  0 < acc → fold_left parse_step ds (Some acc) = Some n → (0 < f)%nat →
  acc < 10 ^ Z.of_nat f →
  format_digits (f + length ds) n = format_digits f acc ++ ds ∧ 0 < n < 10 ^ Z.of_nat (f + length ds).
Proof.
  revert acc n f. induction ds as [|c ds IH]; intros acc n f Hacc Hn Hf Hb; cbn [fold_left length] in *.
  - simplify_eq. rewrite Nat.add_0_r, app_nil_r. done.
  - unfold parse_step in Hn at 2. destruct (char_digit c) as [d|] eqn:Ed; [|by rewrite parse_step_None in Hn].
    apply char_digit_Some in Ed as [-> Hd].
    assert (10 ^ Z.of_nat (S f) = 10 * 10 ^ Z.of_nat f) as Hp by (rewrite Nat2Z.inj_succ, Z.pow_succ_r; lia).
    destruct (IH (acc * 10 + d) n (S f)) as [Hfmt ?]; [lia|done|lia|lia|].
    replace (f + S (length ds))%nat with (S f + length ds)%nat by lia.
    split; [|done]. rewrite Hfmt. cbn [format_digits].
    destruct (Z.ltb_spec (acc * 10 + d) 10); [lia|].
    replace ((acc * 10 + d) / 10) with acc by (apply Z.div_unique with d; lia).
    replace ((acc * 10 + d) mod 10) with d by (apply Z.mod_unique with acc; lia).
    by rewrite <- app_assoc.
Qed.

(** Below [10^f], more fuel prints the same digits. *)
Lemma format_digits_fuel f k n : 0 ≤ n < 10 ^ Z.of_nat f → (0 < f)%nat → format_digits (f + k) n = format_digits f n.
Proof.
  revert n. induction f as [|f IH]; intros n Hn Hf; [lia|]. cbn [Nat.add format_digits].
  rewrite Nat2Z.inj_succ, Z.pow_succ_r in Hn by lia. destruct (Z.ltb_spec n 10); [done|].
  assert (0 < n / 10 < 10 ^ Z.of_nat f).
  { split; [apply Z.div_str_pos; lia|apply Z.div_lt_upper_bound; lia]. }
  rewrite IH; [done|lia|]. destruct f; [|lia]. change (10 ^ Z.of_nat 0) with 1 in *. lia.
Qed.

Lemma pow10_mono a b : (a ≤ b)%nat → 10 ^ Z.of_nat a ≤ 10 ^ Z.of_nat b.
Proof. intros. apply Z.pow_le_mono_r; lia. Qed.

(** A numeral without a leading zero is the one [FormatUint] prints. *)
Lemma FormatUint_ParseUint d ds e :
  Ascii.eqb d "0" && (0 <? length ds)%nat = false →
  ParseUint 64 (String.string_of_list_ascii (d :: ds)) = Some e →
  is_u64 e ∧ FormatUint e = String.string_of_list_ascii (d :: ds).
Proof.
  intros Hz. unfold ParseUint. rewrite String.list_ascii_of_string_of_list_ascii. cbn [fold_left].
  unfold parse_step at 2. destruct (char_digit d) as [v|] eqn:Ed; [|by rewrite parse_step_None].
  apply char_digit_Some in Ed as [-> Hv]. change (0 * 10 + v) with v.
  destruct (fold_left parse_step ds (Some v)) as [n|] eqn:En; [|done].
  destruct (Z.ltb_spec n (2 ^ 64)) as [Hlt|]; [|done]. intros [= <-].
  unfold FormatUint. destruct (decide (v = 0)) as [->|Hnz].
  - destruct ds as [|c ds]; [|by apply andb_false_iff in Hz as [?|?]].
    cbn in En. simplify_eq. by split.
  - destruct (parse_digits_format ds v n 1) as [Hf [Hpos Hle]]; [lia|done|lia|cbn; lia|].
    split; [unfold fits; lia|]. f_equal.
    replace (format_digits 1 v) with [digit_char v] in Hf
      by (cbn; destruct (Z.ltb_spec v 10); [done|lia]).
    change (digit_char v :: ds) with ([digit_char v] ++ ds). rewrite <- Hf.
    destruct (decide (1 + length ds ≤ 20)%nat).
    + replace 20%nat with ((1 + length ds) + (20 - (1 + length ds)))%nat at 1 by lia.
      apply format_digits_fuel; lia.
    + replace (1 + length ds)%nat with (20 + (1 + length ds - 20))%nat by lia.
      symmetry. apply format_digits_fuel; [|lia]. split; [lia|].
      eapply Z.lt_le_trans; [apply Hlt|]. by apply Z.leb_le; vm_compute.
Qed.

Lemma ChildName_parse s conn epoch :
  ParseChildName s = Some (conn, epoch) ↔ conn ≠ ""%string ∧ is_u64 epoch ∧ s = ChildName conn epoch.
Proof.
  unfold ParseChildName. split.
  - destruct (cut_last _) as [[[|b bs] [|a as_]]|] eqn:E; try done.
    apply cut_last_inv in E. destruct (_ || _) eqn:Ez; [done|]. zbool.
    destruct (ParseUint _ _) as [e|] eqn:Ep; [|done]. intros [= <- <-].
    apply FormatUint_ParseUint in Ep as [He Hf]; [|by rewrite andb_comm].
    split_and!; [done..|]. unfold ChildName. rewrite Hf.
    rewrite <- (String.string_of_list_ascii_of_string s), E, !string_of_list_ascii_app. done.
  - intros (Hne & He & ->). unfold ChildName. rewrite !list_ascii_app.
    assert (Forall (λ c, ∃ d, char_digit c = Some d) (format_digits 20 epoch)) as Hd.
    { apply format_digits_digits. unfold fits in He. lia. }
    pose proof (Parse_FormatUint epoch He) as Hp. unfold FormatUint in Hp |- *.
    rewrite String.list_ascii_of_string_of_list_ascii.
    change (String.list_ascii_of_string "-e") with ["-"%char; "e"%char].
    rewrite cut_last_app by (eapply Forall_impl; [done|]; intros c [? ?]; eauto using char_digit_no_dash).
    destruct conn as [|c conn]; [done|]. cbn [String.list_ascii_of_string].
    destruct (format_digits 20 epoch) as [|d ds] eqn:E; [by apply format_digits_ne in E; [|lia]|].
    apply Forall_cons in Hd as [[v Hv] _].
    assert (Ascii.eqb d "+" = false) as -> by (apply Ascii.eqb_neq; by intros ->).
    assert (Ascii.eqb d "-" = false) as -> by (apply Ascii.eqb_neq; by intros ->). cbn [orb].
    destruct (Ascii.eqb_spec d "0") as [->|].
    + apply format_digits_lead in E; [|unfold fits in He; lia|done]. subst. cbn [length Nat.ltb Nat.leb andb].
      rewrite Hp. cbn. by rewrite String.string_of_list_ascii_of_string.
    + rewrite andb_false_r, Hp. cbn. by rewrite String.string_of_list_ascii_of_string.
Qed.

(** The epoch of a CHILD_SA is read back from its name: [ParseChildName]
    accepts exactly the names [ChildName] makes of a non-empty connection name
    and a uint64 epoch, and returns both. *)
Theorem ChildName_roundtrip s conn epoch :
  ParseChildName s = Some (conn, epoch) ↔ conn ≠ ""%string ∧ is_u64 epoch ∧ s = ChildName conn epoch.
Proof. apply ChildName_parse. Qed.
