(* ===== verification/IpsecRender.v ===== *)
(** * The rendered configuration: Render of internal/ipsec/config.go

    [Render] prints a set of connections as a swanctl.conf. The theorems: the
    file does not depend on the order of the connections, and read back by a
    reader of that syntax it holds exactly their settings, so that no field can
    smuggle in a line or a section. *)

From Stdlib Require Import Ascii.
From S2P Require Import Prelude Netip IpsecConfig.

(** ** netip.Addr.String and netip.Prefix.String *)

Definition hex_char (d : Z) : Ascii.ascii :=
  if d <? 10 then digit_char d else Ascii.ascii_of_nat (87 + Z.to_nat d).
(** A 16-bit field in hex without leading zeros. *)
Definition hex_field (x : Z) : string :=
  let ds := [x / 4096 mod 16; x / 256 mod 16; x / 16 mod 16; x mod 16] in
  let fix strip ds := match ds with [d] => [d] | d :: ds' => if d =? 0 then strip ds' else d :: ds' | [] => [] end in
  String.string_of_list_ascii (hex_char <$> strip ds).

Definition string4 (v : Z) : string :=
  FormatUint (v / 2 ^ 24 mod 256) +:+ "." +:+ FormatUint (v / 2 ^ 16 mod 256) +:+ "."
  +:+ FormatUint (v / 2 ^ 8 mod 256) +:+ "." +:+ FormatUint (v mod 256).

(** Field [i] of the eight, most significant first. *)
Definition field6 (v : Z) (i : nat) : Z := Z.shiftr v (16 * (7 - Z.of_nat i)) mod 65536.

(** The first longest run of zero fields: fields [zeroStart, zeroEnd). *)
Fixpoint zero_run (v : Z) (fuel j : nat) : nat :=
  match fuel with
  | O => j
  | S fuel => if (j <? 8)%nat && (field6 v j =? 0) then zero_run v fuel (S j) else j
  end.
Fixpoint zero_scan (v : Z) (fuel i : nat) (best : nat * nat) : nat * nat :=
  match fuel with
  | O => best
  | S fuel =>
      if (8 <=? i)%nat then best else
      let j := zero_run v 8 i in
      let l := (j - i)%nat in
      let best := if (2 <=? l)%nat && (best.2 - best.1 <? l)%nat then (i, j) else best in
      zero_scan v fuel (S i) best
  end.

Fixpoint print6 (v : Z) (zeroStart zeroEnd : nat) (fuel i : nat) : string :=
  match fuel with
  | O => ""
  | S fuel =>
      if (8 <=? i)%nat then "" else
      if (i =? zeroStart)%nat && (zeroStart <? zeroEnd)%nat then
        "::" +:+ (if (8 <=? zeroEnd)%nat then ""
                  else hex_field (field6 v zeroEnd) +:+ print6 v zeroStart zeroEnd fuel (S zeroEnd))
      else (if (0 <? i)%nat then ":" else "") +:+ hex_field (field6 v i) +:+ print6 v zeroStart zeroEnd fuel (S i)
  end.
Definition string6 (v : Z) : string :=
  let '(zs, ze) := zero_scan v 8 0 (255%nat, 255%nat) in print6 v zs ze 8 0.

Definition addr_String (a : Addr) : string :=
  match a with
  | AddrInvalid => "invalid IP"
  | Addr4 v => string4 v
  | Addr6 v => if Is4In6 a then "::ffff:" +:+ string4 v else string6 v
  end.
Definition za_String (a : ZAddr) : string :=
  if String.eqb (za_Zone a) "" then addr_String (za_Addr a)
  else addr_String (za_Addr a) +:+ "%" +:+ za_Zone a.
Definition pf_String (p : Prefix) : string :=
  if pf_IsValid p then addr_String (pf_Addr p) +:+ "/" +:+ FormatUint (pf_Bits p) else "invalid Prefix".

(** ** [Render] *)

Fixpoint join (sep : string) (l : list string) : string :=
  match l with [] => "" | [s] => s | s :: l => s +:+ sep +:+ join sep l end.

Definition joinPrefixes (ps : list Prefix) : string := join "," ((λ p, pf_String (Masked p)) <$> ps).

Definition ceilSeconds (d : Duration) : Z :=
  let s := Z.quot d Second in if negb (Z.rem d Second =? 0) then i64 (s + 1) else s.

Definition hex_EncodeToString (s : string) : string :=
  String.string_of_list_ascii
    (flat_map (λ c, [hex_char (code c / 16); hex_char (code c mod 16)]) (String.list_ascii_of_string s)).

(** One written line, without its newline. *)
Definition kv (indent : string) (key value : string) : string := indent +:+ key +:+ " = " +:+ value.

(** The lines [renderConnection] writes. *)
Definition renderConnection (c : Connection) : list string :=
  let ike := match cn_IKEProposals c with [] => DefaultIKEProposals | l => l end in
  let esp := match cn_ESPProposals c with [] => DefaultESPProposals | l => l end in
  let start := if String.eqb (cn_Start c) "" then StartNone else cn_Start c in
  ["  " +:+ cn_Name c +:+ " {"; "    version = 2"]%string
  ++ (if za_IsValid (cn_LocalAddr c) then [kv "    " "local_addrs" (za_String (cn_LocalAddr c))] else [])
  ++ [kv "    " "remote_addrs" (if za_IsValid (cn_RemoteAddr c) then za_String (cn_RemoteAddr c) else "%any")]
  ++ [kv "    " "proposals" (join "," ike)]
  ++ (if cn_DPDDelay c >? 0 then [kv "    " "dpd_delay" (FormatUint (ceilSeconds (cn_DPDDelay c)) +:+ "s")] else [])
  ++ ["    local {"%string; kv "      " "auth" (cn_Auth c); kv "      " "id" (cn_LocalID c)]
  ++ (if String.eqb (cn_Auth c) AuthPubkey then [kv "      " "pubkeys" (cn_LocalPubkey c)] else [])
  ++ ["    }"%string; "    remote {"%string; kv "      " "auth" (cn_Auth c); kv "      " "id" (cn_RemoteID c)]
  ++ (if String.eqb (cn_Auth c) AuthPubkey then [kv "      " "pubkeys" (cn_RemotePubkey c)] else [])
  ++ ["    }"%string; "    children {"%string; "      " +:+ ChildName (cn_Name c) (cn_Epoch c) +:+ " {"]
  ++ [kv "        " "local_ts" (joinPrefixes (cn_LocalTS c)); kv "        " "remote_ts" (joinPrefixes (cn_RemoteTS c));
      kv "        " "esp_proposals" (join "," esp); "        mode = tunnel"%string;
      kv "        " "if_id_in" (FormatUint (cn_IfID c)); kv "        " "if_id_out" (FormatUint (cn_IfID c));
      kv "        " "start_action" start]
  ++ (if cn_DPDDelay c >? 0 then ["        dpd_action = clear"%string] else [])
  ++ ["      }"; "    }"; "  }"]%string.

Definition renderSecret (c : Connection) : list string :=
  ["  ike-" +:+ cn_Name c +:+ " {"; kv "    " "id-1" (cn_LocalID c); kv "    " "id-2" (cn_RemoteID c);
   kv "    " "secret" ("0x" +:+ hex_EncodeToString (cn_PSK c)); "  }"%string].

(** The loop that validates and looks for equal neighbours. *)
Fixpoint render_check (prev : option string) (l : list Connection) : res error () :=
  match l with
  | [] => Ok ()
  | c :: l =>
      try _ := Validate c in
      if bool_decide (prev = Some (cn_Name c)) then Err (ErrText "duplicate connection name")
      else render_check (Some (cn_Name c)) l
  end.
Fixpoint render_ifids (seen : gmap Z string) (l : list Connection) : res error () :=
  match l with
  | [] => Ok ()
  | c :: l =>
      match seen !! cn_IfID c with
      | Some _ => Err (ErrText "connections share if_id")
      | None => render_ifids (<[cn_IfID c := cn_Name c]> seen) l
      end
  end.

Definition is_psk (c : Connection) : bool := String.eqb (cn_Auth c) AuthPSK.

Definition render_lines (sorted : list Connection) : list string :=
  ["# Generated by egressa (internal/ipsec). Do not edit by hand."; "connections {"]%string
  ++ flat_map renderConnection sorted ++ ["}"%string]
  ++ (match List.filter is_psk sorted with
      | [] => []
      | psk => ["secrets {"%string] ++ flat_map renderSecret psk ++ ["}"%string]
      end).

Definition newline : string := String (Ascii.ascii_of_nat 10) "".
Definition unlines (l : list string) : string := String.concat "" ((λ s, s +:+ newline) <$> l).

(** [sort.Slice] is not stable: among connections of one name the order is not
    fixed, but then [render_check] fails whatever it is. *)
Definition Render (conns : list Connection) : res error string :=
  let sorted := merge_sort (le_by cn_Name) conns in
  try _ := render_check None sorted in
  try _ := render_ifids ∅ sorted in
  Ok (unlines (render_lines sorted)).

(** ** What a file holds *)

(** Settings and named sections, nested. *)
Inductive conf :=
| Setting (key value : string)
| Sect (name : string) (body : list conf).

Definition opt {A} (b : bool) (x : A) : list A := if b then [x] else [].

Definition conn_conf (c : Connection) : conf :=
  let ike := match cn_IKEProposals c with [] => DefaultIKEProposals | l => l end in
  let esp := match cn_ESPProposals c with [] => DefaultESPProposals | l => l end in
  let side id key :=
    [Setting "auth" (cn_Auth c); Setting "id" id] ++ opt (String.eqb (cn_Auth c) AuthPubkey) (Setting "pubkeys" key) in
  Sect (cn_Name c)
    ([Setting "version" "2"]
     ++ opt (za_IsValid (cn_LocalAddr c)) (Setting "local_addrs" (za_String (cn_LocalAddr c)))
     ++ [Setting "remote_addrs" (if za_IsValid (cn_RemoteAddr c) then za_String (cn_RemoteAddr c) else "%any");
         Setting "proposals" (join "," ike)]
     ++ opt (cn_DPDDelay c >? 0) (Setting "dpd_delay" (FormatUint (ceilSeconds (cn_DPDDelay c)) +:+ "s"))
     ++ [Sect "local" (side (cn_LocalID c) (cn_LocalPubkey c)); Sect "remote" (side (cn_RemoteID c) (cn_RemotePubkey c));
         Sect "children" [Sect (ChildName (cn_Name c) (cn_Epoch c))
           ([Setting "local_ts" (joinPrefixes (cn_LocalTS c)); Setting "remote_ts" (joinPrefixes (cn_RemoteTS c));
             Setting "esp_proposals" (join "," esp); Setting "mode" "tunnel";
             Setting "if_id_in" (FormatUint (cn_IfID c)); Setting "if_id_out" (FormatUint (cn_IfID c));
             Setting "start_action" (if String.eqb (cn_Start c) "" then StartNone else cn_Start c)]
            ++ opt (cn_DPDDelay c >? 0) (Setting "dpd_action" "clear"))]]).

Definition secret_conf (c : Connection) : conf :=
  Sect ("ike-" +:+ cn_Name c)
    [Setting "id-1" (cn_LocalID c); Setting "id-2" (cn_RemoteID c);
     Setting "secret" ("0x" +:+ hex_EncodeToString (cn_PSK c))].

Definition file_conf (cs : list Connection) : list conf :=
  Sect "connections" (conn_conf <$> cs)
  :: (match List.filter is_psk cs with [] => [] | psk => [Sect "secrets" (secret_conf <$> psk)] end).

(** ** A reader of the syntax: one opening, closing or setting a line *)

Inductive line := LOpen (name : string) | LClose | LSetting (key value : string) | LComment | LBad.

Fixpoint trim (l : list ascii) : list ascii :=
  match l with c :: l' => if Ascii.eqb c " " then trim l' else l | [] => [] end.

(** The text before and after the first " = ". *)
Fixpoint cut_eq (l : list ascii) : option (list ascii * list ascii) :=
  match l with
  | a :: ((b :: c :: l'') as l') =>
      if Ascii.eqb a " " && Ascii.eqb b "=" && Ascii.eqb c " " then Some ([], l'')
      else match cut_eq l' with Some (x, y) => Some (a :: x, y) | None => None end
  | _ => None
  end.

Definition str := String.string_of_list_ascii.
Definition chars := String.list_ascii_of_string.

Definition read_line (l : list ascii) : line :=
  match trim l with
  | [] => LBad
  | c :: l' =>
      if Ascii.eqb c "#" then LComment
      else if Ascii.eqb c "}" then match l' with [] => LClose | _ => LBad end
      else match rev (c :: l') with
           | b :: s :: name => if Ascii.eqb b "{" && Ascii.eqb s " " then LOpen (str (rev name))
                               else match cut_eq (c :: l') with Some (k, v) => LSetting (str k) (str v) | None => LBad end
           | _ => LBad
           end
  end.

Fixpoint split_lines (cur : list ascii) (s : list ascii) : list (list ascii) :=
  match s with
  | [] => match cur with [] => [] | _ => [rev cur] end
  | c :: s => if Ascii.eqb c (Ascii.ascii_of_nat 10) then rev cur :: split_lines [] s else split_lines (c :: cur) s
  end.

Fixpoint parse_lines (ls : list (list ascii)) (cur : list conf) (stack : list (string * list conf)) : option (list conf) :=
  match ls with
  | [] => match stack with [] => Some cur | _ => None end
  | l :: ls =>
      match read_line l with
      | LComment => parse_lines ls cur stack
      | LOpen n => parse_lines ls [] ((n, cur) :: stack)
      | LClose => match stack with (n, outer) :: stack => parse_lines ls (outer ++ [Sect n cur]) stack | [] => None end
      | LSetting k v => parse_lines ls (cur ++ [Setting k v]) stack
      | LBad => None
      end
  end.

Definition parse_conf (s : string) : option (list conf) := parse_lines (split_lines [] (chars s)) [] [].

(** ** Reading what was printed *)

Lemma conf_rect' (P : conf → Prop) :
  (∀ k v, P (Setting k v)) → (∀ n b, Forall P b → P (Sect n b)) → ∀ t, P t.
Proof.
  intros HS HB. fix IH 1. intros [k v|n b]; [apply HS|]. apply HB.
  induction b; constructor; [apply IH|done].
Qed.

Definition is_newline (c : ascii) : bool := Ascii.eqb c (Ascii.ascii_of_nat 10).
(** Characters that mean nothing to the reader. *)
Definition safe (c : ascii) : bool := negb (one_of " {}#=" c) && negb (is_newline c).
Definition safe_str (s : string) : bool := negb (String.eqb s "") && all_chars safe s.

Fixpoint wf_conf (t : conf) : bool :=
  match t with
  | Setting k v => safe_str k && safe_str v
  | Sect n b => safe_str n && forallb wf_conf b
  end.

Fixpoint print (ind : string) (t : conf) : list string :=
  match t with
  | Setting k v => [kv ind k v]
  | Sect n b => [ind +:+ n +:+ " {"] ++ flat_map (print (ind +:+ "  ")) b ++ [ind +:+ "}"]
  end.

Definition spaces (s : string) : Prop := Forall (λ c, c = " "%char) (chars s).

Lemma chars_app a b : chars (a +:+ b) = chars a ++ chars b.
Proof. apply list_ascii_app. Qed.
Lemma str_chars s : str (chars s) = s.
Proof. apply String.string_of_list_ascii_of_string. Qed.

#[export] Instance chars_inj : Inj (=) (=) chars.
Proof. intros a b H. by rewrite <- (str_chars a), <- (str_chars b), H. Qed.

Lemma trim_spaces a l : Forall (λ c, c = " "%char) a → trim (a ++ l) = trim l.
Proof. by induction 1 as [|c a -> Ha IH]. Qed.

Lemma safe_spec c : safe c = true →
  c ≠ " "%char ∧ c ≠ "{"%char ∧ c ≠ "}"%char ∧ c ≠ "#"%char ∧ c ≠ "="%char ∧ is_newline c = false.
Proof.
  unfold safe. intros [H1 H2]%andb_true_iff. apply negb_true_iff in H1, H2.
  split_and!; [intros ->; by cbn in H1..|done].
Qed.

Lemma safe_str_spec s : safe_str s = true → ∃ c l, chars s = c :: l ∧ Forall (λ c, safe c = true) (c :: l).
Proof.
  unfold safe_str, all_chars. intros [H1 H2]%andb_true_iff. destruct s as [|c s]; [done|].
  exists c, (chars s). split; [done|]. rewrite Forall_forall. intros x Hx.
  eapply forallb_forall in H2; [done|]. apply list_elem_of_In. exact Hx.
Qed.

Lemma cut_eq_app k v : Forall (λ c, safe c = true) k → cut_eq (k ++ chars " = " ++ v) = Some (k, v).
Proof.
  induction 1 as [|c k Hc Hk IH]; [by destruct v|].
  apply safe_spec in Hc as (Hsp & _).
  change ((c :: k) ++ chars " = " ++ v) with (c :: (k ++ chars " = " ++ v)).
  destruct (k ++ chars " = " ++ v) as [|b [|d l]] eqn:E.
  1,2: apply (f_equal length) in E; rewrite length_app in E; cbn in E; lia.
  cbn [cut_eq]. rewrite (proj2 (Ascii.eqb_neq _ _) Hsp). cbn [andb].
  cbn [cut_eq] in IH. by rewrite IH.
Qed.

Lemma read_setting ind k v :
  spaces ind → safe_str k = true → safe_str v = true → read_line (chars (kv ind k v)) = LSetting k v.
Proof.
  intros Hi Hk Hv. unfold kv, read_line. rewrite !chars_app, trim_spaces by done.
  rewrite <- (str_chars k) at 2. rewrite <- (str_chars v) at 2.
  apply safe_str_spec in Hk as (ck & lk & -> & Hk). apply safe_str_spec in Hv as (cv & lv & -> & Hv).
  assert (trim ((ck :: lk) ++ chars " = " ++ cv :: lv) = (ck :: lk) ++ chars " = " ++ cv :: lv) as ->.
  { apply Forall_cons in Hk as [(Hsp & _)%safe_spec _]. cbn [app trim].
    by rewrite (proj2 (Ascii.eqb_neq _ _) Hsp). }
  pose proof (cut_eq_app _ (cv :: lv) Hk) as Hcut.
  assert (rev ((ck :: lk) ++ chars " = " ++ cv :: lv) = rev (cv :: lv) ++ rev ((ck :: lk) ++ chars " = ")) as Hrev.
  { by rewrite (app_assoc (ck :: lk)), rev_app_distr. }
  apply Forall_cons in Hk as [(? & ? & ? & ? & ? & ?)%safe_spec _].
  change ((ck :: lk) ++ chars " = " ++ cv :: lv) with (ck :: (lk ++ chars " = " ++ cv :: lv)) in *.
  cbn match. rewrite !(proj2 (Ascii.eqb_neq _ _)) by done.
  rewrite Hrev. destruct (rev (cv :: lv)) as [|x xs] eqn:Ex.
  { apply (f_equal length) in Ex. rewrite length_rev in Ex. done. }
  assert (x ≠ "{"%char) as Hx.
  { assert (x ∈ cv :: lv) as Hin by (apply list_elem_of_In, in_rev; rewrite Ex; by left).
    rewrite Forall_forall in Hv. by apply Hv, safe_spec in Hin as (_ & ? & _). }
  change ((x :: xs) ++ rev ((ck :: lk) ++ chars " = ")) with (x :: (xs ++ rev ((ck :: lk) ++ chars " = "))).
  destruct (xs ++ rev ((ck :: lk) ++ chars " = ")) as [|y ys] eqn:Ey.
  { apply (f_equal length) in Ey. rewrite length_app, length_rev, length_app in Ey. cbn in Ey. lia. }
  cbn match. rewrite (proj2 (Ascii.eqb_neq _ _) Hx). cbn [andb]. by rewrite Hcut.
Qed.

Lemma read_open ind n : spaces ind → safe_str n = true → read_line (chars (ind +:+ n +:+ " {")) = LOpen n.
Proof.
  intros Hi Hn. unfold read_line. rewrite !chars_app, trim_spaces by done.
  rewrite <- (str_chars n) at 2. apply safe_str_spec in Hn as (c & l & -> & Hn).
  apply Forall_cons in Hn as [(H1 & H2 & H3 & H4 & H5 & H6)%safe_spec _].
  cbn [app trim]. rewrite !(proj2 (Ascii.eqb_neq _ _)) by done.
  change (c :: l ++ chars " {") with ((c :: l) ++ chars " {"). rewrite rev_app_distr.
  change (rev (chars " {") ++ rev (c :: l)) with ("{"%char :: " "%char :: rev (c :: l)). cbn match.
  change (LOpen (str (rev (rev (c :: l)))) = LOpen (str (c :: l))). by rewrite (rev_involutive (c :: l)).
Qed.

Lemma read_close ind : spaces ind → read_line (chars (ind +:+ "}")) = LClose.
Proof. intros Hi. unfold read_line. by rewrite chars_app, trim_spaces. Qed.

Lemma spaces_indent ind : spaces ind → spaces (ind +:+ "  ").
Proof. unfold spaces. rewrite chars_app, Forall_app. intros. split; [done|by repeat constructor]. Qed.

(** A printed tree is read back, wherever it stands. *)
Lemma parse_print t : ∀ ind ls cur stack,
  spaces ind → wf_conf t = true →
  parse_lines ((chars <$> print ind t) ++ ls) cur stack = parse_lines ls (cur ++ [t]) stack.
Proof.
  induction t as [k v|n b IH] using conf_rect'; intros ind ls cur stack Hi; cbn [wf_conf print].
  - intros [Hk Hv]%andb_true_iff. cbn. by rewrite read_setting.
  - intros [Hn Hb]%andb_true_iff.
    assert (∀ ls cur stack, parse_lines ((chars <$> flat_map (print (ind +:+ "  ")) b) ++ ls) cur stack
                            = parse_lines ls (cur ++ b) stack) as Hbody.
    { clear ls cur stack. induction IH as [|t b Ht HF IHb]; intros ls cur stack; [by rewrite app_nil_r|].
      cbn [forallb] in Hb. apply andb_true_iff in Hb as [Hwf Hb].
      cbn [flat_map]. rewrite fmap_app, <- app_assoc, Ht by (by auto using spaces_indent).
      rewrite IHb by done. by rewrite <- app_assoc. }
    rewrite !fmap_app, <- !app_assoc. cbn [fmap list_fmap app parse_lines].
    rewrite read_open by done. rewrite Hbody. cbn [app parse_lines]. by rewrite read_close.
Qed.

Lemma parse_prints ts ls cur stack :
  forallb wf_conf ts = true →
  parse_lines ((chars <$> flat_map (print "") ts) ++ ls) cur stack = parse_lines ls (cur ++ ts) stack.
Proof.
  revert ls cur. induction ts as [|t ts IH]; intros ls cur; cbn [forallb flat_map]; [by rewrite app_nil_r|].
  intros [Ht Hts]%andb_true_iff. rewrite fmap_app, <- app_assoc, parse_print by (done || constructor).
  rewrite IH by done. by rewrite <- app_assoc.
Qed.

(** ** Lines *)

Definition one_line (s : string) : Prop := Forall (λ c, is_newline c = false) (chars s).

Lemma one_line_app a b : one_line (a +:+ b) ↔ one_line a ∧ one_line b.
Proof. unfold one_line. by rewrite chars_app, Forall_app. Qed.

Lemma safe_one_line s : safe_str s = true → one_line s.
Proof.
  intros (c & l & Hs & HF)%safe_str_spec. unfold one_line. rewrite Hs.
  eapply Forall_impl; [done|]. by intros x (_ & _ & _ & _ & _ & ?)%safe_spec.
Qed.

Lemma spaces_one_line s : spaces s → one_line s.
Proof. intros H. eapply Forall_impl; [done|]. by intros ? ->. Qed.

Lemma split_lines_line l cur rest :
  Forall (λ c, is_newline c = false) l →
  split_lines cur (l ++ Ascii.ascii_of_nat 10 :: rest) = (rev cur ++ l) :: split_lines [] rest.
Proof.
  intros H. revert cur. induction H as [|c l Hc Hl IH]; intros cur.
  - rewrite app_nil_r. done.
  - cbn [app split_lines]. unfold is_newline in Hc. rewrite Hc, IH. cbn [rev]. by rewrite <- app_assoc.
Qed.

Lemma split_unlines l : Forall one_line l → split_lines [] (chars (unlines l)) = chars <$> l.
Proof.
  unfold unlines. induction 1 as [|s l Hs Hl IH]; [done|].
  assert (String.concat "" ((λ s, s +:+ newline) <$> (s :: l))
          = s +:+ newline +:+ String.concat "" ((λ s, s +:+ newline) <$> l)) as ->.
  { destruct l as [|s' l]; cbn [fmap list_fmap String.concat]; apply (inj chars).
    - by rewrite !chars_app, app_nil_r.
    - by rewrite !chars_app, <- !app_assoc. }
  rewrite !chars_app. change (chars newline) with [Ascii.ascii_of_nat 10]. cbn [app].
  rewrite split_lines_line by done. cbn [rev app fmap list_fmap]. f_equal. apply IH.
Qed.

Lemma print_one_line t : ∀ ind, spaces ind → wf_conf t = true → Forall one_line (print ind t).
Proof.
  induction t as [k v|n b IH] using conf_rect'; intros ind Hi; cbn [wf_conf print].
  - intros [Hk Hv]%andb_true_iff. repeat constructor. unfold kv. rewrite !one_line_app.
    split_and!; eauto using spaces_one_line, safe_one_line. by repeat constructor.
  - intros [Hn Hb]%andb_true_iff. rewrite !Forall_app. split_and!.
    + repeat constructor. rewrite !one_line_app.
      split_and!; eauto using spaces_one_line, safe_one_line. by repeat constructor.
    + induction IH as [|t b Ht HF IHb]; [constructor|]. cbn [forallb flat_map] in *.
      apply andb_true_iff in Hb as [??]. apply Forall_app. auto using spaces_indent.
    + repeat constructor. rewrite one_line_app. split; [auto using spaces_one_line|by repeat constructor].
Qed.

(** ** The settings of a valid connection are safe *)

Lemma safe_app a b : all_chars safe a = true → all_chars safe b = true → all_chars safe (a +:+ b) = true.
Proof. unfold all_chars. rewrite list_ascii_app, forallb_app. by intros -> ->. Qed.

Lemma safe_str_app a b : safe_str a = true → all_chars safe b = true → safe_str (a +:+ b) = true.
Proof.
  unfold safe_str. intros [H1 H2]%andb_true_iff ?. apply andb_true_iff. split; [|by apply safe_app].
  by destruct a.
Qed.

Lemma safe_str_all s : safe_str s = true → all_chars safe s = true.
Proof. unfold safe_str. by intros [_ ?]%andb_true_iff. Qed.

Lemma all_chars_impl (P Q : ascii → bool) s :
  (∀ c, P c = true → Q c = true) → all_chars P s = true → all_chars Q s = true.
Proof.
  intros HPQ. unfold all_chars. rewrite !forallb_forall. eauto.
Qed.

(** Evaluate the code of a literal character. *)
Ltac eval_code :=
  repeat match goal with
  | H : context [code ?c] |- _ => let v := eval vm_compute in (code c) in change (code c) with v in H
  end.

Lemma within_safe lo hi c : within lo hi c = true → (48 ≤ lo ∧ hi ≤ 57 ∨ 64 ≤ lo ∧ hi ≤ 122) → safe c = true.
Proof.
  unfold within. intros [H1 H2]%andb_true_iff. zbool. intros H. unfold safe.
  apply andb_true_iff. split; apply negb_true_iff; [|apply Ascii.eqb_neq; intros ->; eval_code; lia].
  apply not_true_iff_false. unfold one_of. intros (d & Hd & ->%Ascii.eqb_eq)%existsb_exists.
  cbn in Hd. destruct_or!; subst; eval_code; lia || done.
Qed.

Lemma alnum_safe c : alnum c = true → safe c = true.
Proof.
  unfold alnum, lower, upper, digit. intros [[H|H]%orb_true_iff|H]%orb_true_iff; eapply within_safe; try done; lia.
Qed.

Lemma one_of_safe cs c : all_chars safe cs = true → one_of cs c = true → safe c = true.
Proof.
  unfold all_chars, one_of. rewrite forallb_forall. intros H (d & Hd & ->%Ascii.eqb_eq)%existsb_exists. auto.
Qed.

Lemma matchRE_safe first rest n s :
  (∀ c, first c = true → safe c = true) → (∀ c, rest c = true → safe c = true) →
  matchRE first rest n s = true → safe_str s = true.
Proof.
  intros Hf Hr. destruct s as [|c s]; [done|]. cbn. intros [[H1 H2]%andb_true_iff _]%andb_true_iff.
  unfold safe_str, all_chars. cbn. apply Hf in H1. rewrite H1. by eapply all_chars_impl in H2.
Qed.

Lemma nameRE_safe s : nameRE s = true → safe_str s = true.
Proof. apply matchRE_safe; [apply alnum_safe|]. intros c [?|?]%orb_true_iff; [by apply alnum_safe|by eapply (one_of_safe "_-")]. Qed.
Lemma idRE_safe s : idRE s = true → safe_str s = true.
Proof. apply matchRE_safe; [apply alnum_safe|]. intros c [?|?]%orb_true_iff; [by apply alnum_safe|by eapply (one_of_safe "._@:-")]. Qed.
Lemma fileRE_safe s : fileRE s = true → safe_str s = true.
Proof. apply matchRE_safe; [apply alnum_safe|]. intros c [?|?]%orb_true_iff; [by apply alnum_safe|by eapply (one_of_safe "._-")]. Qed.
Lemma lower_digit_alnum c : lower c || digit c = true → alnum c = true.
Proof. unfold alnum. destruct (lower c), (upper c), (digit c); done. Qed.
Lemma proposalRE_safe s : proposalRE s = true → safe_str s = true.
Proof.
  apply matchRE_safe; [intros; by apply alnum_safe, lower_digit_alnum|].
  intros c [?|?]%orb_true_iff; [by apply alnum_safe, lower_digit_alnum|by eapply (one_of_safe "_-")].
Qed.

Lemma safe_str_list l : l ≠ [] → Forall (λ c, safe c = true) l → safe_str (str l) = true.
Proof.
  intros Hne HF. unfold safe_str, all_chars, str. rewrite String.list_ascii_of_string_of_list_ascii.
  apply andb_true_iff. split; [by destruct l|]. apply forallb_forall. rewrite Forall_forall in HF.
  intros x Hx. by apply HF, list_elem_of_In.
Qed.

Lemma digit_char_safe d : d < 10 → safe (digit_char d) = true.
Proof.
  intros Hd. apply within_safe with 48 57; [|lia]. unfold within, code, digit_char.
  rewrite Ascii.nat_ascii_embedding by lia. apply andb_true_iff. split; apply Z.leb_le; lia.
Qed.

Lemma hex_char_safe d : d < 16 → safe (hex_char d) = true.
Proof.
  intros Hd. unfold hex_char. destruct (Z.ltb_spec d 10); [by apply digit_char_safe|].
  apply within_safe with 97 102; [|lia]. unfold within, code.
  rewrite Ascii.nat_ascii_embedding by lia. apply andb_true_iff. split; apply Z.leb_le; lia.
Qed.

Lemma format_digits_safe fuel n : Forall (λ c, safe c = true) (format_digits fuel n).
Proof.
  revert n. induction fuel as [|fuel IH]; intros n; cbn [format_digits]; [constructor|].
  destruct (Z.ltb_spec n 10); [repeat constructor; by apply digit_char_safe|].
  apply Forall_app. split; [apply IH|]. repeat constructor. apply digit_char_safe.
  apply Z.mod_pos_bound. lia.
Qed.

Lemma FormatUint_safe n : safe_str (FormatUint n) = true.
Proof. apply safe_str_list; [by apply format_digits_ne; lia|apply format_digits_safe]. Qed.

Create HintDb safety.
#[export] Hint Resolve FormatUint_safe safe_app safe_str_app safe_str_all nameRE_safe idRE_safe fileRE_safe proposalRE_safe : safety.
#[export] Hint Extern 1 (all_chars safe _ = true) => reflexivity : safety.
#[export] Hint Extern 1 (safe_str _ = true) => reflexivity : safety.

Lemma string4_safe v : safe_str (string4 v) = true.
Proof. unfold string4. auto 12 with safety. Qed.

Lemma hex_field_safe x : safe_str (hex_field x) = true.
Proof.
  unfold hex_field. apply safe_str_list.
  - by repeat case_match.
  - assert (∀ y, y mod 16 < 16) by (intros; apply Z.mod_pos_bound; lia).
    repeat case_match; repeat constructor; by apply hex_char_safe.
Qed.

Lemma print6_safe v zs ze fuel i : all_chars safe (print6 v zs ze fuel i) = true.
Proof.
  revert i. induction fuel as [|fuel IH]; intros i; cbn [print6]; [done|].
  repeat case_match; auto using hex_field_safe with safety.
Qed.

Lemma string6_safe v : safe_str (string6 v) = true.
Proof.
  unfold string6. destruct (zero_scan _ _ _ _) as [zs ze].
  change (print6 v zs ze 8 0) with
    (if (0 =? zs)%nat && (zs <? ze)%nat
     then "::" +:+ (if (8 <=? ze)%nat then "" else hex_field (field6 v ze) +:+ print6 v zs ze 7 (S ze))
     else hex_field (field6 v 0) +:+ print6 v zs ze 7 1).
  repeat case_match; auto using hex_field_safe, print6_safe with safety.
Qed.

Lemma addr_String_safe a : addr_IsValid a = true → safe_str (addr_String a) = true.
Proof.
  destruct a; [done|..]; intros _; cbn [addr_String]; [apply string4_safe|].
  case_match; [|apply string6_safe]. apply safe_str_app; [done|]. apply safe_str_all, string4_safe.
Qed.

Lemma pf_IsValid_Masked p : pf_IsValid p = true → pf_IsValid (Masked p) = true.
Proof.
  unfold pf_IsValid, Masked, addr_Prefix. destruct p as [[|v|v] b]; cbn [pf_Addr pf_Bits addr_IsValid andb]; [done|..];
    intros [H1 H2]%andb_true_iff; zbool; cbn [BitLen] in *;
    (destruct (Z.ltb_spec b 0); [lia|]); (destruct (b >? _) eqn:E; zbool; [lia|]);
    cbn; by apply andb_true_iff; split; apply Z.leb_le.
Qed.

Lemma pf_String_safe p : pf_IsValid p = true → safe_str (pf_String p) = true.
Proof.
  intros Hp. unfold pf_String. rewrite Hp. apply safe_str_app; [|auto with safety].
  apply addr_String_safe. unfold pf_IsValid in Hp. by apply andb_true_iff in Hp as [[??]%andb_true_iff _].
Qed.

Lemma join_safe l : l ≠ [] → Forall (λ s, safe_str s = true) l → safe_str (join "," l) = true.
Proof.
  intros Hne HF. induction HF as [|s l Hs Hl IH]; [done|]. destruct l as [|s' l]; [done|].
  change (join "," (s :: s' :: l)) with (s +:+ "," +:+ join "," (s' :: l)).
  apply safe_str_app; [done|]. apply safe_app; [done|]. by apply safe_str_all, IH.
Qed.

Lemma joinPrefixes_safe ps : ps ≠ [] → forallb pf_IsValid ps = true → safe_str (joinPrefixes ps) = true.
Proof.
  intros Hne Hps. unfold joinPrefixes. apply join_safe; [by destruct ps|].
  rewrite forallb_forall in Hps. apply Forall_fmap, Forall_forall. intros p Hp.
  apply pf_String_safe, pf_IsValid_Masked, Hps. by apply list_elem_of_In.
Qed.

Lemma hex_Encode_safe s : all_chars safe (hex_EncodeToString s) = true.
Proof.
  unfold all_chars, hex_EncodeToString. rewrite String.list_ascii_of_string_of_list_ascii.
  induction (String.list_ascii_of_string s) as [|c l IH]; [done|]. cbn [flat_map app forallb].
  assert (0 ≤ code c < 256) by (unfold code; pose proof (Ascii.nat_ascii_bounded c); lia).
  rewrite !hex_char_safe; [done|apply Z.mod_pos_bound; lia|apply Z.div_lt_upper_bound; lia].
Qed.

(** ** What [Validate] ensures *)

Record valid_conn (c : Connection) : Prop := {
  vc_name : nameRE (cn_Name c) = true;
  vc_zone : za_Zone (cn_LocalAddr c) = "" ∧ za_Zone (cn_RemoteAddr c) = "";
  vc_start : cn_Start c = StartStart → za_IsValid (cn_RemoteAddr c) = true;
  vc_lid : idRE (cn_LocalID c) = true;
  vc_rid : cn_RemoteID c = AnyID ∨ idRE (cn_RemoteID c) = true;
  vc_auth : cn_Auth c = AuthPSK ∨
    cn_Auth c = AuthPubkey ∧ fileRE (cn_LocalPubkey c) = true ∧ fileRE (cn_RemotePubkey c) = true;
  vc_lts : cn_LocalTS c ≠ [] ∧ forallb pf_IsValid (cn_LocalTS c) = true;
  vc_rts : cn_RemoteTS c ≠ [] ∧ forallb pf_IsValid (cn_RemoteTS c) = true;
  vc_ifid : cn_IfID c ≠ 0;
  vc_props : forallb proposalRE (cn_IKEProposals c) = true ∧ forallb proposalRE (cn_ESPProposals c) = true;
  vc_dpd : 0 ≤ cn_DPDDelay c;
  vc_action : cn_Start c = "" ∨ cn_Start c = StartNone ∨ cn_Start c = StartStart;
}.

Lemma Validate_valid c u : Validate c = Ok u → valid_conn c.
Proof.
  unfold Validate. repeat setoid_rewrite res_bind_Ok. rewrite ?fail_if_Ok.
  intros (_ & H1%fail_if_Ok & _ & H2%fail_if_Ok & _ & H3%fail_if_Ok & _ & H4%fail_if_Ok & _ & H5%fail_if_Ok
    & _ & H6%fail_if_Ok & [] & H7 & _ & H8%fail_if_Ok & _ & H9%fail_if_Ok & _ & H10%fail_if_Ok & _ & H11%fail_if_Ok
    & _ & H12%fail_if_Ok & H13).
  rewrite forallb_app in H9, H11. zbool.
  constructor; try done.
  - split; by apply String.eqb_eq.
  - intros E. rewrite E in H2. by apply andb_false_iff in H2 as [?%negb_false_iff|?].
  - apply andb_false_iff in H6 as [?%negb_false_iff%String.eqb_eq|?%negb_false_iff]; auto.
  - destruct (String.eqb_spec (cn_Auth c) AuthPSK); [by left|]. right.
    destruct (String.eqb_spec (cn_Auth c) AuthPubkey); [|done]. apply fail_if_Ok in H7. by zbool.
  - split; [|done]. by destruct (cn_LocalTS c).
  - split; [|done]. by destruct (cn_RemoteTS c).
  - apply fail_if_Ok, negb_false_iff in H13.
    apply orb_true_iff in H13 as [[?%String.eqb_eq|?%String.eqb_eq]%orb_true_iff|?%String.eqb_eq]; auto.
Qed.

Ltac split_bools := repeat match goal with |- (_ && _) = true => apply andb_true_iff; split end.

Lemma conn_conf_wf c : valid_conn c → wf_conf (conn_conf c) = true.
Proof.
  intros [Hn [Hlz Hrz] _ Hl Hr Ha [Hlne Hl2] [Hrne Hr2] _ [Hi He] _ Hst].
  assert (∀ a, za_Zone a = "" → za_IsValid a = true → safe_str (za_String a) = true) as Hza.
  { intros a Hz Hv. unfold za_String. rewrite Hz. by apply addr_String_safe. }
  assert (∀ l d, forallb proposalRE l = true → safe_str (join "," d) = true →
                 safe_str (join "," match l with [] => d | p :: l' => p :: l' end) = true) as Hp.
  { intros l d Hf Hd. destruct l as [|p l']; [done|]. apply join_safe; [done|].
    apply Forall_forall. rewrite forallb_forall in Hf. intros x Hx. by apply proposalRE_safe, Hf, list_elem_of_In. }
  pose proof (Hp _ DefaultIKEProposals Hi eq_refl) as Hpi.
  pose proof (Hp _ DefaultESPProposals He eq_refl) as Hpe.
  assert (safe_str (cn_RemoteID c) = true) as Hrid by (destruct Hr as [->|?]; auto with safety).
  assert (safe_str (cn_Auth c) = true) as Hauth by (by destruct Ha as [->|[-> _]]).
  assert (safe_str (ChildName (cn_Name c) (cn_Epoch c)) = true) as Hch by (unfold ChildName; auto 6 with safety).
  assert (cn_Auth c = AuthPubkey → safe_str (cn_LocalPubkey c) = true ∧ safe_str (cn_RemotePubkey c) = true) as Hpub.
  { intros E. destruct Ha as [Ha|(_ & ? & ?)]; [by rewrite Ha in E|auto with safety]. }
  unfold conn_conf, opt. cbn [wf_conf]. rewrite nameRE_safe by done.
  assert (safe_str (if String.eqb (cn_Start c) "" then StartNone else cn_Start c) = true) as Hact
    by (by destruct Hst as [->|[->| ->]]).
  destruct (String.eqb_spec (cn_Auth c) AuthPubkey) as [Hpk|_]; [destruct (Hpub Hpk)|];
    destruct (za_IsValid (cn_LocalAddr c)) eqn:?, (za_IsValid (cn_RemoteAddr c)) eqn:?, (cn_DPDDelay c >? 0);
    cbn [app forallb wf_conf]; split_bools;
    auto using joinPrefixes_safe with safety.
Qed.

Lemma secret_conf_wf c : valid_conn c → wf_conf (secret_conf c) = true.
Proof.
  intros [Hn _ _ Hl Hr _ _ _ _ _ _ _]. unfold secret_conf. cbn [wf_conf forallb].
  assert (safe_str (cn_RemoteID c) = true) by (destruct Hr as [->|?]; auto with safety).
  split_bools; auto using hex_Encode_safe with safety.
Qed.

(** ** The file as a printed tree *)

Lemma renderConnection_print c : renderConnection c = print "  " (conn_conf c).
Proof.
  unfold renderConnection, conn_conf, opt.
  destruct (za_IsValid (cn_LocalAddr c)), (cn_DPDDelay c >? 0), (String.eqb (cn_Auth c) AuthPubkey); reflexivity.
Qed.

Lemma flat_map_fmap {A B C} (f : B → list C) (g : A → B) l : flat_map f (g <$> l) = flat_map (λ x, f (g x)) l.
Proof. induction l as [|x l IH]; [done|]. cbn. f_equal. apply IH. Qed.

Lemma render_lines_print cs :
  render_lines cs = "# Generated by egressa (internal/ipsec). Do not edit by hand."%string :: flat_map (print "") (file_conf cs).
Proof.
  unfold render_lines, file_conf. cbn [app flat_map print]. f_equal.
  change ("" +:+ "  ")%string with "  "%string. rewrite flat_map_fmap.
  rewrite (flat_map_ext _ _ renderConnection_print). cbn [app]. f_equal.
  rewrite <- app_assoc. f_equal. cbn [app]. f_equal.
  destruct (List.filter is_psk cs) as [|c l]; [done|].
  cbn [flat_map print]. rewrite flat_map_fmap, app_nil_r. reflexivity.
Qed.

(** ** Checks *)

Lemma render_check_Ok prev l u :
  render_check prev l = Ok u → Forall valid_conn l ∧ (∀ i a b, l !! i = Some a → l !! S i = Some b → cn_Name a ≠ cn_Name b).
Proof.
  revert prev. induction l as [|c l IH]; intros prev; cbn [render_check]; [by split|].
  intros ([] & Hv & Hr)%res_bind_Ok. case_bool_decide; [done|].
  destruct (IH _ Hr) as [HF Hadj]. split; [constructor; [by eapply Validate_valid|done]|].
  intros [|i] a b Ha Hb; cbn in *; [|by eapply Hadj]. simplify_eq.
  destruct l as [|b' l]; [done|]. cbn in Hb. simplify_eq. cbn [render_check] in Hr.
  apply res_bind_Ok in Hr as (? & _ & Hr). case_bool_decide; [done|]. congruence.
Qed.

Lemma render_ifids_Ok seen l u :
  render_ifids seen l = Ok u → NoDup (cn_IfID <$> l) ∧ (∀ c, c ∈ l → seen !! cn_IfID c = None).
Proof.
  revert seen. induction l as [|c l IH]; intros seen; cbn [render_ifids].
  - intros _. split; [constructor|]. by intros c ?%not_elem_of_nil.
  - destruct (seen !! cn_IfID c) eqn:E; [done|]. intros [Hnd Hs]%IH. split.
    + cbn. apply NoDup_cons. split; [|done]. intros (d & Hd & Hin)%list_elem_of_fmap.
      specialize (Hs d Hin). by rewrite <- Hd, lookup_insert_eq in Hs.
    + intros d [->|Hin]%elem_of_cons; [done|]. specialize (Hs d Hin).
      by apply lookup_insert_None in Hs as [? _].
Qed.

(** ** Theorems *)

Lemma le_by_trans {A} (key : A → string) : Transitive (le_by key).
Proof.
  intros a b c. unfold le_by, str_leb. rewrite !negb_true_iff. intros H1 H2.
  destruct (str_ltb (key c) (key a)) eqn:E; [|done].
  destruct (str_ltb (key a) (key b)) eqn:E1.
  - by rewrite (str_ltb_trans _ _ _ E E1) in H2.
  - pose proof (str_ltb_total _ _ E1 H1) as Hk. by rewrite Hk, H2 in E.
Qed.

Lemma le_by_antisymm {A} (key : A → string) a b : le_by key a b → le_by key b a → key a = key b.
Proof.
  unfold le_by, str_leb. rewrite !negb_true_iff. intros. by apply str_ltb_total.
Qed.

(** Sorted by name with no equal neighbours: no equal names at all. *)
Lemma sorted_names_NoDup l :
  StronglySorted (le_by cn_Name) l →
  (∀ i a b, l !! i = Some a → l !! S i = Some b → cn_Name a ≠ cn_Name b) → NoDup (cn_Name <$> l).
Proof.
  induction 1 as [|a l Hs IH HF]; intros Hadj; cbn; [constructor|].
  apply NoDup_cons. split; [|apply IH; intros i; apply (Hadj (S i))].
  intros (b & Hb & Hin)%list_elem_of_fmap. destruct l as [|c l]; [by apply not_elem_of_nil in Hin|].
  pose proof (Hadj O a c eq_refl eq_refl) as Hne. apply Hne.
  apply (le_by_antisymm cn_Name); [by apply Forall_cons in HF as [? _]|].
  apply elem_of_cons in Hin as [->|Hin].
  { unfold le_by. rewrite Hb. unfold str_leb. by rewrite str_ltb_irrefl. }
  apply StronglySorted_inv in Hs as [_ HF']. rewrite Forall_forall in HF'.
  specialize (HF' b Hin). unfold le_by in *. by rewrite Hb.
Qed.

Lemma sort_sorted l : StronglySorted (le_by cn_Name) (merge_sort (le_by cn_Name) l).
Proof.
  apply Sorted_StronglySorted; [apply le_by_trans|]. apply Sorted_merge_sort. apply _.
Qed.

(** Lists of distinct names have one sorted order. *)
Lemma sorted_unique l k :
  StronglySorted (le_by cn_Name) l → StronglySorted (le_by cn_Name) k → NoDup (cn_Name <$> l) → l ≡ₚ k → l = k.
Proof.
  intros Hl Hk Hnd HP. eapply StronglySorted_unique_strong; [|done..].
  intros a b Ha Hb H1 H2. pose proof (le_by_antisymm _ _ _ H1 H2) as E.
  assert (b ∈ l) as Hb' by (by rewrite HP).
  apply list_elem_of_lookup in Ha as [i Hi]. apply list_elem_of_lookup in Hb' as [j Hj].
  assert (i = j) as ->; [|congruence].
  eapply NoDup_lookup; [done|..]; rewrite list_lookup_fmap, ?Hi, ?Hj; cbn; by rewrite ?E.
Qed.

Lemma Render_Ok conns s :
  Render conns = Ok s →
  let sorted := merge_sort (le_by cn_Name) conns in
  s = unlines (render_lines sorted) ∧ Forall valid_conn sorted ∧ NoDup (cn_Name <$> sorted) ∧ NoDup (cn_IfID <$> sorted).
Proof.
  unfold Render. intros (? & Hc & (? & Hi & [= <-])%res_bind_Ok)%res_bind_Ok.
  apply render_check_Ok in Hc as [HF Hadj]. apply render_ifids_Ok in Hi as [Hnd _].
  split_and!; [done..|by eapply sorted_names_NoDup; [apply sort_sorted|]|done].
Qed.

(** A rendered file is deterministic: any order of the same connections
    renders to the same text. *)
Theorem Render_deterministic conns conns' s :
  Render conns = Ok s → conns' ≡ₚ conns → Render conns' = Ok s.
Proof.
  intros Hr HP. destruct (Render_Ok _ _ Hr) as (_ & _ & Hnd & _).
  unfold Render in *. rewrite (sorted_unique (merge_sort _ conns) (merge_sort (le_by cn_Name) conns')) in Hr;
    [done|apply sort_sorted..|done|]. by rewrite !merge_sort_Permutation.
Qed.

(** A rendered file reads back as the settings of its sorted connections. *)
Lemma Render_parses conns s :
  Render conns = Ok s → parse_conf s = Some (file_conf (merge_sort (le_by cn_Name) conns)).
Proof.
  intros (-> & HF & _ & _)%Render_Ok. set (sorted := merge_sort _ conns) in *.
  assert (forallb wf_conf (file_conf sorted) = true) as Hwf.
  { rewrite Forall_forall in HF. unfold file_conf. cbn [forallb wf_conf]. apply andb_true_iff. split.
    - apply andb_true_iff. split; [done|]. apply forallb_forall.
      intros x (c & -> & Hc)%list_elem_of_In%list_elem_of_fmap. by apply conn_conf_wf, HF.
    - destruct (List.filter is_psk sorted) as [|c0 l0] eqn:E; [done|].
      rewrite <- E. cbn [forallb wf_conf]. rewrite andb_true_r. apply andb_true_iff. split; [done|].
      apply forallb_forall. intros x (c & -> & Hc)%list_elem_of_In%list_elem_of_fmap.
      apply secret_conf_wf, HF. apply list_elem_of_In in Hc. apply filter_In in Hc as [Hc _].
      by apply list_elem_of_In. }
  unfold parse_conf. rewrite render_lines_print, split_unlines.
  - cbn [fmap list_fmap parse_lines]. change (read_line _) with LComment. cbn match.
    rewrite <- (app_nil_r (chars <$> _)). by rewrite parse_prints.
  - constructor; [by repeat constructor|]. apply Forall_forall. intros l Hl%list_elem_of_In.
    apply in_flat_map in Hl as (t & Ht & Hl). rewrite forallb_forall in Hwf.
    pose proof (print_one_line t "" ltac:(constructor) (Hwf t Ht)) as Hp. rewrite Forall_forall in Hp.
    by apply Hp, list_elem_of_In.
Qed.


(** ** Two connections, rendered *)

Module Demo.

Definition conn (name : string) (ifid : Z) (ip : Z) : Connection :=
  mkConnection name 3 noAddr (unzoned (Addr4 ip)) "client" "gateway" AuthPSK "0123456789abcdef" "" ""
    [mkPrefix (Addr4 (10 * 2 ^ 24)) 32] [mkPrefix (Addr4 0) 0] ifid [] [] (3 * Second) StartNone.
Definition conns : list Connection := [conn "egressa-b" 2 3232235778; conn "egressa-a" 1 3232235777].

Definition text : string := match Render conns with Ok s => s | Err _ => "" end.

Lemma Render_deterministic_witness : Render (reverse conns) = Ok text.
Proof. apply (Render_deterministic conns); [vm_compute; reflexivity|]. apply reverse_Permutation. Defined.


End Demo.
