(* ===== verification/IpsecNet.v ===== *)
(** * The kernel and the IKE daemon as internal/ipsec uses them, and routes.go

    [Net] and [IKE] are interfaces of the package; what stands behind them
    (netlink, charon) is a parameter: a state and a function that runs one
    call. [EnvLaws] states what the comments of net.go and ike.go promise of
    each call, as its effect on the links, routes, rules, connections, secrets
    and SAs. The theorem about [apply] of routes.go: it installs exactly the
    routes wanted, or puts everything back. *)

From S2P Require Import Prelude Netip IpsecConfig.

(** ** The interfaces *)

(** The calls of [Net] and [IKE] that change something. *)
Inductive call :=
| AddXfrmInterface (name : string) (ifID : Z) (underlay : string)
| DeleteLink (name : string)
| AddAddr (link : string) (addr : Prefix)
| SetLinkUp (name : string)
| RouteAdd (r : Route)
| RouteReplace (r : Route)
| RouteDel (r : Route)
| RuleAdd (r : Rule)
| RuleDel (r : Rule)
| LoadConn (c : Connection)
| UnloadConn (name : string)
| LoadShared (s : SharedSecret)
| UnloadShared (id : string)
| Initiate (ike child : string)
| TerminateIKE (ike : string)
| TerminateIKEByID (uniqueID : Z)
| TerminateChild (uniqueID : Z).

(** Those that read, and whether the caller's context has ended. *)
Class Env (W : Type) := {
  sys : call → W → option error * W;
  RouteGet : ZAddr → W → res error Route;
  DefaultRoute : Z → W → res error Route;
  ListSAs : string → W → res error (list IKESA);
  XfrmStates : W → res error (list XfrmState);
  ctx_Err : W → option error;
}.

(** ** What the calls do *)

#[export] Instance Rule_countable : Countable Rule.
Proof.
  refine (inj_countable' (λ r, (ru_Src r, ru_Iif r, ru_Table r, ru_Priority r, ru_Family r))
            (λ '(s, i, t, p, f), mkRule s i t p f) _). by intros [].
Defined.

(** A route is known by its table and destination. *)
Definition rkey (r : Route) : Z * Prefix := (route_table r, r_Dst r).

Record kernel := mkKernel {
  k_links : gmap string Z;
  k_routes : gmap (Z * Prefix) Route;
  k_rules : gset Rule;
  k_conns : gmap string Connection;
  k_secrets : gmap string SharedSecret;
  k_sas : list IKESA;
}.

Definition with_links f k := mkKernel (f (k_links k)) (k_routes k) (k_rules k) (k_conns k) (k_secrets k) (k_sas k).
Definition with_routes f k := mkKernel (k_links k) (f (k_routes k)) (k_rules k) (k_conns k) (k_secrets k) (k_sas k).
Definition with_rules f k := mkKernel (k_links k) (k_routes k) (f (k_rules k)) (k_conns k) (k_secrets k) (k_sas k).
Definition with_conns f k := mkKernel (k_links k) (k_routes k) (k_rules k) (f (k_conns k)) (k_secrets k) (k_sas k).
Definition with_secrets f k := mkKernel (k_links k) (k_routes k) (k_rules k) (k_conns k) (f (k_secrets k)) (k_sas k).
Definition with_sas f k := mkKernel (k_links k) (k_routes k) (k_rules k) (k_conns k) (k_secrets k) (f (k_sas k)).

(** Deleting an interface takes its routes with it. *)
Definition drop_link (n : string) (k : kernel) : kernel :=
  with_routes (filter (λ kv, r_Dev kv.2 ≠ n)) (with_links (delete n) k).

(** The IKE_SAs of other connections than [n]. *)
Definition outside (n : string) (sas : list IKESA) : list IKESA := filter (λ s, sa_Name s ≠ n) sas.
Definition drop_child (id : Z) (s : IKESA) : IKESA :=
  mkIKESA (sa_Name s) (sa_UniqueID s) (sa_State s) (sa_LocalHost s) (sa_RemoteHost s) (sa_LocalID s) (sa_RemoteID s)
    (sa_Initiator s) (sa_EncrAlg s) (sa_PRFAlg s) (sa_DHGroup s) (sa_EstablishedFor s)
    (filter (λ c, ch_UniqueID c ≠ id) (sa_Children s)).
(** charon's identifiers of the CHILD_SAs *)
Definition child_ids (sas : list IKESA) : list Z := ch_UniqueID <$> flat_map sa_Children sas.
Definition has_child (sas : list IKESA) (n child : string) : Prop :=
  ∃ s c, s ∈ sas ∧ sa_Name s = n ∧ c ∈ sa_Children s ∧ ch_Name c = child.

(** A call that returned nil. *)
Definition ok_effect (c : call) (k k' : kernel) : Prop :=
  match c with
  | AddXfrmInterface n i _ => k_links k !! n = None ∧ k' = with_links (<[n := i]>) k
  | DeleteLink n => is_Some (k_links k !! n) ∧ k' = drop_link n k
  | AddAddr _ _ | SetLinkUp _ => k' = k
  | RouteAdd r => k_routes k !! rkey r = None ∧ k' = with_routes (<[rkey r := r]>) k
  | RouteReplace r => k' = with_routes (<[rkey r := r]>) k
  | RouteDel r => is_Some (k_routes k !! rkey r) ∧ k' = with_routes (delete (rkey r)) k
  | RuleAdd r => r ∉ k_rules k ∧ k' = with_rules (λ s, {[r]} ∪ s) k
  | RuleDel r => r ∈ k_rules k ∧ k' = with_rules (λ s, s ∖ {[r]}) k
  | LoadConn c => ∃ sas, outside (cn_Name c) sas = outside (cn_Name c) (k_sas k)
                         ∧ (cn_Start c ≠ StartStart → sas = k_sas k)
                         ∧ k' = with_conns (<[cn_Name c := c]>) (with_sas (λ _, sas) k)
  | UnloadConn n => k' = with_conns (delete n) k
  | LoadShared s => k' = with_secrets (<[ss_ID s := s]>) k
  | UnloadShared n => k' = with_secrets (delete n) k
  | Initiate n child => ∃ sas, outside n sas = outside n (k_sas k) ∧ has_child sas n child ∧ k' = with_sas (λ _, sas) k
  | TerminateIKE n => k' = with_sas (outside n) k
  | TerminateIKEByID id => k' = with_sas (filter (λ s, sa_UniqueID s ≠ id)) k
  | TerminateChild id => k' = with_sas (fmap (drop_child id)) k
  end.

(** A call that returned an error: it changed nothing, except that SAs of the
    connection may have come or gone; the sentinels mean what they say. *)
Definition err_effect (c : call) (e : error) (k k' : kernel) : Prop :=
  match c with
  | DeleteLink n => k' = k ∧ (is_ErrNotExist e = true → k_links k !! n = None)
  | RouteAdd r => k' = k ∧ (is_ErrExist e = true → is_Some (k_routes k !! rkey r))
  | RouteDel r => k' = k ∧ (is_ErrNotExist e = true → k_routes k !! rkey r ≠ Some r)
  | RuleDel r => k' = k ∧ (is_ErrNotExist e = true → r ∉ k_rules k)
  | UnloadConn n => k' = k ∧ (is_ErrNotFound e = true → k_conns k !! n = None)
  | UnloadShared n => k' = k ∧ (is_ErrNotFound e = true → k_secrets k !! n = None)
  | Initiate n _ => ∃ sas, outside n sas = outside n (k_sas k) ∧ k' = with_sas (λ _, sas) k
  | TerminateIKE n => ∃ sas, outside n sas = outside n (k_sas k) ∧ k' = with_sas (λ _, sas) k
                             ∧ (is_ErrNotFound e = true → sas = outside n (k_sas k))
  | TerminateIKEByID id => k' = k ∧ (is_ErrNotFound e = true → ∀ s, s ∈ k_sas k → sa_UniqueID s ≠ id)
  | TerminateChild id => k' = k ∧ (is_ErrNotFound e = true → id ∉ child_ids (k_sas k))
  | _ => k' = k
  end.

Class EnvLaws (W : Type) `{Env W} := {
  view : W → kernel;
  sys_ok : ∀ c w w', sys c w = (None, w') → ok_effect c (view w) (view w');
  sys_err : ∀ c e w w', sys c w = (Some e, w') → err_effect c e (view w) (view w');
  (** the states there can be: a route with a device has that device *)
  env_wf : W → Prop;
  sys_wf : ∀ c w, env_wf w → env_wf (sys c w).2;
  view_dev : ∀ w k r, env_wf w → k_routes (view w) !! k = Some r → r_Dev r ≠ "" → is_Some (k_links (view w) !! r_Dev r);
  (** charon gives no identifier twice *)
  view_unique : ∀ w, env_wf w → NoDup (child_ids (k_sas (view w)));
  view_unique_ike : ∀ w, env_wf w → NoDup (sa_UniqueID <$> k_sas (view w));
  (** ListSAs reports the SAs of one connection *)
  ListSAs_view : ∀ n w sas, ListSAs n w = Ok sas → sas = filter (λ s, sa_Name s = n) (k_sas (view w));
}.

(** ** routes.go *)

Record change := mkChange { chg_r : Route; chg_prev : option Route }.

Section routes.
Context {W : Type} `{!Env W} `{!Range}.

(** The undo loop over [done], newest first. *)
Fixpoint undo_routes (done : list change) (w : W) : list (option error) * W :=
  match done with
  | [] => ([], w)
  | c :: done =>
      let '(e, w) := match chg_prev c with
                     | Some prev => sys (RouteReplace prev) w
                     | None => let '(e, w) := sys (RouteDel (chg_r c)) w in (ignoreNotExist e, w)
                     end in
      let '(es, w) := undo_routes done w in (e :: es, w)
  end.

(** The first loop of [apply]; [done] holds the changes made, newest first. *)
Fixpoint replace_all (installed : gmap Prefix Route) (want : list Route) (done : list change) (w : W)
  : option error * W :=
  match want with
  | [] => (None, w)
  | r :: want =>
      match sys (RouteReplace r) w with
      | (Some e, w) =>
          let '(es, w) := undo_routes done w in
          match errors_Join es with
          | Some u => (Some (ErrUndo "undoing the partial change failed" e u), w)
          | None => (Some e, w)
          end
      | (None, w) => replace_all installed want (mkChange r (installed !! r_Dst r) :: done) w
      end
  end.

(** One turn of the second loop: withdraw a route that is not wanted, and keep
    tracking it if that fails. *)
Definition withdraw (acc : gmap Prefix Route * list (option error) * W)
  (kv : Prefix * Route) : gmap Prefix Route * list (option error) * W :=
  let '(keep, errs, w) := acc in
  let '(dst, r) := kv in
  match keep !! dst with
  | Some _ => (keep, errs, w)
  | None =>
      let '(e, w) := sys (RouteDel r) w in
      match ignoreNotExist e with
      | Some e => (<[dst := r]> keep, errs ++ [Some e], w)
      | None => (keep, errs, w)
      end
  end.

Definition wanted (want : list Route) : gmap Prefix Route :=
  fold_left (λ m r, <[r_Dst r := r]> m) want ∅.

(** [routeSet.apply]: the error, the routes installed, the world. *)
Definition rs_apply (want : list Route) (installed : gmap Prefix Route) (w : W)
  : option error * gmap Prefix Route * W :=
  match replace_all installed want [] w with
  | (Some e, w) => (Some e, installed, w)
  | (None, w) =>
      let '(keep, errs, w) := fold_left withdraw (range installed) (wanted want, [], w) in
      (errors_Join errs, keep, w)
  end.

(** [routeSet.clear] *)
Definition rs_clear (installed : gmap Prefix Route) (w : W) : option error * gmap Prefix Route * W :=
  rs_apply [] installed w.

End routes.

(** [routeSet.routes]: sorted by address (IPv4 first), then by length. *)
Definition addr_key (a : Addr) : Z * Z :=
  (BitLen a, match a with AddrInvalid => 0 | Addr4 v => v | Addr6 v => v end).
Definition addr_Compare (a b : Addr) : comparison :=
  match Z.compare (addr_key a).1 (addr_key b).1 with
  | Eq => Z.compare (addr_key a).2 (addr_key b).2
  | c => c
  end.
Definition route_le (a b : Route) : Prop :=
  match addr_Compare (pf_Addr (r_Dst a)) (pf_Addr (r_Dst b)) with
  | Lt => True
  | Gt => False
  | Eq => pf_Bits (r_Dst a) ≤ pf_Bits (r_Dst b)
  end.
#[export] Instance route_le_dec : RelDecision route_le.
Proof. intros a b. unfold route_le. destruct (addr_Compare _ _); apply _. Defined.
Definition rs_routes `{!Range} (installed : gmap Prefix Route) : list Route :=
  merge_sort route_le (snd <$> range installed).

(** ** Lemmas: errors *)

Lemma errors_Join_None es : errors_Join es = None ↔ Forall (λ e, e = None) es.
Proof.
  unfold errors_Join. induction es as [|[e|] es IH]; cbn.
  - split; [constructor|done].
  - split; [done|]. by intros [? _]%Forall_cons.
  - rewrite Forall_cons. rewrite IH. naive_solver.
Qed.

Lemma ignoreNotExist_None e : ignoreNotExist e = None ↔ e = None ∨ ∃ e', e = Some e' ∧ is_ErrNotExist e' = true.
Proof.
  unfold ignoreNotExist. destruct e as [e|]; [|by split; [left|]].
  destruct (is_ErrNotExist e) eqn:E; split; [by right; eauto|done|done|].
  intros [?|(e' & [= <-] & ?)]; congruence.
Qed.

Lemma ignoreNotFound_None e : ignoreNotFound e = None ↔ e = None ∨ ∃ e', e = Some e' ∧ is_ErrNotFound e' = true.
Proof.
  unfold ignoreNotFound. destruct e as [e|]; [|by split; [left|]].
  destruct (is_ErrNotFound e) eqn:E; split; [by right; eauto|done|done|].
  intros [?|(e' & [= <-] & ?)]; congruence.
Qed.

(** The clean-up after a failure failed too. *)
Definition is_undo (e : option error) : Prop := match e with Some (ErrUndo _ _ _) => True | _ => False end.

Lemma with_routes_id f k : f (k_routes k) = k_routes k → with_routes f k = k.
Proof. destruct k. unfold with_routes. cbn. by intros ->. Qed.
Lemma with_routes_comp f g k : with_routes f (with_routes g k) = with_routes (λ m, f (g m)) k.
Proof. done. Qed.
Lemma with_routes_ext f g k : f (k_routes k) = g (k_routes k) → with_routes f k = with_routes g k.
Proof. unfold with_routes. by intros ->. Qed.

Lemma with_sas_id f k : f (k_sas k) = k_sas k → with_sas f k = k.
Proof. destruct k. unfold with_sas. cbn. by intros ->. Qed.
Lemma ifaceName_ne prefix id : ifaceName prefix id ≠ "".
Proof.
  unfold ifaceName. destruct prefix as [|c prefix]; [|done].
  change (FormatUint id ≠ ""). unfold FormatUint. pose proof (format_digits_ne 20 id) as H.
  destruct (format_digits 20 id); [by destruct H; [lia|]|done].
Qed.

(** ** Lemmas: calls that take back other calls *)

(** The call [c], its error filtered by [ig], leads from [k] to [k1] whenever it
    reports no error. *)
Definition reverts (c : call) (ig : option error → option error) (k k1 : kernel) : Prop :=
  (∀ k', ok_effect c k k' → k' = k1) ∧ (∀ e k', ig (Some e) = None → err_effect c e k k' → k' = k1).

Section reverts.
Context {W : Type} {WE : Env W} {WL : EnvLaws W}.

Lemma reverts_sys c ig k1 (w w' : W) e :
  reverts c ig (view w) k1 → sys c w = (e, w') → ig e = None → view w' = k1.
Proof.
  intros [Hok Herr] Hs Hig. destruct e as [e|]; [by eapply Herr, sys_err|by eapply Hok, sys_ok].
Qed.

Lemma link_reverts iface i (w0 : W) :
  env_wf w0 → iface ≠ "" → k_links (view w0) !! iface = None →
  reverts (DeleteLink iface) ignoreNotExist (with_links (<[iface := i]>) (view w0)) (view w0).
Proof.
  intros Hw Hne Hl. split.
  - intros k' [_ ->]. unfold drop_link. rewrite (with_routes_id _ (with_links _ _)).
    + unfold with_links. cbn. rewrite delete_insert_id by done. by destruct (view w0).
    + cbn. apply map_filter_id. intros i' r Hr Hd. cbn in Hd.
      destruct (view_dev _ _ _ Hw Hr) as [? Hx]; [by rewrite Hd|]. by rewrite Hd, Hl in Hx.
  - intros e k' [?|(e' & [= <-] & He)]%ignoreNotExist_None [_ Hx]; [done|].
    specialize (Hx He). cbn in Hx. by rewrite lookup_insert_eq in Hx.
Qed.
End reverts.

Lemma shared_reverts id s k :
  k_secrets k !! id = None → reverts (UnloadShared id) ignoreNotFound (with_secrets (<[id := s]>) k) k.
Proof.
  intros Hn. split.
  - intros k' ->. unfold with_secrets. cbn. rewrite delete_insert_id by done. by destruct k.
  - intros e k' [?|(e' & [= <-] & He)]%ignoreNotFound_None [_ Hx]; [done|].
    specialize (Hx He). cbn in Hx. by rewrite lookup_insert_eq in Hx.
Qed.

Lemma conn_reverts n conn k :
  k_conns k !! n = None → reverts (UnloadConn n) ignoreNotFound (with_conns (<[n := conn]>) k) k.
Proof.
  intros Hn. split.
  - intros k' ->. unfold with_conns. cbn. rewrite delete_insert_id by done. by destruct k.
  - intros e k' [?|(e' & [= <-] & He)]%ignoreNotFound_None [_ Hx]; [done|].
    specialize (Hx He). cbn in Hx. by rewrite lookup_insert_eq in Hx.
Qed.

Lemma ike_reverts n k sas :
  outside n (k_sas k) = k_sas k → outside n sas = k_sas k →
  reverts (TerminateIKE n) ignoreNotFound (with_sas (λ _, sas) k) k.
Proof.
  intros Hn Hs. split.
  - intros k' ->. change (with_sas (λ _, outside n sas) k = k). rewrite Hs. by destruct k.
  - intros e k' [?|(e' & [= <-] & He)]%ignoreNotFound_None (sas' & _ & -> & Hx); [done|].
    rewrite (Hx He). change (with_sas (λ _, outside n sas) k = k). rewrite Hs. by destruct k.
Qed.

Lemma rule_reverts r k :
  r ∉ k_rules k → reverts (RuleDel r) ignoreNotExist (with_rules (λ s, {[r]} ∪ s) k) k.
Proof.
  intros Hn. split.
  - intros k' [_ ->]. unfold with_rules. cbn. destruct k. cbn in *. f_equal. set_solver.
  - intros e k' [?|(e' & [= <-] & He)]%ignoreNotExist_None [_ Hx]; [done|].
    specialize (Hx He). cbn in Hx. set_solver.
Qed.

(** ** Lemmas: what [apply] leaves *)

(** The set tracks routes of table [T], each under its destination and in the kernel. *)
Definition tracks (T : Z) (inst : gmap Prefix Route) (k : kernel) : Prop :=
  ∀ d r, inst !! d = Some r → rkey r = (T, d) ∧ k_routes k !! (T, d) = Some r.

(** The kernel's routes once [inst'] replaces [inst]. *)
Definition moved (T : Z) (inst inst' : gmap Prefix Route) (m : gmap (Z * Prefix) Route) : gmap (Z * Prefix) Route :=
  kmap (pair T) inst' ∪ (m ∖ kmap (pair T) inst).

Lemma lookup_moved T inst inst' m t d :
  moved T inst inst' m !! (t, d) =
    if decide (t = T) then
      match inst' !! d with Some r => Some r | None => match inst !! d with Some _ => None | None => m !! (t, d) end end
    else m !! (t, d).
Proof.
  assert (∀ i : gmap Prefix Route, t ≠ T → (kmap (pair T) i : gmap _ Route) !! (t, d) = None) as Hne.
  { intros i Ht. apply lookup_kmap_None; [apply _|]. naive_solver. }
  unfold moved. case_decide as Ht; [subst t|].
  - rewrite lookup_union, lookup_difference, !(lookup_kmap (pair T)).
    destruct (inst' !! d), (inst !! d), (m !! (T, d)); done.
  - rewrite lookup_union, lookup_difference, !Hne by done. by rewrite left_id_L by apply _.
Qed.

Lemma wanted_snoc want r : wanted (want ++ [r]) = <[r_Dst r := r]> (wanted want).
Proof. unfold wanted. by rewrite fold_left_app. Qed.

Lemma wanted_lookup want d r : wanted want !! d = Some r → r ∈ want ∧ r_Dst r = d.
Proof.
  induction want as [|x want IH] using rev_ind; [done|]. rewrite wanted_snoc.
  rewrite lookup_insert_Some. intros [[<- <-]|[Hne H]]; [by split; [apply elem_of_snoc; right|]|].
  apply IH in H as [? ?]. split; [|done]. apply elem_of_snoc. by left.
Qed.

Lemma wanted_None want d : wanted want !! d = None ↔ d ∉ r_Dst <$> want.
Proof.
  induction want as [|x want IH] using rev_ind; [set_solver|]. rewrite wanted_snoc, fmap_app.
  rewrite lookup_insert_None, IH. set_solver.
Qed.

Section apply.
Context {W : Type} `{!Env W, !EnvLaws W, !Range, !RangeLaws} (T : Z) (inst : gmap Prefix Route).

(** The changes made so far, newest first, on top of the kernel state [k0]. *)
Definition applied (done : list change) (k0 : kernel) : kernel :=
  with_routes (λ m, foldr (λ c m, <[rkey (chg_r c) := chg_r c]> m) m done) k0.

(** Each change replaced what the kernel had. *)
Definition records (k0 : kernel) (done : list change) : Prop :=
  Forall (λ c, chg_prev c = k_routes k0 !! rkey (chg_r c) ∧
               ∀ p, chg_prev c = Some p → rkey p = rkey (chg_r c)) done
  ∧ NoDup ((λ c, rkey (chg_r c)) <$> done).

Lemma applied_other done k0 k :
  k ∉ (λ c, rkey (chg_r c)) <$> done → k_routes (applied done k0) !! k = k_routes k0 !! k.
Proof.
  unfold applied. cbn. induction done as [|c done IH]; [done|]. cbn. intros [Hk Hd]%not_elem_of_cons.
  rewrite lookup_insert_ne by done. by apply IH.
Qed.

Lemma undo_routes_restores done k0 w es w' :
  records k0 done → view w = applied done k0 →
  undo_routes done w = (es, w') → Forall (λ e, e = None) es → view w' = k0.
Proof.
  revert w es w'. induction done as [|c done IH]; intros w es w' [HF Hnd] Hw; cbn [undo_routes].
  { intros [= <- <-] _. rewrite Hw. by apply with_routes_id. }
  apply Forall_cons in HF as [[Hprev Hkey] HF]. cbn in Hnd. apply NoDup_cons in Hnd as [Hni Hnd].
  pose proof (applied_other done k0 _ Hni) as Hold.
  assert (∀ e w1, view w1 = applied done k0 →
    (let '(es, w) := undo_routes done w1 in (e :: es, w)) = (es, w') → Forall (λ e, e = None) es → view w' = k0) as Hnext.
  { intros e w1 Hw1. destruct (undo_routes done w1) as [es1 w2] eqn:E. intros [= <- <-] [_ Hes]%Forall_cons.
    eapply (IH w1); [done|done|exact E|done]. }
  assert (∀ e w1, (let '(es, w) := undo_routes done w1 in (e :: es, w)) = (es, w') → Forall (λ e, e = None) es → e = None) as Hhead.
  { intros e w1. destruct (undo_routes done w1). intros [= <- <-]. by intros [? _]%Forall_cons. }
  destruct (chg_prev c) as [p|] eqn:Ep.
  - destruct (sys (RouteReplace p) w) as [e w1] eqn:Es. intros Hu HF'.
    pose proof (Hhead _ _ Hu HF') as ->. eapply Hnext; [|exact Hu|done].
    apply sys_ok in Es. cbn in Es. rewrite Es, Hw. unfold applied. rewrite with_routes_comp. apply with_routes_ext.
    cbn. rewrite (Hkey p) by done. rewrite insert_insert_eq. rewrite <- Hold in Hprev. apply insert_id. by symmetry.
  - destruct (sys (RouteDel (chg_r c)) w) as [e w1] eqn:Es. intros Hu HF'.
    pose proof (Hhead _ _ Hu HF') as [->|(e' & -> & Hne)]%ignoreNotExist_None.
    + eapply Hnext; [|exact Hu|done]. apply sys_ok in Es as [_ Es]. rewrite Es, Hw. unfold applied.
      rewrite with_routes_comp. apply with_routes_ext. cbn. apply delete_insert_id.
      by rewrite <- Hprev in Hold.
    + exfalso. apply sys_err in Es as [_ Hn]. specialize (Hn Hne). apply Hn. rewrite Hw. cbn. apply lookup_insert_eq.
Qed.

(** The first loop: either all of [want] is in place, or everything is back
    where it was, or the undoing failed. *)
Lemma replace_all_spec want done k0 w e w' :
  (∀ c, c ∈ done → rkey (chg_r c) = (T, r_Dst (chg_r c))) →
  records k0 done → view w = applied done k0 →
  Forall (λ r, rkey r = (T, r_Dst r)) want → NoDup ((r_Dst ∘ chg_r <$> done) ++ (r_Dst <$> want)) →
  tracks T inst k0 →
  (∀ r, r ∈ want → inst !! r_Dst r = None → k_routes k0 !! (T, r_Dst r) = None) →
  replace_all inst want done w = (e, w') →
  match e with
  | None => view w' = applied (reverse ((λ r, mkChange r (inst !! r_Dst r)) <$> want) ++ done) k0
  | Some _ => is_undo e ∨ view w' = k0
  end.
Proof.
  revert done w. induction want as [|r want IH]; intros done w Hd Hrec Hw HF Hnd Htr Hfree; cbn [replace_all].
  { intros [= <- <-]. done. }
  apply Forall_cons in HF as [Hr HF].
  destruct (sys (RouteReplace r) w) as [[e1|] w1] eqn:Es.
  - apply sys_err in Es. cbn in Es. destruct (undo_routes done w1) as [es w2] eqn:Eu.
    destruct (errors_Join es) as [u|] eqn:Ej; intros [= <- <-]; [by left|right].
    apply errors_Join_None in Ej. eapply undo_routes_restores; [done| |exact Eu|done]. by rewrite Es.
  - apply sys_ok in Es. cbn in Es. intros Hrun.
    assert (rkey r ∉ (λ c, rkey (chg_r c)) <$> done) as Hni.
    { intros (c & Hc & Hin)%list_elem_of_fmap. rewrite Hr, (Hd c Hin) in Hc. injection Hc as Hc.
      rewrite NoDup_app in Hnd. destruct Hnd as (_ & Hdis & _). eapply (Hdis (r_Dst r)).
      - apply list_elem_of_fmap. exists c. done.
      - by left. }
    replace (reverse ((λ r0, mkChange r0 (inst !! r_Dst r0)) <$> r :: want) ++ done)
      with (reverse ((λ r0, mkChange r0 (inst !! r_Dst r0)) <$> want) ++ mkChange r (inst !! r_Dst r) :: done)
      by (cbn [fmap list_fmap]; by rewrite reverse_cons, <- app_assoc).
    eapply IH; [..|exact Hrun]; try done.
    + intros c [->|Hin]%elem_of_cons; [done|by apply Hd].
    + destruct Hrec as [HFr Hndr]. split; [|cbn; by apply NoDup_cons].
      apply Forall_cons. split; [|done]. cbn. rewrite Hr. destruct (inst !! r_Dst r) as [p|] eqn:Ei.
      * apply Htr in Ei as [Hp Hk]. split; [by rewrite Hk|]. by intros ? [= <-].
      * split; [symmetry; apply Hfree; [by left|done]|done].
    + by rewrite Es, Hw.
    + cbn. rewrite NoDup_cons, not_elem_of_app. rewrite NoDup_app in Hnd. destruct Hnd as (H1 & H2 & H3).
      cbn in H3. apply NoDup_cons in H3 as [H3 H4]. split; [split; [|done]|].
      * intros Hin. eapply H2; [exact Hin|by left].
      * apply NoDup_app. split_and!; [done| |done]. intros x Hx Hx'. eapply H2; [done|by right].
    + intros r' Hr'. apply Hfree. by right.
Qed.

Lemma applied_wanted want k0 :
  Forall (λ r, rkey r = (T, r_Dst r)) want →
  k_routes (applied (reverse ((λ r, mkChange r (inst !! r_Dst r)) <$> want)) k0)
  = kmap (pair T) (wanted want) ∪ k_routes k0.
Proof.
  intros HF. unfold applied. cbn. induction want as [|r want IH] using rev_ind.
  - change (wanted []) with (∅ : gmap Prefix Route). by rewrite kmap_empty, (left_id_L ∅ (∪)).
  - apply Forall_app in HF as [HF [Hr _]%Forall_cons]. rewrite wanted_snoc, fmap_app, reverse_app. cbn.
    rewrite kmap_insert by apply _. rewrite <- insert_union_l. rewrite IH by done. by rewrite Hr.
Qed.

(** The second loop withdraws routes, and keeps those it could not. *)
Definition keeps (want keep : gmap Prefix Route) : Prop := want ⊆ keep ∧ keep ⊆ want ∪ inst.

(** The installed routes the loop is done with, [l] being still to do. *)
Definition past (l : list (Prefix * Route)) : gmap Prefix Route := filter (λ kv, kv.1 ∉ l.*1) inst.

Lemma lookup_past l d : past l !! d = if decide (d ∈ l.*1) then None else inst !! d.
Proof.
  unfold past. rewrite map_lookup_filter. destruct (inst !! d); cbn; repeat case_decide || case_guard; done.
Qed.

(** What one turn does to the kernel's routes, on each of its branches. *)
Lemma moved_step d r l keep m :
  d ∉ l.*1 → inst !! d = Some r → m !! (T, d) = Some r →
  (is_Some (keep !! d) → moved T (past ((d, r) :: l)) keep m = moved T (past l) keep m) ∧
  (keep !! d = None → moved T (past ((d, r) :: l)) keep m = moved T (past l) (<[d := r]> keep) m) ∧
  (keep !! d = None → delete (T, d) (moved T (past ((d, r) :: l)) keep m) = moved T (past l) keep m).
Proof.
  intros Hd Hi Hm.
  assert (past ((d, r) :: l) !! d = None) as Hp1 by (rewrite lookup_past; cbn; rewrite decide_True; [done|by left]).
  assert (past l !! d = Some r) as Hp2 by (rewrite lookup_past, decide_False; done).
  assert (∀ d', d' ≠ d → past ((d, r) :: l) !! d' = past l !! d') as Hp3.
  { intros d' Hne. rewrite !lookup_past. cbn. repeat case_decide; set_solver. }
  split_and!; intros Hk; apply map_eq; intros [t d'];
    (destruct (decide ((T, d) = (t, d'))) as [[= <- <-]|Hne];
     [|assert (t = T → d' ≠ d) by congruence]).
  - rewrite !lookup_moved, !decide_True by done. by destruct Hk as [? ->].
  - rewrite !lookup_moved. case_decide; [|done]. by rewrite Hp3 by auto.
  - rewrite !lookup_moved, !decide_True by done. by rewrite Hk, Hp1, lookup_insert_eq.
  - rewrite !lookup_moved. case_decide; [|done]. by rewrite Hp3, lookup_insert_ne by (auto; naive_solver).
  - rewrite lookup_delete_eq, lookup_moved, decide_True by done. by rewrite Hk, Hp2.
  - rewrite lookup_delete_ne by done. rewrite !lookup_moved. case_decide; [|done]. by rewrite Hp3 by auto.
Qed.

Lemma withdraw_spec l want keep errs w keep' errs' w' k0 :
  (∀ d r, (d, r) ∈ l → inst !! d = Some r) → NoDup l.*1 →
  keeps want keep → tracks T inst k0 → (errs = [] → keep = want) → Forall (λ e, e ≠ None) errs →
  view w = with_routes (moved T (past l) keep) k0 →
  fold_left withdraw l (keep, errs, w) = (keep', errs', w') →
  keeps want keep' ∧ (errs' = [] → keep' = want) ∧ Forall (λ e, e ≠ None) errs' ∧
  view w' = with_routes (moved T inst keep') k0.
Proof.
  revert keep errs w. induction l as [|[d r] l IH]; intros keep errs w Hl Hnd Hk Htr He Hes Hw; cbn [fold_left].
  { intros [= <- <- <-]. split_and!; try done. rewrite Hw. do 2 f_equal. unfold past.
    apply map_filter_id. intros. apply not_elem_of_nil. }
  cbn in Hnd. apply NoDup_cons in Hnd as [Hni Hnd].
  assert (inst !! d = Some r) as Hin by (apply Hl; by left).
  assert (∀ d r, (d, r) ∈ l → inst !! d = Some r) as Hl' by (intros; apply Hl; by right).
  destruct (Htr _ _ Hin) as [Hkey Hk0].
  destruct (moved_step d r l keep (k_routes k0)) as (Hm1 & Hm2 & Hm3); [done..|].
  intros Hrun. unfold withdraw at 2 in Hrun. destruct (keep !! d) as [x|] eqn:Ek.
  { eapply IH; [..|exact Hrun]; try done. rewrite Hw. apply with_routes_ext, Hm1. by eexists. }
  destruct (sys (RouteDel r) w) as [e w1] eqn:Es. destruct (ignoreNotExist e) as [e'|] eqn:Ei.
  - assert (view w1 = view w) as Hw1 by (destruct e as [e|]; [by apply sys_err in Es as [? _]|done]).
    eapply IH; [..|exact Hrun]; try done.
    + destruct Hk as [Hk1 Hk2].
      assert (want !! d = None) as Hwd.
      { destruct (want !! d) eqn:E; [|done]. by rewrite (lookup_weaken _ _ _ _ E Hk1) in Ek. }
      split; [by apply insert_subseteq_r|].
      apply map_subseteq_spec. intros i y [[<- <-]|[_ Hy]]%lookup_insert_Some; [|by eapply lookup_weaken].
      apply lookup_union_Some_raw. by right.
    + by intros [_ ?]%app_eq_nil.
    + apply Forall_app. split; [done|]. by repeat constructor.
    + rewrite Hw1, Hw. by apply with_routes_ext, Hm2.
  - apply ignoreNotExist_None in Ei as [->|(e' & -> & Hne)].
    + eapply IH; [..|exact Hrun]; try done.
      apply sys_ok in Es as [_ Es]. rewrite Es, Hw, with_routes_comp, Hkey. by apply with_routes_ext, Hm3.
    + exfalso. apply sys_err in Es as [_ Hn]. apply (Hn Hne). rewrite Hkey, Hw. cbn.
      rewrite lookup_moved, decide_True, Ek, lookup_past by done. cbn. by rewrite decide_True by (by left).
Qed.


End apply.

(** ** A world that keeps the laws: kernel and daemon in memory, with faults

    The [n]-th call fails without effect when the [n]-th fault says so. *)

Module Sim.

Record sim := mkSim {
  s_k : kernel; s_faults : list bool; s_next : Z; s_default : Route; s_ctx : option error;
}.
Definition empty_kernel : kernel := mkKernel ∅ ∅ ∅ ∅ ∅ [].

Definition child_of (id : Z) (n child : string) : ChildSA :=
  mkChildSA child id ChildStateInstalled "TUNNEL" "ESP" "c0ffee01" "c0ffee02" 1 1 "AES_GCM_16" 0 0 0 0 0 [] [].
Definition ike_of (id : Z) (n : string) (cs : list ChildSA) : IKESA :=
  mkIKESA n id IKEStateEstablished "" "" "" "" true "" "" "" 0 cs.
(** A new CHILD_SA on the first IKE_SA of the connection, or on a new one. *)
Fixpoint initiated (id : Z) (n child : string) (sas : list IKESA) : list IKESA :=
  match sas with
  | [] => [ike_of id n [child_of id n child]]
  | s :: sas =>
      if String.eqb (sa_Name s) n then ike_of (sa_UniqueID s) n (sa_Children s ++ [child_of id n child]) :: sas
      else s :: initiated id n child sas
  end.

Definition has_dev (k : kernel) (r : Route) : bool :=
  String.eqb (r_Dev r) "" || bool_decide (is_Some (k_links k !! r_Dev r)).

(** A call without fault. *)
Definition sim_call (c : call) (id : Z) (k : kernel) : option error * kernel :=
  match c with
  | AddXfrmInterface n i _ => match k_links k !! n with Some _ => (Some ErrExist, k) | None => (None, with_links (<[n := i]>) k) end
  | DeleteLink n => match k_links k !! n with Some _ => (None, drop_link n k) | None => (Some ErrNotExist, k) end
  | AddAddr _ _ | SetLinkUp _ => (None, k)
  | RouteAdd r =>
      match k_routes k !! rkey r with
      | Some _ => (Some ErrExist, k)
      | None => if has_dev k r then (None, with_routes (<[rkey r := r]>) k) else (Some ErrNotExist, k)
      end
  | RouteReplace r => if has_dev k r then (None, with_routes (<[rkey r := r]>) k) else (Some ErrNotExist, k)
  | RouteDel r => if bool_decide (k_routes k !! rkey r = Some r) then (None, with_routes (delete (rkey r)) k) else (Some ErrNotExist, k)
  | RuleAdd r => if bool_decide (r ∈ k_rules k) then (Some ErrExist, k) else (None, with_rules (λ s, {[r]} ∪ s) k)
  | RuleDel r => if bool_decide (r ∈ k_rules k) then (None, with_rules (λ s, s ∖ {[r]}) k) else (Some ErrNotExist, k)
  | LoadConn c => (None, with_conns (<[cn_Name c := c]>) k)
  | UnloadConn n => match k_conns k !! n with Some _ => (None, with_conns (delete n) k) | None => (Some ErrNotFound, k) end
  | LoadShared s => (None, with_secrets (<[ss_ID s := s]>) k)
  | UnloadShared n => match k_secrets k !! n with Some _ => (None, with_secrets (delete n) k) | None => (Some ErrNotFound, k) end
  | Initiate n child => (None, with_sas (initiated id n child) k)
  | TerminateIKE n => (None, with_sas (outside n) k)
  | TerminateIKEByID i => (None, with_sas (filter (λ s, sa_UniqueID s ≠ i)) k)
  | TerminateChild i => (None, with_sas (fmap (drop_child i)) k)
  end.

Definition sim_sys (c : call) (w : sim) : option error * sim :=
  let step e k := (e, mkSim k (tail (s_faults w)) (s_next w + 1) (s_default w) (s_ctx w)) in
  if default false (head (s_faults w)) then step (Some (ErrText "fault")) (s_k w)
  else let '(e, k) := sim_call c (s_next w) (s_k w) in step e k.

#[export] Instance sim_env : Env sim := {|
  sys := sim_sys;
  RouteGet _ w := Ok (s_default w);
  DefaultRoute _ w := Ok (s_default w);
  ListSAs n w := Ok (filter (λ s, sa_Name s = n) (k_sas (s_k w)));
  XfrmStates _ := Ok [];
  ctx_Err := s_ctx;
|}.

Definition sim_wf (w : sim) : Prop :=
  map_Forall (λ _ r, r_Dev r ≠ "" → is_Some (k_links (s_k w) !! r_Dev r)) (k_routes (s_k w))
  ∧ NoDup (child_ids (k_sas (s_k w))) ∧ Forall (λ id, id < s_next w) (child_ids (k_sas (s_k w)))
  ∧ NoDup (sa_UniqueID <$> k_sas (s_k w)) ∧ Forall (λ id, id < s_next w) (sa_UniqueID <$> k_sas (s_k w)).

Lemma initiated_outside id n child sas : outside n (initiated id n child sas) = outside n sas.
Proof.
  unfold outside. induction sas as [|s sas IH]; cbn [initiated].
  - rewrite filter_cons_False by (cbn; tauto). done.
  - destruct (String.eqb_spec (sa_Name s) n) as [E|E].
    + rewrite !filter_cons_False by (cbn; tauto). done.
    + rewrite !filter_cons_True by done. by rewrite IH.
Qed.

Lemma initiated_child id n child sas : has_child (initiated id n child sas) n child.
Proof.
  induction sas as [|s sas (s' & c & Hs & Hn & Hc & Hch)]; cbn [initiated].
  - exists (ike_of id n [child_of id n child]), (child_of id n child). split_and!; [by left|done|by left|done].
  - destruct (String.eqb_spec (sa_Name s) n) as [E|E].
    + eexists _, (child_of id n child). split_and!; [by left|done| |done]. cbn. apply elem_of_snoc. by right.
    + exists s', c. split_and!; [by right|done..].
Qed.

Lemma initiated_ids id n child sas : child_ids (initiated id n child sas) ≡ₚ id :: child_ids sas.
Proof.
  unfold child_ids. induction sas as [|s sas IH]; cbn [initiated]; [done|].
  destruct (String.eqb (sa_Name s) n); cbn [flat_map].
  - rewrite !fmap_app. cbn. rewrite fmap_app. cbn. rewrite <- app_assoc. cbn. by rewrite Permutation_middle.
  - rewrite !fmap_app, IH. by rewrite Permutation_middle.
Qed.

Lemma initiated_ike_ids id n child sas :
  sa_UniqueID <$> initiated id n child sas = sa_UniqueID <$> sas
  ∨ sa_UniqueID <$> initiated id n child sas = (sa_UniqueID <$> sas) ++ [id].
Proof.
  induction sas as [|s sas IH]; cbn [initiated]; [by right|]. destruct (String.eqb (sa_Name s) n); [by left|].
  rewrite !fmap_cons. destruct IH as [->| ->]; [by left|by right].
Qed.

(** Closing SAs closes CHILD_SAs, and makes none. *)
Lemma outside_ids (P : IKESA → Prop) `{!∀ s, Decision (P s)} sas : child_ids (filter P sas) `sublist_of` child_ids sas.
Proof.
  unfold child_ids. apply fmap_sublist. induction sas as [|s sas IH]; [done|].
  rewrite filter_cons. cbn [flat_map]. case_decide; cbn [flat_map]; [by apply sublist_app|by apply sublist_inserts_l].
Qed.
Lemma drop_child_ids id sas : child_ids (drop_child id <$> sas) `sublist_of` child_ids sas.
Proof.
  unfold child_ids. apply fmap_sublist. induction sas as [|s sas IH]; [done|].
  cbn [fmap list_fmap flat_map]. apply sublist_app; [apply sublist_filter|done].
Qed.

Ltac sim_cases :=
  repeat first
    [ case_bool_decide
    | match goal with
      | |- context [match ?m !! ?i with _ => _ end] => destruct (m !! i) eqn:?
      | |- context [if has_dev ?k ?r then _ else _] => destruct (has_dev k r) eqn:?
      end ].

Lemma sim_call_effect c id k :
  match sim_call c id k with
  | (None, k') => ok_effect c k k'
  | (Some e, k') => err_effect c e k k'
  end.
Proof.
  destruct c; cbn; sim_cases; cbn; eauto; try (split; [by eexists|done]).
  exists (initiated id ike child (k_sas k)). split_and!; [apply initiated_outside|apply initiated_child|done].
Qed.

Lemma sim_call_wf c id k :
  map_Forall (λ _ r, r_Dev r ≠ "" → is_Some (k_links k !! r_Dev r)) (k_routes k) →
  let k' := (sim_call c id k).2 in
  map_Forall (λ _ r, r_Dev r ≠ "" → is_Some (k_links k' !! r_Dev r)) (k_routes k').
Proof.
  intros Hwf. assert (∀ r, has_dev k r = true → r_Dev r ≠ "" → is_Some (k_links k !! r_Dev r)) as Hd.
  { unfold has_dev. intros r [?%String.eqb_eq|?%bool_decide_eq_true_1]%orb_true_iff ?; done. }
  destruct c; cbn; sim_cases; cbn; try done.
  - intros i r Hi Hne. destruct (decide (r_Dev r = name)) as [->|]; [by rewrite lookup_insert_eq; eexists|].
    rewrite lookup_insert_ne by done. by eapply Hwf.
  - intros i r [Hi Hne]%map_lookup_filter_Some He. cbn in Hne. rewrite lookup_delete_ne by done. by eapply Hwf.
  - apply map_Forall_insert_2; auto.
  - apply map_Forall_insert_2; auto.
  - by apply map_Forall_delete.
Qed.

Lemma sim_call_sas c id k :
  let k' := (sim_call c id k).2 in
  NoDup (child_ids (k_sas k)) → Forall (λ i, i < id) (child_ids (k_sas k)) →
  NoDup (child_ids (k_sas k')) ∧ Forall (λ i, i < id + 1) (child_ids (k_sas k')).
Proof.
  intros k' Hnd HF.
  assert (∀ sas, child_ids sas `sublist_of` child_ids (k_sas k) →
    NoDup (child_ids sas) ∧ Forall (λ i, i < id + 1) (child_ids sas)) as Hsub.
  { intros sas Hs. split; [by eapply sublist_NoDup|]. rewrite Forall_forall in HF |- *.
    intros x Hx. assert (x ∈ child_ids (k_sas k)) as Hin%HF by (by eapply elem_of_sublist). lia. }
  assert (k_sas k' = k_sas k → NoDup (child_ids (k_sas k')) ∧ Forall (λ i, i < id + 1) (child_ids (k_sas k'))) as Hsame
    by (intros E; rewrite E; by apply Hsub).
  destruct c; cbn in k'; try (apply Hsame; unfold k'; sim_cases; done).
  - unfold k'. cbn [with_sas k_sas]. rewrite initiated_ids. split.
    + apply NoDup_cons. split; [|done]. intros Hin. rewrite Forall_forall in HF. specialize (HF _ Hin). lia.
    + constructor; [lia|]. eapply Forall_impl; [done|]. cbn. lia.
  - cbn. apply Hsub, outside_ids.
  - cbn. apply Hsub, outside_ids.
  - cbn. apply Hsub, drop_child_ids.
Qed.

Lemma sim_call_ikes c id k :
  let k' := (sim_call c id k).2 in
  NoDup (sa_UniqueID <$> k_sas k) → Forall (λ i, i < id) (sa_UniqueID <$> k_sas k) →
  NoDup (sa_UniqueID <$> k_sas k') ∧ Forall (λ i, i < id + 1) (sa_UniqueID <$> k_sas k').
Proof.
  intros k' Hnd HF.
  assert (∀ l, l `sublist_of` (sa_UniqueID <$> k_sas k) → NoDup l ∧ Forall (λ i, i < id + 1) l) as Hsub.
  { intros l Hl. split; [by eapply sublist_NoDup|]. rewrite Forall_forall in HF |- *.
    intros x Hx. assert (x ∈ sa_UniqueID <$> k_sas k) as Hin%HF by (by eapply elem_of_sublist). lia. }
  assert (k_sas k' = k_sas k → NoDup (sa_UniqueID <$> k_sas k') ∧ Forall (λ i, i < id + 1) (sa_UniqueID <$> k_sas k')) as Hsame
    by (intros E; rewrite E; by apply Hsub).
  destruct c; cbn in k'; try (apply Hsame; unfold k'; sim_cases; done); unfold k'; cbn [with_sas k_sas].
  - destruct (initiated_ike_ids id ike child (k_sas k)) as [->| ->]; [by apply Hsub|]. split.
    + apply NoDup_app. split_and!; [done| |apply NoDup_singleton].
      intros x Hx ->%list_elem_of_singleton. rewrite Forall_forall in HF. specialize (HF _ Hx). lia.
    + apply Forall_app. split; [|constructor; [lia|constructor]]. eapply Forall_impl; [done|]. cbn. lia.
  - apply Hsub, fmap_sublist, sublist_filter.
  - apply Hsub, fmap_sublist, sublist_filter.
  - rewrite <- list_fmap_compose. by apply Hsub.
Qed.

#[export] Instance sim_laws : EnvLaws sim.
Proof.
  refine {| view := s_k; env_wf := sim_wf |}.
  - intros c w w'. cbn. unfold sim_sys. pose proof (sim_call_effect c (s_next w) (s_k w)) as H.
    destruct (default false _); [done|]. destruct (sim_call c (s_next w) (s_k w)) as [[e|] k]; [done|]. by intros [= <-].
  - intros c e w w'. cbn. unfold sim_sys. pose proof (sim_call_effect c (s_next w) (s_k w)) as H.
    destruct (default false _).
    + intros [= <- <-]. destruct c; cbn; try done; eexists; split_and!; try done; by destruct (s_k w).
    + destruct (sim_call c (s_next w) (s_k w)) as [[e'|] k]; [|done]. by intros [= <- <-].
  - intros c w (Hw & Hnd & HF & Hnd' & HF'). cbn. unfold sim_sys. destruct (default false _).
    { split_and!; [done..| |done|]; (eapply Forall_impl; [done|]); cbn; lia. }
    pose proof (sim_call_wf c (s_next w) (s_k w) Hw) as H. pose proof (sim_call_sas c (s_next w) (s_k w) Hnd HF) as [H1 H2].
    pose proof (sim_call_ikes c (s_next w) (s_k w) Hnd' HF') as [H3 H4].
    by destruct (sim_call c (s_next w) (s_k w)) as [e k].
  - intros w k r [Hw _] Hk Hne. by eapply Hw.
  - by intros w (_ & ? & _).
  - by intros w (_ & _ & _ & ? & _).
  - by intros n w sas [= <-].
Defined.

#[export] Instance sim_range : Range := {| range K _ _ V m := map_to_list m |}.
#[export] Instance sim_range_laws : RangeLaws.
Proof. done. Qed.

End Sim.

(** ** A move whose second replacement fails *)

Module RoutesDemo.
Import Sim.

Definition net8 (a : Z) : Prefix := mkPrefix (Addr4 (a * 2 ^ 24)) 8.
Definition via (dev : string) (a : Z) : Route := mkRoute (net8 a) noAddr dev noAddr 0.
Definition world (routes : list Route) (faults : list bool) : sim :=
  mkSim (mkKernel {["egx1" := 1; "egx2" := 2; "eth0" := 0]} (list_to_map ((λ r, (rkey r, r)) <$> routes)) ∅ ∅ ∅ [])
    faults 1 (via "eth0" 0) None.

Definition installed : gmap Prefix Route := {[net8 10 := via "egx1" 10]}.
Definition want : list Route := [via "egx2" 10; via "egx2" 11].
Definition before : sim := world [via "egx1" 10] [false; true].
Definition outcome := rs_apply want installed before.


(** A route to a wanted prefix that was there before, and is not the set's own,
    does not come back: undoing deletes it. *)
Definition foreign : sim := world [via "eth0" 10] [false; true].
Lemma rs_apply_loses_foreign_route :
  let '(e, inst, w) := rs_apply want ∅ foreign in
  e ≠ None ∧ ¬ is_undo e ∧ inst = ∅
  ∧ k_routes (view foreign) !! rkey (via "eth0" 10) = Some (via "eth0" 10) ∧ k_routes (view w) = ∅.
Proof. vm_compute. by split_and!. Qed.

End RoutesDemo.
