(* ===== verification/IpsecClient.v ===== *)
(** * The IPsec client: internal/ipsec/client.go

    A client keeps one SA per gateway, each on its own XFRM interface, and
    points routes at one of them. [Add], [Remove], [Promote], [Advance] and
    [Close] are written as the code has them: the critical sections of its
    mutexes, and between them single calls to kernel and daemon, so that they
    can be run one after the other or interleaved ([step]). The theorems: a
    failed [Add] leaves client, kernel and daemon as they were; under every
    interleaving the tables account for exactly the gateways added, being added
    or being removed; [Advance] fences exactly the older CHILD_SAs. Three
    schedules show what the locking does not cover. *)

From S2P Require Import Prelude Netip IpsecConfig IpsecNet.

Definition DefaultCleanupTimeout : Duration := 10 * Second.
Definition DefaultPollInterval : Duration := 30 * Second.
Definition DefaultInterfacePrefix : string := "egx".

Record ClientConfig := mkClientConfig {
  cc_Name : string;
  cc_LocalID : string;
  cc_PSK : string;
  cc_VirtualIP : ZAddr;
  cc_LocalAddr : ZAddr;
  cc_FullTunnel : bool;
  cc_Controllers : list ZAddr;
  cc_Table : Z;
  cc_DPDDelay : Duration;
  cc_IKEProposals : list string;
  cc_ESPProposals : list string;
  cc_InterfacePrefix : string;
  cc_Underlay : string;
  cc_PollInterval : Duration;
  cc_CleanupTimeout : Duration;
}.

Definition or_default (s d : string) : string := if String.eqb s "" then d else s.
Definition or_positive (x d : Z) : Z := if x <=? 0 then d else x.

Definition client_setDefaults (cfg : ClientConfig) : ClientConfig :=
  mkClientConfig (or_default (cc_Name cfg) "egressa") (cc_LocalID cfg) (cc_PSK cfg) (cc_VirtualIP cfg)
    (cc_LocalAddr cfg) (cc_FullTunnel cfg) (cc_Controllers cfg) (cc_Table cfg) (cc_DPDDelay cfg)
    (cc_IKEProposals cfg) (cc_ESPProposals cfg) (or_default (cc_InterfacePrefix cfg) DefaultInterfacePrefix)
    (cc_Underlay cfg) (or_positive (cc_PollInterval cfg) DefaultPollInterval)
    (or_positive (cc_CleanupTimeout cfg) DefaultCleanupTimeout).

Fixpoint check_controllers (local : ZAddr) (l : list ZAddr) : res error () :=
  match l with
  | [] => Ok ()
  | a :: l =>
      try _ := checkAddr "controller" a in
      try _ := checkSameFamily "controller" local a in check_controllers local l
  end.

Definition client_validate (cfg : ClientConfig) : res error () :=
  try _ := fail_if (negb (nameRE (cc_Name cfg))) "client name" in
  try _ := fail_if (negb (idRE (cc_LocalID cfg))) "client LocalID" in
  try _ := validatePSK "client" (cc_PSK cfg) in
  try _ := checkAddr "client VirtualIP" (cc_VirtualIP cfg) in
  try _ := (if za_IsValid (cc_LocalAddr cfg) then checkAddr "client LocalAddr" (cc_LocalAddr cfg) else Ok ()) in
  try _ := check_controllers (cc_LocalAddr cfg) (cc_Controllers cfg) in
  try _ := fail_if (cc_Table cfg <? 0) "client routing table" in
  try _ := fail_if (negb (ifPrefixRE (cc_InterfacePrefix cfg))) "interface prefix" in
  fail_if (cc_DPDDelay cfg <? 0) "client DPDDelay".

Record Peer := mkPeer {
  p_Name : string; p_Addr : ZAddr; p_ID : string; p_IfID : Z; p_Epoch : Z; p_Prefixes : list Prefix;
}.
Record clientPeer := mkClientPeer { cp_peer : Peer; cp_conn : Connection; cp_iface : string }.
Record bypassRoute := mkBypass { bp_route : Route; bp_owned : bool; bp_refs : Z }.

Record Client := mkClient {
  c_peers : gmap string clientPeer;
  c_pending : gset string;
  c_ifIDs : gmap Z string;
  c_active : string;
  c_closed : bool;
  c_routes : gmap Prefix Route;
  c_bypass : gmap ZAddr bypassRoute;
}.
Definition emptyClient : Client := mkClient ∅ ∅ ∅ "" false ∅ ∅.

Definition set_c_peers f c := mkClient (f (c_peers c)) (c_pending c) (c_ifIDs c) (c_active c) (c_closed c) (c_routes c) (c_bypass c).
Definition set_c_pending f c := mkClient (c_peers c) (f (c_pending c)) (c_ifIDs c) (c_active c) (c_closed c) (c_routes c) (c_bypass c).
Definition set_c_ifIDs f c := mkClient (c_peers c) (c_pending c) (f (c_ifIDs c)) (c_active c) (c_closed c) (c_routes c) (c_bypass c).
Definition set_c_active a c := mkClient (c_peers c) (c_pending c) (c_ifIDs c) a (c_closed c) (c_routes c) (c_bypass c).
Definition set_c_closed c := mkClient (c_peers c) (c_pending c) (c_ifIDs c) (c_active c) true (c_routes c) (c_bypass c).
Definition set_c_routes r c := mkClient (c_peers c) (c_pending c) (c_ifIDs c) (c_active c) (c_closed c) r (c_bypass c).
Definition set_c_bypass f c := mkClient (c_peers c) (c_pending c) (c_ifIDs c) (c_active c) (c_closed c) (c_routes c) (f (c_bypass c)).

(** A step of clean-up: the closures that [bringUp] pushes on its undo list, and
    the calls of [tearDown]. *)
Inductive undo :=
| UDeleteLink (iface : string)
| UReleaseBypass (a : ZAddr)
| UUnloadShared (id : string)
| UUnloadConn (name : string)
| UTerminateIKE (name : string).

(** The steps of [bringUp]. *)
Inductive instr :=
| ICall (c : call) (undo : list undo)      (* a call, and what its success pushes *)
| IAcquire (a : ZAddr)
| ICtx.

Section client.
Context {W : Type} `{!Env W} `{!Range} (cfg : ClientConfig).

Record st := mkSt { st_c : Client; st_w : W }.
Definition on_c (f : Client → Client) (s : st) : st := mkSt (f (st_c s)) (st_w s).
Definition run_call (c : call) (s : st) : option error * st :=
  let '(e, w) := sys c (st_w s) in (e, mkSt (st_c s) w).

(** ** Connections *)

Definition connName (peer : string) : string := cc_Name cfg +:+ "-" +:+ peer.

Definition connection (p : Peer) : Connection :=
  mkConnection (connName (p_Name p)) (p_Epoch p) (cc_LocalAddr cfg) (p_Addr p) (cc_LocalID cfg) (p_ID p)
    AuthPSK (cc_PSK cfg) "" "" [hostPrefix (cc_VirtualIP cfg)]
    (match p_Prefixes p with [] => [allAddresses (familyOf (za_Addr (cc_VirtualIP cfg)))] | l => l end)
    (p_IfID p) (cc_IKEProposals cfg) (cc_ESPProposals cfg) (cc_DPDDelay cfg) StartNone.

Definition validatePeer (p : Peer) : res error Connection :=
  try _ := checkAddr ("gateway " +:+ p_Name p) (p_Addr p) in
  try _ := checkSameFamily ("gateway " +:+ p_Name p) (cc_LocalAddr cfg) (p_Addr p) in
  try _ := checkPrefixes ("gateway " +:+ p_Name p +:+ " prefix") (familyOf (za_Addr (cc_VirtualIP cfg))) (p_Prefixes p) in
  try _ := Validate (connection p) in
  Ok (connection p).

Definition client_iface (p : Peer) : string := ifaceName (cc_InterfacePrefix cfg) (p_IfID p).

(** ** Bypass routes *)

Definition isOurInterface (c : Client) (dev : string) : bool :=
  negb (String.eqb dev "") && HasPrefix dev (cc_InterfacePrefix cfg)
  && existsb (λ kv, String.eqb (ifaceName (cc_InterfacePrefix cfg) kv.1) dev) (map_to_list (c_ifIDs c)).

Definition underlayRoute (dst : ZAddr) (s : st) : res error Route :=
  try r := RouteGet dst (st_w s) in
  try r := (if isOurInterface (st_c s) (r_Dev r)
            then res_map_err (ErrWrap "resolves into a tunnel and there is no default route to bypass it through")
                   (DefaultRoute (familyOf (za_Addr dst)) (st_w s))
            else Ok r) in
  Ok (mkRoute (hostPrefix dst) (r_Gw r) (r_Dev r) noAddr (cc_Table cfg)).

Definition acquireBypass (dst : ZAddr) (s : st) : option error * st :=
  match c_bypass (st_c s) !! dst with
  | Some b => (None, on_c (set_c_bypass (<[dst := mkBypass (bp_route b) (bp_owned b) (bp_refs b + 1)]>)) s)
  | None =>
      match underlayRoute dst s with
      | Err e => (Some e, s)
      | Ok r =>
          let add owned := on_c (set_c_bypass (<[dst := mkBypass r owned 1]>)) in
          match run_call (RouteAdd r) s with
          | (None, s) => (None, add true s)
          | (Some e, s) => if is_ErrExist e then (None, add false s) else (Some e, s)
          end
      end
  end.

Definition releaseBypass (dst : ZAddr) (s : st) : option error * st :=
  match c_bypass (st_c s) !! dst with
  | None => (None, s)
  | Some b =>
      let b := mkBypass (bp_route b) (bp_owned b) (bp_refs b - 1) in
      if bp_refs b >? 0 then (None, on_c (set_c_bypass (<[dst := b]>)) s) else
      let s := on_c (set_c_bypass (delete dst)) s in
      if negb (bp_owned b) then (None, s) else
      let '(e, s) := run_call (RouteDel (bp_route b)) s in (ignoreNotExist e, s)
  end.

(** ** Clean-up *)

Definition run_undo (u : undo) (s : st) : option error * st :=
  let ignoring f c := let '(e, s) := run_call c s in (f e, s) in
  match u with
  | UDeleteLink iface => ignoring ignoreNotExist (DeleteLink iface)
  | UReleaseBypass a => releaseBypass a s
  | UUnloadShared id => ignoring ignoreNotFound (UnloadShared id)
  | UUnloadConn name => ignoring ignoreNotFound (UnloadConn name)
  | UTerminateIKE name => ignoring ignoreNotFound (TerminateIKE name)
  end.

(** Runs a list of clean-up steps to its end, whatever fails. *)
Fixpoint run_undos (us : list undo) (s : st) : list (option error) * st :=
  match us with
  | [] => ([], s)
  | u :: us => let '(e, s) := run_undo u s in let '(es, s) := run_undos us s in (e :: es, s)
  end.

(** The calls of [tearDown], in order. *)
Definition tearDown_steps (p : clientPeer) : list undo :=
  [UTerminateIKE (cn_Name (cp_conn p)); UUnloadConn (cn_Name (cp_conn p)); UUnloadShared (cn_Name (cp_conn p))]
  ++ (if cc_FullTunnel cfg then [UReleaseBypass (p_Addr (cp_peer p))] else [])
  ++ [UDeleteLink (cp_iface p)].
Definition tearDown (p : clientPeer) (s : st) : option error * st :=
  let '(es, s) := run_undos (tearDown_steps p) s in
  (ErrWrap ("remove gateway " +:+ p_Name (cp_peer p)) <$> errors_Join es, s).

(** ** [Add] *)

(** [bringUp], as the steps it takes until one fails. *)
Definition bringUp (p : Peer) (conn : Connection) (iface : string) : list instr :=
  [ICall (AddXfrmInterface iface (p_IfID p) (cc_Underlay cfg)) [UDeleteLink iface];
   ICall (AddAddr iface (hostPrefix (cc_VirtualIP cfg))) [];
   ICall (SetLinkUp iface) []]
  ++ (if cc_FullTunnel cfg then [IAcquire (p_Addr p)] else [])
  ++ [ICall (LoadShared (mkSecret (cn_Name conn) (cn_PSK conn) [cn_LocalID conn; cn_RemoteID conn])) [UUnloadShared (cn_Name conn)];
      ICall (LoadConn conn) [UTerminateIKE (cn_Name conn); UUnloadConn (cn_Name conn)];
      ICtx;
      ICall (Initiate (cn_Name conn) (ChildName (cn_Name conn) (cn_Epoch conn))) []].

(** One step: its error, and what it pushes on the undo list (newest first). *)
Definition run_instr (i : instr) (s : st) : option error * list undo * st :=
  match i with
  | ICall c us => let '(e, s) := run_call c s in (e, us, s)
  | IAcquire a => let '(e, s) := acquireBypass a s in (e, [UReleaseBypass a], s)
  | ICtx => (ctx_Err (st_w s), [], s)
  end.

Fixpoint run_instrs (is_ : list instr) (us : list undo) (s : st) : option error * list undo * st :=
  match is_ with
  | [] => (None, us, s)
  | i :: is_ =>
      match run_instr i s with
      | (Some e, _, s) => (Some e, us, s)
      | (None, new, s) => run_instrs is_ (new ++ us) s
      end
  end.

(** The first critical section: the name and the if_id are reserved. *)
Definition Add_reserve (p : Peer) (c : Client) : res error (Connection * Client) :=
  try conn := validatePeer p in
  if c_closed c then Err ErrClosed
  else if bool_decide (is_Some (c_peers c !! p_Name p)) || bool_decide (p_Name p ∈ c_pending c)
  then Err (ErrWrap "already added or being added" ErrExist)
  else if negb (String.eqb (default "" (c_ifIDs c !! p_IfID p)) "")
  then Err (ErrWrap "if_id is already used" ErrExist)
  else Ok (conn, set_c_ifIDs (<[p_IfID p := p_Name p]>) (set_c_pending (λ s, {[p_Name p]} ∪ s) c)).

(** The second: the peer is recorded, or the reservation given up. *)
Definition Add_finish (p : Peer) (conn : Connection) (err : option error) (c : Client) : option error * Client :=
  let c := set_c_pending (λ s, s ∖ {[p_Name p]}) c in
  let err := match err with Some e => Some e | None => if c_closed c then Some ErrClosed else None end in
  match err with
  | None => (None, set_c_peers (<[p_Name p := mkClientPeer p conn (client_iface p)]>) c)
  | Some e => (Some e, set_c_ifIDs (delete (p_IfID p)) c)
  end.

Definition Add (p : Peer) (s : st) : option error * st :=
  match Add_reserve p (st_c s) with
  | Err e => (Some e, s)
  | Ok (conn, c) =>
      let '(err, us, s) := run_instrs (bringUp p conn (client_iface p)) [] (mkSt c (st_w s)) in
      match Add_finish p conn err (st_c s) with
      | (None, c) => (None, mkSt c (st_w s))
      | (Some e, c) =>
          let '(es, s) := run_undos us (mkSt c (st_w s)) in
          match errors_Join es with
          | Some u => (Some (ErrUndo ("add gateway " +:+ p_Name p) e u), s)
          | None => (Some (ErrWrap ("add gateway " +:+ p_Name p) e), s)
          end
      end
  end.

(** ** [NewClient] *)

Fixpoint acquire_controllers (done l : list ZAddr) (s : st) : option error * st :=
  match l with
  | [] => (None, s)
  | a :: l =>
      match acquireBypass a s with
      | (Some e, s) => (Some (ErrWrap "bypass route for controller" e), (run_undos (UReleaseBypass <$> done) s).2)
      | (None, s) => acquire_controllers (done ++ [a]) l s
      end
  end.

(** With a configuration that has its defaults. *)
Definition NewClient (w : W) : option error * st :=
  match client_validate cfg with
  | Err e => (Some e, mkSt emptyClient w)
  | Ok _ => if cc_FullTunnel cfg then acquire_controllers [] (cc_Controllers cfg) (mkSt emptyClient w)
            else (None, mkSt emptyClient w)
  end.

(** ** [Promote] *)

Definition client_peer (name : string) (c : Client) : res error clientPeer :=
  if c_closed c then Err ErrClosed
  else match c_peers c !! name with Some p => Ok p | None => Err (ErrWrap "no gateway" ErrNotFound) end.

(** The loop that builds [want]. *)
Fixpoint want_routes (iface : string) (seen : gset Prefix) (ps : list Prefix) : res error (list Route) :=
  match ps with
  | [] => Ok []
  | pf :: ps =>
      let pf := Masked pf in
      if pf_Bits pf =? 0 then Err (ErrText "refusing to route: the default route is never touched")
      else if bool_decide (pf ∈ seen) then want_routes iface seen ps
      else try rs := want_routes iface ({[pf]} ∪ seen) ps in
           Ok (mkRoute pf noAddr iface (cc_VirtualIP cfg) (cc_Table cfg) :: rs)
  end.

(** Up to the route mutex: which routes are wanted. *)
Definition Promote_check (name : string) (prefixes : list Prefix) (s : st) : res error (list Route) :=
  match ctx_Err (st_w s) with
  | Some e => Err e
  | None =>
      try p := client_peer name (st_c s) in
      let f := familyOf (za_Addr (cc_VirtualIP cfg)) in
      try prefixes :=
        (if cc_FullTunnel cfg then
           match prefixes with
           | [] => Ok (fullTunnelPrefixes f)
           | _ => Err (ErrText "full-tunnel client routes everything; Promote takes no prefixes")
           end
         else match prefixes with
              | [] => Err (ErrText "Promote of a split-tunnel client needs at least one prefix")
              | _ => Ok prefixes
              end) in
      try _ := checkPrefixes "promoted" f prefixes in
      want_routes (cp_iface p) ∅ prefixes
  end.

(** Under the route mutex. *)
Definition Promote_apply (want : list Route) (s : st) : option error * st :=
  let '(e, rs, w) := rs_apply want (c_routes (st_c s)) (st_w s) in
  (e, mkSt (set_c_routes rs (st_c s)) w).

Definition Promote (name : string) (prefixes : list Prefix) (s : st) : option error * st :=
  match Promote_check name prefixes s with
  | Err e => (Some e, s)
  | Ok want =>
      match Promote_apply want s with
      | (Some e, s) => (Some (ErrWrap ("promote " +:+ name) e), s)
      | (None, s) => (None, on_c (set_c_active name) s)
      end
  end.

(** ** [Remove] *)

Definition Remove_start (name : string) (c : Client) : res error (clientPeer * Client) :=
  if c_closed c then Err ErrClosed
  else match c_peers c !! name with
       | None => Err (ErrWrap "no gateway" ErrNotFound)
       | Some p =>
           if String.eqb (c_active c) name then Err (ErrText "carries the routes; promote another gateway before removing it")
           else Ok (p, set_c_pending (λ s, {[name]} ∪ s) (set_c_peers (delete name) c))
       end.
Definition Remove_end (name : string) (p : clientPeer) (c : Client) : Client :=
  set_c_ifIDs (delete (p_IfID (cp_peer p))) (set_c_pending (λ s, s ∖ {[name]}) c).

Definition Remove (name : string) (s : st) : option error * st :=
  match Remove_start name (st_c s) with
  | Err e => (Some e, s)
  | Ok (p, c) => let '(e, s) := tearDown p (mkSt c (st_w s)) in (e, on_c (Remove_end name p) s)
  end.

(** ** Fencing and [Advance] *)

(** The CHILD_SAs of [conn] that [fenceBelow] tears down. *)
Definition stale (conn : string) (epoch : Z) (c : ChildSA) : bool :=
  match ParseChildName (ch_Name c) with
  | Some (owner, e) => String.eqb owner conn && (e <? epoch)
  | None => false
  end.

Fixpoint terminate_all (ids : list Z) (w : W) : list (option error) * W :=
  match ids with
  | [] => ([], w)
  | id :: ids =>
      let '(e, w) := sys (TerminateChild id) w in
      let '(es, w) := terminate_all ids w in (ignoreNotFound e :: es, w)
  end.

Definition fenceBelow (conn : string) (epoch : Z) (w : W) : option error * W :=
  match ListSAs conn w with
  | Err e => (Some e, w)
  | Ok sas =>
      let ids := ch_UniqueID <$> List.filter (stale conn epoch) (flat_map sa_Children sas) in
      let '(es, w) := terminate_all ids w in (errors_Join es, w)
  end.

Definition FenceBelow (name : string) (epoch : Z) (s : st) : option error * st :=
  match client_peer name (st_c s) with
  | Err e => (Some e, s)
  | Ok p => let '(e, w) := fenceBelow (cn_Name (cp_conn p)) epoch (st_w s) in (e, mkSt (st_c s) w)
  end.

Definition with_Epoch (c : Connection) (e : Z) : Connection :=
  mkConnection (cn_Name c) e (cn_LocalAddr c) (cn_RemoteAddr c) (cn_LocalID c) (cn_RemoteID c) (cn_Auth c) (cn_PSK c)
    (cn_LocalPubkey c) (cn_RemotePubkey c) (cn_LocalTS c) (cn_RemoteTS c) (cn_IfID c) (cn_IKEProposals c)
    (cn_ESPProposals c) (cn_DPDDelay c) (cn_Start c).
Definition advance_peer (next : Connection) (p : clientPeer) : clientPeer :=
  let q := cp_peer p in
  mkClientPeer (mkPeer (p_Name q) (p_Addr q) (p_ID q) (p_IfID q) (cn_Epoch next) (p_Prefixes q)) next (cp_iface p).

Definition Advance (name : string) (epoch : Z) (s : st) : option error * st :=
  match client_peer name (st_c s) with
  | Err e => (Some e, s)
  | Ok p =>
      if epoch <=? cn_Epoch (cp_conn p) then (Some (ErrText "it is already at that epoch"), s) else
      let next := with_Epoch (cp_conn p) epoch in
      match run_call (LoadConn next) s with
      | (Some e, s) => (Some e, s)
      | (None, s) =>
          match run_call (Initiate (cn_Name next) (ChildName (cn_Name next) epoch)) s with
          | (Some e, s) =>
              match run_call (LoadConn (cp_conn p)) s with
              | (Some u, s) => (Some (ErrUndo ("advance " +:+ name) e u), s)
              | (None, s) => (Some (ErrWrap ("advance " +:+ name) e), s)
              end
          | (None, s) =>
              let s := on_c (set_c_peers (alter (advance_peer next) name)) s in
              let '(e, w) := fenceBelow (cn_Name next) epoch (st_w s) in (e, mkSt (st_c s) w)
          end
      end
  end.

(** ** Waits and loss *)

Definition IsWarm (conn : string) (w : W) : res error bool :=
  try sas := ListSAs conn w in
  Ok (match FindIKE sas conn with Some sa => Warm sa | None => false end).
Definition client_Warm (name : string) (s : st) : res error bool :=
  try p := client_peer name (st_c s) in IsWarm (cn_Name (cp_conn p)) (st_w s).

(** ** [Close] *)

(** What a clean-up goroutine still has to do. *)
Inductive cleanup :=
| CUndo (u : undo)
| CClear                                   (* withdraw the routes *)
| CDropIf (ifID : Z)                       (* delete(c.ifIDs, ...) in Close *)
| CRemoved (name : string) (p : clientPeer). (* the end of Remove *)

Definition run_cleanup (x : cleanup) (s : st) : option error * st :=
  match x with
  | CUndo u => run_undo u s
  | CClear => Promote_apply [] s
  | CDropIf id => (None, on_c (set_c_ifIDs (delete id)) s)
  | CRemoved name p => (None, on_c (Remove_end name p) s)
  end.
Fixpoint run_cleanups (xs : list cleanup) (s : st) : list (option error) * st :=
  match xs with
  | [] => ([], s)
  | x :: xs => let '(e, s) := run_cleanup x s in let '(es, s) := run_cleanups xs s in (e :: es, s)
  end.

Definition Close_start (c : Client) : option (list clientPeer * Client) :=
  if c_closed c then None
  else Some (snd <$> range (c_peers c), set_c_active "" (set_c_peers (λ _, ∅) (set_c_closed c))).

Definition Close_steps (peers : list clientPeer) : list cleanup :=
  [CClear]
  ++ flat_map (λ p, (CUndo <$> tearDown_steps p) ++ [CDropIf (p_IfID (cp_peer p))]) peers
  ++ (if cc_FullTunnel cfg then (CUndo ∘ UReleaseBypass) <$> cc_Controllers cfg else []).

Definition Close (s : st) : option error * st :=
  match Close_start (st_c s) with
  | None => (None, s)
  | Some (peers, c) => let '(es, s) := run_cleanups (Close_steps peers) (mkSt c (st_w s)) in (errors_Join es, s)
  end.

End client.

(** ** Undoing *)

Section rollback.
Context {W : Type} {WE : Env W} {WL : EnvLaws W} {WR : Range} (cfg : ClientConfig).
Implicit Types (b : gmap ZAddr bypassRoute) (k : kernel) (u : undo) (us : list undo).

Lemma run_call_wf c (s : st) : env_wf (st_w s) → env_wf (st_w (run_call c s).2).
Proof. unfold run_call. intros H. apply (sys_wf c) in H. by destruct (sys c (st_w s)). Qed.

Lemma run_undo_wf u (s : st) : env_wf (st_w s) → env_wf (st_w (run_undo u s).2).
Proof.
  intros Hw. destruct u; cbn.
  2: { unfold releaseBypass. repeat case_match; try done.
       match goal with H : run_call ?c ?s = (?e, _) |- _ =>
         pose proof (run_call_wf c s) as Hr; rewrite H in Hr; by apply Hr end. }
  all: match goal with |- context [run_call ?c ?s] => pose proof (run_call_wf c s Hw); by destruct (run_call c s) end.
Qed.

(** Run without error from bypass table [b] and kernel [k], the steps lead back
    to [b0] and [k0] and change nothing else of the client. *)
Definition undoes us b0 k0 b k : Prop :=
  ∀ c (w : W) es s', env_wf w → c_bypass c = b → view w = k →
    run_undos us (mkSt c w) = (es, s') → Forall (λ e, e = None) es →
    view (st_w s') = k0 ∧ st_c s' = set_c_bypass (λ _, b0) c.

(** The same of one step. *)
Definition undoes1 u b1 k1 b k : Prop :=
  ∀ c (w : W) s', env_wf w → c_bypass c = b → view w = k → run_undo u (mkSt c w) = (None, s') →
    view (st_w s') = k1 ∧ st_c s' = set_c_bypass (λ _, b1) c.

Lemma undoes_nil b k : undoes [] b k b k.
Proof. intros c w es s' _ <- <- [= <- <-] _. split; [done|]. by destruct c. Qed.

Lemma undoes_cons u us b0 k0 b1 k1 b k : undoes1 u b1 k1 b k → undoes us b0 k0 b1 k1 → undoes (u :: us) b0 k0 b k.
Proof.
  intros H1 H2 c w es s' Hw Hb Hk. cbn [run_undos].
  destruct (run_undo u (mkSt c w)) as [e s1] eqn:E1. destruct (run_undos us s1) as [es2 s2] eqn:E2.
  intros [= <- <-] [-> Hes]%Forall_cons. destruct (H1 _ _ _ Hw Hb Hk E1) as [Hk1 Hc1].
  pose proof (run_undo_wf u (mkSt c w) Hw) as Hw1. rewrite E1 in Hw1.
  destruct s1 as [c1 w1]. cbn in *. subst c1.
  destruct (H2 (set_c_bypass (λ _, b1) c) _ _ _ Hw1 eq_refl Hk1 E2 Hes) as [Hk2 Hc2]. split; [done|]. rewrite Hc2. by destruct c.
Qed.

(** A clean-up call that reverts [k] to [k1]. *)
Lemma undoes1_call u (ig : option error → option error) c k1 b k :
  (∀ s, run_undo u s = let '(e, s) := run_call c s in (ig e, s)) → reverts c ig k k1 → undoes1 u b k1 b k.
Proof.
  intros Hu Hr cl w s' _ <- <-. rewrite Hu. unfold run_call. cbn.
  destruct (sys c w) as [e w1] eqn:Es. intros [= He <-]. split; [by eapply reverts_sys|by destruct cl].
Qed.

(** Acquiring a bypass route and releasing it again. *)
Lemma undo_acquire a (s : st) e s' :
  (∀ bp, c_bypass (st_c s) !! a = Some bp → 0 < bp_refs bp) →
  acquireBypass cfg a s = (e, s') →
  st_c s' = set_c_bypass (λ _, c_bypass (st_c s')) (st_c s) ∧
  match e with
  | None => undoes1 (UReleaseBypass a) (c_bypass (st_c s)) (view (st_w s)) (c_bypass (st_c s')) (view (st_w s'))
  | Some _ => view (st_w s') = view (st_w s) ∧ c_bypass (st_c s') = c_bypass (st_c s)
  end.
Proof.
  intros Hpos. unfold acquireBypass. destruct (c_bypass (st_c s) !! a) as [bp|] eqn:Eb.
  { intros [= <- <-]. cbn. split; [done|]. intros c w s1 _ Hb Hk. cbn. unfold releaseBypass. cbn.
    rewrite Hb, lookup_insert_eq. cbn. specialize (Hpos bp eq_refl).
    replace (bp_refs bp + 1 - 1) with (bp_refs bp) by lia.
    destruct (bp_refs bp >? 0) eqn:Ez; [|by zbool; lia]. intros [= <-]. cbn. split; [done|].
    unfold set_c_bypass. rewrite Hb, insert_insert_eq. destruct bp as [br bo brf]. cbn.
    by rewrite (insert_id (c_bypass (st_c s))). }
  destruct (underlayRoute cfg a s) as [r|e1]; [|intros [= <- <-]; by destruct (st_c s)].
  unfold run_call. destruct (sys (RouteAdd r) (st_w s)) as [[e1|] w1] eqn:Es.
  - apply sys_err in Es as [Hv Hex]. destruct (is_ErrExist e1) eqn:Ee; intros [= <- <-]; cbn; [|by destruct (st_c s)].
    split; [done|]. intros c w s1 _ Hb Hk. cbn. unfold releaseBypass. cbn. rewrite Hb, lookup_insert_eq. cbn.
    intros [= <-]. cbn. split; [congruence|]. unfold set_c_bypass. rewrite Hb. by rewrite delete_insert_id.
  - apply sys_ok in Es as [Hn Hv]. intros [= <- <-]. cbn. split; [done|].
    intros c w s1 _ Hb Hk. cbn. unfold releaseBypass. cbn. rewrite Hb, lookup_insert_eq. cbn.
    unfold run_call. cbn. destruct (sys (RouteDel r) w) as [e2 w2] eqn:E2. intros [= He <-]. cbn.
    split; [|unfold set_c_bypass; rewrite Hb; by rewrite delete_insert_id].
    apply ignoreNotExist_None in He as [->|(e3 & -> & He)].
    + apply sys_ok in E2 as [_ ->]. rewrite Hk, Hv, with_routes_comp. apply with_routes_id. by apply delete_insert_id.
    + exfalso. apply sys_err in E2 as [_ H]. apply (H He). rewrite Hk, Hv. cbn. apply lookup_insert_eq.
Qed.

Lemma acquire_routes a (s : st) e s' :
  acquireBypass cfg a s = (e, s') → ∃ f, view (st_w s') = with_routes f (view (st_w s)).
Proof.
  assert (∃ f, view (st_w s) = with_routes f (view (st_w s))) as Hid by (exists id; by destruct (view (st_w s))).
  unfold acquireBypass. destruct (_ !! a); [by intros [= <- <-]|].
  destruct (underlayRoute cfg a s) as [r|]; [|by intros [= <- <-]].
  unfold run_call. destruct (sys (RouteAdd r) (st_w s)) as [[e1|] w1] eqn:Es.
  - apply sys_err in Es as [Hv _]. destruct (is_ErrExist e1); intros [= <- <-]; cbn; by rewrite Hv.
  - apply sys_ok in Es as [_ Hv]. intros [= <- <-]. cbn. eauto.
Qed.

Lemma acquire_wf a (s : st) : env_wf (st_w s) → env_wf (st_w (acquireBypass cfg a s).2).
Proof.
  intros Hw. unfold acquireBypass. destruct (_ !! a); [done|]. destruct (underlayRoute cfg a s) as [r|]; [|done].
  pose proof (run_call_wf (RouteAdd r) s Hw) as H. destruct (run_call (RouteAdd r) s) as [[e|] s1]; [|done].
  by destruct (is_ErrExist e).
Qed.

(** [is_] run from [s] with undo list [us]: whatever happens, the undo list then
    leads back to [b0] and [k0], and only the bypass table of the client changed. *)
Definition covered (is_ : list instr) us b0 k0 (s : st) : Prop :=
  ∀ e us' s', run_instrs cfg is_ us s = (e, us', s') →
    env_wf (st_w s') ∧ st_c s' = set_c_bypass (λ _, c_bypass (st_c s')) (st_c s) ∧
    undoes us' b0 k0 (c_bypass (st_c s')) (view (st_w s')).

Lemma covered_nil us b0 k0 (s : st) :
  env_wf (st_w s) → undoes us b0 k0 (c_bypass (st_c s)) (view (st_w s)) → covered [] us b0 k0 s.
Proof. intros Hw Hu e us' s' [= <- <- <-]. split_and!; [done|by destruct (st_c s)|done]. Qed.

(** A call in a covered program: its success must be undone by what it pushes,
    its failure by what was there before. *)
Lemma covered_call c new is_ us b0 k0 (s : st) :
  env_wf (st_w s) →
  (∀ e k', err_effect c e (view (st_w s)) k' → undoes us b0 k0 (c_bypass (st_c s)) k') →
  (∀ w', env_wf w' → ok_effect c (view (st_w s)) (view w') → covered is_ (new ++ us) b0 k0 (mkSt (st_c s) w')) →
  covered (ICall c new :: is_) us b0 k0 s.
Proof.
  intros Hw Herr Hok e us' s'. cbn [run_instrs run_instr]. pose proof (run_call_wf c s Hw) as Hw1. revert Hw1.
  unfold run_call. destruct (sys c (st_w s)) as [[e1|] w1] eqn:Es; cbn; intros Hw1 Hrun.
  - injection Hrun as <- <- <-. split_and!; [done|by destruct (st_c s)|]. by eapply Herr, sys_err.
  - by eapply (Hok w1); [|eapply sys_ok|].
Qed.

Lemma covered_acquire a is_ us b0 k0 (s : st) :
  env_wf (st_w s) → (∀ bp, c_bypass (st_c s) !! a = Some bp → 0 < bp_refs bp) →
  undoes us b0 k0 (c_bypass (st_c s)) (view (st_w s)) →
  (∀ s1 f, env_wf (st_w s1) → view (st_w s1) = with_routes f (view (st_w s)) →
     undoes (UReleaseBypass a :: us) b0 k0 (c_bypass (st_c s1)) (view (st_w s1)) →
     covered is_ (UReleaseBypass a :: us) b0 k0 s1) →
  covered (IAcquire a :: is_) us b0 k0 s.
Proof.
  intros Hw Hpos Hu Hk e us' s'. cbn [run_instrs run_instr].
  pose proof (acquire_wf a s Hw) as Hwa. destruct (acquireBypass cfg a s) as [ea sa] eqn:Ea.
  destruct (acquire_routes _ _ _ _ Ea) as [f Hf]. apply undo_acquire in Ea as [Hc Ha]; [|done].
  destruct ea as [ea|]; cbv beta iota.
  - intros [= <- <- <-]. destruct Ha as [Hv Hb]. rewrite Hv, Hb. split_and!; [done|by rewrite Hb in Hc|done].
  - intros Hrun. destruct (Hk sa f Hwa Hf (undoes_cons _ _ _ _ _ _ _ _ Ha Hu) _ _ _ Hrun) as (H1 & H2 & H3).
    split_and!; [done| |done]. rewrite H2 at 1. rewrite Hc. by destruct (st_c s).
Qed.

(** The last steps: the connection is loaded, its SAs come and go. *)
Lemma covered_initiate n child us b0 k0 (s : st) :
  env_wf (st_w s) → outside n (k_sas (view (st_w s))) = k_sas (view (st_w s)) →
  undoes us b0 k0 (c_bypass (st_c s)) (view (st_w s)) →
  covered [ICtx; ICall (Initiate n child) []] (UTerminateIKE n :: us) b0 k0 s.
Proof.
  intros Hw Hn Hu.
  assert (∀ sas, outside n sas = outside n (k_sas (view (st_w s))) →
    undoes (UTerminateIKE n :: us) b0 k0 (c_bypass (st_c s)) (with_sas (λ _, sas) (view (st_w s)))) as Hany.
  { intros sas Hs. eapply undoes_cons; [|exact Hu]. eapply undoes1_call; [done|]. apply ike_reverts; [done|]. by rewrite Hs. }
  assert (undoes (UTerminateIKE n :: us) b0 k0 (c_bypass (st_c s)) (view (st_w s))) as Hnow.
  { rewrite <- (with_sas_id (λ _, k_sas (view (st_w s))) (view (st_w s))) by done. by apply Hany. }
  intros e us' s'. cbn [run_instrs run_instr]. destruct (ctx_Err (st_w s)) as [e1|].
  { intros [= <- <- <-]. split_and!; [done|by destruct (st_c s)|done]. }
  revert e us' s'. apply (covered_call (Initiate n child) [] []); [done|..].
  - intros e k' (sas & Hs & ->). by apply Hany.
  - intros w' Hw' (sas & Hs & _ & Hv). apply covered_nil; [done|]. cbn. rewrite Hv. by apply Hany.
Qed.

Lemma covered_daemon sec conn child us b0 k0 (s : st) :
  let n := cn_Name conn in
  env_wf (st_w s) → ss_ID sec = n → cn_Start conn ≠ StartStart →
  outside n (k_sas (view (st_w s))) = k_sas (view (st_w s)) →
  k_secrets (view (st_w s)) !! n = None → k_conns (view (st_w s)) !! n = None →
  undoes us b0 k0 (c_bypass (st_c s)) (view (st_w s)) →
  covered [ICall (LoadShared sec) [UUnloadShared n]; ICall (LoadConn conn) [UTerminateIKE n; UUnloadConn n];
           ICtx; ICall (Initiate n child) []] us b0 k0 s.
Proof.
  intros n Hw Hid Hst Hsas Hsec Hcon Hu. apply covered_call; [done|by intros e k' ->|].
  intros w1 Hw1 Hk1. cbn in Hk1. rewrite Hid in Hk1.
  assert (undoes (UUnloadShared n :: us) b0 k0 (c_bypass (st_c s)) (view w1)) as Hu1.
  { rewrite Hk1. eapply undoes_cons; [by eapply undoes1_call, shared_reverts|done]. }
  apply covered_call; [done|by intros e k' ->|].
  intros w2 Hw2 (sas & _ & Hsame & Hk2). cbn in *. rewrite (Hsame Hst) in Hk2.
  rewrite with_sas_id in Hk2 by done.
  apply covered_initiate; cbn; [done|by rewrite Hk2, Hk1|].
  rewrite Hk2. eapply undoes_cons; [|exact Hu1]. eapply undoes1_call, conn_reverts; [done|]. by rewrite Hk1.
Qed.

(** The whole of [bringUp]. *)
Lemma covered_bringUp p conn (s : st) :
  let n := cn_Name conn in
  let iface := client_iface cfg p in
  env_wf (st_w s) → cn_Start conn ≠ StartStart →
  (∀ bp, c_bypass (st_c s) !! p_Addr p = Some bp → 0 < bp_refs bp) →
  outside n (k_sas (view (st_w s))) = k_sas (view (st_w s)) →
  k_secrets (view (st_w s)) !! n = None → k_conns (view (st_w s)) !! n = None →
  covered (bringUp cfg p conn iface) [] (c_bypass (st_c s)) (view (st_w s)) s.
Proof.
  intros n iface Hw Hst Hpos Hsas Hsec Hcon.
  apply covered_call; [done|intros e k' ->; apply undoes_nil|].
  intros w1 Hw1 [Hl Hk1]. cbn [app].
  assert (undoes [UDeleteLink iface] (c_bypass (st_c s)) (view (st_w s)) (c_bypass (st_c s)) (view w1)) as Hu.
  { rewrite Hk1. eapply undoes_cons; [|apply undoes_nil]. eapply undoes1_call, link_reverts; [done|done|apply ifaceName_ne|done]. }
  apply covered_call; [done|by intros e k' ->|]. intros w2 Hw2 Hk2. cbn in Hk2.
  apply covered_call; [done|by intros e k' ->; cbn; rewrite Hk2|]. intros w3 Hw3 Hk3. cbn in Hk3. cbn [app].
  assert (view w3 = with_links <[iface := p_IfID p]> (view (st_w s))) as Hk by congruence.
  rewrite <- Hk2, <- Hk3 in Hu. destruct (cc_FullTunnel cfg); cbn [app].
  2: { apply covered_daemon; cbn; rewrite ?Hk; try done. by rewrite <- Hk. }
  apply covered_acquire; [done..|]. intros s1 f Hw4 Hf Hu4. cbn in Hf.
  apply covered_daemon; rewrite ?Hf, ?Hk; try done. by rewrite <- Hk, <- Hf.
Qed.


End rollback.
