(* ===== verification/IpsecClientSpec.v ===== *)
(** * The IPsec client under interleaving, and its fencing

    [step] interleaves any number of [Add], [Remove], [Promote], [Advance] and
    [Close] calls at the granularity of the client's mutexes, while kernel and
    daemon change under them. [accounts] is the invariant: if_ids, names and
    bypass references are exactly those of the gateways added and of the calls
    still running. *)

From S2P Require Import Prelude Netip IpsecConfig IpsecNet IpsecClient.

Section interleaving.
Context {W : Type} {WE : Env W} {WR : Range} {WRL : RangeLaws} (cfg : ClientConfig).

(** A call in progress, between two of its critical sections. *)
Inductive task :=
| TAdd (p : Peer) (conn : Connection) (prog : list instr) (us : list undo)  (* in bringUp *)
| TAdded (p : Peer) (conn : Connection) (err : option error) (us : list undo)  (* bringUp has returned *)
| TSeq (l : list cleanup)                  (* rolling back, removing or closing *)
| TPromote (name : string) (want : list Route)
| TPromoted (name : string).

Inductive step : st (W := W) * list task → st (W := W) * list task → Prop :=
| step_add p s ts conn c :
    p_Name p ≠ "" → Add_reserve cfg p (st_c s) = Ok (conn, c) →
    step (s, ts) (mkSt c (st_w s), TAdd p conn (bringUp cfg p conn (client_iface cfg p)) [] :: ts)
| step_instr_ok p conn i prog us new s s' ts ts' :
    ts ≡ₚ TAdd p conn (i :: prog) us :: ts' → run_instr cfg i s = (None, new, s') →
    step (s, ts) (s', TAdd p conn prog (new ++ us) :: ts')
| step_instr_err p conn i prog us e new s s' ts ts' :
    ts ≡ₚ TAdd p conn (i :: prog) us :: ts' → run_instr cfg i s = (Some e, new, s') →
    step (s, ts) (s', TAdded p conn (Some e) us :: ts')
| step_instr_end p conn us s ts ts' :
    ts ≡ₚ TAdd p conn [] us :: ts' → step (s, ts) (s, TAdded p conn None us :: ts')
| step_finish_ok p conn err us s ts ts' c :
    ts ≡ₚ TAdded p conn err us :: ts' → Add_finish cfg p conn err (st_c s) = (None, c) →
    step (s, ts) (mkSt c (st_w s), ts')
| step_finish_err p conn err us s ts ts' e c :
    ts ≡ₚ TAdded p conn err us :: ts' → Add_finish cfg p conn err (st_c s) = (Some e, c) →
    step (s, ts) (mkSt c (st_w s), TSeq (CUndo <$> us) :: ts')
| step_remove name p c s ts :
    Remove_start name (st_c s) = Ok (p, c) →
    step (s, ts) (mkSt c (st_w s), TSeq ((CUndo <$> tearDown_steps cfg p) ++ [CRemoved name p]) :: ts)
| step_close peers c s ts :
    Close_start (st_c s) = Some (peers, c) →
    step (s, ts) (mkSt c (st_w s), TSeq (Close_steps cfg peers) :: ts)
| step_cleanup x l e s s' ts ts' :
    ts ≡ₚ TSeq (x :: l) :: ts' → run_cleanup x s = (e, s') → step (s, ts) (s', TSeq l :: ts')
| step_cleanup_end s ts ts' : ts ≡ₚ TSeq [] :: ts' → step (s, ts) (s, ts')
| step_promote name prefixes want s ts :
    Promote_check cfg name prefixes s = Ok want → step (s, ts) (s, TPromote name want :: ts)
| step_apply name want e s s' ts ts' :
    ts ≡ₚ TPromote name want :: ts' → Promote_apply want s = (e, s') →
    step (s, ts) (s', match e with None => TPromoted name :: ts' | Some _ => ts' end)
| step_active name s ts ts' :
    ts ≡ₚ TPromoted name :: ts' → step (s, ts) (on_c (set_c_active name) s, ts')
| step_advance name epoch e s s' ts : Advance name epoch s = (e, s') → step (s, ts) (s', ts)
| step_world s w ts : step (s, ts) (mkSt (st_c s) w, ts).

(** ** Who holds what *)

Definition undo_users (us : list undo) : list ZAddr :=
  omap (λ u, match u with UReleaseBypass a => Some a | _ => None end) us.
Definition cleanup_users (l : list cleanup) : list ZAddr :=
  omap (λ x, match x with CUndo (UReleaseBypass a) => Some a | _ => None end) l.
Definition cleanup_ids (l : list cleanup) : list Z :=
  omap (λ x, match x with CDropIf id => Some id | CRemoved _ p => Some (p_IfID (cp_peer p)) | _ => None end) l.
Definition cleanup_names (l : list cleanup) : list string :=
  omap (λ x, match x with CRemoved n _ => Some n | _ => None end) l.

Definition task_users (t : task) : list ZAddr :=
  match t with TAdd _ _ _ us | TAdded _ _ _ us => undo_users us | TSeq l => cleanup_users l | _ => [] end.
Definition task_ids (t : task) : list Z :=
  match t with TAdd p _ _ _ | TAdded p _ _ _ => [p_IfID p] | TSeq l => cleanup_ids l | _ => [] end.
Definition task_names (t : task) : list string :=
  match t with TAdd p _ _ _ | TAdded p _ _ _ => [p_Name p] | TSeq l => cleanup_names l | _ => [] end.

Definition peers_of (c : Client) : list (string * clientPeer) := map_to_list (c_peers c).
Definition peer_id (kv : string * clientPeer) : Z := p_IfID (cp_peer kv.2).
Definition peer_users (kv : string * clientPeer) : list ZAddr :=
  if cc_FullTunnel cfg then [p_Addr (cp_peer kv.2)] else [].
Definition controllers (c : Client) : list ZAddr :=
  if cc_FullTunnel cfg && negb (c_closed c) then cc_Controllers cfg else [].

Definition all_ids (c : Client) (ts : list task) : list Z := (peer_id <$> peers_of c) ++ flat_map task_ids ts.
Definition all_names (c : Client) (ts : list task) : list string := (peers_of c).*1 ++ flat_map task_names ts.
Definition all_users (c : Client) (ts : list task) : list ZAddr :=
  controllers c ++ flat_map peer_users (peers_of c) ++ flat_map task_users ts.

Definition count (a : ZAddr) (l : list ZAddr) : Z := Z.of_nat (length (filter (λ x, x = a) l)).

(** What the steps of [bringUp] that have run pushed on the undo list. *)
Definition instr_undo (i : instr) : list undo :=
  match i with ICall _ us => us | IAcquire a => [UReleaseBypass a] | ICtx => [] end.
Definition undo_of (done : list instr) : list undo := foldl (λ us i, instr_undo i ++ us) [] done.

Definition task_ok (t : task) : Prop :=
  match t with
  | TAdd p conn prog us => ∃ done, bringUp cfg p conn (client_iface cfg p) = done ++ prog ∧ us = undo_of done
  | TAdded p conn None us => us = undo_of (bringUp cfg p conn (client_iface cfg p))
  | _ => True
  end.

Record accounts (c : Client) (ts : list task) : Prop := {
  ac_ids : NoDup (all_ids c ts);
  ac_ifids : ∀ id, is_Some (c_ifIDs c !! id) ↔ id ∈ all_ids c ts;
  ac_owner : ∀ id n, c_ifIDs c !! id = Some n → n ≠ "";
  ac_names : NoDup (all_names c ts);
  ac_pending : ∀ n, n ∈ c_pending c ↔ n ∈ flat_map task_names ts;
  ac_refs : ∀ a, count a (all_users c ts) = match c_bypass c !! a with Some b => bp_refs b | None => 0 end;
  ac_pos : ∀ a b, c_bypass c !! a = Some b → 0 < bp_refs b;
  ac_tasks : Forall task_ok ts;
  ac_closed : c_closed c = true → c_peers c = ∅;
}.

(** ** Lemmas: lists up to order *)

#[export] Instance flat_map_perm {A B} (f : A → list B) : Proper ((≡ₚ) ==> (≡ₚ)) (flat_map f).
Proof. intros l l' H. by apply Permutation_flat_map. Qed.

#[export] Instance count_perm a : Proper ((≡ₚ) ==> (=)) (count a).
Proof. intros l l' H. unfold count. by rewrite H. Qed.

Lemma count_app a l k : count a (l ++ k) = count a l + count a k.
Proof. unfold count. rewrite filter_app, length_app. lia. Qed.
Lemma count_cons a x l : count a (x :: l) = (if decide (x = a) then 1 else 0) + count a l.
Proof. unfold count. rewrite filter_cons. case_decide; cbn [length]; lia. Qed.
Lemma count_nonneg a l : 0 ≤ count a l.
Proof. unfold count. lia. Qed.

#[export] Instance all_ids_perm c : Proper ((≡ₚ) ==> (≡ₚ)) (all_ids c).
Proof. intros ts ts' H. unfold all_ids. by rewrite H. Qed.
#[export] Instance all_names_perm c : Proper ((≡ₚ) ==> (≡ₚ)) (all_names c).
Proof. intros ts ts' H. unfold all_names. by rewrite H. Qed.
#[export] Instance all_users_perm c : Proper ((≡ₚ) ==> (≡ₚ)) (all_users c).
Proof. intros ts ts' H. unfold all_users. by rewrite H. Qed.

Lemma accounts_perm c ts ts' : ts ≡ₚ ts' → accounts c ts → accounts c ts'.
Proof.
  intros HP [H1 H2 H3 H4 H5 H6 H7 H8 H9].
  constructor; intros; rewrite <- ?HP; eauto.
Qed.

Lemma cleanup_users_undo us : cleanup_users (CUndo <$> us) = undo_users us.
Proof. unfold cleanup_users, undo_users. induction us as [|[] us IH]; cbn; rewrite ?IH; done. Qed.
Lemma cleanup_ids_undo us : cleanup_ids (CUndo <$> us) = [].
Proof. unfold cleanup_ids. by induction us. Qed.
Lemma cleanup_names_undo us : cleanup_names (CUndo <$> us) = [].
Proof. unfold cleanup_names. by induction us. Qed.

Lemma cleanup_users_app l k : cleanup_users (l ++ k) = cleanup_users l ++ cleanup_users k.
Proof. apply omap_app. Qed.
Lemma cleanup_ids_app l k : cleanup_ids (l ++ k) = cleanup_ids l ++ cleanup_ids k.
Proof. apply omap_app. Qed.
Lemma cleanup_names_app l k : cleanup_names (l ++ k) = cleanup_names l ++ cleanup_names k.
Proof. apply omap_app. Qed.
Lemma undo_users_app l k : undo_users (l ++ k) = undo_users l ++ undo_users k.
Proof. apply omap_app. Qed.

Lemma tearDown_users p : undo_users (tearDown_steps cfg p) = if cc_FullTunnel cfg then [p_Addr (cp_peer p)] else [].
Proof. unfold tearDown_steps. by destruct (cc_FullTunnel cfg). Qed.

Lemma undo_of_snoc done i : undo_of (done ++ [i]) = instr_undo i ++ undo_of done.
Proof. unfold undo_of. by rewrite foldl_app. Qed.

Lemma bringUp_users p conn iface :
  undo_users (undo_of (bringUp cfg p conn iface)) = if cc_FullTunnel cfg then [p_Addr p] else [].
Proof. unfold bringUp. by destruct (cc_FullTunnel cfg). Qed.

(** No plain call of [bringUp] pushes the release of a bypass route. *)
Lemma bringUp_call_users p conn iface c us : ICall c us ∈ bringUp cfg p conn iface → undo_users us = [].
Proof.
  unfold bringUp. rewrite !elem_of_app. destruct (cc_FullTunnel cfg);
    rewrite ?elem_of_cons, ?elem_of_nil; intros; destruct_or!; simplify_eq; done.
Qed.

(** ** Lemmas: bypass references *)

Definition refs (b : gmap ZAddr bypassRoute) (a : ZAddr) : Z :=
  match b !! a with Some bp => bp_refs bp | None => 0 end.
Definition positive (b : gmap ZAddr bypassRoute) : Prop := ∀ a bp, b !! a = Some bp → 0 < bp_refs bp.

Lemma refs_insert b a bp x : refs (<[a := bp]> b) x = if decide (a = x) then bp_refs bp else refs b x.
Proof.
  unfold refs. case_decide as E; [subst; by rewrite lookup_insert_eq|by rewrite lookup_insert_ne].
Qed.
Lemma refs_delete b a x : refs (delete a b) x = if decide (a = x) then 0 else refs b x.
Proof.
  unfold refs. case_decide as E; [subst; by rewrite lookup_delete_eq|by rewrite lookup_delete_ne].
Qed.
Lemma positive_insert b a bp : positive b → 0 < bp_refs bp → positive (<[a := bp]> b).
Proof. intros Hb Hp x y [[_ <-]|[_ ?]]%lookup_insert_Some; eauto. Qed.
Lemma positive_delete b a : positive b → positive (delete a b).
Proof. intros Hb x y [_ ?]%lookup_delete_Some. eauto. Qed.

Lemma run_call_client c (s : st) : st_c (run_call c s).2 = st_c s.
Proof. unfold run_call. by destruct (sys c (st_w s)). Qed.

Lemma acquire_refs a (s : st) e s' :
  positive (c_bypass (st_c s)) → acquireBypass cfg a s = (e, s') →
  match e with
  | Some _ => st_c s' = st_c s
  | None => ∃ b, st_c s' = set_c_bypass (λ _, b) (st_c s) ∧ positive b
                 ∧ ∀ x, refs b x = refs (c_bypass (st_c s)) x + if decide (a = x) then 1 else 0
  end.
Proof.
  intros Hpos. unfold acquireBypass. destruct (c_bypass (st_c s) !! a) as [bp|] eqn:Eb.
  { intros [= <- <-]. eexists. split_and!; [done|apply positive_insert; [done|cbn; specialize (Hpos _ _ Eb); lia]|].
    intros x. rewrite refs_insert. case_decide; [subst|lia]. unfold refs. rewrite Eb. cbn. lia. }
  assert (∀ r o (s1 : st (W := W)), st_c s1 = st_c s → ∃ b, st_c (on_c (set_c_bypass <[a := mkBypass r o 1]>) s1) = set_c_bypass (λ _, b) (st_c s)
    ∧ positive b ∧ ∀ x, refs b x = refs (c_bypass (st_c s)) x + if decide (a = x) then 1 else 0) as Hadd.
  { intros r o s1 Hs. exists (<[a := mkBypass r o 1]> (c_bypass (st_c s))). split_and!.
    - cbn. by rewrite Hs.
    - by apply positive_insert.
    - intros x. rewrite refs_insert. case_decide; [subst|lia]. unfold refs. by rewrite Eb. }
  destruct (underlayRoute cfg a s) as [r|]; [|by intros [= <- <-]].
  pose proof (run_call_client (RouteAdd r) s) as Hc. destruct (run_call (RouteAdd r) s) as [[e1|] s1]; cbn in Hc.
  - destruct (is_ErrExist e1); intros [= <- <-]; auto.
  - intros [= <- <-]; auto.
Qed.

Lemma release_refs a (s : st) e s' :
  positive (c_bypass (st_c s)) → 0 < refs (c_bypass (st_c s)) a → releaseBypass a s = (e, s') →
  ∃ b, st_c s' = set_c_bypass (λ _, b) (st_c s) ∧ positive b
       ∧ ∀ x, refs b x = refs (c_bypass (st_c s)) x - if decide (a = x) then 1 else 0.
Proof.
  intros Hpos Ha. unfold releaseBypass. unfold refs in Ha. destruct (c_bypass (st_c s) !! a) as [bp|] eqn:Eb; [|lia].
  cbn [bp_refs bp_owned bp_route]. destruct (bp_refs bp - 1 >? 0) eqn:Ez; zbool.
  - intros [= <- <-]. eexists. split_and!; [done|by apply positive_insert|].
    intros x. rewrite refs_insert. case_decide; [subst; unfold refs; rewrite Eb; done|lia].
  - intros Hr. exists (delete a (c_bypass (st_c s))). split_and!; [|by apply positive_delete|].
    + destruct (negb (bp_owned bp)); [by injection Hr as <- <-|].
      pose proof (run_call_client (RouteDel (bp_route bp)) (on_c (set_c_bypass (delete a)) s)) as Hc.
      destruct (run_call _ _) as [e1 s1]. injection Hr as <- <-. exact Hc.
    + intros x. rewrite refs_delete. case_decide; [subst; unfold refs; rewrite Eb; lia|lia].
Qed.

(** ** Each step keeps the accounts *)

Definition same_tables (c c' : Client) : Prop :=
  c_peers c' = c_peers c ∧ c_pending c' = c_pending c ∧ c_ifIDs c' = c_ifIDs c ∧ c_closed c' = c_closed c.

(** A step that leaves names and if_ids alone and changes references and users alike. *)
Lemma accounts_users c c' t ts' (nt : list task) (d : ZAddr → Z) :
  accounts c (t :: ts') → same_tables c c' → positive (c_bypass c') →
  flat_map task_ids nt = task_ids t → flat_map task_names nt = task_names t →
  (∀ x, refs (c_bypass c') x = refs (c_bypass c) x + d x) →
  (∀ x, count x (flat_map task_users nt) = count x (task_users t) + d x) →
  Forall task_ok nt → accounts c' (nt ++ ts').
Proof.
  intros [H1 H2 H3 H4 H5 H6 H7 H8 H9] (Hp & Hq & Hi & Hc) Hpos Hids Hnames Hrefs Husers Hok.
  assert (all_ids c' (nt ++ ts') = all_ids c (t :: ts')) as Eids.
  { unfold all_ids, peers_of. rewrite Hp, flat_map_app, Hids. done. }
  assert (all_names c' (nt ++ ts') = all_names c (t :: ts')) as Enames.
  { unfold all_names, peers_of. rewrite Hp, flat_map_app, Hnames. done. }
  constructor; rewrite ?Eids, ?Enames, ?Hi; try done.
  - intros n. rewrite Hq, H5, flat_map_app, Hnames. done.
  - intros x. specialize (H6 x). fold (refs (c_bypass c) x) in H6. fold (refs (c_bypass c') x).
    rewrite Hrefs, <- H6. unfold all_users, controllers, peers_of. rewrite Hc, Hp, flat_map_app.
    cbn [flat_map]. rewrite !count_app, Husers. lia.
  - apply Forall_app. by apply Forall_cons in H8 as [_ ?].
  - by rewrite Hc, Hp.
Qed.

Lemma same_tables_bypass c f : same_tables c (set_c_bypass f c).
Proof. done. Qed.
Lemma same_tables_refl c : same_tables c c.
Proof. done. Qed.
#[local] Hint Resolve same_tables_bypass same_tables_refl : core.

Lemma accounts_instr p conn i prog us e new (s s' : st) ts' :
  accounts (st_c s) (TAdd p conn (i :: prog) us :: ts') → run_instr cfg i s = (e, new, s') →
  accounts (st_c s') ((match e with None => TAdd p conn prog (new ++ us) | Some _ => TAdded p conn e us end) :: ts').
Proof.
  intros Hacc Hrun. pose proof Hacc as [_ _ _ _ _ _ Hpos [(done & Hprog & Hus) _]%Forall_cons _].
  assert (bringUp cfg p conn (client_iface cfg p) = (done ++ [i]) ++ prog) as Hprog' by (by rewrite <- app_assoc).
  assert (new = instr_undo i ∧ match i with ICall _ _ | ICtx => st_c s' = st_c s | IAcquire a => acquireBypass cfg a s = (e, s') end)
    as [-> Hi].
  { destruct i; cbn in Hrun.
    - pose proof (run_call_client c s) as Hc. destruct (run_call c s). by simplify_eq.
    - destruct (acquireBypass cfg a s). by simplify_eq.
    - by simplify_eq. }
  destruct e as [e|].
  - apply (accounts_users (st_c s) _ (TAdd p conn (i :: prog) us) ts' [TAdded p conn (Some e) us] (λ _, 0));
      [done| | |done|done| |intros; cbn; rewrite app_nil_r; lia|by repeat constructor].
    all: destruct i; try (by rewrite ?Hi; intros; lia || auto).
    all: apply acquire_refs in Hi; [|done]; rewrite Hi; auto; intros; lia.
  - assert (Forall task_ok [TAdd p conn prog (instr_undo i ++ us)]) as Hok.
    { repeat constructor. exists (done ++ [i]). by rewrite undo_of_snoc, Hus. }
    destruct i as [c us0|a|]; cbn [instr_undo] in *.
    + assert (undo_users us0 = []) as Hu0.
      { eapply (bringUp_call_users p conn _ c). rewrite Hprog. apply elem_of_app. right. by left. }
      apply (accounts_users (st_c s) _ (TAdd p conn (ICall c us0 :: prog) us) ts' [TAdd p conn prog (us0 ++ us)] (λ _, 0));
        try done; rewrite ?Hi; auto; intros; [lia|].
      cbn. rewrite undo_users_app, Hu0, app_nil_r. cbn. lia.
    + apply acquire_refs in Hi as (b & Hc & Hpb & Hrefs); [|done]. rewrite Hc.
      apply (accounts_users (st_c s) _ (TAdd p conn (IAcquire a :: prog) us) ts'
        [TAdd p conn prog ([UReleaseBypass a] ++ us)] (λ x, if decide (a = x) then 1 else 0)); try done.
      intros x. cbn [flat_map task_users]. rewrite app_nil_r. change ([UReleaseBypass a] ++ us) with (UReleaseBypass a :: us).
      change (undo_users (UReleaseBypass a :: us)) with (a :: undo_users us). rewrite count_cons. lia.
    + apply (accounts_users (st_c s) _ (TAdd p conn (ICtx :: prog) us) ts' [TAdd p conn prog us] (λ _, 0));
        try done; rewrite ?Hi; auto; intros; [lia|]. cbn. rewrite app_nil_r. lia.
Qed.

Lemma all_ids_cons c t ts : all_ids c (t :: ts) ≡ₚ task_ids t ++ all_ids c ts.
Proof. unfold all_ids. cbn. rewrite !app_assoc. by rewrite (Permutation_app_comm (task_ids t)). Qed.
Lemma all_names_cons c t ts : all_names c (t :: ts) ≡ₚ task_names t ++ all_names c ts.
Proof. unfold all_names. cbn. rewrite !app_assoc. by rewrite (Permutation_app_comm (task_names t)). Qed.
Lemma all_users_cons c t ts : all_users c (t :: ts) ≡ₚ task_users t ++ all_users c ts.
Proof.
  unfold all_users. cbn. rewrite !app_assoc. rewrite (Permutation_app_comm _ (task_users t)). by rewrite <- !app_assoc.
Qed.

Lemma accounts_add p conn (c c' : Client) ts :
  accounts c ts → p_Name p ≠ "" → Add_reserve cfg p c = Ok (conn, c') →
  accounts c' (TAdd p conn (bringUp cfg p conn (client_iface cfg p)) [] :: ts).
Proof.
  intros [H1 H2 H3 H4 H5 H6 H7 H8 H9] Hne. unfold Add_reserve. intros (conn' & _ & Hr)%res_bind_Ok.
  destruct (c_closed c) eqn:Hcl; [done|]. destruct (_ || _) eqn:Hdup; [done|]. zbool.
  destruct (negb _) eqn:Hfree; [done|]. zbool. apply String.eqb_eq in Hfree. injection Hr as -> <-.
  assert (c_ifIDs c !! p_IfID p = None) as Hnone.
  { destruct (c_ifIDs c !! p_IfID p) as [x|] eqn:E; [|done]. cbn in Hfree. by apply H3 in E. }
  constructor.
  - rewrite all_ids_cons. cbn. apply NoDup_cons. split; [|done].
    intros [? Hx]%H2. congruence.
  - intros id. rewrite all_ids_cons. cbn. rewrite elem_of_cons. change (all_ids _ ts) with (all_ids c ts).
    rewrite <- H2, lookup_insert_is_Some'. split; (intros [->|?]; [by left|by right]).
  - intros id n. cbn. intros [[_ <-]|[_ ?]]%lookup_insert_Some; eauto.
  - rewrite all_names_cons. cbn. apply NoDup_cons. split; [|done].
    unfold all_names. intros [Hin|Hin]%elem_of_app.
    + apply list_elem_of_fmap in Hin as ([n q] & Hn & Hin). apply elem_of_map_to_list in Hin. cbn in Hn. subst. by destruct H; eexists.
    + by apply H5 in Hin.
  - intros n. cbn. rewrite elem_of_union, elem_of_singleton, elem_of_cons, H5. done.
  - intros a. rewrite all_users_cons. apply H6.
  - done.
  - constructor; [|done]. by exists [].
  - cbn. by rewrite Hcl.
Qed.

Lemma accounts_end p conn us c ts' :
  accounts c (TAdd p conn [] us :: ts') → accounts c (TAdded p conn None us :: ts').
Proof.
  intros H. pose proof H as [_ _ _ _ _ _ Hpos [(done & Hprog & Hus) _]%Forall_cons _].
  apply (accounts_users c c (TAdd p conn [] us) ts' [TAdded p conn None us] (λ _, 0)); try done.
  - intros; lia.
  - intros. cbn. rewrite app_nil_r. lia.
  - rewrite app_nil_r in Hprog. constructor; [|done]. unfold task_ok. by rewrite Hprog.
Qed.

Lemma accounts_finish_ok p conn err us (c c' : Client) ts' :
  accounts c (TAdded p conn err us :: ts') → Add_finish cfg p conn err c = (None, c') → accounts c' ts'.
Proof.
  intros Hacc. unfold Add_finish. cbn. destruct err as [e|]; [done|]. destruct (c_closed c) eqn:Hcl; [done|].
  intros [= <-]. destruct Hacc as [H1 H2 H3 H4 H5 H6 H7 H8 H9].
  rewrite all_names_cons in H4. cbn in H4. apply NoDup_cons in H4 as [Hn H4].
  apply Forall_cons in H8 as [Hus H8]. unfold task_ok in Hus.
  assert (c_peers c !! p_Name p = None) as Hfresh.
  { destruct (c_peers c !! p_Name p) eqn:E; [|done]. exfalso. apply Hn. apply elem_of_app. left.
    apply list_elem_of_fmap. exists (p_Name p, c0). split; [done|]. by apply elem_of_map_to_list. }
  set (q := mkClientPeer p conn (client_iface cfg p)).
  assert (map_to_list (<[p_Name p := q]> (c_peers c)) ≡ₚ (p_Name p, q) :: map_to_list (c_peers c)) as Hml
    by (by apply map_to_list_insert).
  constructor; cbn.
  - unfold all_ids, peers_of. cbn. rewrite Hml. cbn. rewrite all_ids_cons in H1. done.
  - intros id. rewrite H2, all_ids_cons. unfold all_ids, peers_of. cbn. rewrite Hml. done.
  - done.
  - unfold all_names, peers_of. cbn. rewrite Hml. cbn. by apply NoDup_cons.
  - intros n. rewrite elem_of_difference, elem_of_singleton, H5. cbn. rewrite elem_of_cons.
    split; [by intros [[->|?] ?]|]. intros Hin. split; [by right|]. intros ->. apply Hn. apply elem_of_app. by right.
  - intros a. rewrite <- H6, all_users_cons. cbn [task_users]. rewrite Hus, bringUp_users.
    unfold all_users, controllers, peers_of. cbn. rewrite Hml. cbn. unfold peer_users at 1. cbn. unfold controllers.
    rewrite !count_app. lia.
  - done.
  - done.
  - by rewrite Hcl.
Qed.

(** A step that gives up an if_id, and the names [ns] with it. *)
Lemma accounts_drop id ns (c c' : Client) t t' ts' :
  accounts c (t :: ts') →
  task_ids t = id :: task_ids t' → task_names t = ns ++ task_names t' → task_users t' = task_users t → task_ok t' →
  c_peers c' = c_peers c → c_closed c' = c_closed c → c_bypass c' = c_bypass c →
  c_ifIDs c' = delete id (c_ifIDs c) → (∀ n, n ∈ c_pending c' ↔ n ∈ c_pending c ∧ n ∉ ns) →
  accounts c' (t' :: ts').
Proof.
  intros [H1 H2 H3 H4 H5 H6 H7 H8 H9] Ti Tn Tu Hok Hp Hc Hb Hi Hq.
  assert (∀ ts, all_ids c' ts = all_ids c ts) as Eids by (intros; unfold all_ids, peers_of; by rewrite Hp).
  assert (∀ ts, all_names c' ts = all_names c ts) as Enames by (intros; unfold all_names, peers_of; by rewrite Hp).
  assert (∀ ts, all_users c' ts = all_users c ts) as Eusers
    by (intros; unfold all_users, controllers, peers_of; by rewrite Hp, Hc).
  rewrite all_names_cons, Tn, <- app_assoc, <- all_names_cons in H4. apply NoDup_app in H4 as (_ & Hns & H4).
  assert (all_ids c (t :: ts') ≡ₚ id :: all_ids c (t' :: ts')) as Hids by (by rewrite !all_ids_cons, Ti).
  rewrite Hids in H1. apply NoDup_cons in H1 as [Hid H1].
  constructor; rewrite ?Eids, ?Enames, ?Hb; try done.
  - intros i. rewrite Hi, lookup_delete_is_Some, H2, Hids, elem_of_cons, ?Eids.
    split; [by intros [? [->|?]]|]. intros Hin. split; [|by right]. by intros <-.
  - intros i n. rewrite Hi. intros [_ ?]%lookup_delete_Some. eauto.
  - intros n. rewrite Hq, H5. cbn [flat_map]. rewrite Tn, !elem_of_app. split; [by intros [[[?|?]|?] ?]; auto|].
    intros Hin. split; [naive_solver|]. intros Hn. apply (Hns n Hn). unfold all_names. cbn [flat_map]. set_solver.
  - intros a. rewrite Eusers, <- H6, !all_users_cons, Tu. done.
  - apply Forall_cons in H8 as [_ H8]. by constructor.
  - by rewrite Hc, Hp.
Qed.

Lemma accounts_finish_err p conn err us e (c c' : Client) ts' :
  accounts c (TAdded p conn err us :: ts') → Add_finish cfg p conn err c = (Some e, c') →
  accounts c' (TSeq (CUndo <$> us) :: ts').
Proof.
  intros Hacc Hf.
  assert (c' = set_c_ifIDs (delete (p_IfID p)) (set_c_pending (λ s, s ∖ {[p_Name p]}) c)) as ->.
  { unfold Add_finish in Hf. destruct err; [by simplify_eq|]. destruct (c_closed _); by simplify_eq. }
  eapply (accounts_drop (p_IfID p) [p_Name p]); [exact Hacc|..]; cbn [task_ids task_names task_users];
    rewrite ?cleanup_ids_undo, ?cleanup_names_undo, ?cleanup_users_undo; try done.
  intros n. cbn. by rewrite elem_of_difference, elem_of_singleton, list_elem_of_singleton.
Qed.

Lemma peers_delete (c : Client) n q : c_peers c !! n = Some q → peers_of c ≡ₚ (n, q) :: map_to_list (delete n (c_peers c)).
Proof. intros H. unfold peers_of. by rewrite map_to_list_delete. Qed.

Lemma accounts_remove name p (c c' : Client) ts :
  accounts c ts → Remove_start name c = Ok (p, c') →
  accounts c' (TSeq ((CUndo <$> tearDown_steps cfg p) ++ [CRemoved name p]) :: ts).
Proof.
  intros [H1 H2 H3 H4 H5 H6 H7 H8 H9]. unfold Remove_start. destruct (c_closed c) eqn:Hcl; [done|].
  destruct (c_peers c !! name) as [q|] eqn:Eq; [|done]. destruct (String.eqb _ _); [done|]. intros [= -> <-].
  pose proof (peers_delete _ _ _ Eq) as Hml.
  set (t := TSeq ((CUndo <$> tearDown_steps cfg p) ++ [CRemoved name p])).
  assert (task_ids t = [p_IfID (cp_peer p)]) as Ti by (unfold t, task_ids; by rewrite cleanup_ids_app, cleanup_ids_undo).
  assert (task_names t = [name]) as Tn by (unfold t, task_names; by rewrite cleanup_names_app, cleanup_names_undo).
  assert (task_users t = peer_users (name, p)) as Tu
    by (unfold t, task_users; by rewrite cleanup_users_app, cleanup_users_undo, tearDown_users, app_nil_r).
  set (c' := set_c_pending _ _).
  assert (all_ids c' (t :: ts) ≡ₚ all_ids c ts) as Eids.
  { rewrite all_ids_cons, Ti. unfold all_ids. rewrite Hml. done. }
  assert (all_names c' (t :: ts) ≡ₚ all_names c ts) as Enames.
  { rewrite all_names_cons, Tn. unfold all_names. rewrite Hml. done. }
  constructor; rewrite ?Eids, ?Enames; try done.
  - intros id. rewrite Eids. apply H2.
  - intros n. cbn [flat_map]. rewrite Tn. cbn. by rewrite elem_of_union, elem_of_singleton, elem_of_cons, H5.
  - intros a. change (c_bypass c') with (c_bypass c). rewrite <- (H6 a), all_users_cons, Tu. unfold all_users.
    change (peers_of c') with (map_to_list (delete name (c_peers c))). change (controllers c') with (controllers c).
    rewrite Hml. cbn [flat_map].
    rewrite !count_app. lia.
  - by constructor.
  - cbn. by rewrite Hcl.
Qed.

Lemma Close_steps_ids peers : cleanup_ids (Close_steps cfg peers) = (λ p, p_IfID (cp_peer p)) <$> peers.
Proof.
  unfold Close_steps. rewrite !cleanup_ids_app. cbn [app].
  assert (cleanup_ids (if cc_FullTunnel cfg then CUndo ∘ UReleaseBypass <$> cc_Controllers cfg else []) = []) as ->.
  { destruct (cc_FullTunnel cfg); [|done]. by induction (cc_Controllers cfg). }
  rewrite app_nil_r. change (cleanup_ids [CClear]) with (@nil Z). cbn [app]. induction peers as [|p peers IH]; [done|].
  cbn [flat_map]. rewrite !cleanup_ids_app, cleanup_ids_undo, IH. done.
Qed.
Lemma Close_steps_names peers : cleanup_names (Close_steps cfg peers) = [].
Proof.
  unfold Close_steps. rewrite !cleanup_names_app. cbn [app].
  assert (cleanup_names (if cc_FullTunnel cfg then CUndo ∘ UReleaseBypass <$> cc_Controllers cfg else []) = []) as ->.
  { destruct (cc_FullTunnel cfg); [|done]. by induction (cc_Controllers cfg). }
  rewrite app_nil_r. change (cleanup_names [CClear]) with (@nil string). cbn [app]. induction peers as [|p peers IH]; [done|].
  cbn [flat_map]. rewrite !cleanup_names_app, cleanup_names_undo, IH. done.
Qed.
Lemma Close_steps_users peers :
  cleanup_users (Close_steps cfg peers) =
    flat_map (λ p, if cc_FullTunnel cfg then [p_Addr (cp_peer p)] else []) peers ++ (if cc_FullTunnel cfg then cc_Controllers cfg else []).
Proof.
  unfold Close_steps. rewrite !cleanup_users_app. cbn [app]. change (cleanup_users [CClear]) with (@nil ZAddr). cbn [app]. f_equal.
  - induction peers as [|p peers IH]; [done|].
    cbn [flat_map]. rewrite !cleanup_users_app, cleanup_users_undo, tearDown_users, IH. by rewrite app_nil_r.
  - destruct (cc_FullTunnel cfg); [|done]. rewrite list_fmap_compose, cleanup_users_undo.
    induction (cc_Controllers cfg) as [|a l IH]; [done|]. cbn. f_equal. apply IH.
Qed.

Lemma accounts_close peers (c c' : Client) ts :
  accounts c ts → Close_start c = Some (peers, c') → accounts c' (TSeq (Close_steps cfg peers) :: ts).
Proof.
  intros [H1 H2 H3 H4 H5 H6 H7 H8 H9]. unfold Close_start. destruct (c_closed c) eqn:Hcl; [done|]. intros [= <- <-].
  set (t := TSeq _). set (c' := set_c_active _ _).
  assert (peers_of c' = []) as Hno by (unfold peers_of, c'; cbn; by rewrite map_to_list_empty).
  assert (task_ids t ≡ₚ peer_id <$> peers_of c) as Ti.
  { unfold t, task_ids. rewrite Close_steps_ids, <- list_fmap_compose, range_perm. done. }
  assert (task_names t = []) as Tn by apply Close_steps_names.
  assert (task_users t ≡ₚ controllers c ++ flat_map peer_users (peers_of c)) as Tu.
  { unfold t, task_users. rewrite Close_steps_users, Permutation_app_comm. unfold controllers. rewrite Hcl, andb_true_r. f_equiv.
    rewrite range_perm. unfold peers_of. induction (map_to_list (c_peers c)) as [|x l IH]; [done|]. cbn. by rewrite IH. }
  assert (all_ids c' (t :: ts) ≡ₚ all_ids c ts) as Eids.
  { rewrite all_ids_cons, Ti. unfold all_ids at 1. rewrite Hno. done. }
  constructor; rewrite ?Eids; try done.
  - intros id. rewrite Eids. apply H2.
  - rewrite all_names_cons, Tn. unfold all_names. rewrite Hno. cbn. unfold all_names in H4. by apply NoDup_app in H4 as (_ & _ & ?).
  - intros n. cbn [flat_map]. rewrite Tn. apply H5.
  - intros a. change (c_bypass c') with (c_bypass c). rewrite <- (H6 a), all_users_cons, Tu. unfold all_users at 1. rewrite Hno. unfold controllers at 2. cbn.
    rewrite andb_false_r. cbn. unfold all_users. by rewrite <- app_assoc.
  - by constructor.
Qed.

Lemma accounts_cleanup x l e (s s' : st) ts' :
  accounts (st_c s) (TSeq (x :: l) :: ts') → run_cleanup x s = (e, s') → accounts (st_c s') (TSeq l :: ts').
Proof.
  intros Hacc Hrun. pose proof (ac_pos _ _ Hacc) as Hpos.
  assert (∀ f, task_users (TSeq (x :: l)) = cleanup_users l → task_ids (TSeq (x :: l)) = cleanup_ids l →
    task_names (TSeq (x :: l)) = cleanup_names l → c_bypass (f (st_c s)) = c_bypass (st_c s) →
    same_tables (st_c s) (f (st_c s)) → accounts (f (st_c s)) (TSeq l :: ts')) as Hsame.
  { intros f Hu Hi Hn Hb Ht. apply (accounts_users (st_c s) _ (TSeq (x :: l)) ts' [TSeq l] (λ _, 0)); try done.
    - by rewrite Hb.
    - cbn [flat_map]. by rewrite app_nil_r, Hi.
    - cbn [flat_map]. by rewrite app_nil_r, Hn.
    - intros. rewrite Hb. lia.
    - intros. cbn [flat_map]. rewrite app_nil_r, Hu. cbn. lia.
    - by repeat constructor. }
  destruct x as [u| |id|n p]; cbn [run_cleanup] in Hrun.
  - destruct u; cbn [run_undo] in Hrun.
    2: { assert (0 < refs (c_bypass (st_c s)) a) as Href.
         { pose proof (ac_refs _ _ Hacc a) as Hr. fold (refs (c_bypass (st_c s)) a) in Hr. rewrite <- Hr, all_users_cons.
           cbn [task_users]. change (cleanup_users (CUndo (UReleaseBypass a) :: l)) with (a :: cleanup_users l).
           cbn [app]. rewrite count_cons, decide_True by done. pose proof (count_nonneg a (cleanup_users l ++ all_users (st_c s) ts')). lia. }
         apply release_refs in Hrun as (b & -> & Hpb & Hrefs); [|done..].
         apply (accounts_users (st_c s) _ (TSeq (CUndo (UReleaseBypass a) :: l)) ts' [TSeq l] (λ x, - if decide (a = x) then 1 else 0)); try done.
         - cbn. by rewrite app_nil_r.
         - cbn. by rewrite app_nil_r.
         - intros x. cbn [flat_map task_users]. rewrite app_nil_r.
           change (cleanup_users (CUndo (UReleaseBypass a) :: l)) with (a :: cleanup_users l). rewrite count_cons. lia.
         - by repeat constructor. }
    all: match type of Hrun with context [run_call ?c ?s0] => pose proof (run_call_client c s0) as Hc; destruct (run_call c s0) end;
      injection Hrun as <- <-; cbn in Hc; rewrite Hc; by apply (Hsame (λ c, c)).
  - unfold Promote_apply in Hrun. destruct (rs_apply _ _ _) as [[e1 rs] w]. injection Hrun as <- <-. by apply (Hsame (set_c_routes rs)).
  - injection Hrun as <- <-. eapply (accounts_drop id []); [exact Hacc|..]; try done. intros n. cbn. set_solver.
  - injection Hrun as <- <-. eapply (accounts_drop (p_IfID (cp_peer p)) [n]); [exact Hacc|..]; try done.
    intros m. cbn. by rewrite elem_of_difference, elem_of_singleton, list_elem_of_singleton.
Qed.

(** Changing an entry without its address and if_id. *)
Lemma accounts_alter (f : clientPeer → clientPeer) n (c : Client) ts :
  (∀ q, p_IfID (cp_peer (f q)) = p_IfID (cp_peer q) ∧ p_Addr (cp_peer (f q)) = p_Addr (cp_peer q)) →
  accounts c ts → accounts (set_c_peers (alter f n) c) ts.
Proof.
  intros Hf Hacc. destruct (c_peers c !! n) as [q|] eqn:E.
  2: { replace (set_c_peers (alter f n) c) with c; [done|]. destruct c. unfold set_c_peers. cbn in *. f_equal.
       symmetry. by apply alter_id; intros; congruence. }
  assert (alter f n (c_peers c) = <[n := f q]> (delete n (c_peers c))) as Ha.
  { apply map_eq. intros i. destruct (decide (n = i)) as [->|].
    - by rewrite lookup_alter_eq, lookup_insert_eq, E.
    - by rewrite lookup_alter_ne, lookup_insert_ne, lookup_delete_ne by done. }
  pose proof (peers_delete _ _ _ E) as Hml.
  assert (peers_of (set_c_peers (alter f n) c) ≡ₚ (n, f q) :: map_to_list (delete n (c_peers c))) as Hml'.
  { unfold peers_of. cbn. rewrite Ha. apply map_to_list_insert. by rewrite lookup_delete_eq. }
  destruct (Hf q) as [Hfi Hfa]. destruct Hacc as [H1 H2 H3 H4 H5 H6 H7 H8 H9].
  assert (all_ids (set_c_peers (alter f n) c) ts ≡ₚ all_ids c ts) as Eids.
  { unfold all_ids. rewrite Hml, Hml'. cbn. unfold peer_id at 1 3. cbn. by rewrite Hfi. }
  assert (all_names (set_c_peers (alter f n) c) ts ≡ₚ all_names c ts) as Enames.
  { unfold all_names. by rewrite Hml, Hml'. }
  constructor; rewrite ?Eids, ?Enames; try done.
  - intros id. rewrite Eids. apply H2.
  - intros a. change (c_bypass (set_c_peers (alter f n) c)) with (c_bypass c). rewrite <- H6. unfold all_users.
    change (controllers (set_c_peers (alter f n) c)) with (controllers c). rewrite Hml, Hml'. cbn [flat_map].
    unfold peer_users at 1 3. cbn. by rewrite Hfa.
  - cbn. intros Hcl. rewrite (H9 Hcl) in E. by rewrite lookup_empty in E.
Qed.

Lemma Advance_client name epoch (s s' : st) e :
  Advance name epoch s = (e, s') →
  st_c s' = st_c s ∨ ∃ next, st_c s' = set_c_peers (alter (advance_peer next) name) (st_c s).
Proof.
  unfold Advance, run_call. destruct (client_peer name (st_c s)) as [p|e0]; [|by intros [= _ <-]; left].
  destruct (_ <=? _); [by intros [= _ <-]; left|].
  destruct (sys _ (st_w s)) as [[e1|] w1]; [by intros [= _ <-]; left|]. cbn [st_w].
  destruct (sys _ w1) as [[e2|] w2]; cbn [st_w st_c].
  - destruct (sys _ w2) as [[e3|] w3]; intros [= _ <-]; by left.
  - destruct (fenceBelow _ _ _) as [e3 w3]. intros [= _ <-]. cbn. right. eauto.
Qed.

Lemma accounts_step s ts s' ts' : step (s, ts) (s', ts') → accounts (st_c s) ts → accounts (st_c s') ts'.
Proof.
  inversion 1; subst; intros Hacc;
    repeat match goal with HP : ts ≡ₚ _ |- _ => apply (accounts_perm _ _ _ HP) in Hacc; clear HP end.
  - by eapply accounts_add.
  - by eapply (accounts_instr p conn i prog us None) in Hacc.
  - by eapply (accounts_instr p conn i prog us (Some e)) in Hacc.
  - by apply accounts_end in Hacc.
  - by eapply accounts_finish_ok.
  - by eapply accounts_finish_err.
  - by eapply accounts_remove.
  - by eapply accounts_close.
  - by eapply accounts_cleanup.
  - by apply (accounts_users (st_c s') (st_c s') (TSeq []) ts' [] (λ _, 0)) in Hacc; try done; try (by intros; cbn; lia); exact (ac_pos _ _ Hacc).
  - apply (accounts_users (st_c s') (st_c s') (TPromoted name) ts [TPromote name want] (λ _, 0));
      try done; try (by intros; cbn; lia); [|exact (ac_pos _ _ Hacc)|by repeat constructor].
    destruct Hacc; constructor; try done. by constructor.
  - unfold Promote_apply in *. destruct (rs_apply _ _ _) as [[e1 rs] w]. simplify_eq.
    set (nt := match e with None => [TPromoted name] | Some _ => [] end).
    replace (match e with None => TPromoted name :: _ | Some _ => _ end) with (nt ++ ts'0) by (by destruct e).
    apply (accounts_users (st_c s) (set_c_routes rs (st_c s)) (TPromote name want) ts'0 nt (λ _, 0));
      unfold nt; destruct e; try done; try (by intros; cbn; lia); try exact (ac_pos _ _ Hacc); by repeat constructor.
  - apply (accounts_users (st_c s) (set_c_active name (st_c s)) (TPromoted name) ts' [] (λ _, 0)) in Hacc;
      try done; try (by intros; cbn; lia); exact (ac_pos _ _ Hacc).
  - match goal with HA : Advance _ _ _ = _ |- _ => apply Advance_client in HA as [->|[next ->]] end; [done|].
    by apply accounts_alter.
  - done.
Qed.

Lemma acquire_controllers_refs done l (s s' : st) :
  positive (c_bypass (st_c s)) → (∀ x, refs (c_bypass (st_c s)) x = count x done) →
  acquire_controllers cfg done l s = (None, s') →
  ∃ b, st_c s' = set_c_bypass (λ _, b) (st_c s) ∧ positive b ∧ ∀ x, refs b x = count x (done ++ l).
Proof.
  revert done s. induction l as [|a l IH]; intros done s Hpos Hr; cbn [acquire_controllers].
  { intros [= <-]. rewrite app_nil_r. exists (c_bypass (st_c s)). split_and!; [by destruct (st_c s)|done|done]. }
  destruct (acquireBypass cfg a s) as [[e|] s1] eqn:E; [done|].
  apply acquire_refs in E as (b & Hc & Hpb & Hrb); [|done]. intros Hrun.
  apply IH in Hrun as (b' & Hc' & Hpb' & Hrb').
  - exists b'. split_and!; [|done|].
    + rewrite Hc', Hc. by destruct (st_c s).
    + intros x. rewrite Hrb'. by rewrite <- app_assoc.
  - by rewrite Hc.
  - intros x. rewrite Hc. cbn. rewrite Hrb, Hr, count_app. change (count x [a]) with (count x (a :: [])).
    rewrite count_cons. change (count x []) with 0. lia.
Qed.

Lemma accounts_init (w : W) s0 : NewClient cfg w = (None, s0) → accounts (st_c s0) [].
Proof.
  unfold NewClient. destruct (client_validate cfg) as [[]|]; [|done].
  assert (∀ b, positive b → (∀ x, refs b x = count x (if cc_FullTunnel cfg then cc_Controllers cfg else [])) →
    accounts (set_c_bypass (λ _, b) emptyClient) []) as Hinit.
  { intros b Hpb Hr. constructor; cbn; try done.
    - constructor.
    - intros id. rewrite lookup_empty. unfold all_ids, peers_of. cbn. rewrite map_to_list_empty. cbn.
      rewrite elem_of_nil. split; [by intros [? ?]|done].
    - constructor.
    - intros n. by rewrite elem_of_empty, elem_of_nil.
    - intros a. fold (refs b a). rewrite Hr. unfold all_users, controllers, peers_of. cbn. rewrite map_to_list_empty. cbn.
      rewrite app_nil_r, andb_true_r. done. }
  destruct (cc_FullTunnel cfg).
  - intros Hrun. apply acquire_controllers_refs in Hrun as (b & -> & Hpb & Hr); [by apply Hinit| |]; cbn.
    + by intros a bp.
    + done.
  - intros [= <-]. cbn. by apply (Hinit ∅).
Qed.


End interleaving.

(** ** Fencing *)

(** What [fenceBelow] makes of an IKE_SA. *)
Definition fenced (conn : string) (epoch : Z) (s : IKESA) : IKESA :=
  if String.eqb (sa_Name s) conn
  then mkIKESA (sa_Name s) (sa_UniqueID s) (sa_State s) (sa_LocalHost s) (sa_RemoteHost s) (sa_LocalID s) (sa_RemoteID s)
         (sa_Initiator s) (sa_EncrAlg s) (sa_PRFAlg s) (sa_DHGroup s) (sa_EstablishedFor s)
         (filter (λ c, stale conn epoch c = false) (sa_Children s))
  else s.

Definition drop_children (ids : list Z) (s : IKESA) : IKESA :=
  mkIKESA (sa_Name s) (sa_UniqueID s) (sa_State s) (sa_LocalHost s) (sa_RemoteHost s) (sa_LocalID s) (sa_RemoteID s)
    (sa_Initiator s) (sa_EncrAlg s) (sa_PRFAlg s) (sa_DHGroup s) (sa_EstablishedFor s)
    (filter (λ c, ch_UniqueID c ∉ ids) (sa_Children s)).

Lemma drop_children_nil s : drop_children [] s = s.
Proof.
  destruct s. unfold drop_children. cbn. f_equal. apply list_filter_all. intros. apply not_elem_of_nil.
Qed.
Lemma drop_child_children id ids s : drop_children ids (drop_child id s) = drop_children (id :: ids) s.
Proof.
  unfold drop_children, drop_child. cbn. f_equal. rewrite list_filter_filter. apply list_filter_iff.
  intros c. rewrite not_elem_of_cons. tauto.
Qed.
Lemma drop_child_absent id sas : id ∉ child_ids sas → drop_child id <$> sas = sas.
Proof.
  unfold child_ids. induction sas as [|s sas IH]; [done|]. cbn [flat_map]. rewrite fmap_app, not_elem_of_app. intros [Hs Hr].
  cbn [fmap list_fmap]. f_equal; [|by apply IH]. destruct s. unfold drop_child. cbn in *. f_equal.
  apply list_filter_all. intros c Hc E. apply Hs. rewrite <- E. by apply list_elem_of_fmap_2.
Qed.

Section fencing.
Context {W : Type} {WE : Env W} {WL : EnvLaws W} {WR : Range}.

Lemma terminate_all_view ids (w w' : W) es :
  terminate_all ids w = (es, w') → Forall (λ e, e = None) es →
  view w' = with_sas (fmap (drop_children ids)) (view w).
Proof.
  revert w es. induction ids as [|id ids IH]; intros w es; cbn [terminate_all].
  { intros [= <- <-] _. symmetry. apply with_sas_id. erewrite list_fmap_ext; [apply list_fmap_id|].
    intros. apply drop_children_nil. }
  destruct (sys (TerminateChild id) w) as [e w1] eqn:Es. destruct (terminate_all ids w1) as [es' w2] eqn:Et.
  intros [= <- <-] [He Hes]%Forall_cons. rewrite (IH _ _ Et Hes).
  assert (view w1 = with_sas (fmap (drop_child id)) (view w)) as ->.
  { apply ignoreNotFound_None in He as [->|(e' & -> & He)]; [by apply sys_ok in Es|].
    apply sys_err in Es as [-> Hn]. symmetry. apply with_sas_id, drop_child_absent. by apply Hn. }
  unfold with_sas. cbn. f_equal. rewrite <- list_fmap_compose. apply list_fmap_ext. intros. apply drop_child_children.
Qed.

(** An identifier names one CHILD_SA of one IKE_SA. *)
Lemma child_unique sas s s' c c' :
  NoDup (child_ids sas) → s ∈ sas → s' ∈ sas → c ∈ sa_Children s → c' ∈ sa_Children s' →
  ch_UniqueID c' = ch_UniqueID c → s = s' ∧ c = c'.
Proof.
  unfold child_ids. induction sas as [|x l IH]; intros Hnd Hs Hs' Hc Hc' E; [by apply not_elem_of_nil in Hs|].
  cbn [flat_map] in Hnd. rewrite fmap_app in Hnd. apply NoDup_app in Hnd as (H1 & H2 & H3).
  assert (∀ y d, y ∈ l → d ∈ sa_Children y → ch_UniqueID d ∈ ch_UniqueID <$> flat_map sa_Children l) as Hin.
  { intros y d Hy Hd. apply list_elem_of_fmap_2. apply list_elem_of_In, in_flat_map. exists y. by rewrite <- !list_elem_of_In. }
  apply elem_of_cons in Hs as [->|Hs], Hs' as [->|Hs'].
  - split; [done|]. apply list_elem_of_lookup in Hc as [i Hi], Hc' as [j Hj].
    assert (i = j) as ->; [|congruence].
    eapply (NoDup_lookup _ i j (ch_UniqueID c) H1); rewrite list_lookup_fmap, ?Hi, ?Hj; [done|]. cbn. by rewrite E.
  - exfalso. eapply H2; [by apply list_elem_of_fmap_2, Hc|]. rewrite <- E. by eapply Hin.
  - exfalso. eapply H2; [by apply list_elem_of_fmap_2, Hc'|]. rewrite E. by eapply Hin.
  - by apply IH.
Qed.

Lemma stale_ids_drop conn epoch sas :
  NoDup (child_ids sas) →
  drop_children (ch_UniqueID <$> List.filter (stale conn epoch) (flat_map sa_Children (filter (λ s, sa_Name s = conn) sas))) <$> sas
  = fenced conn epoch <$> sas.
Proof.
  intros Hnd. set (ids := _ <$> List.filter _ _).
  assert (∀ s c, s ∈ sas → c ∈ sa_Children s → ch_UniqueID c ∈ ids ↔ sa_Name s = conn ∧ stale conn epoch c = true) as Hids.
  { intros s c Hs Hc. split.
    - intros (c' & E & Hc')%list_elem_of_fmap. apply list_elem_of_In, filter_In in Hc' as [Hc' Hst].
      apply in_flat_map in Hc' as (s' & Hs' & Hc'). apply list_elem_of_In, list_elem_of_filter in Hs' as [Hn Hs'].
      apply list_elem_of_In in Hc'.
      by destruct (child_unique sas s' s c' c) as [-> ->].
    - intros [Hn Hst]. apply list_elem_of_fmap_2, list_elem_of_In, filter_In. split; [|done].
      apply in_flat_map. exists s. rewrite <- !list_elem_of_In. split; [|done]. by apply list_elem_of_filter. }
  apply list_fmap_ext. intros i s Hi. apply list_elem_of_lookup_2 in Hi. unfold fenced.
  destruct (String.eqb_spec (sa_Name s) conn) as [E|E].
  - unfold drop_children. f_equal. apply list_filter_ext. intros c Hc. rewrite (Hids s c Hi Hc).
    rewrite <- not_true_iff_false. tauto.
  - destruct s. unfold drop_children. cbn. f_equal. apply list_filter_all. intros c Hc Hin.
    apply (Hids _ c Hi) in Hin; [|done]. by destruct Hin.
Qed.

Lemma fenceBelow_view conn epoch (w w' : W) :
  env_wf w → fenceBelow conn epoch w = (None, w') → view w' = with_sas (fmap (fenced conn epoch)) (view w).
Proof.
  intros Hw. unfold fenceBelow. destruct (ListSAs conn w) as [sas|e] eqn:El; [|done].
  apply ListSAs_view in El. destruct (terminate_all _ w) as [es w1] eqn:Et. intros [= HJ <-].
  apply errors_Join_None in HJ. rewrite (terminate_all_view _ _ _ _ Et HJ), El.
  unfold with_sas. f_equal. apply stale_ids_drop. by apply view_unique.
Qed.

Lemma stale_ChildName conn epoch e c :
  conn ≠ "" → is_u64 e → ch_Name c = ChildName conn e → stale conn epoch c = (e <? epoch).
Proof.
  intros Hne He Hc. unfold stale. rewrite Hc.
  rewrite (proj2 (ChildName_parse (ChildName conn e) conn e)) by done. by rewrite String.eqb_refl.
Qed.

Lemma fenced_name conn epoch s : sa_Name (fenced conn epoch s) = sa_Name s.
Proof. unfold fenced. by destruct (String.eqb _ _). Qed.

Lemma outside_fenced conn epoch sas : outside conn (fenced conn epoch <$> sas) = outside conn sas.
Proof.
  unfold outside. induction sas as [|s sas IH]; [done|]. rewrite fmap_cons, !filter_cons, IH, fenced_name.
  case_decide as E; [|done]. unfold fenced. by destruct (String.eqb_spec (sa_Name s) conn).
Qed.

(** No CHILD_SA of connection [n] has an epoch below [epoch]. *)
Definition none_below (n : string) (epoch : Z) (sas : list IKESA) : Prop :=
  ∀ sa c e, sa ∈ sas → sa_Name sa = n → c ∈ sa_Children sa → ch_Name c = ChildName n e → is_u64 e → epoch ≤ e.

(** C22: an [Advance] that succeeds moves the gateway to the higher epoch: the new
    epoch's connection is loaded and its CHILD_SA is up, every CHILD_SA of an
    older epoch of that connection is gone, and the SAs of other connections are
    untouched. *)
Theorem Advance_fences name epoch p (s s' : st) :
  let n := cn_Name (cp_conn p) in
  env_wf (st_w s) → c_peers (st_c s) !! name = Some p → n ≠ "" → is_u64 epoch →
  Advance name epoch s = (None, s') →
  cn_Epoch (cp_conn p) < epoch
  ∧ (cp_conn <$> c_peers (st_c s') !! name) = Some (with_Epoch (cp_conn p) epoch)
  ∧ k_conns (view (st_w s')) !! n = Some (with_Epoch (cp_conn p) epoch)
  ∧ has_child (k_sas (view (st_w s'))) n (ChildName n epoch)
  ∧ none_below n epoch (k_sas (view (st_w s')))
  ∧ outside n (k_sas (view (st_w s'))) = outside n (k_sas (view (st_w s))).
Proof.
  intros n Hw Hp Hne He. unfold Advance, client_peer. destruct (c_closed (st_c s)); [done|]. rewrite Hp.
  destruct (epoch <=? cn_Epoch (cp_conn p)) eqn:Hle; [done|]. zbool. unfold run_call.
  destruct (sys (LoadConn _) (st_w s)) as [[e1|] w1] eqn:E1; [done|]. cbn [st_w st_c].
  destruct (sys (Initiate _ _) w1) as [[e2|] w2] eqn:E2; cbn [st_w st_c on_c]; [by destruct (sys _ w2) as [[?|] ?]|].
  destruct (fenceBelow _ _ w2) as [ef w3] eqn:E3. intros [= -> <-]. cbn [st_w st_c].
  assert (env_wf w2) as Hw2.
  { pose proof (sys_wf (LoadConn (with_Epoch (cp_conn p) epoch)) _ Hw) as H1. rewrite E1 in H1. cbn [snd] in H1.
    pose proof (sys_wf (Initiate n (ChildName n epoch)) _ H1) as H2. change (cn_Name (with_Epoch (cp_conn p) epoch)) with n in E2.
    by rewrite E2 in H2. }
  apply fenceBelow_view in E3; [|done]. rewrite E3. cbn [k_conns k_sas with_sas].
  apply sys_ok in E1 as (sas1 & Ho1 & _ & Hv1). apply sys_ok in E2 as (sas2 & Ho2 & (sa & c & Hsa & Hn & Hc & Hcn) & Hv2).
  change (cn_Name (with_Epoch (cp_conn p) epoch)) with n in *. rewrite Hv1 in Hv2, Ho2. rewrite Hv2. cbn [k_conns k_sas with_sas with_conns].
  split_and!.
  - done.
  - cbn. by rewrite lookup_alter_eq, Hp.
  - apply lookup_insert_eq.
  - exists (fenced n epoch sa), c. split_and!; [by apply list_elem_of_fmap_2|by rewrite fenced_name| |done].
    unfold fenced. rewrite Hn, String.eqb_refl. apply list_elem_of_filter. split; [|done].
    rewrite (stale_ChildName n epoch epoch) by done. apply Z.ltb_irrefl.
  - intros sa' c' e (sa0 & -> & Hin)%list_elem_of_fmap Hn' Hc' Hcn' Heu. rewrite fenced_name in Hn'.
    unfold fenced in Hc'. rewrite Hn', String.eqb_refl in Hc'. apply list_elem_of_filter in Hc' as [Hst _].
    rewrite (stale_ChildName n epoch e) in Hst by done. by zbool.
  - rewrite outside_fenced, Ho2. cbn. done.
Qed.

End fencing.

(** ** Schedules *)

Section schedule.
Context {W : Type} {WE : Env W} {WR : Range} (cfg : ClientConfig).

(** A new call, or the next step of the [i]-th call in progress. *)
Inductive action :=
| AAdd (p : Peer)
| ARemove (name : string)
| APromote (name : string) (prefixes : list Prefix)
| AClose
| ARun (i : nat).

Definition task_step (t : task) (s : st (W := W)) : st (W := W) * list task :=
  match t with
  | TAdd p conn [] us => (s, [TAdded p conn None us])
  | TAdd p conn (i :: prog) us =>
      match run_instr cfg i s with
      | (None, new, s) => (s, [TAdd p conn prog (new ++ us)])
      | (Some e, _, s) => (s, [TAdded p conn (Some e) us])
      end
  | TAdded p conn err us =>
      match Add_finish cfg p conn err (st_c s) with
      | (None, c) => (mkSt c (st_w s), [])
      | (Some _, c) => (mkSt c (st_w s), [TSeq (CUndo <$> us)])
      end
  | TSeq [] => (s, [])
  | TSeq (x :: l) => ((run_cleanup x s).2, [TSeq l])
  | TPromote name want =>
      match Promote_apply want s with
      | (None, s) => (s, [TPromoted name])
      | (Some _, s) => (s, [])
      end
  | TPromoted name => (on_c (set_c_active name) s, [])
  end.

Definition act (a : action) (x : st (W := W) * list task) : option (st (W := W) * list task) :=
  let '(s, ts) := x in
  match a with
  | AAdd p =>
      if String.eqb (p_Name p) "" then None else
      match Add_reserve cfg p (st_c s) with
      | Ok (conn, c) => Some (mkSt c (st_w s), TAdd p conn (bringUp cfg p conn (client_iface cfg p)) [] :: ts)
      | Err _ => None
      end
  | ARemove name =>
      match Remove_start name (st_c s) with
      | Ok (p, c) => Some (mkSt c (st_w s), TSeq ((CUndo <$> tearDown_steps cfg p) ++ [CRemoved name p]) :: ts)
      | Err _ => None
      end
  | APromote name ps =>
      match Promote_check cfg name ps s with Ok want => Some (s, TPromote name want :: ts) | Err _ => None end
  | AClose =>
      match Close_start (st_c s) with
      | Some (peers, c) => Some (mkSt c (st_w s), TSeq (Close_steps cfg peers) :: ts)
      | None => None
      end
  | ARun i =>
      match ts !! i with
      | Some t => let '(s, nt) := task_step t s in Some (s, nt ++ delete i ts)
      | None => None
      end
  end.

Fixpoint acts (l : list action) (x : st * list task) : option (st * list task) :=
  match l with [] => Some x | a :: l => match act a x with Some x => acts l x | None => None end end.

Lemma act_step a x y : act a x = Some y → step cfg x y.
Proof.
  destruct x as [s ts]. destruct a; cbn [act].
  - destruct (String.eqb_spec (p_Name p) ""); [done|]. destruct (Add_reserve cfg p (st_c s)) as [[conn c]|] eqn:E; [|done].
    intros [= <-]. by constructor.
  - destruct (Remove_start name (st_c s)) as [[p c]|] eqn:E; [|done]. intros [= <-]. by constructor.
  - destruct (Promote_check cfg name prefixes s) as [want|] eqn:E; [|done]. intros [= <-]. by econstructor.
  - destruct (Close_start (st_c s)) as [[peers c]|] eqn:E; [|done]. intros [= <-]. by constructor.
  - destruct (ts !! i) as [t|] eqn:E; [|done]. apply delete_Permutation in E.
    destruct (task_step t s) as [s' nt] eqn:Et. intros [= <-]. destruct t as [p conn [|x prog] us|p conn err us|[|x l]|name want|name]; cbn in Et.
    + simplify_eq. by apply step_instr_end.
    + destruct (run_instr cfg x s) as [[[e|] new] s1] eqn:Er; simplify_eq; [by eapply step_instr_err|by eapply step_instr_ok].
    + destruct (Add_finish cfg p conn err (st_c s)) as [[e|] c] eqn:Ef; simplify_eq; [by eapply step_finish_err|by eapply step_finish_ok].
    + simplify_eq. by apply step_cleanup_end.
    + destruct (run_cleanup x s) as [e s1] eqn:Er. simplify_eq. by eapply step_cleanup.
    + destruct (Promote_apply want s) as [e s1] eqn:Ep.
      pose proof (step_apply cfg name want e s s1 ts _ E Ep) as Hs. by destruct e; simplify_eq.
    + simplify_eq. by eapply step_active.
Qed.

Lemma acts_steps l x y : acts l x = Some y → rtc (step cfg) x y.
Proof.
  revert x. induction l as [|a l IH]; intros x; cbn [acts]; [intros [= <-]; done|].
  destruct (act a x) as [z|] eqn:E; [|done]. intros H. eapply rtc_l; [by eapply act_step|by apply IH].
Qed.
End schedule.

Module Demo.
Import Sim.

Definition ip (a b c d : Z) : ZAddr := unzoned (Addr4 (a * 2 ^ 24 + b * 2 ^ 16 + c * 2 ^ 8 + d)).
Definition config (full : bool) : ClientConfig :=
  mkClientConfig "egressa" "client" "0123456789abcdef" (ip 10 0 0 7) noAddr full [ip 192 0 2 1] 0 0 [] [] "egx" "" Second Second.
Definition peer (name : string) (ifid epoch : Z) : Peer := mkPeer name (ip 192 0 2 ifid) "gateway" ifid epoch [].
Definition world (faults : list bool) : sim :=
  mkSim (mkKernel {["eth0" := 0]} ∅ ∅ ∅ ∅ []) faults 1 (mkRoute (mkPrefix (Addr4 0) 0) (ip 192 0 2 254) "eth0" noAddr 254) None.
Definition fresh (faults : list bool) : st (W := sim) := mkSt emptyClient (world faults).

Lemma world_wf faults : env_wf (world faults).
Proof. split_and!; [by intros ? ? ?|constructor..]. Qed.

(** The sixth call fails: LoadConn, after a bypass route and a secret. *)
Definition failing := fresh [false; false; false; false; false; true].
Definition failed := Add (config true) (peer "a" 5 1) failing.

(** A gateway added, and advanced to epoch 4. *)
Definition added : st := (Add (config false) (peer "a" 5 1) (fresh [])).2.
Definition advanced := Advance "a" 4 added.
Lemma Advance_fences_witness :
  (cp_conn <$> c_peers (st_c advanced.2) !! "a") = Some (with_Epoch (connection (config false) (peer "a" 5 1)) 4).
Proof.
  refine (proj1 (proj2 (Advance_fences "a" 4
    (mkClientPeer (peer "a" 5 1) (connection (config false) (peer "a" 5 1)) "egx5") added advanced.2 _ _ _ _ _))).
  - split_and!; [by intros ? ? ?|..];
      first [by apply (bool_decide_eq_true_1 (NoDup _)); vm_compute|by apply (bool_decide_eq_true_1 (Forall _ _)); vm_compute].
  - by vm_compute.
  - done.
  - done.
  - by vm_compute.
Defined.

Definition started := NewClient (config true) (world []).
Definition adding := acts (config true) [AAdd (peer "a" 5 1); ARun 0; ARun 0; ARun 0; ARun 0] (started.2, []).

(** *** The rollback of a failed Add can take down a later Add

    [Add] gives up the name and the if_id before it rolls back. A second [Add]
    of the same gateway under another if_id can succeed in between; the first
    one's rollback then unloads its connection and closes its SA. *)
Definition retry : list action :=
  [AAdd (peer "a" 5 1)] ++ replicate 8 (ARun 0)        (* the initiate fails; the reservation is gone *)
  ++ [AAdd (peer "a" 6 1)] ++ replicate 9 (ARun 0)     (* added again, under another if_id *)
  ++ replicate 5 (ARun 0).                            (* and now the first one's rollback *)
Lemma rollback_hits_later_add :
  match acts (config false) retry (fresh [false; false; false; false; false; true], []) with
  | Some (s, []) => is_Some (c_peers (st_c s) !! "a") ∧ k_conns (view (st_w s)) = ∅ ∧ k_sas (view (st_w s)) = []
  | _ => False
  end.
Proof. vm_compute. split_and!; [by eexists|done..]. Qed.

(** *** Remove can take the active gateway

    [Promote] looks the gateway up before it takes the route mutex, [Remove]
    asks only whether it is active yet. *)
Definition promote_remove : list action :=
  [AAdd (peer "a" 5 1)] ++ replicate 9 (ARun 0) ++ [AAdd (peer "b" 6 1)] ++ replicate 9 (ARun 0)
  ++ [APromote "a" [mkPrefix (Addr4 (172 * 2 ^ 24)) 8]; ARun 0; ARun 0]
  ++ [APromote "b" [mkPrefix (Addr4 (172 * 2 ^ 24)) 8]; ARemove "b"; ARun 1; ARun 0] ++ replicate 6 (ARun 0).
Lemma remove_takes_active :
  match acts (config false) promote_remove (fresh [], []) with
  | Some (s, []) => c_active (st_c s) = "b" ∧ c_peers (st_c s) !! "b" = None ∧ k_routes (view (st_w s)) = ∅
  | _ => False
  end.
Proof. vm_compute. by split_and!. Qed.

(** *** A gateway without a name hides its if_id *)
Definition nameless : st := (Add (config false) (peer "" 5 1) (fresh [])).2.
Lemma nameless_hides_ifid :
  is_Some (c_peers (st_c nameless) !! "") ∧
  match Add_reserve (config false) (peer "b" 5 1) (st_c nameless) with Ok _ => True | Err _ => False end.
Proof. vm_compute. split; [by eexists|done]. Qed.

End Demo.
