(* ===== verification/IpsecGateway.v ===== *)
(** * The IPsec gateway: internal/ipsec/gateway.go

    A gateway accepts every client on one responder connection and one XFRM
    interface, and keeps a backbone connection with each peer gateway. The
    theorems: a [Start] or an [AddBackbone] that fails leaves kernel and daemon
    as they were; of two gateways that add each other exactly one initiates;
    the client key is never tried for a backbone peer; [FenceClient] closes
    exactly one client's SAs. *)

From S2P Require Import Prelude Netip IpsecConfig IpsecNet IpsecClient.

Definition DefaultGatewayInterfacePrefix : string := "egw".
Definition DefaultRulePriority : Z := 1000.

Record GatewayConfig := mkGatewayConfig {
  gc_Name : string;
  gc_LocalID : string;
  gc_BackboneID : string;
  gc_LocalAddr : ZAddr;
  gc_ClientPSK : string;
  gc_BackbonePSK : string;
  gc_ClientSubnet : Prefix;
  gc_Served : list Prefix;
  gc_InnerAddr : ZAddr;
  gc_ClientIfID : Z;
  gc_Table : Z;
  gc_RulePriority : Z;
  gc_DPDDelay : Duration;
  gc_IKEProposals : list string;
  gc_ESPProposals : list string;
  gc_InterfacePrefix : string;
  gc_PollInterval : Duration;
  gc_CleanupTimeout : Duration;
}.

Definition gateway_setDefaults (cfg : GatewayConfig) : GatewayConfig :=
  mkGatewayConfig (or_default (gc_Name cfg) "egressa") (gc_LocalID cfg)
    (if String.eqb (gc_BackboneID cfg) "" && negb (String.eqb (gc_LocalID cfg) "") then gc_LocalID cfg +:+ "-bb" else gc_BackboneID cfg)
    (gc_LocalAddr cfg) (gc_ClientPSK cfg) (gc_BackbonePSK cfg) (gc_ClientSubnet cfg) (gc_Served cfg) (gc_InnerAddr cfg)
    (gc_ClientIfID cfg) (gc_Table cfg) (if gc_RulePriority cfg =? 0 then DefaultRulePriority else gc_RulePriority cfg)
    (gc_DPDDelay cfg) (gc_IKEProposals cfg) (gc_ESPProposals cfg)
    (or_default (gc_InterfacePrefix cfg) DefaultGatewayInterfacePrefix)
    (or_positive (gc_PollInterval cfg) DefaultPollInterval) (or_positive (gc_CleanupTimeout cfg) DefaultCleanupTimeout).

Definition gateway_validate (cfg : GatewayConfig) : res error () :=
  try _ := fail_if (negb (nameRE (gc_Name cfg))) "gateway name" in
  try _ := fail_if (negb (idRE (gc_LocalID cfg))) "gateway LocalID" in
  try _ := fail_if (negb (idRE (gc_BackboneID cfg))) "gateway BackboneID" in
  try _ := fail_if (String.eqb (gc_BackboneID cfg) (gc_LocalID cfg)) "BackboneID must differ from LocalID" in
  try _ := checkAddr "gateway LocalAddr" (gc_LocalAddr cfg) in
  try _ := validatePSK "gateway client" (gc_ClientPSK cfg) in
  try _ := validatePSK "gateway backbone" (gc_BackbonePSK cfg) in
  try _ := fail_if (String.eqb (gc_ClientPSK cfg) (gc_BackbonePSK cfg)) "the backbone PSK must differ from the client PSK" in
  try _ := fail_if (negb (pf_IsValid (gc_ClientSubnet cfg))) "gateway ClientSubnet is required" in
  let f := familyOf (pf_Addr (gc_ClientSubnet cfg)) in
  try _ := checkPrefixes "gateway served" f (gc_Served cfg) in
  try _ := (if za_IsValid (gc_InnerAddr cfg) then
              try _ := checkAddr "gateway InnerAddr" (gc_InnerAddr cfg) in
              fail_if (negb (familyOf (za_Addr (gc_InnerAddr cfg)) =? f)) "InnerAddr is not in ClientSubnet's family"
            else Ok ()) in
  try _ := fail_if (gc_ClientIfID cfg =? 0) "gateway ClientIfID must be non-zero" in
  try _ := fail_if ((gc_Table cfg <? 0) || (gc_RulePriority cfg <? 0)) "table and rule priority must not be negative" in
  try _ := fail_if (negb (ifPrefixRE (gc_InterfacePrefix cfg))) "interface prefix" in
  fail_if (gc_DPDDelay cfg <? 0) "gateway DPDDelay must not be negative".

Record BackbonePeer := mkBackbonePeer {
  bp_Name : string; bp_ID : string; bp_Addr : ZAddr; bp_IfID : Z; bp_Epoch : Z;
  bp_LocalTS : list Prefix; bp_RemoteTS : list Prefix;
}.
Record backbonePeer := mkBackbone { bk_peer : BackbonePeer; bk_conn : Connection; bk_iface : string }.

Record Gateway := mkGateway {
  g_started : bool;
  g_closed : bool;
  g_backbone : gmap string backbonePeer;
  g_pending : gset string;
  g_pendingIDs : gset string;
  g_ifIDs : gmap Z string;
  g_routes : gmap Prefix Route;
  g_uplink : string;
  g_rule : option Rule;
}.

Definition set_g_started b g := mkGateway b (g_closed g) (g_backbone g) (g_pending g) (g_pendingIDs g) (g_ifIDs g) (g_routes g) (g_uplink g) (g_rule g).
Definition set_g_closed g := mkGateway (g_started g) true (g_backbone g) (g_pending g) (g_pendingIDs g) (g_ifIDs g) (g_routes g) (g_uplink g) (g_rule g).
Definition set_g_backbone f g := mkGateway (g_started g) (g_closed g) (f (g_backbone g)) (g_pending g) (g_pendingIDs g) (g_ifIDs g) (g_routes g) (g_uplink g) (g_rule g).
Definition set_g_pending f h g := mkGateway (g_started g) (g_closed g) (g_backbone g) (f (g_pending g)) (h (g_pendingIDs g)) (g_ifIDs g) (g_routes g) (g_uplink g) (g_rule g).
Definition set_g_ifIDs f g := mkGateway (g_started g) (g_closed g) (g_backbone g) (g_pending g) (g_pendingIDs g) (f (g_ifIDs g)) (g_routes g) (g_uplink g) (g_rule g).
Definition set_g_routes r g := mkGateway (g_started g) (g_closed g) (g_backbone g) (g_pending g) (g_pendingIDs g) (g_ifIDs g) r (g_uplink g) (g_rule g).
Definition set_g_uplink u g := mkGateway (g_started g) (g_closed g) (g_backbone g) (g_pending g) (g_pendingIDs g) (g_ifIDs g) (g_routes g) u (g_rule g).
Definition set_g_rule r g := mkGateway (g_started g) (g_closed g) (g_backbone g) (g_pending g) (g_pendingIDs g) (g_ifIDs g) (g_routes g) (g_uplink g) r.

(** A clean-up call and the error it ignores. *)
Inductive gundo := IgnoreNotExist (c : call) | IgnoreNotFound (c : call).

(** The steps of [start] and [addBackbone]: a call and what its success pushes
    on the undo list, recording the rule, looking at the context. *)
Inductive ginstr := GCall (c : call) (undo : list gundo) | GSetRule (r : Rule) | GCtx.

Section gateway.
Context {W : Type} {WE : Env W} {WR : Range} (cfg : GatewayConfig).

Record gst := mkGst { gs_g : Gateway; gs_w : W }.
Definition on_g (f : Gateway → Gateway) (s : gst) : gst := mkGst (f (gs_g s)) (gs_w s).

Definition gateway_family : Z := familyOf (pf_Addr (gc_ClientSubnet cfg)).
Definition clientIface : string := ifaceName (gc_InterfacePrefix cfg) (gc_ClientIfID cfg).
Definition clientRoute : Route := mkRoute (Masked (gc_ClientSubnet cfg)) noAddr clientIface noAddr 0.
Definition ResponderName : string := gc_Name cfg +:+ "-clients".
Definition backboneName (name : string) : string := gc_Name cfg +:+ "-bb-" +:+ name.
Definition bp_name (p : BackbonePeer) : string := if String.eqb (bp_Name p) "" then bp_ID p else bp_Name p.
Definition ownTable : bool := negb (gc_Table cfg =? 0) && negb (gc_Table cfg =? MainTable).

Definition NewGateway : res error Gateway :=
  try _ := gateway_validate cfg in
  Ok (mkGateway false false ∅ ∅ ∅ {[gc_ClientIfID cfg := "clients"%string]} ∅ "" None).

Definition responder : Connection :=
  mkConnection ResponderName 0 (gc_LocalAddr cfg) noAddr (gc_LocalID cfg) AnyID AuthPSK (gc_ClientPSK cfg) "" ""
    (match gc_Served cfg with [] => [allAddresses gateway_family] | l => l end) [Masked (gc_ClientSubnet cfg)]
    (gc_ClientIfID cfg) (gc_IKEProposals cfg) (gc_ESPProposals cfg) (gc_DPDDelay cfg) StartNone.

(** ** Running steps *)

Definition run_gundo (u : gundo) (w : W) : option error * W :=
  match u with
  | IgnoreNotExist c => let '(e, w) := sys c w in (ignoreNotExist e, w)
  | IgnoreNotFound c => let '(e, w) := sys c w in (ignoreNotFound e, w)
  end.
Fixpoint run_gundos (us : list gundo) (w : W) : list (option error) * W :=
  match us with
  | [] => ([], w)
  | u :: us => let '(e, w) := run_gundo u w in let '(es, w) := run_gundos us w in (e :: es, w)
  end.

Fixpoint run_ginstrs (is_ : list ginstr) (us : list gundo) (s : gst) : option error * list gundo * gst :=
  match is_ with
  | [] => (None, us, s)
  | GCall c new :: is_ =>
      match sys c (gs_w s) with
      | (Some e, w) => (Some e, us, mkGst (gs_g s) w)
      | (None, w) => run_ginstrs is_ (new ++ us) (mkGst (gs_g s) w)
      end
  | GSetRule r :: is_ => run_ginstrs is_ us (on_g (set_g_rule (Some r)) s)
  | GCtx :: is_ => match ctx_Err (gs_w s) with Some e => (Some e, us, s) | None => run_ginstrs is_ us s end
  end.

(** ** [Start] *)

Definition client_secret : SharedSecret := mkSecret ResponderName (gc_ClientPSK cfg) [gc_LocalID cfg].
Definition client_rule : Rule := mkRule zeroPrefix clientIface (gc_Table cfg) (gc_RulePriority cfg) gateway_family.

Definition start : list ginstr :=
  [GCall (AddXfrmInterface clientIface (gc_ClientIfID cfg) "") [IgnoreNotExist (DeleteLink clientIface)]]
  ++ (if za_IsValid (gc_InnerAddr cfg) then [GCall (AddAddr clientIface (hostPrefix (gc_InnerAddr cfg))) []] else [])
  ++ [GCall (SetLinkUp clientIface) []; GCall (RouteReplace clientRoute) []]
  ++ (if ownTable then [GCall (RuleAdd client_rule) [IgnoreNotExist (RuleDel client_rule)]; GSetRule client_rule] else [])
  ++ [GCall (LoadShared client_secret) [IgnoreNotFound (UnloadShared ResponderName)]; GCall (LoadConn responder) []].

Definition Start_begin (g : Gateway) : res error Gateway :=
  if g_closed g then Err ErrClosed
  else if g_started g then Err (ErrText "gateway already started")
  else Ok (set_g_started true g).

Definition Start (s : gst) : option error * gst :=
  match Start_begin (gs_g s) with
  | Err e => (Some e, s)
  | Ok g =>
      match run_ginstrs start [] (mkGst g (gs_w s)) with
      | (None, _, s) => (None, s)
      | (Some e, us, s) =>
          let '(es, w) := run_gundos us (gs_w s) in
          let s := mkGst (set_g_rule None (set_g_started false (gs_g s))) w in
          match errors_Join es with
          | Some u => (Some (ErrUndo "start gateway" e u), s)
          | None => (Some (ErrWrap "start gateway" e), s)
          end
      end
  end.

(** ** Clients *)

Definition requireStarted (g : Gateway) : res error () :=
  if g_closed g then Err ErrClosed else if g_started g then Ok () else Err (ErrText "gateway not started").

Definition Clients (s : gst) : res error (list IKESA) :=
  try _ := requireStarted (gs_g s) in ListSAs ResponderName (gs_w s).

(** The loop of [FenceClient]: how many were closed, the errors. *)
Fixpoint fence_sas (identity : string) (sas : list IKESA) (w : W) : Z * list (option error) * W :=
  match sas with
  | [] => (0, [], w)
  | sa :: sas =>
      if negb (String.eqb (sa_RemoteID sa) identity) then fence_sas identity sas w else
      let '(e, w) := sys (TerminateIKEByID (sa_UniqueID sa)) w in
      let '(n, es, w) := fence_sas identity sas w in
      match ignoreNotFound e with
      | Some e => (n, Some e :: es, w)
      | None => (n + 1, es, w)
      end
  end.

Definition FenceClient (identity : string) (s : gst) : Z * option error * gst :=
  if negb (idRE identity) then (0, Some (ErrText "client identity"), s) else
  match Clients s with
  | Err e => (0, Some e, s)
  | Ok sas => let '(n, es, w) := fence_sas identity sas (gs_w s) in (n, errors_Join es, mkGst (gs_g s) w)
  end.

(** ** Backbones *)

Definition backboneConnection (p : BackbonePeer) : Connection :=
  let all := [allAddresses gateway_family] in
  mkConnection (backboneName (bp_name p)) (bp_Epoch p) (gc_LocalAddr cfg) (bp_Addr p) (gc_BackboneID cfg) (bp_ID p)
    AuthPSK (gc_BackbonePSK cfg) "" ""
    (match bp_LocalTS p with [] => all | l => l end) (match bp_RemoteTS p with [] => all | l => l end)
    (bp_IfID p) (gc_IKEProposals cfg) (gc_ESPProposals cfg) (gc_DPDDelay cfg)
    (if str_ltb (gc_BackboneID cfg) (bp_ID p) then StartStart else StartNone).

Definition backbone_secret (conn : Connection) : SharedSecret :=
  mkSecret (cn_Name conn) (cn_PSK conn) [cn_LocalID conn; cn_RemoteID conn].

Definition addBackbone (conn : Connection) (iface : string) : list ginstr :=
  [GCall (AddXfrmInterface iface (cn_IfID conn) "") [IgnoreNotExist (DeleteLink iface)];
   GCall (SetLinkUp iface) [];
   GCall (LoadShared (backbone_secret conn)) [IgnoreNotFound (UnloadShared (cn_Name conn))];
   GCall (LoadConn conn) [IgnoreNotFound (TerminateIKE (cn_Name conn)); IgnoreNotFound (UnloadConn (cn_Name conn))];
   GCtx].

Definition hasBackboneID (id : string) (g : Gateway) : bool :=
  existsb (λ kv, String.eqb (bp_ID (bk_peer kv.2)) id) (map_to_list (g_backbone g)).

(** Everything before the mutex. *)
Definition checkBackbone (p : BackbonePeer) (g : Gateway) : res error Connection :=
  try _ := requireStarted g in
  try _ := fail_if (String.eqb (bp_ID p) (gc_BackboneID cfg) || String.eqb (bp_ID p) (gc_LocalID cfg)) "is this gateway itself" in
  try _ := checkAddr ("backbone peer " +:+ bp_ID p) (bp_Addr p) in
  try _ := checkSameFamily ("backbone peer " +:+ bp_ID p) (gc_LocalAddr cfg) (bp_Addr p) in
  try _ := checkPrefixes "backbone traffic selector" gateway_family (bp_LocalTS p ++ bp_RemoteTS p) in
  try _ := Validate (backboneConnection p) in
  Ok (backboneConnection p).

Definition AddBackbone_reserve (p : BackbonePeer) (g : Gateway) : res error Gateway :=
  let name := bp_name p in
  if g_closed g then Err ErrClosed
  else if bool_decide (is_Some (g_backbone g !! name)) || bool_decide (name ∈ g_pending g)
          || bool_decide (bp_ID p ∈ g_pendingIDs g) || hasBackboneID (bp_ID p) g
  then Err (ErrWrap "already added or being added" ErrExist)
  else if negb (String.eqb (default "" (g_ifIDs g !! bp_IfID p)) "")
  then Err (ErrWrap "if_id is already used" ErrExist)
  else Ok (set_g_ifIDs (<[bp_IfID p := name]>) (set_g_pending (λ s, {[name]} ∪ s) (λ s, {[bp_ID p]} ∪ s) g)).

Definition backbone_iface (p : BackbonePeer) : string := ifaceName (gc_InterfacePrefix cfg) (bp_IfID p).

Definition AddBackbone_finish (p : BackbonePeer) (conn : Connection) (err : option error) (g : Gateway) : option error * Gateway :=
  let g := set_g_pending (λ s, s ∖ {[bp_name p]}) (λ s, s ∖ {[bp_ID p]}) g in
  let err := match err with Some e => Some e | None => if g_closed g then Some ErrClosed else None end in
  match err with
  | None => (None, set_g_backbone (<[bp_name p := mkBackbone p conn (backbone_iface p)]>) g)
  | Some e => (Some e, set_g_ifIDs (delete (bp_IfID p)) g)
  end.

Definition AddBackbone (p : BackbonePeer) (s : gst) : option error * gst :=
  match checkBackbone p (gs_g s) with
  | Err e => (Some e, s)
  | Ok conn =>
      match AddBackbone_reserve p (gs_g s) with
      | Err e => (Some e, s)
      | Ok g =>
          let '(err, us, s) := run_ginstrs (addBackbone conn (backbone_iface p)) [] (mkGst g (gs_w s)) in
          match AddBackbone_finish p conn err (gs_g s) with
          | (None, g) => (None, mkGst g (gs_w s))
          | (Some e, g) =>
              let '(es, w) := run_gundos us (gs_w s) in
              match errors_Join es with
              | Some u => (Some (ErrUndo ("add backbone peer " +:+ bp_name p) e u), mkGst g w)
              | None => (Some (ErrWrap ("add backbone peer " +:+ bp_name p) e), mkGst g w)
              end
          end
      end
  end.

Definition gateway_peer (name : string) (g : Gateway) : res error backbonePeer :=
  if g_closed g then Err ErrClosed
  else match g_backbone g !! name with Some p => Ok p | None => Err (ErrWrap "no backbone peer" ErrNotFound) end.

Definition FenceBackboneBelow (name : string) (epoch : Z) (s : gst) : option error * gst :=
  match gateway_peer name (gs_g s) with
  | Err e => (Some e, s)
  | Ok p => let '(e, w) := fenceBelow (cn_Name (bk_conn p)) epoch (gs_w s) in (e, mkGst (gs_g s) w)
  end.

(** ** Uplink *)

Fixpoint uplink_routes (iface : string) (seen : gset Prefix) (ps : list Prefix) : res error (list Route) :=
  match ps with
  | [] => Ok []
  | pf :: ps =>
      let pf := Masked pf in
      if (pf_Bits pf =? 0) && negb ownTable then Err (ErrText "refusing to route in the main table: it would replace the gateway's own default route")
      else if bool_decide (pf ∈ seen) then uplink_routes iface seen ps
      else try rs := uplink_routes iface ({[pf]} ∪ seen) ps in
           Ok (mkRoute pf noAddr iface noAddr (gc_Table cfg) :: rs)
  end.

Definition Uplink (name : string) (prefixes : list Prefix) (s : gst) : option error * gst :=
  match ctx_Err (gs_w s) with
  | Some e => (Some e, s)
  | None =>
      let checked :=
        try p := gateway_peer name (gs_g s) in
        try _ := fail_if (length prefixes =? 0)%nat "Uplink needs at least one prefix" in
        try _ := checkPrefixes "uplink" gateway_family prefixes in
        uplink_routes (bk_iface p) ∅ prefixes in
      match checked with
      | Err e => (Some e, s)
      | Ok want =>
          let '(e, rs, w) := rs_apply want (g_routes (gs_g s)) (gs_w s) in
          let s := mkGst (set_g_routes rs (gs_g s)) w in
          match e with
          | Some e => (Some (ErrWrap ("uplink via " +:+ name) e), s)
          | None => (None, on_g (set_g_uplink name) s)
          end
      end
  end.

(** ** [RemoveBackbone] and [Close] *)

Definition tearDownBackbone (p : backbonePeer) : list gundo :=
  [IgnoreNotFound (TerminateIKE (cn_Name (bk_conn p))); IgnoreNotFound (UnloadConn (cn_Name (bk_conn p)));
   IgnoreNotFound (UnloadShared (cn_Name (bk_conn p))); IgnoreNotExist (DeleteLink (bk_iface p))].

Definition RemoveBackbone (name : string) (s : gst) : option error * gst :=
  let g := gs_g s in
  if String.eqb (g_uplink g) name && negb (size (g_routes g) =? 0)%nat
  then (Some (ErrText "carries the uplink routes; move them first"), s)
  else match gateway_peer name g with
  | Err e => (Some e, s)
  | Ok p =>
      let g := set_g_pending (λ x, {[name]} ∪ x) (λ x, x) (set_g_backbone (delete name) g) in
      let '(es, w) := run_gundos (tearDownBackbone p) (gs_w s) in
      let g := set_g_ifIDs (delete (bp_IfID (bk_peer p))) (set_g_pending (λ x, x ∖ {[name]}) (λ x, x) g) in
      (ErrWrap ("remove backbone peer " +:+ bp_ID (bk_peer p)) <$> errors_Join es, mkGst g w)
  end.

Fixpoint tear_down_all (ps : list backbonePeer) (w : W) : list (option error) * W :=
  match ps with
  | [] => ([], w)
  | p :: ps =>
      let '(es, w) := run_gundos (tearDownBackbone p) w in
      let '(rest, w) := tear_down_all ps w in
      ((ErrWrap ("remove backbone peer " +:+ bp_ID (bk_peer p)) <$> errors_Join es) :: rest, w)
  end.

(** What [Start] made. *)
Definition stop (rule : option Rule) : list gundo :=
  [IgnoreNotFound (TerminateIKE ResponderName); IgnoreNotFound (UnloadConn ResponderName);
   IgnoreNotFound (UnloadShared ResponderName)]
  ++ (match rule with Some r => [IgnoreNotExist (RuleDel r)] | None => [] end)
  ++ [IgnoreNotExist (DeleteLink clientIface)].

Definition gateway_Close (s : gst) : option error * gst :=
  let g := gs_g s in
  if g_closed g then (None, s) else
  let peers := snd <$> range (g_backbone g) in
  let '(e0, rs, w) := rs_clear (g_routes g) (gs_w s) in
  let '(es1, w) := tear_down_all peers w in
  let '(es2, w) := if g_started g then run_gundos (stop (g_rule g)) w else ([], w) in
  (errors_Join (e0 :: es1 ++ es2),
   mkGst (set_g_uplink "" (set_g_routes rs (set_g_backbone (λ _, ∅) (set_g_closed g)))) w).

End gateway.

(** ** Rolling back *)

Section rollback.
Context {W : Type} {WE : Env W} {WL : EnvLaws W} {WR : Range} (cfg : GatewayConfig).
Implicit Types (k : kernel) (us : list gundo).

Definition gundoes us k0 k : Prop :=
  ∀ (w : W) es w', view w = k → run_gundos us w = (es, w') → Forall (λ e, e = None) es → view w' = k0.

Definition greverts (u : gundo) k k1 : Prop :=
  match u with
  | IgnoreNotExist c => reverts c ignoreNotExist k k1
  | IgnoreNotFound c => reverts c ignoreNotFound k k1
  end.

Lemma gundoes_nil k : gundoes [] k k.
Proof. by intros w es w' <- [= <- <-]. Qed.

Lemma gundoes_cons u us k0 k1 k : greverts u k k1 → gundoes us k0 k1 → gundoes (u :: us) k0 k.
Proof.
  intros Hr Hu w es w' <-. cbn [run_gundos]. destruct (run_gundo u w) as [e w1] eqn:E1.
  destruct (run_gundos us w1) as [es' w2] eqn:E2. intros [= <- <-] [-> Hes]%Forall_cons.
  eapply Hu; [|exact E2|exact Hes].
  destruct u as [c|c]; cbn in E1, Hr; destruct (sys c w) as [e1 w3] eqn:Es; injection E1 as He <-; by eapply reverts_sys.
Qed.

(** Whatever happens in [is_], the undo list it leaves leads back to [k0]; of the
    gateway only the rule changes. *)
Definition gcovered (is_ : list ginstr) us k0 (s : gst) : Prop :=
  ∀ e us' s', run_ginstrs is_ us s = (e, us', s') →
    gs_g s' = set_g_rule (g_rule (gs_g s')) (gs_g s) ∧ (e ≠ None → gundoes us' k0 (view (gs_w s'))).

Lemma gcovered_nil us k0 (s : gst) : gcovered [] us k0 s.
Proof. intros e us' s' [= <- <- <-]. split; [by destruct (gs_g s)|done]. Qed.

Lemma gcovered_call c new is_ us k0 (s : gst) :
  (∀ e k', err_effect c e (view (gs_w s)) k' → gundoes us k0 k') →
  (∀ w', env_wf (gs_w s) → env_wf w' → ok_effect c (view (gs_w s)) (view w') → gcovered is_ (new ++ us) k0 (mkGst (gs_g s) w')) →
  env_wf (gs_w s) → gcovered (GCall c new :: is_) us k0 s.
Proof.
  intros Herr Hok Hw e us' s'. cbn [run_ginstrs]. pose proof (sys_wf c _ Hw) as Hw'.
  destruct (sys c (gs_w s)) as [[e1|] w1] eqn:Es; cbn in Hw'.
  - intros [= <- <- <-]. split; [by destruct (gs_g s)|]. intros _. by eapply Herr, sys_err.
  - intros Hrun. by eapply (Hok w1 Hw Hw'); [eapply sys_ok|].
Qed.

Lemma gcovered_rule r is_ us k0 (s : gst) :
  (∀ s', gs_w s' = gs_w s → gcovered is_ us k0 s') → gcovered (GSetRule r :: is_) us k0 s.
Proof.
  intros H e us' s' Hrun. cbn [run_ginstrs] in Hrun. apply H in Hrun as [Hg Hu]; [|done].
  split; [|done]. rewrite Hg. cbn. by destruct (gs_g s).
Qed.

(** The client route goes with its interface. *)
Lemma link_route_reverts iface i r (w0 : W) :
  env_wf w0 → iface ≠ "" → k_links (view w0) !! iface = None → r_Dev r = iface → k_routes (view w0) !! rkey r = None →
  reverts (DeleteLink iface) ignoreNotExist (with_routes (<[rkey r := r]>) (with_links (<[iface := i]>) (view w0))) (view w0).
Proof.
  intros Hw Hne Hl Hd Hr. destruct (link_reverts iface i w0 Hw Hne Hl) as [Hok Herr]. split.
  - intros k' [_ ->]. transitivity (drop_link iface (with_links (<[iface := i]>) (view w0))).
    + unfold drop_link, with_links, with_routes. cbn. f_equal. apply map_filter_insert_not'; [cbn; tauto|]. intros y Hy. congruence.
    + apply Hok. split; [|done]. cbn. rewrite lookup_insert_eq. by eexists.
  - intros e k' He [_ Hx]. apply ignoreNotExist_None in He as [?|(e' & [= <-] & He)]; [done|].
    specialize (Hx He). cbn in Hx. by rewrite lookup_insert_eq in Hx.
Qed.

Lemma gcovered_start (s : gst) :
  let k0 := view (gs_w s) in
  env_wf (gs_w s) → k_routes k0 !! rkey (clientRoute cfg) = None → k_secrets k0 !! ResponderName cfg = None →
  gcovered (start cfg) [] k0 s.
Proof.
  intros k0 Hw Hr Hs. unfold start. cbn [app].
  set (iface := clientIface cfg). set (del := IgnoreNotExist (DeleteLink iface)).
  apply gcovered_call; [intros e k' ->; apply gundoes_nil| |done]. intros w1 _ Hw1 [Hl Hk1]. cbn [app].
  assert (gundoes [del] k0 (view w1)) as Hu1.
  { eapply gundoes_cons; [|apply gundoes_nil]. rewrite Hk1. apply link_reverts; [done|apply ifaceName_ne|done]. }
  assert (∀ k, k = view w1 → gundoes [del] k0 (with_routes (<[rkey (clientRoute cfg) := clientRoute cfg]>) k)) as Hu2.
  { intros k ->. eapply gundoes_cons; [|apply gundoes_nil]. rewrite Hk1.
    apply link_route_reverts; [done|apply ifaceName_ne|done..]. }
  (* from the secret on, with an undo list that leads back *)
  assert (∀ us s, env_wf (gs_w s) → gundoes us k0 (view (gs_w s)) → k_secrets (view (gs_w s)) !! ResponderName cfg = None →
    gcovered [GCall (LoadShared (client_secret cfg)) [IgnoreNotFound (UnloadShared (ResponderName cfg))]; GCall (LoadConn (responder cfg)) []] us k0 s) as Hend.
  { intros us s1 Hws Hu Hsec. apply gcovered_call; [by intros e k' ->| |done]. intros w2 _ Hw2 Hk2. cbn in Hk2.
    apply gcovered_call; [|intros; apply gcovered_nil|done]. intros e k' ->. cbn.
    eapply gundoes_cons; [|exact Hu]. rewrite Hk2. by apply shared_reverts. }
  (* from the link on *)
  assert (∀ s, env_wf (gs_w s) → view (gs_w s) = view w1 →
    gcovered ([GCall (SetLinkUp iface) []; GCall (RouteReplace (clientRoute cfg)) []]
      ++ (if ownTable cfg then [GCall (RuleAdd (client_rule cfg)) [IgnoreNotExist (RuleDel (client_rule cfg))]; GSetRule (client_rule cfg)] else [])
      ++ [GCall (LoadShared (client_secret cfg)) [IgnoreNotFound (UnloadShared (ResponderName cfg))]; GCall (LoadConn (responder cfg)) []]) [del] k0 s) as Hmid.
  { intros s1 Hws Hv. cbn [app]. apply gcovered_call; [intros e k' ->; by rewrite Hv| |done]. intros w2 _ Hw2 Hk2. cbn in Hk2.
    apply gcovered_call; [intros e k' ->; cbn; by rewrite Hk2, Hv| |done]. intros w3 _ Hw3 Hk3. cbn in Hk3. cbn [app gs_w gs_g].
    rewrite Hk2, Hv in Hk3. pose proof (Hu2 _ eq_refl) as Hu3. rewrite <- Hk3 in Hu3.
    assert (k_secrets (view w3) !! ResponderName cfg = None) as Hsec by (by rewrite Hk3, Hk1).
    destruct (ownTable cfg); cbn [app]; [|by apply Hend].
    apply gcovered_call; [by intros e k' ->| |done]. intros w4 _ Hw4 [Hnr Hk4]. cbn [app gs_w gs_g].
    apply gcovered_rule. intros s4 Hs4. apply Hend; rewrite Hs4; cbn; [done| |by rewrite Hk4].
    eapply gundoes_cons; [|exact Hu3]. rewrite Hk4. by apply rule_reverts. }
  destruct (za_IsValid (gc_InnerAddr cfg)); cbn [app]; [|by apply Hmid].
  apply gcovered_call; [by intros e k' ->| |done]. intros w2 _ Hw2 Hk2. by apply Hmid.
Qed.

(** A [Start] that fails leaves the gateway and everything in kernel and
    daemon as it was, unless its error says that the rollback failed too. *)
Theorem Start_rolls_back (s : gst) e s' :
  env_wf (gs_w s) → k_routes (view (gs_w s)) !! rkey (clientRoute cfg) = None →
  k_secrets (view (gs_w s)) !! ResponderName cfg = None → g_rule (gs_g s) = None →
  Start cfg s = (Some e, s') → ¬ is_undo (Some e) →
  gs_g s' = gs_g s ∧ view (gs_w s') = view (gs_w s).
Proof.
  intros Hw Hr Hs Hrule. unfold Start. destruct (Start_begin (gs_g s)) as [g|e0] eqn:Eb; [|by intros [= _ <-]].
  unfold Start_begin in Eb. destruct (g_closed (gs_g s)); [done|]. destruct (g_started (gs_g s)) eqn:Est; [done|].
  injection Eb as <-. destruct (run_ginstrs _ _ _) as [[[e1|] us] s1] eqn:Erun; [|done].
  apply gcovered_start in Erun as [Hg Hu]; [|done..]. destruct (run_gundos us (gs_w s1)) as [es w] eqn:Eu.
  destruct (errors_Join es) as [u|] eqn:Ej; intros [= <- <-] Hnu; [by destruct Hnu|]. cbn.
  apply errors_Join_None in Ej. split; [|by eapply (Hu ltac:(done))].
  rewrite Hg. destruct (gs_g s). cbn in *. by subst.
Qed.

(** Steps that set no rule leave the gateway alone. *)
Lemma run_ginstrs_same is_ us (s : gst) e us' s' :
  Forall (λ i, match i with GSetRule _ => False | _ => True end) is_ →
  run_ginstrs is_ us s = (e, us', s') → gs_g s' = gs_g s.
Proof.
  revert us s. induction is_ as [|i is_ IH]; intros us s; cbn [run_ginstrs]; [by intros _ [= _ _ <-]|].
  intros [Hi HF]%Forall_cons. destruct i as [c new|r|]; [|done|].
  - destruct (sys c (gs_w s)) as [[e1|] w1]; [by intros [= _ _ <-]|]. intros H. by apply (IH _ _ HF) in H.
  - destruct (ctx_Err (gs_w s)); [by intros [= _ _ <-]|]. intros H. by apply (IH _ _ HF) in H.
Qed.

Lemma gcovered_addBackbone conn iface (s : gst) :
  let k0 := view (gs_w s) in
  let n := cn_Name conn in
  env_wf (gs_w s) → iface ≠ "" → outside n (k_sas k0) = k_sas k0 → k_secrets k0 !! n = None → k_conns k0 !! n = None →
  gcovered (addBackbone conn iface) [] k0 s.
Proof.
  intros k0 n Hw Hne Hsas Hsec Hcon. unfold addBackbone.
  apply gcovered_call; [intros e k' ->; apply gundoes_nil| |done]. intros w1 _ Hw1 [Hl Hk1].
  assert (gundoes [IgnoreNotExist (DeleteLink iface)] k0 (view w1)) as Hu1.
  { eapply gundoes_cons; [|apply gundoes_nil]. rewrite Hk1. by apply link_reverts. }
  apply gcovered_call; [by intros e k' ->| |done]. intros w2 _ Hw2 Hk2. cbn in Hk2. rewrite <- Hk2 in Hu1.
  apply gcovered_call; [by intros e k' ->| |done]. intros w3 _ Hw3 Hk3. cbn in Hk3. cbn [app gs_w gs_g] in *.
  assert (gundoes [IgnoreNotFound (UnloadShared n); IgnoreNotExist (DeleteLink iface)] k0 (view w3)) as Hu3.
  { eapply gundoes_cons; [|exact Hu1]. rewrite Hk3. apply shared_reverts. by rewrite Hk2, Hk1. }
  apply gcovered_call; [by intros e k' ->| |done]. intros w4 _ Hw4 (sas & Ho & _ & Hk4). cbn [app gs_w gs_g] in *.
  intros e us' s'. cbn [run_ginstrs gs_w]. destruct (ctx_Err w4); intros [= <- <- <-]; [|by split; [destruct (gs_g s)|]].
  split; [by destruct (gs_g s)|]. intros _. cbn.
  assert (k_sas (view w3) = k_sas k0) as E3 by (by rewrite Hk3, Hk2, Hk1).
  eapply gundoes_cons; [|eapply gundoes_cons; [|exact Hu3]].
  - rewrite Hk4. apply (ike_reverts n (with_conns <[n := conn]> (view w3)) sas); cbn; rewrite E3; [done|].
    fold n in Ho. by rewrite Ho, E3.
  - apply conn_reverts. by rewrite Hk3, Hk2, Hk1.
Qed.

(** So does an [AddBackbone] that fails. *)
Theorem AddBackbone_rolls_back p (s : gst) e s' :
  let n := backboneName cfg (bp_name p) in
  env_wf (gs_w s) → outside n (k_sas (view (gs_w s))) = k_sas (view (gs_w s)) →
  k_secrets (view (gs_w s)) !! n = None → k_conns (view (gs_w s)) !! n = None →
  g_ifIDs (gs_g s) !! bp_IfID p ≠ Some "" →
  AddBackbone cfg p s = (Some e, s') → ¬ is_undo (Some e) →
  gs_g s' = gs_g s ∧ view (gs_w s') = view (gs_w s).
Proof.
  intros n Hw Hsas Hsec Hcon Hif. unfold AddBackbone.
  destruct (checkBackbone cfg p (gs_g s)) as [conn|e0] eqn:Ec; [|by intros [= _ <-]].
  assert (conn = backboneConnection cfg p) as ->.
  { unfold checkBackbone in Ec. by repeat apply res_bind_Ok in Ec as (? & _ & Ec); injection Ec. }
  destruct (AddBackbone_reserve p (gs_g s)) as [g|e0] eqn:Er; [|by intros [= _ <-]].
  unfold AddBackbone_reserve in Er. destruct (g_closed (gs_g s)) eqn:Hcl; [done|].
  destruct (_ || _) eqn:Hdup; [done|]. zbool. destruct (negb _) eqn:Hfree; [done|]. injection Er as <-.
  assert (g_ifIDs (gs_g s) !! bp_IfID p = None) as Hnone.
  { zbool. apply String.eqb_eq in Hfree. destruct (g_ifIDs (gs_g s) !! bp_IfID p); [|done]. cbn in Hfree. congruence. }
  destruct (run_ginstrs _ _ _) as [[err us] s1] eqn:Erun.
  pose proof Erun as Hg. apply run_ginstrs_same in Hg; [|by repeat constructor].
  apply gcovered_addBackbone in Erun as [_ Hu]; [|done|apply ifaceName_ne|done..]. cbn in Hg, Hu.
  unfold AddBackbone_finish. destruct err as [e1|]; [|rewrite Hg; cbn; rewrite Hcl; done].
  destruct (run_gundos us (gs_w s1)) as [es w] eqn:Eu. intros HE Hnu.
  destruct (errors_Join es) as [u|] eqn:Ej; injection HE as <- <-; [by destruct Hnu|].
  apply errors_Join_None in Ej. split; [|by eapply (Hu ltac:(done))]. cbn. rewrite Hg.
  destruct (gs_g s). cbn in *.
  unfold set_g_ifIDs, set_g_pending. cbn. rewrite delete_insert_id by done. f_equal; set_solver.
Qed.

End rollback.

(** ** Fencing a client *)

Section fencing.
Context {W : Type} {WE : Env W} {WL : EnvLaws W} {WR : Range} (cfg : GatewayConfig).

(** The SAs of a client with this identity. *)
Definition held_by (identity : string) (sa : IKESA) : Prop := sa_Name sa = ResponderName cfg ∧ sa_RemoteID sa = identity.
#[global] Instance held_by_dec identity sa : Decision (held_by identity sa).
Proof. unfold held_by. apply _. Defined.

Definition matching (identity : string) (sas : list IKESA) : list Z :=
  sa_UniqueID <$> filter (λ sa, sa_RemoteID sa = identity) sas.

(** Without an error each of the listed ids is gone, and with one only listed
    ids are. *)
Lemma fence_sas_view identity sas (w w' : W) n es :
  fence_sas identity sas w = (n, es, w') →
  n + Z.of_nat (length es) = Z.of_nat (length (matching identity sas)) ∧ Forall (λ e, e ≠ None) es
  ∧ ∃ gone, gone ⊆ matching identity sas
    ∧ (es = [] → ∀ i, i ∈ matching identity sas → i ∈ gone)
    ∧ view w' = with_sas (filter (λ sa, sa_UniqueID sa ∉ gone)) (view w).
Proof.
  revert w w' n es. unfold matching. induction sas as [|sa sas IH]; intros w w' n es; cbn [fence_sas].
  { intros [= <- <- <-]. split_and!; [done..|]. exists []. split_and!; [done..|].
    unfold with_sas. rewrite list_filter_all by (intros ? _; apply not_elem_of_nil). by destruct (view w). }
  destruct (String.eqb_spec (sa_RemoteID sa) identity) as [E|E]; cbn [negb].
  2:{ intros H. rewrite filter_cons_False by done. by apply IH. }
  rewrite filter_cons_True by done. cbn [fmap list_fmap length].
  destruct (sys (TerminateIKEByID (sa_UniqueID sa)) w) as [e w1] eqn:Es.
  destruct (fence_sas identity sas w1) as [[n1 es1] w2] eqn:Ef.
  apply IH in Ef as (Hn & HF & gone & Hg & Hall & Hv).
  destruct (ignoreNotFound e) as [e1|] eqn:Ei; intros [= <- <- <-].
  - split_and!; [cbn; lia|by constructor|]. exists gone. split_and!; [set_solver|done|].
    rewrite Hv. destruct e as [e|]; [|done]. by apply sys_err in Es as [-> _].
  - split_and!; [lia|done|]. exists (sa_UniqueID sa :: gone). split_and!; [set_solver| |].
    + intros He i [->|Hi]%elem_of_cons; [by left|]. right. by apply Hall.
    + rewrite Hv. apply ignoreNotFound_None in Ei as [->|(e' & -> & He)].
      * apply sys_ok in Es. rewrite Es. unfold with_sas. cbn. f_equal. rewrite list_filter_filter.
        apply list_filter_ext. intros x _. rewrite not_elem_of_cons. tauto.
      * apply sys_err in Es as [-> Hx]. specialize (Hx He). unfold with_sas. f_equal.
        apply list_filter_ext. intros x Hx'. apply Hx in Hx'. rewrite not_elem_of_cons. tauto.
Qed.

(** [FenceClient] touches only the SAs the client with that identity holds
    with the responder: not those of other clients or other connections, and
    nothing else. Without an error all of them are closed, and the number it
    returns is how many there were. *)
Theorem FenceClient_exact identity (s : gst) n e s' :
  env_wf (gs_w s) → idRE identity = true → requireStarted (gs_g s) = Ok () → (∃ sas, Clients cfg s = Ok sas) →
  FenceClient cfg identity s = (n, e, s') →
  gs_g s' = gs_g s
  ∧ (∃ sas, view (gs_w s') = with_sas (λ _, sas) (view (gs_w s))
      ∧ filter (λ sa, ¬ held_by identity sa) sas = filter (λ sa, ¬ held_by identity sa) (k_sas (view (gs_w s)))
      ∧ (e = None → Forall (λ sa, ¬ held_by identity sa) sas))
  ∧ (e = None → n = Z.of_nat (length (filter (held_by identity) (k_sas (view (gs_w s)))))).
Proof.
  intros Hw Hid Hst [sas Hc]. unfold FenceClient. rewrite Hid, Hc. cbn [negb].
  destruct (fence_sas identity sas (gs_w s)) as [[n1 es] w1] eqn:Ef. intros [= <- <- <-]. cbn.
  apply fence_sas_view in Ef as (Hn & HF & gone & Hg & Hall & Hv).
  unfold Clients in Hc. rewrite Hst in Hc. cbn in Hc. apply ListSAs_view in Hc.
  assert (filter (λ sa, sa_RemoteID sa = identity) sas = filter (held_by identity) (k_sas (view (gs_w s)))) as Hm.
  { rewrite Hc, list_filter_filter. apply list_filter_ext. intros x _. unfold held_by. tauto. }
  assert (errors_Join es = None → es = []) as errors_Join_nil.
  { intros HJ%errors_Join_None. destruct HF; [done|]. by apply Forall_cons in HJ as [? _]. }
  unfold matching in Hn, Hg, Hall. rewrite Hm in Hn, Hg, Hall.
  assert (∀ sa, sa ∈ k_sas (view (gs_w s)) → sa_UniqueID sa ∈ gone → held_by identity sa) as Hgone.
  { intros sa Hsa Hin%Hg. apply list_elem_of_fmap in Hin as (sb & Hu & Hsb). apply list_elem_of_filter in Hsb as [Hh Hsb].
    assert (sa = sb) as ->; [|done]. by eapply (NoDup_fmap_inj_on sa_UniqueID); [apply view_unique_ike|..]. }
  split_and!; [done| |].
  - exists (filter (λ sa, sa_UniqueID sa ∉ gone) (k_sas (view (gs_w s)))). split_and!; [by rewrite Hv|..].
    + rewrite list_filter_filter. apply list_filter_ext. intros x Hx. split; [tauto|]. intros Hh. split; [done|].
      intros Hin. by apply Hh, Hgone.
    + intros ->%errors_Join_nil. apply Forall_forall.
      intros x [Hx Hin]%list_elem_of_filter Hh. apply Hx, Hall; [done|]. apply list_elem_of_fmap.
      exists x. split; [done|]. by apply list_elem_of_filter.
  - intros ->%errors_Join_nil. rewrite length_fmap in Hn. cbn in Hn. lia.
Qed.

End fencing.

(** ** Two gateways, and the two roles of one *)

(** charon tries a key for an exchange when an owner names either side. *)
Definition owner_names (o id : string) : Prop := o = AnyID ∨ o = id.
Definition candidate (s : SharedSecret) (me other : string) : Prop :=
  Exists (λ o, owner_names o me ∨ owner_names o other) (ss_Owners s).

Lemma checkBackbone_Ok cfg p g conn :
  checkBackbone cfg p g = Ok conn → conn = backboneConnection cfg p ∧ bp_ID p ≠ gc_BackboneID cfg ∧ bp_ID p ≠ gc_LocalID cfg.
Proof.
  unfold checkBackbone. intros (x & _ & H)%res_bind_Ok. apply res_bind_Ok in H as (y & Hs%fail_if_Ok & H).
  repeat apply res_bind_Ok in H as (? & _ & H). injection H as <-.
  apply orb_false_iff in Hs as [H1%String.eqb_neq H2%String.eqb_neq]. done.
Qed.

(** Of two gateways that add each other by their backbone identities, exactly one
    initiates, each names the other, and both load the same owners for the key. *)
Theorem one_side_initiates cfgA cfgB pA pB gA gB cA cB :
  checkBackbone cfgA pA gA = Ok cA → checkBackbone cfgB pB gB = Ok cB →
  bp_ID pA = gc_BackboneID cfgB → bp_ID pB = gc_BackboneID cfgA →
  (cn_Start cA = StartStart ∧ cn_Start cB = StartNone ∨ cn_Start cA = StartNone ∧ cn_Start cB = StartStart)
  ∧ cn_LocalID cA = cn_RemoteID cB ∧ cn_RemoteID cA = cn_LocalID cB
  ∧ ss_Owners (backbone_secret cA) ≡ₚ ss_Owners (backbone_secret cB)
  ∧ (gc_BackbonePSK cfgA = gc_BackbonePSK cfgB → ss_PSK (backbone_secret cA) = ss_PSK (backbone_secret cB)).
Proof.
  intros (-> & HneA & _)%checkBackbone_Ok (-> & _)%checkBackbone_Ok EA EB. cbn. rewrite EA, EB in *.
  split_and!; [|done..|apply Permutation_swap|done].
  destruct (str_ltb (gc_BackboneID cfgA) (gc_BackboneID cfgB)) eqn:E1, (str_ltb (gc_BackboneID cfgB) (gc_BackboneID cfgA)) eqn:E2;
    [|by left|by right|by destruct HneA; symmetry; apply str_ltb_total].
  pose proof (str_ltb_trans _ _ _ E1 E2) as H. by rewrite str_ltb_irrefl in H.
Qed.

(** The client key is never tried for a backbone peer. The backbone key is
    tried for a client exactly when that client claims one of the two backbone
    identities. *)
Theorem roles_apart cfg p g conn :
  gateway_validate cfg = Ok () → checkBackbone cfg p g = Ok conn → bp_ID p ≠ AnyID →
  ¬ candidate (client_secret cfg) (cn_LocalID conn) (cn_RemoteID conn)
  ∧ ∀ claimed, candidate (backbone_secret conn) (gc_LocalID cfg) claimed ↔ claimed = gc_BackboneID cfg ∨ claimed = bp_ID p.
Proof.
  intros Hv (-> & Hb & Hl)%checkBackbone_Ok Hany. unfold gateway_validate in Hv.
  apply res_bind_Ok in Hv as (? & _ & Hv). apply res_bind_Ok in Hv as (? & HL%fail_if_Ok%negb_false_iff & Hv).
  apply res_bind_Ok in Hv as (? & HB%fail_if_Ok%negb_false_iff & Hv). apply res_bind_Ok in Hv as (? & HLB%fail_if_Ok & _).
  apply String.eqb_neq in HLB.
  assert (∀ id, idRE id = true → id ≠ AnyID) as HA by (by intros id H ->).
  apply HA in HL, HB. unfold candidate, owner_names. cbn.
  split; [|intros claimed]; rewrite ?Exists_cons, ?Exists_nil; naive_solver.
Qed.

Module GatewayDemo.
Import Sim.

Definition ip (a b c d : Z) : ZAddr := unzoned (Addr4 (a * 2 ^ 24 + b * 2 ^ 16 + c * 2 ^ 8 + d)).
Definition config (name : string) (host : Z) : GatewayConfig := gateway_setDefaults
  (mkGatewayConfig "" name "" (ip 192 0 2 host) "0123456789abcdef" "fedcba9876543210" (mkPrefix (Addr4 (10 * 2 ^ 24)) 8) []
     (ip 10 0 0 1) 3 7 0 0 [] [] "" 0 0).
Definition gw : Gateway := mkGateway true false ∅ ∅ ∅ {[3 := "clients"%string]} ∅ "" None.
Definition idle : Gateway := set_g_started false gw.
Definition other : BackbonePeer := mkBackbonePeer "" "gw-b-bb" (ip 192 0 2 2) 9 1 [] [].
Definition back : BackbonePeer := mkBackbonePeer "" "gw-a-bb" (ip 192 0 2 1) 9 1 [] [].
Definition client_sa (id : Z) (who : string) : IKESA :=
  mkIKESA "egressa-clients" id IKEStateEstablished "" "" "gw-a" who false "" "" "" 0 [].
Definition world (sas : list IKESA) (faults : list bool) : sim :=
  mkSim (mkKernel {["eth0" := 0]} ∅ ∅ ∅ ∅ sas) faults 100 (mkRoute (mkPrefix (Addr4 0) 0) (ip 192 0 2 254) "eth0" noAddr 254) None.

Ltac world_wf :=
  split_and!; [by intros ? ? ?|..];
  first [by apply (bool_decide_eq_true_1 (NoDup _)); vm_compute|by apply (bool_decide_eq_true_1 (Forall _ _)); vm_compute].

(** The sixth call fails: the client secret, after interface, address, route and rule. *)
Definition before : gst := mkGst idle (world [] [false; false; false; false; false; true]).
Definition failed := Start (config "gw-a" 1) before.
Lemma Start_rolls_back_witness : failed.1 ≠ None ∧ gs_g failed.2 = idle ∧ view (gs_w failed.2) = view (gs_w before).
Proof.
  split; [by vm_compute|]. apply (Start_rolls_back (config "gw-a" 1) before (default ErrClosed failed.1) failed.2);
    [world_wf|by vm_compute..].
Defined.

(** The fourth call fails: the connection. *)
Definition before_bb : gst := mkGst gw (world [] [false; false; false; true]).
Definition failed_bb := AddBackbone (config "gw-a" 1) other before_bb.
Lemma AddBackbone_rolls_back_witness : failed_bb.1 ≠ None ∧ gs_g failed_bb.2 = gw ∧ view (gs_w failed_bb.2) = view (gs_w before_bb).
Proof.
  split; [by vm_compute|]. apply (AddBackbone_rolls_back (config "gw-a" 1) other before_bb (default ErrClosed failed_bb.1) failed_bb.2);
    [world_wf|by vm_compute..].
Defined.

Definition two_clients : gst := mkGst gw (world [client_sa 5 "alice"; client_sa 6 "bob"; client_sa 7 "alice"] []).
Definition fenced := FenceClient (config "gw-a" 1) "alice" two_clients.
Lemma FenceClient_exact_witness : fenced.1.1 = 2.
Proof.
  refine (proj2 (proj2 (FenceClient_exact (config "gw-a" 1) "alice" two_clients fenced.1.1 fenced.1.2 fenced.2 _ _ _ _ _)) _);
    [world_wf|done|done|by eexists|by vm_compute|by vm_compute].
Defined.

Lemma one_side_initiates_witness :
  cn_Start (backboneConnection (config "gw-a" 1) other) = StartStart ∧ cn_Start (backboneConnection (config "gw-b" 2) back) = StartNone.
Proof.
  destruct (one_side_initiates (config "gw-a" 1) (config "gw-b" 2) other back gw gw
    (backboneConnection (config "gw-a" 1) other) (backboneConnection (config "gw-b" 2) back)) as [[H|[H _]] _];
    [by vm_compute..|exact H|by vm_compute in H].
Defined.

Lemma roles_apart_witness :
  ¬ candidate (client_secret (config "gw-a" 1)) "gw-a-bb" "gw-b-bb"
  ∧ candidate (backbone_secret (backboneConnection (config "gw-a" 1) other)) "gw-a" "gw-b-bb".
Proof.
  destruct (roles_apart (config "gw-a" 1) other gw (backboneConnection (config "gw-a" 1) other)) as [H1 H2];
    [by vm_compute..|]. split; [exact H1|]. apply H2. by right.
Defined.

(** A backbone peer may be called [%any]: its key is then tried for every client. *)
Definition anyone : BackbonePeer := mkBackbonePeer "b" AnyID (ip 192 0 2 2) 9 1 [] [].
Lemma any_peer_accepted :
  checkBackbone (config "gw-a" 1) anyone gw = Ok (backboneConnection (config "gw-a" 1) anyone)
  ∧ ∀ claimed, candidate (backbone_secret (backboneConnection (config "gw-a" 1) anyone)) "gw-a" claimed.
Proof. split; [by vm_compute|]. intros claimed. right. left. left. by left. Qed.

(** A [Close] while [Start] is at work finds nothing to undo but what the list
    of [stop] names, and the rest of [Start] then runs to the end: the interface,
    the secret and the connection stay, on a gateway that says it is closed. *)
Definition close_during_start : gst :=
  let cfg := config "gw-a" 1 in
  let s := mkGst gw (world [] []) in                     (* Start has set started *)
  let s := (gateway_Close cfg s).2 in
  (run_ginstrs (start cfg) [] s).2.
Lemma close_during_start_leaks :
  let s := close_during_start in
  g_closed (gs_g s) = true ∧ is_Some (k_links (view (gs_w s)) !! "egw3") ∧ is_Some (k_conns (view (gs_w s)) !! "egressa-clients")
  ∧ (gateway_Close (config "gw-a" 1) s).2 = s.
Proof. vm_compute. split_and!; [done|by eexists..|done]. Qed.

End GatewayDemo.
