(* ===== verification/Vici.v ===== *)
(** * charon over vici: internal/ipsec/vici.go

    The messages of the vici protocol (the vendored package keeps them as an
    ordered list of keys, the values in a map), what is sent for each command,
    how a report of SAs is read, and the sessions the commands run on. Sessions
    themselves are a parameter: a class of calls on an abstract world. The
    theorems: the connection loaded over vici says what the swanctl.conf of
    [Render] says; a report reads back as the SAs it describes; a session that
    failed is never used again. *)

From S2P Require Import Prelude GoStrings Netip IpsecConfig IpsecRender.

(** ** Messages *)

Inductive value :=
| VStr (s : string)
| VList (l : list string)
| VMsg (m : list (string * value)).
Abbreviation message := (list (string * value)).

Definition NewMessage : message := [].
Definition Keys (m : message) : list string := m.*1.
Fixpoint Get (m : message) (k : string) : option value :=
  match m with
  | [] => None
  | (k', v) :: m => if String.eqb k' k then Some v else Get m k
  end.
(** A key that is there keeps its place. *)
Fixpoint mustSet (m : message) (k : string) (v : value) : message :=
  match m with
  | [] => [(k, v)]
  | (k', v') :: m => if String.eqb k' k then (k', v) :: m else (k', v') :: mustSet m k v
  end.
Definition newMsg (kvs : list (string * value)) : message :=
  fold_left (λ m kv, mustSet m kv.1 kv.2) kvs NewMessage.

Definition str (m : message) (k : string) : string := match Get m k with Some (VStr s) => s | _ => "" end.
Definition vlist (m : message) (k : string) : list string := match Get m k with Some (VList l) => l | _ => [] end.

(** [strconv.ParseUint]: the value it returns, which is the greatest one when
    the text is out of range, and whether there was no error. *)
Definition digit_val (c : Ascii.ascii) : option Z :=
  let n := code c in
  if within 48 57 c then Some (n - 48)
  else if within 97 122 c then Some (n - 97 + 10)
  else if within 65 90 c then Some (n - 65 + 10)
  else None.
Fixpoint parse_digits (base bits : Z) (s : list Ascii.ascii) (n : Z) : Z * bool :=
  match s with
  | [] => (n, true)
  | c :: s =>
      match digit_val c with
      | None => (0, false)
      | Some d =>
          if base <=? d then (0, false)
          else let n := n * base + d in
               if 2 ^ bits - 1 <? n then (2 ^ bits - 1, false) else parse_digits base bits s n
      end
  end.
Definition parse_uint (base bits : Z) (s : string) : Z * bool :=
  match String.list_ascii_of_string s with [] => (0, false) | l => parse_digits base bits l 0 end.

Definition num (m : message) (k : string) (base : Z) : Z := (parse_uint base 64 (str m k)).1.
Definition seconds (m : message) (k : string) : Duration := i64 (i64 (num m k 10) * Second).

(** ** What is read *)

Definition parseChildSA (key : string) (m : message) : ChildSA :=
  let name := str m "name" in
  mkChildSA (if String.eqb name "" then key else name) (num m "uniqueid" 10) (str m "state") (str m "mode") (str m "protocol")
    (str m "spi-in") (str m "spi-out") (num m "if-id-in" 16 mod 2 ^ 32) (num m "if-id-out" 16 mod 2 ^ 32) (str m "encr-alg")
    (num m "bytes-in" 10) (num m "packets-in" 10) (num m "bytes-out" 10) (num m "packets-out" 10)
    (seconds m "install-time") (vlist m "local-ts") (vlist m "remote-ts").

Definition sections {A} (f : string → message → A) (m : message) : list A :=
  omap (λ k, match Get m k with Some (VMsg sec) => Some (f k sec) | _ => None end) (Keys m).

Definition parseIKESA (name : string) (m : message) : IKESA :=
  mkIKESA name (num m "uniqueid" 10) (str m "state") (str m "local-host") (str m "remote-host") (str m "local-id")
    (str m "remote-id") (String.eqb (str m "initiator") "yes") (str m "encr-alg") (str m "prf-alg") (str m "dh-group")
    (seconds m "established")
    (match Get m "child-sas" with Some (VMsg children) => sections parseChildSA children | _ => [] end).

Definition parseIKESAs (m : message) : list IKESA := sections parseIKESA m.

Definition parseEvent (name : string) (m : message) : option Event :=
  let kind := if String.eqb name "ike-updown" then Some EventIKEUpDown
              else if String.eqb name "child-updown" then Some EventChildUpDown else None in
  match kind, parseIKESAs m with
  | Some kind, sa :: _ => Some (mkEvent kind (String.eqb (str m "up") "yes") (Some sa))
  | _, _ => None
  end.

(** ** What is sent *)

Definition prefixList (ps : list Prefix) : list string := (λ p, pf_String (Masked p)) <$> ps.

Definition connMessage (c : Connection) : res error message :=
  if negb (String.eqb (cn_Auth c) AuthPSK) then Err (ErrText "only PSK authentication can be loaded over vici") else
  let ike := match cn_IKEProposals c with [] => DefaultIKEProposals | l => l end in
  let esp := match cn_ESPProposals c with [] => DefaultESPProposals | l => l end in
  let start := if String.eqb (cn_Start c) "" then StartNone else cn_Start c in
  let remote := if za_IsValid (cn_RemoteAddr c) then za_String (cn_RemoteAddr c) else AnyID in
  let child := newMsg [("local_ts"%string, VList (prefixList (cn_LocalTS c))); ("remote_ts"%string, VList (prefixList (cn_RemoteTS c)));
                       ("esp_proposals"%string, VList esp); ("mode"%string, VStr "tunnel");
                       ("if_id_in"%string, VStr (FormatUint (cn_IfID c))); ("if_id_out"%string, VStr (FormatUint (cn_IfID c)));
                       ("start_action"%string, VStr start)] in
  let child := if cn_DPDDelay c >? 0 then mustSet child "dpd_action" (VStr "clear") else child in
  let conn := newMsg [("version"%string, VStr "2")] in
  let conn := if za_IsValid (cn_LocalAddr c) then mustSet conn "local_addrs" (VList [za_String (cn_LocalAddr c)]) else conn in
  let conn := mustSet conn "remote_addrs" (VList [remote]) in
  let conn := mustSet conn "proposals" (VList ike) in
  let conn := if cn_DPDDelay c >? 0 then mustSet conn "dpd_delay" (VStr (FormatUint (ceilSeconds (cn_DPDDelay c)) +:+ "s")) else conn in
  let conn := mustSet conn "local" (VMsg (newMsg [("auth"%string, VStr (cn_Auth c)); ("id"%string, VStr (cn_LocalID c))])) in
  let conn := mustSet conn "remote" (VMsg (newMsg [("auth"%string, VStr (cn_Auth c)); ("id"%string, VStr (cn_RemoteID c))])) in
  let conn := mustSet conn "children" (VMsg (newMsg [(ChildName (cn_Name c) (cn_Epoch c), VMsg child)])) in
  Ok (newMsg [(cn_Name c, VMsg conn)]).

Definition terminateGrace : Duration := 2 * Second.
Definition eventBuffer : nat := 64.

(** [l] is the time until the deadline of the context, if it has one. *)
Definition timeoutMS (l : option Duration) (fallback : Duration) : string :=
  let d := match l with
           | None => fallback
           | Some l =>
               let l := if l <? Millisecond then Millisecond else l in
               if (fallback =? 0) || (l <? fallback) then l else fallback
           end in
  FormatUint (Z.quot d Millisecond).

Definition commandError (cmd : string) (resp : message) : error :=
  let msg := if String.eqb (str resp "errmsg") "" then "command failed"%string else str resp "errmsg" in
  if substr msg "not found" then ErrWrap ("vici " +:+ cmd +:+ ": " +:+ msg) ErrNotFound
  else ErrText ("vici " +:+ cmd +:+ ": " +:+ msg).

Definition authFailed (logs : list string) : bool :=
  existsb (λ l, substr l "AUTHENTICATION_FAILED" || (substr l "authentication of" && substr l "failed")
                || substr l "MAC mismatched") logs.
Definition lastLog (logs : list string) : string :=
  match last logs with Some l => " (last log: " +:+ l +:+ ")" | None => "" end.

(** ** Sessions and commands *)

(** A session answers a call with a response, an error, or both: both is an
    answer of charon that says the command failed, an error alone a failure of
    the transport. A stream is a list of such answers; without an error there is
    a message. *)
Class Vici (W S : Type) := {
  dial : W → res error S * W;
  sess_Close : S → W → W;
  sess_Call : S → string → message → W → option message * option error * W;
  sess_Stream : S → string → string → message → W → list (option message * option error) * W;
  Deadline : W → option Duration;
}.

Section commands.
Context {W S : Type} {VC : Vici W S}.

(** The shared session and the world; the mutex is held for a whole command. *)
Record vst := mkVst { v_cmd : option S; v_w : W }.

Definition session (s : vst) : res error S * vst :=
  match v_cmd s with
  | Some x => (Ok x, s)
  | None => match dial (v_w s) with
            | (Err e, w) => (Err e, mkVst None w)
            | (Ok x, w) => (Ok x, mkVst (Some x) w)
            end
  end.

Definition drop (s : vst) : vst :=
  match v_cmd s with Some x => mkVst None (sess_Close x (v_w s)) | None => s end.

Definition vici_call (cmd : string) (in_ : message) (s : vst) : option message * option error * vst :=
  match session s with
  | (Err e, s) => (None, Some e, s)
  | (Ok x, s) =>
      let '(resp, err, w) := sess_Call x cmd in_ (v_w s) in
      let s := mkVst (v_cmd s) w in
      match err, resp with
      | Some e, None => (None, Some (ErrWrap ("vici " +:+ cmd) e), drop s)
      | Some _, Some r => (Some r, Some (commandError cmd r), s)
      | None, _ => (resp, None, s)
      end
  end.

(** The loop over a stream: the messages, or the error that ends it and whether
    the session is dropped. *)
Fixpoint stream_loop (cmd : string) (items : list (option message * option error)) (out : list message)
  : res (error * bool) (list message) :=
  match items with
  | [] => Ok out
  | (None, Some e) :: _ => Err (ErrWrap ("vici " +:+ cmd) e, true)
  | (Some m, Some _) :: _ => Err (commandError cmd m, false)
  | (m, None) :: items => stream_loop cmd items (out ++ default [] (option_map (λ x, [x]) m))
  end.

Definition stream (cmd event : string) (in_ : message) (s : vst) : res error (list message) * vst :=
  match session s with
  | (Err e, s) => (Err e, s)
  | (Ok x, s) =>
      let '(items, w) := sess_Stream x cmd event in_ (v_w s) in
      let s := mkVst (v_cmd s) w in
      match stream_loop cmd items [] with
      | Ok out => (Ok out, s)
      | Err (e, true) => (Err e, drop s)
      | Err (e, false) => (Err e, s)
      end
  end.

(** A session of its own, closed at the end; the shared one is left alone. *)
Definition oneShot (fn : S → W → option error * W) (s : vst) : option error * vst :=
  match dial (v_w s) with
  | (Err e, w) => (Some e, mkVst (v_cmd s) w)
  | (Ok x, w) => let '(e, w) := fn x w in (e, mkVst (v_cmd s) (sess_Close x w))
  end.

Definition vici_LoadConn (c : Connection) (s : vst) : option error * vst :=
  match Validate c with
  | Err e => (Some e, s)
  | Ok _ => match connMessage c with
            | Err e => (Some e, s)
            | Ok m => let '(_, e, s) := vici_call "load-conn" m s in (e, s)
            end
  end.
Definition vici_UnloadConn (name : string) (s : vst) : option error * vst :=
  let '(_, e, s) := vici_call "unload-conn" (newMsg [("name"%string, VStr name)]) s in (e, s).
Definition vici_LoadShared (x : SharedSecret) (s : vst) : option error * vst :=
  match secret_Validate x with
  | Err e => (Some e, s)
  | Ok _ =>
      let m := newMsg [("id"%string, VStr (ss_ID x)); ("type"%string, VStr "IKE"); ("data"%string, VStr (ss_PSK x));
                       ("owners"%string, VList (ss_Owners x))] in
      let '(_, e, s) := vici_call "load-shared" m s in (e, s)
  end.
Definition vici_UnloadShared (id : string) (s : vst) : option error * vst :=
  let '(_, e, s) := vici_call "unload-shared" (newMsg [("id"%string, VStr id)]) s in (e, s).

(** The loop of [Initiate] over the control-log events. *)
Fixpoint initiate_loop (what : string) (items : list (option message * option error)) (logs : list string) : option error :=
  match items with
  | [] => None
  | (m, err) :: items =>
      let logs := match m with
                  | Some m => if String.eqb (str m "msg") "" then logs else logs ++ [str m "msg"]
                  | None => logs
                  end in
      match err, m with
      | None, _ => initiate_loop what items logs
      | Some e, None => Some (ErrWrap ("vici initiate " +:+ what) e)
      | Some _, Some m =>
          if authFailed logs then Some (ErrWrap ("initiate " +:+ what +:+ ": " +:+ str m "errmsg") ErrAuthFailed)
          else Some (ErrText ("initiate " +:+ what +:+ ": " +:+ str m "errmsg" +:+ lastLog logs))
      end
  end.
Definition vici_Initiate (ike child : string) (s : vst) : option error * vst :=
  let m := newMsg [("child"%string, VStr child); ("ike"%string, VStr ike);
                   ("timeout"%string, VStr (timeoutMS (Deadline (v_w s)) 0)); ("loglevel"%string, VStr "1")] in
  oneShot (λ x w, let '(items, w) := sess_Stream x "initiate" "control-log" m w in
                  (initiate_loop (ike +:+ "/" +:+ child) items [], w)) s.

Definition terminate_error (what : string) (resp : option message) (err : option error) : option error :=
  match err, resp with
  | None, _ => None
  | Some e, None => Some (ErrWrap ("vici terminate " +:+ what) e)
  | Some _, Some r =>
      if substr (str r "errmsg") "no matching SAs" then Some (ErrWrap ("vici terminate " +:+ what) ErrNotFound)
      else Some (commandError "terminate" r)
  end.
Definition terminate (selector val : string) (s : vst) : option error * vst :=
  let m := newMsg [(selector, VStr val); ("force"%string, VStr "yes");
                   ("timeout"%string, VStr (timeoutMS (Deadline (v_w s)) terminateGrace))] in
  oneShot (λ x w, let '(resp, err, w) := sess_Call x "terminate" m w in
                  (terminate_error (selector +:+ "=" +:+ val) resp err, w)) s.
Definition vici_TerminateIKE (ike : string) : vst → option error * vst := terminate "ike" ike.
Definition vici_TerminateIKEByID (id : Z) : vst → option error * vst := terminate "ike-id" (FormatUint id).
Definition vici_TerminateChild (id : Z) : vst → option error * vst := terminate "child-id" (FormatUint id).

Definition vici_ListSAs (ike : string) (s : vst) : res error (list IKESA) * vst :=
  let m := newMsg [("noblock"%string, VStr "yes")] in
  let m := if String.eqb ike "" then m else mustSet m "ike" (VStr ike) in
  match stream "list-sas" "list-sa" m s with
  | (Err e, s) => (Err e, s)
  | (Ok msgs, s) => (Ok (flat_map parseIKESAs msgs), s)
  end.

End commands.
Arguments vst : clear implicits.

(** ** The same connection, by file and by message *)

(** A message as settings; a list is the text swanctl.conf would have. *)
Fixpoint conf_of (k : string) (v : value) : conf :=
  match v with
  | VStr s => Setting k s
  | VList l => Setting k (join "," l)
  | VMsg m => Sect k (map (λ '(k, v), conf_of k v) m)
  end.

Lemma connMessage_conf c m : connMessage c = Ok m → map (λ '(k, v), conf_of k v) m = [conn_conf c].
Proof.
  unfold connMessage. destruct (String.eqb_spec (cn_Auth c) AuthPSK) as [E|]; [cbn [negb]|done]. intros [= <-].
  unfold conn_conf, opt. rewrite E. cbn.
  destruct (za_IsValid (cn_LocalAddr c)), (cn_DPDDelay c >? 0), (za_IsValid (cn_RemoteAddr c)); reflexivity.
Qed.

(** Whatever [Render] accepts, the message that loads one of its
    connections says exactly what the section of that connection in the file
    says: key by key, in the same order and nesting. *)
Theorem connMessage_like_file cs text c :
  Render cs = Ok text → c ∈ cs → cn_Auth c = AuthPSK →
  ∃ m section file rest, connMessage c = Ok m ∧ map (λ '(k, v), conf_of k v) m = [section]
    ∧ parse_conf text = Some (Sect "connections" file :: rest) ∧ section ∈ file.
Proof.
  intros Hr Hc Ha. destruct (connMessage c) as [m|e] eqn:E; [|by unfold connMessage in E; rewrite Ha in E].
  eexists m, (conn_conf c), _, _. split_and!; [done|by apply connMessage_conf|by apply Render_parses|].
  apply list_elem_of_fmap. exists c. split; [done|]. by rewrite merge_sort_Permutation.
Qed.

(** ** A report reads back *)

(** if_ids are written as eight hexadecimal digits. *)
Fixpoint hex_digits (n : nat) (x : Z) : list Ascii.ascii :=
  match n with O => [] | S n => hex_digits n (x / 16) ++ [hex_char (x mod 16)] end.
Definition FormatHex32 (x : Z) : string := String.string_of_list_ascii (hex_digits 8 x).

Definition child_key (c : ChildSA) : string := ch_Name c +:+ "-" +:+ FormatUint (ch_UniqueID c).
Definition report_child (c : ChildSA) : message :=
  [("name"%string, VStr (ch_Name c)); ("uniqueid"%string, VStr (FormatUint (ch_UniqueID c))); ("state"%string, VStr (ch_State c));
   ("mode"%string, VStr (ch_Mode c)); ("protocol"%string, VStr (ch_Protocol c)); ("spi-in"%string, VStr (ch_SPIIn c));
   ("spi-out"%string, VStr (ch_SPIOut c)); ("if-id-in"%string, VStr (FormatHex32 (ch_IfIDIn c)));
   ("if-id-out"%string, VStr (FormatHex32 (ch_IfIDOut c))); ("encr-alg"%string, VStr (ch_EncrAlg c));
   ("bytes-in"%string, VStr (FormatUint (ch_BytesIn c))); ("packets-in"%string, VStr (FormatUint (ch_PacketsIn c)));
   ("bytes-out"%string, VStr (FormatUint (ch_BytesOut c))); ("packets-out"%string, VStr (FormatUint (ch_PacketsOut c)));
   ("install-time"%string, VStr (FormatUint (ch_InstalledFor c / Second)));
   ("local-ts"%string, VList (ch_LocalTS c)); ("remote-ts"%string, VList (ch_RemoteTS c))].
Definition report_ike (s : IKESA) : message :=
  [("uniqueid"%string, VStr (FormatUint (sa_UniqueID s))); ("state"%string, VStr (sa_State s));
   ("local-host"%string, VStr (sa_LocalHost s)); ("remote-host"%string, VStr (sa_RemoteHost s));
   ("local-id"%string, VStr (sa_LocalID s)); ("remote-id"%string, VStr (sa_RemoteID s))]
  ++ opt (sa_Initiator s) ("initiator"%string, VStr "yes")
  ++ [("encr-alg"%string, VStr (sa_EncrAlg s)); ("prf-alg"%string, VStr (sa_PRFAlg s)); ("dh-group"%string, VStr (sa_DHGroup s));
      ("established"%string, VStr (FormatUint (sa_EstablishedFor s / Second)));
      ("child-sas"%string, VMsg ((λ c, (child_key c, VMsg (report_child c))) <$> sa_Children s))].

(** Whole seconds that fit a duration. *)
Definition whole (d : Duration) : Prop := 0 ≤ d ≤ i64_max ∧ d mod Second = 0.
Record child_fits (c : ChildSA) : Prop := {
  cf_name : ch_Name c ≠ "";
  cf_u64 : Forall is_u64 [ch_UniqueID c; ch_BytesIn c; ch_PacketsIn c; ch_BytesOut c; ch_PacketsOut c];
  cf_ifs : Forall (λ x, 0 ≤ x < 2 ^ 32) [ch_IfIDIn c; ch_IfIDOut c];
  cf_time : whole (ch_InstalledFor c);
}.
Record ike_fits (s : IKESA) : Prop := {
  if_id : is_u64 (sa_UniqueID s);
  if_time : whole (sa_EstablishedFor s);
  if_keys : NoDup (child_key <$> sa_Children s);
  if_children : Forall child_fits (sa_Children s);
}.

Lemma parse_digits_app b bits l r a :
  parse_digits b bits (l ++ r) a =
  match parse_digits b bits l a with (n, true) => parse_digits b bits r n | x => x end.
Proof.
  revert a. induction l as [|c l IH]; intros a; cbn [app parse_digits]; [done|].
  destruct (digit_val c) as [d|]; [|done]. destruct (b <=? d); [done|]. by destruct (2 ^ bits - 1 <? a * b + d).
Qed.

Lemma digit_val_hex d : 0 ≤ d < 16 → digit_val (hex_char d) = Some d.
Proof.
  intros Hd. assert (∃ n : nat, d = Z.of_nat n ∧ (n < 16)%nat) as (n & -> & Hn) by (exists (Z.to_nat d); lia).
  clear Hd. do 16 (destruct n as [|n]; [by vm_compute|]). lia.
Qed.
Lemma digit_val_dec d : 0 ≤ d < 10 → digit_val (digit_char d) = Some d.
Proof.
  intros Hd. rewrite <- digit_val_hex by lia. unfold hex_char. by destruct (Z.ltb_spec d 10); [|lia].
Qed.

(** One more digit. *)
Lemma parse_digit_snoc b l c x d :
  parse_digits b 64 l 0 = (x / b, true) → digit_val c = Some d → d = x mod b → 1 < b → is_u64 x →
  parse_digits b 64 (l ++ [c]) 0 = (x, true).
Proof.
  intros Hl Hc -> Hb [H0 H1]. rewrite parse_digits_app, Hl. cbn [parse_digits]. rewrite Hc.
  pose proof (Z.mod_pos_bound x b ltac:(lia)). pose proof (Z.div_mod x b ltac:(lia)).
  rewrite (proj2 (Z.leb_gt b (x mod b))) by lia.
  replace (x / b * b + x mod b) with x by lia. by rewrite (proj2 (Z.ltb_ge _ _)) by lia.
Qed.

Lemma parse_hex_digits n x : is_u64 x → x < 16 ^ Z.of_nat n → parse_digits 16 64 (hex_digits n x) 0 = (x, true).
Proof.
  revert x. induction n as [|n IH]; intros x Hx Hlt; cbn [hex_digits].
  - destruct Hx. change (16 ^ Z.of_nat 0) with 1 in Hlt. cbn. f_equal. lia.
  - rewrite Nat2Z.inj_succ, Z.pow_succ_r in Hlt by lia. destruct Hx as [H0 H1].
    eapply parse_digit_snoc; [apply IH|by apply digit_val_hex, Z.mod_pos_bound|done|done|done].
    + split; [apply Z.div_pos; lia|]. apply Z.div_lt_upper_bound; lia.
    + apply Z.div_lt_upper_bound; lia.
Qed.

Lemma parse_format_digits' n x : is_u64 x → x < 10 ^ Z.of_nat n → parse_digits 10 64 (format_digits n x) 0 = (x, true).
Proof.
  revert x. induction n as [|n IH]; intros x Hx Hlt; cbn [format_digits].
  - destruct Hx. change (10 ^ Z.of_nat 0) with 1 in Hlt. cbn. f_equal. lia.
  - rewrite Nat2Z.inj_succ, Z.pow_succ_r in Hlt by lia. destruct Hx as [H0 H1].
    destruct (Z.ltb_spec x 10).
    + apply (parse_digit_snoc 10 [] _ x x); [cbn; f_equal; rewrite Z.div_small; lia|apply digit_val_dec; lia| |done|done].
      rewrite Z.mod_small; lia.
    + eapply parse_digit_snoc; [apply IH|by apply digit_val_dec, Z.mod_pos_bound|done|done|done].
      * split; [apply Z.div_pos; lia|]. apply Z.div_lt_upper_bound; lia.
      * apply Z.div_lt_upper_bound; lia.
Qed.

Lemma parse_FormatUint x : is_u64 x → (parse_uint 10 64 (FormatUint x)).1 = x.
Proof.
  intros Hx. unfold parse_uint, FormatUint. rewrite String.list_ascii_of_string_of_list_ascii.
  destruct (format_digits 20 x) as [|c l] eqn:E; [by apply format_digits_ne in E; [|lia]|].
  rewrite <- E, parse_format_digits'; [done|done|]. destruct Hx. lia.
Qed.

Lemma parse_FormatHex32 x : 0 ≤ x < 2 ^ 32 → (parse_uint 16 64 (FormatHex32 x)).1 mod 2 ^ 32 = x.
Proof.
  intros Hx. unfold parse_uint, FormatHex32. rewrite String.list_ascii_of_string_of_list_ascii.
  destruct (hex_digits 8 x) as [|c l] eqn:E; [done|].
  rewrite <- E, parse_hex_digits; [cbn; by rewrite Z.mod_small|split; lia|lia].
Qed.

Lemma seconds_whole d : whole d → i64 (i64 (parse_uint 10 64 (FormatUint (d / Second))).1 * Second) = d.
Proof.
  unfold whole, i64_max. intros [Hd Hm]. pose proof (Z.div_mod d Second ltac:(done)) as Hdm. change Second with 1000000000 in *.
  assert (0 ≤ d / 1000000000 ≤ 9223372036854775807) as Hq.
  { split; [apply Z.div_pos; lia|]. apply Z.div_le_upper_bound; lia. }
  rewrite parse_FormatUint by (unfold fits; lia).
  rewrite (i64_small (d / 1000000000)) by (unfold i64_min, i64_max; lia). rewrite i64_small; unfold i64_min, i64_max; lia.
Qed.

Lemma parse_report_child c : child_fits c → parseChildSA (child_key c) (report_child c) = c.
Proof.
  intros [Hn Hu Hi Ht]. repeat (apply Forall_cons in Hu as [? Hu]). repeat (apply Forall_cons in Hi as [? Hi]).
  unfold parseChildSA, seconds, num. cbn [str vlist Get report_child String.eqb Ascii.eqb Bool.eqb].
  rewrite (proj2 (String.eqb_neq _ _) Hn), !parse_FormatUint, !parse_FormatHex32, seconds_whole by done. by destruct c.
Qed.

(** With different keys every section is found. *)
Lemma sections_fmap {A B} (f : string → message → B) (key : A → string) (msg : A → message) (l : list A) :
  NoDup (key <$> l) → sections f ((λ x, (key x, VMsg (msg x))) <$> l) = (λ x, f (key x) (msg x)) <$> l.
Proof.
  unfold sections, Keys. intros Hnd. rewrite <- list_fmap_compose. cbn.
  assert (∀ l', l' ⊆ l → omap (λ k, match Get ((λ x, (key x, VMsg (msg x))) <$> l) k with Some (VMsg sec) => Some (f k sec) | _ => None end)
            (fst ∘ (λ x, (key x, VMsg (msg x))) <$> l') = (λ x, f (key x) (msg x)) <$> l') as H; [|by apply H].
  intros l'. induction l' as [|x l' IH]; intros Hsub; [done|]. cbn.
  assert (Get ((λ x, (key x, VMsg (msg x))) <$> l) (key x) = Some (VMsg (msg x))) as ->.
  { assert (x ∈ l) as Hx by (apply Hsub; by left). clear -Hx Hnd. induction l as [|y l IH]; [by apply not_elem_of_nil in Hx|]. cbn.
    cbn in Hnd. apply NoDup_cons in Hnd as [Hy Hnd]. destruct (String.eqb_spec (key y) (key x)) as [E|E].
    - apply elem_of_cons in Hx as [->|Hx]; [done|]. destruct Hy. rewrite E. apply list_elem_of_fmap. by exists x.
    - apply elem_of_cons in Hx as [->|Hx]; [done|]. by apply IH. }
  f_equal. apply IH. set_solver.
Qed.

Lemma parse_report_ike s : ike_fits s → parseIKESA (sa_Name s) (report_ike s) = s.
Proof.
  intros [Hi Ht Hk Hc]. unfold parseIKESA, seconds, num, report_ike, opt.
  assert (sections parseChildSA ((λ c, (child_key c, VMsg (report_child c))) <$> sa_Children s) = sa_Children s) as Hs.
  { rewrite sections_fmap by done. rewrite <- (list_fmap_id (sa_Children s)) at 2. apply list_fmap_ext.
    intros i c Hc'. rewrite Forall_forall in Hc. apply parse_report_child, Hc. by eapply list_elem_of_lookup_2. }
  destruct (sa_Initiator s) eqn:E; cbn [str Get app String.eqb Ascii.eqb Bool.eqb];
    rewrite !parse_FormatUint, seconds_whole, Hs by done; destruct s; cbn in E; by subst.
Qed.

Section listing.
Context {W S : Type} {VC : Vici W S}.

(** When charon reports SAs one message each, [ListSAs] returns exactly
    those SAs, in order, on the session it has or on a new one. *)
Theorem ListSAs_reads_back ike sas (s s1 : vst W S) x w :
  session s = (Ok x, s1) → Forall ike_fits sas →
  sess_Stream x "list-sas" "list-sa"
    (("noblock"%string, VStr "yes") :: (if String.eqb ike "" then [] else [("ike"%string, VStr ike)])) (v_w s1)
    = ((λ sa, (Some [(sa_Name sa, VMsg (report_ike sa))], None)) <$> sas, w) →
  vici_ListSAs ike s = (Ok sas, mkVst (v_cmd s1) w).
Proof.
  intros Hs HF Hw. unfold vici_ListSAs, stream. rewrite Hs.
  assert ((if String.eqb ike "" then newMsg [("noblock"%string, VStr "yes")] else mustSet (newMsg [("noblock"%string, VStr "yes")]) "ike" (VStr ike))
    = (("noblock"%string, VStr "yes") :: (if String.eqb ike "" then [] else [("ike"%string, VStr ike)]))) as -> by (by destruct (String.eqb ike "")).
  rewrite Hw.
  assert (∀ out, stream_loop "list-sas" ((λ sa, (Some [(sa_Name sa, VMsg (report_ike sa))], None)) <$> sas) out
    = Ok (out ++ ((λ sa, [(sa_Name sa, VMsg (report_ike sa))]) <$> sas))) as Hl.
  { clear. induction sas as [|sa sas IH]; intros out; cbn; [by rewrite app_nil_r|]. by rewrite IH, <- app_assoc. }
  rewrite Hl. cbn [app]. f_equal. f_equal. clear -HF. induction HF as [|sa sas Hsa HF IH]; [done|]. cbn [fmap list_fmap flat_map].
  rewrite IH. unfold parseIKESAs, sections. cbn. rewrite String.eqb_refl. cbn. by rewrite parse_report_ike.
Qed.

(** After a command the shared session is there exactly if neither dialing
    nor the transport failed; an answer that says the command failed keeps it.
    A session that failed is closed and the next command dials. *)
Theorem vici_call_session cmd m (s s' : vst W S) resp err :
  vici_call cmd m s = (resp, err, s') →
  match session s with
  | (Err e, s1) => err = Some e ∧ resp = None ∧ s' = s1 ∧ v_cmd s' = None
  | (Ok x, s1) =>
      v_cmd s1 = Some x
      ∧ (let '(r, e, w) := sess_Call x cmd m (v_w s1) in
         resp = r
         ∧ (err = None ↔ e = None)
         ∧ (v_cmd s' = None ↔ r = None ∧ e ≠ None)
         ∧ v_w s' = if decide (r = None ∧ e ≠ None) then sess_Close x w else w)
  end.
Proof.
  unfold vici_call. destruct (session s) as [[x|e] s1] eqn:Es.
  2:{ intros [= <- <- <-]. split_and!; [done..|]. unfold session in Es. destruct (v_cmd s) eqn:?; [done|].
      destruct (dial (v_w s)) as [[?|?] ?]; [done|]. by injection Es as _ <-. }
  assert (v_cmd s1 = Some x) as Hx.
  { unfold session in Es. destruct (v_cmd s) eqn:?; [by injection Es as -> <-|].
    destruct (dial (v_w s)) as [[?|?] ?]; [by injection Es as -> <-|done]. }
  destruct (sess_Call x cmd m (v_w s1)) as [[r e] w] eqn:Ec. unfold drop. cbn [v_cmd v_w]. rewrite Hx.
  destruct e as [e|], r as [r|]; intros [= <- <- <-]; split; try done; repeat case_decide; split_and!; naive_solver.
Qed.

End listing.

Module Demo.

Definition sa : IKESA :=
  mkIKESA "egressa-a" 7 IKEStateEstablished "192.0.2.7" "192.0.2.1" "client" "gateway" true "AES_GCM_16" "PRF_HMAC_SHA2_256" "CURVE_25519"
    (90 * Second)
    [mkChildSA "egressa-a-e1" 12 ChildStateInstalled "TUNNEL" "ESP" "c0ffee01" "c0ffee02" 42 42 "AES_GCM_16" 9000 60 4000 50 (80 * Second)
       ["10.0.0.7/32"%string] ["0.0.0.0/0"%string]].

(** A charon that lists one SA and knows no connection; the world counts dials
    and says whether the transport works. *)
Record world := mkWorld { dials : nat; up : bool }.
#[local] Instance demo_vici : Vici world nat := {|
  dial w := (Ok (dials w), mkWorld (S (dials w)) (up w));
  sess_Close _ w := mkWorld (dials w) true;
  sess_Call _ _ _ w :=
    if up w then (Some [("success"%string, VStr "no"); ("errmsg"%string, VStr "connection not found")], Some (ErrText "command failed"), w)
    else (None, Some (ErrText "broken pipe"), w);
  sess_Stream _ _ _ _ w := ([(Some [(sa_Name sa, VMsg (report_ike sa))], None)], w);
  Deadline _ := None;
|}.

Lemma connMessage_like_file_witness :
  ∃ m section file rest, connMessage (IpsecRender.Demo.conn "egressa-a" 1 3232235777) = Ok m
    ∧ map (λ '(k, v), conf_of k v) m = [section]
    ∧ parse_conf IpsecRender.Demo.text = Some (Sect "connections" file :: rest) ∧ section ∈ file.
Proof. apply (connMessage_like_file IpsecRender.Demo.conns); [by vm_compute|by right; left|done]. Defined.

Lemma sa_fits : ike_fits sa.
Proof.
  split; [done|by vm_compute|apply NoDup_singleton|]. constructor; [|constructor].
  split; [done| | |by vm_compute]; repeat constructor; by vm_compute.
Qed.

Lemma ListSAs_reads_back_witness :
  vici_ListSAs "egressa-a" (mkVst None (mkWorld 0 true)) = (Ok [sa], mkVst (Some 0%nat) (mkWorld 1 true)).
Proof.
  apply (ListSAs_reads_back "egressa-a" [sa] _ (mkVst (Some 0%nat) (mkWorld 1 true)) 0%nat (mkWorld 1 true));
    [done|constructor; [apply sa_fits|constructor]|done].
Defined.

(** A command over a broken session: it is closed, and the next command dials. *)
Definition broken : vst world nat := mkVst (Some 3%nat) (mkWorld 4 false).
Lemma vici_call_session_witness : v_cmd (vici_UnloadConn "x" broken).2 = None ∧ (vici_UnloadConn "x" (vici_UnloadConn "x" broken).2).2 = mkVst (Some 4%nat) (mkWorld 5 true).
Proof.
  split; [|by vm_compute].
  assert (vici_call "unload-conn" (newMsg [("name"%string, VStr "x")]) broken
    = (None, (vici_UnloadConn "x" broken).1, (vici_UnloadConn "x" broken).2)) as Hc by (by vm_compute).
  apply vici_call_session in Hc as (_ & _ & _ & H & _). apply H. by vm_compute.
Defined.

End Demo.
