(* ===== verification/ViciEvents.v ===== *)
(** * Events of charon: Subscribe, deliver, eventLoop and Close of internal/ipsec/vici.go

    Subscribers have buffered channels; [deliver] holds the mutex and never
    blocks, readers take events at any time in between, [Close] and the end of
    the event loop close the channels. The theorem: under every interleaving no
    channel is closed twice or sent to after it is closed, and a reader that
    misses events finds an [EventResync] in their place before the next one. *)

From S2P Require Import Prelude Netip IpsecConfig IpsecRender Vici.

#[export] Instance EventKind_eq_dec : EqDecision EventKind.
Proof. solve_decision. Defined.

Record chan := mkChan { ch_buf : list Event; ch_closed : bool }.
Definition ResyncEvent : Event := mkEvent EventResync false None.

(** What [deliver] is at, under the mutex: the event, the subscribers still to
    visit, and whether the first of them has had its [EventResync] if owed one. *)
Record delivery := mkDelivery { dl_ev : Event; dl_todo : list nat; dl_second : bool }.

(** [e_subs] says for each subscriber whether it lags. [e_offered] and [e_got]
    are not in the program: what each subscriber was to get, and what its reader
    took. *)
Record evst := mkEvst {
  e_subs : gmap nat bool;
  e_chans : gmap nat chan;
  e_loop : bool;
  e_ended : bool;
  e_closed : bool;
  e_busy : option delivery;
  e_offered : gmap nat (list Event);
  e_got : gmap nat (list Event);
}.
Definition NewEvents : evst := mkEvst ∅ ∅ false false false None ∅ ∅.

Definition set_subs f s := mkEvst (f (e_subs s)) (e_chans s) (e_loop s) (e_ended s) (e_closed s) (e_busy s) (e_offered s) (e_got s).
Definition set_chans f s := mkEvst (e_subs s) (f (e_chans s)) (e_loop s) (e_ended s) (e_closed s) (e_busy s) (e_offered s) (e_got s).
Definition set_busy b s := mkEvst (e_subs s) (e_chans s) (e_loop s) (e_ended s) (e_closed s) b (e_offered s) (e_got s).
Definition log (m : gmap nat (list Event)) (i : nat) (ev : Event) : gmap nat (list Event) := <[i := default [] (m !! i) ++ [ev]]> m.
Definition log_offered i ev s := mkEvst (e_subs s) (e_chans s) (e_loop s) (e_ended s) (e_closed s) (e_busy s) (log (e_offered s) i ev) (e_got s).
Definition log_got i ev s := mkEvst (e_subs s) (e_chans s) (e_loop s) (e_ended s) (e_closed s) (e_busy s) (e_offered s) (log (e_got s) i ev).

Inductive outcome (A : Type) := Blocked | Panic | Next (x : A).
Arguments Blocked {A}.
Arguments Panic {A}.
Arguments Next {A} x.
Definition next {A B} (o : outcome A) (f : A → outcome B) : outcome B :=
  match o with Next x => f x | Blocked => Blocked | Panic => Panic end.

(** A send in a [select] with a default: whether there was room. *)
Definition try_send (i : nat) (ev : Event) (s : evst) : outcome (bool * evst) :=
  match e_chans s !! i with
  | None => Blocked
  | Some c =>
      if ch_closed c then Panic
      else if (length (ch_buf c) <? eventBuffer)%nat
      then Next (true, set_chans (<[i := mkChan (ch_buf c ++ [ev]) false]>) s)
      else Next (false, s)
  end.

Definition close_chan (i : nat) (s : evst) : outcome evst :=
  match e_chans s !! i with
  | None => Blocked
  | Some c => if ch_closed c then Panic else Next (set_chans (<[i := mkChan (ch_buf c) true]>) s)
  end.

Definition subscribe (s : evst) : evst :=
  let i := size (e_chans s) in
  if e_closed s then set_chans (<[i := mkChan [] true]>) s
  else mkEvst (<[i := false]> (e_subs s)) (<[i := mkChan [] false]> (e_chans s)) true (e_ended s) (e_closed s)
         (e_busy s) (e_offered s) (e_got s).

Definition cancel (i : nat) (s : evst) : outcome evst :=
  match e_subs s !! i with
  | None => Next s
  | Some _ => close_chan i (set_subs (delete i) s)
  end.

(** One of the two selects for the first subscriber of the list. *)
Definition deliver_step (d : delivery) (s : evst) : outcome evst :=
  match dl_todo d with
  | [] => Next (set_busy None s)
  | i :: todo =>
      let skip (s : evst) : outcome evst := Next (set_busy (Some (mkDelivery (dl_ev d) todo false)) (log_offered i (dl_ev d) s)) in
      let again (s : evst) : outcome evst := Next (set_busy (Some (mkDelivery (dl_ev d) (i :: todo) true)) s) in
      match (e_subs s !! i : option bool) with
      | None => Blocked
      | Some lagged =>
          if dl_second d then
            next (try_send i (dl_ev d) s) (λ '(room, s), if (room : bool) then skip s else skip (set_subs (<[i := true]>) s))
          else if lagged then
            next (try_send i ResyncEvent s) (λ '(room, s), if (room : bool) then again (set_subs (<[i := false]>) s) else skip s)
          else again s
      end
  end.

(** The loop of the deferred function of [eventLoop]. *)
Fixpoint close_all (is_ : list nat) (s : evst) : outcome evst :=
  match is_ with
  | [] => Next s
  | i :: is_ => next (close_chan i s) (λ s, close_all is_ (set_subs (delete i) s))
  end.

Inductive event_action :=
| ASubscribe | ACancel (i : nat) | AClose | AEnd
| ADeliver (ev : Event) (order : list nat)
| ADeliverStep
| ARead (i : nat).

Definition event_act (a : event_action) (s : evst) : outcome evst :=
  let locked o := match e_busy s with Some _ => Blocked | None => o end in
  match a with
  | ASubscribe => locked (Next (subscribe s))
  | ACancel i => locked (cancel i s)
  | AClose => locked (Next (mkEvst (e_subs s) (e_chans s) (e_loop s) (e_ended s) true (e_busy s) (e_offered s) (e_got s)))
  | AEnd =>
      locked (if e_closed s && e_loop s && negb (e_ended s) then
                next (close_all (map_to_list (e_subs s)).*1 s) (λ s,
                  Next (mkEvst (e_subs s) (e_chans s) (e_loop s) true (e_closed s) (e_busy s) (e_offered s) (e_got s)))
              else Blocked)
  | ADeliver ev order =>
      locked (if e_loop s && negb (e_ended s) && bool_decide (order ≡ₚ (map_to_list (e_subs s)).*1)
              then Next (set_busy (Some (mkDelivery ev order false)) s) else Blocked)
  | ADeliverStep => match e_busy s with Some d => deliver_step d s | None => Blocked end
  | ARead i =>
      match e_chans s !! i with
      | Some (mkChan (ev :: buf) cl) => Next (log_got i ev (set_chans (<[i := mkChan buf cl]>) s))
      | _ => Blocked
      end
  end.

Inductive reachable : evst → Prop :=
| reach_start : reachable NewEvents
| reach_act s a s' : reachable s → event_act a s = Next s' → reachable s'.

(** ** What a reader may miss *)

(** The events offered, the events sent, and whether the reader is owed an
    [EventResync]: each run of missing events has one in its place. *)
Inductive gapped : list Event → list Event → bool → Prop :=
| gap_nil : gapped [] [] false
| gap_keep o s e : gapped o s false → gapped (o ++ [e]) (s ++ [e]) false
| gap_drop o s l e : gapped o s l → gapped (o ++ [e]) s true
| gap_resync o s : gapped o s true → gapped o (s ++ [ResyncEvent]) false.

Lemma gapped_last o s a : gapped o (s ++ [a]) false → a ≠ ResyncEvent → ∃ o', o = o' ++ [a] ∧ gapped o' s false.
Proof.
  remember (s ++ [a]) as t eqn:Et. remember false as l eqn:El. destruct 1 as [|o t e H|o t l e H|o t H]; intros Hne; [by destruct s|..|done|].
  - apply app_inj_tail in Et as [-> ->]. eauto.
  - by apply app_inj_tail in Et as [-> <-].
Qed.


(** Two events in a row were offered in a row, and the first one first, unless a
    resync is between or before them. *)
Lemma gapped_adjacent o s l : gapped o s l → ∀ s1 a b s2,
  s = s1 ++ a :: b :: s2 → a ≠ ResyncEvent → b ≠ ResyncEvent → ∃ o1 o2, o = o1 ++ a :: b :: o2.
Proof.
  assert (∀ (s1 : list Event) a b s2 x t, t ++ [x] = s1 ++ a :: b :: s2 →
    (s2 = [] ∧ x = b ∧ t = s1 ++ [a]) ∨ ∃ s2', t = s1 ++ a :: b :: s2') as Hsnoc.
  { intros s1 a b s2 x t E. destruct s2 as [|y s2 _] using rev_ind.
    - left. replace (s1 ++ [a; b]) with ((s1 ++ [a]) ++ [b]) in E by (by rewrite <- app_assoc). by apply app_inj_tail in E as [-> ->].
    - right. exists s2. rewrite !app_comm_cons, app_assoc in E. by apply app_inj_tail in E as [-> _]. }
  induction 1 as [|o s e H IH|o s l e H IH|o s H IH]; intros s1 a b s2 Es Ha Hb.
  - by destruct s1.
  - apply Hsnoc in Es as [(-> & -> & ->)|[s2' ->]].
    + apply gapped_last in H as (o' & -> & _); [|done]. exists o', []. by rewrite <- app_assoc.
    + destruct (IH _ _ _ _ eq_refl Ha Hb) as (o1 & o2 & ->). exists o1, (o2 ++ [e]). by rewrite <- app_assoc.
  - destruct (IH _ _ _ _ Es Ha Hb) as (o1 & o2 & ->). exists o1, (o2 ++ [e]). by rewrite <- app_assoc.
  - apply Hsnoc in Es as [(_ & <- & _)|[s2' ->]]; [done|]. by eapply IH.
Qed.

Lemma gapped_first o s l : gapped o s l → ∀ b s2, s = b :: s2 → b ≠ ResyncEvent → ∃ o2, o = b :: o2.
Proof.
  induction 1 as [|o s e H IH|o s l e H IH|o s H IH]; intros b s2 Es Hb; [done|..].
  - destruct s as [|x s]; [|injection Es as -> _; destruct (IH _ _ eq_refl Hb) as [o2 ->]; by eexists].
    injection Es as -> _. remember [] as s eqn:E. remember false as l eqn:El. destruct H; [by eexists|by destruct s|done|by destruct s].
  - destruct (IH _ _ Es Hb) as [o2 ->]. by eexists.
  - destruct s as [|x s]; [injection Es as <- _; done|]. injection Es as -> _. by eapply IH.
Qed.

(** ** The invariant *)

Definition logged (m : gmap nat (list Event)) (i : nat) : list Event := default [] (m !! i).
Lemma logged_log_eq m i ev : logged (log m i ev) i = logged m i ++ [ev].
Proof. unfold logged, log. by rewrite lookup_insert_eq. Qed.
Lemma logged_log_ne m i j ev : i ≠ j → logged (log m i ev) j = logged m j.
Proof. intros. unfold logged, log. by rewrite lookup_insert_ne. Qed.

Definition chan_ok (s : evst) (i : nat) (c : chan) : Prop :=
  (i < size (e_chans s))%nat ∧ (length (ch_buf c) ≤ eventBuffer)%nat
  ∧ ∃ l, gapped (logged (e_offered s) i) (logged (e_got s) i ++ ch_buf c) l
         ∧ ∀ l', e_subs s !! i = Some l' → l' = l ∧ ch_closed c = false.
Definition busy_ok (s : evst) (d : delivery) : Prop :=
  NoDup (dl_todo d) ∧ Forall (λ i, is_Some (e_subs s !! i)) (dl_todo d)
  ∧ (dl_second d = true → ∃ i todo, dl_todo d = i :: todo ∧ e_subs s !! i = Some false).
Record events_ok (s : evst) : Prop := {
  eo_chans : ∀ i c, e_chans s !! i = Some c → chan_ok s i c;
  eo_subs : ∀ i l, e_subs s !! i = Some l → is_Some (e_chans s !! i);
  eo_fresh : ∀ i, e_chans s !! i = None → logged (e_offered s) i = [] ∧ logged (e_got s) i = [];
  eo_busy : ∀ d, e_busy s = Some d → busy_ok s d;
}.

Lemma Forall_impl_elem {A} (P Q : A → Prop) (l : list A) : Forall P l → (∀ x, x ∈ l → P x → Q x) → Forall Q l.
Proof. rewrite !Forall_forall. eauto. Qed.

(** One channel changed, of one that is there, and its subscriber: what to show. *)
Lemma events_ok_chan s s' i c c' :
  events_ok s → e_chans s !! i = Some c → e_chans s' = <[i := c']> (e_chans s) →
  (∀ j, j ≠ i → e_subs s' !! j = e_subs s !! j ∧ logged (e_offered s') j = logged (e_offered s) j ∧ logged (e_got s') j = logged (e_got s) j) →
  (length (ch_buf c') ≤ eventBuffer)%nat →
  (∃ l, gapped (logged (e_offered s') i) (logged (e_got s') i ++ ch_buf c') l
        ∧ ∀ l', e_subs s' !! i = Some l' → l' = l ∧ ch_closed c' = false) →
  (∀ d, e_busy s' = Some d → busy_ok s' d) → events_ok s'.
Proof.
  intros [H1 H2 H3 H4] Hc Hcs Hj Hlen Hg Hb.
  assert (size (e_chans s') = size (e_chans s)) as Hsz by (rewrite Hcs; by apply map_size_insert_Some).
  split; [| | |done].
  - intros j d. rewrite Hcs. destruct (decide (j = i)) as [->|Hne].
    + rewrite lookup_insert_eq. intros [= <-]. split_and!; [|done..]. rewrite Hsz. by eapply (H1 i c Hc).
    + rewrite lookup_insert_ne by done. intros Hd. destruct (Hj j Hne) as (E1 & E2 & E3).
      unfold chan_ok. rewrite Hsz, E1, E2, E3. by apply H1.
  - intros j l. rewrite Hcs. destruct (decide (j = i)) as [->|Hne]; [rewrite lookup_insert_eq; by eexists|].
    rewrite lookup_insert_ne by done. destruct (Hj j Hne) as (E1 & _). rewrite E1. by apply H2.
  - intros j. rewrite Hcs. destruct (decide (j = i)) as [->|Hne]; [by rewrite lookup_insert_eq|].
    rewrite lookup_insert_ne by done. destruct (Hj j Hne) as (_ & E2 & E3). rewrite E2, E3. by apply H3.
Qed.

Lemma subs_open s i l : events_ok s → e_subs s !! i = Some l → ∃ buf, e_chans s !! i = Some (mkChan buf false)
  ∧ (length buf ≤ eventBuffer)%nat ∧ gapped (logged (e_offered s) i) (logged (e_got s) i ++ buf) l.
Proof.
  intros Hok Hl. destruct (eo_subs _ Hok i l Hl) as [[buf cl] Hc].
  destruct (eo_chans _ Hok i _ Hc) as (_ & Hlen & l0 & Hg & Hl0). destruct (Hl0 _ Hl) as [-> E]. cbn in *. rewrite E in Hc. by exists buf.
Qed.

(** Closing the channel of a subscriber as it leaves. *)
Lemma close_sub_ok s i l : events_ok s → e_busy s = None → e_subs s !! i = Some l →
  ∃ c, e_chans s !! i = Some c ∧ ch_closed c = false
    ∧ events_ok (set_subs (delete i) (set_chans (<[i := mkChan (ch_buf c) true]>) s)).
Proof.
  intros Hok Hb Hl. destruct (subs_open _ _ _ Hok Hl) as (buf & Hc & Hlen & Hg). exists (mkChan buf false). split_and!; [done..|].
  eapply events_ok_chan; [done|exact Hc|done| |done| |by cbn; rewrite Hb].
  - intros j Hj. cbn. by rewrite lookup_delete_ne.
  - exists l. split; [done|]. cbn. by rewrite lookup_delete_eq.
Qed.

Lemma close_all_ok is_ s : events_ok s → e_busy s = None → NoDup is_ → Forall (λ i, is_Some (e_subs s !! i)) is_ →
  ∃ s', close_all is_ s = Next s' ∧ events_ok s' ∧ e_busy s' = None.
Proof.
  revert s. induction is_ as [|i is_ IH]; intros s Hok Hb Hnd HF; cbn; [eauto|].
  apply NoDup_cons in Hnd as [Hi Hnd]. apply Forall_cons in HF as [[l Hl] HF].
  destruct (close_sub_ok _ _ _ Hok Hb Hl) as (c & Hc & Hcl & Hok'). unfold close_chan. rewrite Hc, Hcl. cbn.
  apply IH; [done..|]. eapply Forall_impl_elem; [exact HF|]. cbn. intros j Hj Hs. rewrite lookup_delete_ne; [done|]. by intros ->.
Qed.

(** What a send leaves: [e] sent if there was room, and the buffer within bounds. *)
Lemma send_ok s i e l : events_ok s → e_subs s !! i = Some l →
  ∃ buf, e_chans s !! i = Some (mkChan buf false) ∧ (length buf ≤ eventBuffer)%nat
    ∧ gapped (logged (e_offered s) i) (logged (e_got s) i ++ buf) l
    ∧ try_send i e s = Next (if (length buf <? eventBuffer)%nat then (true, set_chans (<[i := mkChan (buf ++ [e]) false]>) s) else (false, s)).
Proof.
  intros Hok Hl. destruct (subs_open _ _ _ Hok Hl) as (buf & Hc & Hlen & Hg). exists buf. split_and!; [done..|].
  unfold try_send. rewrite Hc. cbn [ch_closed ch_buf]. by destruct (length buf <? eventBuffer)%nat.
Qed.

Lemma deliver_step_ok s d : events_ok s → e_busy s = Some d → ∃ s', deliver_step d s = Next s' ∧ events_ok s'.
Proof.
  intros Hok Hb. destruct (eo_busy _ Hok _ Hb) as (Hnd & HF & Hsec). unfold deliver_step.
  destruct d as [ev [|i todo] sec]; cbn [dl_todo dl_ev dl_second] in *.
  { eexists. split; [done|]. destruct Hok as [H1 H2 H3 H4]. by split. }
  apply NoDup_cons in Hnd as [Hi Hnd]. apply Forall_cons in HF as [[l Hl] HF]. rewrite Hl.
  (* the rest of the list, when only subscriber i changes *)
  assert (∀ s', e_busy s' = Some (mkDelivery ev todo false) → (∀ j, j ≠ i → e_subs s' !! j = e_subs s !! j) →
    ∀ d, e_busy s' = Some d → busy_ok s' d) as Hskip.
  { intros s' Hs' Hj d [= <-]%(eq_trans (eq_sym Hs')). split_and!; cbn; [done| |done].
    eapply Forall_impl_elem; [exact HF|]. cbn. intros j Hin Hsome. rewrite Hj; [done|]. by intros ->. }
  assert (∀ s', e_busy s' = Some (mkDelivery ev (i :: todo) true) → (∀ j, j ≠ i → e_subs s' !! j = e_subs s !! j) → e_subs s' !! i = Some false →
    ∀ d, e_busy s' = Some d → busy_ok s' d) as Hagain.
  { intros s' Hs' Hj Hf d [= <-]%(eq_trans (eq_sym Hs')). split_and!; cbn; [by apply NoDup_cons| |by eexists _, _].
    constructor; [by rewrite Hf|]. eapply Forall_impl_elem; [exact HF|]. cbn. intros j Hin Hsome. rewrite Hj; [done|]. by intros ->. }
  destruct sec.
  - destruct (Hsec eq_refl) as (? & ? & [= <- <-] & Hf). rewrite Hl in Hf. injection Hf as ->.
    destruct (send_ok s i ev false Hok Hl) as (buf & Hc & Hlen & Hg & ->). destruct (Nat.ltb_spec (length buf) eventBuffer); cbn [next].
    + eexists. split; [done|]. eapply events_ok_chan; [done|exact Hc|done| | | |].
      * intros j Hj. cbn. by rewrite logged_log_ne.
      * cbn. rewrite length_app. cbn. lia.
      * exists false. cbn. rewrite logged_log_eq, app_assoc. split; [by constructor|]. rewrite Hl. by intros l' [= <-].
      * by apply Hskip.
    + eexists. split; [done|]. eapply events_ok_chan; [done|exact Hc|by cbn; rewrite insert_id| |done| |].
      * intros j Hj. cbn. by rewrite logged_log_ne, lookup_insert_ne.
      * exists true. cbn. rewrite logged_log_eq. split; [by econstructor|]. rewrite lookup_insert_eq. by intros l' [= <-].
      * apply Hskip; [done|]. intros j Hj. cbn. by rewrite lookup_insert_ne.
  - destruct l.
    + destruct (send_ok s i ResyncEvent true Hok Hl) as (buf & Hc & Hlen & Hg & ->). destruct (Nat.ltb_spec (length buf) eventBuffer); cbn [next].
      * eexists. split; [done|]. eapply events_ok_chan; [done|exact Hc|done| | | |].
        -- intros j Hj. cbn. by rewrite lookup_insert_ne.
        -- cbn. rewrite length_app. cbn. lia.
        -- exists false. cbn. rewrite app_assoc. split; [by constructor|]. rewrite lookup_insert_eq. by intros l' [= <-].
        -- apply Hagain; [done| |by cbn; rewrite lookup_insert_eq]. intros j Hj. cbn. by rewrite lookup_insert_ne.
      * eexists. split; [done|]. eapply events_ok_chan; [done|exact Hc|by cbn; rewrite insert_id| |done| |].
        -- intros j Hj. cbn. by rewrite logged_log_ne.
        -- exists true. cbn. rewrite logged_log_eq. split; [by econstructor|]. rewrite Hl. by intros l' [= <-].
        -- by apply Hskip.
    + eexists. split; [done|]. destruct Hok as [H1 H2 H3 H4]. split; [done..|]. by apply Hagain.
Qed.

Lemma subscribe_ok s : events_ok s → e_busy s = None → events_ok (subscribe s).
Proof.
  intros [H1 H2 H3 H4] Hb. unfold subscribe. set (i := size (e_chans s)).
  assert (e_chans s !! i = None) as Hi.
  { destruct (e_chans s !! i) as [c|] eqn:E; [|done]. destruct (H1 i c E) as [? _]. unfold i in *. lia. }
  destruct (H3 i Hi) as [Ho Hg]. assert (e_subs s !! i = None) as Hs.
  { destruct (e_subs s !! i) eqn:E; [|done]. apply H2 in E. rewrite Hi in E. by destruct E. }
  assert (∀ c, size (<[i := c]> (e_chans s)) = S (size (e_chans s))) as Hsz by (intros c; by apply map_size_insert_None).
  destruct (e_closed s); split; cbn; try (by rewrite Hb).
  - intros j c. unfold chan_ok. cbn. rewrite Hsz. destruct (decide (j = i)) as [->|Hne].
    + rewrite lookup_insert_eq. intros [= <-]. cbn. split_and!; [unfold i; lia|lia|]. exists false. rewrite Ho, Hg, Hs. split; [constructor|done].
    + rewrite lookup_insert_ne by done. intros Hc%H1. destruct Hc as (? & ? & ?). split_and!; [lia|done..].
  - intros j l Hl. destruct (decide (j = i)) as [->|Hne]; [by rewrite lookup_insert_eq|]. rewrite lookup_insert_ne by done. by eapply H2.
  - intros j. destruct (decide (j = i)) as [->|Hne]; [by rewrite lookup_insert_eq|]. rewrite lookup_insert_ne by done. apply H3.
  - intros j c. unfold chan_ok. cbn. rewrite Hsz. destruct (decide (j = i)) as [->|Hne].
    + rewrite !lookup_insert_eq. intros [= <-]. cbn. split_and!; [unfold i; lia|lia|]. exists false. rewrite Ho, Hg. split; [constructor|]. by intros l' [= <-].
    + rewrite !lookup_insert_ne by done. intros Hc%H1. destruct Hc as (? & ? & ?). split_and!; [lia|done..].
  - intros j l. destruct (decide (j = i)) as [->|Hne]; [rewrite !lookup_insert_eq; by eexists|]. rewrite !lookup_insert_ne by done. apply H2.
  - intros j. destruct (decide (j = i)) as [->|Hne]; [by rewrite lookup_insert_eq|]. rewrite lookup_insert_ne by done. apply H3.
Qed.

Lemma read_ok s i ev buf cl : events_ok s → e_chans s !! i = Some (mkChan (ev :: buf) cl) →
  events_ok (log_got i ev (set_chans (<[i := mkChan buf cl]>) s)).
Proof.
  intros Hok Hc. destruct (eo_chans _ Hok i _ Hc) as (_ & Hlen & l & Hg & Hl).
  eapply events_ok_chan; [done|exact Hc|done| | | |].
  - intros j Hj. cbn. by rewrite logged_log_ne.
  - cbn in *. lia.
  - exists l. cbn. rewrite logged_log_eq, <- app_assoc. split; [done|exact Hl].
  - intros d Hd. by apply (eo_busy _ Hok).
Qed.

(** No action panics, and each keeps the invariant. *)
Lemma event_act_ok a s : events_ok s → event_act a s ≠ Panic ∧ ∀ s', event_act a s = Next s' → events_ok s'.
Proof.
  intros Hok. destruct a as [|i| | |ev order| |i]; cbn [event_act].
  - destruct (e_busy s) eqn:Hb; [done|]. split; [done|]. intros s' [= <-]. by apply subscribe_ok.
  - destruct (e_busy s) eqn:Hb; [done|]. unfold cancel. destruct (e_subs s !! i) as [l|] eqn:Hl; [|split; [done|by intros s' [= <-]]].
    destruct (close_sub_ok _ _ _ Hok Hb Hl) as (c & Hc & Hcl & Hok'). unfold close_chan. cbn. rewrite Hc, Hcl. split; [done|]. by intros s' [= <-].
  - destruct (e_busy s) eqn:Hb; [done|]. split; [done|]. intros s' [= <-]. destruct Hok as [H1 H2 H3 H4]. split; try done; cbn; by rewrite Hb.
  - destruct (e_busy s) eqn:Hb; [done|]. destruct (_ && _); [|done].
    destruct (close_all_ok (map_to_list (e_subs s)).*1 s) as (s1 & -> & [H1 H2 H3 H4] & Hb1); [done|done|apply NoDup_fst_map_to_list| |].
    { apply Forall_forall. intros i ([j l] & -> & Hl%elem_of_map_to_list)%list_elem_of_fmap. by eexists. }
    cbn. split; [done|]. intros s' [= <-]. split; try done; cbn; by rewrite Hb1.
  - destruct (e_busy s) eqn:Hb; [done|]. destruct (_ && _) eqn:Ec; [|done]. split; [done|]. intros s' [= <-].
    apply andb_true_iff in Ec as [_ Hp%bool_decide_eq_true_1]. destruct Hok as [H1 H2 H3 H4]. split; try done. cbn.
    intros d [= <-]. split_and!; cbn; [|rewrite Hp|done].
    + rewrite Hp. apply NoDup_fst_map_to_list.
    + apply Forall_forall. intros i ([j l] & -> & Hl%elem_of_map_to_list)%list_elem_of_fmap. by eexists.
  - destruct (e_busy s) as [d|] eqn:Hb; [|done]. destruct (deliver_step_ok _ _ Hok Hb) as (s1 & -> & Hok'). split; [done|]. by intros s' [= <-].
  - destruct (e_chans s !! i) as [[[|ev buf] cl]|] eqn:Hc; [done| |done]. split; [done|]. intros s' [= <-]. by apply read_ok.
Qed.

Lemma reachable_ok s : reachable s → events_ok s.
Proof.
  induction 1 as [|s a s' _ IH Ha]; [|by eapply event_act_ok]. split; [done|done|done|done].
Qed.

(** C25: under every interleaving of subscribers, readers, the event loop and
    [Close], nothing panics: no channel is closed twice, none is sent to after
    it is closed. And no reader misses events silently: what it gets starts
    with the first event offered to it, and two events it gets in a row were
    offered in a row, unless an [EventResync] comes before or between. *)
Theorem events_no_silent_gap s :
  reachable s →
  (∀ a, event_act a s ≠ Panic)
  ∧ ∀ i, let got := logged (e_got s) i in let offered := logged (e_offered s) i in
    (∀ b rest, got = b :: rest → b ≠ ResyncEvent → ∃ o, offered = b :: o)
    ∧ (∀ g1 a b g2, got = g1 ++ a :: b :: g2 → a ≠ ResyncEvent → b ≠ ResyncEvent → ∃ o1 o2, offered = o1 ++ a :: b :: o2).
Proof.
  intros Hok%reachable_ok. split; [intros a; by apply event_act_ok|]. intros i got offered.
  destruct (e_chans s !! i) as [c|] eqn:Hc.
  - destruct (eo_chans _ Hok i c Hc) as (_ & _ & l & Hg & _). fold got offered in Hg. split.
    + intros b rest Eb Hb. eapply gapped_first; [exact Hg|by rewrite Eb|done].
    + intros g1 a b g2 Eg Ha Hb. eapply (gapped_adjacent _ _ _ Hg g1 a b (g2 ++ ch_buf c)); [by rewrite Eg, <- app_assoc|done|done].
  - destruct (eo_fresh _ Hok i Hc) as [_ Hg]. fold got in Hg. rewrite Hg. split; [done|]. by intros [].
Qed.

(** ** Runs *)

Fixpoint event_acts (l : list event_action) (s : evst) : outcome evst :=
  match l with [] => Next s | a :: l => next (event_act a s) (event_acts l) end.

Lemma event_acts_reachable l s s' : reachable s → event_acts l s = Next s' → reachable s'.
Proof.
  revert s. induction l as [|a l IH]; intros s Hs; cbn; [by intros [= <-]|].
  destruct (event_act a s) as [| |s1] eqn:E; [done..|]. apply IH. by econstructor.
Qed.

Module EventsDemo.

Definition event (up : bool) : Event := mkEvent EventChildUpDown up (Some Vici.Demo.sa).
(** One event to one subscriber: lock, two selects, unlock. *)
Definition deliver1 (up : bool) : list event_action := ADeliver (event up) [0%nat] :: replicate 3 ADeliverStep.
Definition deliver_lagging (up : bool) : list event_action := ADeliver (event up) [0%nat] :: replicate 2 ADeliverStep.

(** 66 events, of which the last two find no room; the reader takes two, a
    further event comes. *)
Definition burst : list event_action :=
  ASubscribe :: concat (replicate 65 (deliver1 true)) ++ deliver_lagging true ++ replicate 2 (ARead 0) ++ deliver1 false.
Definition after : evst := match event_acts (burst ++ replicate 64 (ARead 0)) NewEvents with Next s => s | _ => NewEvents end.

Lemma burst_runs : event_acts (burst ++ replicate 64 (ARead 0)) NewEvents = Next after.
Proof. vm_compute. reflexivity. Qed.

Lemma events_no_silent_gap_witness :
  logged (e_got after) 0 = replicate 64 (event true) ++ [ResyncEvent; event false]
  ∧ length (logged (e_offered after) 0) = 67%nat ∧ event_act AEnd after ≠ Panic.
Proof.
  split_and!; [by vm_compute|by vm_compute|].
  apply (proj1 (events_no_silent_gap after (event_acts_reachable _ _ _ reach_start burst_runs))).
Defined.

(** The [EventResync] a reader is owed is not sent when it has room again, only
    with the next event: here the reader has taken everything, the mutex is free,
    and an event it missed is not announced. *)
Definition waiting : evst :=
  match event_acts ((ASubscribe :: concat (replicate 65 (deliver1 true))) ++ replicate 64 (ARead 0)) NewEvents with Next s => s | _ => NewEvents end.
Lemma owed_resync_withheld :
  e_subs waiting !! 0%nat = Some true ∧ e_chans waiting !! 0%nat = Some (mkChan [] false) ∧ e_busy waiting = None
  ∧ length (logged (e_offered waiting) 0) = 65%nat ∧ logged (e_got waiting) 0 = replicate 64 (event true).
Proof. vm_compute. by split_and!. Qed.

End EventsDemo.
