(* ===== verification/IpsecWait.v ===== *)
(** * Waiting on SAs and passive loss: internal/ipsec/wait.go and loss.go

    [waitSAs] as a function of what its [select] receives and what each query
    answers. The theorems: it returns at the first query that satisfies the
    condition or when the context ends, and only then, whatever fails in
    between; the loss that is read is that of the newest installed CHILD_SA and
    lies between 0 and the highest sequence number. *)

From S2P Require Import Prelude Netip IpsecConfig IpsecNet IpsecClient IpsecGateway Vici.

(** What the [select] of the loop receives. *)
Inductive trigger :=
| CtxDone (e : error)
| Received (ev : Event)
| EventsClosed
| Tick.

(** Whether the loop queries after it. *)
Definition concerns (conn : string) (t : trigger) : bool :=
  match t with
  | Tick => true
  | Received ev =>
      match ev_Kind ev with
      | EventResync => true
      | _ => match ev_IKE ev with Some sa => String.eqb (sa_Name sa) conn | None => String.eqb "" conn end
      end
  | EventsClosed | CtxDone _ => false
  end.

(** Each trigger with what a query would answer then. The result is [None]
    while the wait goes on, else the error it returns and the SAs it saw. *)
Abbreviation observation := (trigger * res error (list IKESA))%type.

Fixpoint wait_loop (conn : string) (done : list IKESA → bool) (lastErr : option error) (l : list observation)
  : option (res error (list IKESA)) :=
  match l with
  | [] => None
  | (CtxDone e, _) :: _ =>
      Some (Err (match lastErr with Some q => ErrUndo "last query error" e q | None => e end))
  | (t, answer) :: l =>
      if concerns conn t then
        match answer with
        | Err e => wait_loop conn done (Some e) l
        | Ok sas => if done sas then Some (Ok sas) else wait_loop conn done None l
        end
      else wait_loop conn done lastErr l
  end.

Definition waitSAs (conn : string) (done : list IKESA → bool) (first : res error (list IKESA)) (l : list observation)
  : option (res error (list IKESA)) :=
  match first with
  | Err e => Some (Err e)
  | Ok sas => if done sas then Some (Ok sas) else wait_loop conn done None l
  end.

Definition is_warm (conn : string) (sas : list IKESA) : bool :=
  match FindIKE sas conn with Some sa => Warm sa | None => false end.
Definition WaitWarm (conn : string) (first : res error (list IKESA)) (l : list observation) : option (res error IKESA) :=
  match waitSAs conn (is_warm conn) first l with
  | None => None
  | Some (Err e) => Some (Err (ErrWrap ("waiting for " +:+ conn +:+ " to become warm") e))
  | Some (Ok sas) => match FindIKE sas conn with Some sa => Some (Ok sa) | None => None end
  end.

Definition is_down (conn : string) (sas : list IKESA) : bool :=
  negb (existsb (λ sa, String.eqb (sa_Name sa) conn && String.eqb (sa_State sa) IKEStateEstablished) sas).
Definition WaitDown (conn : string) (first : res error (list IKESA)) (l : list observation) : option (option error) :=
  match waitSAs conn (is_down conn) first l with
  | None => None
  | Some (Err e) => Some (Some (ErrWrap ("waiting for " +:+ conn +:+ " to go down") e))
  | Some (Ok _) => Some None
  end.

(** The waits of the client and the gateway. *)
Definition client_WaitWarm (name : string) (c : Client) first l : option (res error IKESA) :=
  match client_peer name c with Err e => Some (Err e) | Ok p => WaitWarm (cn_Name (cp_conn p)) first l end.
Definition client_WaitDown (name : string) (c : Client) first l : option (option error) :=
  match client_peer name c with Err e => Some (Some e) | Ok p => WaitDown (cn_Name (cp_conn p)) first l end.
Definition WaitBackbone (name : string) (g : Gateway) first l : option (res error IKESA) :=
  match gateway_peer name g with Err e => Some (Err e) | Ok p => WaitWarm (cn_Name (bk_conn p)) first l end.

(** ** Loss *)

Record Loss := mkLoss { ls_SPI : Z; ls_HighestSeq : Z; ls_Received : Z; ls_Lost : Z }.

Definition computeLoss (st : XfrmState) : Loss :=
  mkLoss (xs_SPI st) (xs_ReplaySeq st) (xs_Packets st)
    (if xs_ReplaySeq st >? xs_Packets st then u64 (xs_ReplaySeq st - xs_Packets st) else 0).

(** The loops over SAs and their children. *)
Definition newer_child (best : option ChildSA) (c : ChildSA) : option ChildSA :=
  if String.eqb (ch_State c) ChildStateInstalled
     && match best with None => true | Some b => ch_UniqueID c >? ch_UniqueID b end
  then Some c else best.
Definition newest_child (conn : string) (sas : list IKESA) : option ChildSA :=
  fold_left (λ best sa, if String.eqb (sa_Name sa) conn then fold_left newer_child (sa_Children sa) best else best) sas None.

Fixpoint find_state (spi ifid : Z) (states : list XfrmState) : option XfrmState :=
  match states with
  | [] => None
  | st :: states =>
      if negb (xs_SPI st =? spi) || negb (xs_IfID st =? ifid) then find_state spi ifid states else Some st
  end.

Definition loss_of (conn : string) (sas : list IKESA) (states : res error (list XfrmState)) : res error Loss :=
  match newest_child conn sas with
  | None => Err (ErrWrap (conn +:+ " has no installed CHILD_SA") ErrNotFound)
  | Some child =>
      match parse_uint 16 32 (ch_SPIIn child) with
      | (_, false) => Err (ErrText (conn +:+ ": inbound SPI"))
      | (spi, true) =>
          try states := states in
          match find_state spi (ch_IfIDIn child) states with
          | None => Err (ErrWrap (conn +:+ ": no kernel state for inbound SPI") ErrNotFound)
          | Some st => if negb (xs_HasReplay st) then Err (ErrWrap conn ErrLossUnavailable) else Ok (computeLoss st)
          end
      end
  end.

Section loss.
Context {W : Type} {WE : Env W}.
Definition lossFor (conn : string) (w : W) : res error Loss :=
  try sas := ListSAs conn w in loss_of conn sas (XfrmStates w).
Definition client_Loss (name : string) (c : Client) (w : W) : res error Loss :=
  try p := client_peer name c in lossFor (cn_Name (cp_conn p)) w.
Definition BackboneLoss (name : string) (g : Gateway) (w : W) : res error Loss :=
  try p := gateway_peer name g in lossFor (cn_Name (bk_conn p)) w.
End loss.

(** ** Where a wait ends *)

(** The observations that end it. *)
Definition ends (conn : string) (done : list IKESA → bool) (o : observation) : bool :=
  match o with
  | (CtxDone _, _) => true
  | (t, Ok sas) => concerns conn t && done sas
  | (t, Err _) => false
  end.

(** What it returns there: the SAs, or the error of the context, which the error
    of the last query may be attached to. *)
Definition returned (o : observation) (r : res error (list IKESA)) : Prop :=
  match o with
  | (CtxDone e, _) => r = Err e ∨ ∃ q, r = Err (ErrUndo "last query error" e q)
  | (_, answer) => r = answer
  end.

Lemma wait_loop_returns conn done q l :
  match List.find (ends conn done) l with
  | None => wait_loop conn done q l = None
  | Some o => ∃ r, wait_loop conn done q l = Some r ∧ returned o r
  end.
Proof.
  revert q. induction l as [|[t a] l IH]; intros q; [done|]. cbn [List.find].
  assert (∀ q', ends conn done (t, a) = false → wait_loop conn done q ((t, a) :: l) = wait_loop conn done q' l →
    match (if ends conn done (t, a) then Some (t, a) else List.find (ends conn done) l) with
    | None => wait_loop conn done q ((t, a) :: l) = None
    | Some o => ∃ r, wait_loop conn done q ((t, a) :: l) = Some r ∧ returned o r
    end) as Hgo by (intros q' -> ->; apply IH).
  destruct t as [e|ev| |].
  - cbn. eexists. split; [done|]. destruct q; [right; by eexists|by left].
  - destruct (concerns conn (Received ev)) eqn:Ec.
    + destruct a as [sas|e]; [|apply (Hgo (Some e)); cbn [ends wait_loop]; [done|by rewrite Ec]].
      destruct (done sas) eqn:Ed; [|apply (Hgo None); cbn [ends wait_loop]; rewrite Ec, ?Ed; done].
      cbn [ends wait_loop]. rewrite Ec, Ed. by eexists.
    + apply (Hgo q); cbn [ends wait_loop]; rewrite Ec; by destruct a.
  - apply (Hgo q); cbn; by destruct a.
  - destruct a as [sas|e]; [|by apply (Hgo (Some e))].
    destruct (done sas) eqn:Ed; [cbn; rewrite Ed; by eexists|]. apply (Hgo None); cbn; by rewrite Ed.
Qed.

(** The newest SA of a name. *)
Definition newest {A} (id : A → Z) (ok : A → Prop) (l : list A) (x : A) : Prop :=
  x ∈ l ∧ ok x ∧ ∀ y, y ∈ l → ok y → id y ≤ id x.

(** A scan that keeps the greatest of those that qualify. *)
Lemma scan_newest {A} (id : A → Z) (okb : A → bool) (step : option A → A → option A) :
  (∀ best x, step best x = if okb x && match best with None => true | Some b => id x >? id b end then Some x else best) →
  ∀ l, match fold_left step l None with
       | Some x => newest id (λ y, okb y = true) l x
       | None => ∀ y, y ∈ l → okb y = false
       end.
Proof.
  intros Hs l. induction l as [|x l IH] using rev_ind; [by intros y ?%not_elem_of_nil|].
  rewrite fold_left_app. cbn [fold_left]. rewrite Hs. unfold newest in *.
  destruct (okb x) eqn:Ex, (fold_left step l None) as [b|]; cbn [andb].
  - destruct IH as (Hin & Hok & Hmax). destruct (Z.gtb_spec (id x) (id b)).
    + split_and!; [set_solver|done|]. intros y [Hy| ->%list_elem_of_singleton]%elem_of_app Hoy; [|lia]. specialize (Hmax y Hy Hoy). lia.
    + split_and!; [set_solver|done|]. intros y [Hy| ->%list_elem_of_singleton]%elem_of_app Hoy; [by apply Hmax|lia].
  - split_and!; [set_solver|done|]. intros y [Hy| ->%list_elem_of_singleton]%elem_of_app Hoy; [|lia]. by rewrite IH in Hoy.
  - destruct IH as (Hin & Hok & Hmax). split_and!; [set_solver|done|].
    intros y [Hy| ->%list_elem_of_singleton]%elem_of_app Hoy; [by apply Hmax|congruence].
  - intros y [Hy| ->%list_elem_of_singleton]%elem_of_app; [by apply IH|done].
Qed.

Lemma FindIKE_newest sas conn :
  match FindIKE sas conn with
  | Some sa => newest sa_UniqueID (λ s, String.eqb (sa_Name s) conn = true) sas sa
  | None => ∀ s, s ∈ sas → String.eqb (sa_Name s) conn = false
  end.
Proof. by apply (scan_newest sa_UniqueID (λ s, String.eqb (sa_Name s) conn)). Qed.


(** ** The loss that is read *)

Definition installed_children (conn : string) (sas : list IKESA) : list ChildSA :=
  flat_map (λ sa, if String.eqb (sa_Name sa) conn then sa_Children sa else []) sas.

Lemma newest_child_scan conn sas : newest_child conn sas = fold_left newer_child (installed_children conn sas) None.
Proof.
  unfold newest_child, installed_children. generalize (None : option ChildSA) as best.
  induction sas as [|sa sas IH]; intros best; [done|]. cbn [fold_left flat_map].
  rewrite fold_left_app, IH. by destruct (String.eqb (sa_Name sa) conn).
Qed.

Lemma find_state_spec spi ifid states st :
  find_state spi ifid states = Some st → st ∈ states ∧ xs_SPI st = spi ∧ xs_IfID st = ifid.
Proof.
  induction states as [|x states IH]; cbn; [done|]. destruct (_ || _) eqn:E; [intros (? & ? & ?)%IH; split_and!; [by right|done..]|].
  intros [= ->]. apply orb_false_iff in E as [E1 E2]. zbool. split_and!; [by left|lia..].
Qed.

(** A loss that is reported is that of the newest installed CHILD_SA of the
    connection, read from a kernel state with its SPI and interface; it is what
    the highest sequence number exceeds the packets by, and never negative. *)
Theorem loss_is_newest conn sas states l :
  Forall (λ st, is_u32 (xs_ReplaySeq st) ∧ is_u64 (xs_Packets st)) states →
  loss_of conn sas (Ok states) = Ok l →
  ∃ child st, newest ch_UniqueID (λ c, String.eqb (ch_State c) ChildStateInstalled = true) (installed_children conn sas) child
    ∧ st ∈ states ∧ xs_SPI st = ls_SPI l ∧ parse_uint 16 32 (ch_SPIIn child) = (ls_SPI l, true) ∧ xs_IfID st = ch_IfIDIn child
    ∧ xs_HasReplay st = true
    ∧ ls_Lost l = Z.max 0 (xs_ReplaySeq st - xs_Packets st) ∧ 0 ≤ ls_Lost l ≤ ls_HighestSeq l
    ∧ ls_HighestSeq l ≤ ls_Received l + ls_Lost l.
Proof.
  intros HF. unfold loss_of. rewrite newest_child_scan.
  pose proof (scan_newest ch_UniqueID (λ c, String.eqb (ch_State c) ChildStateInstalled) newer_child
    ltac:(done) (installed_children conn sas)) as Hn.
  destruct (fold_left newer_child _ None) as [child|]; [|done].
  destruct (parse_uint 16 32 (ch_SPIIn child)) as [spi [|]] eqn:Ep; [|done]. cbn [res_bind].
  destruct (find_state spi (ch_IfIDIn child) states) as [st|] eqn:Ef; [|done].
  apply find_state_spec in Ef as (Hin & <- & Hif). destruct (xs_HasReplay st) eqn:Hr; [|done]. cbn [negb]. intros [= <-].
  rewrite Forall_forall in HF. destruct (HF st Hin) as [[H1 H2] [H3 H4]].
  exists child, st. split_and!; try done; cbn; destruct (Z.gtb_spec (xs_ReplaySeq st) (xs_Packets st));
    unfold wrap; rewrite ?Z.mod_small; lia.
Qed.

Module WaitDemo.

Definition child (id : Z) (state spi : string) : ChildSA :=
  mkChildSA "egressa-a-e1" id state "TUNNEL" "ESP" spi "c0ffee02" 42 42 "AES_GCM_16" 0 0 0 0 0 [] [].
Definition ike (id : Z) (state : string) (cs : list ChildSA) : IKESA :=
  mkIKESA "egressa-a" id state "" "" "" "" true "" "" "" 0 cs.
Definition sas : list IKESA :=
  [ike 1 IKEStateEstablished [child 11 ChildStateInstalled "00000bad"; child 13 "REKEYED" "00000bae"];
   ike 2 IKEStateEstablished [child 12 ChildStateInstalled "c0ffee01"]].
Definition state (spi seq packets : Z) : XfrmState := mkXfrm noAddr noAddr spi 42 packets 0 seq true.

(** A query that fails, an event of another connection, then a warm SA. *)
Definition trace : list observation :=
  [(Tick, Err (ErrText "broken pipe")); (Received (mkEvent EventIKEUpDown true None), Ok sas); (EventsClosed, Ok sas); (Tick, Ok sas)].
Example warm_in_the_end : WaitWarm "egressa-a" (Ok []) trace = Some (Ok (ike 2 IKEStateEstablished [child 12 ChildStateInstalled "c0ffee01"])).
Proof. by vm_compute. Qed.

Lemma loss_is_newest_witness :
  ∃ child st, newest ch_UniqueID (λ c, String.eqb (ch_State c) ChildStateInstalled = true) (installed_children "egressa-a" sas) child
    ∧ st ∈ [state 12648429 100 90; state 3237998081 100 90] ∧ xs_SPI st = 3237998081 ∧ parse_uint 16 32 (ch_SPIIn child) = (3237998081, true)
    ∧ xs_IfID st = ch_IfIDIn child ∧ xs_HasReplay st = true
    ∧ 10 = Z.max 0 (xs_ReplaySeq st - xs_Packets st) ∧ 0 ≤ 10 ≤ 100 ∧ 100 ≤ 90 + 10.
Proof.
  apply (loss_is_newest "egressa-a" sas [state 12648429 100 90; state 3237998081 100 90] (mkLoss 3237998081 100 90 10));
    [by repeat (apply Forall_cons; split; [by vm_compute|])|by vm_compute].
Defined.

End WaitDemo.
