(* ===== verification/ClientAgent.v ===== *)
(** * The client agent: internal/client/agent.go

    The agent keeps the session it has with the controller, a WireGuard peer
    with every access gateway, and the paths it could use; each pass builds the
    paths, asks the decider (Decider) and the controller, and adopts what the
    controller commits. The device, the routes, the path monitor, the IPsec
    plane and the clock are a class of calls on an abstract world. Logs, metrics,
    spans and the status file are left out.

    The theorems: the session is always one the controller committed and never
    goes back, and the device stamps its epoch; while no switch fails the
    default route is with the session's access gateway; a migration is asked for
    only onto a path that answers. *)

From S2P Require Import Prelude Netip GoFloat Cost Services FlapGuard Decider Api.
Import Membership Policy.

Definition DefaultMTU : Z := 1380.
Definition DefaultDeadAfter : Duration := 3 * Second.
Definition peerKeepalive : Duration := 10 * Second.
Definition maxLinkStaleness : Duration := 10 * Second.
(** measurement.DefaultSegmentTrackerConfig.StalenessHalfLife *)
Definition StalenessHalfLife : Duration := 30 * Second.

Record AgentConfig := mkAgentConfig {
  ac_Interface : string;
  ac_Egress : string;
  ac_FullTunnel : bool;
  ac_Bypass : list Addr;
  ac_MTU : Z;
  ac_DeadAfter : Duration;
  ac_Backend : string;
  ac_hasIPsec : bool;
}.

(** [New]: what it refuses and the defaults it sets. *)
Definition New (cfg : AgentConfig) (hasController : bool) (stateFile : string) : res string AgentConfig :=
  if negb hasController || String.eqb stateFile "" || String.eqb (ac_Interface cfg) ""
  then Err "a controller, a state file and an interface name are required"%string
  else if negb (ValidBackend (ac_Backend cfg)) then Err "unknown backend"%string
  else if String.eqb (ac_Backend cfg) BackendIPsec && negb (ac_hasIPsec cfg) then Err "the IPsec backend needs charon"%string
  else Ok (mkAgentConfig (ac_Interface cfg) (ac_Egress cfg) (ac_FullTunnel cfg) (ac_Bypass cfg)
             (if ac_MTU cfg =? 0 then DefaultMTU else ac_MTU cfg)
             (if ac_DeadAfter cfg <=? 0 then DefaultDeadAfter else ac_DeadAfter cfg) (ac_Backend cfg) (ac_hasIPsec cfg)).

Record pendingMigration := mkPending { pm_toEpoch : Z; pm_cause : string; pm_start : Time }.

(** The fields behind the mutex, and [controllerUp]. *)
Record agent := mkAgent {
  a_session : ApiSession;
  a_gateways : list Gateway;
  a_links : gmap (string * string) Link;
  a_decider : Decider;
  a_peers : gmap string Gateway;
  a_bypass : gset Addr;
  a_since : Time;
  a_pending : option pendingMigration;
  a_up : bool;
}.
Definition set_a_view gws links d a := mkAgent (a_session a) gws links d (a_peers a) (a_bypass a) (a_since a) (a_pending a) (a_up a).
Definition set_a_peers f a := mkAgent (a_session a) (a_gateways a) (a_links a) (a_decider a) (f (a_peers a)) (a_bypass a) (a_since a) (a_pending a) (a_up a).
Definition set_a_bypass f a := mkAgent (a_session a) (a_gateways a) (a_links a) (a_decider a) (a_peers a) (f (a_bypass a)) (a_since a) (a_pending a) (a_up a).
Definition set_a_decider d a := mkAgent (a_session a) (a_gateways a) (a_links a) d (a_peers a) (a_bypass a) (a_since a) (a_pending a) (a_up a).
Definition set_a_pending p a := mkAgent (a_session a) (a_gateways a) (a_links a) (a_decider a) (a_peers a) (a_bypass a) (a_since a) p (a_up a).
Definition set_a_up b a := mkAgent (a_session a) (a_gateways a) (a_links a) (a_decider a) (a_peers a) (a_bypass a) (a_since a) (a_pending a) b.
Definition set_a_session sess now a :=
  mkAgent sess (a_gateways a) (a_links a) (Reset now (a_decider a)) (a_peers a) (a_bypass a) now None (a_up a).

Record RouteInfo := mkRouteInfo { ri_Gateway : Addr; ri_Interface : string }.

(** What the agent calls. A call that can fail says whether it succeeded. *)
Class AgentEnv (W : Type) := {
  time_Now : W → Time;
  AddPeer : string → list Prefix → string → Duration → W → bool * W;
  SetEpoch : Z → W → W;
  CurrentRoute : Addr → W → option RouteInfo;
  AddBypassRoute : Addr → RouteInfo → W → bool * W;
  RemoveBypassRoute : Addr → W → W;
  mon_Set : gmap string (Addr * Z) → W → W;
  mon_Stats : string → W → option (SegmentStats * Time);
  ip_sync : list Gateway → W → W;
  ip_activate : string → Z → W → W;
}.

Section agent.
Context {W : Type} {AE : AgentEnv W} {NP : NetParse} {GM : GoMath}.
(** [original] is the route outside the tunnel as [Run] found it. *)
Context (cfg : AgentConfig) (original : RouteInfo).

Record ast := mkAst { as_a : agent; as_w : W }.
Definition on_a (f : agent → agent) (s : ast) : ast := mkAst (f (as_a s)) (as_w s).
Definition on_w (f : W → W) (s : ast) : ast := mkAst (as_a s) (f (as_w s)).

(** Whether the data plane is IPsec: [a.ip != nil]. *)
Definition ipsec_mode : bool := String.eqb (ac_Backend cfg) BackendIPsec.

Definition usableAccess (g : Gateway) : bool :=
  Has (g_Roles g) RoleAccess && (negb (String.eqb (ac_Backend cfg) BackendIPsec) || g_IPsec g).

Definition addBypass (host : Addr) (s : ast) : ast :=
  if negb (ac_FullTunnel cfg) || bool_decide (host ∈ a_bypass (as_a s)) then s else
  let via := match CurrentRoute host (as_w s) with
             | Some r => if negb (String.eqb (ri_Interface r) (ac_Interface cfg)) then r else original
             | None => original
             end in
  if String.eqb (ri_Interface via) "" then s else
  let '(ok, w) := AddBypassRoute host via (RemoveBypassRoute host (as_w s)) in
  if (ok : bool) then mkAst (set_a_bypass (λ b, {[host]} ∪ b) (as_a s)) w else mkAst (as_a s) w.

Definition defaultPrefix : Prefix := mkPrefix (Addr4 0) 0.
Definition nodePrefix (g : Gateway) : Prefix := mkPrefix (g_NodeIP g) 32.

Definition configurePeerLocked (g : Gateway) (active : bool) (w : W) : bool * W :=
  if negb (base64_32 (g_PublicKey g)) then (false, w)
  else AddPeer (g_PublicKey g) (nodePrefix g :: (if active then [defaultPrefix] else [])) (g_Endpoint g) peerKeepalive w.

(** ** [update]: the loop over the gateways, and the rest of the locked part *)

Definition same_peer (old g : Gateway) : bool :=
  String.eqb (g_PublicKey old) (g_PublicKey g) && String.eqb (g_Endpoint old) (g_Endpoint g)
  && bool_decide (g_NodeIP old = g_NodeIP g).

Definition update_gateway (g : Gateway) (s : ast) : ast :=
  if negb (usableAccess g) || ipsec_mode then s
  else if match a_peers (as_a s) !! g_ID g with Some old => same_peer old g | None => false end then s
  else
    let s := match Host g with Some host => addBypass host s | None => s end in
    let '(ok, w) := configurePeerLocked g (String.eqb (g_ID g) (s_Access (a_session (as_a s)))) (as_w s) in
    if (ok : bool) then mkAst (set_a_peers (<[g_ID g := g]>) (as_a s)) w else mkAst (as_a s) w.

Definition link_map (ls : list Link) : gmap (string * string) Link :=
  fold_left (λ m l, <[(l_From l, l_To l) := l]> m) ls ∅.

Definition update_locked (st : ClientState) (s : ast) : ast :=
  let d := if negb (Version (cl_Policy st) =? Version (policy (a_decider (as_a s))))
           then NewDecider (cl_Policy st) (time_Now (as_w s)) else a_decider (as_a s) in
  let s := on_a (set_a_view (cl_Gateways st) (link_map (cl_Links st)) d) s in
  fold_left (λ s g, update_gateway g s) (cl_Gateways st) s.

Definition probe_targets (st : ClientState) : gmap string (Addr * Z) :=
  fold_left (λ m g, if usableAccess g then <[g_ID g := (g_NodeIP g, ProbePort (cl_Network st))]> m else m) (cl_Gateways st) ∅.

(** ** [adopt] *)

Definition adopt_switch (sess old : ApiSession) (s : ast) : ast :=
  if ipsec_mode then
    if String.eqb (s_Access sess) (s_Access old) then s else on_w (ip_activate (s_Access sess) (s_Epoch sess)) s
  else
    let s := on_w (SetEpoch (s_Epoch sess mod 2 ^ 32)) s in
    if String.eqb (s_Access sess) (s_Access old) then s else
    match FindGateway (a_gateways (as_a s)) (s_Access sess) with
    | (_, false) => s
    | (g, true) =>
        let '(ok, w) := configurePeerLocked g true (as_w s) in
        if (ok : bool) then mkAst (set_a_peers (<[g_ID g := g]>) (as_a s)) w else mkAst (as_a s) w
    end.

Definition adopt (sess : ApiSession) (s : ast) : ast :=
  let old := a_session (as_a s) in
  if s_Epoch sess <=? s_Epoch old then s else
  let s := adopt_switch sess old s in
  on_a (set_a_session sess (time_Now (as_w s))) s.

(** [update], with nothing in between. *)
Definition update (st : ClientState) (s : ast) : ast :=
  let s := update_locked st s in
  let s := if ipsec_mode then on_w (ip_sync (filter (λ g, usableAccess g = true) (cl_Gateways st))) s else s in
  let s := on_w (mon_Set (probe_targets st)) s in
  adopt (cl_Session st) s.

(** ** [paths] *)

Definition access_stats (acc : Gateway) (w : W) : SegmentStats * Time * bool :=
  match mon_Stats (g_ID acc) w with Some (st, t) => (st, t, true) | None => (zeroStats, zero_time, false) end.

Definition access_reachable (now : Time) (acc : Gateway) (w : W) : bool :=
  let '(st, last, ok) := access_stats acc w in
  ok && (N st >? 0) && (time_Sub now last <=? ac_DeadAfter cfg).

(** The link a path crosses, and whether it counts as measured. *)
Definition path_link (acc eg : Gateway) (a : agent) : option SegmentStats :=
  match a_links a !! (g_ID acc, g_ID eg) with
  | None => None
  | Some l =>
      if l_Staleness l >? maxLinkStaleness then None
      else let st := l_Stats l in
           Some (mkStats (P50Micros st) (P95Micros st) (LossRate st) (VarianceMicros2 st) (N st)
                   (i64 (Age st + l_Staleness l))
                   (fmul (Confidence st) (math_Exp2 (fdiv (fneg (of_int (l_Staleness l))) (of_int StalenessHalfLife)))))
  end.

Definition egress_eligible (a : agent) (eg : Gateway) : bool :=
  Has (g_Roles eg) RoleEgress && (g_Alive eg || String.eqb (g_ID eg) (s_Egress (a_session a))).

Definition path_of (now : Time) (acc eg : Gateway) (a : agent) (w : W) : Path :=
  let '(st, _, _) := access_stats acc w in
  let reachable := access_reachable now acc w in
  if String.eqb (g_ID acc) (g_ID eg) then mkPath (g_ID acc) (g_ID eg) [st] reachable
  else match path_link acc eg a with
       | Some l => mkPath (g_ID acc) (g_ID eg) [st; l] reachable
       | None => mkPath (g_ID acc) (g_ID eg) [st; zeroStats] false
       end.

(** One turn of the outer loop. *)
Definition paths_step (now : Time) (a : agent) (w : W) (acc : list Path * bool) (g : Gateway) : list Path * bool :=
  let '(ps, dead) := acc in
  if negb (usableAccess g) then (ps, dead) else
  let '(_, lastReply, _) := access_stats g w in
  let dead := if String.eqb (g_ID g) (s_Access (a_session a)) then
                let last := if time_Before lastReply (a_since a) then a_since a else lastReply in
                time_Sub now last >? ac_DeadAfter cfg
              else dead in
  (ps ++ ((λ eg, path_of now g eg a w) <$> filter (λ eg, egress_eligible a eg = true) (a_gateways a)), dead).

Definition paths (now : Time) (s : ast) : list Path * bool :=
  fold_left (paths_step now (as_a s) (as_w s)) (a_gateways (as_a s)) ([], false).

(** ** [decideOnce] *)

(** The locked part: what is asked of the controller, if anything. *)
Definition decide_locked (now : Time) (ps : list Path) (dead : bool) (s : ast) : option (MigrateRequest * string) * ast :=
  let sess := a_session (as_a s) in
  let '(d, dec) := Decide now (s_Access sess) (s_Egress sess) ps dead (a_decider (as_a s)) in
  let s := on_a (set_a_decider d) s in
  if Migrate dec then
    (Some (mkMigrate (s_Epoch sess) (dec_Access dec) (dec_Egress dec), Cause dec),
     on_a (set_a_pending (Some (mkPending (u64 (s_Epoch sess + 1)) (Cause dec) now))) s)
  else (None, s).

(** What a request to the controller can come back with. *)
Inductive answer := Committed (sess : ApiSession) | Conflict (current : ApiSession) | StatusError (code : Z) | Unreachable.

Definition noteController (ans : answer) (s : ast) : ast :=
  on_a (set_a_up (match ans with Unreachable => false | _ => true end)) s.
Definition clearPending (s : ast) : ast := on_a (set_a_pending None) s.

Definition decide_answer (ans : answer) (s : ast) : ast :=
  let s := noteController ans s in
  match ans with
  | Conflict current => adopt current (clearPending s)
  | Committed next => adopt next s
  | StatusError _ | Unreachable => clearPending s
  end.

(** One pass with nothing in between; [ask] is the controller. *)
Definition decideOnce (ask : MigrateRequest → answer) (s : ast) : ast :=
  let now := time_Now (as_w s) in
  let '(ps, dead) := paths now s in
  match decide_locked now ps dead s with
  | (None, s) => s
  | (Some (req, _), s) => decide_answer (ask req) s
  end.

(** The loop of [open]: the answers of the controller one after another, until
    one ends it; [Ok] is the session, with the file to save. *)
Fixpoint open_loop (answers : list (res (option Z) CreateSessionResponse)) : option (res string CreateSessionResponse) :=
  match answers with
  | [] => None
  | Ok resp :: _ => Some (Ok resp)
  | Err (Some code) :: l => if code / 100 =? 4 then Some (Err "the controller refused the session"%string) else open_loop l
  | Err None :: l => open_loop l
  end.

End agent.
Arguments ast : clear implicits.

(** ** What the device keeps *)

(** The epoch it stamps, and the peer each allowed prefix is with: WireGuard
    keeps a prefix on one peer only. A call that fails fails on the endpoint,
    which comes before the prefixes. *)
Record device := mkDevice { dv_epoch : Z; dv_routes : gmap Prefix string }.

Definition give (key : string) (allowed : list Prefix) (m : gmap Prefix string) : gmap Prefix string :=
  fold_left (λ m p, <[p := key]> m) allowed m.

Class AgentEnvLaws (W : Type) `{AgentEnv W} := {
  dev : W → device;
  AddPeer_dev : ∀ key allowed ep ka w ok w', AddPeer key allowed ep ka w = (ok, w') →
    dev w' = if ok : bool then mkDevice (dv_epoch (dev w)) (give key allowed (dv_routes (dev w))) else dev w;
  SetEpoch_dev : ∀ e w, dev (SetEpoch e w) = mkDevice e (dv_routes (dev w));
  AddBypassRoute_dev : ∀ h r w, dev (AddBypassRoute h r w).2 = dev w;
  RemoveBypassRoute_dev : ∀ h w, dev (RemoveBypassRoute h w) = dev w;
  mon_Set_dev : ∀ t w, dev (mon_Set t w) = dev w;
  ip_sync_dev : ∀ l w, dev (ip_sync l w) = dev w;
  ip_activate_dev : ∀ i e w, dev (ip_activate i e w) = dev w;
}.

Section client.
Context {W : Type} {AE : AgentEnv W} {AL : AgentEnvLaws W} {NP : NetParse} {GM : GoMath}.
Context (cfg : AgentConfig) (original : RouteInfo).
Implicit Types (s : ast W) (sess : ApiSession).

Abbreviation adopt := (adopt cfg).
Abbreviation update_locked := (update_locked cfg original).
Abbreviation paths := (paths cfg).

(** *** Steps that leave session and device alone *)

Lemma addBypass_same h s : let s' := addBypass cfg original h s in
  a_session (as_a s') = a_session (as_a s) ∧ a_peers (as_a s') = a_peers (as_a s) ∧ dev (as_w s') = dev (as_w s).
Proof.
  unfold addBypass. destruct (_ || _); [done|]. set (via := match _ with Some _ => _ | None => _ end). clearbody via.
  destruct (String.eqb (ri_Interface via) ""); [done|].
  pose proof (AddBypassRoute_dev h via (RemoveBypassRoute h (as_w s))) as H.
  rewrite RemoveBypassRoute_dev in H. destruct (AddBypassRoute _ _ _) as [[|] w]; done.
Qed.

Lemma configurePeerLocked_dev g active w ok w' :
  configurePeerLocked g active w = (ok, w') →
  dev w' = if ok : bool then mkDevice (dv_epoch (dev w))
                               (give (g_PublicKey g) (nodePrefix g :: (if active then [defaultPrefix] else [])) (dv_routes (dev w)))
           else dev w.
Proof. unfold configurePeerLocked. destruct (negb _); [by intros [= <- <-]|]. apply AddPeer_dev. Qed.

Lemma give_default g (active : bool) m :
  give (g_PublicKey g) (nodePrefix g :: (if active then [defaultPrefix] else [])) m !! defaultPrefix
  = if active then Some (g_PublicKey g) else m !! defaultPrefix.
Proof.
  destruct active; cbn; [apply lookup_insert_eq|]. rewrite lookup_insert_ne; [done|]. unfold nodePrefix, defaultPrefix. by intros [=].
Qed.

(** *** The default route *)

(** The default route is with the session's access, if that is a peer. *)
Definition routed s : Prop :=
  ∀ g, a_peers (as_a s) !! s_Access (a_session (as_a s)) = Some g → dv_routes (dev (as_w s)) !! defaultPrefix = Some (g_PublicKey g).

Lemma update_gateway_same g s : let s' := update_gateway cfg original g s in
  a_session (as_a s') = a_session (as_a s) ∧ dv_epoch (dev (as_w s')) = dv_epoch (dev (as_w s))
  ∧ (routed s → routed s').
Proof.
  unfold update_gateway. destruct (_ || _); [done|]. destruct (match a_peers (as_a s) !! g_ID g with Some _ => _ | None => _ end); [done|].
  set (s1 := match Host g with Some host => addBypass cfg original host s | None => s end).
  assert (a_session (as_a s1) = a_session (as_a s) ∧ a_peers (as_a s1) = a_peers (as_a s) ∧ dev (as_w s1) = dev (as_w s)) as (E1 & E2 & E3).
  { unfold s1. destruct (Host g); [apply addBypass_same|done]. }
  destruct (configurePeerLocked _ _ _) as [ok w] eqn:Ec. apply configurePeerLocked_dev in Ec. rewrite E3 in Ec.
  destruct ok; cbn; rewrite Ec; cbn [dv_epoch]; (split_and!; [done..|]).
  - unfold routed. cbn. rewrite Ec, E1, E2. cbn [dv_routes]. rewrite give_default. intros H g'.
    destruct (String.eqb_spec (g_ID g) (s_Access (a_session (as_a s)))) as [->|Hne].
    + rewrite lookup_insert_eq. by intros [= <-].
    + rewrite lookup_insert_ne by done. apply H.
  - unfold routed. cbn. by rewrite Ec, E1, E2.
Qed.

Lemma update_locked_same st s : let s' := update_locked st s in
  a_session (as_a s') = a_session (as_a s) ∧ dv_epoch (dev (as_w s')) = dv_epoch (dev (as_w s)) ∧ (routed s → routed s').
Proof.
  unfold ClientAgent.update_locked. set (d := if negb _ then _ else _). clearbody d.
  set (s1 := on_a _ s). assert (a_session (as_a s1) = a_session (as_a s) ∧ dev (as_w s1) = dev (as_w s) ∧ (routed s → routed s1)) as (E1 & E2 & E3) by done.
  clearbody s1. rewrite <- E1, <- E2.
  assert (∀ l s1, let s' := fold_left (λ s g, update_gateway cfg original g s) l s1 in
    a_session (as_a s') = a_session (as_a s1) ∧ dv_epoch (dev (as_w s')) = dv_epoch (dev (as_w s1)) ∧ (routed s1 → routed s')) as Hl.
  { clear. induction l as [|g l IH]; intros s1; [done|]. cbn [fold_left].
    destruct (IH (update_gateway cfg original g s1)) as (-> & -> & H). destruct (update_gateway_same g s1) as (-> & -> & H').
    split_and!; [done..|]. auto. }
  destruct (Hl (cl_Gateways st) s1) as (-> & -> & H). auto.
Qed.

(** What [adopt] does: nothing, unless the session is newer. *)
Lemma adopt_spec sess s :
  let s' := adopt sess s in
  (s_Epoch sess ≤ s_Epoch (a_session (as_a s)) → s' = s)
  ∧ (s_Epoch (a_session (as_a s)) < s_Epoch sess →
     a_session (as_a s') = sess
     ∧ (ipsec_mode cfg = false → dv_epoch (dev (as_w s')) = s_Epoch sess mod 2 ^ 32)).
Proof.
  unfold ClientAgent.adopt. destruct (Z.leb_spec (s_Epoch sess) (s_Epoch (a_session (as_a s)))); (split; [try lia; done|]); [lia|].
  intros _. cbn. split; [done|]. intros Hip. unfold adopt_switch. rewrite Hip.
  destruct (String.eqb _ _); [cbn; by rewrite SetEpoch_dev|].
  destruct (FindGateway _ _) as [g [|]]; [|cbn; by rewrite SetEpoch_dev].
  destruct (configurePeerLocked _ _ _) as [ok w] eqn:Ec. apply configurePeerLocked_dev in Ec. cbn in Ec. rewrite SetEpoch_dev in Ec.
  destruct ok; cbn; by rewrite Ec.
Qed.

(** A switch that works: the access stays, or is not a peer yet, or is found and
    configured. *)
Definition switches sess s : Prop :=
  s_Access sess = s_Access (a_session (as_a s))
  ∨ a_peers (as_a s) !! s_Access sess = None
  ∨ ∃ g w, FindGateway (a_gateways (as_a s)) (s_Access sess) = (g, true)
           ∧ configurePeerLocked g true (SetEpoch (s_Epoch sess mod 2 ^ 32) (as_w s)) = (true, w).

Lemma adopt_routed sess s : ipsec_mode cfg = false → switches sess s → routed s → routed (adopt sess s).
Proof.
  intros Hip Hsw Hr. unfold ClientAgent.adopt. destruct (s_Epoch sess <=? _); [done|]. unfold adopt_switch. rewrite Hip.
  destruct (String.eqb_spec (s_Access sess) (s_Access (a_session (as_a s)))) as [E|E].
  { unfold routed. cbn. rewrite SetEpoch_dev, E. exact Hr. }
  destruct Hsw as [?|[Hn|(g & w & Hf & Hc)]]; [done| |].
  - destruct (FindGateway (a_gateways (as_a (on_w _ s))) (s_Access sess)) as [g [|]] eqn:Hf;
      [|unfold routed; cbn; rewrite Hn; done].
    apply FindGateway_true in Hf as [_ Hid]. cbn [as_w on_w].
    destruct (configurePeerLocked g true _) as [[|] w] eqn:Hc.
    + apply configurePeerLocked_dev in Hc. unfold routed. cbn. rewrite Hid, lookup_insert_eq. intros g' [= <-]. rewrite Hc. cbn. apply lookup_insert_eq.
    + unfold routed. cbn. by rewrite Hn.
  - cbn [as_a on_w as_w]. rewrite Hf, Hc. apply FindGateway_true in Hf as [_ Hid]. apply configurePeerLocked_dev in Hc.
    unfold routed. cbn. rewrite Hid, lookup_insert_eq. intros g' [= <-]. rewrite Hc. cbn. apply lookup_insert_eq.
Qed.

(** ** Runs *)

(** The locked sections of the agent, in any order and with any data: states of
    the controller in [update], sessions it committed in [adopt], paths measured
    at any time in [decideOnce], and the world moving on. [ok] says which
    adoptions there are. *)
Inductive astep (ok : ApiSession → ast W → Prop) : ast W → ast W → Prop :=
| step_update st s : astep ok s (update_locked st s)
| step_adopt sess s : ok sess s → astep ok s (adopt sess s)
| step_decide now ps dead s : astep ok s (decide_locked now ps dead s).2
| step_note ans s : astep ok s (noteController ans s)
| step_clear s : astep ok s (clearPending s)
| step_world w s : dev w = dev (as_w s) → astep ok s (mkAst (as_a s) w).

Lemma decide_locked_same now ps dead s : let s' := (decide_locked now ps dead s).2 in
  a_session (as_a s') = a_session (as_a s) ∧ a_peers (as_a s') = a_peers (as_a s) ∧ as_w s' = as_w s.
Proof. unfold decide_locked. destruct (Decide _ _ _ _ _ _) as [d dec]. by destruct (Migrate dec). Qed.

(** C11: in every interleaving of polls, passes and answers, the session the
    client has is one the controller committed, its epoch never goes back, and
    the device stamps that epoch, cut to the header's 32 bits. A session at
    least as new that arrives in any way becomes the client's. *)
Theorem client_follows_controller (committed : Z → option ApiSession) s s' :
  ipsec_mode cfg = false →
  rtc (astep (λ sess _, committed (s_Epoch sess) = Some sess)) s s' →
  committed (s_Epoch (a_session (as_a s))) = Some (a_session (as_a s)) →
  dv_epoch (dev (as_w s)) = s_Epoch (a_session (as_a s)) mod 2 ^ 32 →
  let cur := a_session (as_a s') in
  committed (s_Epoch cur) = Some cur
  ∧ s_Epoch (a_session (as_a s)) ≤ s_Epoch cur
  ∧ dv_epoch (dev (as_w s')) = s_Epoch cur mod 2 ^ 32
  ∧ ∀ sess, committed (s_Epoch sess) = Some sess → s_Epoch cur ≤ s_Epoch sess → a_session (as_a (adopt sess s')) = sess.
Proof.
  intros Hip Hrun Hc Hd.
  assert (let cur := a_session (as_a s') in committed (s_Epoch cur) = Some cur ∧ s_Epoch (a_session (as_a s)) ≤ s_Epoch cur
    ∧ dv_epoch (dev (as_w s')) = s_Epoch cur mod 2 ^ 32) as (H1 & H2 & H3).
  { induction Hrun as [s|s s1 s2 Hs Hrun IH]; [done|].
    assert (committed (s_Epoch (a_session (as_a s1))) = Some (a_session (as_a s1)) ∧ s_Epoch (a_session (as_a s)) ≤ s_Epoch (a_session (as_a s1))
      ∧ dv_epoch (dev (as_w s1)) = s_Epoch (a_session (as_a s1)) mod 2 ^ 32) as (G1 & G2 & G3).
    { destruct Hs as [st s|sess s Hok|now ps dead s|ans s|s|w s Hw]; [..|done|done|by cbn; rewrite Hw].
      - destruct (update_locked_same st s) as (-> & -> & _). done.
      - destruct (adopt_spec sess s) as [Hle Hgt]. destruct (Z.le_gt_cases (s_Epoch sess) (s_Epoch (a_session (as_a s)))) as [Hl|Hl];
          [by rewrite Hle|]. destruct (Hgt Hl) as [-> He]. split_and!; [done|lia|by apply He].
      - destruct (decide_locked_same now ps dead s) as (-> & _ & ->). done. }
    destruct (IH G1 G3) as (? & ? & ?). split_and!; [done|lia|done]. }
  split_and!; [done..|]. intros sess Hok Hle. destruct (adopt_spec sess s') as [Hsame Hgt].
  destruct (Z.eq_dec (s_Epoch sess) (s_Epoch (a_session (as_a s')))) as [E|E]; [|apply Hgt; lia].
  rewrite Hsame by lia. rewrite E, H1 in Hok. by injection Hok.
Qed.

(** While every switch works, the device's default route is with the
    session's access gateway whenever that gateway is a peer, whatever the
    controller reports in between. *)
Theorem default_route_follows_access s s' :
  ipsec_mode cfg = false → rtc (astep switches) s s' → routed s → routed s'.
Proof.
  intros Hip. induction 1 as [s|s s1 s2 Hs Hrun IH]; [done|]. intros Hr. apply IH.
  destruct Hs as [st s|sess s Hok|now ps dead s|ans s|s|w s Hw]; [..|done|done|].
  - by apply update_locked_same.
  - by apply adopt_routed.
  - unfold routed. destruct (decide_locked_same now ps dead s) as (-> & -> & ->). exact Hr.
  - unfold routed. cbn. rewrite Hw. exact Hr.
Qed.

(** ** What the paths are *)

Lemma paths_fold now a (w : W) l acc dead :
  let r := fold_left (paths_step cfg now a w) l (acc, dead) in
  r.1 = acc ++ flat_map (λ g, (λ eg, path_of cfg now g eg a w) <$> filter (λ eg, egress_eligible a eg = true) (a_gateways a))
                 (filter (λ g, usableAccess cfg g = true) l)
  ∧ (r.2 = true → dead = true ∨ ∃ g, g ∈ l ∧ usableAccess cfg g = true ∧ g_ID g = s_Access (a_session a)
       ∧ time_Sub now (Z.max (access_stats g w).1.2 (a_since a)) > ac_DeadAfter cfg).
Proof.
  revert acc dead. induction l as [|g l IH]; intros acc dead; cbn [fold_left].
  { split; [by rewrite app_nil_r|]. by left. }
  unfold paths_step at 2 4. destruct (usableAccess cfg g) eqn:Eu; cbn [negb].
  2:{ rewrite filter_cons_False by congruence. destruct (IH acc dead) as [-> H2]. split; [done|].
      intros H%H2. destruct H as [?|(g' & ? & H)]; [by left|]. right. exists g'. split; [by right|done]. }
  rewrite filter_cons_True by done. cbn [flat_map]. rewrite app_assoc.
  destruct (access_stats g w) as [[st last] ok] eqn:Es.
  match goal with |- context [fold_left _ l (?x, ?y)] => destruct (IH x y) as [-> H2] end. split; [done|].
  intros H%H2. destruct H as [Hd|(g' & ? & H)]; [|right; exists g'; split; [by right|done]].
  destruct (String.eqb_spec (g_ID g) (s_Access (a_session a))) as [E|E]; [|by left]. right. exists g. split_and!; [by left|done..|].
  rewrite Es. cbn. unfold time_Before in Hd. destruct (Z.ltb_spec last (a_since a)); zbool;
    [rewrite Z.max_r by lia|rewrite Z.max_l by lia]; lia.
Qed.

(** The paths are through each usable access gateway to each eligible egress. *)
Lemma elem_of_paths now s p :
  p ∈ (paths now s).1 ↔ ∃ acc eg, acc ∈ a_gateways (as_a s) ∧ eg ∈ a_gateways (as_a s) ∧ usableAccess cfg acc = true
    ∧ egress_eligible (as_a s) eg = true ∧ p = path_of cfg now acc eg (as_a s) (as_w s).
Proof.
  unfold ClientAgent.paths. destruct (paths_fold now (as_a s) (as_w s) (a_gateways (as_a s)) [] false) as [-> _]. cbn [app].
  rewrite list_elem_of_In, in_flat_map. split.
  - intros (acc & [Hu Hacc]%list_elem_of_In%list_elem_of_filter & (eg & -> & [He Heg]%list_elem_of_filter)%list_elem_of_In%list_elem_of_fmap). eauto 10.
  - intros (acc & eg & Hacc & Heg & Hu & He & ->). exists acc. split; [by apply list_elem_of_In, list_elem_of_filter|].
    apply list_elem_of_In, list_elem_of_fmap. exists eg. split; [done|]. by apply list_elem_of_filter.
Qed.

(** A decision to migrate is to a path that answers. *)
Lemma Decide_target now access egress ps dead d d' dec :
  Decide now access egress ps dead d = (d', dec) → Migrate dec = true →
  ∃ p, p ∈ ps ∧ Reachable p = true ∧ dec_Access dec = pa_Access p ∧ dec_Egress dec = pa_Egress p.
Proof.
  unfold Decide. destruct (decide_path now access egress ps dead d) as [d1 dec1] eqn:Ed. intros [= <- <-]. cbn.
  intros Hm. cut (∃ p, p ∈ ps ∧ Reachable p = true ∧ dec_Access dec1 = pa_Access p ∧ dec_Egress dec1 = pa_Egress p); [done|].
  assert (∀ d keep p, cheapest d ps keep = Some p → p ∈ ps ∧ Reachable p = true) as Hch.
  { intros d0 keep p E. pose proof (cheapest_spec d0 ps keep) as H. rewrite E in H. by destruct H as (? & (? & _) & _). }
  unfold decide_path in Ed. destruct dead.
  - unfold decide_dead in Ed.
    assert (∀ d0, match cheapest d0 ps (λ p, negb (bool_decide (pa_Egress p = egress))) with
      | Some p => (d0, move p (ChangingEgress egress) CauseEgressChange (evals d ps))
      | None => (d0, noMove NothingAnswers OutcomeNoAlternative (evals d ps)) end = (d1, dec1) →
      ∃ p, p ∈ ps ∧ Reachable p = true ∧ dec_Access dec1 = pa_Access p ∧ dec_Egress dec1 = pa_Egress p) as Hce.
    { intros d0. destruct (cheapest d0 ps _) as [p|] eqn:E; intros [= <- <-]; [|done]. exists p. by destruct (Hch _ _ _ E). }
    destruct (cheapest d ps (other access egress)) as [p|] eqn:E; [|by eapply Hce].
    destruct (ShouldCutover _ _ _ _ _) as [f [|]]; [|by eapply Hce]. injection Ed as <- <-. exists p. by destruct (Hch _ _ _ E).
  - unfold decide_live in Ed. destruct (list_find _ ps) as [[i cur]|]; [|by injection Ed as <- <-].
    destruct (best_loop d access egress cur 0 ps None (evals d ps)) as [best evs] eqn:Eb.
    destruct best as [[p bd]|]; [|by injection Ed as <- <-]. destruct (md_Migrate bd); cbn [negb] in Ed; [|by injection Ed as <- <-].
    destruct (ShouldCutover _ _ _ _ _) as [f [|]]; [|by injection Ed as <- <-]. injection Ed as <- <-.
    destruct (best_loop_contender d access egress cur 0 ps None (evals d ps) [] ltac:(done) p bd) as [Hin (Hr & _)]; [by rewrite Eb|].
    exists p. cbn in Hin. done.
Qed.

(** A pass asks the controller for a migration only onto a path it has
    evidence for: the access gateway takes this client and has answered a probe
    within [DeadAfter], the egress gateway is alive or is the session's own, and
    between two gateways there is a backbone measurement the controller had
    fresh within [maxLinkStaleness]. It asks at the epoch of the session it
    looked at. *)
Theorem migrates_onto_answering_path now s s1 req cause s2 :
  let '(ps, dead) := paths now s in
  decide_locked now ps dead s1 = (Some (req, cause), s2) →
  m_Epoch req = s_Epoch (a_session (as_a s1))
  ∧ ∃ acc eg st last, acc ∈ a_gateways (as_a s) ∧ eg ∈ a_gateways (as_a s)
    ∧ m_Access req = g_ID acc ∧ m_Egress req = g_ID eg
    ∧ usableAccess cfg acc = true ∧ mon_Stats (g_ID acc) (as_w s) = Some (st, last) ∧ N st > 0 ∧ time_Sub now last ≤ ac_DeadAfter cfg
    ∧ Has (g_Roles eg) RoleEgress = true ∧ (g_Alive eg = true ∨ g_ID eg = s_Egress (a_session (as_a s)))
    ∧ (g_ID acc = g_ID eg ∨ ∃ l, a_links (as_a s) !! (g_ID acc, g_ID eg) = Some l ∧ l_Staleness l ≤ maxLinkStaleness).
Proof.
  destruct (paths now s) as [ps dead] eqn:Ep. unfold decide_locked.
  destruct (Decide _ _ _ _ _ _) as [d dec] eqn:Ed. destruct (Migrate dec) eqn:Em; [|done]. intros [= <- _ _]. cbn. split; [done|].
  destruct (Decide_target _ _ _ _ _ _ _ _ Ed Em) as (p & Hp & Hr & -> & ->).
  replace ps with (paths now s).1 in Hp by (by rewrite Ep). apply elem_of_paths in Hp as (acc & eg & Hacc & Heg & Hu & He & ->).
  unfold egress_eligible in He. apply andb_true_iff in He as [He1 He2]. apply orb_true_iff in He2 as He2'.
  assert (access_reachable cfg now acc (as_w s) = true ∧
    (g_ID acc = g_ID eg ∨ ∃ l, a_links (as_a s) !! (g_ID acc, g_ID eg) = Some l ∧ l_Staleness l ≤ maxLinkStaleness)) as [Hreach Hlink].
  { unfold path_of in Hr. destruct (access_stats acc (as_w s)) as [[st last] ok].
    destruct (String.eqb_spec (g_ID acc) (g_ID eg)) as [E|E]; [by split; [|left]|].
    destruct (path_link acc eg (as_a s)) eqn:El; [|done]. split; [done|]. right. unfold path_link in El.
    destruct (a_links (as_a s) !! (g_ID acc, g_ID eg)) as [l|]; [|done]. exists l. split; [done|].
    destruct (Z.gtb_spec (l_Staleness l) maxLinkStaleness); [done|lia]. }
  unfold access_reachable, access_stats in Hreach. destruct (mon_Stats (g_ID acc) (as_w s)) as [[st last]|] eqn:Hm; [|done].
  apply andb_true_iff in Hreach as [Hn Ht]. cbn [andb] in Hn. apply Z.gtb_lt in Hn. apply Z.leb_le in Ht.
  assert (pa_Access (path_of cfg now acc eg (as_a s) (as_w s)) = g_ID acc ∧ pa_Egress (path_of cfg now acc eg (as_a s) (as_w s)) = g_ID eg) as [Ea Eg].
  { unfold path_of. destruct (access_stats acc (as_w s)) as [[? ?] ?]. destruct (String.eqb (g_ID acc) (g_ID eg)); [done|]. by destruct (path_link acc eg (as_a s)). }
  exists acc, eg, st, last. split_and!; try done; [lia|].
  destruct He2' as [->|H%String.eqb_eq]; [by left|by right].
Qed.

End client.

Module ClientDemo.

(** A device, the answers of the monitor, and how many calls of AddPeer work. *)
Record world := mkWorld { wd_dev : device; wd_stats : gmap string (SegmentStats * Time); wd_now : Time; wd_fails : list bool }.
Definition add_peer (key : string) (allowed : list Prefix) (w : world) : bool * world :=
  let rest := tail (wd_fails w) in
  if default false (head (wd_fails w)) then (false, mkWorld (wd_dev w) (wd_stats w) (wd_now w) rest)
  else (true, mkWorld (mkDevice (dv_epoch (wd_dev w)) (give key allowed (dv_routes (wd_dev w)))) (wd_stats w) (wd_now w) rest).

#[local] Instance world_env : AgentEnv world := {|
  time_Now := wd_now;
  AddPeer key allowed _ _ w := add_peer key allowed w;
  SetEpoch e w := mkWorld (mkDevice e (dv_routes (wd_dev w))) (wd_stats w) (wd_now w) (wd_fails w);
  CurrentRoute _ _ := None;
  AddBypassRoute _ _ w := (true, w);
  RemoveBypassRoute _ w := w;
  mon_Set _ w := w;
  mon_Stats id w := wd_stats w !! id;
  ip_sync _ w := w;
  ip_activate _ _ w := w;
|}.
#[local] Instance world_laws : AgentEnvLaws world.
Proof.
  refine {| dev := wd_dev |}; try done. intros key allowed ep ka w ok w'. cbn. unfold add_peer.
  destruct (default false (head (wd_fails w))); by intros [= <- <-].
Defined.
#[local] Instance no_parse : NetParse := {| ParseAddrPort _ := None |}.
#[local] Instance some_math : GoMath := {| math_Log x := x; math_Exp2 _ := f1 |}.

Definition config : AgentConfig := mkAgentConfig "wg0" "" false [] 0 DefaultDeadAfter "" false.
Definition keyA : string := "AAAAAAAAAAAAAAAAAAAAAAAAAAAAAAAAAAAAAAAAAAA=".
Definition keyB : string := "BAAAAAAAAAAAAAAAAAAAAAAAAAAAAAAAAAAAAAAAAAA=".
Definition gw (id key : string) (ip : Z) : Gateway := mkGateway id 3 "" key (Addr4 ip) ∅ false true.
Definition session (epoch : Z) (access : string) : ApiSession := mkSession "1" "" (Addr4 99) access "a" epoch "" "".
Definition state (sess : ApiSession) : ClientState :=
  mkCState 1 (mkNetwork (mkPrefix (Addr4 0) 8) (mkPrefix (Addr4 0) 8) 7) sess [gw "a" keyA 1; gw "b" keyB 2]
    [mkLink "b" "a" (mkStats f1 f1 f0 f0 100 0 f1) 0] DefaultPolicyDocument.
Definition good : SegmentStats := mkStats (of_int 20) (of_int 20) f0 f1 1000 0 f1.

Definition start (fails : list bool) : ast world :=
  mkAst (mkAgent (session 1 "a") [] ∅ (NewDecider DefaultPolicyDocument 0) ∅ ∅ 0 None true)
    (mkWorld (mkDevice 1 ∅) {["b" := (good, 10 * Second)]} (11 * Second) fails).
Definition opened (fails : list bool) : ast world := update config (mkRouteInfo AddrInvalid "") (state (session 1 "a")) (start fails).

Definition history (e : Z) : option ApiSession :=
  if e =? 1 then Some (session 1 "a") else if e =? 2 then Some (session 2 "b") else None.

Lemma client_follows_controller_witness :
  a_session (as_a (adopt config (session 2 "b") (update_locked config (mkRouteInfo AddrInvalid "") (state (session 1 "a")) (opened [])))) = session 2 "b".
Proof.
  refine (proj2 (proj2 (proj2 (client_follows_controller config (mkRouteInfo AddrInvalid "") history (opened [])
    (update_locked config (mkRouteInfo AddrInvalid "") (state (session 1 "a")) (opened [])) _ _ _ _))) (session 2 "b") _ _);
    [done|apply rtc_once, step_update|by vm_compute..].
Defined.

(** The access dead, a pass asks for the other gateway, and the answer is adopted. *)
Definition passed : ast world := decideOnce config (λ req, Committed (session (m_Epoch req + 1) (m_Access req))) (opened []).
Example pass_moves : a_session (as_a passed) = session 2 "b" ∧ dv_routes (wd_dev (as_w passed)) !! defaultPrefix = Some keyB.
Proof. by vm_compute. Qed.

Lemma default_route_follows_access_witness :
  routed (adopt config (session 2 "b") (opened [])).
Proof.
  apply (default_route_follows_access config (mkRouteInfo AddrInvalid "") (opened [])); [done| |].
  - apply rtc_once, step_adopt. right. right. eexists _, _. split; [by vm_compute|by vm_compute].
  - intros g. vm_compute. by intros [= <-].
Defined.

Definition pass := decide_locked (wd_now (as_w (opened []))) (paths config (wd_now (as_w (opened []))) (opened [])).1
    (paths config (wd_now (as_w (opened []))) (opened [])).2 (opened []).
Definition asked : MigrateRequest := mkMigrate 1 "b" "a".
Lemma migrates_onto_answering_path_witness :
  ∃ l, a_links (as_a (opened [])) !! ("b"%string, "a"%string) = Some l ∧ l_Staleness l ≤ maxLinkStaleness.
Proof.
  pose proof (migrates_onto_answering_path config (wd_now (as_w (opened []))) (opened []) (opened []) asked CauseAccessDead pass.2) as H.
  unfold pass in H. destruct (paths config _ (opened [])) as [ps dead] eqn:E. apply (f_equal fst) in E as E1. apply (f_equal snd) in E as E2.
  cbn [fst snd] in *. subst ps dead.
  destruct H as (_ & acc & eg & st & last & _ & _ & Ha & He & _ & _ & _ & _ & _ & _ & Hl); [by vm_compute|].
  cbn in Ha, He. rewrite <- Ha, <- He in Hl. destruct Hl as [?|Hl]; [done|exact Hl].
Defined.

(** *** A switch that fails is not tried again

    AddPeer fails once, in [adopt]. The session is with b from then on, the
    default route with a, and no later state of the controller changes that. *)
Definition failed : ast world := adopt config (session 2 "b") (opened [false; false; true]).
Lemma failed_switch_sticks n :
  let s := Nat.iter n (update config (mkRouteInfo AddrInvalid "") (state (session 2 "b"))) failed in
  a_session (as_a s) = session 2 "b" ∧ dv_routes (wd_dev (as_w s)) !! defaultPrefix = Some keyA.
Proof.
  assert (update config (mkRouteInfo AddrInvalid "") (state (session 2 "b")) failed = failed) as Hfix by (by vm_compute).
  cbn zeta. assert (Nat.iter n (update config (mkRouteInfo AddrInvalid "") (state (session 2 "b"))) failed = failed) as ->.
  { induction n as [|n IH]; [done|]. by rewrite Nat.iter_succ, IH. }
  clear. split; vm_compute; reflexivity.
Qed.

End ClientDemo.
