(* ===== verification/ClientIpsec.v ===== *)
(** * The IPsec data plane of the client: internal/client/ipsec.go

    The plane keeps one entry per access gateway, brings SAs up in goroutines of
    their own and routes through the active gateway. What it uses of the IPsec
    client is a class; IpsecClient implements it. Goroutines are tasks that run
    between the mutexes in any order. The theorem: no two gateways share an
    if_id and no gateway is being added twice, under every interleaving. *)

From S2P Require Import Prelude Netip IpsecConfig IpsecNet IpsecClient IpsecClientSpec Api.

Definition ipsecRetry : Duration := 5 * Second.
Definition ipsecDPDDelay : Duration := 10 * Second.

Record ipsecPeer := mkIpsecPeer { ip_gw : Gateway; ip_ifID : Z; ip_up : bool; ip_adding : bool; ip_lastTry : Time }.

Record plane := mkPlane { pl_peers : gmap string ipsecPeer; pl_nextID : Z; pl_active : string; pl_epoch : Z }.
Definition set_pl_peers f p := mkPlane (f (pl_peers p)) (pl_nextID p) (pl_active p) (pl_epoch p).

(** The operations of the IPsec client, and [ip route replace] of a node. *)
Class IpsecOps (C : Type) := {
  cl_Add : Peer → C → option error * C;
  cl_Remove : string → C → option error * C;
  cl_Promote : string → list Prefix → C → option error * C;
  cl_Warm : string → C → res error bool;
  cl_routeNode : Addr → string → C → option error * C;
}.

(** Goroutines and the rest of a call outside the mutex. *)
Inductive plane_task := TAdd (id : string) | TAdded (id : string) (err : option error) | TRemove (id : string) | TPromote (id : string).

Section plane.
Context {C : Type} {CO : IpsecOps C} {NP : NetParse} (prefixes : list Prefix).

Record pst := mkPst { ps_p : plane; ps_c : C; ps_tasks : list plane_task }.

Definition newIPsecPlane (sess : ApiSession) : res error plane :=
  if String.eqb (s_IPsecPSK sess) "" then Err (ErrText "the controller gave this IPsec session no key")
  else Ok (mkPlane ∅ 1 (s_Access sess) (s_Epoch sess)).

Definition ipsecIface (ifID : Z) : string := DefaultInterfacePrefix +:+ FormatUint ifID.

(** One turn of the loop of [sync], with the mutex held. *)
Definition sync_entry (g : Gateway) (p : plane) : ipsecPeer * plane :=
  match pl_peers p !! g_ID g with
  | None =>
      let pe := mkIpsecPeer g (pl_nextID p) false false zero_time in
      (pe, mkPlane (<[g_ID g := pe]> (pl_peers p)) (wrap 32 (pl_nextID p + 1)) (pl_active p) (pl_epoch p))
  | Some pe =>
      let pe := mkIpsecPeer g (ip_ifID pe) (ip_up pe) (ip_adding pe) (ip_lastTry pe) in
      (pe, set_pl_peers (<[g_ID g := pe]>) p)
  end.
Definition sync_check (g : Gateway) (pe : ipsecPeer) (active : string) (c : C) : ipsecPeer * C :=
  if ip_up pe && negb (String.eqb (g_ID g) active) then
    match cl_Warm (g_ID g) c with
    | Ok false => (mkIpsecPeer (ip_gw pe) (ip_ifID pe) false (ip_adding pe) (ip_lastTry pe), (cl_Remove (g_ID g) c).2)
    | _ => (pe, c)
    end
  else (pe, c).
Definition sync_gateway (now : Time) (s : pst) (g : Gateway) : pst :=
  let '(pe, p) := sync_entry g (ps_p s) in
  let '(pe, c) := sync_check g pe (pl_active p) (ps_c s) in
  if ip_up pe || ip_adding pe || (time_Sub now (ip_lastTry pe) <? ipsecRetry)
  then mkPst (set_pl_peers (<[g_ID g := pe]>) p) c (ps_tasks s)
  else mkPst (set_pl_peers (<[g_ID g := mkIpsecPeer (ip_gw pe) (ip_ifID pe) (ip_up pe) true now]>) p) c (TAdd (g_ID g) :: ps_tasks s).
Definition plane_sync (now : Time) (gws : list Gateway) (s : pst) : pst := fold_left (sync_gateway now) gws s.

(** The first part of [add]: the SA, then the route to the gateway's node. *)
Definition add_sa (pe : ipsecPeer) (epoch : Z) (c : C) : option error * C :=
  match Host (ip_gw pe) with
  | None => (Some (ErrText "endpoint"), c)
  | Some host =>
      match cl_Add (mkPeer (g_ID (ip_gw pe)) (unzoned host) (IPsecGatewayID (g_ID (ip_gw pe))) (ip_ifID pe) epoch []) c with
      | (Some e, c) => (Some e, c)
      | (None, c) => cl_routeNode (g_NodeIP (ip_gw pe)) (ipsecIface (ip_ifID pe)) c
      end
  end.

(** What a task does next, and what is left of it. *)
Definition plane_step (t : plane_task) (s : pst) : pst * list plane_task :=
  match t with
  | TAdd id =>
      match pl_peers (ps_p s) !! id with
      | None => (s, [])
      | Some pe => let '(e, c) := add_sa pe (pl_epoch (ps_p s)) (ps_c s) in (mkPst (ps_p s) c (ps_tasks s), [TAdded id e])
      end
  | TAdded id err =>
      match pl_peers (ps_p s) !! id with
      | None => (s, [])
      | Some pe =>
          let ok := match err with None => true | Some _ => false end in
          let s := mkPst (set_pl_peers (<[id := mkIpsecPeer (ip_gw pe) (ip_ifID pe) ok false (ip_lastTry pe)]>) (ps_p s)) (ps_c s) (ps_tasks s) in
          if negb ok then (s, [TRemove id])
          else if String.eqb id (pl_active (ps_p s)) then (s, [TPromote id]) else (s, [])
      end
  | TRemove id => (mkPst (ps_p s) (cl_Remove id (ps_c s)).2 (ps_tasks s), [])
  | TPromote id => (mkPst (ps_p s) (cl_Promote id prefixes (ps_c s)).2 (ps_tasks s), [])
  end.

(** [activate] up to its unlock; the promotion is a task of its own. *)
Definition activate (id : string) (epoch : Z) (s : pst) : option error * pst :=
  let p := mkPlane (pl_peers (ps_p s)) (pl_nextID (ps_p s)) id epoch in
  if match pl_peers p !! id with Some pe => ip_up pe | None => false end
  then (None, mkPst p (ps_c s) (TPromote id :: ps_tasks s))
  else (Some (ErrText "no IPsec SA yet; it gets the traffic once one is up"), mkPst p (ps_c s) (ps_tasks s)).

Inductive plane_action := PSync (now : Time) (gws : list Gateway) | PActivate (id : string) (epoch : Z) | PTask (i : nat).
Definition plane_act (a : plane_action) (s : pst) : option pst :=
  match a with
  | PSync now gws => Some (plane_sync now gws s)
  | PActivate id epoch => Some (activate id epoch s).2
  | PTask i =>
      match ps_tasks s !! i with
      | None => None
      | Some t => let '(s', ts) := plane_step t (mkPst (ps_p s) (ps_c s) (delete i (ps_tasks s))) in
                  Some (mkPst (ps_p s') (ps_c s') (ts ++ ps_tasks s'))
      end
  end.
Fixpoint plane_acts (l : list plane_action) (s : pst) : option pst :=
  match l with [] => Some s | a :: l => match plane_act a s with Some s => plane_acts l s | None => None end end.

(** ** Invariant *)

(** How many tasks are adding gateway [id]. *)
Definition is_add (id : string) (t : plane_task) : bool :=
  match t with TAdd i | TAdded i _ => String.eqb i id | _ => false end.
Definition adds (id : string) (ts : list plane_task) : nat := length (List.filter (is_add id) ts).
Definition adding_now (id : string) (p : plane) : nat :=
  match pl_peers p !! id with Some pe => if ip_adding pe then 1 else 0 | None => 0 end.

(** Entries have if_ids of their own, as long as these have not wrapped. *)
Definition ids_ok (p : plane) : Prop :=
  Z.of_nat (size (pl_peers p)) < 2 ^ 32 - 1 →
  pl_nextID p = 1 + Z.of_nat (size (pl_peers p))
  ∧ (∀ id pe, pl_peers p !! id = Some pe → 1 ≤ ip_ifID pe < pl_nextID p)
  ∧ ∀ id id' pe pe', pl_peers p !! id = Some pe → pl_peers p !! id' = Some pe' → ip_ifID pe = ip_ifID pe' → id = id'.
Definition plane_ok (s : pst) : Prop := ids_ok (ps_p s) ∧ ∀ id, adds id (ps_tasks s) = adding_now id (ps_p s).

(** An entry that changes keeps its if_id. *)
Lemma ids_ok_update p id pe pe' :
  ids_ok p → pl_peers p !! id = Some pe → ip_ifID pe' = ip_ifID pe → ids_ok (set_pl_peers (<[id := pe']>) p).
Proof.
  unfold ids_ok. cbn. intros Hok Hid Hif. rewrite map_size_insert_Some by done. intros Hsz. destruct (Hok Hsz) as (H1 & H2 & H3).
  assert (∀ i x, <[id := pe']> (pl_peers p) !! i = Some x → ∃ y, pl_peers p !! i = Some y ∧ ip_ifID x = ip_ifID y) as Hl.
  { intros i x. destruct (decide (i = id)) as [->|Hne]; [rewrite lookup_insert_eq|rewrite lookup_insert_ne by done; eauto].
    intros [= <-]. eauto. }
  split_and!; [done|..].
  - intros i x (y & Hy & ->)%Hl. by eapply H2.
  - intros i j x x' (y & Hy & Ey)%Hl (y' & Hy' & Ey')%Hl E. eapply H3; [done..|congruence].
Qed.

Lemma ids_ok_new p id pe' :
  ids_ok p → pl_peers p !! id = None → ip_ifID pe' = pl_nextID p →
  ids_ok (mkPlane (<[id := pe']> (pl_peers p)) (wrap 32 (pl_nextID p + 1)) (pl_active p) (pl_epoch p)).
Proof.
  unfold ids_ok. cbn. intros Hok Hid Hif. rewrite map_size_insert_None by done. intros Hsz. destruct (Hok ltac:(lia)) as (H1 & H2 & H3).
  assert (wrap 32 (pl_nextID p + 1) = pl_nextID p + 1) as -> by (unfold wrap; rewrite Z.mod_small; lia).
  split_and!; [lia|..].
  - intros i x. destruct (decide (i = id)) as [->|Hne]; [rewrite lookup_insert_eq|rewrite lookup_insert_ne by done].
    + intros [= <-]. lia.
    + intros Hx%H2. lia.
  - intros i j x x'. destruct (decide (i = id)) as [->|Hi], (decide (j = id)) as [->|Hj];
      rewrite ?lookup_insert_eq, ?lookup_insert_ne by done; [done|..].
    + intros [= <-] Hx' E. apply H2 in Hx'. lia.
    + intros Hx [= <-] E. apply H2 in Hx. lia.
    + by apply H3.
Qed.

(** One turn of [sync]: the entry is there afterwards with the if_id it had or a
    new one, and a task is started exactly if it begins to be added. *)
Lemma sync_gateway_ok now s g : plane_ok s → plane_ok (sync_gateway now s g).
Proof.
  intros [Hids Hadd]. unfold sync_gateway. destruct (sync_entry g (ps_p s)) as [pe p] eqn:Ee.
  assert (ids_ok p ∧ pl_peers p !! g_ID g = Some pe ∧ ∀ id, adding_now id p = adding_now id (ps_p s)) as (Hp & Hpe & Hsame).
  { unfold sync_entry in Ee. destruct (pl_peers (ps_p s) !! g_ID g) as [pe0|] eqn:E0; injection Ee as <- <-.
    - split_and!; [by eapply ids_ok_update|by cbn; rewrite lookup_insert_eq|]. intros id. unfold adding_now. cbn.
      destruct (decide (id = g_ID g)) as [->|Hne]; [by rewrite lookup_insert_eq, E0|by rewrite lookup_insert_ne].
    - split_and!; [by apply ids_ok_new|by cbn; rewrite lookup_insert_eq|]. intros id. unfold adding_now. cbn.
      destruct (decide (id = g_ID g)) as [->|Hne]; [by rewrite lookup_insert_eq, E0|by rewrite lookup_insert_ne]. }
  destruct (sync_check g pe (pl_active p) (ps_c s)) as [pe1 c] eqn:Ec.
  assert (ip_ifID pe1 = ip_ifID pe ∧ ip_adding pe1 = ip_adding pe) as [E1 E2].
  { unfold sync_check in Ec. destruct (_ && _); [|by injection Ec as <- <-]. destruct (cl_Warm _ _) as [[|]|]; by injection Ec as <- <-. }
  destruct (ip_up pe1 || ip_adding pe1 || _) eqn:Eb; (split; [cbn; by eapply ids_ok_update|]); intros id; cbn [ps_tasks ps_p].
  - rewrite Hadd, <- Hsame. unfold adding_now. cbn.
    destruct (decide (id = g_ID g)) as [->|Hne]; [by rewrite lookup_insert_eq, Hpe, E2|by rewrite lookup_insert_ne].
  - apply orb_false_iff in Eb as [[_ Ea]%orb_false_iff _]. rewrite E2 in Ea.
    specialize (Hadd id). unfold adds in *. cbn. rewrite <- Hsame in Hadd. unfold adding_now in *. cbn.
    destruct (String.eqb_spec (g_ID g) id) as [<-|Hne]; cbn; rewrite Hadd.
    + by rewrite lookup_insert_eq, Hpe, Ea.
    + by rewrite lookup_insert_ne.
Qed.

Lemma adds_app id l k : adds id (l ++ k) = (adds id l + adds id k)%nat.
Proof. unfold adds. by rewrite List.filter_app, length_app. Qed.
Lemma adds_delete id ts i t : ts !! i = Some t → (adds id ts = adds id [t] + adds id (delete i ts))%nat.
Proof.
  intros Hi. apply list_elem_of_split_length in Hi as (l1 & l2 & -> & ->). rewrite delete_middle, cons_middle, !adds_app. lia.
Qed.

Lemma plane_act_ok a s s' : plane_ok s → plane_act a s = Some s' → plane_ok s'.
Proof.
  intros Hok. destruct a as [now gws|id epoch|i]; cbn [plane_act].
  - intros [= <-]. unfold plane_sync. revert s Hok. induction gws as [|g gws IH]; intros s Hok; [done|]. cbn. by apply IH, sync_gateway_ok.
  - intros [= <-]. destruct Hok as [H1 H2]. unfold activate. by destruct (match _ !! id with Some _ => _ | None => _ end).
  - destruct (ps_tasks s !! i) as [t|] eqn:Ei; [|done]. destruct Hok as [Hids Hadd].
    assert (∀ id, adding_now id (ps_p s) = (adds id [t] + adds id (delete i (ps_tasks s)))%nat) as Hcnt.
    { intros id. rewrite <- Hadd. by apply adds_delete. }
    set (s0 := mkPst (ps_p s) (ps_c s) (delete i (ps_tasks s))).
    assert (∀ id, (∃ err, t = TAdd id ∨ t = TAdded id err) → ∃ pe, pl_peers (ps_p s) !! id = Some pe ∧ ip_adding pe = true
              ∧ adds id (delete i (ps_tasks s)) = 0%nat) as Hpe.
    { intros id Ht. specialize (Hcnt id). assert (adds id [t] = 1%nat) as E1.
      { destruct Ht as [err [-> | ->]]; cbn; by rewrite String.eqb_refl. }
      rewrite E1 in Hcnt. unfold adding_now in Hcnt. destruct (pl_peers (ps_p s) !! id) as [pe|]; [|lia].
      exists pe. destruct (ip_adding pe); [|lia]. split_and!; [done..|lia]. }
    destruct (plane_step t s0) as [s1 ts] eqn:Es. intros [= <-].
    assert (∀ ts', (∀ id, adds id ts' = adds id [t]) → ps_p s1 = ps_p s ∧ ps_tasks s1 = delete i (ps_tasks s) ∧ ts = ts' →
      plane_ok (mkPst (ps_p s1) (ps_c s1) (ts ++ ps_tasks s1))) as Hkeep.
    { intros ts' Hts (E1 & E2 & ->). unfold plane_ok. cbn [ps_tasks ps_p]. rewrite E1, E2. split; [done|]. intros id. by rewrite adds_app, Hts, Hcnt. }
    destruct t as [id|id err|id|id]; cbn [plane_step] in Es.
    + destruct (Hpe id ltac:(by exists None; left)) as (pe & Hp & _). cbn in Es. rewrite Hp in Es.
      destruct (add_sa pe _ _) as [e c]. injection Es as <- <-. apply (Hkeep [TAdded id e]); [by intros id'; destruct (String.eqb id id') eqn:E; unfold adds; cbn; rewrite ?E|by split_and!].
    + destruct (Hpe id ltac:(exists err; by right)) as (pe & Hp & Had & Hz). cbn in Es. rewrite Hp in Es.
      set (pe' := mkIpsecPeer _ _ _ _ _) in Es.
      assert (∀ c ts', (∀ id, adds id ts' = 0%nat) →
        plane_ok (mkPst (set_pl_peers (<[id := pe']>) (ps_p s)) c (ts' ++ delete i (ps_tasks s)))) as Hdone.
      { intros c ts' Hts. split; [by eapply ids_ok_update|]. intros id'. cbn [ps_tasks ps_p]. rewrite adds_app, Hts. cbn [Nat.add]. unfold adding_now. cbn [pl_peers set_pl_peers].
        destruct (decide (id' = id)) as [->|Hne]; [by rewrite lookup_insert_eq|]. rewrite lookup_insert_ne by done.
        specialize (Hcnt id'). unfold adding_now in Hcnt. rewrite Hcnt. unfold adds at 2. cbn [List.filter is_add]. by rewrite (proj2 (String.eqb_neq id id') (not_eq_sym Hne)). }
      destruct err; cbn in Es; [injection Es as <- <-; by apply Hdone|].
      destruct (String.eqb id _); injection Es as <- <-; by apply Hdone.
    + injection Es as <- <-. apply (Hkeep []); [done|by split_and!].
    + injection Es as <- <-. apply (Hkeep []); [done|by split_and!].
Qed.

(** However the passes of [sync], the goroutines and [activate] interleave,
    no gateway is ever being added twice at once, and no two gateways share an
    if_id, so no two SAs share an XFRM interface. *)
Theorem plane_adds_once l s s' :
  ps_tasks s = [] → pl_peers (ps_p s) = ∅ → pl_nextID (ps_p s) = 1 → plane_acts l s = Some s' →
  (∀ id, (adds id (ps_tasks s') ≤ 1)%nat)
  ∧ (Z.of_nat (size (pl_peers (ps_p s'))) < 2 ^ 32 - 1 →
     ∀ id id' pe pe', pl_peers (ps_p s') !! id = Some pe → pl_peers (ps_p s') !! id' = Some pe' →
       id ≠ id' → ip_ifID pe ≠ ip_ifID pe' ∧ ip_ifID pe ≠ 0).
Proof.
  intros Ht Hp Hn Hrun. assert (plane_ok s) as Hok.
  { split; [|intros id; unfold adding_now; by rewrite Ht, Hp]. unfold ids_ok. rewrite Hp, Hn. intros _. split_and!; [done|by intros ? ?..]. }
  assert (plane_ok s') as [Hids Hadd].
  { clear Ht Hp Hn. revert s Hok Hrun. induction l as [|a l IH]; intros s Hok; cbn; [by intros [= <-]|].
    destruct (plane_act a s) as [s1|] eqn:Ea; [|done]. apply IH. by eapply plane_act_ok. }
  split.
  - intros id. rewrite Hadd. unfold adding_now. destruct (pl_peers (ps_p s') !! id) as [pe|]; [destruct (ip_adding pe)|]; lia.
  - intros Hsz id id' pe pe' H1 H2 Hne. destruct (Hids Hsz) as (_ & Hpos & Hinj). split; [|apply Hpos in H1; lia].
    intros E. by eapply Hne, Hinj.
Qed.

End plane.
Arguments pst : clear implicits.

(** ** The IPsec client implements the class *)

#[export] Instance ipsec_ops {W} `{!Env W} `{!Range} (cfg : ClientConfig) : IpsecOps (st (W := W)) := {|
  cl_Add := Add cfg;
  cl_Remove := Remove cfg;
  cl_Promote := Promote cfg;
  cl_Warm := client_Warm;
  cl_routeNode node dev s :=
    run_call (RouteReplace (mkRoute (mkPrefix node 32) noAddr dev (cc_VirtualIP cfg) 0)) s;
|}.

Module PlaneDemo.
Import Sim.

Definition cfg : ClientConfig := IpsecClientSpec.Demo.config false.
#[local] Instance parse : NetParse := {| ParseAddrPort _ := Some (Addr4 3221225985, 51820) |}.
#[local] Instance ops : IpsecOps (st (W := sim)) := ipsec_ops cfg.
Definition gw (id : string) (ip : Z) : Gateway := mkGateway id 1 "192.0.2.1:51820" "" (Addr4 ip) ∅ true true.
Definition net : list Prefix := [mkPrefix (Addr4 (172 * 2 ^ 24)) 8].
Definition start : pst (st (W := sim)) := mkPst (mkPlane ∅ 1 "a" 1) (IpsecClientSpec.Demo.fresh []) [].

(** Both gateways are brought up; a is the access. *)
Definition bring_up : list plane_action := [PSync (100 * Second) [gw "a" 1; gw "b" 2]; PTask 0; PTask 0; PTask 0; PTask 0].
Definition both_up : pst _ := default start (plane_acts net bring_up start).
Definition routed : pst _ := default start (plane_acts net (bring_up ++ [PTask 0]) start).

Lemma bring_up_runs : plane_acts net bring_up start = Some both_up.
Proof. vm_compute. reflexivity. Qed.

Lemma plane_adds_once_witness : (adds "a" (ps_tasks both_up) ≤ 1)%nat ∧ size (pl_peers (ps_p both_up)) = 2%nat.
Proof.
  split; [|vm_compute; reflexivity].
  apply (proj1 (plane_adds_once net bring_up start both_up eq_refl eq_refl eq_refl bring_up_runs)).
Defined.

(** *** A late promotion takes the routes back

    [add] decides under the mutex to promote a and promotes it later. If the
    session moves to b in between, the routes end with a, and stay there. *)
Definition late : option (pst _) := plane_acts net (bring_up ++ [PActivate "b" 2; PTask 0; PTask 0]) start.
Lemma late_promotion :
  match late with
  | Some s => pl_active (ps_p s) = "b" ∧ ps_tasks s = [] ∧ c_active (st_c (ps_c s)) = "a"
              ∧ (r_Dev <$> (snd <$> map_to_list (c_routes (st_c (ps_c s))))) = ["egx1"%string]
  | None => False
  end.
Proof. vm_compute. repeat split. Qed.

(** *** The SA of the active gateway is not brought up again

    When charon clears it, [sync] looks at the standby gateways only. *)
Definition cleared : pst (st (W := sim)) :=
  let c := ps_c routed in let w := st_w c in
  mkPst (ps_p routed) (mkSt (st_c c) (mkSim (with_sas (λ _, []) (s_k w)) (s_faults w) (s_next w) (s_default w) (s_ctx w))) [].
Lemma dead_active_stays :
  cl_Warm "a" (ps_c cleared) = Ok false ∧ ip_up <$> (pl_peers (ps_p cleared) !! "a") = Some true
  ∧ (let s := plane_sync (1000 * Second) [gw "a" 1] cleared in ps_tasks s = [] ∧ ps_c s = ps_c cleared ∧ ps_p s = ps_p cleared).
Proof. vm_compute. repeat split. Qed.

End PlaneDemo.
