(* ===== verification/Estimators.v ===== *)
(** * Estimators: internal/measurement/p2quantile.go, stats.go, probe.go,
      probebudget.go, passive.go, linkstate.go

    The streaming quantile and the segment tracker on float64, the prober with
    its schedule and the shared budget, the passive tracker of a packet sequence
    and the table of link measurements. The clock is an argument of each call.
    The theorems: every probe is counted once, as replied, lost or outstanding;
    packets received in order and lost add up to the sequence numbers passed. *)

From S2P Require Import Prelude GoFloat Cost.

(** ** p2quantile.go *)

Record p2Quantile := mkP2 {
  q_p : float64;
  q_n : list float64;
  q_npos : list float64;
  q_dn : list float64;
  q_heights : list float64;
  q_initBuf : list float64;
  q_count : Z;
}.
Definition nth5 (l : list float64) (i : nat) : float64 := default f0 (l !! i).
Definition zeros5 : list float64 := replicate 5 f0.

Definition newP2Quantile (p : float64) : p2Quantile :=
  mkP2 p zeros5 zeros5 [f0; fdiv p (of_int 2); p; fdiv (fadd f1 p) (of_int 2); f1] zeros5 [] 0.

(** [sort.Float64s]: NaN comes first. *)
Definition float_le (x y : float64) : Prop := (IsNaN x || negb (flt y x)) = true.
#[export] Instance float_le_dec : RelDecision float_le.
Proof. intros x y. unfold float_le. apply _. Defined.

(** [cell]: the interval [x] falls into, and the markers with the outer ones extended. *)
Definition cell (x : float64) (h : list float64) : nat * list float64 :=
  if flt x (nth5 h 0) then (0%nat, <[0%nat := x]> h)
  else if fge x (nth5 h 4) then (3%nat, <[4%nat := x]> h)
  else ((if flt x (nth5 h 1) then 0 else if flt x (nth5 h 2) then 1 else if flt x (nth5 h 3) then 2 else 3)%nat, h).

Definition q_move (i : nat) (d : Z) (q : p2Quantile) : p2Quantile :=
  let n := nth5 (q_n q) in
  let h := nth5 (q_heights q) in
  let fd := of_int d in
  let parabolic :=
    fadd (h i) (fmul (fdiv fd (fsub (n (i + 1)%nat) (n (i - 1)%nat)))
      (fadd (fdiv (fmul (fadd (fsub (n i) (n (i - 1)%nat)) fd) (fsub (h (i + 1)%nat) (h i))) (fsub (n (i + 1)%nat) (n i)))
            (fdiv (fmul (fsub (fsub (n (i + 1)%nat) (n i)) fd) (fsub (h i) (h (i - 1)%nat))) (fsub (n i) (n (i - 1)%nat))))) in
  let j := if 0 <? d then (i + 1)%nat else (i - 1)%nat in
  let height := if flt (h (i - 1)%nat) parabolic && flt parabolic (h (i + 1)%nat) then parabolic
                else fadd (h i) (fdiv (fmul fd (fsub (h j) (h i))) (fsub (n j) (n i))) in
  mkP2 (q_p q) (<[i := fadd (n i) fd]> (q_n q)) (q_npos q) (q_dn q) (<[i := height]> (q_heights q)) (q_initBuf q) (q_count q).

Definition maybeAdjust (i : nat) (q : p2Quantile) : p2Quantile :=
  let n := nth5 (q_n q) in
  let diff := fsub (nth5 (q_npos q) i) (n i) in
  if fge diff f1 && fgt (fsub (n (i + 1)%nat) (n i)) f1 then q_move i 1 q
  else if fle diff (of_int (-1)) && flt (fsub (n (i - 1)%nat) (n i)) (of_int (-1)) then q_move i (-1) q
  else q.

Definition q_Observe (x : float64) (q : p2Quantile) : p2Quantile :=
  let count := i64 (q_count q + 1) in
  if (length (q_initBuf q) <? 5)%nat then
    let buf := q_initBuf q ++ [x] in
    if (length buf =? 5)%nat then
      let sorted := merge_sort float_le buf in
      let p := q_p q in
      mkP2 p (of_int <$> [1; 2; 3; 4; 5])
        [f1; fadd f1 (fmul (of_int 2) p); fadd f1 (fmul (of_int 4) p); fadd (of_int 3) (fmul (of_int 2) p); of_int 5]
        (q_dn q) sorted sorted count
    else mkP2 (q_p q) (q_n q) (q_npos q) (q_dn q) (q_heights q) buf count
  else
    let '(k, h) := cell x (q_heights q) in
    let n := imap (λ i v, if (k <? i)%nat then fadd v f1 else v) (q_n q) in
    let npos := zip_with fadd (q_npos q) (q_dn q) in
    maybeAdjust 3 (maybeAdjust 2 (maybeAdjust 1 (mkP2 (q_p q) n npos (q_dn q) h (q_initBuf q) count))).

Definition q_Value (q : p2Quantile) : float64 :=
  if q_count q =? 0 then f0
  else if (length (q_initBuf q) <? 5)%nat then
    let sorted := merge_sort float_le (q_initBuf q) in
    default f0 (sorted !! Z.to_nat (to_int (fmul (q_p q) (of_int (Z.of_nat (length sorted) - 1)))))
  else nth5 (q_heights q) 2.

(** Before five samples the value is not interpolated: of 10 and 20 both
    quantiles give 10, the 95th percentile of four samples is the third. *)
Definition feed (p : float64) (xs : list Z) : p2Quantile := fold_left (λ q x, q_Observe (of_int x) q) xs (newP2Quantile p).
Lemma quantile_not_interpolated :
  q_Value (feed (of_ratio 1 2) [10; 20]) = of_int 10 ∧ q_Value (feed (of_ratio 95 100) [10; 20]) = of_int 10
  ∧ q_Value (feed (of_ratio 95 100) [10; 20; 30; 1000]) = of_int 30.
Proof. vm_compute. repeat split. Qed.

(** ** stats.go *)

Definition rttGain : float64 := of_ratio 1 8.
Definition segmentStatsAlpha : float64 := rttGain.

Record SegmentTrackerConfig := mkTrackerConfig { SampleHalfCount : float64; tc_StalenessHalfLife : Duration }.
Definition DefaultSegmentTrackerConfig : SegmentTrackerConfig := mkTrackerConfig (of_int 20) (30 * Second).

Record SegmentTracker := mkTracker {
  t_cfg : SegmentTrackerConfig;
  t_p50 : p2Quantile;
  t_p95 : p2Quantile;
  t_haveMean : bool;
  t_mean : float64;
  t_varEWMA : float64;
  t_successes : Z;
  t_losses : Z;
  t_haveSample : bool;
  t_lastSample : Time;
}.

Definition NewSegmentTracker (cfg : SegmentTrackerConfig) : SegmentTracker :=
  let cfg := mkTrackerConfig
    (if fle (SampleHalfCount cfg) f0 then SampleHalfCount DefaultSegmentTrackerConfig else SampleHalfCount cfg)
    (if tc_StalenessHalfLife cfg <=? 0 then tc_StalenessHalfLife DefaultSegmentTrackerConfig else tc_StalenessHalfLife cfg) in
  mkTracker cfg (newP2Quantile (of_ratio 1 2)) (newP2Quantile (of_ratio 95 100)) false f0 f0 0 0 false zero_time.

Definition t_Observe (now : Time) (rttMicros : float64) (t : SegmentTracker) : SegmentTracker :=
  let '(mean, var) :=
    if t_haveMean t then
      let diff := fsub rttMicros (t_mean t) in
      let incr := fmul segmentStatsAlpha diff in
      (fadd (t_mean t) incr, fmul (fsub f1 segmentStatsAlpha) (fadd (t_varEWMA t) (fmul diff incr)))
    else (rttMicros, f0) in
  mkTracker (t_cfg t) (q_Observe rttMicros (t_p50 t)) (q_Observe rttMicros (t_p95 t)) true mean var
    (u64 (t_successes t + 1)) (t_losses t) true now.

Definition t_ObserveLoss (now : Time) (t : SegmentTracker) : SegmentTracker :=
  mkTracker (t_cfg t) (t_p50 t) (t_p95 t) (t_haveMean t) (t_mean t) (t_varEWMA t) (t_successes t) (u64 (t_losses t + 1)) true now.

Section tracker.
Context {GM : GoMath}.

Definition confidenceLocked (n : Z) (age : Duration) (t : SegmentTracker) : float64 :=
  if n =? 0 then f0 else
  let sampleConf := fdiv (of_int n) (fadd (of_int n) (SampleHalfCount (t_cfg t))) in
  let ageRatio := fdiv (of_int age) (of_int (tc_StalenessHalfLife (t_cfg t))) in
  fmul sampleConf (math_Exp2 (fneg ageRatio)).

Definition t_Snapshot (now : Time) (t : SegmentTracker) : SegmentStats :=
  let n := u64 (t_successes t + t_losses t) in
  let lossRate := if 0 <? n then fdiv (of_int (t_losses t)) (of_int n) else f0 in
  let age := if t_haveSample t then time_Sub now (t_lastSample t) else 0 in
  mkStats (q_Value (t_p50 t)) (q_Value (t_p95 t)) lossRate (t_varEWMA t) n age (confidenceLocked n age t).
End tracker.

(** ** probebudget.go *)

(** [d.Seconds()] *)
Definition dur_Seconds (d : Duration) : float64 :=
  fadd (of_int (Z.quot d Second)) (fdiv (of_int (Z.rem d Second)) (of_int 1000000000)).

Record ProbeBudget := mkBudget { b_ratePerSecond : float64; b_capacity : float64; b_tokens : float64; b_lastRefill : Time }.

Definition NewProbeBudget (now : Time) (ratePerSecond burstBytes : float64) : ProbeBudget :=
  let rate := if flt ratePerSecond f0 then f0 else ratePerSecond in
  let burst := if flt burstBytes f0 then f0 else burstBytes in
  mkBudget rate burst burst now.

Definition TryTake (now : Time) (size : Z) (b : ProbeBudget) : bool * ProbeBudget :=
  let elapsed := dur_Seconds (time_Sub now (b_lastRefill b)) in
  let tokens := if fgt elapsed f0 then
                  let t := fadd (b_tokens b) (fmul elapsed (b_ratePerSecond b)) in
                  if fgt t (b_capacity b) then b_capacity b else t
                else b_tokens b in
  if fgt (of_int size) tokens then (false, mkBudget (b_ratePerSecond b) (b_capacity b) tokens now)
  else (true, mkBudget (b_ratePerSecond b) (b_capacity b) (fsub tokens (of_int size)) now).

(** ** probe.go *)

Record ProbeStats := mkProbeStats { st_Sent : Z; st_Replied : Z; st_Lost : Z; st_RTTMicros : float64 }.
Definition probe_LossRate (s : ProbeStats) : float64 :=
  if st_Sent s =? 0 then f0 else fdiv (of_int (st_Lost s)) (of_int (st_Sent s)).

Record probeRateSchedule := mkRate { fastInterval : Duration; steadyInterval : Duration; rampSamples : Z }.
Definition NextInterval (sent : Z) (s : probeRateSchedule) : Duration :=
  if sent <? u64 (rampSamples s) then fastInterval s else steadyInterval s.

Record ProberConfig := mkProberConfig {
  pc_ProbeSize : Z; pc_Timeout : Duration; pc_FastInterval : Duration; pc_SteadyInterval : Duration; pc_RampSamples : Z;
}.
Definition prober_validate (hasSend hasBudget : bool) (c : ProberConfig) : res string () :=
  if negb hasSend then Err "Send is required"%string
  else if negb hasBudget then Err "Budget is required"%string
  else if pc_ProbeSize c <=? 0 then Err "ProbeSize must be positive"%string
  else if pc_Timeout c <=? 0 then Err "Timeout must be positive"%string
  else if pc_FastInterval c <=? 0 then Err "FastInterval must be positive"%string
  else if pc_SteadyInterval c <=? 0 then Err "SteadyInterval must be positive"%string
  else Ok ().

Record Prober := mkProber {
  pr_cfg : ProberConfig;
  pr_nextProbeID : Z;
  pr_outstanding : gmap Z Time;
  pr_lastSent : Time;
  pr_haveSent : bool;
  pr_stats : ProbeStats;
}.
Definition NewProber (c : ProberConfig) : res string Prober :=
  try _ := prober_validate true true c in
  Ok (mkProber c 0 ∅ zero_time false (mkProbeStats 0 0 0 f0)).

(** The locked part of [MaybeProbe]: the id to send, if one is due and the shared
    budget allows. *)
Definition MaybeProbe (now : Time) (b : ProbeBudget) (p : Prober) : option Z * ProbeBudget * Prober :=
  let rate := mkRate (pc_FastInterval (pr_cfg p)) (pc_SteadyInterval (pr_cfg p)) (pc_RampSamples (pr_cfg p)) in
  if pr_haveSent p && (time_Sub now (pr_lastSent p) <? NextInterval (st_Sent (pr_stats p)) rate) then (None, b, p) else
  match TryTake now (pc_ProbeSize (pr_cfg p)) b with
  | (false, b) => (None, b, p)
  | (true, b) =>
      let id := pr_nextProbeID p in
      let s := pr_stats p in
      (Some id, b, mkProber (pr_cfg p) (wrap 32 (id + 1)) (<[id := now]> (pr_outstanding p)) now true
                     (mkProbeStats (u64 (st_Sent s + 1)) (st_Replied s) (st_Lost s) (st_RTTMicros s)))
  end.

Definition OnReply (now : Time) (id : Z) (p : Prober) : Prober :=
  match pr_outstanding p !! id with
  | None => p
  | Some sentAt =>
      let s := pr_stats p in
      let micros := of_int (dur_Microseconds (time_Sub now sentAt)) in
      let replied := u64 (st_Replied s + 1) in
      let rtt := if replied =? 1 then micros else fadd (st_RTTMicros s) (fmul (fsub micros (st_RTTMicros s)) rttGain) in
      mkProber (pr_cfg p) (pr_nextProbeID p) (delete id (pr_outstanding p)) (pr_lastSent p) (pr_haveSent p)
        (mkProbeStats (st_Sent s) replied (st_Lost s) rtt)
  end.

(** Which of the outstanding probes have timed out; the loop deletes each and
    counts it. *)
Definition expired (now : Time) (timeout : Duration) (sent : gmap Z Time) : gmap Z Time :=
  filter (λ kv, timeout ≤ time_Sub now kv.2) sent.
Definition unexpired (now : Time) (timeout : Duration) (sent : gmap Z Time) : gmap Z Time :=
  filter (λ kv, ¬ timeout ≤ time_Sub now kv.2) sent.
Definition ExpireTimeouts (now : Time) (p : Prober) : Prober :=
  let s := pr_stats p in
  mkProber (pr_cfg p) (pr_nextProbeID p) (unexpired now (pc_Timeout (pr_cfg p)) (pr_outstanding p)) (pr_lastSent p) (pr_haveSent p)
    (mkProbeStats (st_Sent s) (st_Replied s)
       (u64 (st_Lost s + Z.of_nat (size (expired now (pc_Timeout (pr_cfg p)) (pr_outstanding p))))) (st_RTTMicros s)).

(** ** passive.go *)

Definition jitterGain : float64 := of_ratio 1 16.
Record Snapshot := mkSnapshot { sn_Received : Z; sn_Lost : Z; sn_OutOfOrder : Z; sn_JitterMicros : float64 }.
Definition snapshot_LossRate (s : Snapshot) : float64 :=
  let total := u64 (sn_Received s + sn_Lost s) in
  if total =? 0 then f0 else fdiv (of_int (sn_Lost s)) (of_int total).

Record PassiveTracker := mkPassive {
  pt_started : bool; pt_expectedNext : Z; pt_received : Z; pt_lost : Z; pt_outOfOrder : Z;
  pt_lastArrival : Time; pt_lastInterarrival : Duration; pt_haveLast : bool; pt_jitterMicros : float64;
}.
Definition NewPassiveTracker : PassiveTracker := mkPassive false 0 0 0 0 zero_time 0 false f0.

Definition recordArrival (now : Time) (comparable : bool) (p : PassiveTracker) : PassiveTracker :=
  let inter := time_Sub now (pt_lastArrival p) in
  let jitter := if comparable && pt_haveLast p then
                  let d := i64 (inter - pt_lastInterarrival p) in
                  let d := if d <? 0 then i64 (- d) else d in
                  fadd (pt_jitterMicros p) (fmul (fsub (of_int (dur_Microseconds d)) (pt_jitterMicros p)) jitterGain)
                else pt_jitterMicros p in
  mkPassive (pt_started p) (pt_expectedNext p) (pt_received p) (pt_lost p) (pt_outOfOrder p) now inter comparable jitter.

Definition pt_Observe (now : Time) (seq : Z) (p : PassiveTracker) : PassiveTracker :=
  let received := u64 (pt_received p + 1) in
  if negb (pt_started p) then
    mkPassive true (u64 (seq + 1)) received (pt_lost p) (pt_outOfOrder p) now (pt_lastInterarrival p) (pt_haveLast p) (pt_jitterMicros p)
  else
    let with_ next lost ooo :=
      mkPassive true next received lost ooo (pt_lastArrival p) (pt_lastInterarrival p) (pt_haveLast p) (pt_jitterMicros p) in
    if seq =? pt_expectedNext p then recordArrival now true (with_ (u64 (seq + 1)) (pt_lost p) (pt_outOfOrder p))
    else if seq >? pt_expectedNext p then
      recordArrival now false (with_ (u64 (seq + 1)) (u64 (pt_lost p + (seq - pt_expectedNext p))) (pt_outOfOrder p))
    else with_ (pt_expectedNext p) (pt_lost p) (u64 (pt_outOfOrder p + 1)).

Definition pt_Snapshot (p : PassiveTracker) : Snapshot := mkSnapshot (pt_received p) (pt_lost p) (pt_outOfOrder p) (pt_jitterMicros p).
Definition pt_Reset (p : PassiveTracker) : PassiveTracker := NewPassiveTracker.

(** ** linkstate.go *)

Record LinkQuality := mkQuality { lq_RTTMicros : float64; lq_LossRate : float64; lq_Updated : Time }.
Definition LinkQualityFromPassive (s : Snapshot) : LinkQuality := mkQuality f0 (snapshot_LossRate s) zero_time.
Definition LinkQualityFromProbe (s : ProbeStats) : LinkQuality := mkQuality (st_RTTMicros s) (probe_LossRate s) zero_time.

Abbreviation LinkID := (string * string)%type.
Definition canonicalLinkID (a b : string) : LinkID := if str_ltb b a then (b, a) else (a, b).

Record PathQuality := mkPathQuality { pq_RTTMicros : float64; pq_LossRate : float64; pq_OldestLinkUpdated : Time }.
Abbreviation LinkStateTable := (gmap LinkID LinkQuality).

Definition UpdateLink (now : Time) (a b : string) (q : LinkQuality) (t : LinkStateTable) : LinkStateTable :=
  <[canonicalLinkID a b := mkQuality (lq_RTTMicros q) (lq_LossRate q) now]> t.
Definition table_Link (a b : string) (t : LinkStateTable) : option LinkQuality := t !! canonicalLinkID a b.
Definition Links `{Range} (t : LinkStateTable) : list LinkID := (range t).*1.
Definition Neighbors `{Range} (node : string) (t : LinkStateTable) : list string :=
  omap (λ '(a, b), if String.eqb node a then Some b else if String.eqb node b then Some a else None) (Links t).

(** The loop of [PathCost], over the links of the path. *)
Fixpoint path_cost_loop (path : list string) (rtt survival : float64) (oldest : Time) (t : LinkStateTable) : res string PathQuality :=
  match path with
  | a :: ((b :: _) as rest) =>
      match t !! canonicalLinkID a b with
      | None => Err ("no measurement for link " +:+ a +:+ "<->" +:+ b)%string
      | Some q =>
          path_cost_loop rest (fadd rtt (lq_RTTMicros q)) (fmul survival (fsub f1 (lq_LossRate q)))
            (if time_IsZero oldest || time_Before (lq_Updated q) oldest then lq_Updated q else oldest) t
      end
  | _ => Ok (mkPathQuality rtt (fsub f1 survival) oldest)
  end.
Definition PathCost (path : list string) (t : LinkStateTable) : res string PathQuality :=
  if (length path <? 2)%nat then Err "PathCost needs at least 2 nodes"%string else path_cost_loop path f0 f1 zero_time t.

(** ** Lemmas *)

Lemma expired_partition now timeout m :
  (size (expired now timeout m) + size (unexpired now timeout m) = size m)%nat.
Proof.
  unfold expired, unexpired.
  rewrite <- map_size_disj_union by apply map_disjoint_filter_complement. by rewrite map_filter_union_complement.
Qed.

Lemma u64_small z : 0 ≤ z < 2 ^ 64 → u64 z = z.
Proof. intros. unfold wrap. by rewrite Z.mod_small. Qed.

(** ** Every probe is counted once *)

Inductive probe_op := OpProbe (now : Time) | OpReply (now : Time) (id : Z) | OpExpire (now : Time).
Definition probe_step (o : probe_op) (bp : ProbeBudget * Prober) : ProbeBudget * Prober :=
  match o with
  | OpProbe now => let '(_, b, p) := MaybeProbe now bp.1 bp.2 in (b, p)
  | OpReply now id => (bp.1, OnReply now id bp.2)
  | OpExpire now => (bp.1, ExpireTimeouts now bp.2)
  end.
Definition probe_run (ops : list probe_op) (bp : ProbeBudget * Prober) : ProbeBudget * Prober := fold_left (λ s o, probe_step o s) ops bp.

(** What adds up, as long as probe ids have not wrapped. *)
Definition accounted (p : Prober) : Prop :=
  let s := pr_stats p in
  0 ≤ st_Replied s ∧ 0 ≤ st_Lost s ∧ pr_nextProbeID p = st_Sent s
  ∧ st_Sent s = st_Replied s + st_Lost s + Z.of_nat (size (pr_outstanding p))
  ∧ map_Forall (λ id _, 0 ≤ id < pr_nextProbeID p) (pr_outstanding p).

Lemma probe_step_accounts o bp :
  accounted bp.2 → st_Sent (pr_stats bp.2) < 2 ^ 32 - 1 →
  accounted (probe_step o bp).2 ∧ st_Sent (pr_stats bp.2) ≤ st_Sent (pr_stats (probe_step o bp).2) ≤ st_Sent (pr_stats bp.2) + 1.
Proof.
  destruct bp as [b p]. cbn [snd]. intros (H1 & H2 & H3 & H4 & H5) Hlt.
  assert (∀ k (t : Time), pr_outstanding p !! k = Some t → k ≠ pr_nextProbeID p) as Hfresh.
  { intros k t Hk ->. apply H5 in Hk. cbn in Hk. lia. }
  destruct o as [now|now id|now]; cbn [probe_step fst snd].
  - unfold MaybeProbe. destruct (_ && _); [by cbn; split; [|lia]|].
    destruct (TryTake _ _ _) as [[|] b']; [|by cbn; split; [|lia]]. cbn.
    assert (wrap 32 (pr_nextProbeID p + 1) = st_Sent (pr_stats p) + 1) as E by (unfold wrap; rewrite Z.mod_small; lia).
    rewrite (u64_small (st_Sent (pr_stats p) + 1)) by lia. split; [|lia]. unfold accounted. cbn. rewrite E. split_and!; [done..| |].
    + rewrite map_size_insert_None; [lia|]. destruct (pr_outstanding p !! pr_nextProbeID p) eqn:Ek; [|done]. by apply Hfresh in Ek.
    + intros k t. destruct (decide (k = pr_nextProbeID p)) as [->|Hne]; [intros _; cbn; lia|].
      rewrite lookup_insert_ne by done. intros Hk%H5. cbn in Hk. lia.
  - unfold OnReply. destruct (pr_outstanding p !! id) as [t|] eqn:Ek; [|by split; [|lia]]. cbn. split; [|lia].
    assert (size (delete id (pr_outstanding p)) = pred (size (pr_outstanding p))) as Hs.
    { rewrite map_size_delete, Ek. done. }
    assert (size (pr_outstanding p) ≠ 0%nat) as Hnz by (rewrite map_size_non_empty_iff; by intros E; rewrite E in Ek).
    unfold accounted. cbn. rewrite Hs, u64_small by lia. split_and!; [lia|done|done|lia|by apply map_Forall_delete].
  - split; [|cbn; lia]. unfold accounted, ExpireTimeouts. cbn.
    pose proof (expired_partition now (pc_Timeout (pr_cfg p)) (pr_outstanding p)) as Hp.
    rewrite u64_small by lia. split_and!; [done|lia|done|lia|]. intros k t [Hk _]%map_lookup_filter_Some. by eapply H5.
Qed.

(** Every probe a prober sent is counted exactly once, as replied to, as
    lost, or as still outstanding, whatever ids replies carry and however often
    they come, until probe ids wrap. *)
Theorem prober_accounts c p b ops :
  NewProber c = Ok p → Z.of_nat (length ops) < 2 ^ 32 →
  let s := pr_stats (probe_run ops (b, p)).2 in
  st_Sent s = st_Replied s + st_Lost s + Z.of_nat (size (pr_outstanding (probe_run ops (b, p)).2))
  ∧ 0 ≤ st_Replied s ∧ 0 ≤ st_Lost s.
Proof.
  intros Hn Hlen. assert (accounted p ∧ st_Sent (pr_stats p) = 0) as [Ha H0].
  { unfold NewProber in Hn. destruct (prober_validate _ _ _); [|done]. injection Hn as <-. by split. }
  unfold probe_run. assert (∀ bp, accounted bp.2 → st_Sent (pr_stats bp.2) + Z.of_nat (length ops) < 2 ^ 32 →
    accounted (fold_left (λ s o, probe_step o s) ops bp).2) as Hrun.
  { clear. induction ops as [|o ops IH]; intros bp Ha Hl; [done|]. cbn [fold_left length] in *.
    destruct (probe_step_accounts o bp Ha) as [Ha' Hs]; [lia|]. apply IH; [done|lia]. }
  destruct (Hrun (b, p) Ha ltac:(cbn; lia)) as (? & ? & _ & ? & _). split_and!; done.
Qed.

(** ** What a packet sequence adds up to *)

Definition passive_run (l : list (Time * Z)) (p : PassiveTracker) : PassiveTracker := fold_left (λ p '(now, seq), pt_Observe now seq p) l p.

Lemma recordArrival_counts now c p :
  let p' := recordArrival now c p in
  pt_started p' = pt_started p ∧ pt_expectedNext p' = pt_expectedNext p ∧ pt_received p' = pt_received p ∧ pt_lost p' = pt_lost p ∧ pt_outOfOrder p' = pt_outOfOrder p.
Proof. done. Qed.

(** Packets counted in order plus packets counted lost are exactly the
    sequence numbers from the first packet up to the highest one; every packet
    is counted once, in order or out of order. *)
Theorem passive_accounts now first l :
  Forall (λ '(_, seq), 0 ≤ seq < 2 ^ 64 - 1) ((now, first) :: l) → Z.of_nat (length l) < 2 ^ 64 - 1 →
  let p := passive_run ((now, first) :: l) NewPassiveTracker in
  pt_received p = 1 + Z.of_nat (length l)
  ∧ pt_expectedNext p = 1 + fold_left Z.max l.*2 first
  ∧ (pt_received p - pt_outOfOrder p) + pt_lost p = pt_expectedNext p - first
  ∧ 0 ≤ pt_outOfOrder p ∧ 0 ≤ pt_lost p.
Proof.
  intros [Hf HF]%Forall_cons Hlen. unfold passive_run. cbn [fold_left].
  set (p0 := pt_Observe now first NewPassiveTracker).
  assert (∀ l p hi n, Forall (λ '(_, seq), 0 ≤ seq < 2 ^ 64 - 1) l → pt_started p = true → first ≤ hi < 2 ^ 64 - 1 →
    pt_received p = n → pt_expectedNext p = 1 + hi → (n - pt_outOfOrder p) + pt_lost p = 1 + hi - first → 0 ≤ pt_outOfOrder p < n → 0 ≤ pt_lost p →
    n + Z.of_nat (length l) < 2 ^ 64 →
    let p' := fold_left (λ p '(now, seq), pt_Observe now seq p) l p in
    pt_received p' = n + Z.of_nat (length l) ∧ pt_expectedNext p' = 1 + fold_left Z.max l.*2 hi
    ∧ (pt_received p' - pt_outOfOrder p') + pt_lost p' = pt_expectedNext p' - first ∧ 0 ≤ pt_outOfOrder p' ∧ 0 ≤ pt_lost p') as Hrun.
  { clear -Hf. induction l as [|[t seq] l IH]; intros p hi n HF Hst Hhi Hn He Ha Ho Hl Hlen; [cbn; lia|].
    apply Forall_cons in HF as [Hseq HF]. cbn beta iota in Hseq. cbn [fold_left fmap list_fmap length snd] in *.
    unfold pt_Observe. rewrite Hst. cbn [negb]. rewrite Hn, He, (u64_small (n + 1)) by lia.
    destruct (Z.eqb_spec seq (1 + hi)) as [E|E]; [|destruct (Z.gtb_spec seq (1 + hi))].
    - destruct (IH (recordArrival t true (mkPassive true (u64 (seq + 1)) (n + 1) (pt_lost p) (pt_outOfOrder p) (pt_lastArrival p) (pt_lastInterarrival p) (pt_haveLast p) (pt_jitterMicros p))) seq (n + 1)) as (E1 & E2 & E3 & E4 & E5);
        try done; try (cbn; rewrite ?u64_small; lia). rewrite Z.max_r by lia. cbv zeta. split_and!; [etransitivity; [exact E1|lia]|exact E2|exact E3|exact E4|exact E5].
    - destruct (IH (recordArrival t false (mkPassive true (u64 (seq + 1)) (n + 1) (u64 (pt_lost p + (seq - (1 + hi)))) (pt_outOfOrder p) (pt_lastArrival p) (pt_lastInterarrival p) (pt_haveLast p) (pt_jitterMicros p))) seq (n + 1)) as (E1 & E2 & E3 & E4 & E5);
        try done; try (cbn; rewrite ?u64_small; lia). rewrite Z.max_r by lia. cbv zeta. split_and!; [etransitivity; [exact E1|lia]|exact E2|exact E3|exact E4|exact E5].
    - destruct (IH (mkPassive true (1 + hi) (n + 1) (pt_lost p) (u64 (pt_outOfOrder p + 1)) (pt_lastArrival p) (pt_lastInterarrival p) (pt_haveLast p) (pt_jitterMicros p)) hi (n + 1)) as (E1 & E2 & E3 & E4 & E5);
        try done; try (cbn; rewrite ?u64_small; lia). rewrite Z.max_l by lia. cbv zeta. split_and!; [etransitivity; [exact E1|lia]|exact E2|exact E3|exact E4|exact E5]. }
  destruct (Hrun l p0 first 1 HF) as (H1 & H2 & H3 & H4 & H5); try done; try (unfold p0; cbn; rewrite ?u64_small; lia).
Qed.

(** ** Links *)

Lemma canonicalLinkID_comm a b : canonicalLinkID a b = canonicalLinkID b a.
Proof.
  unfold canonicalLinkID. destruct (str_ltb b a) eqn:E1, (str_ltb a b) eqn:E2; try done.
  - pose proof (str_ltb_trans _ _ _ E1 E2) as H. by rewrite str_ltb_irrefl in H.
  - by rewrite (str_ltb_total a b E2 E1).
Qed.

Lemma UpdateLink_Link now a b q t c d :
  table_Link c d (UpdateLink now a b q t)
  = if decide (canonicalLinkID c d = canonicalLinkID a b) then Some (mkQuality (lq_RTTMicros q) (lq_LossRate q) now) else table_Link c d t.
Proof.
  unfold table_Link, UpdateLink. case_decide as E; [by rewrite E, lookup_insert_eq|]. by rewrite lookup_insert_ne.
Qed.

(** The links of a path. *)
Fixpoint hops (path : list string) : list LinkID :=
  match path with a :: ((b :: _) as rest) => canonicalLinkID a b :: hops rest | _ => [] end.

Lemma PathCost_Ok_iff path t :
  (∃ q, PathCost path t = Ok q) ↔ (2 ≤ length path)%nat ∧ Forall (λ id, is_Some (t !! id)) (hops path).
Proof.
  unfold PathCost. destruct (Nat.ltb_spec (length path) 2) as [Hl|Hl]; [split; [by intros [? ?]|intros [? _]; lia]|].
  assert (∀ path rtt survival oldest, (∃ q, path_cost_loop path rtt survival oldest t = Ok q) ↔ Forall (λ id, is_Some (t !! id)) (hops path)) as Hloop.
  { clear. induction path as [|a [|b path] IH]; intros rtt survival oldest; [split; [done|by eexists]|split; [done|by eexists]|].
    cbn [path_cost_loop hops]. rewrite Forall_cons. destruct (t !! canonicalLinkID a b) as [q|] eqn:E.
    - split; [intros Hq; split; [done|exact (proj1 (IH _ _ _) Hq)]|intros [_ H]; exact (proj2 (IH _ _ _) H)].
    - split; [by intros [? ?]|]. intros [[? ?] _]. done. }
  rewrite Hloop. tauto.
Qed.

Module EstimatorsDemo.

Definition cfg : ProberConfig := mkProberConfig 64 Second (200 * Millisecond) (250 * Millisecond) 20.
Definition prober : Prober := mkProber cfg 0 ∅ zero_time false (mkProbeStats 0 0 0 f0).
Definition budget : ProbeBudget := NewProbeBudget 0 (of_int 65536) (of_int 65536).
Definition ops : list probe_op :=
  [OpProbe 0; OpProbe (Second / 4); OpProbe (Second / 2); OpReply (Second / 2) 1; OpReply (Second / 2) 1; OpReply 0 7; OpExpire (5 * Second / 4)].
Example counted : let s := pr_stats (probe_run ops (budget, prober)).2 in (st_Sent s, st_Replied s, st_Lost s) = (3, 1, 1).
Proof. by vm_compute. Qed.

Lemma prober_accounts_witness :
  st_Sent (pr_stats (probe_run ops (budget, prober)).2)
  = st_Replied (pr_stats (probe_run ops (budget, prober)).2) + st_Lost (pr_stats (probe_run ops (budget, prober)).2) + 1.
Proof. apply (prober_accounts cfg prober budget ops); done. Defined.

Definition arrivals : list (Time * Z) := [(1, 11); (2, 15); (3, 13); (4, 16)].
Lemma passive_accounts_witness :
  let p := passive_run ((0, 10) :: arrivals) NewPassiveTracker in (pt_received p - pt_outOfOrder p) + pt_lost p = pt_expectedNext p - 10.
Proof.
  apply (passive_accounts 0 10 arrivals); [by repeat (apply Forall_cons; split; [by vm_compute|])|done].
Defined.

End EstimatorsDemo.
