(* ===== verification/PathMon.v ===== *)
(** * The path monitor: internal/pathmon/window.go and monitor.go

    [Window] bounds the memory of a segment tracker with two trackers that take
    turns; [Monitor] probes a changing set of targets over one socket. The
    theorems: the stats of a window are those of a tracker that saw exactly the
    samples of the last half to full span, if calls are not further apart than
    that; every probe a target was sent is recorded once, as a reply or as a
    loss, or still awaited. *)

From S2P Require Import Prelude Netip GoFloat Cost Estimators.

(** ** window.go *)

Record Window := mkWindow { w_cfg : SegmentTrackerConfig; w_span : Duration; w_old : SegmentTracker; w_young : SegmentTracker; w_rotated : Time }.

Definition NewWindow (now : Time) (cfg : SegmentTrackerConfig) (span : Duration) : Window :=
  mkWindow cfg span (NewSegmentTracker cfg) (NewSegmentTracker cfg) now.

Definition rotateLocked (now : Time) (w : Window) : Window :=
  if time_Sub now (w_rotated w) <? Z.quot (w_span w) 2 then w
  else mkWindow (w_cfg w) (w_span w) (w_young w) (NewSegmentTracker (w_cfg w)) now.

Definition w_Observe (now : Time) (rtt : Duration) (w : Window) : Window :=
  let w := rotateLocked now w in
  let us := of_int (dur_Microseconds rtt) in
  mkWindow (w_cfg w) (w_span w) (t_Observe now us (w_old w)) (t_Observe now us (w_young w)) (w_rotated w).
Definition w_ObserveLoss (now : Time) (w : Window) : Window :=
  let w := rotateLocked now w in
  mkWindow (w_cfg w) (w_span w) (t_ObserveLoss now (w_old w)) (t_ObserveLoss now (w_young w)) (w_rotated w).
Definition w_Snapshot `{GoMath} (now : Time) (w : Window) : SegmentStats * Window :=
  let w := rotateLocked now w in (t_Snapshot now (w_old w), w).

(** ** monitor.go *)

Definition probeMagic : list Z := [69; 71; 80; 82].
Definition ProbeSize : nat := 64.
Definition headerLen : nat := 12.

(** The datagram [sender] builds. *)
Definition probe_packet (index id : Z) : list Z :=
  probeMagic ++ be_put 4 index ++ be_put 4 id ++ replicate (ProbeSize - headerLen) 0.
(** Whether a datagram is a probe, and what it carries. [Echo] returns exactly
    these to their senders. *)
Definition is_probe (buf : list Z) : bool := negb (length buf <? headerLen)%nat && bool_decide (take 4 buf = probeMagic).
Definition read_probe (buf : list Z) : option (Z * Z) :=
  if is_probe buf then Some (be_get (slice 4 8 buf), be_get (slice 8 12 buf)) else None.
Definition echo (buf : list Z) : option (list Z) := if is_probe buf then Some buf else None.

Record MonitorConfig := mkMonitorConfig {
  mc_FastInterval : Duration; mc_SteadyInterval : Duration; mc_RampSamples : Z; mc_Timeout : Duration; mc_Window : Duration;
  mc_Tracker : SegmentTrackerConfig;
}.
Definition DefaultMonitorConfig : MonitorConfig :=
  mkMonitorConfig (200 * Millisecond) (250 * Millisecond) 20 Second (10 * Second) DefaultSegmentTrackerConfig.
Definition prober_config (c : MonitorConfig) : ProberConfig :=
  mkProberConfig (Z.of_nat ProbeSize) (mc_Timeout c) (mc_FastInterval c) (mc_SteadyInterval c) (mc_RampSamples c).

(** [tg_log] is not in the program: the ids sent, and for each one that has been
    recorded whether it was answered. *)
Record target := mkTarget {
  tg_id : string; tg_index : Z; tg_addr : Addr * Z; tg_prober : Prober; tg_window : Window;
  tg_sent : gmap Z Time; tg_lastReply : Time;
  tg_log : list Z * list (Z * bool);
}.
(** Targets are objects: [m_objs] holds them by index, the maps of the monitor
    say which of them are current. *)
Record Monitor := mkMonitor {
  m_cfg : MonitorConfig; m_budget : ProbeBudget; m_objs : gmap Z target;
  m_targets : gmap string Z; m_byIndex : gset Z; m_nextIndex : Z;
}.
Definition NewMonitor (cfg : MonitorConfig) (b : ProbeBudget) : Monitor := mkMonitor cfg b ∅ ∅ ∅ 0.
Definition set_obj (i : Z) (t : target) (m : Monitor) : Monitor :=
  mkMonitor (m_cfg m) (m_budget m) (<[i := t]> (m_objs m)) (m_targets m) (m_byIndex m) (m_nextIndex m).
Definition set_budget (b : ProbeBudget) (m : Monitor) : Monitor :=
  mkMonitor (m_cfg m) b (m_objs m) (m_targets m) (m_byIndex m) (m_nextIndex m).

Section monitor.
Context `{Range}.

(** The first loop of [Set]: targets that go, or whose address changed. *)
Definition keeps_target (addrs : gmap string (Addr * Z)) (m : Monitor) (id : string) (i : Z) : bool :=
  match addrs !! id, m_objs m !! i with Some a, Some t => bool_decide (a = tg_addr t) | _, _ => false end.
Definition set_drop (addrs : gmap string (Addr * Z)) (m : Monitor) (kv : string * Z) : Monitor :=
  if keeps_target addrs m kv.1 kv.2 then m
  else mkMonitor (m_cfg m) (m_budget m) (m_objs m) (delete kv.1 (m_targets m)) (m_byIndex m ∖ {[kv.2]}) (m_nextIndex m).
(** The second loop: targets that come; a prober's error ends it. *)
Fixpoint set_add (now : Time) (l : list (string * (Addr * Z))) (m : Monitor) : res string () * Monitor :=
  match l with
  | [] => (Ok (), m)
  | (id, a) :: l =>
      match m_targets m !! id with
      | Some _ => set_add now l m
      | None =>
          let i := m_nextIndex m in
          let m := mkMonitor (m_cfg m) (m_budget m) (m_objs m) (m_targets m) (m_byIndex m) (wrap 32 (i + 1)) in
          match NewProber (prober_config (m_cfg m)) with
          | Err e => (Err e, m)
          | Ok p =>
              let t := mkTarget id i a p (NewWindow now (mc_Tracker (m_cfg m)) (mc_Window (m_cfg m))) ∅ zero_time ([], []) in
              set_add now l (mkMonitor (m_cfg m) (m_budget m) (<[i := t]> (m_objs m)) (<[id := i]> (m_targets m)) ({[i]} ∪ m_byIndex m) (m_nextIndex m))
          end
      end
  end.
Definition mon_Set (now : Time) (addrs : gmap string (Addr * Z)) (m : Monitor) : res string () * Monitor :=
  set_add now (range addrs) (fold_left (set_drop addrs) (range (m_targets m)) m).

(** The loop of [tick] over the probes of one target, in the order the map is ranged. *)
Definition expire_one (now : Time) (timeout : Duration) (t : target) (kv : Z * Time) : target :=
  if timeout <=? time_Sub now kv.2
  then mkTarget (tg_id t) (tg_index t) (tg_addr t) (tg_prober t) (w_ObserveLoss now (tg_window t)) (delete kv.1 (tg_sent t)) (tg_lastReply t)
         ((tg_log t).1, (tg_log t).2 ++ [(kv.1, false)])
  else t.
Definition tick_expire (now : Time) (i : Z) (m : Monitor) : Monitor :=
  match m_objs m !! i with
  | None => m
  | Some t => set_obj i (fold_left (expire_one now (mc_Timeout (m_cfg m))) (range (tg_sent t)) t) m
  end.
(** The locked part of [tick]. *)
Definition tick_locked (now : Time) (m : Monitor) : Monitor := fold_left (λ m kv, tick_expire now kv.2 m) (range (m_targets m)) m.

(** For one target: the prober's timeouts, and a probe if it is due; the datagram. *)
Definition tick_probe (now : Time) (i : Z) (m : Monitor) : option (list Z) * Monitor :=
  match m_objs m !! i with
  | None => (None, m)
  | Some t =>
      let p := ExpireTimeouts now (tg_prober t) in
      match MaybeProbe now (m_budget m) p with
      | (None, b, p) => (None, set_budget b (set_obj i (mkTarget (tg_id t) (tg_index t) (tg_addr t) p (tg_window t) (tg_sent t) (tg_lastReply t) (tg_log t)) m))
      | (Some id, b, p) =>
          (Some (probe_packet i id),
           set_budget b (set_obj i (mkTarget (tg_id t) (tg_index t) (tg_addr t) p (tg_window t) (<[id := now]> (tg_sent t)) (tg_lastReply t)
             ((tg_log t).1 ++ [id], (tg_log t).2)) m))
      end
  end.

(** A datagram arrives. *)
Definition receive (now : Time) (buf : list Z) (m : Monitor) : Monitor :=
  match read_probe buf with
  | None => m
  | Some (index, id) =>
      if negb (bool_decide (index ∈ m_byIndex m)) then m else
      match m_objs m !! index with
      | None => m
      | Some t =>
          match tg_sent t !! id with
          | None => m
          | Some sentAt =>
              set_obj index (mkTarget (tg_id t) (tg_index t) (tg_addr t) (OnReply now id (tg_prober t))
                (w_Observe now (time_Sub now sentAt) (tg_window t)) (delete id (tg_sent t)) now ((tg_log t).1, (tg_log t).2 ++ [(id, true)])) m
          end
      end
  end.

Definition mon_Stats `{GoMath} (now : Time) (id : string) (m : Monitor) : option (SegmentStats * Time) * Monitor :=
  match m_targets m !! id with
  | None => (None, m)
  | Some i =>
      match m_objs m !! i with
      | None => (None, m)
      | Some t =>
          let '(st, w) := w_Snapshot now (tg_window t) in
          (Some (st, tg_lastReply t),
           set_obj i (mkTarget (tg_id t) (tg_index t) (tg_addr t) (tg_prober t) w (tg_sent t) (tg_lastReply t) (tg_log t)) m)
      end
  end.

End monitor.

(** ** What a window remembers *)

Inductive sample := SRtt (d : Duration) | SLoss.
Definition record (now : Time) (x : sample) (t : SegmentTracker) : SegmentTracker :=
  match x with SRtt d => t_Observe now (of_int (dur_Microseconds d)) t | SLoss => t_ObserveLoss now t end.
(** A tracker that saw exactly these samples. *)
Definition fed (cfg : SegmentTrackerConfig) (l : list (Time * sample)) : SegmentTracker :=
  fold_left (λ t '(now, x), record now x t) l (NewSegmentTracker cfg).

(** A call of [Observe] or [ObserveLoss], or of [Snapshot]. *)
Definition w_step (w : Window) (c : Time * option sample) : Window :=
  match c with
  | (now, Some (SRtt d)) => w_Observe now d w
  | (now, Some SLoss) => w_ObserveLoss now w
  | (now, None) => rotateLocked now w
  end.
Definition w_run (calls : list (Time * option sample)) (w : Window) : Window := fold_left w_step calls w.
Definition samples (calls : list (Time * option sample)) : list (Time * sample) :=
  omap (λ '(now, o), match o with Some x => Some (now, x) | None => None end) calls.

(** Calls in order of time, none more than [g] after the one before. *)
Fixpoint paced (g : Duration) (t : Time) (calls : list (Time * option sample)) : Prop :=
  match calls with [] => True | (t', _) :: calls => t ≤ t' ≤ t + g ∧ paced g t' calls end.
Definition last_call (t0 : Time) (calls : list (Time * option sample)) : Time := default t0 (last calls.*1).

Lemma last_call_cons t0 t o calls : last_call t0 ((t, o) :: calls) = last_call t calls.
Proof. unfold last_call. rewrite fmap_cons, last_cons. by destruct (last calls.*1). Qed.

Lemma fed_snoc cfg l now x : fed cfg (l ++ [(now, x)]) = record now x (fed cfg l).
Proof. unfold fed. by rewrite fold_left_app. Qed.

(** [older] is forgotten; the old tracker saw [mid] and [young], the young one
    [young]; [start] is when the old one began. *)
Record remembers (cfg : SegmentTrackerConfig) (span g t0 : Z) (w : Window) (now : Time) (log : list (Time * sample)) : Prop := {
  rm_cfg : w_cfg w = cfg ∧ w_span w = span;
  rm_split : ∃ older mid young start,
    log = older ++ mid ++ young ∧ w_old w = fed cfg (mid ++ young) ∧ w_young w = fed cfg young
    ∧ Forall (λ s, s.1 ≤ start) older ∧ Forall (λ s, start ≤ s.1 ≤ w_rotated w) mid ∧ Forall (λ s, w_rotated w ≤ s.1 ≤ now) young
    ∧ t0 ≤ start ≤ w_rotated w ∧ w_rotated w ≤ now
    ∧ ((older = [] ∧ mid = [] ∧ start = t0 ∧ w_rotated w = t0) ∨ Z.quot span 2 ≤ w_rotated w - start < Z.quot span 2 + g);
  rm_now : now - w_rotated w < Z.quot span 2;
}.

Lemma rotate_remembers cfg span g t0 w now log now' :
  2 ≤ span → 0 ≤ t0 → now ≤ now' ≤ now + g → now' ≤ i64_max →
  remembers cfg span g t0 w now log → remembers cfg span g t0 (rotateLocked now' w) now' log.
Proof.
  intros Hsp H0 Hnow Hmax [[Hc Hs] (older & mid & young & start & Hlog & Ho & Hy & F1 & F2 & F3 & Hst & Hr & Hcase) Hn].
  assert (1 ≤ Z.quot span 2) as Hq by (apply Z.quot_le_lower_bound; lia).
  unfold rotateLocked. rewrite Hs. assert (time_Sub now' (w_rotated w) = now' - w_rotated w) as -> by (unfold time_Sub, i64_min, i64_max in *; lia).
  destruct (Z.ltb_spec (now' - w_rotated w) (Z.quot span 2)) as [Hlt|Hge].
  - split; [done| |lia]. exists older, mid, young, start. split_and!; try done; try lia.
    eapply Forall_impl; [exact F3|]. cbn. intros s ?. lia.
  - split; [done| |cbn; lia]. cbn [w_old w_young w_rotated].
    exists (older ++ mid), young, [], (w_rotated w). rewrite app_nil_r. split_and!; try done; try lia; [by rewrite <- app_assoc|by rewrite Hc| |].
    + apply Forall_app. split; (eapply Forall_impl; [eassumption|]); cbn; intros s ?; lia.
    + eapply Forall_impl; [exact F3|]. cbn. intros s ?. lia.
Qed.

Lemma step_remembers cfg span g t0 w now log now' o :
  2 ≤ span → 0 ≤ t0 → now ≤ now' ≤ now + g → now' ≤ i64_max →
  remembers cfg span g t0 w now log → remembers cfg span g t0 (w_step w (now', o)) now' (log ++ samples [(now', o)]).
Proof.
  intros Hsp H0 Hnow Hmax Hrm. apply (rotate_remembers _ _ _ _ _ _ _ now') in Hrm; [|done..].
  destruct o as [x|]; [|by cbn; rewrite app_nil_r]. set (w1 := rotateLocked now' w) in *.
  assert (w_step w (now', Some x) = mkWindow (w_cfg w1) (w_span w1) (record now' x (w_old w1)) (record now' x (w_young w1)) (w_rotated w1)) as ->
    by (by destruct x).
  destruct Hrm as [[Hc Hs] (older & mid & young & start & Hlog & Ho & Hy & F1 & F2 & F3 & Hst & Hr & Hcase) Hn].
  split; [done| |done]. cbn [w_old w_young w_rotated samples omap list_omap].
  exists older, mid, (young ++ [(now', x)]), start. rewrite Hlog, Ho, Hy, fed_snoc.
  split_and!; try done; try lia; [by rewrite <- !app_assoc|by rewrite app_assoc, fed_snoc|]. apply Forall_app. split; [done|]. constructor; [cbn; lia|constructor].
Qed.

(** The old tracker of a window, whose stats it reports, is the tracker that
    saw exactly the samples since some instant: between half a span and a span
    ago, plus at most the longest time between two calls, or since the window
    was made if that is less than half a span ago. *)
Theorem window_recent cfg span g t0 calls :
  2 ≤ span → 0 ≤ t0 → 0 ≤ g → paced g t0 calls → last_call t0 calls ≤ i64_max →
  let w := w_run calls (NewWindow t0 cfg span) in
  let now := last_call t0 calls in
  ∃ older recent start,
    samples calls = older ++ recent ∧ w_old w = fed cfg recent
    ∧ Forall (λ s, s.1 ≤ start) older ∧ Forall (λ s, start ≤ s.1) recent
    ∧ (older = [] ∧ start = t0 ∨ Z.quot span 2 ≤ now - start) ∧ now - start < 2 * Z.quot span 2 + g.
Proof.
  intros Hsp H0 Hg Hp Hmax w now.
  assert (∀ calls w1 now1 log, paced g now1 calls → last_call now1 calls ≤ i64_max → remembers cfg span g t0 w1 now1 log →
    remembers cfg span g t0 (w_run calls w1) (last_call now1 calls) (log ++ samples calls)) as Hrun.
  { clear -Hsp H0. induction calls as [|[t o] calls IH]; intros w1 now1 log Hp Hmax Hrm; [by rewrite app_nil_r|].
    rewrite last_call_cons in *. destruct Hp as [Ht Hp]. cbn [w_run fold_left].
    assert (t ≤ last_call t calls) as Hle.
    { clear -Hp. revert t Hp. induction calls as [|[t' o'] calls IH]; intros t Hp; [done|]. destruct Hp as [? Hp]. apply IH in Hp.
      rewrite last_call_cons. lia. }
    replace (log ++ samples ((t, o) :: calls)) with ((log ++ samples [(t, o)]) ++ samples calls)
      by (rewrite <- app_assoc; f_equal; by destruct o).
    apply IH; [done..|]. eapply step_remembers; try done. lia. }
  destruct (Hrun calls (NewWindow t0 cfg span) t0 [] Hp Hmax) as [_ (older & mid & young & start & Hlog & Ho & _ & F1 & F2 & F3 & Hst & Hr & Hcase) Hn].
  { assert (1 ≤ Z.quot span 2) by (apply Z.quot_le_lower_bound; lia). split; [done| |cbn; lia]. exists [], [], [], t0. cbn. split_and!; try done; try lia. by left. }
  exists older, (mid ++ young), start. cbn [app] in Hlog. fold w in Ho, F2, F3, Hst, Hr, Hcase, Hn. fold now in F3, Hr, Hn.
  split_and!; [done|done|done| | |].
  - apply Forall_app. split; (eapply Forall_impl; [eassumption|]); cbn; intros s ?; lia.
  - destruct Hcase as [(-> & _ & -> & _)|?]; [by left|right; lia].
  - destruct Hcase as [(_ & _ & ? & ?)|?]; lia.
Qed.

(** ** Every probe is recorded once *)

Section recorded.
Context {RG : Range} {RL : RangeLaws} {GM : GoMath}.

Inductive mon_action :=
| MSet (now : Time) (addrs : gmap string (Addr * Z))
| MTick (now : Time)
| MProbe (now : Time) (i : Z)
| MReceive (now : Time) (buf : list Z)
| MStats (now : Time) (id : string).
Definition mon_step (m : Monitor) (a : mon_action) : Monitor :=
  match a with
  | MSet now addrs => (mon_Set now addrs m).2
  | MTick now => tick_locked now m
  | MProbe now i => (tick_probe now i m).2
  | MReceive now buf => receive now buf m
  | MStats now id => (mon_Stats now id m).2
  end.
Definition mon_run (l : list mon_action) (m : Monitor) : Monitor := fold_left mon_step l m.

(** The ids sent so far are 0, 1, ..., each either recorded or awaited. *)
Record target_ok (k : nat) (t : target) : Prop := {
  to_sent : (tg_log t).1 = Z.of_nat <$> seq 0 (length (tg_log t).1);
  to_next : pr_nextProbeID (tg_prober t) = Z.of_nat (length (tg_log t).1);
  to_bound : (length (tg_log t).1 ≤ k)%nat;
  to_split : (tg_log t).2.*1 ++ (map_to_list (tg_sent t)).*1 ≡ₚ (tg_log t).1;
}.
Definition targets_ok (k : nat) (m : Monitor) : Prop := map_Forall (λ _ t, target_ok k t) (m_objs m).

Lemma target_ok_le k k' t : (k ≤ k')%nat → target_ok k t → target_ok k' t.
Proof. intros Hle [H1 H2 H3 H4]. split; [done..|lia|done]. Qed.

Lemma set_obj_ok k i t m : target_ok k t → targets_ok k m → targets_ok k (set_obj i t m).
Proof. intros. by apply map_Forall_insert_2. Qed.

(** A probe leaves the map and is recorded. *)
Lemma record_one k t id at_ p w last b :
  target_ok k t → tg_sent t !! id = Some at_ → pr_nextProbeID p = pr_nextProbeID (tg_prober t) →
  target_ok k (mkTarget (tg_id t) (tg_index t) (tg_addr t) p w (delete id (tg_sent t)) last ((tg_log t).1, (tg_log t).2 ++ [(id, b)])).
Proof.
  intros [H1 H2 H3 H4] Hid Hp. split; cbn; [done|by rewrite Hp|done|].
  rewrite <- H4, <- (map_to_list_delete _ _ _ Hid), fmap_app, <- app_assoc. cbn. done.
Qed.

Lemma expire_fold k now timeout l t :
  target_ok k t → NoDup l.*1 → (∀ id at_, (id, at_) ∈ l → tg_sent t !! id = Some at_) →
  target_ok k (fold_left (expire_one now timeout) l t).
Proof.
  revert t. induction l as [|[id at_] l IH]; intros t Hok Hnd Hl; [done|]. cbn [fold_left fmap list_fmap fst] in *.
  apply NoDup_cons in Hnd as [Hni Hnd]. unfold expire_one at 2. cbn [fst snd]. destruct (timeout <=? _).
  - apply IH; [|done|].
    + eapply record_one; [done|by apply Hl; left|done].
    + intros id' at' Hin. cbn. rewrite lookup_delete_ne; [apply Hl; by right|]. intros ->. apply Hni. apply list_elem_of_fmap. by exists (id', at').
  - apply IH; [done..|]. intros. apply Hl. by right.
Qed.

Lemma tick_expire_ok k now i m : targets_ok k m → targets_ok k (tick_expire now i m).
Proof.
  intros Hok. unfold tick_expire. destruct (m_objs m !! i) as [t|] eqn:E; [|done]. apply set_obj_ok; [|done].
  apply expire_fold; [by eapply Hok|by rewrite range_perm; apply NoDup_fst_map_to_list|].
  intros id at_ Hin. rewrite range_perm in Hin. by apply elem_of_map_to_list.
Qed.

Lemma NewProber_next c p : NewProber c = Ok p → pr_nextProbeID p = 0.
Proof. unfold NewProber. destruct (prober_validate _ _ _); [|done]. by intros [= <-]. Qed.

Lemma mon_Set_ok k now addrs m : targets_ok k m → targets_ok k (mon_Set now addrs m).2.
Proof.
  intros Hok. unfold mon_Set.
  assert (∀ l m, targets_ok k m → targets_ok k (fold_left (set_drop addrs) l m)) as Hdrop.
  { clear. induction l as [|kv l IH]; intros m Hok; [done|]. cbn. apply IH. unfold set_drop. by destruct (keeps_target _ _ _ _). }
  assert (∀ l m, targets_ok k m → targets_ok k (set_add now l m).2) as Hadd.
  { clear. induction l as [|[id a] l IH]; intros m Hok; [done|]. cbn [set_add]. destruct (m_targets m !! id); [by apply IH|].
    cbn [m_cfg]. destruct (NewProber (prober_config (m_cfg m))) as [p|] eqn:Ep; [|done]. apply IH. unfold targets_ok. cbn [m_objs].
    apply map_Forall_insert_2; [|exact Hok]. apply NewProber_next in Ep. by split; cbn; [|rewrite Ep|lia|rewrite map_to_list_empty]. }
  by apply Hadd, Hdrop.
Qed.

Lemma tick_probe_ok k now i m : Z.of_nat k < 2 ^ 32 - 1 → targets_ok k m → targets_ok (S k) (tick_probe now i m).2.
Proof.
  intros Hk Hok. assert (targets_ok (S k) m) as Hok' by (eapply map_Forall_impl; [exact Hok|]; cbn; intros _ t; apply target_ok_le; lia).
  unfold tick_probe. destruct (m_objs m !! i) as [t|] eqn:E; [|done]. pose proof (Hok i t E) as Ht. cbn in Ht.
  unfold MaybeProbe. cbn [pr_cfg ExpireTimeouts pr_stats st_Sent].
  assert (∀ b p, pr_nextProbeID p = pr_nextProbeID (tg_prober t) → targets_ok (S k) (set_budget b (set_obj i
    (mkTarget (tg_id t) (tg_index t) (tg_addr t) p (tg_window t) (tg_sent t) (tg_lastReply t) (tg_log t)) m))) as Hnone.
  { intros b p Hp. apply (set_obj_ok _ i _ m); [|done]. destruct Ht as [H1 H2 H3 H4]. split; cbn; [done|by rewrite Hp|lia|done]. }
  destruct (_ && _); [by apply Hnone|]. destruct (TryTake _ _ _) as [[|] b]; [|by apply Hnone].
  cbn [snd]. apply (set_obj_ok _ i _ m); [|done]. destruct Ht as [H1 H2 H3 H4]. cbn.
  assert (wrap 32 (pr_nextProbeID (tg_prober t) + 1) = Z.of_nat (S (length (tg_log t).1))) as En.
  { rewrite H2. unfold wrap. rewrite Z.mod_small; lia. }
  assert (tg_sent t !! pr_nextProbeID (tg_prober t) = None) as Hfresh.
  { destruct (tg_sent t !! pr_nextProbeID (tg_prober t)) as [x|] eqn:Ex; [|done]. exfalso.
    assert (pr_nextProbeID (tg_prober t) ∈ (tg_log t).1) as Hin.
    { rewrite <- H4. apply elem_of_app. right. apply list_elem_of_fmap. exists (pr_nextProbeID (tg_prober t), x).
      split; [done|]. by apply elem_of_map_to_list. }
    rewrite H1 in Hin. apply list_elem_of_fmap in Hin as (j & Hj & Hin). apply elem_of_seq in Hin. rewrite H2 in Hj. lia. }
  split; cbn; rewrite ?length_app; cbn [length].
  - rewrite Nat.add_1_r, seq_S, fmap_app. cbn. by rewrite <- H1, H2.
  - rewrite En. lia.
  - lia.
  - rewrite map_to_list_insert by done. cbn. rewrite <- H4. by rewrite <- Permutation_middle, Permutation_cons_append.
Qed.

Lemma OnReply_next now id p : pr_nextProbeID (OnReply now id p) = pr_nextProbeID p.
Proof. unfold OnReply. by destruct (pr_outstanding p !! id). Qed.

Lemma mon_step_ok k m a : Z.of_nat k < 2 ^ 32 - 1 → targets_ok k m → targets_ok (S k) (mon_step m a).
Proof.
  intros Hk Hok. assert (∀ m, targets_ok k m → targets_ok (S k) m) as Hle.
  { intros m' Hm'. eapply map_Forall_impl; [exact Hm'|]. cbn. intros _ t. apply target_ok_le. lia. }
  destruct a as [now addrs|now|now i|now buf|now id]; cbn [mon_step].
  - by apply Hle, mon_Set_ok.
  - apply Hle. unfold tick_locked. generalize (range (m_targets m)) as l. intros l. revert m Hok.
    induction l as [|kv l IH]; intros m Hok; [done|]. cbn [fold_left]. by apply IH, tick_expire_ok.
  - by apply tick_probe_ok.
  - apply Hle. unfold receive. destruct (read_probe buf) as [[index id]|]; [|done]. destruct (negb _); [done|].
    destruct (m_objs m !! index) as [t|] eqn:E; [|done]. destruct (tg_sent t !! id) as [at_|] eqn:Es; [|done].
    apply set_obj_ok; [|done]. eapply record_one; [by eapply Hok|done|apply OnReply_next].
  - apply Hle. unfold mon_Stats. destruct (m_targets m !! id) as [i|]; [|done]. destruct (m_objs m !! i) as [t|] eqn:E; [|done].
    cbn. apply set_obj_ok; [|done]. destruct (Hok i t E) as [H1 H2 H3 H4]. by split.
Qed.

(** Whatever comes in and in whatever order, each probe sent to a target is
    recorded in its window at most once, as a reply or as a loss, never both;
    those not recorded are the ones still awaited. Late and repeated replies,
    and replies to probes never sent, are not recorded. *)
Theorem probes_recorded_once cfg b l i t :
  Z.of_nat (length l) < 2 ^ 32 → m_objs (mon_run l (NewMonitor cfg b)) !! i = Some t →
  let '(sent, recorded) := tg_log t in
  NoDup sent ∧ NoDup recorded.*1 ∧ (∀ id, id ∈ sent ↔ id ∈ recorded.*1 ∨ is_Some (tg_sent t !! id))
  ∧ (∀ id, id ∈ recorded.*1 → tg_sent t !! id = None).
Proof.
  intros Hlen Ht.
  assert (∀ l k m, Z.of_nat k + Z.of_nat (length l) < 2 ^ 32 → targets_ok k m → targets_ok (k + length l) (mon_run l m)) as Hrun.
  { clear -RL. induction l as [|a l IH]; intros k m Hlen Hok; [by rewrite Nat.add_0_r|]. cbn [mon_run fold_left length] in *.
    rewrite <- Nat.add_succ_comm. apply IH; [lia|]. apply mon_step_ok; [lia|done]. }
  assert (target_ok (0 + length l) t) as [H1 _ _ H4].
  { eapply (Hrun l 0%nat (NewMonitor cfg b)); [lia|done|exact Ht]. }
  destruct (tg_log t) as [sent recorded]. cbn in *.
  assert (NoDup sent) as Hnd by (rewrite H1; apply NoDup_fmap; [apply _|apply NoDup_seq]).
  rewrite <- H4 in Hnd. apply NoDup_app in Hnd as (N1 & N2 & N3).
  assert (∀ id, id ∈ (map_to_list (tg_sent t)).*1 ↔ is_Some (tg_sent t !! id)) as Hdom.
  { intros id. rewrite list_elem_of_fmap. split.
    - intros ([j x] & -> & Hj%elem_of_map_to_list). by eexists.
    - intros [x Hx]. exists (id, x). split; [done|]. by apply elem_of_map_to_list. }
  split_and!; [|done| |].
  - rewrite <- H4. by apply NoDup_app.
  - intros id. by rewrite <- H4, elem_of_app, Hdom.
  - intros id Hid. destruct (tg_sent t !! id) eqn:E; [|done]. exfalso. eapply N2; [exact Hid|]. apply Hdom. by eexists.
Qed.

(** A probe that comes back carries the target and the id it was sent with. *)
Lemma read_probe_packet index id : 0 ≤ index < 2 ^ 32 → 0 ≤ id < 2 ^ 32 → read_probe (probe_packet index id) = Some (index, id).
Proof.
  intros Hi Hd.
  assert (∀ z, 0 ≤ z < 2 ^ 32 → be_get (be_put 4 z) = z) as Hget.
  { intros z Hz. rewrite be_get_put_mod. rewrite Z.mod_small; [done|]. change (256 ^ Z.of_nat 4) with (2 ^ 32). lia. }
  pose proof (Hget index Hi) as E1. pose proof (Hget id Hd) as E2. unfold probe_packet.
  pose proof (length_be_put 4 index) as L1. pose proof (length_be_put 4 id) as L2.
  destruct (be_put 4 index) as [|a0 [|a1 [|a2 [|a3 [|? ?]]]]]; try done.
  destruct (be_put 4 id) as [|b0 [|b1 [|b2 [|b3 [|? ?]]]]]; try done.
  change (read_probe _) with (Some (be_get [a0; a1; a2; a3], be_get [b0; b1; b2; b3])). by rewrite E1, E2.
Qed.

End recorded.

Module PathMonDemo.

#[local] Instance map_range : Range := {| range K _ _ V m := map_to_list m |}.
#[local] Instance map_range_laws : RangeLaws.
Proof. done. Qed.
#[local] Instance some_math : GoMath := {| math_Log x := x; math_Exp2 _ := f1 |}.

Definition cfg : SegmentTrackerConfig := DefaultSegmentTrackerConfig.
Definition calls : list (Time * option sample) :=
  [(1 * Second, Some (SRtt (5 * Millisecond))); (4 * Second, Some SLoss); (6 * Second, Some (SRtt (9 * Millisecond)));
   (9 * Second, None); (12 * Second, Some (SRtt (7 * Millisecond)))].
Lemma window_recent_witness :
  ∃ older recent start,
    samples calls = older ++ recent ∧ w_old (w_run calls (NewWindow 0 cfg (10 * Second))) = fed cfg recent
    ∧ Forall (λ s, s.1 ≤ start) older ∧ Forall (λ s, start ≤ s.1) recent
    ∧ (older = [] ∧ start = 0 ∨ Z.quot (10 * Second) 2 ≤ 12 * Second - start) ∧ 12 * Second - start < 2 * Z.quot (10 * Second) 2 + 3 * Second.
Proof. apply (window_recent cfg (10 * Second) (3 * Second) 0 calls); [done|done|done|cbn; unfold Second, Millisecond, Microsecond; lia|done]. Defined.

(** *** After a pause the window reports samples older than its span

    It forgets half a span at a time, and only when it is called: a sample of the
    first second is still reported a hundred seconds later, by a window of ten. *)
Lemma window_idle_keeps :
  N (w_Snapshot (100 * Second) (w_Observe (1 * Second) (5 * Millisecond) (NewWindow 0 cfg (10 * Second)))).1 = 1.
Proof. vm_compute. reflexivity. Qed.

(** A probe answered twice, one lost, a stray id, and one awaited. *)
Definition mcfg : MonitorConfig := DefaultMonitorConfig.
Definition run : list mon_action :=
  [MSet 0 {["a" := (Addr4 1, 7)]}; MProbe Second 0; MReceive (5 * Second / 4) (probe_packet 0 0); MReceive (5 * Second / 4) (probe_packet 0 0);
   MProbe (2 * Second) 0; MReceive (2 * Second) (probe_packet 0 9); MTick (4 * Second); MReceive (4 * Second) (probe_packet 0 1); MProbe (5 * Second) 0].
Definition after : Monitor := mon_run run (NewMonitor mcfg (NewProbeBudget 0 (of_int 65536) (of_int 65536))).
Definition the_target : target := default (mkTarget "" 0 (Addr4 0, 0) (mkProber (prober_config mcfg) 0 ∅ 0 false (mkProbeStats 0 0 0 f0)) (NewWindow 0 cfg 0) ∅ 0 ([], [])) (m_objs after !! 0).
Example log_of_run : tg_log the_target = ([0; 1; 2], [(0, true); (1, false)]).
Proof. vm_compute. reflexivity. Qed.

Lemma probes_recorded_once_witness : NoDup [0; 1; 2] ∧ NoDup [0; 1].
Proof.
  pose proof (probes_recorded_once mcfg (NewProbeBudget 0 (of_int 65536) (of_int 65536)) run 0 the_target ltac:(done) ltac:(vm_compute; reflexivity)) as H.
  rewrite log_of_run in H. destruct H as (H1 & H2 & _). split; [exact H1|exact H2].
Defined.

End PathMonDemo.
