(* ===== verification/EgressObserver.v ===== *)
(** * The egress observer: internal/measurement/egress.go, and the trackers of destgroup.go

    What an egress gateway learns from the TCP and UDP headers that pass: per
    destination prefix the round trips of handshakes, SYN retransmissions and
    UDP packets. An index or slice expression out of range would be [None]; the
    clock is an argument. The reference is the history of what was seen, newest
    first: a SYN is outstanding when nothing since has answered or evicted it.

    The trackers of [DestinationGroups] are shared objects: [g_Tracker] returns
    which one. *)

From S2P Require Import Prelude Netip Flow GoFloat Rib Estimators.

(** ** Packets *)

Definition tcpFlagSYN : Z := 2.
Definition tcpFlagACK : Z := 16.

Inductive obs_error :=
| ObsEmpty
| ObsV4Short (len : nat)
| ObsV4Header (ihl len : nat)
| ObsV6Short (len : nat)
| ObsVersion (v : Z)
| ObsTCPShort (len : nat).

Definition parseIPHeader (packet : bytes) : option (res obs_error (Addr * Addr * Z * bytes)) :=
  if (length packet <? 1)%nat then Some (Err ObsEmpty) else
  b0 ← packet !! 0%nat;
  let v := Z.shiftr b0 4 in
  if v =? 4 then
    if (length packet <? 20)%nat then Some (Err (ObsV4Short (length packet))) else
    let ihl := (Z.to_nat (Z.land b0 15) * 4)%nat in
    if (ihl <? 20)%nat || (length packet <? ihl)%nat then Some (Err (ObsV4Header ihl (length packet))) else
    src ← slice_chk 12 16 packet;
    dst ← slice_chk 16 20 packet;
    proto ← packet !! 9%nat;
    payload ← slice_chk ihl (length packet) packet;
    Some (Ok (AddrFrom4 src, AddrFrom4 dst, proto, payload))
  else if v =? 6 then
    if (length packet <? ipv6HeaderLen)%nat then Some (Err (ObsV6Short (length packet))) else
    src ← slice_chk 8 24 packet;
    dst ← slice_chk 24 40 packet;
    proto ← packet !! 6%nat;
    payload ← slice_chk ipv6HeaderLen (length packet) packet;
    Some (Ok (AddrFrom16 src, AddrFrom16 dst, proto, payload))
  else Some (Err (ObsVersion v)).

Record tcpSegment := mkSegment {
  sg_SrcAddr : Addr; sg_SrcPort : Z; sg_DstAddr : Addr; sg_DstPort : Z; sg_Seq : Z; sg_SYN : bool; sg_ACK : bool }.

(** ** Statistics *)

Inductive Confidence := ConfidenceNone | ConfidenceLow | ConfidenceHigh.
Definition Confidence_String (c : Confidence) : string :=
  match c with ConfidenceNone => "none" | ConfidenceLow => "low" | ConfidenceHigh => "high" end.

Record PrefixStats := mkPrefixStats {
  px_Prefix : Prefix; px_RTTMicros : float64; px_Handshakes : Z; px_Retransmits : Z; px_UDPPackets : Z }.
Definition newPrefixStats (p : Prefix) : PrefixStats := mkPrefixStats p f0 0 0 0.

Definition px_Confidence (s : PrefixStats) : Confidence :=
  if (0 <? px_Handshakes s) || (0 <? px_Retransmits s) then ConfidenceHigh
  else if 0 <? px_UDPPackets s then ConfidenceLow
  else ConfidenceNone.

Definition px_LossRate (s : PrefixStats) : float64 :=
  let total := u64 (px_Handshakes s + px_Retransmits s) in
  if total =? 0 then f0 else fdiv (of_int (px_Retransmits s)) (of_int total).

Record fourTuple := mkTuple { ft_SrcAddr : Addr; ft_DstAddr : Addr; ft_SrcPort : Z; ft_DstPort : Z }.

#[export] Instance fourTuple_eq_dec : EqDecision fourTuple.
Proof. solve_decision. Defined.
#[export] Instance fourTuple_countable : Countable fourTuple.
Proof.
  refine (inj_countable' (λ k, (ft_SrcAddr k, ft_DstAddr k, ft_SrcPort k, ft_DstPort k)) (λ '(a, b, c, d), mkTuple a b c d) _).
  by intros [].
Defined.

Record pendingHandshake := mkHandshake { ph_seq : Z; ph_sentAt : Time }.

Record EgressObserver := mkObserver {
  o_prefix : PrefixBits; o_outbound : gmap fourTuple pendingHandshake; o_stats : gmap Prefix PrefixStats }.

Definition NewEgressObserver (prefix : PrefixBits) : EgressObserver := mkObserver prefix ∅ ∅.

Definition set_outbound (f : gmap fourTuple pendingHandshake → gmap fourTuple pendingHandshake) (o : EgressObserver) : EgressObserver :=
  mkObserver (o_prefix o) (f (o_outbound o)) (o_stats o).

(** [statsForLocked] returns a pointer that is written to at once. *)
Definition statsForLocked (addr : Addr) (f : PrefixStats → PrefixStats) (o : EgressObserver) : EgressObserver :=
  let prefix := Mask (o_prefix o) addr in
  mkObserver (o_prefix o) (o_outbound o) (<[prefix := f (default (newPrefixStats prefix) (o_stats o !! prefix))]> (o_stats o)).

Definition count_retransmit (s : PrefixStats) : PrefixStats :=
  mkPrefixStats (px_Prefix s) (px_RTTMicros s) (px_Handshakes s) (u64 (px_Retransmits s + 1)) (px_UDPPackets s).
Definition count_udp (s : PrefixStats) : PrefixStats :=
  mkPrefixStats (px_Prefix s) (px_RTTMicros s) (px_Handshakes s) (px_Retransmits s) (u64 (px_UDPPackets s + 1)).
Definition count_handshake (rtt : Duration) (s : PrefixStats) : PrefixStats :=
  let n := u64 (px_Handshakes s + 1) in
  let x := of_int (dur_Microseconds rtt) in
  mkPrefixStats (px_Prefix s)
    (if n =? 1 then x else fadd (px_RTTMicros s) (fmul (fsub x (px_RTTMicros s)) rttGain))
    n (px_Retransmits s) (px_UDPPackets s).

Definition observeTCPLocked (now : Time) (seg : tcpSegment) (o : EgressObserver) : EgressObserver :=
  if sg_SYN seg && negb (sg_ACK seg) then
    let key := mkTuple (sg_SrcAddr seg) (sg_DstAddr seg) (sg_SrcPort seg) (sg_DstPort seg) in
    let fresh := set_outbound (<[key := mkHandshake (sg_Seq seg) now]>) o in
    match o_outbound o !! key with
    | Some pending =>
        if ph_seq pending =? sg_Seq seg
        then statsForLocked (sg_DstAddr seg) count_retransmit (set_outbound (<[key := mkHandshake (ph_seq pending) now]>) o)
        else fresh
    | None => fresh
    end
  else if sg_SYN seg && sg_ACK seg then
    let key := mkTuple (sg_DstAddr seg) (sg_SrcAddr seg) (sg_DstPort seg) (sg_SrcPort seg) in
    match o_outbound o !! key with
    | None => o
    | Some pending =>
        statsForLocked (sg_SrcAddr seg) (count_handshake (time_Sub now (ph_sentAt pending))) (set_outbound (delete key) o)
    end
  else o.

Definition parse_tcp (src dst : Addr) (payload : bytes) : option (res obs_error tcpSegment) :=
  if (length payload <? 14)%nat then Some (Err (ObsTCPShort (length payload))) else
  flags ← payload !! 13%nat;
  sp ← slice_chk 0 2 payload;
  dp ← slice_chk 2 4 payload;
  seq ← slice_chk 4 8 payload;
  Some (Ok (mkSegment src (be_get sp) dst (be_get dp) (be_get seq)
    (negb (Z.land flags tcpFlagSYN =? 0)) (negb (Z.land flags tcpFlagACK =? 0)))).

Definition ObservePacket (now : Time) (packet : bytes) (o : EgressObserver) : option (option obs_error * EgressObserver) :=
  hdr ← parseIPHeader packet;
  match hdr with
  | Err e => Some (Some e, o)
  | Ok (src, dst, proto, payload) =>
      if proto =? ProtoTCP then
        seg ← parse_tcp src dst payload;
        match seg with
        | Err e => Some (Some e, o)
        | Ok seg => Some (None, observeTCPLocked now seg o)
        end
      else if proto =? ProtoUDP then Some (None, statsForLocked dst count_udp o)
      else Some (None, o)
  end.

Definition o_Snapshot (prefix : Prefix) (o : EgressObserver) : option PrefixStats := o_stats o !! prefix.
Definition o_Snapshots `{Range} (o : EgressObserver) : list PrefixStats := (range (o_stats o)).*2.

Definition EvictStalePending (now : Time) (ttl : Duration) (o : EgressObserver) : nat * EgressObserver :=
  let cutoff := time_Add now (i64 (- ttl)) in
  let kept := filter (λ kv, time_Before (ph_sentAt kv.2) cutoff = false) (o_outbound o) in
  ((size (o_outbound o) - size kept)%nat, set_outbound (λ _, kept) o).

(** ** destgroup.go: trackers *)

#[export] Instance GroupKey_eq_dec : EqDecision GroupKey.
Proof. solve_decision. Defined.
#[export] Instance GroupKey_countable : Countable GroupKey.
Proof. refine (inj_countable' (λ k, (gk_Prefix k, gk_PortClass k)) (λ '(p, c), mkGroup p c) _). by intros []. Defined.

(** The trackers, in the order they were made, and where each group's is. *)
Record DestinationGroups := mkGroups {
  dg_trackerCfg : SegmentTrackerConfig; dg_buckets : gmap GroupKey nat; dg_trackers : list SegmentTracker }.

Definition NewDestinationGroups (cfg : SegmentTrackerConfig) : DestinationGroups := mkGroups cfg ∅ [].

Definition g_Tracker (key : GroupKey) (g : DestinationGroups) : nat * DestinationGroups :=
  match dg_buckets g !! key with
  | Some i => (i, g)
  | None =>
      let i := length (dg_trackers g) in
      (i, mkGroups (dg_trackerCfg g) (<[key := i]> (dg_buckets g)) (dg_trackers g ++ [NewSegmentTracker (dg_trackerCfg g)]))
  end.
Definition g_Groups `{Range} (g : DestinationGroups) : list GroupKey := (range (dg_buckets g)).*1.
Definition g_Len (g : DestinationGroups) : nat := size (dg_buckets g).

(** ** Runs and their history *)

Inductive obs_action := ObsPacket (now : Time) (packet : bytes) | ObsEvict (now : Time) (ttl : Duration).

Definition obs_step (a : obs_action) (o : EgressObserver) : option EgressObserver :=
  match a with
  | ObsPacket now packet => snd <$> ObservePacket now packet o
  | ObsEvict now ttl => Some (EvictStalePending now ttl o).2
  end.
Definition obs_run (l : list obs_action) (o : EgressObserver) : option EgressObserver :=
  fold_left (λ so a, so ≫= obs_step a) l (Some o).

(** What there was to see in a packet. A SYN-ACK is filed under the tuple of the
    SYN it answers. *)
Inductive seen := SawSyn (k : fourTuple) (seq : Z) | SawSynAck (k : fourTuple) | SawUdp (dst : Addr) | SawNothing | SawEvict (ttl : Duration).

Definition sees_segment (seg : tcpSegment) : seen :=
  if sg_SYN seg && negb (sg_ACK seg)
  then SawSyn (mkTuple (sg_SrcAddr seg) (sg_DstAddr seg) (sg_SrcPort seg) (sg_DstPort seg)) (sg_Seq seg)
  else if sg_SYN seg && sg_ACK seg
  then SawSynAck (mkTuple (sg_DstAddr seg) (sg_SrcAddr seg) (sg_DstPort seg) (sg_SrcPort seg))
  else SawNothing.
Definition sees (packet : bytes) : seen :=
  match parseIPHeader packet with
  | Some (Ok (src, dst, proto, payload)) =>
      if proto =? ProtoTCP then
        match parse_tcp src dst payload with Some (Ok seg) => sees_segment seg | _ => SawNothing end
      else if proto =? ProtoUDP then SawUdp dst else SawNothing
  | _ => SawNothing
  end.
Definition saw (a : obs_action) : Time * seen :=
  match a with ObsPacket now packet => (now, sees packet) | ObsEvict now ttl => (now, SawEvict ttl) end.

Section history.
Context (bits : PrefixBits).
Implicit Types (h : list (Time * seen)) (k : fourTuple) (p : Prefix).

(** The SYN of [k] that is still unanswered. *)
Fixpoint outstanding k h : option pendingHandshake :=
  match h with
  | [] => None
  | (now, e) :: h =>
      match e with
      | SawSyn k' seq => if decide (k' = k) then Some (mkHandshake seq now) else outstanding k h
      | SawSynAck k' => if decide (k' = k) then None else outstanding k h
      | SawEvict ttl =>
          match outstanding k h with
          | Some ph => if time_Before (ph_sentAt ph) (time_Add now (i64 (- ttl))) then None else Some ph
          | None => None
          end
      | SawUdp _ | SawNothing => outstanding k h
      end
  end.

(** The round trips of the handshakes completed with [p], in order of time. *)
Fixpoint rtts p h : list Duration :=
  match h with
  | [] => []
  | (now, SawSynAck k) :: h =>
      match outstanding k h with
      | Some ph => if decide (Mask bits (ft_DstAddr k) = p) then rtts p h ++ [time_Sub now (ph_sentAt ph)] else rtts p h
      | None => rtts p h
      end
  | _ :: h => rtts p h
  end.
(** The SYNs to [p] that repeat one still unanswered. *)
Fixpoint retransmits p h : nat :=
  match h with
  | [] => 0
  | (_, SawSyn k seq) :: h =>
      (if decide ((ph_seq <$> outstanding k h) = Some seq ∧ Mask bits (ft_DstAddr k) = p) then S else id) (retransmits p h)
  | _ :: h => retransmits p h
  end.
Fixpoint syns p h : nat :=
  match h with
  | [] => 0
  | (_, SawSyn k _) :: h => (if decide (Mask bits (ft_DstAddr k) = p) then S else id) (syns p h)
  | _ :: h => syns p h
  end.
Fixpoint udps p h : nat :=
  match h with
  | [] => 0
  | (_, SawUdp dst) :: h => (if decide (Mask bits dst = p) then S else id) (udps p h)
  | _ :: h => udps p h
  end.

Definition ewma_step (a : float64) (d : Duration) : float64 := fadd a (fmul (fsub (of_int (dur_Microseconds d)) a) rttGain).
Definition ewma (l : list Duration) : float64 :=
  match l with [] => f0 | d :: l => fold_left ewma_step l (of_int (dur_Microseconds d)) end.

Definition tally p h : PrefixStats :=
  mkPrefixStats p (ewma (rtts p h)) (Z.of_nat (length (rtts p h))) (Z.of_nat (retransmits p h)) (Z.of_nat (udps p h)).
Definition expected p h : option PrefixStats :=
  if decide (rtts p h = [] ∧ retransmits p h = 0%nat ∧ udps p h = 0%nat) then None else Some (tally p h).

(** Those of the SYNs that went to [p]. *)
Definition sent_to p (m : gmap fourTuple pendingHandshake) : gmap fourTuple pendingHandshake :=
  filter (λ kv, Mask bits (ft_DstAddr kv.1) = p) m.

Record matches (o : EgressObserver) h : Prop := {
  mt_bits : o_prefix o = bits;
  mt_outbound : ∀ k, o_outbound o !! k = outstanding k h;
  mt_stats : ∀ p, o_stats o !! p = expected p h;
  mt_syns : ∀ p, (length (rtts p h) + retransmits p h + size (sent_to p (o_outbound o)) ≤ syns p h)%nat;
}.

(** ** Lemmas *)

Lemma parseIPHeader_total packet : is_Some (parseIPHeader packet).
Proof.
  unfold parseIPHeader. destruct (Nat.ltb_spec (length packet) 1); [by eexists|].
  assert (∀ i, (i < length packet)%nat → ∃ b, packet !! i = Some b) as Hb by (intros; by apply lookup_lt_is_Some_2).
  destruct (Hb 0%nat) as [b0 ->]; [lia|]. cbn [mbind option_bind].
  destruct (_ =? 4).
  - destruct (Nat.ltb_spec (length packet) 20); [by eexists|]. set (ihl := (Z.to_nat _ * 4)%nat).
    destruct (Nat.ltb_spec ihl 20), (Nat.ltb_spec (length packet) ihl); cbn [orb]; try by eexists.
    destruct (Hb 9%nat) as [b9 ->]; [lia|]. unfold slice_chk. rewrite !(proj2 (Nat.leb_le _ _)) by lia. by eexists.
  - destruct (_ =? 6); [|by eexists]. unfold ipv6HeaderLen. destruct (Nat.ltb_spec (length packet) 40); [by eexists|].
    destruct (Hb 6%nat) as [b6 ->]; [lia|]. unfold slice_chk. rewrite !(proj2 (Nat.leb_le _ _)) by lia. by eexists.
Qed.

Lemma parse_tcp_total src dst payload : is_Some (parse_tcp src dst payload).
Proof.
  unfold parse_tcp. destruct (Nat.ltb_spec (length payload) 14); [by eexists|].
  destruct (lookup_lt_is_Some_2 payload 13) as [b ->]; [lia|]. unfold slice_chk.
  rewrite !(proj2 (Nat.leb_le _ _)) by lia. by eexists.
Qed.

(** A step is a function of what there was to see. *)
Definition apply_seen (now : Time) (e : seen) (o : EgressObserver) : EgressObserver :=
  match e with
  | SawSyn k seq =>
      let o' := set_outbound (<[k := mkHandshake seq now]>) o in
      if decide ((ph_seq <$> o_outbound o !! k) = Some seq) then statsForLocked (ft_DstAddr k) count_retransmit o' else o'
  | SawSynAck k =>
      match o_outbound o !! k with
      | None => o
      | Some ph => statsForLocked (ft_DstAddr k) (count_handshake (time_Sub now (ph_sentAt ph))) (set_outbound (delete k) o)
      end
  | SawUdp dst => statsForLocked dst count_udp o
  | SawNothing => o
  | SawEvict ttl => (EvictStalePending now ttl o).2
  end.

Lemma observeTCPLocked_seen now seg o : observeTCPLocked now seg o = apply_seen now (sees_segment seg) o.
Proof.
  unfold observeTCPLocked, sees_segment. destruct (sg_SYN seg), (sg_ACK seg); cbn [andb negb apply_seen ft_DstAddr]; try done.
  destruct (o_outbound o !! _) as [ph|]; cbn [fmap option_fmap option_map]; [|by rewrite decide_False].
  destruct (Z.eqb_spec (ph_seq ph) (sg_Seq seg)) as [->|]; [by rewrite decide_True|rewrite decide_False by congruence]. done.
Qed.

Lemma obs_step_seen a o : obs_step a o = Some (apply_seen (saw a).1 (saw a).2 o).
Proof.
  destruct a as [now packet|now ttl]; [|done]. cbn [obs_step saw fst snd]. unfold ObservePacket, sees.
  destruct (parseIPHeader_total packet) as [[[[[src dst] proto] payload]|e] ->]; cbn [mbind option_bind]; [|done].
  destruct (proto =? ProtoTCP); [|by destruct (proto =? ProtoUDP)].
  destruct (parse_tcp_total src dst payload) as [[seg|e] ->]; cbn [mbind option_bind fmap option_fmap option_map snd]; [|done].
  by rewrite observeTCPLocked_seen.
Qed.

Lemma statsForLocked_lookup addr f o p :
  o_prefix o = bits →
  o_stats (statsForLocked addr f o) !! p
  = if decide (Mask bits addr = p) then Some (f (default (newPrefixStats p) (o_stats o !! p))) else o_stats o !! p.
Proof.
  intros <-. cbn. case_decide as E; [by rewrite <- E, lookup_insert_eq|by rewrite lookup_insert_ne].
Qed.

Lemma tally_expected p h : default (newPrefixStats p) (expected p h) = tally p h.
Proof.
  unfold expected. case_decide as E; [|done]. destruct E as (E1 & E2 & E3). unfold tally. by rewrite E1, E2, E3.
Qed.

Lemma ewma_snoc l d : l ≠ [] → ewma (l ++ [d]) = ewma_step (ewma l) d.
Proof. destruct l as [|x l]; [done|]. intros _. cbn. by rewrite fold_left_app. Qed.

Lemma counts_bound p h : (length (rtts p h) ≤ length h ∧ retransmits p h ≤ length h ∧ udps p h ≤ length h)%nat.
Proof.
  induction h as [|[now e] h (IH1 & IH2 & IH3)]; [done|]. cbn [rtts retransmits udps length].
  destruct e as [k seq|k|dst| |ttl]; try lia.
  - case_decide; unfold id; lia.
  - split; [|lia]. destruct (outstanding k h); [|lia]. case_decide; [|lia]. rewrite length_app. cbn. lia.
  - case_decide; unfold id; lia.
Qed.

(** Counting one more. *)
Lemma count_handshake_tally p h d :
  Z.of_nat (length h) < 2 ^ 64 - 1 →
  count_handshake d (tally p h)
  = mkPrefixStats p (ewma (rtts p h ++ [d])) (Z.of_nat (length (rtts p h ++ [d]))) (Z.of_nat (retransmits p h)) (Z.of_nat (udps p h)).
Proof.
  intros Hl. pose proof (counts_bound p h) as (Hb & _ & _). unfold count_handshake, tally. cbn [px_Handshakes px_Prefix px_RTTMicros px_Retransmits px_UDPPackets].
  rewrite wrap_small by (unfold fits; lia). rewrite length_app. cbn [length].
  f_equal; [|lia]. destruct (rtts p h) as [|x l] eqn:E; [done|]. rewrite ewma_snoc by done.
  destruct (Z.eqb_spec (Z.of_nat (length (x :: l)) + 1) 1) as [E1|]; [cbn in E1; lia|done].
Qed.
Lemma count_retransmit_tally p h :
  Z.of_nat (length h) < 2 ^ 64 - 1 →
  count_retransmit (tally p h)
  = mkPrefixStats p (ewma (rtts p h)) (Z.of_nat (length (rtts p h))) (Z.of_nat (S (retransmits p h))) (Z.of_nat (udps p h)).
Proof.
  intros Hl. pose proof (counts_bound p h) as (_ & Hb & _). unfold count_retransmit, tally. cbn.
  rewrite wrap_small by (unfold fits; lia). f_equal. lia.
Qed.
Lemma count_udp_tally p h :
  Z.of_nat (length h) < 2 ^ 64 - 1 →
  count_udp (tally p h)
  = mkPrefixStats p (ewma (rtts p h)) (Z.of_nat (length (rtts p h))) (Z.of_nat (retransmits p h)) (Z.of_nat (S (udps p h))).
Proof.
  intros Hl. pose proof (counts_bound p h) as (_ & _ & Hb). unfold count_udp, tally. cbn.
  rewrite wrap_small by (unfold fits; lia). f_equal. lia.
Qed.

Lemma sent_to_insert p k ph m :
  (size (sent_to p (<[k := ph]> m)) ≤ size (sent_to p m) + if decide (Mask bits (ft_DstAddr k) = p ∧ m !! k = None) then 1 else 0)%nat.
Proof.
  unfold sent_to. destruct (decide (Mask bits (ft_DstAddr k) = p)) as [E|E].
  - rewrite map_filter_insert_True by done. destruct (m !! k) as [ph'|] eqn:Ek.
    + rewrite decide_False by naive_solver. rewrite map_size_insert_Some by (eexists; by apply map_lookup_filter_Some). lia.
    + rewrite decide_True by done. rewrite map_size_insert_None by (apply map_lookup_filter_None; by left). lia.
  - rewrite map_filter_insert_not by (by intros ?). lia.
Qed.

Lemma sent_to_delete p k m :
  is_Some (m !! k) →
  (size (sent_to p (delete k m)) + (if decide (Mask bits (ft_DstAddr k) = p) then 1 else 0) = size (sent_to p m))%nat.
Proof.
  unfold sent_to. intros [ph Hk]. rewrite map_filter_delete. case_decide as E.
  - assert (filter (λ kv, Mask bits (ft_DstAddr kv.1) = p) m !! k = Some ph) as Hf by (by apply map_lookup_filter_Some).
    rewrite map_size_delete_Some by (by eexists).
    assert (size (filter (λ kv, Mask bits (ft_DstAddr kv.1) = p) m) ≠ 0%nat); [|lia].
    intros E0%map_size_empty_iff. by rewrite E0 in Hf.
  - rewrite delete_id; [lia|]. apply map_lookup_filter_None. right. naive_solver.
Qed.

Lemma matches_syn o h now k seq :
  matches o h → Z.of_nat (length h) < 2 ^ 64 - 1 → matches (apply_seen now (SawSyn k seq) o) ((now, SawSyn k seq) :: h).
Proof.
  intros [Hb Ho Hs Hc] Hl. cbn [apply_seen]. rewrite Ho. set (o' := set_outbound _ o).
  assert (o_outbound o' = <[k := mkHandshake seq now]> (o_outbound o)) as Ho' by done.
  assert (o_prefix o' = bits) as Hb' by done.
  assert (o_stats o' = o_stats o) as Hs' by done. clearbody o'.
  assert (∀ k', <[k := mkHandshake seq now]> (o_outbound o) !! k' = outstanding k' ((now, SawSyn k seq) :: h)) as Hout.
  { intros k'. cbn. case_decide as E; [by rewrite E, lookup_insert_eq|by rewrite lookup_insert_ne, Ho]. }
  assert (∀ p, (size (sent_to p (<[k := mkHandshake seq now]> (o_outbound o))) + length (rtts p h) + retransmits p ((now, SawSyn k seq) :: h)
    ≤ syns p ((now, SawSyn k seq) :: h))%nat) as Hn.
  { intros p. specialize (Hc p). pose proof (sent_to_insert p k (mkHandshake seq now) (o_outbound o)) as Hi. rewrite Ho in Hi.
    cbn [retransmits syns]. destruct (decide (Mask bits (ft_DstAddr k) = p)) as [E|E].
    - destruct (outstanding k h); [rewrite decide_False in Hi by naive_solver|]; repeat case_decide; unfold id; try lia. naive_solver.
    - rewrite decide_False in Hi by naive_solver. rewrite decide_False by naive_solver. unfold id. lia. }
  case_decide as E; split; try done;
    change (o_outbound (statsForLocked _ _ o')) with (o_outbound o'); rewrite ?Ho'; try done; try (intros p; specialize (Hn p); cbn [rtts]; lia).
  - intros p. rewrite statsForLocked_lookup, Hs', Hs, tally_expected by done. case_decide as Em.
    + rewrite count_retransmit_tally by done. unfold expected, tally. cbn [rtts udps retransmits].
      rewrite (decide_True (P := _ = Some seq ∧ _)) by done. by rewrite decide_False by naive_solver.
    + unfold expected, tally. cbn [rtts udps retransmits]. by rewrite (decide_False (P := _ = Some seq ∧ _)) by naive_solver.
  - intros p. rewrite Hs', Hs. unfold expected, tally. cbn [rtts udps retransmits].
    by rewrite (decide_False (P := _ = Some seq ∧ _)) by naive_solver.
Qed.

Lemma matches_synack o h now k :
  matches o h → Z.of_nat (length h) < 2 ^ 64 - 1 → matches (apply_seen now (SawSynAck k) o) ((now, SawSynAck k) :: h).
Proof.
  intros [Hb Ho Hs Hc] Hl. cbn [apply_seen]. rewrite Ho. destruct (outstanding k h) as [ph|] eqn:Ek.
  - split; [done|..].
    + intros k'. cbn. case_decide as E; [by rewrite E, lookup_delete_eq|by rewrite lookup_delete_ne, Ho].
    + intros p. rewrite statsForLocked_lookup by done. cbn [o_stats set_outbound]. rewrite Hs, tally_expected.
      destruct (decide (Mask bits (ft_DstAddr k) = p)) as [Em|Em].
      * rewrite count_handshake_tally by done. unfold expected, tally. cbn [rtts udps retransmits]. rewrite Ek, (decide_True (P := _ = p)) by done.
        by rewrite decide_False by (intros (E & _); by apply app_nil in E as [_ ?]).
      * unfold expected, tally. cbn [rtts udps retransmits]. by rewrite Ek, (decide_False (P := _ = p)) by done.
    + intros p. specialize (Hc p). pose proof (sent_to_delete p k (o_outbound o)) as Hd. rewrite Ho, Ek in Hd.
      specialize (Hd ltac:(by eexists)). change (o_outbound _) with (delete k (o_outbound o)).
      cbn [rtts retransmits syns]. rewrite Ek. case_decide; [rewrite length_app; cbn [length]|]; lia.
  - split; [done|..].
    + intros k'. cbn. case_decide as E; [by rewrite <- E, Ho|by rewrite Ho].
    + intros p. rewrite Hs. unfold expected, tally. cbn [rtts udps retransmits]. by rewrite Ek.
    + intros p. cbn [rtts retransmits syns]. rewrite Ek. apply Hc.
Qed.

Lemma matches_other o h now e :
  matches o h → Z.of_nat (length h) < 2 ^ 64 - 1 → (∀ k seq, e ≠ SawSyn k seq) → (∀ k, e ≠ SawSynAck k) →
  matches (apply_seen now e o) ((now, e) :: h).
Proof.
  intros [Hb Ho Hs Hc] Hl N1 N2. destruct e as [k seq|k|dst| |ttl]; try naive_solver.
  - split; [done|done| |done]. intros p. cbn [apply_seen]. rewrite statsForLocked_lookup, Hs, tally_expected by done.
    destruct (decide (Mask bits dst = p)) as [Em|Em].
    + rewrite count_udp_tally by done. unfold expected, tally. cbn [rtts udps retransmits].
      rewrite (decide_True (P := _ = p)) by done. by rewrite decide_False by naive_solver.
    + unfold expected, tally. cbn [rtts udps retransmits]. by rewrite (decide_False (P := _ = p)) by done.
  - by split.
  - split; [done| |done|].
    + intros k. cbn. destruct (outstanding k h) as [ph|] eqn:Ek.
      * destruct (time_Before _ _) eqn:Et.
        -- apply map_lookup_filter_None. right. intros ph'. rewrite Ho, Ek. intros [= <-]. cbn. congruence.
        -- apply map_lookup_filter_Some. rewrite Ho. by split.
      * apply map_lookup_filter_None. left. by rewrite Ho.
    + intros p. specialize (Hc p). cbn [rtts retransmits syns apply_seen EvictStalePending snd set_outbound o_outbound].
      match goal with |- context [sent_to p ?m] => assert (size (sent_to p m) ≤ size (sent_to p (o_outbound o)))%nat; [|lia] end.
      apply map_subseteq_size, map_filter_subseteq_mono, map_filter_subseteq.
Qed.

Lemma matches_step o h a :
  matches o h → Z.of_nat (length h) < 2 ^ 64 - 1 → ∃ o', obs_step a o = Some o' ∧ matches o' (saw a :: h).
Proof.
  intros Hm Hl. eexists. split; [apply obs_step_seen|]. destruct (saw a) as [now e]. cbn [fst snd].
  destruct e; auto using matches_syn, matches_synack; by apply matches_other.
Qed.

(** C30: what an observer knows is a function of the history. Whatever packets come,
    none makes it panic; the SYNs it waits for are the unanswered ones that were
    not evicted; per prefix it counts exactly the handshakes completed, the SYNs
    repeated and the UDP packets, and its RTT is the moving average of those
    handshakes. A SYN is counted at most once, as a handshake or as repeated. *)
Theorem observer_matches_history acts :
  Z.of_nat (length acts) < 2 ^ 64 →
  let h := rev (saw <$> acts) in
  ∃ o, obs_run acts (NewEgressObserver bits) = Some o
    ∧ (∀ k, o_outbound o !! k = outstanding k h)
    ∧ (∀ p, o_Snapshot p o = expected p h)
    ∧ (∀ p, (length (rtts p h) + retransmits p h + size (sent_to p (o_outbound o)) ≤ syns p h)%nat).
Proof.
  intros Hl h. cut (∃ o, obs_run acts (NewEgressObserver bits) = Some o ∧ matches o h);
    [intros (o & Hr & Hm); exists o; by destruct Hm|]. subst h. revert Hl.
  induction acts as [|a acts IH] using rev_ind; intros Hl.
  - exists (NewEgressObserver bits). split; [done|]. by split.
  - rewrite length_app in Hl. cbn [length] in Hl. destruct IH as (o & Hr & Hm); [lia|].
    destruct (matches_step o (rev (saw <$> acts)) a Hm) as (o' & Hs & Hm'); [rewrite length_rev, length_fmap; lia|].
    exists o'. rewrite fmap_app, rev_app_distr. split; [|done].
    unfold obs_run in *. rewrite fold_left_app, Hr. cbn. by rewrite Hs.
Qed.

End history.

(** ** Trackers of destination groups: one per group, always the same *)

Record groups_ok (g : DestinationGroups) : Prop := {
  gr_bound : ∀ k i, dg_buckets g !! k = Some i → (i < length (dg_trackers g))%nat;
  gr_inj : ∀ k k' i, dg_buckets g !! k = Some i → dg_buckets g !! k' = Some i → k = k';
}.

Lemma g_Tracker_spec key g i g' :
  groups_ok g → g_Tracker key g = (i, g') →
  groups_ok g' ∧ g_Tracker key g' = (i, g') ∧ dg_trackers g `prefix_of` dg_trackers g'
  ∧ (∀ k j, dg_buckets g !! k = Some j → dg_buckets g' !! k = Some j) ∧ dg_buckets g' !! key = Some i.
Proof.
  intros [Hb Hi]. unfold g_Tracker. destruct (dg_buckets g !! key) as [j|] eqn:E; intros [= <- <-].
  - rewrite E. split_and!; [by split|done..].
  - cbn. rewrite lookup_insert_eq. split_and!; [|done|by eexists| |done].
    + split; cbn.
      * intros k i [[<- <-]|[_ Hk]]%lookup_insert_Some; rewrite length_app; cbn [length]; [lia|]. apply Hb in Hk. lia.
      * intros k k' i [[<- <-]|[Hn Hk]]%lookup_insert_Some [[<- Hl]|[Hn' Hk']]%lookup_insert_Some; [done|..|by eapply Hi].
        -- apply Hb in Hk'. lia.
        -- apply Hb in Hk. subst. lia.
    + intros k i Hk. by rewrite lookup_insert_ne by congruence.
Qed.

(** ** Examples *)

Module ObserverDemo.

(** An IPv4 packet of 20 + 20 bytes, from 10.0.0.1:1000 to 192.0.2.7:443. *)
Definition tcp (back : bool) (flags seq : Z) : bytes :=
  let a := [10; 0; 0; 1] in let b := [192; 0; 2; 7] in let pa := [3; 232] in let pb := [1; 187] in
  [69; 0; 0; 40; 0; 0; 0; 0; 64; 6; 0; 0] ++ (if back then b ++ a else a ++ b)
  ++ (if back then pb ++ pa else pa ++ pb) ++ be_put 4 seq ++ [0; 0; 0; 0; 80; flags; 0; 0; 0; 0; 0; 0].

(** A SYN, repeated, answered twice; then one that is evicted before its answer. *)
Definition acts : list obs_action :=
  [ObsPacket Second (tcp false 2 5); ObsPacket (2 * Second) (tcp false 2 5);
   ObsPacket (2 * Second + 30 * Millisecond) (tcp true 18 9); ObsPacket (3 * Second) (tcp true 18 9);
   ObsPacket (4 * Second) (tcp false 2 6); ObsEvict (90 * Second) (60 * Second); ObsPacket (91 * Second) (tcp true 18 9); ObsPacket 0 [0]].
Definition net : Prefix := mkPrefix (Addr4 (192 * 2 ^ 24 + 2 * 2 ^ 8)) 24.

Lemma observer_matches_history_witness :
  o_Snapshot net (default (NewEgressObserver DefaultPrefixBits) (obs_run acts (NewEgressObserver DefaultPrefixBits)))
  = Some (mkPrefixStats net (of_int 30000) 1 1 0).
Proof.
  destruct (observer_matches_history DefaultPrefixBits acts) as (o & Hr & _ & Hs & _); [done|].
  rewrite Hr. cbn [default]. rewrite Hs. vm_compute. reflexivity.
Defined.

(** The SYN-ACK's acknowledgement number is not looked at: one that answers an
    earlier attempt completes the later one. Only the tuple has to match. *)
Definition reused : list obs_action :=
  [ObsPacket Second (tcp false 2 5); ObsPacket (9 * Second) (tcp false 2 77); ObsPacket (9 * Second + 1000) (tcp true 18 9)].
Example stale_answer_counts :
  match obs_run reused (NewEgressObserver DefaultPrefixBits) with
  | Some o => o_Snapshot net o = Some (mkPrefixStats net f1 1 0 0)
  | None => False
  end.
Proof. vm_compute. reflexivity. Qed.

End ObserverDemo.
