(* ===== verification/HostNet.v ===== *)
(** * Commands of the host: internal/tunnel iface.go, routing.go, nat.go and
    bucketroute.go

    This package and internal/gateway (GatewayHost) configure the host by
    running ip and iptables. Running a
    program is the class [Shell]: what it printed and how it exited, in a world
    it may change. [ShellLaws] is what is relied on: the effect of the commands
    used here on routes, policy rules and filter rules when they exit 0, and
    that one that fails has done nothing. *)

From S2P Require Import Prelude Netip IpsecConfig IpsecRender ClientAgent GoStrings.

(** ** Running programs *)

(** Exited with a code, or not run at all (not found, killed). *)
Inductive exit := ExitCode (n : Z) | ExitNotRun (why : string).
Definition exit_ok (x : exit) : bool := match x with ExitCode n => n =? 0 | ExitNotRun _ => false end.
Definition exit_String (x : exit) : string :=
  match x with ExitCode n => "exit status " +:+ FormatUint n | ExitNotRun why => why end.

Class Shell (W : Type) := {
  sh : string → list string → W → string * exit * W;
  WriteFile : string → string → W → bool * W;
  ReadFile : string → W → option string;
}.

Definition host32 (a : Addr) : string := addr_String a +:+ "/32".

Section tunnel.
Context {W : Type} `{!Shell W}.

(** ** iface.go *)

Definition runIP (args : list string) (w : W) : option error * W :=
  let '(out, x, w) := sh "ip" args w in
  if exit_ok x then (None, w)
  else (Some (ErrText ("ip " +:+ Join " " args +:+ ": " +:+ exit_String x +:+ " (output: " +:+ TrimSpace out +:+ ")")), w).

Definition wrap_err (msg : string) (r : option error * W) : option error * W :=
  match r with (Some e, w) => (Some (ErrWrap msg e), w) | _ => r end.

Definition ConfigureInterface (name : string) (addr : Prefix) (w : W) : option error * W :=
  match runIP ["addr"; "add"; pf_String addr; "dev"; name] w with
  | (Some e, w) => (Some (ErrWrap ("tunnel: assign address to " +:+ name) e), w)
  | (None, w) => wrap_err ("tunnel: bring " +:+ name +:+ " up") (runIP ["link"; "set"; name; "up"] w)
  end.

(** ** routing.go; netip.ParseAddr is an argument *)

Definition parse_route_step (ParseAddr : string → option Addr) (output : string)
  (field : string) (next : option string) (info : RouteInfo) : res error RouteInfo :=
  if String.eqb field "via" then
    match next with
    | None => Err (ErrText "tunnel: parse route output: ends right after via")
    | Some a =>
        match ParseAddr a with
        | None => Err (ErrText ("tunnel: parse gateway " +:+ a))
        | Some addr => Ok (mkRouteInfo addr (ri_Interface info))
        end
    end
  else if String.eqb field "dev" then
    match next with
    | None => Err (ErrText "tunnel: parse route output: ends right after dev")
    | Some d => Ok (mkRouteInfo (ri_Gateway info) d)
    end
  else Ok info.

Fixpoint parse_route_loop (ParseAddr : string → option Addr) (output : string) (fields : list string) (info : RouteInfo)
  : res error RouteInfo :=
  match fields with
  | [] => Ok info
  | f :: rest => try info := parse_route_step ParseAddr output f (head rest) info in parse_route_loop ParseAddr output rest info
  end.

Definition parseRouteGet (ParseAddr : string → option Addr) (output : string) : res error RouteInfo :=
  try info := parse_route_loop ParseAddr output (Fields output) (mkRouteInfo AddrInvalid "") in
  if String.eqb (ri_Interface info) "" then Err (ErrText "tunnel: no interface found in route output") else Ok info.

Definition currentRoute (ParseAddr : string → option Addr) (dst : Addr) (w : W) : res error RouteInfo * W :=
  let '(out, x, w) := sh "ip" ["route"; "get"; addr_String dst] w in
  if exit_ok x then (parseRouteGet ParseAddr out, w)
  else (Err (ErrWrap ("tunnel: ip route get " +:+ addr_String dst) (ErrText (exit_String x))), w).

Definition via_args (via : RouteInfo) : list string :=
  (if addr_IsValid (ri_Gateway via) then ["via"; addr_String (ri_Gateway via)] else []) ++ ["dev"; ri_Interface via].

Definition AddBypassRoute (gatewayIP : Addr) (via : RouteInfo) : W → option error * W :=
  runIP (["route"; "add"; host32 gatewayIP] ++ via_args via).
Definition RemoveBypassRoute (gatewayIP : Addr) : W → option error * W := runIP ["route"; "del"; host32 gatewayIP].
Definition SetFullTunnelDefault (tun : string) : W → option error * W := runIP ["route"; "replace"; "default"; "dev"; tun].
Definition RestoreDefaultRoute (original : RouteInfo) : W → option error * W :=
  runIP (["route"; "replace"; "default"] ++ via_args original).

(** The restore function, as what it closes over. *)
Definition restore (original : RouteInfo) (endpoint : Addr) (w : W) : option error * W :=
  let '(e1, w) := RestoreDefaultRoute original w in
  let '(e2, w) := RemoveBypassRoute endpoint w in
  (errors_Join [e1; e2], w).

Definition EnableFullTunnel (ParseAddr : string → option Addr) (tun : string) (endpoint : Addr) (w : W)
  : res error (W → option error * W) * W :=
  match currentRoute ParseAddr endpoint w with
  | (Err e, w) => (Err (ErrWrap "tunnel: determine current route to gateway" e), w)
  | (Ok original, w) =>
      match AddBypassRoute endpoint original w with
      | (Some e, w) => (Err (ErrWrap "tunnel: add bypass route" e), w)
      | (None, w) =>
          match SetFullTunnelDefault tun w with
          | (Some e, w) => (Err (ErrWrap "tunnel: set full-tunnel default route" e), (RemoveBypassRoute endpoint w).2)
          | (None, w) => (Ok (restore original endpoint), w)
          end
      end
  end.

(** ** nat.go *)

Definition ipForwardPath : string := "/proc/sys/net/ipv4/ip_forward".

Definition IPForwardingEnabled (w : W) : res error bool :=
  match ReadFile ipForwardPath w with
  | None => Err (ErrText "tunnel: read IP forwarding state")
  | Some got => Ok (HasPrefix got "1")
  end.

Definition EnableIPForwarding (w : W) : option error * W :=
  let '(ok, w) := WriteFile ipForwardPath ("1" +:+ String (Ascii.ascii_of_nat 10) "") w in
  if negb ok then (Some (ErrText "tunnel: enable IP forwarding"), w) else
  match IPForwardingEnabled w with
  | Err e => (Some (ErrWrap "tunnel: verify IP forwarding" e), w)
  | Ok false => (Some (ErrText "tunnel: IP forwarding not enabled after write"), w)
  | Ok true => (None, w)
  end.

Definition runIptables (args : list string) (w : W) : option error * W :=
  let '(out, x, w) := sh "iptables" args w in
  if exit_ok x then (None, w)
  else (Some (ErrText ("tunnel: iptables " +:+ Join " " args +:+ ": " +:+ exit_String x +:+ " (output: " +:+ TrimSpace out +:+ ")")), w).

Definition ruleExists (checkArgs : list string) (w : W) : res error bool * W :=
  let '(out, x, w) := sh "iptables" checkArgs w in
  (if exit_ok x then Ok true
   else match x with
        | ExitCode 1 => Ok false
        | _ => Err (ErrText ("tunnel: iptables -C: " +:+ exit_String x +:+ " (output: " +:+ TrimSpace out +:+ ")"))
        end, w).

(** A rule of a chain, for any of the commands -A, -I, -D, -C. *)
Record iptRule := mkIpt { it_table : list string; it_rest : list string }.
Definition ipt_args (command : string) (r : iptRule) : list string := it_table r ++ command :: it_rest r.

Definition NATRule (subnet : Prefix) : iptRule := mkIpt ["-t"; "nat"] ["POSTROUTING"; "-s"; pf_String subnet; "-j"; "MASQUERADE"].
Definition ForwardIn (iface : string) : iptRule := mkIpt [] ["FORWARD"; "-i"; iface; "-j"; "ACCEPT"].
Definition ForwardOut (iface : string) : iptRule := mkIpt [] ["FORWARD"; "-o"; iface; "-j"; "ACCEPT"].
Definition ConnmarkRestoreRule (chain : string) : iptRule := mkIpt ["-t"; "mangle"] [chain; "-j"; "CONNMARK"; "--restore-mark"].
Definition ConnmarkSaveRule (chain : string) : iptRule := mkIpt ["-t"; "mangle"] [chain; "-j"; "CONNMARK"; "--save-mark"].

Definition ipt_Add (r : iptRule) : W → option error * W := runIptables (ipt_args "-A" r).
Definition ipt_Remove (r : iptRule) : W → option error * W := runIptables (ipt_args "-D" r).
Definition ipt_Has (r : iptRule) : W → res error bool * W := ruleExists (ipt_args "-C" r).

Definition AddForward (iface : string) (w : W) : option error * W :=
  match ipt_Add (ForwardIn iface) w with
  | (Some e, w) => (Some e, w)
  | (None, w) => ipt_Add (ForwardOut iface) w
  end.
Definition RemoveForward (iface : string) (w : W) : option error * W :=
  let '(e1, w) := ipt_Remove (ForwardIn iface) w in
  let '(e2, w) := ipt_Remove (ForwardOut iface) w in
  (errors_Join [e1; e2], w).
Definition HasForward (iface : string) (w : W) : res error bool * W :=
  match ipt_Has (ForwardIn iface) w with
  | (Err e, w) => (Err e, w)
  | (Ok i, w) => match ipt_Has (ForwardOut iface) w with (Err e, w) => (Err e, w) | (Ok o, w) => (Ok (i && o), w) end
  end.

(** ** bucketroute.go *)

Record egressEntry := mkEgress { ee_mark : Z; ee_tableID : Z; ee_route : RouteInfo }.
Record EgressRouteTable := mkRouteTable { rt_nextMark : Z; rt_nextTableID : Z; rt_egresses : gmap string egressEntry }.

Definition NewEgressRouteTable (baseTableID : Z) : EgressRouteTable := mkRouteTable 1 baseTableID ∅.

Definition RegisterEgress (id : string) (route : RouteInfo) (t : EgressRouteTable) : Z * EgressRouteTable :=
  match rt_egresses t !! id with
  | Some e => (ee_mark e, t)
  | None =>
      let e := mkEgress (rt_nextMark t) (rt_nextTableID t) route in
      (ee_mark e, mkRouteTable (u32 (rt_nextMark t + 1)) (i64 (rt_nextTableID t + 1)) (<[id := e]> (rt_egresses t)))
  end.
Definition rt_Mark (id : string) (t : EgressRouteTable) : option Z := ee_mark <$> rt_egresses t !! id.
Definition rt_TableID (id : string) (t : EgressRouteTable) : option Z := ee_tableID <$> rt_egresses t !! id.
Definition rt_Route (id : string) (t : EgressRouteTable) : option RouteInfo := ee_route <$> rt_egresses t !! id.
Definition rt_Egresses `{Range} (t : EgressRouteTable) : list string := (range (rt_egresses t)).*1.

(** [fmt.Sprintf("0x%x", mark)]; 8 digits are enough for a uint32. *)
Definition hex_char (d : Z) : Ascii.ascii := if d <? 10 then digit_char d else Ascii.ascii_of_nat (87 + Z.to_nat d).
Fixpoint hex_format (fuel : nat) (n : Z) : list Ascii.ascii :=
  match fuel with
  | O => []
  | S fuel => if n <? 16 then [hex_char n] else hex_format fuel (n / 16) ++ [hex_char (n mod 16)]
  end.
Definition markHex (mark : Z) : string := "0x" +:+ String.string_of_list_ascii (hex_format 8 mark).

Definition ruleArgs (mark tableID : Z) : list string := ["rule"; "add"; "fwmark"; markHex mark; "table"; Itoa tableID].
Definition ruleDelArgs (mark tableID : Z) : list string := ["rule"; "del"; "fwmark"; markHex mark; "table"; Itoa tableID].
Definition routeArgs (tableID : Z) (route : RouteInfo) : list string :=
  ["route"; "replace"; "default"] ++ via_args route ++ ["table"; Itoa tableID].

Definition has_rule_line (mark tableID : Z) (line : string) : bool :=
  substr line ("fwmark " +:+ markHex mark) && substr line ("lookup " +:+ Itoa tableID).
Definition hasRule (mark tableID : Z) (w : W) : res error bool * W :=
  let '(out, x, w) := sh "ip" ["rule"; "show"] w in
  if exit_ok x then (Ok (existsb (has_rule_line mark tableID) (Split newline out)), w)
  else (Err (ErrWrap "tunnel: ip rule show" (ErrText (exit_String x))), w).

Definition Apply (id : string) (t : EgressRouteTable) (w : W) : option error * W :=
  match rt_egresses t !! id with
  | None => (Some (ErrText "tunnel: egress was never registered"), w)
  | Some e =>
      match hasRule (ee_mark e) (ee_tableID e) w with
      | (Err err, w) => (Some (ErrWrap "tunnel: check existing ip rule" err), w)
      | (Ok exists_, w) =>
          let '(err, w) := if (exists_ : bool) then (None, w) else runIP (ruleArgs (ee_mark e) (ee_tableID e)) w in
          match err with
          | Some err => (Some (ErrWrap "tunnel: add ip rule" err), w)
          | None => wrap_err "tunnel: set route" (runIP (routeArgs (ee_tableID e) (ee_route e)) w)
          end
      end
  end.

Definition Teardown (id : string) (t : EgressRouteTable) (w : W) : option error * W :=
  match rt_egresses t !! id with
  | None => (Some (ErrText "tunnel: egress was never registered"), w)
  | Some e =>
      let '(e1, w) := runIP (ruleDelArgs (ee_mark e) (ee_tableID e)) w in
      let '(e2, w) := runIP ["route"; "flush"; "table"; Itoa (ee_tableID e)] w in
      (errors_Join [e1; e2], w)
  end.

(** [BucketEgressMap]: its routes are shared with whoever registers egresses. *)
Definition Assign (bucket egress : string) (m : gmap string string) : gmap string string := <[bucket := egress]> m.
Definition EgressFor (bucket : string) (m : gmap string string) : option string := m !! bucket.
Definition LabelNewFlow (bucket : string) (m : gmap string string) (routes : EgressRouteTable) : option Z :=
  egress ← m !! bucket; rt_Mark egress routes.

End tunnel.

(** ** What the commands do *)

(** Routes by table and destination, as far as they have no metric; policy
    rules; filter rules in the order they are tried. Each is kept as the
    arguments that describe it, with %s for the operation on a filter rule. *)
Record hostview := mkView {
  hv_routes : gmap (string * string) (list string);
  hv_rules : list (list string);
  hv_ipt : list (list string);
}.

Definition with_hroutes f v := mkView (f (hv_routes v)) (hv_rules v) (hv_ipt v).
Definition with_hrules f v := mkView (hv_routes v) (f (hv_rules v)) (hv_ipt v).
Definition with_ipt f v := mkView (hv_routes v) (hv_rules v) (f (hv_ipt v)).

(** The route's arguments up to its table, and the table. *)
Fixpoint cut_table (l : list string) : list string * string :=
  match l with
  | [] => ([], "main")
  | x :: rest =>
      match rest with
      | [t] => if String.eqb x "table" then ([], t) else (l, "main")
      | _ => let '(body, t) := cut_table rest in (x :: body, t)
      end
  end.
Definition route_key (dst : string) (body : list string) : string * string := ((cut_table body).2, dst).

Fixpoint remove_first {A} `{EqDecision A} (x : A) (l : list A) : list A :=
  match l with [] => [] | y :: l => if decide (x = y) then l else y :: remove_first x l end.

(** What a command of ip asks for. *)
Inductive ipcmd :=
| IpRouteAdd (dst : string) (body : list string) | IpRouteReplace (dst : string) (body : list string)
| IpRouteDel (dst : string) (body : list string) | IpRouteFlush (table : string)
| IpRuleAdd (spec : list string) | IpRuleDel (spec : list string) | IpRuleDelPref (pref : string) | IpShow | IpOther.

Definition ip_parse (args : list string) : ipcmd :=
  match args with
  | obj :: verb :: rest =>
      if String.eqb obj "route" then
        match rest with
        | [] => IpOther
        | dst :: body =>
            if String.eqb verb "add" then IpRouteAdd dst body
            else if String.eqb verb "replace" then IpRouteReplace dst body
            else if String.eqb verb "del" then IpRouteDel dst body
            else if String.eqb verb "flush" && String.eqb dst "table" then IpRouteFlush (default "" (head body))
            else if String.eqb verb "get" then IpShow else IpOther
        end
      else if String.eqb obj "rule" then
        if String.eqb verb "add" then IpRuleAdd rest
        else if String.eqb verb "del" then
          match rest with
          | [k; n] => if String.eqb k "pref" then IpRuleDelPref n else IpRuleDel rest
          | _ => IpRuleDel rest
          end
        else if String.eqb verb "show" then IpShow else IpOther
      else IpOther
  | _ => IpOther
  end.

(** A rule's preference is its last argument here. *)
Definition has_pref (pref : string) (spec : list string) : Prop := drop (length spec - 2) spec = ["pref"; pref].
Fixpoint remove_pref (pref : string) (l : list (list string)) : list (list string) :=
  match l with [] => [] | y :: l => if decide (drop (length y - 2) y = ["pref"; pref]) then l else y :: remove_pref pref l end.

(** When it can succeed, and what it then does. *)
Definition ip_can (c : ipcmd) (v : hostview) : Prop :=
  match c with
  | IpRouteAdd dst body => hv_routes v !! route_key dst body = None
  | IpRouteDel dst body => is_Some (hv_routes v !! route_key dst body)
  | IpRuleDel spec => spec ∈ hv_rules v
  | IpRuleDelPref n => Exists (has_pref n) (hv_rules v)
  | _ => True
  end.
Definition ip_effect (c : ipcmd) (v : hostview) : hostview :=
  match c with
  | IpRouteAdd dst body | IpRouteReplace dst body => with_hroutes (<[route_key dst body := (cut_table body).1]>) v
  | IpRouteDel dst body => with_hroutes (delete (route_key dst body)) v
  | IpRouteFlush t => with_hroutes (filter (λ kv, kv.1.1 ≠ t)) v
  | IpRuleAdd spec => with_hrules (λ l, l ++ [spec]) v
  | IpRuleDel spec => with_hrules (remove_first spec) v
  | IpRuleDelPref n => with_hrules (remove_pref n) v
  | IpShow | IpOther => v
  end.

(** The operation of an iptables command, and the rule it is about. *)
Fixpoint ipt_parse (args : list string) : option (string * list string) :=
  match args with
  | [] => None
  | x :: rest =>
      if bool_decide (x ∈ ["-A"; "-I"; "-D"; "-C"]) then Some (x, "%s" :: rest)
      else match ipt_parse rest with Some (op, r) => Some (op, x :: r) | None => None end
  end.
Definition ipt_can (op : string) (r : list string) (l : list (list string)) : Prop :=
  if String.eqb op "-D" || String.eqb op "-C" then r ∈ l else True.
Definition ipt_effect (op : string) (r : list string) (l : list (list string)) : list (list string) :=
  if String.eqb op "-A" then l ++ [r] else if String.eqb op "-I" then r :: l
  else if String.eqb op "-D" then remove_first r l else l.

#[export] Instance has_pref_dec n spec : Decision (has_pref n spec).
Proof. unfold has_pref. apply _. Defined.
#[export] Instance ip_can_dec c v : Decision (ip_can c v).
Proof. destruct c; cbn [ip_can]; apply _. Defined.
#[export] Instance ipt_can_dec op r l : Decision (ipt_can op r l).
Proof. unfold ipt_can. destruct (_ || _); apply _. Defined.

(** A command of ip that is not understood here (addr, link) may do what it
    likes with routes. *)
Class ShellLaws (W : Type) `{Shell W} := {
  hview : W → hostview;
  ip_ok : ∀ args w out x w', sh "ip" args w = (out, x, w') → ip_parse args ≠ IpOther → exit_ok x = true →
    ip_can (ip_parse args) (hview w) ∧ hview w' = ip_effect (ip_parse args) (hview w);
  ip_failed : ∀ args w out x w', sh "ip" args w = (out, x, w') → ip_parse args ≠ IpOther → exit_ok x = false →
    hview w' = hview w;
  ip_other : ∀ args w out x w', sh "ip" args w = (out, x, w') → ip_parse args = IpOther →
    hv_rules (hview w') = hv_rules (hview w) ∧ hv_ipt (hview w') = hv_ipt (hview w);
  iptables_ok : ∀ args op r w out x w', sh "iptables" args w = (out, x, w') → ipt_parse args = Some (op, r) → exit_ok x = true →
    ipt_can op r (hv_ipt (hview w)) ∧ hview w' = with_ipt (ipt_effect op r) (hview w);
  iptables_failed : ∀ args op r w out x w', sh "iptables" args w = (out, x, w') → ipt_parse args = Some (op, r) → exit_ok x = false →
    hview w' = hview w;
  WriteFile_hview : ∀ path s w ok w', WriteFile path s w = (ok, w') → hview w' = hview w;
}.

Section laws.
Context {W : Type} `{!Shell W, !ShellLaws W}.
Implicit Types w : W.

Lemma runIP_ok args w w' :
  runIP args w = (None, w') → ip_parse args ≠ IpOther →
  ip_can (ip_parse args) (hview w) ∧ hview w' = ip_effect (ip_parse args) (hview w).
Proof.
  unfold runIP. destruct (sh "ip" args w) as [[out x] w1] eqn:E. destruct (exit_ok x) eqn:Ex; [|done].
  intros [= <-] Hn. by eapply ip_ok.
Qed.

Lemma runIP_failed args w e w' : runIP args w = (Some e, w') → ip_parse args ≠ IpOther → hview w' = hview w.
Proof.
  unfold runIP. destruct (sh "ip" args w) as [[out x] w1] eqn:E. destruct (exit_ok x) eqn:Ex; [done|].
  intros [= _ <-] Hn. by eapply ip_failed.
Qed.

Definition bypass_key (endpoint : Addr) : string * string := ("main", host32 endpoint).
Definition default_key : string * string := ("main", "default").

Lemma cut_via via : cut_table (via_args via) = (via_args via, "main").
Proof. unfold via_args. destruct (addr_IsValid _); [|done]. cbn. by destruct (String.eqb_spec (ri_Interface via) ""). Qed.

(** The routes of a full tunnel over [rs]: the endpoint by the way it had, the
    rest into the tunnel. *)
Definition tunnelled (tun : string) (endpoint : Addr) (original : RouteInfo) (rs : gmap (string * string) (list string)) :=
  <[default_key := ["dev"; tun]]> (<[bypass_key endpoint := via_args original]> rs).

Lemma AddBypassRoute_ok a via w w' :
  AddBypassRoute a via w = (None, w') →
  hv_routes (hview w) !! bypass_key a = None ∧ hview w' = with_hroutes (<[bypass_key a := via_args via]>) (hview w).
Proof.
  intros H. apply runIP_ok in H; [|done]. cbn [ip_parse app String.eqb Ascii.eqb Bool.eqb ip_can ip_effect] in H.
  unfold route_key in H. by rewrite cut_via in H.
Qed.
Lemma RemoveBypassRoute_ok a w w' :
  RemoveBypassRoute a w = (None, w') → hview w' = with_hroutes (delete (bypass_key a)) (hview w).
Proof. intros H. apply runIP_ok in H; [|done]. by destruct H as [_ ->]. Qed.
Lemma RestoreDefaultRoute_ok via w w' :
  RestoreDefaultRoute via w = (None, w') → hview w' = with_hroutes (<[default_key := via_args via]>) (hview w).
Proof.
  intros H. apply runIP_ok in H; [|done]. destruct H as [_ ->]. cbn [ip_parse app String.eqb Ascii.eqb Bool.eqb ip_effect].
  unfold route_key. by rewrite cut_via.
Qed.

Lemma cut_via_table via t : cut_table (via_args via ++ ["table"; t]) = (via_args via, t).
Proof. unfold via_args. by destruct (addr_IsValid _). Qed.

Lemma errors_Join_two e1 e2 : errors_Join [e1; e2] = None → e1 = None ∧ e2 = None.
Proof. by destruct e1, e2. Qed.

Lemma restore_ok original endpoint w w' :
  restore original endpoint w = (None, w') →
  hv_routes (hview w') = delete (bypass_key endpoint) (<[default_key := via_args original]> (hv_routes (hview w))).
Proof.
  unfold restore. destruct (RestoreDefaultRoute original w) as [e1 w1] eqn:E1, (RemoveBypassRoute endpoint w1) as [e2 w2] eqn:E2.
  intros [= [-> ->]%errors_Join_two <-]. apply RestoreDefaultRoute_ok in E1. apply RemoveBypassRoute_ok in E2.
  by rewrite E2, E1.
Qed.

(** A full tunnel that could not be set up leaves the routes as they were, but
    for the bypass route when taking that back fails too. One that was set up
    sends the endpoint the way it went before and everything else into the
    tunnel, and restoring it later takes both routes back: the default route
    then goes the way the endpoint went. *)
Theorem EnableFullTunnel_restores ParseAddr tun endpoint w r w' :
  host32 endpoint ≠ "default" → EnableFullTunnel ParseAddr tun endpoint w = (r, w') →
  match r with
  | Err _ =>
      hview w' = hview w
      ∨ ∃ original, hview w' = with_hroutes (<[bypass_key endpoint := via_args original]>) (hview w)
  | Ok undo =>
      ∃ original, hview w' = with_hroutes (tunnelled tun endpoint original) (hview w)
        ∧ ∀ w'', undo w' = (None, w'') → hv_routes (hview w'') = <[default_key := via_args original]> (hv_routes (hview w))
  end.
Proof.
  intros Hne. unfold EnableFullTunnel, currentRoute.
  destruct (sh "ip" ["route"; "get"; addr_String endpoint] w) as [[out x] w1] eqn:E0.
  assert (hview w1 = hview w) as Hv1 by (destruct (exit_ok x) eqn:Ex; [by apply (ip_ok _ _ _ _ _ E0)|by apply (ip_failed _ _ _ _ _ E0)]).
  destruct (exit_ok x); [|intros [= <- <-]; by left].
  destruct (parseRouteGet ParseAddr out) as [original|e]; [|intros [= <- <-]; by left].
  destruct (AddBypassRoute endpoint original w1) as [[e|] w2] eqn:E2.
  { intros [= <- <-]. left. apply runIP_failed in E2; [congruence|done]. }
  apply AddBypassRoute_ok in E2 as [Hnone Hv2]. rewrite Hv1 in Hnone, Hv2.
  destruct (SetFullTunnelDefault tun w2) as [[e|] w3] eqn:E3.
  - apply runIP_failed in E3; [|done]. intros [= <- <-].
    destruct (RemoveBypassRoute endpoint w3) as [[e'|] w4] eqn:E4; cbn [snd].
    + right. exists original. apply runIP_failed in E4; [congruence|done].
    + left. apply RemoveBypassRoute_ok in E4. rewrite E4, E3, Hv2. unfold with_hroutes. cbn.
      rewrite delete_insert_id by done. by destruct (hview w).
  - apply runIP_ok in E3 as [_ E3]; [|done]. intros [= <- <-]. exists original. split.
    + rewrite E3, Hv2. done.
    + intros w'' H. apply restore_ok in H. rewrite H, E3, Hv2. cbn [ip_effect ip_parse String.eqb Ascii.eqb Bool.eqb with_hroutes hv_routes].
      change (route_key "default" ["dev"; tun]) with default_key. rewrite insert_insert_eq.
      rewrite delete_insert_ne by (intros [=]; done). by rewrite delete_insert_id.
Qed.

(** ** Egress marks and tables *)

(** Every egress has a mark and a table of its own, all below the next ones. *)
Record marks_ok (base : Z) (t : EgressRouteTable) : Prop := {
  mk_next : rt_nextTableID t = base + (rt_nextMark t - 1);
  mk_size : Z.of_nat (size (rt_egresses t)) = rt_nextMark t - 1;
  mk_entry : ∀ id e, rt_egresses t !! id = Some e → 1 ≤ ee_mark e < rt_nextMark t ∧ ee_tableID e = base + (ee_mark e - 1);
  mk_inj : ∀ id id' e e', rt_egresses t !! id = Some e → rt_egresses t !! id' = Some e' → ee_mark e = ee_mark e' → id = id';
}.

Lemma RegisterEgress_ok base id route t m t' :
  0 ≤ base ≤ 2 ^ 32 → marks_ok base t → Z.of_nat (size (rt_egresses t)) < 2 ^ 32 - 2 → RegisterEgress id route t = (m, t') →
  marks_ok base t' ∧ rt_Mark id t' = Some m ∧ rt_egresses t ⊆ rt_egresses t'.
Proof.
  intros Hb [Hn Hs He Hi] Hlt. unfold RegisterEgress, rt_Mark. destruct (rt_egresses t !! id) as [e|] eqn:E; intros [= <- <-].
  - rewrite E. split_and!; [by split|done..].
  - cbn [rt_egresses ee_mark]. rewrite lookup_insert_eq. split_and!; [|done|by apply insert_subseteq].
    assert (u32 (rt_nextMark t + 1) = rt_nextMark t + 1) as Hu by (apply wrap_small; unfold fits; lia).
    assert (i64 (rt_nextTableID t + 1) = rt_nextTableID t + 1) as Ht by (apply i64_small; unfold i64_min, i64_max; lia).
    split; cbn [rt_nextMark rt_nextTableID rt_egresses]; rewrite ?Hu, ?Ht.
    + lia.
    + rewrite map_size_insert_None by done. lia.
    + intros id' e [[<- <-]|[_ H]]%lookup_insert_Some; cbn; [lia|]. apply He in H. lia.
    + intros id1 id2 e1 e2 [[<- <-]|[Hn1 H1]]%lookup_insert_Some [[<- <-]|[Hn2 H2]]%lookup_insert_Some; cbn; [done|..|by eapply Hi].
      * apply He in H2. lia.
      * apply He in H1. lia.
Qed.

Definition register_all (l : list (string * RouteInfo)) (t : EgressRouteTable) : EgressRouteTable :=
  fold_left (λ t '(id, r), (RegisterEgress id r t).2) l t.

Lemma register_all_ok base l : 0 ≤ base ≤ 2 ^ 32 → ∀ t,
  marks_ok base t → Z.of_nat (size (rt_egresses t) + length l) < 2 ^ 32 - 2 →
  marks_ok base (register_all l t) ∧ rt_egresses t ⊆ rt_egresses (register_all l t)
  ∧ (size (rt_egresses (register_all l t)) ≤ size (rt_egresses t) + length l)%nat.
Proof.
  intros Hb. induction l as [|[id r] l IH]; intros t Ht Hsz; [split_and!; [done..|cbn; lia]|].
  cbn [length] in *. destruct (RegisterEgress id r t) as [m t1] eqn:E.
  assert (register_all ((id, r) :: l) t = register_all l t1) as -> by (unfold register_all; cbn [fold_left]; by rewrite E).
  assert (size (rt_egresses t1) ≤ S (size (rt_egresses t)))%nat.
  { unfold RegisterEgress in E. destruct (rt_egresses t !! id) eqn:Ei; injection E as <- <-; cbn [rt_egresses]; [lia|].
    rewrite map_size_insert_None by done. lia. }
  destruct (RegisterEgress_ok base id r t m t1) as (H1 & _ & H2); [done..|lia|done|].
  destruct (IH t1) as (H3 & H4 & H5); [done|lia|]. split_and!; [done|by etrans|lia].
Qed.

(** Whatever egresses are registered, however often: marks are never 0, no two
    egresses share a mark or a routing table, an egress keeps the mark, table
    and route of its first registration, and a new flow of a bucket gets the
    mark of the egress it is assigned to. *)
Theorem marks_stay_apart base l l' :
  0 ≤ base ≤ 2 ^ 32 → Z.of_nat (length l + length l') < 2 ^ 32 - 2 →
  let t := register_all l (NewEgressRouteTable base) in
  let t' := register_all l' t in
  rt_egresses t ⊆ rt_egresses t'
  ∧ (∀ id e, rt_egresses t' !! id = Some e → 0 < ee_mark e)
  ∧ (∀ id id' e e', rt_egresses t' !! id = Some e → rt_egresses t' !! id' = Some e' → id ≠ id' →
       ee_mark e ≠ ee_mark e' ∧ ee_tableID e ≠ ee_tableID e')
  ∧ (∀ bucket egress m, LabelNewFlow bucket (Assign bucket egress m) t' = rt_Mark egress t').
Proof.
  intros Hb Hl t t'. assert (marks_ok base (NewEgressRouteTable base)) as H0 by (split; [cbn; lia|done..]).
  destruct (register_all_ok base l Hb _ H0) as (H1 & _ & Hs); [cbn [NewEgressRouteTable rt_egresses]; rewrite map_size_empty; lia|].
  cbn [NewEgressRouteTable rt_egresses] in Hs. rewrite map_size_empty in Hs.
  destruct (register_all_ok base l' Hb t H1) as ([Hn _ He Hi] & Hsub & _); [unfold t; lia|].
  split_and!; [done|..].
  - intros id e H. apply He in H. lia.
  - intros id id' e e' H H' Hne. apply He in H as E. apply He in H' as E'.
    assert (ee_mark e ≠ ee_mark e') by (intros E0; by apply Hne, (Hi id id' e e')). split; [done|lia].
  - intros bucket egress m. unfold LabelNewFlow, Assign. by rewrite lookup_insert_eq.
Qed.

(** An [Apply] without an error has put the route in the egress's table, and a
    rule for it is there, unless a line of the listing looked like it. *)
Lemma Apply_ok id t e w w' :
  rt_egresses t !! id = Some e →
  Apply id t w = (None, w') →
  hv_routes (hview w') !! (Itoa (ee_tableID e), "default") = Some (via_args (ee_route e))
  ∧ (["fwmark"; markHex (ee_mark e); "table"; Itoa (ee_tableID e)] ∈ hv_rules (hview w')
     ∨ existsb (has_rule_line (ee_mark e) (ee_tableID e)) (Split newline (sh "ip" ["rule"; "show"] w).1.1) = true).
Proof.
  intros He. unfold Apply, hasRule. rewrite He. destruct (sh "ip" ["rule"; "show"] w) as [[out x] w1] eqn:E0. cbn [fst].
  destruct (exit_ok x); [|done]. set (seen := existsb _ _).
  assert (∀ w2 w3, wrap_err "tunnel: set route" (runIP (routeArgs (ee_tableID e) (ee_route e)) w2) = (None, w3) →
    hv_routes (hview w3) !! (Itoa (ee_tableID e), "default") = Some (via_args (ee_route e)) ∧ hv_rules (hview w3) = hv_rules (hview w2)) as Hroute.
  { intros w2 w3. unfold wrap_err. destruct (runIP _ w2) as [[?|] w4] eqn:E; [done|]. intros [= ->].
    apply runIP_ok in E as [_ ->]; [|done]. cbn [ip_parse routeArgs app String.eqb Ascii.eqb Bool.eqb ip_effect with_hroutes hv_routes hv_rules].
    unfold route_key. rewrite cut_via_table. cbn [snd]. by rewrite lookup_insert_eq. }
  destruct seen.
  - intros [Hr _]%Hroute. split; [done|by right].
  - destruct (runIP (ruleArgs _ _) w1) as [[?|] w2] eqn:E; [done|]. intros [Hr Hu]%Hroute. split; [done|]. left.
    apply runIP_ok in E as [_ E]; [|done]. rewrite Hu, E. cbn. apply elem_of_app. right. by apply list_elem_of_singleton.
Qed.
End laws.

(** ** A host to run the examples on *)

Module HostDemo.

(** What is installed, what [ip route get] answers, and which of the next
    commands fail. *)
Record sim := mkSim { sm_view : hostview; sm_get : string; sm_faults : list bool }.

(** ["fwmark"; m; "table"; t] is listed as "fwmark m lookup t". *)
Definition show_rule (spec : list string) : string :=
  match spec with
  | [k; m; _; t] => "100: from all " +:+ k +:+ " " +:+ m +:+ " lookup " +:+ t
  | _ => "100: from all"
  end.
Definition printed (args : list string) (w : sim) : string :=
  match args with
  | [obj; verb] => if String.eqb obj "rule" && String.eqb verb "show" then Join (String newline "") (show_rule <$> hv_rules (sm_view w)) else ""
  | [_; _; _] => sm_get w
  | _ => ""
  end.

Definition sim_sh (name : string) (args : list string) (w : sim) : string * exit * sim :=
  match sm_faults w with
  | true :: fs => ("Operation not permitted", ExitCode 4, mkSim (sm_view w) (sm_get w) fs)
  | fs =>
      let fs := tail fs in
      let failed := ("No such file or directory", ExitCode 1, mkSim (sm_view w) (sm_get w) fs) in
      if String.eqb name "ip" then
        let c := ip_parse args in
        if bool_decide (ip_can c (sm_view w)) then (printed args w, ExitCode 0, mkSim (ip_effect c (sm_view w)) (sm_get w) fs) else failed
      else match ipt_parse args with
           | Some (op, r) =>
               if bool_decide (ipt_can op r (hv_ipt (sm_view w)))
               then ("", ExitCode 0, mkSim (with_ipt (ipt_effect op r) (sm_view w)) (sm_get w) fs) else failed
           | None => failed
           end
  end.

#[export] Instance sim_shell : Shell sim := {
  sh := sim_sh;
  WriteFile _ _ w := (true, w);
  ReadFile _ _ := Some "1";
}.

#[export] Instance sim_laws : ShellLaws sim.
Proof.
  refine {| hview := sm_view |}.
  - intros args w out x w' H _ Hx. unfold sh, sim_shell, sim_sh in H.
    destruct (sm_faults w) as [|[] fs]; cbn [String.eqb Ascii.eqb Bool.eqb] in H; repeat case_bool_decide; by simplify_eq/=.
  - intros args w out x w' H _ Hx. unfold sh, sim_shell, sim_sh in H.
    destruct (sm_faults w) as [|[] fs]; cbn [String.eqb Ascii.eqb Bool.eqb] in H; repeat case_bool_decide; by simplify_eq/=.
  - intros args w out x w' H Ho. unfold sh, sim_shell, sim_sh in H. rewrite Ho in H.
    destruct (sm_faults w) as [|[] fs]; cbn [String.eqb Ascii.eqb Bool.eqb] in H; repeat case_bool_decide; by simplify_eq/=.
  - intros args op r w out x w' H Hp Hx. unfold sh, sim_shell, sim_sh in H. rewrite Hp in H.
    destruct (sm_faults w) as [|[] fs]; cbn [String.eqb Ascii.eqb Bool.eqb] in H; repeat case_bool_decide; by simplify_eq/=.
  - intros args op r w out x w' H Hp Hx. unfold sh, sim_shell, sim_sh in H. rewrite Hp in H.
    destruct (sm_faults w) as [|[] fs]; cbn [String.eqb Ascii.eqb Bool.eqb] in H; repeat case_bool_decide; by simplify_eq/=.
  - by intros path s w ok w' [= _ <-].
Defined.

Definition parse4 (s : string) : option Addr := if String.eqb s "192.168.1.1" then Some (Addr4 3232235777) else None.
Definition lan : gmap (string * string) (list string) := {[default_key := ["via"; "192.168.1.1"; "dev"; "eth0"]]}.
Definition gateway : Addr := Addr4 3221226000.
Definition before (get : string) (faults : list bool) : sim := mkSim (mkView lan [] []) get faults.

Example parse_route :
  parseRouteGet parse4 "192.0.2.16 via 192.168.1.1 dev eth0 src 192.168.1.7 uid 0" = Ok (mkRouteInfo (Addr4 3232235777) "eth0").
Proof. vm_compute. reflexivity. Qed.

Definition far : string := "192.0.2.16 via 192.168.1.1 dev eth0 src 192.168.1.7".
Definition enabled (w : sim) := EnableFullTunnel parse4 "wg0" gateway w.
Lemma EnableFullTunnel_restores_witness :
  match enabled (before far []) with
  | (Ok undo, w') =>
      ∃ original, hview w' = with_hroutes (tunnelled "wg0" gateway original) (mkView lan [] [])
        ∧ ∀ w'', undo w' = (None, w'') → hv_routes (hview w'') = <[default_key := via_args original]> lan
  | _ => False
  end.
Proof.
  destruct (enabled (before far [])) as [[undo|e] w'] eqn:E;
    [|apply (f_equal (λ r, match r.1 with Ok _ => true | Err _ => false end)) in E; by vm_compute in E].
  exact (EnableFullTunnel_restores parse4 "wg0" gateway (before far []) (Ok undo) w' ltac:(done) E).
Defined.

(** When the default route cannot be set, the bypass route is taken back. *)
Example failed_tunnel : sm_view (enabled (before far [false; false; true])).2 = mkView lan [] [].
Proof. vm_compute. reflexivity. Qed.

(** *** Restoring does not restore the default route

    The gateway is on the local network, so its route has no next hop; that
    route, not the default route there was, becomes the default route. *)
Definition near : string := "192.0.2.16 dev eth0 src 192.168.1.7".
Lemma restore_loses_default :
  match enabled (before near []) with
  | (Ok undo, w') => let '(e, w'') := undo w' in e = None ∧ hv_routes (sm_view w'') = {[default_key := ["dev"; "eth0"]]}
  | _ => False
  end.
Proof. vm_compute. by split. Qed.

(** *** A rule is taken for another one

    The listing is searched for substrings: the rule of the sixteenth egress,
    mark 0x10 and table 16, passes for that of the first, mark 0x1 and table 1. *)
Definition numbered : EgressRouteTable :=
  register_all ((λ n, (pretty n, mkRouteInfo AddrInvalid "wg0")) <$> seq 1 16) (NewEgressRouteTable 1).
Definition applied : option error * sim :=
  let '(_, w) := Apply "16" numbered (before "" []) in Apply "1" numbered w.
Lemma Apply_skips_rule :
  applied.1 = None ∧ hv_rules (sm_view applied.2) = [["fwmark"; "0x10"; "table"; "16"]]
  ∧ hv_routes (sm_view applied.2) !! ("1", "default") = Some ["dev"; "wg0"].
Proof. vm_compute. by split_and!. Qed.

Lemma marks_stay_apart_witness :
  let t := register_all [("a", mkRouteInfo AddrInvalid "wg0"); ("b", mkRouteInfo AddrInvalid "wg1")] (NewEgressRouteTable 100) in
  rt_egresses t ⊆ rt_egresses (register_all [("a", mkRouteInfo AddrInvalid "wg9"); ("c", mkRouteInfo AddrInvalid "wg2")] t).
Proof.
  refine (proj1 (marks_stay_apart 100 [("a", mkRouteInfo AddrInvalid "wg0"); ("b", mkRouteInfo AddrInvalid "wg1")]
    [("a", mkRouteInfo AddrInvalid "wg9"); ("c", mkRouteInfo AddrInvalid "wg2")] _ _)); [lia|cbn; lia].
Defined.

End HostDemo.
