(* ===== verification/GatewayHost.v ===== *)
(** * A gateway's host: internal/gateway/netcfg.go, and setup and teardown of
    agent.go and ipsec.go

    [setup] is a list of steps, each with what it leaves to undo; [teardown]
    runs the undo list backwards, whether setup ended or failed. WireGuard
    devices, XFRM interfaces and sockets are the class [HostIO]. *)

From S2P Require Import Prelude Netip Services Api IpsecConfig IpsecRender ClientAgent GoStrings HostNet.
Import Membership.

Definition probeRulePref : Z := 100.
Definition fwdRulePref : Z := 1000.
Definition probeTable : Z := 100.
Definition egressTableBase : Z := 1000.
Definition clientDevice : string := "egc0".
Definition ipsecDevice : string := "egi0".
Definition ipsecIfID : Z := 7001.

Section netcfg.
Context {W : Type} `{!Shell W}.

Definition run (name : string) (args : list string) (w : W) : option string * W :=
  let '(out, x, w) := sh name args w in
  if exit_ok x then (None, w)
  else (Some (name +:+ " " +:+ Join " " args +:+ ": " +:+ exit_String x +:+ " (" +:+ TrimSpace out +:+ ")"), w).

Definition ip (args : list string) (w : W) : option string * W := run "ip" args w.

Definition benign : list string :=
  ["File exists"; "No such process"; "No such file or directory"; "Cannot find device"; "FIB table does not exist"].
Definition ipIgnore (args : list string) (w : W) : option string * W :=
  match ip args w with
  | (None, w) => (None, w)
  | (Some msg, w) => if existsb (substr msg) benign then (None, w) else (Some msg, w)
  end.

Definition setRPFilterLoose (dev : string) (w : W) : option string * W :=
  let '(ok, w) := WriteFile ("/proc/sys/net/ipv4/conf/" +:+ dev +:+ "/rp_filter") ("2" +:+ String newline "") w in
  (if (ok : bool) then None else Some "write rp_filter", w).

(** [if err := f(); err != nil { return err }; return g()] *)
Definition and_then (f g : W → option string * W) (w : W) : option string * W :=
  match f w with (Some e, w) => (Some e, w) | (None, w) => g w end.

Definition addrUp (dev : string) (addr : Addr) (mtu : Z) : W → option string * W :=
  and_then (ipIgnore ["addr"; "add"; host32 addr; "dev"; dev])
    (and_then (ip ["link"; "set"; dev; "mtu"; Itoa mtu; "up"]) (setRPFilterLoose dev)).

Fixpoint clear_loop (fuel : nat) (pref : Z) (w : W) : W :=
  match fuel with
  | O => w
  | S fuel => match ip ["rule"; "del"; "pref"; Itoa pref] w with (Some _, w) => w | (None, w) => clear_loop fuel pref w end
  end.
Definition clearRules (pref : Z) (w : W) : W := clear_loop (Z.to_nat 100000) pref w.

Definition flushTable (table : Z) : W → option string * W := ipIgnore ["route"; "flush"; "table"; Itoa table].

Definition ruleFrom (vip : Addr) (table : Z) : list string := ["from"; host32 vip; "lookup"; Itoa table; "pref"; Itoa fwdRulePref].
Definition addRule (args : list string) : W → option string * W := ipIgnore (["rule"; "add"] ++ args).
Definition delRule (args : list string) : W → option string * W := ipIgnore (["rule"; "del"] ++ args).

Definition natRule (subnet : Prefix) (uplink : string) : list string :=
  ["-t"; "nat"; "%s"; "POSTROUTING"; "-s"; pf_String subnet; "-o"; uplink; "-j"; "MASQUERADE"].
Definition forwardRules (dev : string) : list (list string) :=
  [["%s"; "FORWARD"; "-i"; dev; "-j"; "ACCEPT"]; ["%s"; "FORWARD"; "-o"; dev; "-j"; "ACCEPT"]].
Definition probeInputRule (dev : string) (nodeIP : Addr) (port : Z) : list string :=
  ["%s"; "INPUT"; "-i"; dev; "-p"; "udp"; "-d"; host32 nodeIP; "--dport"; Itoa port; "-j"; "ACCEPT"].
Definition withOp (rule : list string) (op : string) : list string := (λ a, if String.eqb a "%s" then op else a) <$> rule.

Definition ensureIptables (rule : list string) (w : W) : option string * W :=
  match run "iptables" (withOp rule "-C") w with
  | (None, w) => (None, w)
  | (Some _, w) => run "iptables" (withOp rule "-I") w
  end.
Definition deleteIptables (rule : list string) : W → option string * W := run "iptables" (withOp rule "-D").
End netcfg.

(** ** setup and teardown *)

(** Devices and sockets. *)
Class HostIO (W : Type) := {
  NewReal : string → W → bool * W;
  CloseReal : string → W → W;
  AddXfrm : string → Z → W → bool * W;
  DelXfrm : string → W → W;
  ListenUDP : Addr → Z → W → bool * W;
  CloseUDP : W → W;
}.

Record GConfig := mkGConfig {
  gh_Roles : Z; gh_Uplink : string; gh_MTU : Z; gh_IPsec : bool;
  gh_nodeIP : Addr; gh_ClientSubnet : Prefix; gh_ProbePort : Z }.

Inductive gundo := UnDevice (dev : string) | UnProbeRule | UnIpt (rule : list string) | UnXfrm (dev : string) | UnEcho.

Inductive gstep :=
| GForwarding
| GClear (pref : Z)
| GDevice (dev : string)
| GAddrUp (dev : string)
| GIp (args : list string)
| GFlush (table : Z)
| GProbeRule
| GEnsure (rule : list string)
| GXfrm (dev : string) (ifID : Z)
| GListen (echo : bool).

Section setup.
Context {W : Type} `{!Shell W, !HostIO W} (cfg : GConfig).

Definition ipsecHost : bool := gh_IPsec cfg && Has (gh_Roles cfg) RoleAccess.
Definition probeRule : list string :=
  ["from"; host32 (gh_nodeIP cfg); "lookup"; Itoa probeTable; "pref"; Itoa probeRulePref].

Definition setupIPsec : list gstep := GXfrm ipsecDevice ipsecIfID :: GAddrUp ipsecDevice :: (GEnsure <$> forwardRules ipsecDevice).

Definition setup : list gstep :=
  [GForwarding; GClear probeRulePref; GClear fwdRulePref; GDevice clientDevice; GAddrUp clientDevice;
   GIp ["route"; "replace"; pf_String (gh_ClientSubnet cfg); "dev"; clientDevice];
   GFlush probeTable;
   GIp ["route"; "replace"; pf_String (gh_ClientSubnet cfg); "dev"; clientDevice; "table"; Itoa probeTable];
   GProbeRule]
  ++ (GEnsure <$> (forwardRules clientDevice ++ forwardRules "egb+"))
  ++ (if Has (gh_Roles cfg) RoleEgress then [GEnsure (natRule (gh_ClientSubnet cfg) (gh_Uplink cfg))] else [])
  ++ (if ipsecHost then setupIPsec else [])
  ++ ((λ dev, GEnsure (probeInputRule dev (gh_nodeIP cfg) (gh_ProbePort cfg))) <$>
      ([clientDevice; "egb+"] ++ if ipsecHost then [ipsecDevice] else []))
  ++ [GListen true; GListen false].

Definition failing (what : string) (r : bool * W) : option string * W := let '(ok, w) := r in (if (ok : bool) then None else Some what, w).

(** A step's error, what it adds to the undo list, and the host after it. *)
Definition run_step (s : gstep) (w : W) : option string * list gundo * W :=
  match s with
  | GForwarding => let '(e, w) := EnableIPForwarding w in (if e then Some "enable IP forwarding" else None, [], w)
  | GClear pref => (None, [], clearRules pref w)
  | GDevice dev => let '(e, w) := failing "device" (NewReal dev w) in (e, [UnDevice dev], w)
  | GAddrUp dev => let '(e, w) := addrUp dev (gh_nodeIP cfg) (gh_MTU cfg) w in (e, [], w)
  | GIp args => let '(e, w) := ip args w in (e, [], w)
  | GFlush table => let '(e, w) := flushTable table w in (e, [], w)
  | GProbeRule => let '(e, w) := addRule probeRule w in (e, [UnProbeRule], w)
  | GEnsure rule => let '(e, w) := ensureIptables rule w in (e, [UnIpt rule], w)
  | GXfrm dev ifID => let '(e, w) := failing "xfrm interface" (AddXfrm dev ifID (DelXfrm dev w)) in (e, [UnXfrm dev], w)
  | GListen echo =>
      let '(e, w) := failing "listen" (ListenUDP (gh_nodeIP cfg) (if echo then gh_ProbePort cfg else 0) w) in
      (e, if (echo : bool) then [UnEcho] else [], w)
  end.

(** The undo list is kept newest first. *)
Fixpoint run_setup (l : list gstep) (us : list gundo) (w : W) : option string * list gundo * W :=
  match l with
  | [] => (None, us, w)
  | s :: l =>
      match run_step s w with
      | (Some e, _, w) => (Some e, us, w)
      | (None, u, w) => run_setup l (u ++ us) w
      end
  end.

Definition run_undo (u : gundo) (w : W) : W :=
  match u with
  | UnDevice dev => CloseReal dev w
  | UnProbeRule => (flushTable probeTable (delRule probeRule w).2).2
  | UnIpt rule => (deleteIptables rule w).2
  | UnXfrm dev => DelXfrm dev w
  | UnEcho => CloseUDP w
  end.

(** [backbones] are the names of the backbone devices, [tables] the numbers of
    the gateways that have one; [unload] is unloadIPsec of every client. *)
Definition teardown (backbones : list string) (tables : list Z) (unload : W → W) (us : list gundo) (w : W) : W :=
  let w := fold_left (λ w dev, CloseReal dev w) backbones w in
  let w := fold_left (λ w n, (flushTable (egressTableBase + n) w).2) tables w in
  let w := if gh_IPsec cfg then unload w else w in
  fold_left (λ w u, run_undo u w) us (clearRules fwdRulePref w).

End setup.

(** ** What is relied on *)

(** Devices and sockets are neither policy rules nor filter rules. *)
Definition same_rules {W} `{Shell W, !ShellLaws W} (w w' : W) : Prop :=
  hv_rules (hview w') = hv_rules (hview w) ∧ hv_ipt (hview w') = hv_ipt (hview w).

Class HostIOLaws (W : Type) `{Shell W, !ShellLaws W, !HostIO W} := {
  NewReal_rules : ∀ dev w ok w', NewReal dev w = (ok, w') → same_rules w w';
  CloseReal_rules : ∀ dev w, same_rules w (CloseReal dev w);
  AddXfrm_rules : ∀ dev n w ok w', AddXfrm dev n w = (ok, w') → same_rules w w';
  DelXfrm_rules : ∀ dev w, same_rules w (DelXfrm dev w);
  ListenUDP_rules : ∀ a p w ok w', ListenUDP a p w = (ok, w') → same_rules w w';
  CloseUDP_rules : ∀ w, same_rules w (CloseUDP w);
}.

(** A host on which commands that can succeed do, and that stays one. *)
Class Working (W : Type) `{Shell W, !ShellLaws W, !HostIO W} := {
  healthy : W → Prop;
  healthy_ip : ∀ args w out x w', healthy w → sh "ip" args w = (out, x, w') →
    healthy w' ∧ (ip_parse args ≠ IpOther → ip_can (ip_parse args) (hview w) → exit_ok x = true);
  healthy_iptables : ∀ args op r w out x w', healthy w → sh "iptables" args w = (out, x, w') → ipt_parse args = Some (op, r) →
    healthy w' ∧ (ipt_can op r (hv_ipt (hview w)) → exit_ok x = true);
  healthy_io : ∀ w dev, healthy w → healthy (CloseReal dev w) ∧ healthy (DelXfrm dev w) ∧ healthy (CloseUDP w);
}.

Lemma remove_first_absent {A} `{EqDecision A} (x : A) l : x ∉ l → remove_first x l = l.
Proof.
  induction l as [|y l IH]; [done|]. intros Hn. apply not_elem_of_cons in Hn as [Hy Hn]. cbn. rewrite decide_False by done. by rewrite IH.
Qed.

Lemma remove_first_perm {A} `{EqDecision A} (x : A) l : x ∈ l → l ≡ₚ x :: remove_first x l.
Proof.
  induction l as [|y l IH]; [by intros ?%elem_of_nil|]. cbn. case_decide as E; [by subst|].
  intros [?|Hin]%elem_of_cons; [done|]. rewrite (IH Hin) at 1. apply Permutation_swap.
Qed.

Lemma remove_first_app {A} `{EqDecision A} (x : A) l l' : x ∈ l → remove_first x (l ++ l') = remove_first x l ++ l'.
Proof.
  induction l as [|y l IH]; [by intros ?%elem_of_nil|]. cbn. case_decide as E; [done|].
  intros [?|Hin]%elem_of_cons; [done|]. by rewrite IH.
Qed.

(** Taking out, one by one, at least what was put in front. *)
Lemma remove_all {A} `{EqDecision A} (rs : list A) : ∀ ins base,
  ins ⊆+ rs → (∀ r, r ∈ rs → r ∉ base) → fold_left (λ l r, remove_first r l) rs (ins ++ base) = base.
Proof.
  induction rs as [|r rs IH]; intros ins base Hsub Hb; cbn.
  - apply submseteq_nil_r in Hsub as ->. done.
  - assert (∀ r', r' ∈ rs → r' ∉ base) as Hb' by (intros ? ?; apply Hb; by right).
    destruct (decide (r ∈ ins)) as [Hin|Hn].
    + rewrite remove_first_app by done. apply IH; [|done].
      rewrite (remove_first_perm r ins Hin) in Hsub. by apply submseteq_cons_l in Hsub as (k & ->%Permutation_cons_inv & ?).
    + rewrite remove_first_absent; [|apply not_elem_of_app; split; [done|apply Hb; by left]].
      apply IH; [|done]. apply submseteq_cons_r in Hsub as [?|(k & Hk & _)]; [done|]. destruct Hn. rewrite Hk. by left.
Qed.

(** ** Rules as iptables reads them *)

(** A rule with %s for the operation, and nowhere else. *)
Definition ipt_shape (rule : list string) : Prop :=
  ∃ pre post, rule = pre ++ "%s" :: post ∧ (pre = [] ∨ pre = ["-t"; "nat"]) ∧ "%s" ∉ post.

Lemma withOp_id op l : "%s" ∉ l → withOp l op = l.
Proof.
  intros Hn. unfold withOp. rewrite <- (map_id l) at 2. apply map_ext_in. intros a Ha.
  destruct (String.eqb_spec a "%s") as [->|]; [|done]. destruct Hn. by apply list_elem_of_In.
Qed.

Lemma ipt_shape_parse rule op : ipt_shape rule → op ∈ ["-I"; "-D"; "-C"] → ipt_parse (withOp rule op) = Some (op, rule).
Proof.
  intros (pre & post & -> & Hpre & Hn) Hop. unfold withOp. rewrite fmap_app, fmap_cons. fold (withOp post op). rewrite withOp_id by done.
  repeat (apply elem_of_cons in Hop as [->|Hop]; [by destruct Hpre as [-> | ->]|]). by apply elem_of_nil in Hop.
Qed.

Lemma not_op_slash s : lacks (Ascii.ascii_of_nat 47) s = false → s ≠ "%s".
Proof. by intros H ->. Qed.

Lemma lacks_slash a b : lacks (Ascii.ascii_of_nat 47) (a +:+ String (Ascii.ascii_of_nat 47) b) = false.
Proof. rewrite lacks_app. cbn. by rewrite andb_false_r. Qed.

Lemma host32_not_op a : host32 a ≠ "%s".
Proof. apply not_op_slash, lacks_slash. Qed.

Lemma pf_String_not_op p : pf_String p ≠ "%s".
Proof. unfold pf_String. destruct (pf_IsValid p); [apply not_op_slash, lacks_slash|done]. Qed.

Lemma Itoa_not_op n : 0 ≤ n → Itoa n ≠ "%s".
Proof.
  intros Hn E. unfold Itoa in E. destruct (Z.ltb_spec n 0); [lia|]. unfold FormatUint in E.
  apply (f_equal String.list_ascii_of_string) in E. rewrite String.list_ascii_of_string_of_list_ascii in E.
  assert (∃ l d, format_digits 20 n = l ++ [digit_char d] ∧ 0 ≤ d < 10) as (l & d & Hd & Hr).
  { cbn [format_digits]. destruct (Z.ltb_spec n 10); [exists [], n; split; [done|lia]|].
    do 2 eexists. split; [done|]. apply Z.mod_pos_bound. lia. }
  rewrite Hd in E. change (String.list_ascii_of_string "%s") with ([Ascii.ascii_of_nat 37] ++ [Ascii.ascii_of_nat 115]) in E.
  apply app_inj_tail in E as [_ E]. apply (f_equal Ascii.nat_of_ascii) in E. unfold digit_char in E.
  rewrite Ascii.nat_ascii_embedding in E by lia. change (Ascii.nat_of_ascii (Ascii.ascii_of_nat 115)) with 115%nat in E. lia.
Qed.

Record names_ok (cfg : GConfig) : Prop := { no_uplink : gh_Uplink cfg ≠ "%s"; no_port : 0 ≤ gh_ProbePort cfg }.

Lemma forwardRules_shape dev rule : dev ≠ "%s" → rule ∈ forwardRules dev → ipt_shape rule.
Proof.
  intros Hd [->|[->|[]%elem_of_nil]%elem_of_cons]%elem_of_cons; eexists [], _; (split; [done|]); split; auto;
    intros H; repeat apply elem_of_cons in H as [H|H]; try done; by apply elem_of_nil in H.
Qed.

Lemma natRule_shape subnet uplink : uplink ≠ "%s" → ipt_shape (natRule subnet uplink).
Proof.
  intros Hu. exists ["-t"; "nat"], (drop 3 (natRule subnet uplink)). split; [done|]. split; [auto|]. cbn.
  pose proof (pf_String_not_op subnet). intros H'. repeat apply elem_of_cons in H' as [H'|H']; try done. by apply elem_of_nil in H'.
Qed.

Lemma probeInputRule_shape dev nodeIP port : dev ≠ "%s" → 0 ≤ port → ipt_shape (probeInputRule dev nodeIP port).
Proof.
  intros Hd Hp. exists [], (drop 1 (probeInputRule dev nodeIP port)). split; [done|]. split; [auto|]. cbn.
  pose proof (host32_not_op nodeIP). pose proof (Itoa_not_op port Hp).
  intros H'. repeat apply elem_of_cons in H' as [H'|H']; try done. by apply elem_of_nil in H'.
Qed.

(** Every filter rule of [setup]. *)
Lemma setup_shape cfg rule : names_ok cfg → GEnsure rule ∈ setup cfg → ipt_shape rule.
Proof.
  intros [Hu Hp] H. unfold setup in H.
  rewrite !elem_of_app in H. destruct H as [H|[H|[H|[H|[H|H]]]]].
  - repeat apply elem_of_cons in H as [H|H]; try done. by apply elem_of_nil in H.
  - apply list_elem_of_fmap in H as (r & [= ->] & [H|H]%elem_of_app); (eapply forwardRules_shape; [|exact H]; done).
  - destruct (Has _ _); [|by apply elem_of_nil in H]. apply list_elem_of_singleton in H as [= ->]. by apply natRule_shape.
  - destruct (ipsecHost cfg); [|by apply elem_of_nil in H]. unfold setupIPsec in H.
    repeat apply elem_of_cons in H as [H|H]; try done; [..|by apply elem_of_nil in H]; injection H as ->;
      eapply (forwardRules_shape ipsecDevice); try done; unfold forwardRules; set_solver.
  - apply list_elem_of_fmap in H as (dev & [= ->] & H). apply probeInputRule_shape; [|done].
    destruct (ipsecHost cfg); repeat apply elem_of_cons in H as [H|H]; subst; try done; by apply elem_of_nil in H.
  - repeat apply elem_of_cons in H as [H|H]; try done. by apply elem_of_nil in H.
Qed.

(** ** Setting up only adds what is written down to be undone *)

Definition foreign (l : list (list string)) : list (list string) := filter (λ r, ¬ has_pref "100" r ∧ ¬ has_pref "1000" r) l.
Definition ipts (us : list gundo) : list (list string) := us ≫= λ u, match u with UnIpt rule => [rule] | _ => [] end.
Definition probes (cfg : GConfig) (us : list gundo) : list (list string) :=
  us ≫= λ u, match u with UnProbeRule => [probeRule cfg] | _ => [] end.

Lemma ipts_app us us' : ipts (us ++ us') = ipts us ++ ipts us'.
Proof. apply bind_app. Qed.
Lemma probes_app cfg us us' : probes cfg (us ++ us') = probes cfg us ++ probes cfg us'.
Proof. apply bind_app. Qed.

Section laws.
Context {W : Type} `{!Shell W, !ShellLaws W, !HostIO W, !HostIOLaws W} (cfg : GConfig).

Record grown (us : list gundo) (w w' : W) : Prop := {
  grown_ipt : ∃ ins, hv_ipt (hview w') = ins ++ hv_ipt (hview w) ∧ ins ⊆+ ipts us;
  grown_rules : hv_rules (hview w') ⊆+ hv_rules (hview w) ++ probes cfg us;
  grown_foreign : foreign (hv_rules (hview w')) = foreign (hv_rules (hview w));
}.

Lemma grown_trans us us' w w1 w2 : grown us w w1 → grown us' w1 w2 → grown (us' ++ us) w w2.
Proof.
  intros [(i1 & E1 & H1) R1 F1] [(i2 & E2 & H2) R2 F2]. split.
  - exists (i2 ++ i1). rewrite E2, E1, app_assoc. split; [done|]. rewrite ipts_app. by apply submseteq_app.
  - rewrite R2, probes_app, (comm (++) (probes cfg us')), app_assoc. by apply submseteq_skips_r.
  - congruence.
Qed.

Lemma grown_mono us us' w w' : us ⊆+ us' → grown us w w' → grown us' w w'.
Proof.
  intros Hs [(i & E & H) R F]. assert (ipts us ⊆+ ipts us' ∧ probes cfg us ⊆+ probes cfg us') as [Hi Hp].
  { apply submseteq_Permutation in Hs as [k Hk]. unfold ipts, probes. rewrite Hk, !bind_app. split; by apply submseteq_inserts_r. }
  split; [exists i; split; [done|by rewrite H]|by rewrite R; apply submseteq_skips_l|done].
Qed.

Lemma grown_quiet w w' : same_rules w w' → grown [] w w'.
Proof. intros [E1 E2]. split; [exists []; by rewrite E2|by rewrite E1, app_nil_r|by rewrite E1]. Qed.

Lemma same_rules_view w w' : hview w' = hview w → same_rules w w'.
Proof. intros E. split; by rewrite E. Qed.

Lemma same_rules_trans w w1 w2 : same_rules w w1 → same_rules w1 w2 → same_rules w w2.
Proof. intros [? ?] [? ?]. split; congruence. Qed.

(** Commands of ip other than those on rules. *)
Definition no_rule_cmd (args : list string) : Prop :=
  match ip_parse args with IpRuleAdd _ | IpRuleDel _ | IpRuleDelPref _ => False | _ => True end.

Lemma ip_cases args w e w' : ip args w = (e, w') → ip_parse args ≠ IpOther →
  (e = None ∧ ip_can (ip_parse args) (hview w) ∧ hview w' = ip_effect (ip_parse args) (hview w)) ∨ (is_Some e ∧ hview w' = hview w).
Proof.
  unfold ip, run. destruct (sh "ip" args w) as [[out x] w1] eqn:E. destruct (exit_ok x) eqn:Ex; intros [= <- <-] Ho.
  - left. pose proof (ip_ok _ _ _ _ _ E Ho Ex). tauto.
  - right. split; [done|]. by eapply ip_failed.
Qed.

Lemma ip_quiet args w e w' : no_rule_cmd args → ip args w = (e, w') → same_rules w w'.
Proof.
  intros Hn H. assert (ip_parse args = IpOther ∨ ip_parse args ≠ IpOther) as [Ho|Ho] by (destruct (ip_parse args); auto).
  - unfold ip, run in H. destruct (sh "ip" args w) as [[out x] w1] eqn:E. destruct (ip_other _ _ _ _ _ E Ho).
    destruct (exit_ok x); simplify_eq; by split.
  - destruct (ip_cases _ _ _ _ H Ho) as [(_ & _ & E)|[_ E]]; [|by apply same_rules_view].
    unfold no_rule_cmd in Hn. split; rewrite E; by destruct (ip_parse args).
Qed.

Lemma ipIgnore_ip args w e w' : ipIgnore args w = (e, w') → ∃ e', ip args w = (e', w') ∧ (e' = None → e = None).
Proof.
  unfold ipIgnore. destruct (ip args w) as [[msg|] w1]; [destruct (existsb _ _)|]; intros [= <- <-]; eauto.
Qed.

Lemma ipIgnore_quiet args w e w' : no_rule_cmd args → ipIgnore args w = (e, w') → same_rules w w'.
Proof. intros Hn (e' & H & _)%ipIgnore_ip. by eapply ip_quiet. Qed.

Lemma flushTable_quiet t w e w' : flushTable t w = (e, w') → same_rules w w'.
Proof. by apply ipIgnore_quiet. Qed.

Lemma addrUp_quiet dev a mtu w e w' : addrUp dev a mtu w = (e, w') → same_rules w w'.
Proof.
  unfold addrUp, and_then. destruct (ipIgnore _ w) as [[e1|] w1] eqn:E1; apply ipIgnore_quiet in E1; try done; [by intros [= _ <-]|].
  destruct (ip _ w1) as [[e2|] w2] eqn:E2; apply ip_quiet in E2; try done; [by intros [= _ <-]; eapply same_rules_trans|].
  unfold setRPFilterLoose. destruct (WriteFile _ _ w2) as [ok w3] eqn:E3. intros [= _ <-].
  apply WriteFile_hview, same_rules_view in E3. eauto using same_rules_trans.
Qed.

Lemma remove_pref_sublist n l : remove_pref n l `sublist_of` l.
Proof. induction l as [|r l IH]; cbn; [done|]. case_decide; [by apply sublist_cons|by apply sublist_skip]. Qed.

Lemma foreign_remove_pref n l : n = "100" ∨ n = "1000" → foreign (remove_pref n l) = foreign l.
Proof.
  intros Hn. induction l as [|r l IH]; cbn [remove_pref]; [done|]. unfold foreign in *. case_decide as Hr.
  - rewrite filter_cons_False; [done|]. unfold has_pref. destruct Hn; subst; tauto.
  - rewrite !filter_cons. by rewrite IH.
Qed.

Lemma clear_loop_grown fuel pref : Itoa pref = "100" ∨ Itoa pref = "1000" → ∀ w, grown [] w (clear_loop fuel pref w).
Proof.
  intros Hp. induction fuel as [|fuel IH]; intros w; cbn [clear_loop]; [by apply grown_quiet|].
  destruct (ip _ w) as [e w1] eqn:E. assert (grown [] w w1) as Hg.
  { apply ip_cases in E as [(_ & _ & E)|[_ E]]; [..|done]; [|by apply grown_quiet, same_rules_view].
    split; rewrite E; cbn [ip_parse String.eqb Ascii.eqb Bool.eqb ip_effect with_hrules hv_rules hv_ipt].
    - by exists [].
    - rewrite app_nil_r. apply sublist_submseteq, remove_pref_sublist.
    - by apply foreign_remove_pref. }
  destruct e; [done|]. apply (grown_trans [] []) with w1; auto.
Qed.

Lemma run_iptables rule op w e w' : ipt_shape rule → op ∈ ["-I"; "-D"; "-C"] → run "iptables" (withOp rule op) w = (e, w') →
  (e = None ∧ ipt_can op rule (hv_ipt (hview w)) ∧ hview w' = with_ipt (ipt_effect op rule) (hview w)) ∨ (is_Some e ∧ hview w' = hview w).
Proof.
  intros Hs Hop. pose proof (ipt_shape_parse _ _ Hs Hop) as Hp. unfold run.
  destruct (sh "iptables" _ w) as [[out x] w1] eqn:E. destruct (exit_ok x) eqn:Ex; intros [= <- <-].
  - left. destruct (iptables_ok _ _ _ _ _ _ _ E Hp Ex). done.
  - right. split; [done|]. by eapply iptables_failed.
Qed.

Lemma with_ipt_id v : with_ipt (λ l, l) v = v.
Proof. by destruct v. Qed.

(** The rule is put in front, unless it is there. *)
Lemma ensureIptables_cases rule w e w' : ipt_shape rule → ensureIptables rule w = (e, w') →
  hview w' = hview w ∨ (e = None ∧ hview w' = with_ipt (cons rule) (hview w)).
Proof.
  intros Hs. unfold ensureIptables. destruct (run _ (withOp rule "-C") w) as [e1 w1] eqn:E1.
  apply run_iptables in E1; [|done|set_solver]. assert (hview w1 = hview w) as Hv.
  { destruct E1 as [(_ & _ & ->)|[_ ->]]; [by destruct (hview w)|done]. }
  destruct e1 as [e1|]; [|intros [= <- <-]; by left].
  intros E2. apply run_iptables in E2; [|done|set_solver]. destruct E2 as [(-> & _ & E2)|[_ E2]]; rewrite E2, Hv; auto.
Qed.

Lemma EnableIPForwarding_quiet w e w' : EnableIPForwarding w = (e, w') → same_rules w w'.
Proof.
  unfold EnableIPForwarding. intros H. repeat case_match; simplify_eq; try (by apply same_rules_view);
  match goal with E : WriteFile _ _ _ = _ |- _ => by apply WriteFile_hview, same_rules_view in E end.
Qed.

(** What a step that ended with [e] has to undo. *)
Definition kept (e : option string) (us : list gundo) : list gundo := match e with Some _ => [] | None => us end.

Lemma grown_kept e us w w' : same_rules w w' → grown (kept e us) w w'.
Proof. intros H. apply (grown_mono []); [apply submseteq_nil_l|by apply grown_quiet]. Qed.

Lemma addRule_grown w e w' : addRule (probeRule cfg) w = (e, w') → grown (kept e [UnProbeRule]) w w'.
Proof.
  intros (e' & H & He)%ipIgnore_ip. apply ip_cases in H; [|done]. destruct H as [(-> & _ & E)|[_ E]].
  - rewrite He by done. split; rewrite E; cbn; [by exists []|done|].
    unfold foreign. rewrite filter_app, filter_cons_False, filter_nil, app_nil_r; [done|]. intros [Hn _]. by apply Hn.
  - apply (grown_mono []); [apply submseteq_nil_l|]. by apply grown_quiet, same_rules_view.
Qed.

Definition step_ok (s : gstep) : Prop :=
  match s with
  | GEnsure rule => ipt_shape rule
  | GClear p => p = probeRulePref ∨ p = fwdRulePref
  | GIp args => no_rule_cmd args
  | _ => True
  end.

Lemma ensure_grown rule w e w' : ipt_shape rule → ensureIptables rule w = (e, w') → grown (kept e [UnIpt rule]) w w'.
Proof.
  intros Hs [E|[-> E]]%ensureIptables_cases; [by apply grown_kept, same_rules_view| |done].
  split; rewrite E; cbn; [by exists [rule]|by rewrite app_nil_r|done].
Qed.

Lemma run_step_grown s w e u w' : step_ok s → run_step cfg s w = (e, u, w') → grown (kept e u) w w'.
Proof.
  intros Hs H. destruct s; cbn [run_step] in H; unfold failing in H.
  - destruct (EnableIPForwarding w) eqn:E. simplify_eq. eapply grown_kept, EnableIPForwarding_quiet, E.
  - simplify_eq. apply clear_loop_grown. destruct Hs as [-> | ->]; auto.
  - destruct (NewReal dev w) eqn:E. simplify_eq. eapply grown_kept, NewReal_rules, E.
  - destruct (addrUp _ _ _ w) eqn:E. simplify_eq. eapply grown_kept, addrUp_quiet, E.
  - destruct (ip args w) eqn:E. simplify_eq. eapply grown_kept, ip_quiet, E. done.
  - destruct (flushTable table w) eqn:E. simplify_eq. eapply grown_kept, flushTable_quiet, E.
  - destruct (addRule _ w) eqn:E. simplify_eq. by apply addRule_grown.
  - destruct (ensureIptables rule w) eqn:E. simplify_eq. by apply ensure_grown.
  - destruct (AddXfrm _ _ _) eqn:E. simplify_eq. eapply grown_kept, same_rules_trans, AddXfrm_rules, E. apply DelXfrm_rules.
  - destruct (ListenUDP _ _ w) eqn:E. simplify_eq. eapply grown_kept, ListenUDP_rules, E.
Qed.

Lemma run_setup_grown l : Forall step_ok l → ∀ w0 us w e us' w',
  grown us w0 w → run_setup cfg l us w = (e, us', w') → grown us' w0 w'.
Proof.
  induction 1 as [|s l Hs _ IH]; intros w0 us w e us' w' Hg H; cbn in H; [by simplify_eq|].
  destruct (run_step cfg s w) as [[[e1|] u] w1] eqn:E; apply run_step_grown in E as Hg1; auto.
  - injection H as _ <- <-. by apply (grown_trans us [] _ w).
  - eapply IH; [|done]. by apply (grown_trans us u _ w).
Qed.

Lemma setup_ok : names_ok cfg → Forall step_ok (setup cfg).
Proof.
  intros Hn. assert (Forall (λ s, step_ok s ∨ ∃ rule, s = GEnsure rule) (setup cfg)) as Hall.
  { unfold setup. rewrite !Forall_app, !Forall_fmap. unfold setupIPsec.
    split_and!; repeat case_match; rewrite ?Forall_app; split_and?;
      repeat match goal with |- Forall _ _ => constructor end; cbn; auto; try (right; by eexists). }
  rewrite Forall_forall in Hall |- *. intros s Hin. destruct (Hall s Hin) as [|[rule ->]]; [done|]. by eapply setup_shape.
Qed.
End laws.

(** ** Undoing takes out exactly that *)

Lemma remove_first_submseteq {A} `{EqDecision A} (x : A) l k : l ⊆+ x :: k → remove_first x l ⊆+ k.
Proof.
  intros H. destruct (decide (x ∈ l)) as [Hin|Hn].
  - rewrite (remove_first_perm x l Hin) in H. by apply submseteq_cons_l in H as (k' & ->%Permutation_cons_inv & ?).
  - rewrite remove_first_absent by done. apply submseteq_cons_r in H as [?|(k' & Hk & _)]; [done|]. destruct Hn. rewrite Hk. by left.
Qed.

Lemma remove_each_submseteq {A} `{EqDecision A} (rs : list A) : ∀ l base,
  l ⊆+ base ++ rs → fold_left (λ l r, remove_first r l) rs l ⊆+ base.
Proof.
  induction rs as [|r rs IH]; intros l base H; cbn; [by rewrite app_nil_r in H|].
  apply IH, remove_first_submseteq. by rewrite <- Permutation_middle in H.
Qed.

Lemma foreign_remove_first cfg l : foreign (remove_first (probeRule cfg) l) = foreign l.
Proof.
  induction l as [|r l IH]; cbn [remove_first]; [done|]. unfold foreign in *. case_decide as Hr.
  - subst r. rewrite filter_cons_False; [done|]. intros [Hn _]. by apply Hn.
  - rewrite !filter_cons. by rewrite IH.
Qed.

Lemma foreign_remove_probes cfg us : ∀ l, foreign (fold_left (λ l r, remove_first r l) (probes cfg us) l) = foreign l.
Proof.
  induction us as [|u us IH]; intros l; [done|]. change (u :: us) with ([u] ++ us). rewrite probes_app, fold_left_app, IH.
  destruct u; cbn; try done. apply foreign_remove_first.
Qed.

Section undo.
Context {W : Type} `{!Shell W, !ShellLaws W, !HostIO W, !HostIOLaws W, !Working W} (cfg : GConfig).

Lemma healthy_run_ip args w e w' : healthy w → ip args w = (e, w') → ip_parse args ≠ IpOther →
  healthy w' ∧ ((ip_can (ip_parse args) (hview w) ∧ e = None ∧ hview w' = ip_effect (ip_parse args) (hview w))
                ∨ (¬ ip_can (ip_parse args) (hview w) ∧ is_Some e ∧ hview w' = hview w)).
Proof.
  intros Hh H Ho. unfold ip, run in H. destruct (sh "ip" args w) as [[out x] w1] eqn:E.
  destruct (healthy_ip _ _ _ _ _ Hh E) as [Hh' Hx]. destruct (exit_ok x) eqn:Ex; simplify_eq; (split; [done|]).
  - left. destruct (ip_ok _ _ _ _ _ E Ho Ex). done.
  - right. split_and!; [|done|by eapply ip_failed]. intros Hc. specialize (Hx Ho Hc). congruence.
Qed.

Lemma remove_pref_length n l : Exists (has_pref n) l → S (length (remove_pref n l)) = length l.
Proof.
  induction l as [|r l IH]; [by inversion 1|]. intros H. cbn. case_decide as Hr; [done|]. cbn. f_equal. apply IH.
  by inversion H.
Qed.

Lemma filter_remove_pref n l : filter (λ r, ¬ has_pref n r) (remove_pref n l) = filter (λ r, ¬ has_pref n r) l.
Proof.
  induction l as [|r l IH]; cbn [remove_pref]; [done|]. case_decide as Hr.
  - rewrite filter_cons_False; [done|]. unfold has_pref. tauto.
  - rewrite !filter_cons. by rewrite IH.
Qed.

(** [clearRules] deletes every rule at the preference. *)
Lemma clear_loop_clears pref : ∀ fuel w, healthy w → (length (hv_rules (hview w)) < fuel)%nat →
  healthy (clear_loop fuel pref w) ∧ hv_ipt (hview (clear_loop fuel pref w)) = hv_ipt (hview w) ∧
  hv_rules (hview (clear_loop fuel pref w)) = filter (λ r, ¬ has_pref (Itoa pref) r) (hv_rules (hview w)).
Proof.
  induction fuel as [|fuel IH]; intros w Hh Hlen; cbn [clear_loop]; [lia|].
  destruct (ip _ w) as [e w1] eqn:E. apply healthy_run_ip in E as (Hh1 & Hc); [|done|done].
  cbn [ip_parse String.eqb Ascii.eqb Bool.eqb ip_can ip_effect] in Hc. destruct Hc as [(Hc & -> & E)|(Hc & [x ->] & E)].
  - pose proof (remove_pref_length _ _ Hc). destruct (IH w1 Hh1) as (? & Hi & Hr); [rewrite E; cbn; lia|].
    split_and!; [done|by rewrite Hi, E|]. rewrite Hr, E. apply filter_remove_pref.
  - split_and!; [done|by rewrite E|]. rewrite E. symmetry. apply list_filter_all. intros r Hr Hp. apply Hc, Exists_exists. eauto.
Qed.

(** What undoing does to the host: no more, no less. *)
Definition undone (us : list gundo) (w w' : W) : Prop :=
  healthy w' ∧ hv_ipt (hview w') = fold_left (λ l r, remove_first r l) (ipts us) (hv_ipt (hview w))
  ∧ hv_rules (hview w') = fold_left (λ l r, remove_first r l) (probes cfg us) (hv_rules (hview w)).

Lemma undone_trans us us' w w1 w2 : undone us w w1 → undone us' w1 w2 → undone (us ++ us') w w2.
Proof.
  intros (_ & I1 & R1) (Hh & I2 & R2). split; [done|]. rewrite ipts_app, probes_app, !fold_left_app. split; congruence.
Qed.

Lemma undone_quiet w w' : healthy w' → same_rules w w' → undone [] w w'.
Proof. intros Hh [? ?]. by split. Qed.

Lemma flush_undone t w : healthy w → undone [] w (flushTable t w).2.
Proof.
  intros Hh. destruct (flushTable t w) as [e w'] eqn:E. cbn. apply flushTable_quiet in E as Hq. apply undone_quiet; [|done].
  apply ipIgnore_ip in E as (e' & E & _). by eapply healthy_run_ip.
Qed.

Lemma del_probe_undone w : healthy w → undone [UnProbeRule] w (delRule (probeRule cfg) w).2.
Proof.
  intros Hh. destruct (delRule (probeRule cfg) w) as [e w'] eqn:E. cbn. apply ipIgnore_ip in E as (e' & E & _).
  apply healthy_run_ip in E as (Hh' & Hc); [|done|done].
  destruct Hc as [(_ & _ & E)|(Hc & _ & E)]; split; try done; rewrite E; (split; [done|]); cbn; [done|].
  by rewrite remove_first_absent.
Qed.

Lemma deleteIptables_undone rule w : ipt_shape rule → healthy w → undone [UnIpt rule] w (deleteIptables rule w).2.
Proof.
  intros Hs Hh. pose proof (ipt_shape_parse rule "-D" Hs ltac:(set_solver)) as Hp. unfold deleteIptables, run.
  destruct (sh "iptables" _ w) as [[out x] w1] eqn:E. destruct (healthy_iptables _ _ _ _ _ _ _ Hh E Hp) as [Hh' Hx].
  destruct (exit_ok x) eqn:Ex; cbn; (split; [done|]).
  - destruct (iptables_ok _ _ _ _ _ _ _ E Hp Ex) as [_ ->]. done.
  - rewrite (iptables_failed _ _ _ _ _ _ _ E Hp Ex). split; [|done]. cbn. rewrite remove_first_absent; [done|].
    intros Hin. by assert (false = true) by (apply Hx, Hin).
Qed.

Lemma run_undo_undone u w : Forall ipt_shape (ipts [u]) → healthy w → undone [u] w (run_undo cfg u w).
Proof.
  intros Hs Hh. destruct u; cbn [run_undo].
  - apply (undone_quiet w); [by apply healthy_io|apply CloseReal_rules].
  - pose proof (del_probe_undone w Hh) as H. eapply (undone_trans [UnProbeRule] []); [done|]. apply flush_undone, H.
  - apply deleteIptables_undone; [by inversion Hs|done].
  - apply (undone_quiet w); [by apply healthy_io|apply DelXfrm_rules].
  - apply (undone_quiet w); [by apply (healthy_io _ "")|apply CloseUDP_rules].
Qed.

Lemma run_undos us : Forall ipt_shape (ipts us) → ∀ w, healthy w → undone us w (fold_left (λ w u, run_undo cfg u w) us w).
Proof.
  induction us as [|u us IH]; intros Hs w Hh; [by split|]. change (u :: us) with ([u] ++ us) in Hs |- *.
  rewrite ipts_app, Forall_app in Hs. destruct Hs as [Hu Hs]. cbn [fold_left app].
  pose proof (run_undo_undone u w Hu Hh) as H. eapply (undone_trans [u] us); [done|]. apply IH; [done|apply H].
Qed.

Lemma fold_undone {A} (f : W → A → W) l : (∀ a w, healthy w → undone [] w (f w a)) → ∀ w, healthy w → undone [] w (fold_left f l w).
Proof.
  intros Hf. induction l as [|a l IH]; intros w Hh; cbn; [by apply undone_quiet|].
  eapply (undone_trans [] []); [by apply Hf|]. apply IH, Hf, Hh.
Qed.

(** Unloading works on a working host and leaves rules alone. *)
Definition unloads (unload : W → W) : Prop := ∀ w, healthy w → healthy (unload w) ∧ same_rules w (unload w).

Lemma teardown_undone backbones tables unload us w : Forall ipt_shape (ipts us) → unloads unload → healthy w →
  Z.of_nat (length (hv_rules (hview w))) < 100000 →
  ∃ w1, undone us w1 (teardown cfg backbones tables unload us w) ∧ hv_ipt (hview w1) = hv_ipt (hview w) ∧
    hv_rules (hview w1) = filter (λ r, ¬ has_pref "1000" r) (hv_rules (hview w)).
Proof.
  intros Hs Hu Hh Hlen. unfold teardown.
  set (a := fold_left _ backbones w). set (b := fold_left _ tables a). set (c := if gh_IPsec cfg then unload b else b).
  assert (undone [] w c) as (Hc & Ic & Rc).
  { assert (undone [] w a) as Ha.
    { apply fold_undone; [|done]. intros d w' Hw'. apply undone_quiet; [by apply healthy_io|apply CloseReal_rules]. }
    assert (undone [] w b) as Hb.
    { eapply (undone_trans [] []); [done|]. apply fold_undone; [|apply Ha]. intros n w' Hw'. by apply flush_undone. }
    eapply (undone_trans [] []); [done|]. unfold c. destruct (gh_IPsec cfg); [|apply undone_quiet; [apply Hb|done]].
    apply undone_quiet; apply Hu, Hb. }
  destruct (clear_loop_clears fwdRulePref (Z.to_nat 100000) c) as (Hd & Id & Rd); [done|change (hv_rules (hview c) = hv_rules (hview w)) in Rc; rewrite Rc; lia|].
  exists (clearRules fwdRulePref c). split_and!; [by apply run_undos|unfold clearRules; by rewrite Id|].
  unfold clearRules. by rewrite Rd, Rc.
Qed.
End undo.

Lemma ipts_setup {W} `{!Shell W, !HostIO W} cfg l : ∀ us (w : W) e us' w', run_setup cfg l us w = (e, us', w') →
  ∀ rule, rule ∈ ipts us' → rule ∈ ipts us ∨ GEnsure rule ∈ l.
Proof.
  induction l as [|s l IH]; intros us w e us' w' H rule Hin; cbn in H; [simplify_eq; auto|].
  destruct (run_step cfg s w) as [[[e1|] u] w1] eqn:E; [simplify_eq; auto|].
  destruct (IH _ _ _ _ _ H _ Hin) as [Hu|]; [|right; by right]. rewrite ipts_app, elem_of_app in Hu. destruct Hu as [Hu|]; [|auto].
  right. destruct s; cbn in E; repeat case_match; simplify_eq; cbn in Hu; try by apply elem_of_nil in Hu.
  apply list_elem_of_singleton in Hu as ->. by left.
Qed.

Section theorem.
Context {W : Type} `{!Shell W, !ShellLaws W, !HostIO W, !HostIOLaws W, !Working W} (cfg : GConfig).

(** A gateway leaves its host's packet filter and policy rules as it found
    them, wherever its set-up stopped and whichever commands failed on the way.
    In between the gateway may have changed rules at its forwarding preference
    (and nothing else); at tear-down, deleting what is there works. None of the
    gateway's filter rules is there beforehand. *)
Lemma gateway_cleans_up (w0 w1 w2 : W) err us backbones tables unload :
  names_ok cfg → (∀ rule, GEnsure rule ∈ setup cfg → rule ∉ hv_ipt (hview w0)) →
  run_setup cfg (setup cfg) [] w0 = (err, us, w1) →
  hv_ipt (hview w2) = hv_ipt (hview w1) →
  filter (λ r, ¬ has_pref "1000" r) (hv_rules (hview w2)) = filter (λ r, ¬ has_pref "1000" r) (hv_rules (hview w1)) →
  unloads unload → healthy w2 → Z.of_nat (length (hv_rules (hview w2))) < 100000 →
  let w3 := teardown cfg backbones tables unload us w2 in
  hv_ipt (hview w3) = hv_ipt (hview w0) ∧ hv_rules (hview w3) ⊆+ hv_rules (hview w0)
  ∧ foreign (hv_rules (hview w3)) = foreign (hv_rules (hview w0)).
Proof.
  intros Hn Hnew Hs Ei Er Hu Hh Hlen w3.
  assert (grown cfg us w0 w1) as [(ins & E1 & H1) R1 F1].
  { eapply run_setup_grown; [by apply setup_ok| |done]. by apply grown_quiet. }
  assert (∀ rule, rule ∈ ipts us → GEnsure rule ∈ setup cfg) as Hall.
  { intros rule Hin. by destruct (ipts_setup _ _ _ _ _ _ _ Hs rule Hin) as [?%elem_of_nil|]. }
  destruct (teardown_undone cfg backbones tables unload us w2) as (w & (_ & I & R) & Iw & Rw); try done.
  { apply Forall_forall. intros rule Hin. eapply setup_shape; eauto. }
  fold w3 in I, R. rewrite I, R, Iw, Rw, Ei, Er, E1.
  split_and!.
  - apply remove_all; [done|]. intros rule Hin. by apply Hnew, Hall.
  - apply remove_each_submseteq. rewrite <- R1. apply sublist_submseteq, sublist_filter.
  - rewrite foreign_remove_probes, <- F1. unfold foreign. apply list_filter_filter_l. tauto.
Qed.
End theorem.

(** ** On a host *)

Module GatewayHostDemo.
Import HostDemo.

#[export] Instance sim_io : HostIO sim := {
  NewReal _ w := (true, w); CloseReal _ w := w; AddXfrm _ _ w := (true, w); DelXfrm _ w := w;
  ListenUDP _ _ w := (true, w); CloseUDP w := w;
}.
#[export] Instance sim_io_laws : HostIOLaws sim.
Proof. split; intros; cbn in *; simplify_eq; by split. Qed.

#[export] Instance sim_working : Working sim.
Proof.
  refine {| healthy w := sm_faults w = [] |}.
  - intros args w out x w' Hh H. cbn in H. unfold sim_sh in H. rewrite Hh in H. cbn [String.eqb Ascii.eqb Bool.eqb] in H.
    case_bool_decide; by simplify_eq.
  - intros args op r w out x w' Hh H Hp. cbn in H. unfold sim_sh in H. rewrite Hh, Hp in H. cbn [String.eqb Ascii.eqb Bool.eqb] in H.
    case_bool_decide; by simplify_eq.
  - done.
Defined.

Definition cfg : GConfig := mkGConfig (Z.lor RoleAccess RoleEgress) "eth0" 1380 true (Addr4 0x0a400001) (mkPrefix (Addr4 0x0a400000) 16) 7100.

(** A firewall's rules, a policy rule of the administrator, and one a crashed
    gateway left. *)
Definition firewall : list (list string) := [["%s"; "INPUT"; "-j"; "DROP"]].
Definition old : list (list string) := [["from"; "10.0.0.0/8"; "lookup"; "7"; "pref"; "50"]; ["from"; "10.64.0.9/32"; "lookup"; "1003"; "pref"; "1000"]].
Definition host (faults : list bool) : sim := mkSim (mkView ∅ old firewall) "" faults.
Definition ran (faults : list bool) := run_setup cfg (setup cfg) [] (host faults).

(** Set-up ends with everything in place; *)
Example set_up : (ran []).1.1 = None ∧ length (hv_ipt (sm_view (ran []).2)) = 11%nat
  ∧ hv_rules (sm_view (ran []).2) = [["from"; "10.0.0.0/8"; "lookup"; "7"; "pref"; "50"]; probeRule cfg].
Proof. vm_compute. by split_and!. Qed.

(** or it fails halfway through the filter rules. *)
Definition half : list bool := replicate 13 false ++ [true; true].
Definition calm (w : sim) : sim := mkSim (sm_view w) (sm_get w) [].
Example half_set_up : is_Some (ran half).1.1 ∧ hv_ipt (hview (teardown cfg ["egb1"] [1] id (ran half).1.2 (calm (ran half).2))) = firewall.
Proof. split; [eexists|]; vm_compute; reflexivity. Qed.

(** *** A rule that was there is taken away

    The filter rule exists before the gateway starts; the gateway does not add
    it, and deletes it all the same when it stops. *)
Definition kept_rule : list string := ["%s"; "FORWARD"; "-i"; clientDevice; "-j"; "ACCEPT"].
Definition with_rule : sim := mkSim (mkView ∅ [] [kept_rule]) "" [].
Lemma teardown_deletes_others_rule :
  match run_setup cfg (setup cfg) [] with_rule with
  | (e, us, w) => e = None ∧ hv_ipt (hview (teardown cfg [] [] id us w)) = []
  end.
Proof. vm_compute. by split. Qed.

End GatewayHostDemo.
