(* ===== verification/Keys.v ===== *)
(** * Keys: internal/tunnel/keys.go

    Hexadecimal and base64 are those of Go's standard library; X25519 and the
    file system are the class [KeyHost]. *)

From S2P Require Import Prelude GoStrings Api IpsecConfig.

Definition KeySize : nat := 32.
Definition Key := bytes.
Definition key_ok (k : Key) : Prop := length k = KeySize ∧ wf_bytes k.

Record KeyPair := mkKeyPair { Private : Key; Public : Key }.

(** ** encoding/hex and encoding/base64 *)

Definition nibble_char (d : Z) : Ascii.ascii := if d <? 10 then digit_char d else Ascii.ascii_of_nat (87 + Z.to_nat d).
Definition char_nibble (c : Ascii.ascii) : option Z :=
  let n := Z.of_nat (Ascii.nat_of_ascii c) in
  if (48 <=? n) && (n <=? 57) then Some (n - 48)
  else if (97 <=? n) && (n <=? 102) then Some (n - 87)
  else if (65 <=? n) && (n <=? 70) then Some (n - 55) else None.
Definition hex_encode (b : bytes) : list Ascii.ascii := b ≫= λ x, [nibble_char (x / 16); nibble_char (x mod 16)].
Fixpoint hex_decode (l : list Ascii.ascii) : option bytes :=
  match l with
  | [] => Some []
  | a :: b :: l =>
      match char_nibble a, char_nibble b, hex_decode l with Some x, Some y, Some r => Some (x * 16 + y :: r) | _, _, _ => None end
  | _ => None
  end.

Definition enc64 (d : Z) : Ascii.ascii :=
  Ascii.ascii_of_nat (Z.to_nat (
    if d <? 26 then 65 + d else if d <? 52 then 71 + d else if d <? 62 then d - 4 else if d =? 62 then 43 else 47)).
Definition dec64 (c : Ascii.ascii) : option Z :=
  let n := Z.of_nat (Ascii.nat_of_ascii c) in
  if (65 <=? n) && (n <=? 90) then Some (n - 65)
  else if (97 <=? n) && (n <=? 122) then Some (n - 71)
  else if (48 <=? n) && (n <=? 57) then Some (n + 4)
  else if n =? 43 then Some 62 else if n =? 47 then Some 63 else None.
Definition pad : Ascii.ascii := Ascii.ascii_of_nat 61.

Fixpoint b64_encode (b : bytes) : list Ascii.ascii :=
  match b with
  | x :: y :: z :: b =>
      let v := x * 65536 + y * 256 + z in
      [enc64 (v / 262144); enc64 (v / 4096 mod 64); enc64 (v / 64 mod 64); enc64 (v mod 64)] ++ b64_encode b
  | [x; y] => let v := x * 65536 + y * 256 in [enc64 (v / 262144); enc64 (v / 4096 mod 64); enc64 (v / 64 mod 64); pad]
  | [x] => let v := x * 65536 in [enc64 (v / 262144); enc64 (v / 4096 mod 64); pad; pad]
  | [] => []
  end.

(** Four characters at a time; padding only in the last four. *)
Fixpoint b64_decode (l : list Ascii.ascii) : option bytes :=
  match l with
  | [] => Some []
  | c0 :: c1 :: c2 :: c3 :: rest =>
      match dec64 c0, dec64 c1 with
      | Some x0, Some x1 =>
          let v := x0 * 262144 + x1 * 4096 in
          if Ascii.eqb c2 pad then
            if Ascii.eqb c3 pad && bool_decide (rest = []) then Some [v / 65536] else None
          else match dec64 c2 with
               | None => None
               | Some x2 =>
                   let v := v + x2 * 64 in
                   if Ascii.eqb c3 pad then
                     if bool_decide (rest = []) then Some [v / 65536; v / 256 mod 256] else None
                   else match dec64 c3, b64_decode rest with
                        | Some x3, Some r => let v := v + x3 in Some (v / 65536 :: v / 256 mod 256 :: v mod 256 :: r)
                        | _, _ => None
                        end
               end
      | _, _ => None
      end
  | _ => None
  end.

(** Line breaks are skipped. *)
Definition base64_DecodeString (s : string) : option bytes :=
  b64_decode (filter (λ c, line_break c = false) (String.list_ascii_of_string s)).

(** ** keys.go *)

Definition clamp (k : Key) : Key :=
  let k := alter (λ b, Z.land b 248) 0%nat k in
  let k := alter (λ b, Z.land b 127) 31%nat k in
  alter (λ b, Z.lor b 64) 31%nat k.

Definition Hex (k : Key) : string := String.string_of_list_ascii (hex_encode k).
Definition sized (msg : string) (b : option bytes) : res error Key :=
  match b with
  | None => Err (ErrText msg)
  | Some b => if (length b =? KeySize)%nat then Ok b else Err (ErrText msg)
  end.
Definition DecodeHex (s : string) : res error Key := sized "tunnel: decode hex key" (hex_decode (String.list_ascii_of_string s)).
Definition Base64 (k : Key) : string := String.string_of_list_ascii (b64_encode k).
Definition DecodeBase64 (s : string) : res error Key := sized "tunnel: decode base64 key" (base64_DecodeString s).

Inductive read_error := NotExist | ReadFailed (why : string).

(** [ecdh_Generate] reads the system's randomness; [ecdh_Public] makes a
    private key of bytes and takes its public key. *)
Class KeyHost (W : Type) := {
  ecdh_Generate : W → option KeyPair * W;
  ecdh_Public : Key → option Key;
  ReadKey : string → W → res read_error string;
  WriteKey : string → string → W → bool * W;
}.

Section keys.
Context {W : Type} `{!KeyHost W}.

Definition GenerateKeyPair (w : W) : res error KeyPair * W :=
  match ecdh_Generate w with
  | (None, w) => (Err (ErrText "tunnel: generate key"), w)
  | (Some kp, w) => (Ok (mkKeyPair (clamp (Private kp)) (Public kp)), w)
  end.

Definition PublicKey (private : Key) : res error Key :=
  match ecdh_Public private with None => Err (ErrText "tunnel: derive public key") | Some pub => Ok pub end.

Definition LoadOrCreatePrivateKey (path : string) (w : W) : res error KeyPair * W :=
  if String.eqb path "" then GenerateKeyPair w else
  match ReadKey path w with
  | Ok data =>
      (match DecodeBase64 (TrimSpace data) with
       | Err e => Err (ErrWrap ("tunnel: parse private key at " +:+ path) e)
       | Ok priv => match PublicKey priv with Err e => Err e | Ok pub => Ok (mkKeyPair priv pub) end
       end, w)
  | Err (ReadFailed why) => (Err (ErrWrap ("tunnel: read private key at " +:+ path) (ErrText why)), w)
  | Err NotExist =>
      match GenerateKeyPair w with
      | (Err e, w) => (Err e, w)
      | (Ok kp, w) =>
          let '(ok, w) := WriteKey path (Base64 (Private kp)) w in
          (if (ok : bool) then Ok kp else Err (ErrText ("tunnel: save private key to " +:+ path)), w)
      end
  end.
End keys.

(** X25519 keys have 32 bytes; the public key does not depend on the bits that
    clamping sets (RFC 7748, 5); a file that was written is read back. *)
Class KeyHostLaws (W : Type) `{KeyHost W} := {
  ecdh_Generate_ok : ∀ w kp w', ecdh_Generate w = (Some kp, w') → key_ok (Private kp) ∧ ecdh_Public (Private kp) = Some (Public kp);
  ecdh_Public_clamp : ∀ k, key_ok k → ecdh_Public (clamp k) = ecdh_Public k;
  ReadKey_written : ∀ path s w w', WriteKey path s w = (true, w') → ReadKey path w' = Ok s;
}.

(** ** Round trips *)

Lemma dec_enc64 d : 0 ≤ d < 64 → dec64 (enc64 d) = Some d ∧ Ascii.eqb (enc64 d) pad = false ∧ is_space (enc64 d) = false ∧ line_break (enc64 d) = false.
Proof.
  intros Hd. assert (forallb (λ d, bool_decide (dec64 (enc64 d) = Some d) && negb (Ascii.eqb (enc64 d) pad) && negb (is_space (enc64 d))
    && negb (line_break (enc64 d))) (seqZ 0 64) = true) as H by (vm_compute; reflexivity).
  rewrite forallb_forall in H. specialize (H d). rewrite !andb_true_iff, !negb_true_iff, bool_decide_eq_true in H.
  destruct H as [[[? ?] ?] ?]; [apply list_elem_of_In, elem_of_seqZ; lia|done].
Qed.

Lemma dec_enc d : 0 ≤ d < 64 → dec64 (enc64 d) = Some d.
Proof. apply dec_enc64. Qed.
Lemma enc_pad d : 0 ≤ d < 64 → Ascii.eqb (enc64 d) pad = false.
Proof. apply dec_enc64. Qed.

Lemma nibble_char_nibble d : 0 ≤ d < 16 → char_nibble (nibble_char d) = Some d.
Proof.
  intros Hd. assert (forallb (λ d, bool_decide (char_nibble (nibble_char d) = Some d)) (seqZ 0 16) = true) as H by (vm_compute; reflexivity).
  rewrite forallb_forall in H. specialize (H d). rewrite bool_decide_eq_true in H. apply H, list_elem_of_In, elem_of_seqZ. lia.
Qed.

Ltac divs := Z.to_euclidean_division_equations; lia.

(** Induction in steps of three. *)
Lemma bytes_ind3 (P : bytes → Prop) :
  P [] → (∀ x, P [x]) → (∀ x y, P [x; y]) → (∀ x y z b, P b → P (x :: y :: z :: b)) → ∀ b, P b.
Proof.
  intros H0 H1 H2 H3. cut (∀ n b, (length b ≤ n)%nat → P b); [intros H b; by eapply H|].
  induction n as [|n IH]; intros b Hb; [by destruct b; [|cbn in Hb; lia]|].
  destruct b as [|x [|y [|z b]]]; auto. apply H3, IH. cbn in Hb. lia.
Qed.

Lemma b64_roundtrip b : wf_bytes b → b64_decode (b64_encode b) = Some b.
Proof.
  unfold wf_bytes. induction b as [|x|x y|x y z b IH] using bytes_ind3; intros Hb; [done|..]; rewrite ?Forall_cons in Hb;
    unfold fits in Hb; cbn [b64_encode app b64_decode].
  - rewrite !dec_enc by divs. cbn. do 2 f_equal. divs.
  - rewrite !dec_enc, enc_pad by divs. cbn. repeat f_equal; divs.
  - destruct Hb as (Hx & Hy & Hz & Hb). rewrite !dec_enc, !enc_pad, (IH Hb) by divs.
    repeat f_equal; divs.
Qed.

Lemma hex_roundtrip b : wf_bytes b → hex_decode (hex_encode b) = Some b.
Proof.
  induction 1 as [|x b Hx _ IH]; [done|]. unfold fits in Hx. unfold hex_encode in *. rewrite bind_cons. cbn [app hex_decode].
  rewrite !nibble_char_nibble by divs. rewrite IH. do 2 f_equal. divs.
Qed.

Lemma b64_plain b : wf_bytes b → Forall (λ c, is_space c = false ∧ line_break c = false) (b64_encode b).
Proof.
  assert (∀ d, 0 ≤ d < 64 → is_space (enc64 d) = false ∧ line_break (enc64 d) = false) as He by (intros d Hd; by apply dec_enc64).
  unfold wf_bytes. induction b as [|x|x y|x y z b IH] using bytes_ind3; intros Hb; [constructor|..]; rewrite ?Forall_cons in Hb;
    unfold fits in Hb; cbn [b64_encode app].
  - repeat constructor; try (apply He; divs); done.
  - repeat constructor; try (apply He; divs); done.
  - destruct Hb as (Hx & Hy & Hz & Hb). repeat (apply Forall_cons; split; [apply He; divs|]). by apply IH.
Qed.

Lemma drop_spaces_id l : Forall (λ c, is_space c = false) l → drop_spaces l = l.
Proof. destruct l as [|c l]; [done|]. intros [Hc _]%Forall_cons. cbn. by rewrite Hc. Qed.

Lemma TrimSpace_id l : Forall (λ c, is_space c = false) l → TrimSpace (String.string_of_list_ascii l) = String.string_of_list_ascii l.
Proof.
  intros H. unfold TrimSpace. rewrite String.list_ascii_of_string_of_list_ascii, (drop_spaces_id l H), drop_spaces_id, rev_involutive; [done|].
  by apply Forall_rev.
Qed.

Lemma DecodeBase64_Base64 k : key_ok k → DecodeBase64 (Base64 k) = Ok k ∧ TrimSpace (Base64 k) = Base64 k.
Proof.
  intros [Hlen Hk]. pose proof (b64_plain k Hk) as Hp. split.
  - unfold DecodeBase64, base64_DecodeString, Base64. rewrite String.list_ascii_of_string_of_list_ascii.
    rewrite list_filter_all, b64_roundtrip by (done || (intros c Hc; rewrite Forall_forall in Hp; by apply Hp)).
    cbn. by rewrite Hlen.
  - apply TrimSpace_id. eapply Forall_impl; [exact Hp|]. by intros c [].
Qed.

Lemma DecodeHex_Hex k : key_ok k → DecodeHex (Hex k) = Ok k.
Proof.
  intros [Hlen Hk]. unfold DecodeHex, Hex. rewrite String.list_ascii_of_string_of_list_ascii, hex_roundtrip by done. cbn. by rewrite Hlen.
Qed.

Lemma Forall_alter' {A} (P : A → Prop) f i l : Forall P l → (∀ x, P x → P (f x)) → Forall P (alter f i l).
Proof.
  intros H Hf. revert i. induction H as [|x l Hx Hl IH]; intros [|i]; cbn; constructor; auto.
Qed.

Lemma land_u8 x m : 0 ≤ m → is_u8 x → is_u8 (Z.land x m).
Proof.
  unfold fits. intros Hm [H1 H2]. split; [by apply Z.land_nonneg; left|].
  destruct (Z.eq_dec x 0) as [->|]; [by rewrite Z.land_0_l|].
  destruct (Z.eq_dec (Z.land x m) 0) as [->|Hz]; [done|].
  apply Z.log2_lt_cancel. rewrite Z.log2_pow2 by lia. eapply Z.le_lt_trans; [by apply Z.log2_land|].
  pose proof (Z.log2_lt_pow2 x 8 ltac:(lia)). lia.
Qed.

Lemma clamp_ok k : key_ok k → key_ok (clamp k).
Proof.
  intros [Hlen Hk]. unfold clamp, Key in *. split; [by rewrite !length_alter|].
  apply Forall_alter'; [apply Forall_alter'; [apply Forall_alter'; [done|]|]|]; try (intros x; by apply land_u8).
  unfold fits. intros x Hx. split; [apply Z.lor_nonneg; lia|].
  destruct (Z.eq_dec x 0) as [->|]; [done|]. apply Z.log2_lt_cancel. rewrite Z.log2_pow2, Z.log2_lor by lia.
  pose proof (proj1 (Z.log2_lt_pow2 x 8 ltac:(lia)) ltac:(lia)). cbn. lia.
Qed.

(** What DecodeBase64 accepts: 43 digits and a padding character, line breaks
    apart; the registration check of the controller tests just that. *)
Lemma dec64_digit c : b64_digit c = bool_decide (is_Some (dec64 c)).
Proof. destruct c as [[] [] [] [] [] [] [] []]; vm_compute; reflexivity. Qed.

Lemma list_ind4 {A} (P : list A → Prop) :
  P [] → (∀ a, P [a]) → (∀ a b, P [a; b]) → (∀ a b c, P [a; b; c]) → (∀ a b c d l, P l → P (a :: b :: c :: d :: l)) → ∀ l, P l.
Proof.
  intros H0 H1 H2 H3 H4. cut (∀ n l, (length l ≤ n)%nat → P l); [intros H l; by eapply H|].
  induction n as [|n IH]; intros l Hl; [by destruct l; [|cbn in Hl; lia]|].
  destruct l as [|a [|b [|c [|d l]]]]; auto. apply H4, IH. cbn in Hl. lia.
Qed.

Lemma dec64_pad : dec64 pad = None.
Proof. done. Qed.

(** Two bytes over a multiple of three come from one padding character. *)
Lemma b64_decode_two l : ∀ b n, b64_decode l = Some b → length b = (3 * n + 2)%nat →
  length l = (4 * n + 4)%nat ∧ Forall (λ c, is_Some (dec64 c)) (take (4 * n + 3) l) ∧ drop (4 * n + 3) l = [pad].
Proof.
  induction l as [| | | |c0 c1 c2 c3 l IH] using list_ind4; intros bs n H Hlen; cbn [b64_decode] in H; try done.
  { simplify_eq. cbn in Hlen. lia. }
  destruct (dec64 c0) eqn:E0; [|done]. destruct (dec64 c1) eqn:E1; [|done].
  destruct (Ascii.eqb_spec c2 pad).
  { destruct (_ && _); simplify_eq. cbn in Hlen. lia. }
  destruct (dec64 c2) eqn:E2; [|done]. destruct (Ascii.eqb_spec c3 pad) as [->|].
  { case_bool_decide; simplify_eq. cbn in Hlen. assert (n = 0%nat) as -> by lia. cbn. split_and!; [done| |done]. repeat constructor; eauto. }
  destruct (dec64 c3) eqn:E3; [|done]. destruct (b64_decode l) as [r|] eqn:E; [|done]. simplify_eq. cbn [length] in Hlen.
  destruct n as [|n]; [lia|]. destruct (IH r n) as (Hl & Ht & Hd); [done|lia|].
  replace (4 * S n + 3)%nat with (S (S (S (S (4 * n + 3))))) by lia. cbn [take drop length]. split_and!; [lia| |done].
  repeat (apply Forall_cons; split; [by eauto|]). done.
Qed.

Lemma b64_decode_padded n : ∀ l, length l = (4 * n + 3)%nat → Forall (λ c, is_Some (dec64 c)) l →
  ∃ b, b64_decode (l ++ [pad]) = Some b ∧ length b = (3 * n + 2)%nat.
Proof.
  assert (∀ c x, dec64 c = Some x → Ascii.eqb c pad = false) as Hne.
  { intros c x Hc. destruct (Ascii.eqb_spec c pad) as [->|]; [by rewrite dec64_pad in Hc|done]. }
  induction n as [|n IH]; intros l Hlen Hl.
  - destruct l as [|c0 [|c1 [|c2 [|]]]]; cbn in Hlen; try lia. rewrite !Forall_cons in Hl. destruct Hl as ([x0 E0] & [x1 E1] & [x2 E2] & _).
    cbn [app b64_decode]. rewrite E0, E1, E2, (Hne _ _ E2). cbn. eauto.
  - destruct l as [|c0 [|c1 [|c2 [|c3 l]]]]; cbn [length] in Hlen; try lia. rewrite !Forall_cons in Hl.
    destruct Hl as ([x0 E0] & [x1 E1] & [x2 E2] & [x3 E3] & Hl). destruct (IH l) as (r & Er & Hr); [lia|done|].
    cbn [app b64_decode]. rewrite E0, E1, E2, E3, (Hne _ _ E2), (Hne _ _ E3), Er. eexists. split; [done|]. cbn. lia.
Qed.

Lemma forallb_digit l : forallb b64_digit l = true ↔ Forall (λ c, is_Some (dec64 c)) l.
Proof.
  rewrite forallb_forall, Forall_forall. setoid_rewrite list_elem_of_In. setoid_rewrite dec64_digit. by setoid_rewrite bool_decide_eq_true.
Qed.

Lemma DecodeBase64_iff s : (∃ k, DecodeBase64 s = Ok k) ↔ base64_32 s = true.
Proof.
  unfold DecodeBase64, base64_DecodeString, base64_32. set (l := filter _ _). rewrite !andb_true_iff, !bool_decide_eq_true, forallb_digit.
  split.
  - intros [k H]. unfold sized in H. destruct (b64_decode l) as [b|] eqn:E; [|done]. destruct (Nat.eqb_spec (length b) KeySize) as [Hb|]; [|done].
    by destruct (b64_decode_two l b 10 E Hb) as (? & ? & ?).
  - intros [[Hl Hd] Hp]. destruct (b64_decode_padded 10 (take 43 l)) as (b & Hb & Hlen); [rewrite length_take; lia|done|].
    change [Ascii.ascii_of_nat 61] with [pad] in Hp. rewrite <- Hp, take_drop in Hb. exists b. rewrite Hb. cbn. by rewrite Hlen.
Qed.

(** Whoever checks a key's text agrees on it: [DecodeBase64], with which the
    gateways and clients read each other's keys, succeeds for exactly the
    strings that pass the controller's check at registration. *)
Theorem registered_keys_decode s : (∃ k, DecodeBase64 s = Ok k) ↔ base64_32 s = true.
Proof. apply DecodeBase64_iff. Qed.

Section load.
Context {W : Type} `{!KeyHost W, !KeyHostLaws W}.

(** A node keeps its identity over restarts: once [LoadOrCreatePrivateKey]
    has returned a key pair for a file, read from it or made and saved there,
    calling it again returns the same pair and leaves everything as it is. *)
Theorem key_survives_restart path (w w' : W) kp : path ≠ "" →
  LoadOrCreatePrivateKey path w = (Ok kp, w') → LoadOrCreatePrivateKey path w' = (Ok kp, w').
Proof.
  intros Hp. unfold LoadOrCreatePrivateKey. apply String.eqb_neq in Hp. rewrite Hp.
  destruct (ReadKey path w) as [data|[|why]] eqn:Er; [|..|done].
  - intros [= H <-]. by rewrite Er, H.
  - unfold GenerateKeyPair. destruct (ecdh_Generate w) as [[g|] w1] eqn:Eg; [|done]. cbn [Private].
    destruct (WriteKey _ _ w1) as [[] w2] eqn:Ew; [|done]. intros [= <- <-].
    destruct (ecdh_Generate_ok _ _ _ Eg) as [Hk Hpub]. rewrite (ReadKey_written _ _ _ _ Ew).
    destruct (DecodeBase64_Base64 _ (clamp_ok _ Hk)) as [Hd ->]. rewrite Hd. unfold PublicKey. by rewrite ecdh_Public_clamp, Hpub.
Qed.
End load.

(** ** A host with one file *)

Module KeysDemo.

(** A made-up curve: the public key is the bytes that clamping leaves alone. *)
Definition middle (k : Key) : Key := drop 1 (take 31 k).
#[export] Instance demo_host : KeyHost (option string) := {
  ecdh_Generate w := (Some (mkKeyPair (replicate 32 255) (middle (replicate 32 255))), w);
  ecdh_Public k := Some (middle k);
  ReadKey _ w := match w with Some s => Ok s | None => Err NotExist end;
  WriteKey _ s _ := (true, Some s);
}.

#[export] Instance demo_laws : KeyHostLaws (option string).
Proof.
  split.
  - intros w kp w' [= <- <-]. split; [|done]. split; [done|]. apply (Forall_replicate is_u8 32 255). by split.
  - intros k _. cbn. f_equal. unfold middle, clamp, Key in *. rewrite !take_alter by lia. by destruct k.
  - by intros path s w w' [= <-].
Qed.

Definition first : res error KeyPair * option string := LoadOrCreatePrivateKey "key" (None : option string).
Example made : first.2 = Some "+P///////////////////////////////////////38=".
Proof. vm_compute. reflexivity. Qed.

Lemma key_survives_restart_witness :
  ∃ kp, first.1 = Ok kp ∧ LoadOrCreatePrivateKey "key" first.2 = (Ok kp, first.2).
Proof.
  eexists. split; [vm_compute; reflexivity|].
  refine (key_survives_restart "key" (None : option string) first.2 _ _ _); [done|vm_compute; reflexivity].
Defined.

End KeysDemo.
