(* ===== verification/WgPeers.v ===== *)
(** * WireGuard peers: internal/tunnel/peermanager.go, realdevice.go, device.go,
    standby.go and roles.go

    wireguard-go is the classes [WgDevice] and [WgHost]: a device that is
    configured and read as text, as its cross-platform interface documents. *)

From S2P Require Import Prelude Netip IpsecConfig IpsecRender GoStrings Keys HostNet.

(** ** peermanager.go *)

Class WgDevice (D : Type) := {
  IpcSet : string → D → option string * D;
  IpcGetOperation : D → res string string;
}.

Definition line (key value : string) : string := key +:+ "=" +:+ value +:+ String newline "".

(** [Duration.Round(time.Second)] of a positive duration. *)
Definition round_second (d : Z) : Z :=
  let r := d mod Second in
  if r + r <? Second then d - r
  else let d1 := i64 (d + Second - r) in if d <? d1 then d1 else 2 ^ 63 - 1.

Definition keepalive_seconds (d : Z) : Z := let s := Z.quot (round_second d) Second in if s <? 1 then 1 else s.

(** The text AddPeer and RemovePeer send. *)
Definition add_text (publicKey : Key) (allowedIPs : list Prefix) (endpoint : string) (keepaliveInterval : Z) : string :=
  line "public_key" (Hex publicKey)
  +:+ (if String.eqb endpoint "" then "" else line "endpoint" endpoint)
  +:+ Join "" ((λ ip, line "allowed_ip" (pf_String ip)) <$> allowedIPs)
  +:+ (if 0 <? keepaliveInterval then line "persistent_keepalive_interval" (Itoa (keepalive_seconds keepaliveInterval)) else "").
Definition remove_text (publicKey : Key) : string := line "public_key" (Hex publicKey) +:+ line "remove" "true".

Definition eq_sign : Ascii.ascii := Ascii.ascii_of_nat 61.

Section peers.
Context {D : Type} `{!WgDevice D}.

Definition wg_AddPeer (publicKey : Key) (allowedIPs : list Prefix) (endpoint : string) (keepaliveInterval : Z) (d : D) : option error * D :=
  match IpcSet (add_text publicKey allowedIPs endpoint keepaliveInterval) d with
  | (Some e, d) => (Some (ErrWrap "tunnel: add peer" (ErrText e)), d)
  | (None, d) => (None, d)
  end.
Definition wg_RemovePeer (publicKey : Key) (d : D) : option error * D :=
  match IpcSet (remove_text publicKey) d with
  | (Some e, d) => (Some (ErrWrap "tunnel: remove peer" (ErrText e)), d)
  | (None, d) => (None, d)
  end.

Definition uapiConfig (d : D) : res error string :=
  match IpcGetOperation d with Err e => Err (ErrWrap "tunnel: read device config" (ErrText e)) | Ok s => Ok s end.

(** The lines of the configuration that have an equals sign. *)
Definition config_lines (cfg : string) : list (string * string) := omap (Cut eq_sign) (Split newline cfg).

Fixpoint port_loop (lines : list (string * string)) : res error Z :=
  match lines with
  | [] => Err (ErrText "tunnel: listen_port not found in device config")
  | (key, value) :: lines =>
      if negb (String.eqb key "listen_port") then port_loop lines
      else match ParseUint 16 value with None => Err (ErrText "tunnel: parse listen_port") | Some port => Ok port end
  end.
Definition ListenPort (d : D) : res error Z := try cfg := uapiConfig d in port_loop (config_lines cfg).

(** The loop of LastHandshake and of PeerStats: two numbers of one peer. *)
Fixpoint peer_loop (key1 key2 : string) (parse : string → option Z) (want : string) (inPeer : bool) (n1 n2 : Z)
    (lines : list (string * string)) : res error (Z * Z) :=
  match lines with
  | [] => Ok (n1, n2)
  | (key, value) :: lines =>
      if String.eqb key "public_key" then peer_loop key1 key2 parse want (String.eqb value want) n1 n2 lines
      else if String.eqb key key1 && inPeer then
        match parse value with
        | None => Err (ErrText ("tunnel: parse " +:+ key1))
        | Some n1 => peer_loop key1 key2 parse want inPeer n1 n2 lines
        end
      else if String.eqb key key2 && inPeer then
        match parse value with
        | None => Err (ErrText ("tunnel: parse " +:+ key2))
        | Some n2 => peer_loop key1 key2 parse want inPeer n1 n2 lines
        end
      else peer_loop key1 key2 parse want inPeer n1 n2 lines
  end.

(** [None] is the zero time; otherwise seconds and nanoseconds for time.Unix. *)
Definition LastHandshake (publicKey : Key) (d : D) : res error (option (Z * Z)) :=
  try cfg := uapiConfig d in
  try t := peer_loop "last_handshake_time_sec" "last_handshake_time_nsec" ParseInt (Hex publicKey) false 0 0 (config_lines cfg) in
  Ok (if (t.1 =? 0) && (t.2 =? 0) then None else Some t).

Definition PeerStats (publicKey : Key) (d : D) : res error (Z * Z) :=
  try cfg := uapiConfig d in peer_loop "tx_bytes" "rx_bytes" (ParseUint 64) (Hex publicKey) false 0 0 (config_lines cfg).
End peers.

(** ** realdevice.go and device.go *)

Definition DefaultMTU : Z := 1420.

Record DevConfig := mkDevConfig { dc_PrivateKey : Key; dc_ListenPort : Z; dc_InterfaceName : string; dc_MTU : Z }.

(** Interfaces and devices of the host; [real] tells an interface of the
    operating system from a userspace one. *)
Class WgHost (W : Type) := {
  CreateTUN : bool → string → Z → W → res string string * W;
  TunName : string → W → res string string;
  CloseTUN : string → W → W;
  NewDevice : string → W → W;
  DevIpcSet : string → string → W → option string * W;
  DevUp : string → W → option string * W;
  DevClose : string → W → W;
}.

Definition classifyTUNError (name : string) (denied : bool) (err : string) : error :=
  if denied || substr err "operation not permitted" || substr err "permission denied"
  then ErrWrap ("tunnel: create TUN " +:+ name) (ErrJoin [ErrText "tunnel: insufficient privilege to create a TUN device"; ErrText err])
  else ErrWrap ("tunnel: create TUN " +:+ name) (ErrText err).

Section device.
Context {W : Type} `{!WgHost W}.

Definition device_text (cfg : DevConfig) : string :=
  line "private_key" (Hex (dc_PrivateKey cfg)) +:+ line "listen_port" (Itoa (dc_ListenPort cfg)).
Definition mtu_or_default (cfg : DevConfig) : Z := if dc_MTU cfg =? 0 then DefaultMTU else dc_MTU cfg.

(** From the interface on: the device, its configuration, and up. *)
Definition configure (tun : string) (name : string) (cfg : DevConfig) (w : W) : res error string * W :=
  let w := NewDevice tun w in
  match DevIpcSet tun (device_text cfg) w with
  | (Some e, w) => (Err (ErrWrap "tunnel: configure device" (ErrText e)), DevClose tun w)
  | (None, w) =>
      match DevUp tun w with
      | (Some e, w) => (Err (ErrWrap "tunnel: bring device up" (ErrText e)), DevClose tun w)
      | (None, w) => (Ok name, w)
      end
  end.

(** [denied]: the error is os.ErrPermission, EPERM or EACCES. *)
Definition NewReal (denied : string → bool) (cfg : DevConfig) (w : W) : res error string * W :=
  match CreateTUN true (dc_InterfaceName cfg) (mtu_or_default cfg) w with
  | (Err e, w) => (Err (classifyTUNError (dc_InterfaceName cfg) (denied e) e), w)
  | (Ok tun, w) =>
      match TunName tun w with
      | Err e => (Err (ErrWrap "tunnel: get TUN interface name" (ErrText e)), CloseTUN tun w)
      | Ok actualName => configure tun actualName cfg w
      end
  end.

Definition New (cfg : DevConfig) (w : W) : res error string * W :=
  match CreateTUN false "" (mtu_or_default cfg) w with
  | (Err e, w) => (Err (ErrWrap "tunnel: create TUN" (ErrText e)), w)
  | (Ok tun, w) => configure tun "netstack" cfg w
  end.
End device.

(** ** standby.go *)

Record StandbyCandidate := mkCandidate { sc_ID : string; sc_PublicKey : Key; sc_Endpoint : string }.

Class standbyPeerManager (W : Type) := {
  AddPeer : Key → list Prefix → string → Z → W → option error * W;
  RemovePeer : Key → W → option error * W;
  spm_LastHandshake : Key → W → res error (option (Z * Z));
}.

#[export] Instance wg_standby {D} `{!WgDevice D} : standbyPeerManager D :=
  {| AddPeer := wg_AddPeer; RemovePeer := wg_RemovePeer; spm_LastHandshake := LastHandshake |}.

Record StandbyManager := mkStandby { sm_keepalive : Z; sm_byID : gmap string StandbyCandidate }.

Definition NewStandbyManager (keepalive : Z) : res error StandbyManager :=
  if keepalive <=? 0 then Err (ErrText "tunnel: standby manager requires a positive keepalive interval") else Ok (mkStandby keepalive ∅).

Section standby.
Context {W : Type} `{!standbyPeerManager W}.

Definition sm_Add (candidate : StandbyCandidate) (m : StandbyManager) (w : W) : option error * StandbyManager * W :=
  let '(err, w) :=
    match sm_byID m !! sc_ID candidate with
    | Some existing => if bool_decide (sc_PublicKey existing ≠ sc_PublicKey candidate) then RemovePeer (sc_PublicKey existing) w else (None, w)
    | None => (None, w)
    end in
  match err with
  | Some e => (Some (ErrWrap ("tunnel: replace standby candidate " +:+ sc_ID candidate +:+ ": remove old peer") e), m, w)
  | None =>
      match AddPeer (sc_PublicKey candidate) [] (sc_Endpoint candidate) (sm_keepalive m) w with
      | (Some e, w) => (Some (ErrWrap ("tunnel: add standby candidate " +:+ sc_ID candidate) e), m, w)
      | (None, w) => (None, mkStandby (sm_keepalive m) (<[sc_ID candidate := candidate]> (sm_byID m)), w)
      end
  end.

Definition sm_Remove (id : string) (m : StandbyManager) (w : W) : option error * StandbyManager * W :=
  match sm_byID m !! id with
  | None => (None, m, w)
  | Some candidate =>
      match RemovePeer (sc_PublicKey candidate) w with
      | (Some e, w) => (Some (ErrWrap ("tunnel: remove standby candidate " +:+ id) e), m, w)
      | (None, w) => (None, mkStandby (sm_keepalive m) (delete id (sm_byID m)), w)
      end
  end.

(** [now.Sub(time.Unix(sec, nsec))], which stays within an int64. *)
Definition time_Since (now sec nsec : Z) : Z := Z.max (- 2 ^ 63) (Z.min (2 ^ 63 - 1) (now - (sec * Second + nsec))).

Definition IsWarm (now : Z) (id : string) (maxAge : Z) (m : StandbyManager) (w : W) : res error bool :=
  match sm_byID m !! id with
  | None => Err (ErrText ("tunnel: unknown standby candidate " +:+ id))
  | Some candidate =>
      match spm_LastHandshake (sc_PublicKey candidate) w with
      | Err e => Err (ErrWrap ("tunnel: standby candidate " +:+ id) e)
      | Ok None => Ok false
      | Ok (Some (sec, nsec)) => Ok (time_Since now sec nsec <=? maxAge)
      end
  end.

Definition Candidates `{!Range} (m : StandbyManager) : list string := (range (sm_byID m)).*1.
End standby.

(** ** What a device reports

    The text of a device's configuration: its own lines, then each peer's,
    which begin with its public key. *)

Record wg_peer := mkWgPeer {
  wp_key : Key; wp_sec : Z; wp_nsec : Z; wp_tx : Z; wp_rx : Z;
  wp_before : list (string * string); wp_after : list (string * string) }.
Record wg_conf := mkWgConf { wc_before : list (string * string); wc_port : Z; wc_after : list (string * string); wc_peers : list wg_peer }.

Definition peer_lines (p : wg_peer) : list (string * string) :=
  ("public_key", Hex (wp_key p)) :: wp_before p
  ++ [("last_handshake_time_sec", FormatUint (wp_sec p)); ("last_handshake_time_nsec", FormatUint (wp_nsec p));
      ("tx_bytes", FormatUint (wp_tx p)); ("rx_bytes", FormatUint (wp_rx p))]
  ++ wp_after p.
Definition conf_lines (c : wg_conf) : list (string * string) :=
  wc_before c ++ ("listen_port", FormatUint (wc_port c)) :: wc_after c ++ (wc_peers c ≫= peer_lines).
Fixpoint lines_text (ls : list (string * string)) : string :=
  match ls with [] => "" | (k, v) :: ls => line k v +:+ lines_text ls end.

(** Keys without an equals sign, nothing with a line break; the lines this
    package does not read have other names. *)
Definition reserved : list string :=
  ["public_key"; "listen_port"; "last_handshake_time_sec"; "last_handshake_time_nsec"; "tx_bytes"; "rx_bytes"].
Definition plain (kv : string * string) : Prop :=
  lacks eq_sign kv.1 = true ∧ lacks newline kv.1 = true ∧ lacks newline kv.2 = true.
Definition other (kv : string * string) : Prop := plain kv ∧ kv.1 ∉ reserved.

Record peer_ok (p : wg_peer) : Prop := {
  po_key : key_ok (wp_key p);
  po_numbers : 0 ≤ wp_sec p < 2 ^ 63 ∧ 0 ≤ wp_nsec p < 2 ^ 63 ∧ is_u64 (wp_tx p) ∧ is_u64 (wp_rx p);
  po_other : Forall other (wp_before p ++ wp_after p);
}.
Record conf_ok (c : wg_conf) : Prop := {
  co_port : is_u16 (wc_port c);
  co_other : Forall other (wc_before c ++ wc_after c);
  co_peers : Forall peer_ok (wc_peers c);
  co_keys : NoDup (wp_key <$> wc_peers c);
}.

#[local] Arguments String.append : simpl nomatch.

Lemma config_lines_text ls : Forall plain ls → config_lines (lines_text ls) = ls.
Proof.
  unfold config_lines. induction 1 as [|[k v] ls (Hk & Hn & Hv) _ IH]; [done|]. cbn [lines_text].
  assert (line k v +:+ lines_text ls = (k +:+ String eq_sign v) +:+ String newline (lines_text ls)) as ->.
  { unfold line. rewrite !append_assoc. reflexivity. }
  cbn [fst snd] in *. rewrite Split_cons. 2: { rewrite lacks_app, Hn. cbn. by rewrite Hv. }
  cbn [omap list_omap]. rewrite Cut_app by done. by f_equal.
Qed.

Lemma Hex_lacks k : wf_bytes k → lacks newline (Hex k) = true.
Proof.
  intros Hk. apply lacks_list. unfold Hex. rewrite String.list_ascii_of_string_of_list_ascii. unfold hex_encode.
  assert (∀ d, 0 ≤ d < 16 → nibble_char d ≠ newline) as Hc.
  { intros d Hd E. pose proof (nibble_char_nibble d Hd) as H. by rewrite E in H. }
  induction Hk as [|x k Hx _ IH]; [done|]. rewrite bind_cons. unfold fits in Hx. cbn [app].
  repeat (apply Forall_cons; split; [apply Hc; divs|]). done.
Qed.

Lemma Hex_inj k k' : key_ok k → key_ok k' → Hex k = Hex k' → k = k'.
Proof. intros Hk Hk' E. apply (f_equal DecodeHex) in E. rewrite !DecodeHex_Hex in E by done. congruence. Qed.

Lemma reserved_plain k v : k ∈ reserved → lacks newline v = true → plain (k, v).
Proof. intros Hk Hv. unfold reserved in Hk. repeat apply elem_of_cons in Hk as [->|Hk]; [by split_and!..|by apply elem_of_nil in Hk]. Qed.

Lemma conf_plain c : conf_ok c → Forall plain (conf_lines c).
Proof.
  assert (∀ l, Forall other l → Forall plain l) as Ho by (intros l Hl; eapply Forall_impl; [exact Hl|]; by intros kv []).
  intros [Hp Hot Hps _]. unfold conf_lines. apply Forall_app in Hot as [H1 H2]. unfold fits in Hp.
  rewrite Forall_app, Forall_cons, Forall_app. split_and!; [by apply Ho| |by apply Ho|].
  { apply reserved_plain; [unfold reserved; set_solver|apply FormatUint_lacks; [lia|done]]. }
  clear -Hps Ho. induction Hps as [|p ps [[Hl Hk] (Hs & Hn & Ht & Hr) [H1 H2]%Forall_app] _ IH]; [constructor|].
  rewrite bind_cons, Forall_app. split; [|done]. unfold peer_lines, fits in *. rewrite Forall_cons, Forall_app.
  split_and!; [apply reserved_plain; [unfold reserved; set_solver|by apply Hex_lacks]|by apply Ho|].
  cbn [app]. rewrite !Forall_cons. split_and!; try (apply reserved_plain; [unfold reserved; set_solver|apply FormatUint_lacks; [lia|done]]). by apply Ho.
Qed.

(** ** The loop *)

Section loop.
Context (key1 key2 : string) (parse : string → option Z) (num1 num2 : wg_peer → Z).
Context (Hkeys : key1 ∈ reserved ∧ key2 ∈ reserved ∧ key1 ≠ "listen_port" ∧ key2 ≠ "listen_port").

Lemma loop_other want inPeer n1 n2 ls rest : Forall other ls →
  peer_loop key1 key2 parse want inPeer n1 n2 (ls ++ rest) = peer_loop key1 key2 parse want inPeer n1 n2 rest.
Proof.
  destruct Hkeys as (H1 & H2 & _). induction 1 as [|[k v] ls [_ Hn] _ IH]; [done|]. cbn [app peer_loop].
  assert (k ≠ "public_key" ∧ k ≠ key1 ∧ k ≠ key2) as (A & B & C).
  { split_and!; intros ->; apply Hn; cbn; [unfold reserved; set_solver|done..]. }
  apply String.eqb_neq in A, B, C. by rewrite A, B, C.
Qed.

Definition numbers (p : wg_peer) : list (string * string) :=
  [("last_handshake_time_sec", FormatUint (wp_sec p)); ("last_handshake_time_nsec", FormatUint (wp_nsec p));
   ("tx_bytes", FormatUint (wp_tx p)); ("rx_bytes", FormatUint (wp_rx p))].
Context (Hnum : ∀ want inPeer n1 n2 p rest, peer_ok p →
  peer_loop key1 key2 parse want inPeer n1 n2 (numbers p ++ rest) =
  peer_loop key1 key2 parse want inPeer (if inPeer then num1 p else n1) (if inPeer then num2 p else n2) rest).

Lemma loop_peer k inPeer n1 n2 p rest : key_ok k → peer_ok p →
  let same := bool_decide (wp_key p = k) in
  peer_loop key1 key2 parse (Hex k) inPeer n1 n2 (peer_lines p ++ rest) =
  peer_loop key1 key2 parse (Hex k) same (if same then num1 p else n1) (if same then num2 p else n2) rest.
Proof.
  intros Hk Hp same. pose proof (po_other _ Hp) as [H1 H2]%Forall_app.
  unfold peer_lines. rewrite <- app_comm_cons. cbn [peer_loop]. rewrite String.eqb_refl.
  assert (String.eqb (Hex (wp_key p)) (Hex k) = same) as ->.
  { subst same. case_bool_decide as E; [rewrite E; apply String.eqb_refl|]. apply String.eqb_neq. intros E'. by apply Hex_inj in E'; [|apply Hp|]. }
  rewrite <- !app_assoc, loop_other by done. change [_; _; _; _] with (numbers p). rewrite Hnum by done. by apply loop_other.
Qed.

(** The numbers of the peer with the key. *)
Definition peer_of (k : Key) (ps : list wg_peer) : option wg_peer := head (filter (λ p, wp_key p = k) ps).

Lemma loop_peers k ps : key_ok k → Forall peer_ok ps → NoDup (wp_key <$> ps) → ∀ inPeer n1 n2,
  peer_loop key1 key2 parse (Hex k) inPeer n1 n2 (ps ≫= peer_lines) =
  Ok (match peer_of k ps with Some p => (num1 p, num2 p) | None => (n1, n2) end).
Proof.
  intros Hk Hps. induction Hps as [|p ps Hp _ IH]; intros Hnd inPeer n1 n2; [done|]. rewrite bind_cons, loop_peer by done.
  apply NoDup_cons in Hnd as [Hni Hnd]. rewrite IH by done. unfold peer_of. rewrite filter_cons. case_bool_decide as E.
  - rewrite decide_True by done. cbn [head]. destruct (filter _ ps) as [|q qs] eqn:Ef; [done|]. destruct Hni.
    assert (q ∈ filter (λ p, wp_key p = k) ps) as [Hq Hin]%list_elem_of_filter by (rewrite Ef; by left).
    rewrite E, <- Hq. by apply list_elem_of_fmap_2.
  - by rewrite decide_False.
Qed.

Lemma loop_conf k c : key_ok k → conf_ok c →
  peer_loop key1 key2 parse (Hex k) false 0 0 (conf_lines c) =
  Ok (match peer_of k (wc_peers c) with Some p => (num1 p, num2 p) | None => (0, 0) end).
Proof.
  intros Hk [Hport [H1 H2]%Forall_app Hps Hnd]. unfold conf_lines. rewrite loop_other by done. cbn [peer_loop].
  destruct Hkeys as (_ & _ & N1 & N2). apply not_eq_sym, String.eqb_neq in N1, N2. rewrite N1, N2. cbn [String.eqb Ascii.eqb Bool.eqb andb].
  rewrite loop_other by done. by apply loop_peers.
Qed.
End loop.

Section reads.
Context {D : Type} `{!WgDevice D}.

(** What is read off a device is that peer's: for a device whose report lists
    its port and its peers, each with its key and its numbers among any other
    lines, ListenPort, LastHandshake and PeerStats return the port, and the
    last handshake and byte counts of exactly the peer with the key asked for
    (no handshake and no bytes when it has no such peer). *)
Theorem reads_named_peer (d : D) c k :
  IpcGetOperation d = Ok (lines_text (conf_lines c)) → conf_ok c → key_ok k →
  ListenPort d = Ok (wc_port c)
  ∧ LastHandshake k d = Ok (match peer_of k (wc_peers c) with
                            | Some p => if (wp_sec p =? 0) && (wp_nsec p =? 0) then None else Some (wp_sec p, wp_nsec p)
                            | None => None
                            end)
  ∧ PeerStats k d = Ok (match peer_of k (wc_peers c) with Some p => (wp_tx p, wp_rx p) | None => (0, 0) end).
Proof.
  intros Hd Hc Hk. unfold ListenPort, LastHandshake, PeerStats, uapiConfig. rewrite Hd. cbn [res_bind].
  rewrite config_lines_text by by apply conf_plain. split_and!.
  - destruct Hc as [Hport [H1 H2]%Forall_app Hps Hnd]. unfold conf_lines. clear -H1 Hport. induction H1 as [|[k v] l [_ Hn] _ IH]; cbn [app port_loop].
    + by rewrite String.eqb_refl, ParseUint16_FormatUint.
    + assert (k ≠ "listen_port") as E by (intros ->; apply Hn; unfold reserved; set_solver). apply String.eqb_neq in E. by rewrite E.
  - rewrite (loop_conf _ _ ParseInt wp_sec wp_nsec); try done.
    + cbn [res_bind]. by destruct (peer_of k (wc_peers c)).
    + unfold reserved. split_and!; try done; set_solver.
    + intros want inPeer n1 n2 p rest [_ (Hs & Hn & _) _]. unfold numbers. cbn [app peer_loop String.eqb Ascii.eqb Bool.eqb andb]. destruct inPeer; [|done]. by rewrite !ParseInt_FormatUint.
  - rewrite (loop_conf _ _ (ParseUint 64) wp_tx wp_rx); try done.
    + unfold reserved. split_and!; try done; set_solver.
    + intros want inPeer n1 n2 p rest [_ (_ & _ & Ht & Hr) _]. unfold numbers. cbn [app peer_loop String.eqb Ascii.eqb Bool.eqb andb]. destruct inPeer; [|done]. by rewrite !Parse_FormatUint.
Qed.
End reads.

(** ** Standby candidates and the device's peers *)

(** A peer that is added is there and one that is removed is not; adding may
    fail after the peer was made. *)
Class standbyLaws (W : Type) `{standbyPeerManager W} := {
  dev_peers : W → gset Key;
  AddPeer_ok : ∀ k ips ep ka w w', AddPeer k ips ep ka w = (None, w') → dev_peers w' = {[k]} ∪ dev_peers w;
  AddPeer_failed : ∀ k ips ep ka w e w', AddPeer k ips ep ka w = (Some e, w') → dev_peers w' ⊆ {[k]} ∪ dev_peers w;
  RemovePeer_ok : ∀ k w w', RemovePeer k w = (None, w') → dev_peers w' = dev_peers w ∖ {[k]};
  RemovePeer_failed : ∀ k w e w', RemovePeer k w = (Some e, w') → dev_peers w' = dev_peers w;
}.

Inductive sb_op := SAdd (c : StandbyCandidate) | SRemove (id : string).

Section standby_run.
Context {W : Type} `{!standbyPeerManager W, !standbyLaws W}.

Definition sb_step (o : sb_op) (m : StandbyManager) (w : W) : option error * StandbyManager * W :=
  match o with SAdd c => sm_Add c m w | SRemove id => sm_Remove id m w end.

(** The errors, in order. *)
Fixpoint sb_run (ops : list sb_op) (m : StandbyManager) (w : W) : list (option error) * StandbyManager * W :=
  match ops with
  | [] => ([], m, w)
  | o :: ops => let '(e, m, w) := sb_step o m w in let '(es, m, w) := sb_run ops m w in (e :: es, m, w)
  end.

(** What should be in the table, and the keys whose Add failed. *)
Fixpoint sb_wanted (ops : list sb_op) (t : gmap string StandbyCandidate) : gmap string StandbyCandidate :=
  match ops with
  | [] => t
  | SAdd c :: ops => sb_wanted ops (<[sc_ID c := c]> t)
  | SRemove id :: ops => sb_wanted ops (delete id t)
  end.
Definition sb_failed (ops : list sb_op) (es : list (option error)) : list Key :=
  zip ops es ≫= λ p, match p with (SAdd c, Some _) => [sc_PublicKey c] | _ => [] end.

(** Different candidates have different keys. *)
Definition own_keys (cs : list StandbyCandidate) : Prop :=
  ∀ c c', c ∈ cs → c' ∈ cs → sc_PublicKey c = sc_PublicKey c' → sc_ID c = sc_ID c'.
Definition sb_added (ops : list sb_op) : list StandbyCandidate := ops ≫= λ o, match o with SAdd c => [c] | SRemove _ => [] end.

Record sb_sound (failed : list Key) (m : StandbyManager) (w : W) : Prop := {
  ss_covered : ∀ k, k ∈ dev_peers w → k ∈ failed ∨ ∃ id c, sm_byID m !! id = Some c ∧ sc_PublicKey c = k }.
Record sb_exact (cs : list StandbyCandidate) (m : StandbyManager) (w : W) : Prop := {
  se_ids : ∀ id c, sm_byID m !! id = Some c → sc_ID c = id ∧ c ∈ cs;
  se_there : ∀ id c, sm_byID m !! id = Some c → sc_PublicKey c ∈ dev_peers w }.

Lemma remove_sound failed m (w w' : W) id c : sb_sound failed m w → sm_byID m !! id = Some c → RemovePeer (sc_PublicKey c) w = (None, w') →
  sb_sound failed (mkStandby (sm_keepalive m) (delete id (sm_byID m))) w'.
Proof.
  intros [Hs] Hc Hr%RemovePeer_ok. split. intros k Hk. rewrite Hr in Hk. apply elem_of_difference in Hk as [Hk Hn].
  destruct (Hs k Hk) as [?|(id' & c' & Hc' & E)]; [by left|right; exists id', c']. split; [|done]. cbn.
  rewrite lookup_delete_ne; [done|]. intros ->. simplify_eq. set_solver.
Qed.

Lemma remove_exact cs m (w w' : W) id c : own_keys cs → sb_exact cs m w → sm_byID m !! id = Some c → RemovePeer (sc_PublicKey c) w = (None, w') →
  sb_exact cs (mkStandby (sm_keepalive m) (delete id (sm_byID m))) w'.
Proof.
  intros Hown [Hi Ht] Hc Hr%RemovePeer_ok. split; cbn; intros id' c' [Hne Hc']%lookup_delete_Some; [by eauto|].
  rewrite Hr. apply elem_of_difference. split; [by eauto|]. intros E%elem_of_singleton.
  destruct (Hi _ _ Hc) as [<- ?], (Hi _ _ Hc') as [<- ?]. apply Hne. by apply Hown.
Qed.

(** The table without the candidate about to be replaced is as good. *)
Lemma insert_sound failed m (w w' : W) ips ep ka c :
  sb_sound (sc_PublicKey c :: failed) (mkStandby (sm_keepalive m) (delete (sc_ID c) (sm_byID m))) w →
  AddPeer (sc_PublicKey c) ips ep ka w = (None, w') →
  sb_sound failed (mkStandby (sm_keepalive m) (<[sc_ID c := c]> (sm_byID m))) w'.
Proof.
  intros [Hs] Ha%AddPeer_ok. cbn in Hs. split. intros k Hk. rewrite Ha in Hk. cbn.
  destruct (decide (k = sc_PublicKey c)) as [->|Hkc]; [right; exists (sc_ID c), c; by rewrite lookup_insert_eq|].
  destruct (Hs k) as [[?|?]%elem_of_cons|(id & c' & [Hne Hc']%lookup_delete_Some & E)]; [set_solver|done|by left|right].
  exists id, c'. by rewrite lookup_insert_ne.
Qed.

Lemma sound_more failed failed' m (w : W) : failed ⊆ failed' → sb_sound failed m w → sb_sound failed' m w.
Proof. intros Hf [Hs]. split. intros k Hk. destruct (Hs k Hk); [left; by apply Hf|by right]. Qed.

Lemma delete_exact cs m (w : W) id : sb_exact cs m w → sb_exact cs (mkStandby (sm_keepalive m) (delete id (sm_byID m))) w.
Proof. intros [Hi Ht]. split; cbn; intros id' c' [_ ?]%lookup_delete_Some; eauto. Qed.

Lemma insert_exact cs m (w w' : W) ips ep ka c : c ∈ cs → sb_exact cs (mkStandby (sm_keepalive m) (delete (sc_ID c) (sm_byID m))) w →
  AddPeer (sc_PublicKey c) ips ep ka w = (None, w') →
  sb_exact cs (mkStandby (sm_keepalive m) (<[sc_ID c := c]> (sm_byID m))) w'.
Proof.
  intros Hc [Hi Ht] Ha%AddPeer_ok. cbn in *. split; cbn; intros id c' [[<- <-]|[Hne Hc']]%lookup_insert_Some; rewrite ?Ha.
  - done.
  - apply Hi. by rewrite lookup_delete_ne.
  - by apply elem_of_union_l, elem_of_singleton.
  - apply elem_of_union_r, (Ht id). by rewrite lookup_delete_ne.
Qed.

Lemma drop_sound failed m (w : W) id c : sb_sound failed m w → sm_byID m !! id = Some c →
  sb_sound (sc_PublicKey c :: failed) (mkStandby (sm_keepalive m) (delete id (sm_byID m))) w.
Proof.
  intros [Hs] Hc. split. intros k Hk. destruct (Hs k Hk) as [?|(id' & c' & Hc' & E)]; [left; by right|].
  destruct (decide (id' = id)) as [->|Hne]; [left; simplify_eq; by left|]. right. exists id', c'. cbn. by rewrite lookup_delete_ne.
Qed.

(** The first half of Add: what has the old key goes. *)
Definition replaced (c : StandbyCandidate) (m : StandbyManager) (w : W) : option error * W :=
  match sm_byID m !! sc_ID c with
  | Some existing => if bool_decide (sc_PublicKey existing ≠ sc_PublicKey c) then RemovePeer (sc_PublicKey existing) w else (None, w)
  | None => (None, w)
  end.

Lemma replaced_spec c m (w w' : W) err failed : replaced c m w = (err, w') → sb_sound failed m w →
  match err with
  | Some _ => sb_sound failed m w'
  | None => sb_sound (sc_PublicKey c :: failed) (mkStandby (sm_keepalive m) (delete (sc_ID c) (sm_byID m))) w'
            ∧ ∀ cs, own_keys cs → sb_exact cs m w → sb_exact cs (mkStandby (sm_keepalive m) (delete (sc_ID c) (sm_byID m))) w'
  end.
Proof.
  unfold replaced. intros H Hs. destruct (sm_byID m !! sc_ID c) as [x|] eqn:E; [case_bool_decide as Hk|].
  - destruct err.
    + apply RemovePeer_failed in H. split. intros k Hin. rewrite H in Hin. by apply Hs.
    + split; [|intros cs Hown He; by eapply remove_exact]. eapply sound_more; [|by eapply remove_sound]. set_solver.
  - simplify_eq. rewrite <- Hk. split; [by apply drop_sound|intros cs _; apply delete_exact].
  - simplify_eq. rewrite delete_id by done. destruct m. split; [|done]. eapply sound_more; [|done]. set_solver.
Qed.

Lemma sb_step_spec o m (w w' : W) e m' failed : sb_step o m w = (e, m', w') → sb_sound failed m w →
  sb_sound (sb_failed [o] [e] ++ failed) m' w' ∧
  (e = None → sm_byID m' = sb_wanted [o] (sm_byID m)
     ∧ ∀ cs, own_keys cs → (∀ c, o = SAdd c → c ∈ cs) → sb_exact cs m w → sb_exact cs m' w').
Proof.
  intros H Hs. destruct o as [c|id]; cbn [sb_step] in H.
  - unfold sm_Add in H. fold (replaced c m w) in H. destruct (replaced c m w) as [err w1] eqn:Er.
    pose proof (replaced_spec _ _ _ _ _ _ Er Hs) as Hr. destruct err as [err|]; [simplify_eq; split; [|done]|].
    { eapply sound_more; [|exact Hr]. set_solver. }
    destruct Hr as [Hr Hx]. destruct (AddPeer _ _ _ _ w1) as [[err|] w2] eqn:Ea; simplify_eq.
    + split; [|done]. cbn. apply AddPeer_failed in Ea. destruct Hr as [Hr]. split. intros k Hk. apply Ea in Hk.
      apply elem_of_union in Hk as [->%elem_of_singleton|Hk]; [left; by left|]. destruct (Hr k Hk) as [?|(id & c' & Hc' & E)]; [by left|right].
      cbn in Hc'. apply lookup_delete_Some in Hc' as [? ?]. eauto.
    + split; [by eapply insert_sound|]. intros _. split; [done|]. intros cs Hown Hc He. eapply insert_exact; eauto.
  - unfold sm_Remove in H. destruct (sm_byID m !! id) as [c|] eqn:E; [destruct (RemovePeer _ w) as [[err|] w1] eqn:Er|]; simplify_eq.
    + split; [|done]. apply RemovePeer_failed in Er. split. intros k Hk. rewrite Er in Hk. by apply Hs.
    + split; [by eapply remove_sound|]. intros _. split; [done|]. intros cs Hown _ He. by eapply remove_exact.
    + split; [done|]. intros _. split; [cbn; by rewrite delete_id|done].
Qed.

Lemma sb_run_spec ops : ∀ m (w : W) es m' w' failed, sb_run ops m w = (es, m', w') → sb_sound failed m w →
  sb_sound (sb_failed ops es ++ failed) m' w' ∧
  (Forall (λ e, e = None) es → sm_byID m' = sb_wanted ops (sm_byID m)
     ∧ ∀ cs, own_keys cs → sb_added ops ⊆ cs → sb_exact cs m w → sb_exact cs m' w').
Proof.
  induction ops as [|o ops IH]; intros m w es m' w' failed H Hs; cbn in H; [by simplify_eq|].
  destruct (sb_step o m w) as [[e m1] w1] eqn:E. destruct (sb_run ops m1 w1) as [[es1 m2] w2] eqn:Er. simplify_eq.
  destruct (sb_step_spec _ _ _ _ _ _ _ E Hs) as [Hs1 Hx1]. destruct (IH _ _ _ _ _ _ Er Hs1) as [Hs2 Hx2]. split.
  - eapply sound_more; [|exact Hs2]. unfold sb_failed. cbn. set_solver.
  - intros [He Hes]%Forall_cons. destruct (Hx1 He) as [W1 X1], (Hx2 Hes) as [W2 X2]. split; [rewrite W2, W1; by destruct o|].
    intros cs Hown Hin Hx. apply X2; [done|destruct o; set_solver|]. apply X1; [done| |done]. intros c ->. apply Hin. by left.
Qed.

(** A standby manager and its device agree. Start with no candidate and no
    peer, and run any sequence of Add and Remove with any of the device's
    operations failing: a peer on the device belongs to a candidate of the
    table, or is one whose Add failed. When none failed, the table is that of
    the sequence (the last Add of an ID since its last Remove) and, candidates
    having their own keys, every candidate in it has its peer on the device,
    so no other peer is left there. *)
Theorem standby_table_matches_device ops keepalive (w w' : W) es m' :
  dev_peers w = ∅ → sb_run ops (mkStandby keepalive ∅) w = (es, m', w') →
  (∀ k, k ∈ dev_peers w' → k ∈ sb_failed ops es ∨ ∃ id c, sm_byID m' !! id = Some c ∧ sc_PublicKey c = k) ∧
  (Forall (λ e, e = None) es → own_keys (sb_added ops) →
     sm_byID m' = sb_wanted ops ∅ ∧ ∀ k, k ∈ dev_peers w' ↔ ∃ id c, sm_byID m' !! id = Some c ∧ sc_PublicKey c = k).
Proof.
  intros H0 H. destruct (sb_run_spec _ _ _ _ _ _ [] H) as [[Hs] Hx]; [split; intros k Hk; set_solver|].
  rewrite app_nil_r in Hs. split; [done|]. intros Hes Hown. destruct (Hx Hes) as [E Hx']. split; [done|].
  destruct (Hx' _ Hown) as [_ Ht]; [done|split; cbn; by intros id c Hc%lookup_empty_Some|].
  assert (sb_failed ops es = []) as Hf.
  { clear -Hes. unfold sb_failed. revert es Hes. induction ops as [|o ops IH]; intros [|e es] Hes; try done.
    apply Forall_cons in Hes as [-> Hes]. cbn. destruct o; by apply IH. }
  intros k. split; [|by intros (id & c & Hc & <-); eauto]. intros Hk. destruct (Hs k Hk) as [Hin|]; [|done]. rewrite Hf in Hin. by apply elem_of_nil in Hin.
Qed.
End standby_run.

(** ** A device that cannot be configured is closed *)

Class WgHostLaws (W : Type) `{WgHost W} := {
  interfaces : W → gset string;
  CreateTUN_ok : ∀ real name mtu w tun w', CreateTUN real name mtu w = (Ok tun, w') → tun ∉ interfaces w ∧ interfaces w' = {[tun]} ∪ interfaces w;
  CreateTUN_failed : ∀ real name mtu w e w', CreateTUN real name mtu w = (Err e, w') → interfaces w' = interfaces w;
  CloseTUN_closes : ∀ tun w, interfaces (CloseTUN tun w) = interfaces w ∖ {[tun]};
  DevClose_closes : ∀ tun w, interfaces (DevClose tun w) = interfaces w ∖ {[tun]};
  NewDevice_same : ∀ tun w, interfaces (NewDevice tun w) = interfaces w;
  DevIpcSet_same : ∀ tun s w e w', DevIpcSet tun s w = (e, w') → interfaces w' = interfaces w;
  DevUp_same : ∀ tun w e w', DevUp tun w = (e, w') → interfaces w' = interfaces w;
}.

Section device_laws.
Context {W : Type} `{!WgHost W, !WgHostLaws W}.

Lemma configure_interfaces tun name cfg (w w' : W) r : configure tun name cfg w = (r, w') →
  interfaces w' = match r with Ok _ => interfaces w | Err _ => interfaces w ∖ {[tun]} end.
Proof.
  unfold configure. destruct (DevIpcSet _ _ _) as [[e|] w1] eqn:E1; apply DevIpcSet_same in E1; rewrite NewDevice_same in E1.
  { intros [= <- <-]. by rewrite DevClose_closes, E1. }
  destruct (DevUp _ w1) as [[e|] w2] eqn:E2; apply DevUp_same in E2; intros [= <- <-]; rewrite ?DevClose_closes; by rewrite E2, E1.
Qed.

(** Neither kind of device leaves an interface behind when it cannot be made:
    NewReal and New end with one more interface, or, with an error, with those
    there were. *)
Theorem failed_device_leaves_nothing denied cfg (w w' : W) r :
  NewReal denied cfg w = (r, w') ∨ New cfg w = (r, w') →
  match r with
  | Ok _ => ∃ tun, tun ∉ interfaces w ∧ interfaces w' = {[tun]} ∪ interfaces w
  | Err _ => interfaces w' = interfaces w
  end.
Proof.
  assert (∀ tun (w1 : W), tun ∉ interfaces w → interfaces w1 = {[tun]} ∪ interfaces w → interfaces w1 ∖ {[tun]} = interfaces w) as Hback.
  { intros tun w1 Hn ->. set_solver. }
  intros [H|H]; [unfold NewReal in H|unfold New in H]; destruct (CreateTUN _ _ _ w) as [[tun|e] w1] eqn:Ec;
    try (simplify_eq; by apply CreateTUN_failed in Ec); apply CreateTUN_ok in Ec as [Hn Hw1]; [destruct (TunName tun w1)|].
  2: { simplify_eq. rewrite CloseTUN_closes. auto. }
  all: apply configure_interfaces in H; destruct r; rewrite H; eauto.
Qed.
End device_laws.

(** ** Concrete devices *)

Module WgDemo.

(** A device that is its report. *)
#[export] Instance text_device : WgDevice string := {| IpcSet _ d := (None, d); IpcGetOperation d := Ok d |}.

Definition key (n : Z) : Key := replicate 32 n.
Lemma key_is_ok n : 0 ≤ n < 256 → key_ok (key n).
Proof. intros Hn. split; [done|]. apply (Forall_replicate is_u8 32 n). by unfold fits. Qed.
Definition conf : wg_conf :=
  mkWgConf [("private_key", Hex (key 1))] 51820 []
    [mkWgPeer (key 2) 0 0 10 20 [("protocol_version", "1")] [("allowed_ip", "10.64.0.2/32")];
     mkWgPeer (key 3) 1700000000 5 7 9 [("endpoint", "192.0.2.1:51820")] []].
Definition device : string := lines_text (conf_lines conf).

Lemma conf_is_ok : conf_ok conf.
Proof.
  assert (∀ k v, k ∉ reserved → plain (k, v) → other (k, v)) as Ho by by split.
  split; [by split| | |].
  - repeat (apply Forall_cons; split); try constructor; apply Ho; try by split_and!.
    all: intros H; repeat apply elem_of_cons in H as [H|H]; try done; by apply elem_of_nil in H.
  - repeat (apply Forall_cons; split); [..|constructor]; split; try (by apply key_is_ok); try (by split_and!); cbn;
      repeat (apply Forall_cons; split); try constructor; try by split_and!.
    all: intros H; repeat apply elem_of_cons in H as [H|H]; try done; by apply elem_of_nil in H.
  - apply NoDup_cons. split; [by intros H%list_elem_of_singleton|apply NoDup_singleton].
Qed.

Lemma reads_named_peer_witness :
  ListenPort device = Ok 51820 ∧ LastHandshake (key 3) device = Ok (Some (1700000000, 5)) ∧ PeerStats (key 3) device = Ok (7, 9).
Proof. exact (reads_named_peer device conf (key 3) eq_refl conf_is_ok (key_is_ok 3 ltac:(lia))). Defined.

(** A device's peers, and which of the next operations fail. *)
Definition dev := (gset Key * list bool)%type.
Definition op (f : gset Key → gset Key) (d : dev) : option error * dev :=
  match d.2 with
  | true :: fs => (Some (ErrText "failed"), (d.1, fs))
  | fs => (None, (f d.1, tail fs))
  end.
#[export] Instance dev_standby : standbyPeerManager dev :=
  {| AddPeer k _ _ _ := op (union {[k]}); RemovePeer k := op (λ s, s ∖ {[k]}); spm_LastHandshake _ _ := Ok None |}.
#[export] Instance dev_laws : standbyLaws dev.
Proof.
  refine {| dev_peers (d : dev) := d.1 |}; intros; cbn in *; unfold op in *; destruct w as [s [|[] fs]]; cbn in *; simplify_eq; cbn; try done; set_solver.
Defined.

Definition a : StandbyCandidate := mkCandidate "a" (key 2) "192.0.2.1:51820".
Definition a' : StandbyCandidate := mkCandidate "a" (key 4) "192.0.2.1:51820".
Definition b : StandbyCandidate := mkCandidate "b" (key 3) "192.0.2.2:51820".

Definition ops : list sb_op := [SAdd a; SAdd b; SAdd a'; SRemove "b"].
Definition ran (faults : list bool) := sb_run ops (mkStandby 25 ∅) ((∅, faults) : dev).
Lemma standby_table_matches_device_witness :
  sm_byID (ran []).1.2 = {["a" := a']} ∧ ∀ k, k ∈ dev_peers (ran []).2 ↔ ∃ id c, sm_byID (ran []).1.2 !! id = Some c ∧ sc_PublicKey c = k.
Proof.
  refine (proj2 (standby_table_matches_device ops 25 ((∅, []) : dev) (ran []).2 (ran []).1.1 (ran []).1.2 _ _) _ _).
  - done.
  - unfold ran. by destruct (sb_run _ _ _) as [[??]?].
  - vm_compute. repeat constructor.
  - intros c c' Hc Hc' E. cbn in Hc, Hc'.
    repeat apply elem_of_cons in Hc as [->|Hc]; repeat apply elem_of_cons in Hc' as [->|Hc']; try done;
      by apply elem_of_nil in Hc || apply elem_of_nil in Hc'.
Defined.

(** *** A candidate without a peer

    The candidate's key changes; its old peer is removed, and adding the new
    one fails. The table still lists the candidate with its old key. *)
Definition half : list bool := [false; false; true].
Lemma failed_replace_keeps_candidate :
  let '(es, m, d) := sb_run [SAdd a; SAdd a'] (mkStandby 25 ∅) ((∅, half) : dev) in
  is_Some (es !! 1%nat ≫= id) ∧ sm_byID m = {["a" := a]} ∧ dev_peers d = ∅.
Proof. vm_compute. split_and!; [by eexists|done|done]. Qed.

(** An interface and a device under the same name; configuring may fail. *)
Definition hostw := (gset string * bool)%type.
#[export] Instance hostw_wg : WgHost hostw := {
  CreateTUN _ name _ w := if bool_decide (name ∈ w.1) then (Err "busy", w) else (Ok name, ({[name]} ∪ w.1, w.2));
  TunName name _ := Ok name;
  CloseTUN tun w := (w.1 ∖ {[tun]}, w.2);
  NewDevice _ w := w;
  DevIpcSet _ _ w := (if w.2 then Some "bad key" else None, w);
  DevUp _ w := (None, w);
  DevClose tun w := (w.1 ∖ {[tun]}, w.2);
}.
#[export] Instance hostw_laws : WgHostLaws hostw.
Proof.
  refine {| interfaces (w : hostw) := w.1 |}; intros; cbn in *; try case_bool_decide; by simplify_eq.
Defined.

Definition egc0 : DevConfig := mkDevConfig (key 1) 51820 "egc0" 0.
Definition failed_new := NewReal (λ _, false) egc0 (({["eth0"]}, true) : hostw).
Lemma failed_device_leaves_nothing_witness : interfaces failed_new.2 = {["eth0"]}.
Proof.
  refine (failed_device_leaves_nothing (λ _, false) egc0 (({["eth0"]}, true) : hostw) failed_new.2 failed_new.1 _).
  left. unfold failed_new. by destruct (NewReal _ _ _).
Defined.

End WgDemo.
