(* ===== verification/NetlinkNet.v ===== *)
(** * The kernel through netlink: internal/ipsec/netlink_linux.go

    NetlinkNet is the [Net] of IpsecNet.v. The netlink handle (its seam for
    tests, the interface nlHandle) is a class, and so is what it is relied on
    for: devices have indexes, routes go by index and byte slices. The theorem
    is that NetlinkNet's calls do what IpsecNet.v assumes of them. *)

From S2P Require Import Prelude Netip Rib IpsecConfig IpsecNet.

(** ** What netlink works with *)

(** A net.IPNet; its mask as [IPMask.Size] reports it. *)
Record IPNet := mkIPNet { in_IP : bytes; in_ones : Z; in_bits : Z }.
Record nlRoute := mkNlRoute { nr_Dst : option IPNet; nr_Gw : bytes; nr_Src : bytes; nr_LinkIndex : Z; nr_Table : Z; nr_Priority : Z }.
Record nlRule := mkNlRule { nu_Family : Z; nu_Table : Z; nu_Priority : Z; nu_Src : option IPNet; nu_IifName : string }.
Record nlState := mkNlState {
  ns_Src : bytes; ns_Dst : bytes; ns_Spi : Z; ns_Ifid : Z; ns_Packets : Z; ns_Bytes : Z; ns_Replay : option Z }.

Inductive nlerr := LinkNotFound | Errno (n : Z) | NlOther (msg : string).
Definition ENOENT : Z := 2.
Definition ESRCH : Z := 3.
Definition EEXIST : Z := 17.
Definition AF_INET : Z := 2.
Definition AF_INET6 : Z := 10.

Class nlHandle (N : Type) := {
  nl_LinkAdd : string → Z → Z → N → option nlerr * N;
  nl_LinkDel : Z → N → option nlerr * N;
  nl_LinkByName : string → N → res nlerr Z;
  nl_LinkByIndex : Z → N → res nlerr string;
  nl_LinkSetUp : Z → N → option nlerr * N;
  nl_AddrAdd : Z → IPNet → N → option nlerr * N;
  nl_RouteAdd : nlRoute → N → option nlerr * N;
  nl_RouteReplace : nlRoute → N → option nlerr * N;
  nl_RouteDel : nlRoute → N → option nlerr * N;
  nl_RouteGet : bytes → N → res nlerr (list nlRoute);
  nl_RouteListFiltered : Z → Z → N → res nlerr (list nlRoute);
  nl_RuleAdd : nlRule → N → option nlerr * N;
  nl_RuleDel : nlRule → N → option nlerr * N;
  nl_XfrmStateList : N → res nlerr (list nlState);
}.

(** ** Conversions *)

Definition mapErr (e : nlerr) : error :=
  match e with
  | LinkNotFound => ErrWrap "Link not found" ErrNotExist
  | Errno n =>
      if n =? EEXIST then ErrJoin [ErrExist; ErrText (FormatUint n)]
      else if (n =? ESRCH) || (n =? ENOENT) then ErrJoin [ErrNotExist; ErrText (FormatUint n)]
      else ErrText (FormatUint n)
  | NlOther msg => ErrText msg
  end.

Definition AsSlice (a : Addr) : bytes :=
  match a with AddrInvalid => [] | Addr4 v => be_put 4 v | Addr6 v => be_put 16 v end.
Definition AddrFromSlice (b : bytes) : option Addr :=
  if (length b =? 4)%nat then Some (AddrFrom4 b) else if (length b =? 16)%nat then Some (AddrFrom16 b) else None.

Definition ipToAddr (ip : bytes) : Addr :=
  if (length ip =? 0)%nat then AddrInvalid
  else match AddrFromSlice ip with None => AddrInvalid | Some a => Unmap a end.
Definition prefixToIPNet (p : Prefix) : IPNet :=
  let p := Masked p in mkIPNet (AsSlice (pf_Addr p)) (pf_Bits p) (BitLen (pf_Addr p)).
Definition ipNetToPrefix (n : IPNet) : option Prefix :=
  let a := ipToAddr (in_IP n) in
  if negb (addr_IsValid a) then None
  else if negb (in_bits n =? BitLen a) then None else Some (mkPrefix a (in_ones n)).
Definition nlFamily (f : Z) : Z := if f =? FamilyV6 then AF_INET6 else AF_INET.

Definition toNetlinkRule (r : Rule) : nlRule :=
  mkNlRule (nlFamily (rule_family r)) (if ru_Table r =? 0 then MainTable else ru_Table r) (ru_Priority r)
    (if pf_IsValid (ru_Src r) then Some (prefixToIPNet (ru_Src r)) else None) (ru_Iif r).

Definition fromNetlinkState (s : nlState) : XfrmState :=
  mkXfrm (unzoned (ipToAddr (ns_Src s))) (unzoned (ipToAddr (ns_Dst s))) (u32 (ns_Spi s)) (u32 (ns_Ifid s)) (ns_Packets s) (ns_Bytes s)
    (default 0 (ns_Replay s)) (bool_decide (is_Some (ns_Replay s))).

(** ** NetlinkNet *)

Section netlink.
Context {N : Type} `{!nlHandle N}.

Definition wrapped (msg : string) (r : option nlerr * N) : option error * N :=
  match r with (Some e, n) => (Some (ErrWrap msg (mapErr e)), n) | (None, n) => (None, n) end.

Definition linkByName (name : string) (n : N) : res error Z :=
  match nl_LinkByName name n with Err e => Err (ErrWrap ("ipsec: link " +:+ name) (mapErr e)) | Ok i => Ok i end.

Definition with_link (name : string) (f : Z → N → option error * N) (n : N) : option error * N :=
  match linkByName name n with Err e => (Some e, n) | Ok i => f i n end.

Definition nn_AddXfrmInterface (name : string) (ifID : Z) (underlay : string) (n : N) : option error * N :=
  if ifID =? 0 then (Some (ErrText ("ipsec: xfrm interface " +:+ name +:+ ": if_id must be non-zero")), n)
  else
    let add (parent : Z) (n : N) := wrapped ("ipsec: add xfrm interface " +:+ name) (nl_LinkAdd name parent ifID n) in
    if String.eqb underlay "" then add 0 n else with_link underlay add n.

Definition nn_DeleteLink (name : string) : N → option error * N :=
  with_link name (λ i n, wrapped ("ipsec: delete link " +:+ name) (nl_LinkDel i n)).

Definition nn_AddAddr (name : string) (addr : Prefix) : N → option error * N :=
  with_link name (λ i n, wrapped ("ipsec: add address to " +:+ name)
    (nl_AddrAdd i (mkIPNet (AsSlice (pf_Addr addr)) (pf_Bits addr) (BitLen (pf_Addr addr))) n)).

Definition nn_SetLinkUp (name : string) : N → option error * N :=
  with_link name (λ i n, wrapped ("ipsec: set up " +:+ name) (nl_LinkSetUp i n)).

Definition toNetlinkRoute (r : Route) (n : N) : res error nlRoute :=
  if negb (pf_IsValid (r_Dst r)) then Err (ErrText "ipsec: route without a destination")
  else
    let nr := mkNlRoute (Some (prefixToIPNet (r_Dst r))) (if za_IsValid (r_Gw r) then AsSlice (za_Addr (r_Gw r)) else [])
                (if za_IsValid (r_Src r) then AsSlice (za_Addr (r_Src r)) else []) in
    if String.eqb (r_Dev r) "" then Ok (nr 0 (route_table r) 0)
    else match linkByName (r_Dev r) n with Err e => Err e | Ok i => Ok (nr i (route_table r) 0) end.

Definition fromNetlinkRoute (nr : nlRoute) (n : N) : res error Route :=
  let dst := match nr_Dst nr with Some d => default zeroPrefix (ipNetToPrefix d) | None => zeroPrefix end in
  let r dev := mkRoute dst (unzoned (ipToAddr (nr_Gw nr))) dev (unzoned (ipToAddr (nr_Src nr))) (nr_Table nr) in
  if nr_LinkIndex nr =? 0 then Ok (r "")
  else match nl_LinkByIndex (nr_LinkIndex nr) n with
       | Err e => Err (ErrWrap "ipsec: link index" (mapErr e))
       | Ok name => Ok (r name)
       end.

Definition with_route (msg : string) (f : nlRoute → N → option nlerr * N) (r : Route) (n : N) : option error * N :=
  match toNetlinkRoute r n with Err e => (Some e, n) | Ok nr => wrapped msg (f nr n) end.
Definition nn_RouteAdd : Route → N → option error * N := with_route "ipsec: add route" nl_RouteAdd.
Definition nn_RouteReplace : Route → N → option error * N := with_route "ipsec: replace route" nl_RouteReplace.
Definition nn_RouteDel : Route → N → option error * N := with_route "ipsec: delete route" nl_RouteDel.

Definition with_dst (dst : Prefix) (r : Route) : Route := mkRoute dst (r_Gw r) (r_Dev r) (r_Src r) (r_Table r).

Definition nn_RouteGet (dst : ZAddr) (n : N) : res error Route :=
  if negb (za_IsValid dst) || negb (String.eqb (za_Zone dst) "") then Err (ErrText "ipsec: route get: invalid destination")
  else match nl_RouteGet (AsSlice (za_Addr dst)) n with
       | Err e => Err (ErrWrap "ipsec: route get" (mapErr e))
       | Ok [] => Err (ErrWrap "ipsec: route get" ErrNotExist)
       | Ok (nr :: _) => try r := fromNetlinkRoute nr n in Ok (with_dst (hostPrefix dst) r)
       end.

Definition is_default (nr : nlRoute) : bool := match nr_Dst nr with None => true | Some d => in_ones d =? 0 end.
Fixpoint best_default (best : option nlRoute) (routes : list nlRoute) : option nlRoute :=
  match routes with
  | [] => best
  | rt :: routes =>
      if negb (is_default rt) then best_default best routes
      else if match best with None => true | Some b => nr_Priority rt <? nr_Priority b end then best_default (Some rt) routes
      else best_default best routes
  end.

Definition nn_DefaultRoute (family : Z) (n : N) : res error Route :=
  match nl_RouteListFiltered (nlFamily family) MainTable n with
  | Err e => Err (ErrWrap "ipsec: list main table" (mapErr e))
  | Ok routes =>
      match best_default None routes with
      | None => Err (ErrWrap "ipsec: no default route in the main table" ErrNotExist)
      | Some nr =>
          try r := fromNetlinkRoute nr n in
          Ok (with_dst (if family =? FamilyV4 then mkPrefix (Addr4 0) 0 else mkPrefix (Addr6 0) 0) r)
      end
  end.

Definition nn_RuleAdd (r : Rule) (n : N) : option error * N := wrapped "ipsec: add rule" (nl_RuleAdd (toNetlinkRule r) n).
Definition nn_RuleDel (r : Rule) (n : N) : option error * N := wrapped "ipsec: delete rule" (nl_RuleDel (toNetlinkRule r) n).

Definition nn_XfrmStates (n : N) : res error (list XfrmState) :=
  match nl_XfrmStateList n with Err e => Err (ErrWrap "ipsec: list xfrm states" (mapErr e)) | Ok l => Ok (fromNetlinkState <$> l) end.

(** The calls of [Net]. *)
Definition net_call (c : call) : option (N → option error * N) :=
  match c with
  | AddXfrmInterface name ifID underlay => Some (nn_AddXfrmInterface name ifID underlay)
  | DeleteLink name => Some (nn_DeleteLink name)
  | AddAddr name addr => Some (nn_AddAddr name addr)
  | SetLinkUp name => Some (nn_SetLinkUp name)
  | RouteAdd r => Some (nn_RouteAdd r)
  | RouteReplace r => Some (nn_RouteReplace r)
  | RouteDel r => Some (nn_RouteDel r)
  | RuleAdd r => Some (nn_RuleAdd r)
  | RuleDel r => Some (nn_RuleDel r)
  | _ => None
  end.
End netlink.

(** ** What the handle is relied on for *)

(** The kernel's devices by index (name, if_id), its routes by table and
    destination, without those that have a metric, and its rules. *)
Record kroute := mkKroute { kr_gw : Addr; kr_oif : Z; kr_src : Addr }.
Record nlkernel := mkNlKernel { nk_links : gmap Z (string * Z); nk_routes : gmap (Z * Prefix) kroute; nk_rules : gset Rule }.

Definition slice_addr (b : bytes) : Addr := default AddrInvalid (AddrFromSlice b).
Definition net_prefix (d : IPNet) : Prefix := mkPrefix (slice_addr (in_IP d)) (in_ones d).
Definition route_key (nr : nlRoute) (d : IPNet) : Z * Prefix := (nr_Table nr, net_prefix d).
Definition kroute_of (nr : nlRoute) : kroute := mkKroute (slice_addr (nr_Gw nr)) (nr_LinkIndex nr) (slice_addr (nr_Src nr)).
Definition rule_of (nu : nlRule) : Rule :=
  mkRule (match nu_Src nu with Some d => net_prefix d | None => zeroPrefix end) (nu_IifName nu) (nu_Table nu) (nu_Priority nu)
    (if nu_Family nu =? AF_INET6 then FamilyV6 else FamilyV4).

Definition set_routes f v := mkNlKernel (nk_links v) (f (nk_routes v)) (nk_rules v).
Definition set_rules f v := mkNlKernel (nk_links v) (nk_routes v) (f (nk_rules v)).
Definition named (v : nlkernel) (name : string) : Prop := ∃ i x, nk_links v !! i = Some (name, x).
Definition no_such (e : nlerr) : Prop := e = LinkNotFound ∨ e = Errno ESRCH ∨ e = Errno ENOENT.

Class nlLaws (N : Type) `{nlHandle N} := {
  nl_view : N → nlkernel;
  LinkAdd_law : ∀ name parent ifID n e n', nl_LinkAdd name parent ifID n = (e, n') →
    match e with
    | Some _ => nl_view n' = nl_view n
    | None => ¬ named (nl_view n) name ∧ ∃ i, i ≠ 0 ∧ nk_links (nl_view n) !! i = None
        ∧ nl_view n' = mkNlKernel (<[i := (name, ifID)]> (nk_links (nl_view n))) (nk_routes (nl_view n)) (nk_rules (nl_view n))
    end;
  LinkDel_law : ∀ i n e n', nl_LinkDel i n = (e, n') →
    match e with
    | Some e => nl_view n' = nl_view n ∧ (no_such e → nk_links (nl_view n) !! i = None)
    | None => is_Some (nk_links (nl_view n) !! i)
        ∧ nl_view n' = mkNlKernel (delete i (nk_links (nl_view n))) (filter (λ kv, kr_oif kv.2 ≠ i) (nk_routes (nl_view n))) (nk_rules (nl_view n))
    end;
  LinkByName_law : ∀ name n,
    match nl_LinkByName name n with
    | Ok i => ∃ x, nk_links (nl_view n) !! i = Some (name, x)
    | Err e => e ≠ Errno EEXIST ∧ (no_such e → ¬ named (nl_view n) name)
    end;
  LinkSetUp_law : ∀ i n e n', nl_LinkSetUp i n = (e, n') → nl_view n' = nl_view n;
  AddrAdd_law : ∀ i d n e n', nl_AddrAdd i d n = (e, n') → nl_view n' = nl_view n;
  RouteAdd_law : ∀ nr d n e n', nr_Dst nr = Some d → nl_RouteAdd nr n = (e, n') →
    match e with
    | Some e => nl_view n' = nl_view n ∧ (e = Errno EEXIST → is_Some (nk_routes (nl_view n) !! route_key nr d))
    | None => nk_routes (nl_view n) !! route_key nr d = None ∧ nl_view n' = set_routes (<[route_key nr d := kroute_of nr]>) (nl_view n)
    end;
  RouteReplace_law : ∀ nr d n e n', nr_Dst nr = Some d → nl_RouteReplace nr n = (e, n') →
    nl_view n' = match e with Some _ => nl_view n | None => set_routes (<[route_key nr d := kroute_of nr]>) (nl_view n) end;
  RouteDel_law : ∀ nr d n e n', nr_Dst nr = Some d → nl_RouteDel nr n = (e, n') →
    match e with
    | Some e => nl_view n' = nl_view n ∧ (no_such e → nk_routes (nl_view n) !! route_key nr d ≠ Some (kroute_of nr))
    | None => is_Some (nk_routes (nl_view n) !! route_key nr d) ∧ nl_view n' = set_routes (delete (route_key nr d)) (nl_view n)
    end;
  RuleAdd_law : ∀ nu n e n', nl_RuleAdd nu n = (e, n') →
    match e with
    | Some _ => nl_view n' = nl_view n
    | None => rule_of nu ∉ nk_rules (nl_view n) ∧ nl_view n' = set_rules (λ s, {[rule_of nu]} ∪ s) (nl_view n)
    end;
  RuleDel_law : ∀ nu n e n', nl_RuleDel nu n = (e, n') →
    match e with
    | Some e => nl_view n' = nl_view n ∧ (no_such e → rule_of nu ∉ nk_rules (nl_view n))
    | None => rule_of nu ∈ nk_rules (nl_view n) ∧ nl_view n' = set_rules (λ s, s ∖ {[rule_of nu]}) (nl_view n)
    end;
}.

(** Names are unique and not empty, indexes not 0, and a route's device is there. *)
Record links_ok (v : nlkernel) : Prop := {
  lo_unique : ∀ i j name x y, nk_links v !! i = Some (name, x) → nk_links v !! j = Some (name, y) → i = j;
  lo_index : ∀ i name x, nk_links v !! i = Some (name, x) → i ≠ 0 ∧ name ≠ "";
  lo_route : ∀ k kr, nk_routes v !! k = Some kr → kr_oif kr = 0 ∨ is_Some (nk_links v !! kr_oif kr);
}.

(** ** The kernel as [Net] shows it *)

Definition dev_name (links : gmap Z (string * Z)) (i : Z) : string := match links !! i with Some (name, _) => name | None => "" end.
Definition route_of (links : gmap Z (string * Z)) (k : Z * Prefix) (kr : kroute) : Route :=
  mkRoute k.2 (unzoned (kr_gw kr)) (dev_name links (kr_oif kr)) (unzoned (kr_src kr)) k.1.
Definition names (links : gmap Z (string * Z)) : gmap string Z := list_to_map (map_to_list links).*2.

(** With the IKE side of [b]. *)
Definition shown (b : kernel) (v : nlkernel) : kernel :=
  mkKernel (names (nk_links v)) (map_imap (λ k kr, Some (route_of (nk_links v) k kr)) (nk_routes v)) (nk_rules v)
    (k_conns b) (k_secrets b) (k_sas b).

(** A call as the kernel keeps it: destinations masked, the main table by its
    number. *)
Definition norm_route (r : Route) : Route := mkRoute (Masked (r_Dst r)) (r_Gw r) (r_Dev r) (r_Src r) (route_table r).
Definition norm_rule (r : Rule) : Rule :=
  mkRule (if pf_IsValid (ru_Src r) then Masked (ru_Src r) else zeroPrefix) (ru_Iif r) (if ru_Table r =? 0 then MainTable else ru_Table r)
    (ru_Priority r) (rule_family r).
Definition norm_call (c : call) : call :=
  match c with
  | RouteAdd r => RouteAdd (norm_route r)
  | RouteReplace r => RouteReplace (norm_route r)
  | RouteDel r => RouteDel (norm_route r)
  | RuleAdd r => RuleAdd (norm_rule r)
  | RuleDel r => RuleDel (norm_rule r)
  | c => c
  end.

(** Addresses in range and without zones; families 4 and 6. *)
Definition zaddr_ok (a : ZAddr) : Prop := addr_ok (za_Addr a) ∧ za_Zone a = "".
Definition route_ok (r : Route) : Prop := addr_ok (pf_Addr (r_Dst r)) ∧ zaddr_ok (r_Gw r) ∧ zaddr_ok (r_Src r).
Definition rule_ok (r : Rule) : Prop := addr_ok (pf_Addr (ru_Src r)) ∧ (rule_family r = FamilyV4 ∨ rule_family r = FamilyV6).
Definition call_ok (c : call) : Prop :=
  match c with
  | RouteAdd r | RouteReplace r | RouteDel r => route_ok r
  | RuleAdd r | RuleDel r => rule_ok r
  | AddXfrmInterface name _ _ => name ≠ ""
  | _ => True
  end.

(** *** Conversions *)

Lemma slice_AsSlice a : addr_ok a → slice_addr (AsSlice a) = a.
Proof.
  destruct a as [|v|v]; cbn [addr_ok AsSlice]; intros Hv; [done|..]; unfold slice_addr, AddrFromSlice; rewrite length_be_put;
    cbn -[be_get be_put]; unfold AddrFrom4, AddrFrom16; f_equal; by eapply be_get_put.
Qed.

Lemma clear_low v n : 0 ≤ n → 0 ≤ v → 0 ≤ Z.shiftl (Z.shiftr v n) n ≤ v.
Proof.
  intros Hn Hv. rewrite Z.shiftl_mul_pow2, Z.shiftr_div_pow2 by done. pose proof (Z.pow_pos_nonneg 2 n). 
  pose proof (Z.div_pos v (2 ^ n)). pose proof (Z.mul_div_le v (2 ^ n)). nia.
Qed.

Lemma mask_ok a bits : 0 ≤ bits ≤ BitLen a → addr_ok a → addr_ok (mask_addr a bits).
Proof.
  destruct a as [|v|v]; cbn [addr_ok mask_addr BitLen]; intros Hb Hv; [done|..]; unfold fits in *;
    match goal with |- context [Z.shiftr _ ?n] => pose proof (clear_low v n) end; lia.
Qed.

Lemma net_prefix_to p : pf_IsValid p = true → addr_ok (pf_Addr p) → net_prefix (prefixToIPNet p) = Masked p.
Proof.
  intros Hp Ha. destruct (Masked_valid p Hp) as (E & Hb & _). unfold net_prefix, prefixToIPNet. rewrite E. cbn.
  by rewrite slice_AsSlice by by apply mask_ok.
Qed.

Lemma slice_zaddr a : zaddr_ok a → unzoned (slice_addr (if za_IsValid a then AsSlice (za_Addr a) else [])) = a.
Proof.
  intros [Ha Hz]. destruct a as [a z]. cbn in *. subst z. unfold za_IsValid. cbn. destruct a; cbn [addr_IsValid]; [done|..];
    unfold unzoned; f_equal; by apply slice_AsSlice.
Qed.

Lemma rule_of_to r : rule_ok r → rule_of (toNetlinkRule r) = norm_rule r.
Proof.
  intros [Ha Hf]. unfold rule_of, toNetlinkRule, norm_rule. cbn. f_equal.
  - destruct (pf_IsValid (ru_Src r)) eqn:E; [|done]. by apply net_prefix_to.
  - destruct Hf as [-> | ->]; done.
Qed.

(** *** Names *)

Lemma names_lookup v name x : links_ok v → names (nk_links v) !! name = Some x ↔ ∃ i, nk_links v !! i = Some (name, x).
Proof.
  intros [Hu _ _]. unfold names. rewrite <- elem_of_list_to_map.
  - rewrite list_elem_of_fmap. split.
    + intros ([i y] & E & Hin%elem_of_map_to_list). cbn in E. subst y. eauto.
    + intros [i Hi]. exists (i, (name, x)). split; [done|]. by apply elem_of_map_to_list.
  - rewrite <- list_fmap_compose. apply NoDup_fmap_2_strong; [|apply NoDup_map_to_list].
    intros [i [nm y]] [j [nm' y']] Hi%elem_of_map_to_list Hj%elem_of_map_to_list E. cbn in E. subst nm'.
    assert (i = j) as -> by eauto. by simplify_eq.
Qed.

Lemma names_None v name : links_ok v → names (nk_links v) !! name = None ↔ ¬ named v name.
Proof.
  intros Hv. rewrite eq_None_not_Some. unfold is_Some, named. setoid_rewrite names_lookup; [|done]. naive_solver.
Qed.

Lemma links_ok_of_maps v v' : links_ok v → nk_links v' ⊆ nk_links v → nk_routes v' = ∅ → links_ok v'.
Proof.
  intros [Hu Hi _] Hs He. split; [..|rewrite He; by intros k kr ?%lookup_empty_Some].
  - intros i j nm x y H1 H2. by eapply Hu; eapply lookup_weaken.
  - intros i nm x H1. by eapply Hi, lookup_weaken.
Qed.

Lemma names_insert v i name x : links_ok v → ¬ named v name → nk_links v !! i = None → i ≠ 0 → name ≠ "" →
  names (<[i := (name, x)]> (nk_links v)) = <[name := x]> (names (nk_links v)).
Proof.
  intros Hv Hn Hi Hi0 Hne. set (v' := mkNlKernel (<[i := (name, x)]> (nk_links v)) ∅ ∅).
  assert (links_ok v') as Hv'.
  { destruct Hv as [Hu Hx _]. split; cbn; [..|by intros k kr ?%lookup_empty_Some].
    - intros a b nm y z [[<- [= <- <-]]|[Ha Ea]]%lookup_insert_Some [[<- [= <-]]|[Hb Eb]]%lookup_insert_Some; try done; try (destruct Hn; unfold named; eauto; done).
      by eapply Hu.
    - intros a nm y [[<- [= <- <-]]|[Ha Ea]]%lookup_insert_Some; [done|]. by eapply Hx. }
  apply map_eq. intros nm. apply option_eq. intros y. change (<[i := (name, x)]> (nk_links v)) with (nk_links v').
  rewrite names_lookup by done. cbn. rewrite lookup_insert_Some, names_lookup by done. setoid_rewrite lookup_insert_Some. split.
  - intros (a & [[<- [= <- <-]]|[Ha Ea]]); [by left|]. right. split; [|by eauto]. intros ->. apply Hn. by eexists _, _.
  - intros [[-> ->]|[Hne' (a & Ea)]]; [by eauto|]. exists a. right. split; [|done]. intros ->. by simplify_map_eq.
Qed.

Lemma names_delete v i name x : links_ok v → nk_links v !! i = Some (name, x) → names (delete i (nk_links v)) = delete name (names (nk_links v)).
Proof.
  intros Hv Hi. set (v' := mkNlKernel (delete i (nk_links v)) ∅ ∅).
  assert (links_ok v') as Hv' by (apply (links_ok_of_maps v); [done|apply delete_subseteq|done]).
  apply map_eq. intros nm. apply option_eq. intros y. change (delete i (nk_links v)) with (nk_links v').
  rewrite names_lookup by done. cbn. rewrite lookup_delete_Some, names_lookup by done. setoid_rewrite lookup_delete_Some. split.
  - intros (a & Ha & Ea). split; [|by eauto]. intros ->. apply Ha. by apply (lo_unique v Hv i a nm x y).
  - intros (Hne & a & Ea). exists a. split; [|done]. intros ->. by simplify_eq.
Qed.

Lemma shown_lookup b v k : k_routes (shown b v) !! k = route_of (nk_links v) k <$> nk_routes v !! k.
Proof. cbn. rewrite map_lookup_imap. by destruct (nk_routes v !! k). Qed.

Lemma dev_name_0 v : links_ok v → dev_name (nk_links v) 0 = "".
Proof. intros Hv. unfold dev_name. destruct (nk_links v !! 0) as [[nm x]|] eqn:E; [|done]. by destruct (lo_index _ Hv _ _ _ E). Qed.

(** Adding a device changes no route's. *)
Lemma shown_link_add b v i name x : links_ok v → ¬ named v name → nk_links v !! i = None → i ≠ 0 → name ≠ "" →
  shown b (mkNlKernel (<[i := (name, x)]> (nk_links v)) (nk_routes v) (nk_rules v)) = with_links (<[name := x]>) (shown b v).
Proof.
  intros Hv Hn Hi H0 Hne. unfold shown, with_links. cbn. f_equal; [by apply names_insert|].
  apply map_eq. intros k. rewrite !map_lookup_imap. destruct (nk_routes v !! k) as [kr|] eqn:E; cbn; [|done]. unfold route_of, dev_name.
  do 2 f_equal. rewrite lookup_insert_ne; [done|]. intros Ei. destruct (lo_route _ Hv _ _ E) as [|[? ?]]; congruence.
Qed.

(** Removing one takes its routes, and no other's. *)
Lemma shown_link_del b v i name x : links_ok v → nk_links v !! i = Some (name, x) →
  shown b (mkNlKernel (delete i (nk_links v)) (filter (λ kv, kr_oif kv.2 ≠ i) (nk_routes v)) (nk_rules v)) = drop_link name (shown b v).
Proof.
  intros Hv Hi. unfold shown, drop_link, with_routes, with_links. cbn. f_equal; [by eapply names_delete|].
  apply map_eq. intros k. apply option_eq. intros r. rewrite map_lookup_imap, map_lookup_filter_Some, map_lookup_imap. cbn.
  assert (∀ kr, nk_routes v !! k = Some kr → dev_name (nk_links v) (kr_oif kr) = name ↔ kr_oif kr = i) as Hdev.
  { intros kr E. unfold dev_name. split; [|intros ->; by rewrite Hi]. destruct (nk_links v !! kr_oif kr) as [[nm y]|] eqn:El.
    - intros ->. by eapply lo_unique.
    - intros <-. by destruct (lo_index _ Hv _ _ _ Hi). }
  destruct (filter _ (nk_routes v) !! k) as [kr|] eqn:Ef; cbn.
  - apply map_lookup_filter_Some in Ef as [E Hne]. cbn in Hne. rewrite E. cbn.
    assert (route_of (delete i (nk_links v)) k kr = route_of (nk_links v) k kr) as ->.
    { unfold route_of, dev_name. by rewrite lookup_delete_ne. }
    split; [|by intros [? _]]. intros [= <-]. split; [done|]. cbn. by rewrite Hdev.
  - split; [done|]. intros [E Hne]. destruct (nk_routes v !! k) as [kr|] eqn:Ek; [|done]. cbn in E. simplify_eq. cbn in Hne.
    rewrite map_lookup_filter_None in Ef. destruct Ef as [|Ef]; [congruence|]. destruct Hne. apply Hdev; [done|].
    apply dec_stable. by apply (Ef kr).
Qed.

Lemma shown_insert b v k kr r : route_of (nk_links v) k kr = r → shown b (set_routes (<[k := kr]>) v) = with_routes (<[k := r]>) (shown b v).
Proof. intros <-. unfold shown, with_routes. cbn. f_equal. by rewrite (map_imap_insert_Some _ _ _ _ (route_of (nk_links v) k kr)). Qed.

Lemma shown_delete b v k : shown b (set_routes (delete k) v) = with_routes (delete k) (shown b v).
Proof. unfold shown, with_routes. cbn. f_equal. by rewrite map_imap_delete. Qed.

(** *** Errors *)

Lemma mapErr_exist msg e : is_ErrExist (ErrWrap msg (mapErr e)) = true → e = Errno EEXIST.
Proof.
  destruct e as [|n|]; cbn; try done. destruct (Z.eqb_spec n EEXIST) as [->|]; [done|]. by destruct (_ || _).
Qed.
Lemma mapErr_not_exist msg e : is_ErrNotExist (ErrWrap msg (mapErr e)) = true → no_such e.
Proof.
  unfold no_such. destruct e as [|n|]; cbn; [by left| |done]. destruct (Z.eqb_spec n EEXIST); [done|].
  destruct (Z.eqb_spec n ESRCH) as [->|]; [by auto|]. destruct (Z.eqb_spec n ENOENT) as [->|]; [by auto|done].
Qed.

Lemma route_table_norm r : route_table (norm_route r) = route_table r.
Proof. unfold norm_route, route_table. cbn. destruct (Z.eqb_spec (r_Table r) 0); [done|]. by destruct (Z.eqb_spec (r_Table r) 0). Qed.

Section refinement.
Context {N : Type} `{!nlHandle N, !nlLaws N} (b : kernel).

(** A route as netlink gets it is the route as the kernel keeps it. *)
Lemma toNetlinkRoute_ok r (n : N) nr : links_ok (nl_view n) → route_ok r → toNetlinkRoute r n = Ok nr →
  ∃ d, nr_Dst nr = Some d ∧ route_key nr d = rkey (norm_route r) ∧ route_of (nk_links (nl_view n)) (route_key nr d) (kroute_of nr) = norm_route r
    ∧ (nr_LinkIndex nr = 0 ∧ r_Dev r = "" ∨ r_Dev r ≠ "" ∧ ∃ x, nk_links (nl_view n) !! nr_LinkIndex nr = Some (r_Dev r, x)).
Proof.
  intros Hv (Hd & Hg & Hs). unfold toNetlinkRoute. destruct (pf_IsValid (r_Dst r)) eqn:Ev; [|done]. cbn [negb].
  assert (∀ i, (i = 0 ∧ r_Dev r = "" ∨ r_Dev r ≠ "" ∧ ∃ x, nk_links (nl_view n) !! i = Some (r_Dev r, x)) →
    let nr := mkNlRoute (Some (prefixToIPNet (r_Dst r))) (if za_IsValid (r_Gw r) then AsSlice (za_Addr (r_Gw r)) else [])
                (if za_IsValid (r_Src r) then AsSlice (za_Addr (r_Src r)) else []) i (route_table r) 0 in
    route_key nr (prefixToIPNet (r_Dst r)) = rkey (norm_route r) ∧
    route_of (nk_links (nl_view n)) (route_key nr (prefixToIPNet (r_Dst r))) (kroute_of nr) = norm_route r) as Hkey.
  { intros i Hi. cbn. assert (route_key (mkNlRoute (Some (prefixToIPNet (r_Dst r))) (if za_IsValid (r_Gw r) then AsSlice (za_Addr (r_Gw r)) else [])
      (if za_IsValid (r_Src r) then AsSlice (za_Addr (r_Src r)) else []) i (route_table r) 0) (prefixToIPNet (r_Dst r)) = rkey (norm_route r)) as ->.
    { unfold route_key, rkey. rewrite route_table_norm. cbn. by rewrite net_prefix_to. }
    split; [done|]. unfold route_of, rkey, kroute_of. cbn [kr_gw kr_oif kr_src nr_Gw nr_Src nr_LinkIndex fst snd].
    rewrite !slice_zaddr, route_table_norm by done. unfold norm_route. cbn. f_equal.
    destruct Hi as [[-> ->]|(_ & x & Hx)]; [by apply dev_name_0|]. unfold dev_name. by rewrite Hx. }
  destruct (String.eqb_spec (r_Dev r) "") as [Edev|Edev].
  - intros [= <-]. exists (prefixToIPNet (r_Dst r)). split; [done|]. cbn in Hkey. destruct (Hkey 0) as [? ?]; [by left|]. split_and!; auto.
  - unfold linkByName. pose proof (LinkByName_law (r_Dev r) n) as Hl. destruct (nl_LinkByName (r_Dev r) n) as [i|e]; [|done].
    intros [= <-]. exists (prefixToIPNet (r_Dst r)). split; [done|]. destruct (Hkey i) as [? ?]; [by right|]. split_and!; auto.
Qed.

Lemma toNetlinkRoute_err r (n : N) e : toNetlinkRoute r n = Err e →
  is_ErrExist e = false ∧ (is_ErrNotExist e = true → r_Dev r ≠ "" ∧ ¬ named (nl_view n) (r_Dev r)).
Proof.
  unfold toNetlinkRoute. destruct (pf_IsValid (r_Dst r)); [cbn [negb]|by intros [= <-]]. destruct (String.eqb_spec (r_Dev r) ""); [done|].
  unfold linkByName. pose proof (LinkByName_law (r_Dev r) n) as Hl. destruct (nl_LinkByName (r_Dev r) n) as [i|e0]; [done|].
  destruct Hl as [H1 H2]. intros [= <-]. split.
  - destruct (is_ErrExist _) eqn:E; [|done]. by apply mapErr_exist in E.
  - intros E%mapErr_not_exist. auto.
Qed.

Lemma shown_dev v k r : links_ok v → k_routes (shown b v) !! k = Some r → r_Dev r ≠ "" → named v (r_Dev r).
Proof.
  intros Hv. rewrite shown_lookup. destruct (nk_routes v !! k) as [kr|] eqn:E; [|done]. intros [= <-]. cbn. unfold dev_name, named.
  destruct (nk_links v !! kr_oif kr) as [[nm x]|] eqn:El; [eauto|done].
Qed.

(** The route netlink was asked to delete is the one shown. *)
Lemma shown_kroute r (n : N) nr d : links_ok (nl_view n) → toNetlinkRoute r n = Ok nr → nr_Dst nr = Some d →
  route_of (nk_links (nl_view n)) (route_key nr d) (kroute_of nr) = norm_route r →
  (nr_LinkIndex nr = 0 ∧ r_Dev r = "" ∨ r_Dev r ≠ "" ∧ ∃ x, nk_links (nl_view n) !! nr_LinkIndex nr = Some (r_Dev r, x)) →
  k_routes (shown b (nl_view n)) !! route_key nr d = Some (norm_route r) → nk_routes (nl_view n) !! route_key nr d = Some (kroute_of nr).
Proof.
  intros Hv _ _ Hr Hdev. rewrite shown_lookup. destruct (nk_routes (nl_view n) !! route_key nr d) as [kr|] eqn:E; [|done]. cbn [fmap option_fmap option_map]. intros Heq%(inj Some).
  f_equal. rewrite <- Hr in Heq. unfold route_of in Heq. cbn in Heq. injection Heq as Hg Hd Hs.
  assert (kr_oif kr = nr_LinkIndex nr) as Hoif.
  { assert (dev_name (nk_links (nl_view n)) (nr_LinkIndex nr) = r_Dev r) as Hn by (apply (f_equal r_Dev) in Hr; exact Hr). rewrite Hn in Hd.
    unfold dev_name in Hd. destruct (nk_links (nl_view n) !! kr_oif kr) as [[nm x]|] eqn:El.
    - subst nm. destruct (lo_index _ Hv _ _ _ El) as [_ Hne]. destruct Hdev as [[_ ?]|(_ & y & Hy)]; [done|]. by eapply lo_unique.
    - destruct Hdev as [[-> _]|(? & _)]; [|congruence]. destruct (lo_route _ Hv _ _ E) as [|[? ?]]; [done|congruence]. }
  destruct kr. cbn in *. unfold kroute_of. by f_equal.
Qed.

Definition effect (c : call) (e : option error) : kernel → kernel → Prop :=
  match e with None => ok_effect c | Some e => err_effect c e end.

Lemma with_link_spec name (n n' : N) f e c : links_ok (nl_view n) → with_link name f n = (e, n') →
  (∀ e, (is_ErrNotExist e = true → ¬ named (nl_view n) name) → is_ErrExist e = false → effect c (Some e) (shown b (nl_view n)) (shown b (nl_view n))) →
  (∀ i x, nk_links (nl_view n) !! i = Some (name, x) → f i n = (e, n') → effect c e (shown b (nl_view n)) (shown b (nl_view n'))) →
  effect c e (shown b (nl_view n)) (shown b (nl_view n')).
Proof.
  intros Hv H He Hf. unfold with_link, linkByName in H. pose proof (LinkByName_law name n) as Hl.
  destruct (nl_LinkByName name n) as [i|e0]; [destruct Hl as [x Hx]; eauto|]. simplify_eq. destruct Hl as [H1 H2]. apply He.
  - intros E%mapErr_not_exist. auto.
  - destruct (is_ErrExist _) eqn:E; [|done]. by apply mapErr_exist in E.
Qed.

Lemma wrapped_view msg (r : option nlerr * N) e n' : wrapped msg r = (e, n') →
  ∃ e0, r = (e0, n') ∧ match e0 with None => e = None | Some x => e = Some (ErrWrap msg (mapErr x)) end.
Proof. destruct r as [[x|] m]; intros [= <- <-]; [by exists (Some x)|by exists None]. Qed.

Lemma add_xfrm_effect name ifID underlay (n n' : N) e : links_ok (nl_view n) → name ≠ "" → nn_AddXfrmInterface name ifID underlay n = (e, n') →
  effect (AddXfrmInterface name ifID underlay) e (shown b (nl_view n)) (shown b (nl_view n')).
Proof.
  intros Hv Hne H. unfold nn_AddXfrmInterface in H. destruct (ifID =? 0); [by simplify_eq|].
  assert (∀ parent, wrapped ("ipsec: add xfrm interface " +:+ name) (nl_LinkAdd name parent ifID n) = (e, n') →
    effect (AddXfrmInterface name ifID underlay) e (shown b (nl_view n)) (shown b (nl_view n'))) as Hadd.
  { intros parent (e0 & E & He)%wrapped_view. apply LinkAdd_law in E. destruct e0; subst e; cbn; [by rewrite E|].
    destruct E as (Hn & i & Hi0 & Hi & ->). split; [by apply names_None|]. by apply shown_link_add. }
  destruct (String.eqb underlay ""); [by eapply Hadd|]. eapply (with_link_spec underlay); [done|exact H|done|]. intros i x _ E. exact (Hadd i E).
Qed.

Lemma delete_link_effect name (n n' : N) e : links_ok (nl_view n) → nn_DeleteLink name n = (e, n') →
  effect (DeleteLink name) e (shown b (nl_view n)) (shown b (nl_view n')).
Proof.
  intros Hv H. eapply with_link_spec; [done|exact H|..].
  - intros e0 He0 _. split; [done|]. intros Hx. by apply names_None, He0.
  - intros i x Hi (e0 & E & He)%wrapped_view. apply LinkDel_law in E. destruct e0; subst e; cbn.
    + destruct E as [-> Hno]. split; [done|]. intros Hx%(mapErr_not_exist ""). specialize (Hno Hx). congruence.
    + destruct E as [_ ->]. split; [exists x; apply names_lookup; eauto|by eapply shown_link_del].
Qed.

Lemma link_effect name f msg (n n' : N) e c : links_ok (nl_view n) →
  (∀ k, effect c e k k) → (∀ e0, effect c (Some e0) (shown b (nl_view n)) (shown b (nl_view n))) →
  (∀ i n e n', f i n = (e, n') → nl_view n' = nl_view n) → with_link name (λ i n, wrapped msg (f i n)) n = (e, n') →
  effect c e (shown b (nl_view n)) (shown b (nl_view n')).
Proof.
  intros Hv Hc Hc' Hf H. eapply with_link_spec; [done|exact H|by intros; apply Hc'|].
  intros i x Hi (e0 & E & He)%wrapped_view. apply Hf in E. rewrite E. apply Hc.
Qed.

Lemma with_route_spec msg f r (n n' : N) e c : links_ok (nl_view n) → route_ok r → with_route msg f r n = (e, n') →
  (∀ e, is_ErrExist e = false → (is_ErrNotExist e = true → k_routes (shown b (nl_view n)) !! rkey (norm_route r) ≠ Some (norm_route r)) →
     effect c (Some e) (shown b (nl_view n)) (shown b (nl_view n))) →
  (∀ nr d e0, nr_Dst nr = Some d → route_key nr d = rkey (norm_route r) →
     route_of (nk_links (nl_view n)) (route_key nr d) (kroute_of nr) = norm_route r →
     (k_routes (shown b (nl_view n)) !! rkey (norm_route r) = Some (norm_route r) → nk_routes (nl_view n) !! route_key nr d = Some (kroute_of nr)) →
     f nr n = (e0, n') → effect c ((λ x, ErrWrap msg (mapErr x)) <$> e0) (shown b (nl_view n)) (shown b (nl_view n'))) →
  effect c e (shown b (nl_view n)) (shown b (nl_view n')).
Proof.
  intros Hv Hr H He Hf. unfold with_route in H. destruct (toNetlinkRoute r n) as [nr|e0] eqn:E.
  - destruct (toNetlinkRoute_ok _ _ _ Hv Hr E) as (d & Hd & Hk & Hroute & Hdev). apply wrapped_view in H as (e0 & H & Heq).
    assert (e = (λ x, ErrWrap msg (mapErr x)) <$> e0) as -> by (by destruct e0). apply (Hf nr d e0); [done..| |done].
    intros Hs. rewrite <- Hk in Hs. by eapply shown_kroute.
  - destruct (toNetlinkRoute_err _ _ _ E) as [H1 H2]. simplify_eq. apply He; [done|]. intros Hn Hs. destruct (H2 Hn) as [Hne Hno].
    apply Hno. by eapply (shown_dev _ _ (norm_route r)).
Qed.

Lemma route_effects r (n n' : N) e : links_ok (nl_view n) → route_ok r →
  (nn_RouteAdd r n = (e, n') → effect (RouteAdd (norm_route r)) e (shown b (nl_view n)) (shown b (nl_view n'))) ∧
  (nn_RouteReplace r n = (e, n') → effect (RouteReplace (norm_route r)) e (shown b (nl_view n)) (shown b (nl_view n'))) ∧
  (nn_RouteDel r n = (e, n') → effect (RouteDel (norm_route r)) e (shown b (nl_view n)) (shown b (nl_view n'))).
Proof.
  intros Hv Hr. split_and!; intros H; (eapply with_route_spec; [done|exact Hr|exact H|..]).
  - intros e0 Hx _. split; [done|]. congruence.
  - intros nr d e0 Hd Hk Hroute _ E. apply (RouteAdd_law _ d) in E; [|done]. destruct e0 as [e0|]; cbn.
    + destruct E as [-> Hex]. split; [done|]. intros Hx%(mapErr_exist ""). specialize (Hex Hx). change (is_Some (k_routes (shown b (nl_view n)) !! rkey (norm_route r))).
      rewrite shown_lookup, <- Hk. destruct Hex as [? ->]. by eexists.
    + destruct E as [Hn ->]. split; [change (k_routes (shown b (nl_view n)) !! rkey (norm_route r) = None); by rewrite shown_lookup, <- Hk, Hn|].
      rewrite (shown_insert _ _ _ _ _ Hroute). by rewrite Hk.
  - done.
  - intros nr d e0 Hd Hk Hroute _ E. apply (RouteReplace_law _ d) in E; [|done]. destruct e0 as [e0|]; cbn; rewrite E; [done|].
    rewrite (shown_insert _ _ _ _ _ Hroute). by rewrite Hk.
  - intros e0 _ Hx. by split.
  - intros nr d e0 Hd Hk Hroute Hsame E. apply (RouteDel_law _ d) in E; [|done]. destruct e0 as [e0|]; cbn.
    + destruct E as [-> Hno]. split; [done|]. intros Hx%(mapErr_not_exist ""). intros Hs. by apply (Hno Hx), Hsame.
    + destruct E as [[kr Hkr] ->]. split; [|by rewrite shown_delete, Hk].
      change (is_Some (k_routes (shown b (nl_view n)) !! rkey (norm_route r))). rewrite shown_lookup, <- Hk, Hkr. by eexists.
Qed.

Lemma rule_effects r (n n' : N) e : rule_ok r →
  (nn_RuleAdd r n = (e, n') → effect (RuleAdd (norm_rule r)) e (shown b (nl_view n)) (shown b (nl_view n'))) ∧
  (nn_RuleDel r n = (e, n') → effect (RuleDel (norm_rule r)) e (shown b (nl_view n)) (shown b (nl_view n'))).
Proof.
  intros Hr. split; intros (e0 & E & He)%wrapped_view; [apply RuleAdd_law in E|apply RuleDel_law in E]; rewrite rule_of_to in E by done;
    destruct e0 as [e0|]; subst e; cbn.
  - by rewrite E.
  - destruct E as [Hn ->]. by split.
  - destruct E as [-> Hno]. split; [done|]. intros Hx%(mapErr_not_exist ""). auto.
  - destruct E as [Hin ->]. by split.
Qed.

End refinement.

(** ** Reading *)

Lemma best_default_spec routes : ∀ best, (∀ b, best = Some b → is_default b = true) →
  match best_default best routes with
  | Some nr => is_default nr = true ∧ (Some nr = best ∨ nr ∈ routes)
      ∧ (∀ b, best = Some b → nr_Priority nr ≤ nr_Priority b) ∧ ∀ rt, rt ∈ routes → is_default rt = true → nr_Priority nr ≤ nr_Priority rt
  | None => best = None ∧ ∀ rt, rt ∈ routes → is_default rt = false
  end.
Proof.
  induction routes as [|rt routes IH]; intros best Hb; cbn [best_default].
  - destruct best as [x|]; [|split; [done|by intros ? ?%elem_of_nil]]. split_and!; [by apply Hb|by left|by intros ? [= <-]|by intros ? ?%elem_of_nil].
  - destruct (is_default rt) eqn:Ed; cbn [negb].
    2: { specialize (IH best Hb). destruct (best_default best routes) as [nr|].
         - destruct IH as (H1 & H2 & H3 & H4). split_and!; [done|destruct H2; [by left|right; by right]|done|].
           intros x [->|Hx]%elem_of_cons Hd; [congruence|]. auto.
         - destruct IH as [-> H]. split; [done|]. intros x [->|Hx]%elem_of_cons; auto. }
    destruct (match best with None => true | Some b => nr_Priority rt <? nr_Priority b end) eqn:Ec.
    + specialize (IH (Some rt) ltac:(by intros ? [= <-])). destruct (best_default (Some rt) routes) as [nr|]; [|by destruct IH].
      destruct IH as (H1 & H2 & H3 & H4). specialize (H3 rt eq_refl). split_and!; [done|right; destruct H2 as [[= ->]|]; [by left|by right]| |].
      * intros x ->. apply Z.ltb_lt in Ec. lia.
      * intros x [->|Hx]%elem_of_cons Hd; auto.
    + specialize (IH best Hb). destruct best as [x|]; [|done]. apply Z.ltb_ge in Ec. destruct (best_default (Some x) routes) as [nr|]; [|by destruct IH].
      destruct IH as (H1 & H2 & H3 & H4). specialize (H3 x eq_refl). split_and!; [done|destruct H2; [by left|right; by right]|by intros ? [= <-]|].
      intros y [->|Hy]%elem_of_cons Hd; [lia|auto].
Qed.

Section reading.
Context {N : Type} `{!nlHandle N, !nlLaws N}.

Lemma ipToAddr_AsSlice a : addr_ok a → Is4In6 a = false → ipToAddr (AsSlice a) = a.
Proof.
  intros Ha Hm. destruct a as [|v|v]; [done|..]; unfold ipToAddr, AsSlice, AddrFromSlice; rewrite length_be_put; cbn -[be_get be_put Unmap];
    unfold AddrFrom4, AddrFrom16; rewrite (be_get_put _ _ _ Ha) by done; unfold Unmap; cbn [addr_IsValid]; [done|]. by rewrite Hm.
Qed.

Lemma ipToAddr_zaddr a : zaddr_ok a → Is4In6 (za_Addr a) = false → unzoned (ipToAddr (if za_IsValid a then AsSlice (za_Addr a) else [])) = a.
Proof.
  intros [Ha Hz] Hm. destruct a as [a z]. cbn in *. subst z. unfold za_IsValid. cbn.
  destruct a; cbn [addr_IsValid]; [done|..]; unfold unzoned; f_equal; by apply ipToAddr_AsSlice.
Qed.

(** A route read back from the kernel is the route that was installed: for
    addresses that are not IPv4-mapped, turning a route into netlink's form and
    back gives it in normal form, provided its device, if it has one, goes by
    the same name and index in both directions. *)
Theorem netlink_route_roundtrip r (n : N) nr :
  route_ok r → Is4In6 (pf_Addr (Masked (r_Dst r))) = false → Is4In6 (za_Addr (r_Gw r)) = false → Is4In6 (za_Addr (r_Src r)) = false →
  (∀ i, nl_LinkByName (r_Dev r) n = Ok i → i ≠ 0 ∧ nl_LinkByIndex i n = Ok (r_Dev r)) →
  toNetlinkRoute r n = Ok nr → fromNetlinkRoute nr n = Ok (norm_route r).
Proof.
  intros (Hd & Hg & Hs) Hm1 Hm2 Hm3 Hl. unfold toNetlinkRoute. destruct (pf_IsValid (r_Dst r)) eqn:Ev; [|done]. cbn [negb].
  assert (default zeroPrefix (ipNetToPrefix (prefixToIPNet (r_Dst r))) = Masked (r_Dst r)) as Hdst.
  { destruct (Masked_valid _ Ev) as (E & Hb & Ha). unfold ipNetToPrefix, prefixToIPNet. cbn [in_IP in_bits in_ones].
    assert (addr_ok (pf_Addr (Masked (r_Dst r)))) as Hok by (rewrite E; by apply mask_ok).
    rewrite (ipToAddr_AsSlice _ Hok Hm1), Z.eqb_refl. assert (addr_IsValid (pf_Addr (Masked (r_Dst r))) = true) as ->.
    { rewrite E. cbn. by destruct (pf_Addr (r_Dst r)). }
    cbn. by destruct (Masked (r_Dst r)). }
  destruct (String.eqb_spec (r_Dev r) "") as [E0|E0].
  - intros [= <-]. unfold fromNetlinkRoute. cbn [nr_Dst nr_Gw nr_Src nr_LinkIndex nr_Table Z.eqb]. rewrite Hdst, !ipToAddr_zaddr by done.
    unfold norm_route. by rewrite E0.
  - unfold linkByName. destruct (nl_LinkByName (r_Dev r) n) as [i|] eqn:El; [|done]. destruct (Hl i eq_refl) as [Hi Hback].
    intros [= <-]. unfold fromNetlinkRoute. cbn [nr_Dst nr_Gw nr_Src nr_LinkIndex nr_Table]. apply Z.eqb_neq in Hi. rewrite Hi, Hback, Hdst, !ipToAddr_zaddr by done.
    done.
Qed.
End reading.

(** ** A kernel *)

Module NetlinkDemo.

Definition find_link (name : string) (v : nlkernel) : option Z := (λ p, p.2.1) <$> list_find (λ p, p.2.1 = name) (map_to_list (nk_links v)).
Lemma find_link_Some name v i : find_link name v = Some i → ∃ x, nk_links v !! i = Some (name, x).
Proof.
  unfold find_link. destruct (list_find _ _) as [[k [j [nm x]]]|] eqn:E; [|done]. intros [= <-].
  apply list_find_Some in E as (Hk & Hn & _). cbn in Hn. subst nm. exists x. apply elem_of_map_to_list. by eapply list_elem_of_lookup_2.
Qed.
Lemma find_link_None name v : find_link name v = None → ¬ named v name.
Proof.
  unfold find_link. destruct (list_find _ _) as [[k p]|] eqn:E; [done|]. intros _ (i & x & Hi).
  apply list_find_None in E. rewrite Forall_forall in E. by apply (E (i, (name, x))); [apply elem_of_map_to_list|].
Qed.

Definition fail (e : nlerr) (v : nlkernel) : option nlerr * nlkernel := (Some e, v).
Definition on_route (f : IPNet → option nlerr * nlkernel) (nr : nlRoute) (v : nlkernel) : option nlerr * nlkernel :=
  match nr_Dst nr with Some d => f d | None => fail (NlOther "no destination") v end.

#[export] Instance kernel_handle : nlHandle nlkernel := {
  nl_LinkAdd name _ ifID v :=
    match find_link name v with
    | Some _ => fail (Errno EEXIST) v
    | None => (None, mkNlKernel (<[fresh ({[0]} ∪ dom (nk_links v)) := (name, ifID)]> (nk_links v)) (nk_routes v) (nk_rules v))
    end;
  nl_LinkDel i v :=
    match nk_links v !! i with
    | None => fail LinkNotFound v
    | Some _ => (None, mkNlKernel (delete i (nk_links v)) (filter (λ kv, kr_oif kv.2 ≠ i) (nk_routes v)) (nk_rules v))
    end;
  nl_LinkByName name v := match find_link name v with Some i => Ok i | None => Err LinkNotFound end;
  nl_LinkByIndex i v := match nk_links v !! i with Some (name, _) => Ok name | None => Err LinkNotFound end;
  nl_LinkSetUp _ v := (None, v);
  nl_AddrAdd _ _ v := (None, v);
  nl_RouteAdd nr v := on_route (λ d,
    match nk_routes v !! route_key nr d with
    | Some _ => fail (Errno EEXIST) v
    | None => (None, set_routes (<[route_key nr d := kroute_of nr]>) v)
    end) nr v;
  nl_RouteReplace nr v := on_route (λ d, (None, set_routes (<[route_key nr d := kroute_of nr]>) v)) nr v;
  nl_RouteDel nr v := on_route (λ d,
    match nk_routes v !! route_key nr d with
    | Some _ => (None, set_routes (delete (route_key nr d)) v)
    | None => fail (Errno ESRCH) v
    end) nr v;
  nl_RouteGet _ v := Ok [];
  nl_RouteListFiltered _ _ v := Ok [];
  nl_RuleAdd nu v := if decide (rule_of nu ∈ nk_rules v) then fail (Errno EEXIST) v else (None, set_rules (λ s, {[rule_of nu]} ∪ s) v);
  nl_RuleDel nu v := if decide (rule_of nu ∈ nk_rules v) then (None, set_rules (λ s, s ∖ {[rule_of nu]}) v) else fail (Errno ENOENT) v;
  nl_XfrmStateList v := Ok [];
}.

#[export] Instance kernel_laws : nlLaws nlkernel.
Proof.
  refine {| nl_view v := v |}; unfold on_route, fail.
  - intros name parent ifID v e v'. cbn. destruct (find_link name v) eqn:E; intros [= <- <-]; [done|]. apply find_link_None in E. split; [done|].
    pose proof (is_fresh ({[0]} ∪ dom (nk_links v))) as Hf. set (i := fresh _) in *. exists i. split_and!; [set_solver|apply not_elem_of_dom; set_solver|done].
  - intros i v e v'. cbn. destruct (nk_links v !! i) eqn:E; intros [= <- <-]; [by split|]. by split.
  - intros name v. cbn. destruct (find_link name v) eqn:E; [by apply find_link_Some|]. split; [done|]. intros _. by apply find_link_None.
  - by intros i v e v' [= _ <-].
  - by intros i d v e v' [= _ <-].
  - intros nr d v e v' Hd. cbn. unfold on_route, fail. rewrite Hd. destruct (nk_routes v !! route_key nr d) eqn:E; intros [= <- <-]; [|done]. split; [done|]. by eexists.
  - intros nr d v e v' Hd. cbn. unfold on_route. rewrite Hd. by intros [= <- <-].
  - intros nr d v e v' Hd. cbn. unfold on_route, fail. rewrite Hd. destruct (nk_routes v !! route_key nr d) eqn:E; intros [= <- <-]; [split; [by eexists|done]|].
    split; [done|]. congruence.
  - intros nu v e v'. cbn. unfold fail. case_decide; by intros [= <- <-].
  - intros nu v e v'. cbn. unfold fail. case_decide; by intros [= <- <-].
Defined.

Definition bare : kernel := mkKernel ∅ ∅ ∅ ∅ ∅ [].
Definition k0 : nlkernel := mkNlKernel {[1 := ("lo", 0); 2 := ("eth0", 0)]} ∅ ∅.
Definition k1 : nlkernel := (nn_AddXfrmInterface "ipsec7" 7 "eth0" k0).2.
Definition half : Route := mkRoute (mkPrefix (Addr4 (2 ^ 31 + 5)) 1) noAddr "ipsec7" noAddr 0.
Definition k2 : nlkernel := (nn_RouteAdd half k1).2.

(** The route is there, masked, in the main table; deleting the device takes
    it away. *)
Example installed : k_routes (shown bare k2) !! (254, mkPrefix (Addr4 (2 ^ 31)) 1) = Some (norm_route half)
  ∧ nk_routes (nn_DeleteLink "ipsec7" k2).2 = ∅ ∧ (nn_RouteAdd half k2).1 = Some (ErrWrap "ipsec: add route" (mapErr (Errno EEXIST))).
Proof. vm_compute. by split_and!. Qed.

Lemma k1_ok : links_ok k1.
Proof.
  assert (∀ i p, nk_links k1 !! i = Some p → (i, p) ∈ [(1, ("lo", 0)); (2, ("eth0", 0)); (3, ("ipsec7", 7))]) as Hall.
  { intros i p H. apply elem_of_map_to_list in H. revert H. vm_compute. set_solver. }
  split; [..|by intros k kr ?].
  - intros i j name x y H1%Hall H2%Hall. set_solver.
  - intros i name x H%Hall. repeat apply elem_of_cons in H as [[= -> -> ->]|H]; try done; by apply elem_of_nil in H.
Qed.


Lemma netlink_route_roundtrip_witness :
  match toNetlinkRoute half k1 with Ok nr => fromNetlinkRoute nr k1 = Ok (norm_route half) | Err _ => False end.
Proof.
  destruct (toNetlinkRoute half k1) as [nr|e] eqn:E; [|by vm_compute in E].
  refine (netlink_route_roundtrip half k1 nr _ _ _ _ _ E); try (vm_compute; reflexivity).
  - unfold route_ok, zaddr_ok, fits. cbn. split_and!; try done; lia.
  - intros i. vm_compute. by intros [= <-].
Defined.

End NetlinkDemo.
