(* ===== verification/Metrics.v ===== *)
(** * Metrics: internal/telemetry/metrics.go

    What a scrape of each process returns, and what its counters count. The
    Prometheus registry is what checks the result of a scrape: it refuses one
    with a metric that was not described, has a wrong number of labels, or
    comes twice ([gather_ok]). *)

From S2P Require Import Prelude GoFloat GoStrings Cost FlapGuard Services Api Netip Rib Decider ClientAgent.
Import Membership.

(** ** Shared *)

Record Desc := mkDesc { d_name : string; d_labels : list string }.
#[export] Instance Desc_eq_dec : EqDecision Desc.
Proof. solve_decision. Defined.
Record Metric := mkMetric { m_desc : Desc; m_value : float64; m_labels : list string }.

Definition desc (name : string) (labels : list string) : Desc := mkDesc ("egressa_" +:+ name) labels.
Definition gauge (d : Desc) (v : float64) (labels : list string) : list Metric := [mkMetric d v labels].

Definition seconds (micros : float64) : float64 := fdiv micros (of_int 1000000).
Definition boolFloat (b : bool) : float64 := if b then f1 else f0.
Definition finite (f : float64) : bool := negb (IsInf f 0) && negb (IsNaN f).
Fixpoint pick (v : string) (allowed : list string) : string :=
  match allowed with [] => "unknown" | a :: allowed => if String.eqb v a then v else pick v allowed end.

(** A CounterVec: its series by label values. *)
Abbreviation CounterVec := (gmap (list string) Z).
Definition WithLabelValues (labels : list string) (c : CounterVec) : CounterVec := <[labels := default 0 (c !! labels)]> c.
Definition Inc (labels : list string) (c : CounterVec) : CounterVec := <[labels := default 0 (c !! labels) + 1]> c.
Definition create_all (series : list (list string)) : CounterVec := fold_left (λ c l, WithLabelValues l c) series ∅.
(** A HistogramVec: the values observed in each series. *)
Abbreviation HistogramVec := (gmap (list string) (list Z)).
Definition Observe (labels : list string) (d : Z) (h : HistogramVec) : HistogramVec := <[labels := default [] (h !! labels) ++ [d]]> h.

(** snapshotCollector.Collect *)
Definition Collect {T} (emit : T → list Metric) (snap : option T) : list Metric := match snap with Some s => emit s | None => [] end.

(** ** The client *)

Definition CauseExternal : string := "external".
Definition ResultCommitted : string := "committed".
Definition ResultConflict : string := "conflict".
Definition ResultFailed : string := "failed".
Definition clientOutcomes : list string := [OutcomeStay; OutcomeConfirming; OutcomeMigrate; OutcomeNoAlternative].
Definition clientCauses : list string := [CauseBetterPath; CauseAccessDead; CauseEgressChange; CauseExternal].
Definition clientResults : list string := [ResultCommitted; ResultConflict; ResultFailed].

Record SegmentSample := mkSegSample {
  sg_Gateway : string; sg_P50Micros : float64; sg_P95Micros : float64; sg_LossRatio : float64; sg_Confidence : float64; sg_Samples : Z }.
Record PathSample := mkPathSample {
  ps_Access : string; ps_Egress : string; ps_CostMicros : float64; ps_Usable : bool; ps_Reachable : bool;
  ps_DeltaLowerMicros : float64; ps_HasDelta : bool }.
Record ClientSnapshot := mkClientSnapshot {
  cs_Segments : list SegmentSample; cs_Paths : list PathSample; cs_ThresholdMicros : float64;
  cs_ActiveAccess : string; cs_ActiveEgress : string; cs_Epoch : Z; cs_CurrentDead : bool; cs_ControllerUp : bool }.

Definition segRTT : Desc := desc "client_segment_rtt_seconds" ["gateway"; "percentile"].
Definition segLoss : Desc := desc "client_segment_loss_ratio" ["gateway"].
Definition segConf : Desc := desc "client_segment_confidence" ["gateway"].
Definition cost_desc : Desc := desc "client_path_cost_seconds" ["access"; "egress"].
Definition usable : Desc := desc "client_path_usable" ["access"; "egress"].
Definition reachable : Desc := desc "client_path_reachable" ["access"; "egress"].
Definition delta : Desc := desc "client_path_delta_lower_seconds" ["access"; "egress"].
Definition threshold : Desc := desc "client_decision_threshold_seconds" [].
Definition active : Desc := desc "client_active_path" ["access"; "egress"].
Definition epoch : Desc := desc "client_session_epoch" [].
Definition dead : Desc := desc "client_current_path_dead" [].
Definition ctlUp : Desc := desc "client_controller_up" [].
Definition client_descs : list Desc :=
  [segRTT; segLoss; segConf; cost_desc; usable; reachable; delta; threshold; active; epoch; dead; ctlUp].

Definition emit_segment (g : SegmentSample) : list Metric :=
  gauge segConf (sg_Confidence g) [sg_Gateway g]
  ++ (if sg_Samples g =? 0 then [] else
      gauge segRTT (seconds (sg_P50Micros g)) [sg_Gateway g; "50"] ++ gauge segRTT (seconds (sg_P95Micros g)) [sg_Gateway g; "95"]
      ++ gauge segLoss (sg_LossRatio g) [sg_Gateway g]).

Definition isActive (s : ClientSnapshot) (p : PathSample) : bool :=
  String.eqb (ps_Access p) (cs_ActiveAccess s) && String.eqb (ps_Egress p) (cs_ActiveEgress s).
Definition emit_path (s : ClientSnapshot) (p : PathSample) : list Metric :=
  let labels := [ps_Access p; ps_Egress p] in
  (if ps_Usable p && finite (ps_CostMicros p) then gauge cost_desc (seconds (ps_CostMicros p)) labels else [])
  ++ gauge usable (boolFloat (ps_Usable p && finite (ps_CostMicros p))) labels
  ++ gauge reachable (boolFloat (ps_Reachable p)) labels
  ++ (if ps_HasDelta p && finite (ps_DeltaLowerMicros p) then gauge delta (seconds (ps_DeltaLowerMicros p)) labels else [])
  ++ gauge active (boolFloat (isActive s p)) labels.

Definition emit_client (s : ClientSnapshot) : list Metric :=
  let activeSeen := existsb (isActive s) (cs_Paths s) in
  (cs_Segments s ≫= emit_segment) ++ (cs_Paths s ≫= emit_path s)
  ++ (if negb activeSeen && negb (String.eqb (cs_ActiveAccess s) "") then gauge active f1 [cs_ActiveAccess s; cs_ActiveEgress s] else [])
  ++ gauge threshold (seconds (cs_ThresholdMicros s)) [] ++ gauge epoch (of_int (cs_Epoch s)) []
  ++ gauge dead (boolFloat (cs_CurrentDead s)) [] ++ gauge ctlUp (boolFloat (cs_ControllerUp s)) [].

Record ClientMetrics := mkClientMetrics {
  cm_snap : option ClientSnapshot; cm_decisions : CounterVec; cm_migrations : CounterVec; cm_duration : HistogramVec }.
Definition NewClientMetrics : ClientMetrics :=
  mkClientMetrics None (create_all ((λ o, [o]) <$> clientOutcomes))
    (create_all (clientCauses ≫= λ c, (λ res, [c; res]) <$> clientResults)) ∅.

Inductive client_event := CSnapshot (s : ClientSnapshot) | CDecision (outcome : string) | CMigration (cause result : string)
| CDuration (cause : string) (d : Z).

(** SetSnapshot, Decision, Migration and MigrationDuration; a nil receiver
    records nothing. *)
Definition client_record (e : client_event) (m : option ClientMetrics) : option ClientMetrics :=
  match m with
  | None => None
  | Some m => Some
      match e with
      | CSnapshot s => mkClientMetrics (Some s) (cm_decisions m) (cm_migrations m) (cm_duration m)
      | CDecision outcome => mkClientMetrics (cm_snap m) (Inc [pick outcome clientOutcomes] (cm_decisions m)) (cm_migrations m) (cm_duration m)
      | CMigration cause result =>
          mkClientMetrics (cm_snap m) (cm_decisions m) (Inc [pick cause clientCauses; pick result clientResults] (cm_migrations m)) (cm_duration m)
      | CDuration cause d => mkClientMetrics (cm_snap m) (cm_decisions m) (cm_migrations m) (Observe [pick cause clientCauses] d (cm_duration m))
      end
  end.

(** ** The gateway *)

Definition ReportOK : string := "ok".
Definition ReportError : string := "error".
Definition reportResults : list string := [ReportOK; ReportError].

Record BackboneSample := mkBackboneSample {
  bs_Peer : string; bs_P50Micros : float64; bs_P95Micros : float64; bs_LossRatio : float64; bs_Samples : Z; bs_Up : bool }.
Record GatewaySnapshot := mkGatewaySnapshot {
  gs_Backbones : list BackboneSample; gs_AccessSessions : Z; gs_EgressSessions : Z; gs_StateVersion : Z; gs_ControllerUp : bool }.

Definition rtt : Desc := desc "gateway_backbone_rtt_seconds" ["peer"; "percentile"].
Definition loss : Desc := desc "gateway_backbone_loss_ratio" ["peer"].
Definition up : Desc := desc "gateway_backbone_up" ["peer"].
Definition sessions : Desc := desc "gateway_sessions" ["role"].
Definition version : Desc := desc "gateway_state_version" [].
Definition gw_ctlUp : Desc := desc "gateway_controller_up" [].
Definition gateway_descs : list Desc := [rtt; loss; up; sessions; version; gw_ctlUp].

Definition emit_backbone (b : BackboneSample) : list Metric :=
  gauge up (boolFloat (bs_Up b)) [bs_Peer b]
  ++ (if bs_Samples b =? 0 then [] else
      gauge rtt (seconds (bs_P50Micros b)) [bs_Peer b; "50"] ++ gauge rtt (seconds (bs_P95Micros b)) [bs_Peer b; "95"]
      ++ gauge loss (bs_LossRatio b) [bs_Peer b]).
Definition emit_gateway (s : GatewaySnapshot) : list Metric :=
  (gs_Backbones s ≫= emit_backbone)
  ++ gauge sessions (of_int (gs_AccessSessions s)) ["access"] ++ gauge sessions (of_int (gs_EgressSessions s)) ["egress"]
  ++ gauge version (of_int (gs_StateVersion s)) [] ++ gauge gw_ctlUp (boolFloat (gs_ControllerUp s)) [].

Record GatewayMetrics := mkGatewayMetrics { gm_snap : option GatewaySnapshot; gm_fenced : Z; gm_applyErrors : Z; gm_reports : CounterVec }.
Definition NewGatewayMetrics : GatewayMetrics := mkGatewayMetrics None 0 0 (create_all ((λ r, [r]) <$> reportResults)).

Inductive gateway_event := GSnapshot (s : GatewaySnapshot) | GFenced | GApplyError | GLinkReport (result : string).
Definition gateway_record (e : gateway_event) (m : option GatewayMetrics) : option GatewayMetrics :=
  match m with
  | None => None
  | Some m => Some
      match e with
      | GSnapshot s => mkGatewayMetrics (Some s) (gm_fenced m) (gm_applyErrors m) (gm_reports m)
      | GFenced => mkGatewayMetrics (gm_snap m) (u64 (gm_fenced m + 1)) (gm_applyErrors m) (gm_reports m)
      | GApplyError => mkGatewayMetrics (gm_snap m) (gm_fenced m) (gm_applyErrors m + 1) (gm_reports m)
      | GLinkReport result => mkGatewayMetrics (gm_snap m) (gm_fenced m) (gm_applyErrors m) (Inc [pick result reportResults] (gm_reports m))
      end
  end.

(** ** The controller *)

Definition MigrationCommitted : string := "committed".
Definition MigrationConflict : string := "conflict".
Definition MigrationRejected : string := "rejected".
Definition MigrationError : string := "error".
Definition controllerResults : list string := [MigrationCommitted; MigrationConflict; MigrationRejected; MigrationError].

Record ControllerSnapshot := mkControllerSnapshot { ks_GatewaysAlive : Z; ks_GatewaysDown : Z; ks_Sessions : Z; ks_StateVersion : Z }.

Definition gateways : Desc := desc "controller_gateways" ["alive"].
Definition ctl_sessions : Desc := desc "controller_sessions" [].
Definition ctl_version : Desc := desc "controller_state_version" [].
Definition controller_descs : list Desc := [gateways; ctl_sessions; ctl_version].
Definition emit_controller (s : ControllerSnapshot) : list Metric :=
  gauge gateways (of_int (ks_GatewaysAlive s)) ["true"] ++ gauge gateways (of_int (ks_GatewaysDown s)) ["false"]
  ++ gauge ctl_sessions (of_int (ks_Sessions s)) [] ++ gauge ctl_version (of_int (ks_StateVersion s)) [].

Record ControllerMetrics := mkControllerMetrics {
  km_snap : option ControllerSnapshot; km_requests : CounterVec; km_duration : HistogramVec; km_migrations : CounterVec }.
Definition NewControllerMetrics : ControllerMetrics :=
  mkControllerMetrics None ∅ ∅ (create_all ((λ r, [r]) <$> controllerResults)).

(** statusRecorder, and the two calls a handler makes on it. *)
Inductive reply := WriteHeader (code : Z) | WriteBody (b : string).
Definition record_reply (code : Z) (r : reply) : Z :=
  match r with
  | WriteHeader c => if code =? 0 then c else code
  | WriteBody _ => if code =? 0 then 200 else code
  end.

Inductive controller_event := KSnapshot (s : ControllerSnapshot) | KMigration (result : string)
| KRequest (pattern : string) (replies : list reply) (elapsed : Z).

(** [KRequest] is Middleware's handler for a request the mux matched to
    [pattern] and [next] answered with [replies]. *)
Definition controller_record (longPoll : list string) (e : controller_event) (m : option ControllerMetrics) : option ControllerMetrics :=
  match m with
  | None => None
  | Some m => Some
      match e with
      | KSnapshot s => mkControllerMetrics (Some s) (km_requests m) (km_duration m) (km_migrations m)
      | KMigration result => mkControllerMetrics (km_snap m) (km_requests m) (km_duration m) (Inc [pick result controllerResults] (km_migrations m))
      | KRequest pattern replies elapsed =>
          let route := if String.eqb pattern "" then "unmatched" else pattern in
          let code := fold_left record_reply replies 0 in
          let code := if code =? 0 then 200 else code in
          let requests := Inc [route; Itoa code] (km_requests m) in
          mkControllerMetrics (km_snap m) requests
            (if bool_decide (route ∈ longPoll) then km_duration m else Observe [route] elapsed (km_duration m)) (km_migrations m)
      end
  end.

(** ** The client's snapshot: publish of internal/client/agent.go *)

Section publish.
Context {W : Type} `{!AgentEnv W}.

Definition segment_sample (w : W) (id : string) : list SegmentSample :=
  match mon_Stats id w with
  | None => []
  | Some (st, _) => [mkSegSample id (P50Micros st) (P95Micros st) (LossRate st) (Confidence st) (N st)]
  end.
Definition path_sample (evals : list PathEval) (i : nat) (p : Path) : PathSample :=
  let measured := forallb (λ seg, N seg >? 0) (pa_Segments p) in
  match evals !! i with
  | None => mkPathSample (pa_Access p) (pa_Egress p) f0 false (Reachable p) f0 false
  | Some ev => mkPathSample (pa_Access p) (pa_Egress p) (ev_Cost ev) (measured && negb (IsInf (ev_Cost ev) 0)) (Reachable p)
                 (d_Lower (ev_Delta ev)) (HasDelta ev)
  end.
Definition publish (sess : ApiSession) (accessIDs : list string) (paths : list Path) (dead : bool) (dec : Decision) (controllerUp : bool)
    (w : W) : ClientSnapshot :=
  mkClientSnapshot (accessIDs ≫= segment_sample w) (imap (path_sample (Evals dec)) paths) (Threshold dec)
    (s_Access sess) (s_Egress sess) (s_Epoch sess) dead controllerUp.
End publish.

(** The gateway's: publish of internal/gateway/agent.go. [backbones] says which
    are up, [stats] is the monitor. *)
Definition backbone_sample (stats : string → option SegmentStats) (peer : string * bool) : BackboneSample :=
  match stats peer.1 with
  | Some st => mkBackboneSample peer.1 (P50Micros st) (P95Micros st) (LossRate st) (N st) peer.2
  | None => mkBackboneSample peer.1 f0 f0 f0 0 peer.2
  end.
Definition gw_publish `{!Range} (backbones : gmap string bool) (stats : string → option SegmentStats) (accessSessions egressSessions stateVersion : Z)
    (controllerUp : bool) : GatewaySnapshot :=
  mkGatewaySnapshot (backbone_sample stats <$> range backbones) accessSessions egressSessions stateVersion controllerUp.

(** ** What the registry accepts *)

Definition series (m : Metric) : Desc * list string := (m_desc m, m_labels m).
Definition gather_ok (descs : list Desc) (ms : list Metric) : Prop :=
  Forall (λ m, m_desc m ∈ descs ∧ length (m_labels m) = length (d_labels (m_desc m))) ms ∧ NoDup (series <$> ms).

Lemma NoDup_series_bind {A} (key : A → list string) n (f : A → list Metric) l :
  (∀ x, length (key x) = n) → NoDup (key <$> l) → (∀ x, NoDup (series <$> f x)) → (∀ x m, m ∈ f x → take n (m_labels m) = key x) →
  NoDup (series <$> (l ≫= f)).
Proof.
  intros Hn Hk Hf Hl. induction l as [|x l IH]; [constructor|]. rewrite fmap_cons in Hk. apply NoDup_cons in Hk as [Hx Hk].
  rewrite bind_cons, fmap_app. apply NoDup_app. split_and!; [done| |by apply IH].
  intros s (m & -> & Hm)%list_elem_of_fmap (m' & Es & Hm')%list_elem_of_fmap. apply list_elem_of_bind in Hm' as (y & Hm' & Hy).
  apply Hx, list_elem_of_fmap. exists y. split; [|done]. rewrite <- (Hl x m Hm), <- (Hl y m' Hm'). by injection Es as _ ->.
Qed.

Lemma NoDup_finer {A B C} (f : A → B) (g : A → C) l : NoDup (f <$> l) → (∀ x y, g x = g y → f x = f y) → NoDup (g <$> l).
Proof.
  intros H Hg. induction l as [|x l IH]; [constructor|]. rewrite fmap_cons in *. apply NoDup_cons in H as [Hx H]. apply NoDup_cons. split; [|by apply IH].
  intros (y & E & Hy)%list_elem_of_fmap. apply Hx, list_elem_of_fmap. exists y. split; [by apply Hg|done].
Qed.

Lemma NoDup_series_app ms ms' : NoDup (series <$> ms) → NoDup (series <$> ms') →
  (∀ m m', m ∈ ms → m' ∈ ms' → series m ≠ series m') → NoDup (series <$> (ms ++ ms')).
Proof.
  intros H1 H2 H. rewrite fmap_app. apply NoDup_app. split_and!; [done| |done].
  intros s (m & -> & Hm)%list_elem_of_fmap (m' & Es & Hm')%list_elem_of_fmap. by eapply H.
Qed.

(** Splitting membership in a concrete list. *)
Ltac in_cases H := cbn [app] in H; repeat (apply elem_of_cons in H as [H|H]); try by apply elem_of_nil in H.

Lemma emit_segment_spec g : NoDup (series <$> emit_segment g)
  ∧ ∀ m, m ∈ emit_segment g → m_desc m ∈ [segConf; segRTT; segLoss] ∧ length (m_labels m) = length (d_labels (m_desc m)) ∧ take 1 (m_labels m) = [sg_Gateway g].
Proof.
  unfold emit_segment, gauge. split.
  - destruct (_ =? 0); [apply NoDup_singleton|]. cbn [app fmap list_fmap series m_desc m_labels].
    repeat (apply NoDup_cons; split; [intros H; in_cases H; discriminate H|]). constructor.
  - intros m H. destruct (_ =? 0); in_cases H; subst m; cbn; split_and!; try done; by repeat constructor.
Qed.

Lemma emit_path_spec s p : NoDup (series <$> emit_path s p)
  ∧ ∀ m, m ∈ emit_path s p → m_desc m ∈ [cost_desc; usable; reachable; delta; active] ∧ length (m_labels m) = length (d_labels (m_desc m))
      ∧ m_labels m = [ps_Access p; ps_Egress p] ∧ (m_desc m = active → m_value m = boolFloat (isActive s p)).
Proof.
  unfold emit_path, gauge. split.
  - destruct (_ && finite (ps_CostMicros p)), (_ && finite (ps_DeltaLowerMicros p)); cbn;
      repeat (apply NoDup_cons; split; [intros H; in_cases H; done|]); constructor.
  - intros m H. destruct (_ && finite (ps_CostMicros p)), (_ && finite (ps_DeltaLowerMicros p)); in_cases H; subst m; cbn;
      split_and!; try done; by repeat constructor.
Qed.

Lemma emit_backbone_spec b : NoDup (series <$> emit_backbone b)
  ∧ ∀ m, m ∈ emit_backbone b → m_desc m ∈ [up; rtt; loss] ∧ length (m_labels m) = length (d_labels (m_desc m)) ∧ take 1 (m_labels m) = [bs_Peer b].
Proof.
  unfold emit_backbone, gauge. split.
  - destruct (_ =? 0); [apply NoDup_singleton|]. cbn [app fmap list_fmap series m_desc m_labels].
    repeat (apply NoDup_cons; split; [intros H; in_cases H; discriminate H|]). constructor.
  - intros m H. destruct (_ =? 0); in_cases H; subst m; cbn; split_and!; try done; by repeat constructor.
Qed.

Definition extra_active (s : ClientSnapshot) : list Metric :=
  if negb (existsb (isActive s) (cs_Paths s)) && negb (String.eqb (cs_ActiveAccess s) "") then gauge active f1 [cs_ActiveAccess s; cs_ActiveEgress s] else [].
Definition scalars (s : ClientSnapshot) : list Metric :=
  gauge threshold (seconds (cs_ThresholdMicros s)) [] ++ gauge epoch (of_int (cs_Epoch s)) []
  ++ gauge dead (boolFloat (cs_CurrentDead s)) [] ++ gauge ctlUp (boolFloat (cs_ControllerUp s)) [].

Lemma isActive_true s p : isActive s p = true ↔ [ps_Access p; ps_Egress p] = [cs_ActiveAccess s; cs_ActiveEgress s].
Proof. unfold isActive. rewrite andb_true_iff, !String.eqb_eq. split; [by intros [-> ->]|by intros [= -> ->]]. Qed.

(** The descriptors of the parts are different. *)
Lemma desc_apart (m m' : Metric) (ds ds' : list Desc) : m_desc m ∈ ds → m_desc m' ∈ ds' →
  forallb (λ d, negb (bool_decide (d ∈ ds'))) ds = true → series m ≠ series m'.
Proof.
  intros H1 H2 Hd E. injection E as E _. rewrite forallb_forall in Hd. specialize (Hd (m_desc m)).
  rewrite negb_true_iff, bool_decide_eq_false in Hd. apply Hd; [by apply list_elem_of_In|by rewrite E].
Qed.

Lemma desc_in d (ds ds' : list Desc) : d ∈ ds → forallb (λ d, bool_decide (d ∈ ds')) ds = true → d ∈ ds'.
Proof. intros H Hd. rewrite forallb_forall in Hd. specialize (Hd d). rewrite bool_decide_eq_true in Hd. by apply Hd, list_elem_of_In. Qed.

Lemma client_scrape s :
  NoDup (sg_Gateway <$> cs_Segments s) → NoDup ((λ p, (ps_Access p, ps_Egress p)) <$> cs_Paths s) → gather_ok client_descs (emit_client s).
Proof.
  intros Hseg Hpath. change (emit_client s) with ((cs_Segments s ≫= emit_segment) ++ (cs_Paths s ≫= emit_path s) ++ extra_active s ++ scalars s).
  assert (∀ m, m ∈ cs_Segments s ≫= emit_segment → m_desc m ∈ [segConf; segRTT; segLoss] ∧ length (m_labels m) = length (d_labels (m_desc m))) as H1.
  { intros m (g & Hm & _)%list_elem_of_bind. by apply emit_segment_spec in Hm as (? & ? & _). }
  assert (∀ m, m ∈ cs_Paths s ≫= emit_path s → (m_desc m ∈ [cost_desc; usable; reachable; delta; active] ∧ length (m_labels m) = length (d_labels (m_desc m)))
    ∧ ∃ p, p ∈ cs_Paths s ∧ m_labels m = [ps_Access p; ps_Egress p]) as H2.
  { intros m (p & Hm & Hp)%list_elem_of_bind. apply emit_path_spec in Hm as (? & ? & ? & _). eauto. }
  assert (∀ m, m ∈ extra_active s → m_desc m = active ∧ m_labels m = [cs_ActiveAccess s; cs_ActiveEgress s] ∧ existsb (isActive s) (cs_Paths s) = false) as H3.
  { intros m. unfold extra_active. destruct (existsb _ _); cbn [negb andb]; [by intros ?%elem_of_nil|]. destruct (String.eqb _ _); [by intros ?%elem_of_nil|].
    by intros ->%list_elem_of_singleton. }
  assert (∀ m, m ∈ scalars s → m_desc m ∈ [threshold; epoch; dead; ctlUp] ∧ m_labels m = [] ∧ d_labels (m_desc m) = []) as H4.
  { intros m H. unfold scalars, gauge in H. in_cases H; subst m; cbn; split_and!; try done; by repeat constructor. }
  split.
  - rewrite !Forall_app, !Forall_forall. split_and!; intros m Hm.
    + destruct (H1 m Hm) as [Hd ?]. split; [|done]. eapply desc_in; [done|vm_compute; reflexivity].
    + destruct (H2 m Hm) as [[Hd ?] _]. split; [|done]. eapply desc_in; [done|vm_compute; reflexivity].
    + destruct (H3 m Hm) as (-> & -> & _). split; [|done]. apply (desc_in _ [active]); [by left|vm_compute; reflexivity].
    + destruct (H4 m Hm) as (Hd & -> & ->). split; [|done]. eapply desc_in; [done|vm_compute; reflexivity].
  - apply NoDup_series_app; [|apply NoDup_series_app; [|apply NoDup_series_app|]|].
    + apply (NoDup_series_bind (λ g, [sg_Gateway g]) 1); [done| |intros g; apply emit_segment_spec|intros g m Hm; by apply emit_segment_spec].
      eapply NoDup_finer; [exact Hseg|]. intros x y E. by injection E.
    + apply (NoDup_series_bind (λ p, [ps_Access p; ps_Egress p]) 2); [done| |intros p; apply emit_path_spec|].
      * eapply NoDup_finer; [exact Hpath|]. cbn. intros x y E. congruence.
      * intros p m Hm. destruct (proj2 (emit_path_spec s p) m Hm) as (_ & _ & -> & _). done.
    + unfold extra_active. destruct (_ && _); [apply NoDup_singleton|constructor].
    + cbn [scalars gauge app fmap list_fmap series m_desc m_labels].
      repeat (apply NoDup_cons; split; [intros H; in_cases H; discriminate H|]). constructor.
    + intros m m' Hm Hm'. apply (desc_apart m m' [active] [threshold; epoch; dead; ctlUp]); [destruct (H3 m Hm) as [-> _]; by left|by apply H4|vm_compute; reflexivity].
    + intros m m' Hm Hm'. destruct (H2 m Hm) as [[Hd _] (p & Hp & Hl)]. apply elem_of_app in Hm' as [Hm'|Hm'].
      * destruct (H3 m' Hm') as (_ & Hl' & Hnone). intros E. injection E as _ E. rewrite Hl, Hl', <- isActive_true in E.
        assert (existsb (isActive s) (cs_Paths s) = true); [|congruence]. apply existsb_exists. exists p. split; [by apply list_elem_of_In|done].
      * eapply desc_apart; [done|by apply H4|vm_compute; reflexivity].
    + intros m m' Hm Hm'. destruct (H1 m Hm) as [Hd _]. apply elem_of_app in Hm' as [Hm'|Hm']; [|apply elem_of_app in Hm' as [Hm'|Hm']].
      * eapply desc_apart; [done|by apply H2|vm_compute; reflexivity].
      * eapply (desc_apart m m' _ [active]); [done|destruct (H3 m' Hm') as [-> _]; by left|vm_compute; reflexivity].
      * eapply desc_apart; [done|by apply H4|vm_compute; reflexivity].
Qed.

(** ** Scrapes *)

Lemma gateway_scrape s : NoDup (bs_Peer <$> gs_Backbones s) → gather_ok gateway_descs (emit_gateway s).
Proof.
  intros Hb. unfold emit_gateway.
  assert (∀ m, m ∈ gs_Backbones s ≫= emit_backbone → m_desc m ∈ [up; rtt; loss] ∧ length (m_labels m) = length (d_labels (m_desc m))) as H1.
  { intros m (b & Hm & _)%list_elem_of_bind. by apply emit_backbone_spec in Hm as (? & ? & _). }
  set (rest := gauge sessions _ _ ++ _).
  assert (∀ m, m ∈ rest → m_desc m ∈ [sessions; version; gw_ctlUp] ∧ length (m_labels m) = length (d_labels (m_desc m))) as H2.
  { intros m H. unfold rest, gauge in H. in_cases H; subst m; cbn; split; try done; by repeat constructor. }
  split.
  - rewrite Forall_app, !Forall_forall. split; intros m Hm; [destruct (H1 m Hm) as [Hd ?]|destruct (H2 m Hm) as [Hd ?]];
      (split; [|done]; eapply desc_in; [done|vm_compute; reflexivity]).
  - apply NoDup_series_app.
    + apply (NoDup_series_bind (λ b, [bs_Peer b]) 1); [done| |intros b; apply emit_backbone_spec|intros b m Hm; by apply emit_backbone_spec].
      eapply NoDup_finer; [exact Hb|]. intros x y E. by injection E.
    + cbn [rest gauge app fmap list_fmap series m_desc m_labels].
      repeat (apply NoDup_cons; split; [intros H; in_cases H; discriminate H|]). constructor.
    + intros m m' Hm Hm'. eapply desc_apart; [by apply H1|by apply H2|vm_compute; reflexivity].
Qed.

Lemma controller_scrape s : gather_ok controller_descs (emit_controller s).
Proof.
  unfold emit_controller, gauge. split.
  - apply Forall_forall. intros m H. in_cases H; subst m; cbn; split; try done; by repeat constructor.
  - cbn [app fmap list_fmap series m_desc m_labels]. repeat (apply NoDup_cons; split; [intros H; in_cases H; discriminate H|]). constructor.
Qed.

Lemma NoDup_product {A B K} (key : B → K * K) (id : A → K) (f : A → A → B) (l l' : list A) :
  (∀ x y, key (f x y) = (id x, id y)) → NoDup (id <$> l) → NoDup (id <$> l') → NoDup (key <$> flat_map (λ x, f x <$> l') l).
Proof.
  intros Hf Hl Hl'. induction l as [|x l IH]; [constructor|]. rewrite fmap_cons in Hl. apply NoDup_cons in Hl as [Hx Hl]. cbn [flat_map].
  rewrite fmap_app. apply NoDup_app. split_and!; [| |by apply IH].
  - rewrite <- list_fmap_compose. eapply NoDup_finer; [exact Hl'|]. cbn. intros a b. rewrite !Hf. by intros [= ->].
  - intros k Hk Hk'. apply list_elem_of_fmap in Hk as (b & -> & (y & -> & _)%list_elem_of_fmap).
    apply list_elem_of_fmap in Hk' as (b' & E & Hb'). apply list_elem_of_In, in_flat_map in Hb' as (x' & Hx'%list_elem_of_In & Hb').
    apply list_elem_of_In, list_elem_of_fmap in Hb' as (y' & -> & _). rewrite !Hf in E. apply Hx, list_elem_of_fmap. exists x'. split; [by injection E|done].
Qed.

Lemma NoDup_fmap_filter {A B} (f : A → B) (P : A → Prop) `{∀ x, base.Decision (P x)} l : NoDup (f <$> l) → NoDup (f <$> filter P l).
Proof. intros Hn. eapply sublist_NoDup; [exact Hn|]. apply fmap_sublist, sublist_filter. Qed.

Lemma f1_f0 b : boolFloat b = f1 ↔ b = true.
Proof. by destruct b. Qed.

Lemma active_marks s m : m ∈ emit_client s → m_desc m = active → (m_value m = f1 ↔ m_labels m = [cs_ActiveAccess s; cs_ActiveEgress s]).
Proof.
  change (emit_client s) with ((cs_Segments s ≫= emit_segment) ++ (cs_Paths s ≫= emit_path s) ++ extra_active s ++ scalars s).
  rewrite !elem_of_app. intros [H|[H|[H|H]]] Hd.
  - apply list_elem_of_bind in H as (g & Hm & _). apply emit_segment_spec in Hm as (Hin & _). rewrite Hd in Hin. in_cases Hin; discriminate Hin.
  - apply list_elem_of_bind in H as (p & Hm & _). apply emit_path_spec in Hm as (_ & _ & -> & Hv). rewrite (Hv Hd), f1_f0. apply isActive_true.
  - unfold extra_active in H. destruct (_ && _); [|by apply elem_of_nil in H]. by apply list_elem_of_singleton in H as ->.
  - unfold scalars, gauge in H. in_cases H; subst m; discriminate Hd.
Qed.

Lemma active_present s : cs_ActiveAccess s ≠ "" → ∃ m, m ∈ emit_client s ∧ m_desc m = active ∧ m_labels m = [cs_ActiveAccess s; cs_ActiveEgress s].
Proof.
  intros Hne. change (emit_client s) with ((cs_Segments s ≫= emit_segment) ++ (cs_Paths s ≫= emit_path s) ++ extra_active s ++ scalars s).
  destruct (existsb (isActive s) (cs_Paths s)) eqn:E.
  - apply existsb_exists in E as (p & Hp%list_elem_of_In & Ha). exists (mkMetric active (boolFloat (isActive s p)) [ps_Access p; ps_Egress p]).
    split_and!; [|done|by apply isActive_true]. rewrite !elem_of_app. right. left. apply list_elem_of_bind. exists p. split; [|done].
    unfold emit_path. rewrite !elem_of_app. do 4 right. by left.
  - exists (mkMetric active f1 [cs_ActiveAccess s; cs_ActiveEgress s]). split_and!; [|done|done]. rewrite !elem_of_app. do 2 right. left.
    unfold extra_active. apply String.eqb_neq in Hne. rewrite E, Hne. by left.
Qed.

Lemma path_sample_ids evs i p : (λ p, (ps_Access p, ps_Egress p)) (path_sample evs i p) = (pa_Access p, pa_Egress p).
Proof. unfold path_sample. by destruct (evs !! i). Qed.

Section client_scrapes.
Context {W : Type} {AE : AgentEnv W} {NP : NetParse} {GM : GoMath}.
Context (cfg : AgentConfig) (original : RouteInfo).

Lemma path_of_ids now acc eg a (w : W) : (pa_Access (path_of cfg now acc eg a w), pa_Egress (path_of cfg now acc eg a w)) = (g_ID acc, g_ID eg).
Proof. unfold path_of. destruct (access_stats acc w) as [[st t] ok]. destruct (String.eqb _ _); [done|]. by destruct (path_link acc eg a). Qed.

Lemma paths_NoDup now (s : ast W) : NoDup (g_ID <$> a_gateways (as_a s)) → NoDup ((λ p, (pa_Access p, pa_Egress p)) <$> (paths cfg now s).1).
Proof.
  intros Hn. unfold paths. destruct (paths_fold cfg now (as_a s) (as_w s) (a_gateways (as_a s)) [] false) as [-> _]. cbn [app].
  apply (NoDup_product _ g_ID); [intros x y; apply path_of_ids|by apply NoDup_fmap_filter..].
Qed.

(** The access gateways of decideOnce. *)
Definition accessIDs (s : ast W) : list string := g_ID <$> filter (λ g, Has (g_Roles g) RoleAccess = true) (a_gateways (as_a s)).

(** The snapshot decideOnce publishes after its decision. *)
Definition decided_snapshot (now : Time) (s : ast W) : ClientSnapshot :=
  let '(ps, dead) := paths cfg now s in
  let sess := a_session (as_a s) in
  let '(_, dec) := Decide now (s_Access sess) (s_Egress sess) ps dead (a_decider (as_a s)) in
  publish sess (accessIDs s) ps dead dec (a_up (as_a s)) (as_w s).

Lemma segments_sublist (w : W) ids : (sg_Gateway <$> (ids ≫= segment_sample w)) `sublist_of` ids.
Proof.
  induction ids as [|id ids IH]; [done|]. rewrite bind_cons, fmap_app. unfold segment_sample at 1. destruct (mon_Stats id w) as [[st t]|]; cbn.
  - by apply sublist_skip.
  - by apply sublist_cons.
Qed.

Lemma gw_publish_peers `{!Range, !RangeLaws} backbones stats a e v up : NoDup (bs_Peer <$> gs_Backbones (gw_publish backbones stats a e v up)).
Proof.
  cbn. assert (bs_Peer <$> (backbone_sample stats <$> range backbones) = (range backbones).*1) as ->.
  { rewrite <- list_fmap_compose. apply list_fmap_ext. intros i [peer b] _. cbn. unfold backbone_sample. cbn. by destruct (stats peer). }
  rewrite range_perm. apply NoDup_fst_map_to_list.
Qed.

(** A scrape never fails and never lies about where the session is. Whatever
    the client measured and decided, as long as the controller listed no two
    gateways under one ID, the metrics of the snapshot it publishes are all
    among those described, have the labels they should and come once, so the
    registry accepts them; the path the session is on, and no other, is marked
    active. What a gateway and the controller publish is accepted too. *)
Theorem scrapes_accepted `{!Range, !RangeLaws} now (s : ast W) backbones stats accessSessions egressSessions stateVersion controllerUp ctl :
  NoDup (g_ID <$> a_gateways (as_a s)) →
  let snap := decided_snapshot now s in
  gather_ok client_descs (emit_client snap)
  ∧ (∀ m, m ∈ emit_client snap → m_desc m = active →
       (m_value m = f1 ↔ m_labels m = [s_Access (a_session (as_a s)); s_Egress (a_session (as_a s))]))
  ∧ (s_Access (a_session (as_a s)) ≠ "" →
       ∃ m, m ∈ emit_client snap ∧ m_desc m = active ∧ m_labels m = [s_Access (a_session (as_a s)); s_Egress (a_session (as_a s))])
  ∧ gather_ok gateway_descs (emit_gateway (gw_publish backbones stats accessSessions egressSessions stateVersion controllerUp))
  ∧ gather_ok controller_descs (emit_controller ctl).
Proof.
  intros Hn snap.
  assert (cs_ActiveAccess snap = s_Access (a_session (as_a s)) ∧ cs_ActiveEgress snap = s_Egress (a_session (as_a s))) as [<- <-].
  { unfold snap, decided_snapshot. destruct (paths cfg now s), (Decide _ _ _ _ _ _). by split. }
  split_and!; [|apply active_marks|apply active_present|apply gateway_scrape, gw_publish_peers|apply controller_scrape].
  apply client_scrape; unfold snap, decided_snapshot; pose proof (paths_NoDup now s Hn) as Hp; destruct (paths cfg now s) as [ps dead];
    destruct (Decide _ _ _ _ _ _) as [d dec]; cbn [publish cs_Segments cs_Paths].
  - eapply sublist_NoDup; [|apply segments_sublist]. by apply NoDup_fmap_filter.
  - rewrite fmap_imap, (imap_ext _ (const (λ p, (pa_Access p, pa_Egress p)))), imap_const; [done|]. intros i p _. apply path_sample_ids.
Qed.
End client_scrapes.

(** ** Counters *)

Definition count {A} `{EqDecision A} (x : A) (l : list A) : Z := Z.of_nat (length (filter (λ y, y = x) l)).
Definition inc_all (ls : list (list string)) (c : CounterVec) : CounterVec := fold_left (λ c l, Inc l c) ls c.

Lemma inc_all_lookup ls : ∀ c k,
  inc_all ls c !! k = if decide (is_Some (c !! k) ∨ k ∈ ls) then Some (default 0 (c !! k) + count k ls) else None.
Proof.
  induction ls as [|l ls IH]; intros c k.
  - cbn. unfold count. cbn. destruct (c !! k) as [n|]; [rewrite decide_True by eauto; f_equal; cbn; lia|].
    rewrite decide_False; [done|]. intros [[? ?]|?%elem_of_nil]; done.
  - change (inc_all (l :: ls) c) with (inc_all ls (Inc l c)). rewrite IH. unfold Inc, count. rewrite filter_cons.
    destruct (decide (l = k)) as [->|Hne].
    + rewrite lookup_insert_eq. rewrite !decide_True by (eauto; right; by left). cbn [default length]. f_equal. cbn [from_option id].
      destruct (c !! k); cbn; lia.
    + rewrite lookup_insert_ne by done. assert ((is_Some (c !! k) ∨ k ∈ ls) ↔ (is_Some (c !! k) ∨ k ∈ l :: ls)) as Hiff by (rewrite elem_of_cons; naive_solver).
      destruct (decide (is_Some (c !! k) ∨ k ∈ ls)); [rewrite decide_True by tauto|rewrite decide_False by tauto]; done.
Qed.

Definition decision_labels (es : list client_event) : list (list string) :=
  omap (λ e, match e with CDecision o => Some [pick o clientOutcomes] | _ => None end) es.
Definition migration_labels (es : list client_event) : list (list string) :=
  omap (λ e, match e with CMigration c r => Some [pick c clientCauses; pick r clientResults] | _ => None end) es.
Definition client_run (es : list client_event) (m : option ClientMetrics) : option ClientMetrics := fold_left (λ m e, client_record e m) es m.

Lemma client_run_counters es : ∀ m, ∃ m', client_run es (Some m) = Some m'
  ∧ cm_decisions m' = inc_all (decision_labels es) (cm_decisions m) ∧ cm_migrations m' = inc_all (migration_labels es) (cm_migrations m).
Proof.
  induction es as [|e es IH]; intros m; [by exists m|]. change (client_run (e :: es) (Some m)) with (client_run es (client_record e (Some m))).
  destruct e; cbn [client_record]; match goal with |- context [client_run es (Some ?x)] => destruct (IH x) as (m' & E1 & E2 & E3) end; by exists m'.
Qed.

Lemma pick_spec v allowed : pick v allowed = v ∧ v ∈ allowed ∨ pick v allowed = "unknown" ∧ v ∉ allowed.
Proof.
  induction allowed as [|a l IH]; cbn; [right; split; [done|apply not_elem_of_nil]|].
  destruct (String.eqb_spec v a) as [->|Hne]; [left; split; [done|by left]|].
  destruct IH as [[-> ?]|[-> ?]]; [left; split; [done|by right]|right; split; [done|]]. by intros [?|?]%elem_of_cons.
Qed.

Lemma pick_in v allowed : pick v allowed ∈ "unknown" :: allowed.
Proof. destruct (pick_spec v allowed) as [[-> ?]|[-> _]]; [by right|by left]. Qed.

Lemma create_all_lookup ls k : create_all ls !! k = if decide (k ∈ ls) then Some 0 else None.
Proof.
  unfold create_all. assert (∀ c, fold_left (λ c l, WithLabelValues l c) ls c !! k = if decide (k ∈ ls) then Some (default 0 (c !! k)) else c !! k) as H.
  { induction ls as [|l ls IH]; intros c; cbn [fold_left]; [by rewrite decide_False by apply not_elem_of_nil|]. rewrite IH. unfold WithLabelValues.
    destruct (decide (l = k)) as [->|Hne].
    - rewrite lookup_insert_eq, (decide_True (P := k ∈ k :: ls)) by by left. by destruct (decide (k ∈ ls)).
    - rewrite lookup_insert_ne by done. destruct (decide (k ∈ ls)); [rewrite decide_True by by right|rewrite decide_False by (by intros [?|?]%elem_of_cons)]; done. }
  rewrite H, lookup_empty. done.
Qed.

Lemma inc_all_created ls series k :
  inc_all ls (create_all series) !! k = if decide (k ∈ series ∨ k ∈ ls) then Some (count k ls) else None.
Proof.
  rewrite inc_all_lookup, create_all_lookup. destruct (decide (k ∈ series)) as [Hk|Hk].
  - rewrite !decide_True by eauto. done.
  - destruct (decide (k ∈ ls)); [rewrite !decide_True by auto; done|]. rewrite !decide_False; [done|tauto|]. intros [[? ?]|?]; done.
Qed.

(** Labels are never taken unchecked, and nothing is lost. After any sequence
    of calls with any strings: the series of decisions_total and
    migrations_total are those of the fixed values and of "unknown", whatever
    the callers passed; each counts exactly the calls with its labels, one that
    was never counted being there with 0; and on a nil receiver every call is
    harmless. *)
Theorem client_counters_bounded es :
  client_run es None = None ∧
  ∃ m, client_run es (Some NewClientMetrics) = Some m
    ∧ (∀ k n, cm_decisions m !! k = Some n → (∃ o, o ∈ "unknown" :: clientOutcomes ∧ k = [o]) ∧ n = count k (decision_labels es))
    ∧ (∀ o, o ∈ clientOutcomes → cm_decisions m !! [o] = Some (count [o] (decision_labels es)))
    ∧ (∀ k n, cm_migrations m !! k = Some n →
         (∃ c r, c ∈ "unknown" :: clientCauses ∧ r ∈ "unknown" :: clientResults ∧ k = [c; r]) ∧ n = count k (migration_labels es))
    ∧ (∀ c r, c ∈ clientCauses → r ∈ clientResults → cm_migrations m !! [c; r] = Some (count [c; r] (migration_labels es))).
Proof.
  split; [by induction es|]. destruct (client_run_counters es NewClientMetrics) as (m & E1 & E2 & E3). exists m.
  split; [done|]. rewrite E2, E3. cbn [NewClientMetrics cm_decisions cm_migrations]. split_and!; intros *; rewrite inc_all_created.
  - destruct (decide _) as [Hk|]; [|done]. intros [= <-]. split; [|done]. destruct Hk as [(o & -> & Ho)%list_elem_of_fmap|Hk]; [exists o; split; [by right|done]|].
    apply list_elem_of_omap in Hk as ([] & _ & [= <-]). eexists. split; [apply pick_in|done].
  - intros Ho. rewrite decide_True; [done|]. left. apply list_elem_of_fmap. eauto.
  - destruct (decide _) as [Hk|]; [|done]. intros [= <-]. split; [|done]. destruct Hk as [Hk|Hk].
    + apply list_elem_of_bind in Hk as (c & (r & -> & Hr)%list_elem_of_fmap & Hc). exists c, r. split_and!; [by right..|done].
    + apply list_elem_of_omap in Hk as ([] & _ & [= <-]). do 2 eexists. split_and!; [apply pick_in..|done].
  - intros Hc Hr. rewrite decide_True; [done|]. left. apply list_elem_of_bind. exists c. split; [apply list_elem_of_fmap; eauto|done].
Qed.

Section labels.
Context {GM : GoMath}.

(** C36: the client's own values need no "unknown": whatever Decide returns, its
    outcome is one of the four, and the cause of a migration is one of the
    causes. *)
Theorem decision_labels_known now access egress paths dead d d' dec :
  Decide now access egress paths dead d = (d', dec) →
  pick (Outcome dec) clientOutcomes = Outcome dec ∧ Outcome dec ∈ clientOutcomes
  ∧ (Migrate dec = true ↔ Outcome dec = OutcomeMigrate) ∧ (Migrate dec = true → pick (Cause dec) clientCauses = Cause dec ∧ Cause dec ∈ clientCauses).
Proof.
  unfold Decide. destruct (decide_path now access egress paths dead d) as [d1 dec1] eqn:E. intros [= <- <-]. cbn [Outcome Migrate Cause].
  assert ((Migrate dec1 = false ∧ Outcome dec1 ∈ "" :: [OutcomeConfirming; OutcomeNoAlternative])
    ∨ (Migrate dec1 = true ∧ Cause dec1 ∈ [CauseBetterPath; CauseAccessDead; CauseEgressChange])) as H.
  { unfold decide_path, decide_dead, decide_live in E. destruct dead.
    - repeat case_match; simplify_eq; cbn; (left; split; [done|by repeat constructor]) || (right; split; [done|by repeat constructor]).
    - repeat case_match; simplify_eq; cbn; (left; split; [done|by repeat constructor]) || (right; split; [done|by repeat constructor]). }
  destruct H as [[-> H]|[-> H]]; cbn [app] in H; in_cases H; rewrite ?H; vm_compute; split_and!; try done; by repeat constructor.
Qed.
End labels.

(** ** Status codes *)

(** What net/http sends: the first final header, 200 when a body comes first
    or nothing does; 1xx headers other than 101 are not final. *)
Definition http_reply (sent : option Z) (r : reply) : option Z :=
  match sent, r with
  | Some c, _ => Some c
  | None, WriteHeader c => if (100 <=? c) && (c <=? 199) && negb (c =? 101) then None else Some c
  | None, WriteBody _ => Some 200
  end.
Definition http_code (replies : list reply) : Z := default 200 (fold_left http_reply replies None).

Lemma status_recorded replies : Forall (λ r, match r with WriteHeader c => 200 ≤ c | WriteBody _ => True end) replies →
  (let code := fold_left record_reply replies 0 in if code =? 0 then 200 else code) = http_code replies.
Proof.
  intros H. unfold http_code. assert (∀ (code : Z) sent, code ≠ 0 → sent = Some code →
    fold_left record_reply replies code = code ∧ fold_left http_reply replies sent = Some code) as Hsent.
  { clear H. induction replies as [|r l IH]; intros code sent Hc ->; [done|]. cbn [fold_left]. apply Z.eqb_neq in Hc as Hc'.
    destruct r; cbn [record_reply http_reply]; rewrite Hc'; by apply IH. }
  destruct replies as [|[c|b] l]; [done|..]; cbn [fold_left record_reply http_reply Z.eqb].
  - apply Forall_cons in H as [Hc _]. replace (c <=? 199) with false by lia. rewrite andb_false_r. cbn [andb].
    destruct (Hsent c (Some c) ltac:(lia) eq_refl) as [H1 H2]. cbn [fold_left record_reply http_reply] in H1, H2.
    assert (c =? 0 = false) as E by lia. rewrite E in H1. rewrite H1, E. replace (c <=? 199) with false in H2 by lia. by rewrite H2.
  - destruct (Hsent 200 (Some 200) ltac:(lia) eq_refl) as [H1 H2]. cbn in H1, H2. by rewrite H1, H2.
Qed.

Module MetricsDemo.
Import ClientDemo.

#[local] Existing Instances world_env no_parse some_math.
#[local] Instance some_range : Range := {| range K _ _ V m := map_to_list m |}.
#[local] Instance some_range_laws : RangeLaws.
Proof. by split. Qed.

Definition now : Time := wd_now (as_w (opened [])).
Definition ctl : ControllerSnapshot := mkControllerSnapshot 2 0 1 7.
Lemma scrapes_accepted_witness :
  gather_ok client_descs (emit_client (decided_snapshot config now (opened []))).
Proof.
  refine (proj1 (scrapes_accepted config now (opened []) {["b" := true]} (λ _, None) 1 1 7 true ctl _)).
  apply (bool_decide_unpack _). vm_compute. exact I.
Defined.

Lemma decision_labels_known_witness :
  Outcome (Decide now "a" "a" (paths config now (opened [])).1 true (a_decider (as_a (opened [])))).2 ∈ clientOutcomes.
Proof.
  refine (proj1 (proj2 (decision_labels_known now "a" "a" (paths config now (opened [])).1 true (a_decider (as_a (opened []))) _ _ (surjective_pairing _)))).
Defined.

(** A path to the dead access, one to the other, and the counters afterwards. *)
Example decisions_counted : ∃ m, client_run [CDecision "stay"; CDecision "10.0.0.1"; CMigration "better_path" "committed"] (Some NewClientMetrics) = Some m
  ∧ cm_decisions m !! ["unknown"] = Some 1 ∧ cm_decisions m !! ["migrate"] = Some 0 ∧ cm_migrations m !! ["better_path"; "committed"] = Some 1.
Proof. eexists. split; [reflexivity|]. vm_compute. by split_and!. Qed.

End MetricsDemo.
