(* ===== verification/Tracing.v ===== *)
(** * Traces and timelines: internal/telemetry/tracing.go, timeline.go and
    logging.go

    Each process derives a migration's trace ID on its own and logs its spans;
    the timeline reads the logs of all of them back and puts the spans of one
    migration together. Times as text are the class [TimeText]. *)

From Stdlib Require Import SpecFloat.
From S2P Require Import Prelude GoFloat GoStrings Keys.

(** ** crypto/sha256 *)

Module Sha256.
Definition rotr (x n : Z) : Z := u32 (Z.lor (Z.shiftr x n) (Z.shiftl x (32 - n))).
(** The constants as FIPS 180-4 defines them: the first 32 bits of the fractional
    parts of the cube roots of the first 64 primes and of the square roots of the
    first eight. *)
Definition is_prime (n : nat) : bool := forallb (λ k, negb (n mod k =? 0)%nat) (seq 2 (n - 2)).
Definition primes : list Z := Z.of_nat <$> filter (λ n, is_prime n = true) (seq 2 310).
(** The greatest r below 2^bits more than [r] with r^3 at most [n]. *)
Fixpoint cbrt_from (bits : nat) (r n : Z) : Z :=
  match bits with
  | O => r
  | S bits => let r' := r + 2 ^ Z.of_nat bits in cbrt_from bits (if r' ^ 3 <=? n then r' else r) n
  end.
Definition K : list Z := Eval vm_compute in (λ p, u32 (cbrt_from 40 0 (p * 2 ^ 96))) <$> primes.
Definition H0 : list Z := Eval vm_compute in (λ p, u32 (Z.sqrt (p * 2 ^ 64))) <$> take 8 primes.

(** The message, a 1 bit, zeros, and the length in bits. *)
Definition padded (msg : bytes) : bytes :=
  let n := Z.of_nat (length msg) in
  msg ++ 128 :: replicate (Z.to_nat ((55 - n) mod 64)) 0 ++ be_put 8 (8 * n).
Fixpoint chunks (k fuel : nat) (l : bytes) : list bytes :=
  match fuel, l with
  | O, _ | _, [] => []
  | S fuel, _ => take k l :: chunks k fuel (drop k l)
  end.

Definition sigma (a b c x : Z) : Z := Z.lxor (Z.lxor (rotr x a) (rotr x b)) (Z.shiftr x c).
Definition Sigma (a b c x : Z) : Z := Z.lxor (Z.lxor (rotr x a) (rotr x b)) (rotr x c).
(** The schedule, newest word first. *)
Definition extend (ws : list Z) : list Z :=
  u32 (sigma 17 19 10 (nth 1 ws 0) + nth 6 ws 0 + sigma 7 18 3 (nth 14 ws 0) + nth 15 ws 0) :: ws.
Definition schedule (block : bytes) : list Z := rev (Nat.iter 48 extend (rev (be_get <$> chunks 4 16 block))).

Definition round (s : list Z) (kw : Z * Z) : list Z :=
  match s with
  | [a; b; c; d; e; f; g; h] =>
      let t1 := h + Sigma 6 11 25 e + Z.lxor (Z.land e f) (Z.land (2 ^ 32 - 1 - e) g) + kw.1 + kw.2 in
      let t2 := Sigma 2 13 22 a + Z.lxor (Z.lxor (Z.land a b) (Z.land a c)) (Z.land b c) in
      [u32 (t1 + t2); a; b; c; u32 (d + t1); e; f; g]
  | s => s
  end.
Definition block_step (h : list Z) (block : bytes) : list Z :=
  (λ p, u32 (p.1 + p.2)) <$> zip h (fold_left round (zip K (schedule block)) h).
Definition Sum256 (msg : bytes) : bytes :=
  let p := padded msg in fold_left block_step (chunks 64 (length p) p) H0 ≫= be_put 4.
End Sha256.

(** ** tracing.go *)

Definition string_bytes (s : string) : bytes := (λ c, Z.of_nat (Ascii.nat_of_ascii c)) <$> String.list_ascii_of_string s.
Definition nul : string := String (Ascii.ascii_of_nat 0) "".

Definition traceID (s : string) : string := String.string_of_list_ascii (hex_encode (take 16 (Sha256.Sum256 (string_bytes s)))).
Definition session_preimage (sessionID : string) : string := "egressa/session/v1" +:+ nul +:+ sessionID.
Definition migration_preimage (sessionID : string) (toEpoch : Z) : string :=
  "egressa/migration/v1" +:+ nul +:+ sessionID +:+ nul +:+ FormatUint toEpoch.
Definition SessionTraceID (sessionID : string) : string := traceID (session_preimage sessionID).
Definition MigrationTraceID (sessionID : string) (toEpoch : Z) : string := traceID (migration_preimage sessionID toEpoch).

Example sha_abc : traceID "abc" = "ba7816bf8f01cfea414140de5dae2223".
Proof. vm_compute. reflexivity. Qed.
Example sha_migration : MigrationTraceID "7" 3 = "e5eefaa31cd3d2bf12b6add3cc156bc4".
Proof. vm_compute. reflexivity. Qed.

(** What a context carries; [None] is a context without a trace. *)
Record traceInfo := mkTrace { ti_traceID : string; ti_session : string; ti_epoch : Z; ti_hasEpoch : bool }.
Definition Ctx := option traceInfo.
Definition WithSession (ctx : Ctx) (sessionID : string) : Ctx := Some (mkTrace (SessionTraceID sessionID) sessionID 0 false).
Definition WithMigration (ctx : Ctx) (sessionID : string) (toEpoch : Z) : Ctx :=
  Some (mkTrace (MigrationTraceID sessionID toEpoch) sessionID toEpoch true).
Definition TraceID (ctx : Ctx) : option string := match ctx with Some t => if String.eqb (ti_traceID t) "" then None else Some (ti_traceID t) | None => None end.
Definition Session (ctx : Ctx) : option string := match ctx with Some t => if String.eqb (ti_session t) "" then None else Some (ti_session t) | None => None end.
Definition Epoch (ctx : Ctx) : option Z := match ctx with Some t => if ti_hasEpoch t then Some (ti_epoch t) else None | None => None end.

Definition StatusOK : string := "ok".
Definition StatusError : string := "error".
Definition StatusConflict : string := "conflict".

Inductive attr_value := AString (s : string) | AUint64 (n : Z) | AFloat64 (f : float64).
Definition Attr := (string * attr_value)%type.
Inductive Level := LevelDebug | LevelInfo | LevelWarn | LevelError.
Record LogRecord := mkLog { lg_level : Level; lg_msg : string; lg_attrs : list Attr }.

(** logging.go: Err *)
Definition Err_attr (err : string) : Attr := ("err", AString err).

Class TimeText := { FormatTime : Time → string; ParseTime : string → option Time }.
Class TimeTextLaws `{TimeText} : Prop := { Parse_FormatTime : ∀ t, ParseTime (FormatTime t) = Some t }.

Record Span := mkSpan { sp_ctx : Ctx; sp_name : string; sp_start : Time; sp_attrs : list Attr; sp_ended : bool }.

Section tracer.
Context `{!TimeText}.

(** [tracing]: the tracer is not nil. [None] is the nil span. *)
Definition StartAt (tracing : bool) (ctx : Ctx) (name : string) (start : Time) (attrs : list Attr) : option Span :=
  if tracing then Some (mkSpan ctx name start attrs false) else None.
Definition Start (tracing : bool) (now : Time) (ctx : Ctx) (name : string) (attrs : list Attr) : option Span := StartAt tracing ctx name now attrs.
Definition SetAttrs (attrs : list Attr) (s : option Span) : option Span :=
  match s with None => None | Some s => Some (mkSpan (sp_ctx s) (sp_name s) (sp_start s) (sp_attrs s ++ attrs) (sp_ended s)) end.

(** The trace fields a record gets from a context. *)
Definition trace_attrs (ctx : Ctx) : list Attr :=
  match ctx with
  | None => []
  | Some t =>
      (if String.eqb (ti_traceID t) "" then [] else [("trace_id", AString (ti_traceID t))])
      ++ (if String.eqb (ti_session t) "" then [] else [("session", AString (ti_session t))])
      ++ (if ti_hasEpoch t then [("epoch", AUint64 (ti_epoch t))] else [])
  end.

Definition core_attrs (st : string) (end_ : Time) (s : Span) : list Attr :=
  [("span", AString (sp_name s)); ("start", AString (FormatTime (sp_start s)));
   ("duration_ms", AFloat64 (fdiv (of_int (Z.quot (time_Sub end_ (sp_start s)) 1000)) (of_int 1000))); ("status", AString st)].
Definition err_attrs (err : option string) : list Attr := match err with Some e => [Err_attr e] | None => [] end.
Definition span_record (st : string) (err : option string) (end_ : Time) (s : Span) : LogRecord :=
  mkLog (if String.eqb st StatusError then LevelWarn else LevelInfo) "span"
    (trace_attrs (sp_ctx s) ++ core_attrs st end_ s ++ err_attrs err ++ sp_attrs s).

(** The span after it, and what is logged. *)
Definition EndStatus (st : string) (err : option string) (now : Time) (s : option Span) : option Span * list LogRecord :=
  match s with
  | None => (None, [])
  | Some s =>
      if sp_ended s then (Some s, [])
      else (Some (mkSpan (sp_ctx s) (sp_name s) (sp_start s) (sp_attrs s) true), [span_record st err now s])
  end.
Definition End (err : option string) : Time → option Span → option Span * list LogRecord :=
  EndStatus (match err with Some _ => StatusError | None => StatusOK end) err.

(** contextHandler.Handle: the trace fields of the context are added. *)
Definition Handle (ctx : Ctx) (r : LogRecord) : LogRecord := mkLog (lg_level r) (lg_msg r) (lg_attrs r ++ trace_attrs ctx).
End tracer.

(** ** logging.go *)

Definition lower (c : Ascii.ascii) : Ascii.ascii :=
  let n := Ascii.nat_of_ascii c in if ((65 <=? n) && (n <=? 90))%nat then Ascii.ascii_of_nat (n + 32) else c.
Definition ToLower (s : string) : string := String.string_of_list_ascii (lower <$> String.list_ascii_of_string s).
Definition ParseLevel (s : string) : option Level :=
  let l := ToLower s in
  if String.eqb l "debug" then Some LevelDebug
  else if String.eqb l "" || String.eqb l "info" then Some LevelInfo
  else if String.eqb l "warn" || String.eqb l "warning" then Some LevelWarn
  else if String.eqb l "error" then Some LevelError else None.

Record LogConfig := mkLogConfig { lc_Writer : bool; lc_Format : string; lc_Level : string; lc_Role : string; lc_Node : string; lc_Version : string }.
Record Logger := mkLogger { lo_level : Level; lo_json : bool; lo_attrs : list Attr }.
Definition NewLogger (cfg : LogConfig) : option Logger :=
  match ParseLevel (lc_Level cfg) with
  | None => None
  | Some level =>
      if negb (lc_Writer cfg) then None else
      let f := ToLower (lc_Format cfg) in
      match (if String.eqb f "" || String.eqb f "text" then Some false else if String.eqb f "json" then Some true else None) with
      | None => None
      | Some json =>
          Some (mkLogger level json
                  (("role", AString (lc_Role cfg)) :: (if String.eqb (lc_Node cfg) "" then [] else [("node", AString (lc_Node cfg))])
                   ++ [("version", AString (lc_Version cfg))]))
      end
  end.

(** ** timeline.go *)

(** A JSON object as encoding/json decodes it into map[string]any. *)
Inductive jvalue := JString (s : string) | JNumber (f : float64) | JOther (text : string).

Record SpanRecord := mkSpanRecord {
  sr_TraceID : string; sr_Session : string; sr_Epoch : Z; sr_Span : string; sr_Status : string; sr_Err : string; sr_Start : Time;
  sr_DurationMS : float64; sr_Role : string; sr_Node : string; sr_Attrs : gmap string string }.

Definition Process (r : SpanRecord) : string := if String.eqb (sr_Node r) "" then sr_Role r else sr_Role r +:+ " " +:+ sr_Node r.

Definition spanFields : list string :=
  ["time"; "level"; "msg"; "trace_id"; "session"; "epoch"; "span"; "status"; "err"; "start"; "duration_ms"; "role"; "node"; "version"].

Section timeline.
Context `{!TimeText} (format_g : float64 → string).

Definition str (v : option jvalue) : string :=
  match v with None => "" | Some (JString s) => s | Some (JNumber f) => format_g f | Some (JOther t) => t end.

(** One line of ReadSpans, as far as it is a JSON object. *)
Definition read_span (m : gmap string jvalue) : option SpanRecord :=
  match m !! ("msg" : string) with
  | Some (JString msg) =>
      if String.eqb msg "span" then
        Some (mkSpanRecord (str (m !! ("trace_id" : string))) (str (m !! ("session" : string)))
                (match m !! ("epoch" : string) with Some (JNumber e) => u64 (to_int e) | _ => 0 end)
                (str (m !! ("span" : string))) (str (m !! ("status" : string))) (str (m !! ("err" : string)))
                (default zero_time (ParseTime (str (m !! ("start" : string)))))
                (match m !! ("duration_ms" : string) with Some (JNumber d) => d | _ => f0 end)
                (str (m !! ("role" : string))) (str (m !! ("node" : string)))
                ((λ v, str (Some v)) <$> filter (λ kv, kv.1 ∉ spanFields) m))
      else None
  | _ => None
  end.
End timeline.

Record Migration := mkMigration { mg_TraceID : string; mg_Session : string; mg_Epoch : Z; mg_Spans : list SpanRecord }.

(** slices.SortStableFunc with Time.Compare. *)
Fixpoint insert_by {A} (key : A → Z) (x : A) (l : list A) : list A :=
  match l with [] => [x] | y :: l' => if key x <=? key y then x :: l else y :: insert_by key x l' end.
Definition sort_by {A} (key : A → Z) (l : list A) : list A := foldr (insert_by key) [] l.

(** Start panics on a migration without spans; Migrations makes none. *)
Definition mg_Start (m : Migration) : Time := match mg_Spans m with s :: _ => sr_Start s | [] => zero_time end.
Definition mg_End (m : Migration) : Time :=
  fold_left (λ end_ s, let e := sr_Start s + to_int (fmul (sr_DurationMS s) (of_int 1000000)) in if end_ <? e then e else end_) (mg_Spans m) zero_time.
Fixpoint status_loop (spans : list SpanRecord) : string :=
  match spans with
  | [] => StatusOK
  | s :: spans => if negb (String.eqb (sr_Status s) StatusOK) then sr_Span s +:+ " " +:+ sr_Status s else status_loop spans
  end.
Definition mg_Status (m : Migration) : string := status_loop (mg_Spans m).

(** The loop over the spans: the migrations so far and the order of their traces. *)
Definition group_step (acc : gmap string Migration * list string) (s : SpanRecord) : gmap string Migration * list string :=
  let '(byTrace, order) := acc in
  if negb (HasPrefix (sr_Span s) "migration.") || String.eqb (sr_TraceID s) "" then acc
  else match byTrace !! sr_TraceID s with
       | None => (<[sr_TraceID s := mkMigration (sr_TraceID s) (sr_Session s) (sr_Epoch s) [s]]> byTrace, order ++ [sr_TraceID s])
       | Some m => (<[sr_TraceID s := mkMigration (mg_TraceID m) (mg_Session m) (mg_Epoch m) (mg_Spans m ++ [s])]> byTrace, order)
       end.
Definition sorted_spans (m : Migration) : Migration := mkMigration (mg_TraceID m) (mg_Session m) (mg_Epoch m) (sort_by sr_Start (mg_Spans m)).
Definition Migrations (spans : list SpanRecord) : list Migration :=
  let '(byTrace, order) := fold_left group_step spans (∅, []) in
  sort_by mg_Start (omap (λ id, sorted_spans <$> byTrace !! id) order).

Definition attrs (s : SpanRecord) : string :=
  let keys := merge_sort (λ a b, str_leb a b = true) ((map_to_list (sr_Attrs s)).*1) in
  Join " " (((λ k, k +:+ "=" +:+ default "" (sr_Attrs s !! k)) <$> keys) ++ (if String.eqb (sr_Err s) "" then [] else ["err=" +:+ sr_Err s])).

(** ** Integers as float64 *)

Lemma digits2_size m : digits2_pos m = Pos.size m.
Proof. induction m; cbn; congruence. Qed.

Lemma size_shift p m : Z.pos (Pos.size (Pos.iter xO m p)) = Z.pos (Pos.size m) + Z.pos p.
Proof.
  revert m. induction p as [|p IH] using Pos.peano_ind; intros m; [cbn; lia|].
  rewrite Pos.iter_succ. cbn [Pos.size]. rewrite Pos2Z.inj_succ, IH. lia.
Qed.

Lemma val_shift p m : Z.pos (Pos.iter xO m p) = Z.pos m * 2 ^ Z.pos p.
Proof.
  induction p as [|p IH] using Pos.peano_ind; [cbn; lia|].
  rewrite Pos.iter_succ, Pos2Z.inj_succ, Z.pow_succ_r by lia. rewrite Pos2Z.inj_xO, IH. lia.
Qed.

Lemma shr_none mrs e n : n ≤ 0 → shr mrs e n = (mrs, e).
Proof. destruct n; [done|lia|done]. Qed.

Lemma round_aux_exact m e : fexp prec emax (Z.pos (Pos.size m) + e) ≤ e → e ≤ emax - prec →
  binary_round_aux prec emax false (Z.pos m) e loc_Exact = S754_finite false m e.
Proof.
  intros He Hm. unfold binary_round_aux, shr_fexp. cbn [Zdigits2]. rewrite digits2_size. rewrite shr_none by lia.
  cbn [shr_record_of_loc shr_m loc_of_shr_record round_nearest_even Zdigits2]. rewrite digits2_size, shr_none by lia. cbn [shr_record_of_loc shr_m].
  by rewrite (proj2 (Z.leb_le _ _)).
Qed.

Lemma of_int_exact n : 0 ≤ n < 2 ^ 53 → to_int (of_int n) = n.
Proof.
  intros Hn. destruct n as [|m|]; [done| |lia]. unfold of_int. cbn [binary_normalize]. unfold binary_round, shl_align.
  rewrite digits2_size, Z.add_0_r, Z.sub_0_r.
  assert (Z.pos (Pos.size m) ≤ 53) as Hd.
  { assert (Z.pos (Pos.size m) - 1 < 53); [|lia]. destruct (Z.le_gt_cases 53 (Z.pos (Pos.size m) - 1)) as [Hge|]; [|done]. exfalso.
    pose proof (Pos.size_le m). assert (2 ^ 53 ≤ Z.pos m); [|lia].
    transitivity (2 ^ (Z.pos (Pos.size m) - 1)); [apply Z.pow_le_mono_r; lia|].
    assert (2 ^ Z.pos (Pos.size m) ≤ 2 * Z.pos m) as H1 by (rewrite <- Pos2Z.inj_pow; lia).
    replace (Z.pos (Pos.size m)) with (Z.succ (Z.pos (Pos.size m) - 1)) in H1 by lia. rewrite Z.pow_succ_r in H1 by lia. lia. }
  assert (fexp prec emax (Z.pos (Pos.size m)) = Z.pos (Pos.size m) - 53) as ->.
  { unfold fexp, emin. lia. }
  destruct (Z.pos (Pos.size m) - 53) as [|p|p] eqn:Ep; [|lia|].
  - rewrite round_aux_exact; [cbn; lia| |lia]. rewrite Z.add_0_r. unfold fexp, emin. lia.
  - rewrite round_aux_exact; [| |lia].
    + unfold to_int. rewrite val_shift. change (0 <=? Z.neg p) with false. cbn [Z.opp]. apply Z.div_mul. lia.
    + rewrite size_shift. unfold fexp, emin. lia.
Qed.

(** ** Trace IDs *)

Lemma app_last_inj {A} (x : A) a a' b b' : x ∉ b → x ∉ b' → a ++ x :: b = a' ++ x :: b' → a = a' ∧ b = b'.
Proof.
  intros Hb Hb'. revert a'. induction a as [|y a IH]; intros [|y' a'] H; cbn in H.
  - by injection H.
  - injection H as -> ->. destruct Hb. set_solver.
  - injection H as -> <-. destruct Hb'. set_solver.
  - injection H as -> H. destruct (IH _ H) as [-> ->]. done.
Qed.

Lemma append_list a b : String.list_ascii_of_string (a +:+ b) = String.list_ascii_of_string a ++ String.list_ascii_of_string b.
Proof. apply list_of_string_app. Qed.
Lemma string_inj (a b : string) : String.list_ascii_of_string a = String.list_ascii_of_string b → a = b.
Proof. intros H. apply (f_equal String.string_of_list_ascii) in H. by rewrite !String.string_of_list_ascii_of_string in H. Qed.

Lemma FormatUint_no_nul n : 0 ≤ n → Ascii.ascii_of_nat 0 ∉ String.list_ascii_of_string (FormatUint n).
Proof.
  intros Hn Hin. unfold FormatUint in Hin. rewrite String.list_ascii_of_string_of_list_ascii in Hin.
  assert (∀ fuel n, 0 ≤ n → Ascii.ascii_of_nat 0 ∉ format_digits fuel n) as H; [|by apply (H 20%nat n)].
  clear. assert (∀ d, 0 ≤ d < 10 → Ascii.ascii_of_nat 0 ≠ digit_char d) as Hd.
  { intros d Hd E. pose proof (char_digit_char d Hd) as H. by rewrite <- E in H. }
  induction fuel as [|fuel IH]; intros n Hn; cbn [format_digits]; [apply not_elem_of_nil|].
  destruct (Z.ltb_spec n 10); [by intros H1%list_elem_of_singleton; revert H1; apply Hd|].
  intros [H1|H1%list_elem_of_singleton]%elem_of_app; [revert H1; apply IH, Z.div_pos; lia|revert H1; apply Hd, Z.mod_pos_bound; lia].
Qed.

Lemma FormatUint_inj n n' : is_u64 n → is_u64 n' → FormatUint n = FormatUint n' → n = n'.
Proof. intros Hn Hn' E. apply (f_equal (ParseUint 64)) in E. rewrite !Parse_FormatUint in E by done. by injection E. Qed.

(** What is hashed tells sessions, epochs and kinds apart, whatever bytes the
    session's ID has. *)
Lemma preimages_apart s e s' e' : is_u64 e → is_u64 e' →
  (migration_preimage s e = migration_preimage s' e' → s = s' ∧ e = e') ∧ (session_preimage s = session_preimage s' → s = s')
  ∧ session_preimage s ≠ migration_preimage s' e'.
Proof.
  intros He He'. unfold fits in *. split_and!.
  - intros H. apply (f_equal String.list_ascii_of_string) in H. unfold migration_preimage, nul in H. rewrite !append_list in H. cbn [String.list_ascii_of_string] in H.
    apply app_inv_head in H. cbn [app] in H. injection H as H. apply app_last_inj in H as [H1 H2]; [|apply FormatUint_no_nul; lia..].
    split; [by apply string_inj|]. apply FormatUint_inj; [unfold fits; lia..|by apply string_inj].
  - intros H. apply (f_equal String.list_ascii_of_string) in H. unfold session_preimage, nul in H. rewrite !append_list in H.
    do 2 apply app_inv_head in H. by apply string_inj.
  - intros H. apply (f_equal String.list_ascii_of_string) in H. unfold session_preimage, migration_preimage in H. rewrite !append_list in H. done.
Qed.

(** ** Sorting *)

Lemma insert_by_perm {A} (key : A → Z) x l : insert_by key x l ≡ₚ x :: l.
Proof. induction l as [|y l IH]; cbn; [done|]. destruct (_ <=? _); [done|]. rewrite IH. apply Permutation_swap. Qed.
Lemma sort_by_perm {A} (key : A → Z) l : sort_by key l ≡ₚ l.
Proof. induction l as [|x l IH]; cbn; [done|]. rewrite insert_by_perm. by constructor. Qed.

Definition sorted_by {A} (key : A → Z) : list A → Prop := StronglySorted (λ a b, key a ≤ key b).
Lemma insert_by_sorted {A} (key : A → Z) x l : sorted_by key l → sorted_by key (insert_by key x l).
Proof.
  induction 1 as [|y l Hl IH Hy]; cbn; [repeat constructor|]. destruct (Z.leb_spec (key x) (key y)).
  - constructor; [by constructor|]. constructor; [done|]. eapply Forall_impl; [exact Hy|]. cbn. lia.
  - constructor; [done|]. rewrite insert_by_perm. constructor; [lia|done].
Qed.
Lemma sort_by_sorted {A} (key : A → Z) l : sorted_by key (sort_by key l).
Proof. induction l; cbn; [constructor|by apply insert_by_sorted]. Qed.

(** ** Grouping *)

Definition relevant (s : SpanRecord) : bool := HasPrefix (sr_Span s) "migration." && negb (String.eqb (sr_TraceID s) "").
Definition of_trace (id : string) (spans : list SpanRecord) : list SpanRecord := filter (λ s, relevant s = true ∧ sr_TraceID s = id) spans.
Definition group (ss : list SpanRecord) : option Migration :=
  match ss with [] => None | s :: _ => Some (mkMigration (sr_TraceID s) (sr_Session s) (sr_Epoch s) ss) end.

Lemma of_trace_snoc id l s : of_trace id (l ++ [s]) = of_trace id l ++ (if decide (relevant s = true ∧ sr_TraceID s = id) then [s] else []).
Proof. unfold of_trace. rewrite filter_app, filter_cons, filter_nil. by destruct (decide _). Qed.

Lemma group_fold spans : let '(byTrace, order) := fold_left group_step spans (∅, []) in
  (∀ id, byTrace !! id = group (of_trace id spans)) ∧ NoDup order ∧ ∀ id, id ∈ order ↔ of_trace id spans ≠ [].
Proof.
  induction spans as [|s spans IH] using rev_ind; [split_and!; [done|constructor|]; intros id; split; [by intros ?%elem_of_nil|done]|].
  rewrite fold_left_app. cbn [fold_left]. destruct (fold_left group_step spans (∅, [])) as [byTrace order]. destruct IH as (Hm & Hn & Ho).
  unfold group_step. replace (negb (HasPrefix (sr_Span s) "migration.") || String.eqb (sr_TraceID s) "") with (negb (relevant s))
    by (unfold relevant; by rewrite negb_andb, negb_involutive).
  destruct (relevant s) eqn:Er; cbn [negb].
  2: { split_and!; [|done|]; intros id; rewrite of_trace_snoc, decide_False, app_nil_r by (intros [? _]; congruence); auto. }
  assert (∀ id, of_trace id (spans ++ [s]) = of_trace id spans ++ (if decide (sr_TraceID s = id) then [s] else [])) as Hs.
  { intros id. rewrite of_trace_snoc. destruct (decide (sr_TraceID s = id)); [rewrite decide_True by done|rewrite decide_False by tauto]; done. }
  pose proof (Hm (sr_TraceID s)) as Hlook. destruct (byTrace !! sr_TraceID s) as [m|] eqn:E.
  - destruct (of_trace (sr_TraceID s) spans) as [|s0 ss] eqn:Et; [done|]. cbn in Hlook. injection Hlook as ->. split_and!; [|done|].
    + intros id. rewrite Hs. destruct (decide (sr_TraceID s = id)) as [<-|Hne].
      * rewrite lookup_insert_eq, Et. done.
      * by rewrite lookup_insert_ne, app_nil_r.
    + intros id. rewrite Hs, Ho. destruct (decide (sr_TraceID s = id)) as [<-|Hne]; [rewrite Et; done|by rewrite app_nil_r].
  - destruct (of_trace (sr_TraceID s) spans) as [|s0 ss] eqn:Et; [|done]. split_and!.
    + intros id. rewrite Hs. destruct (decide (sr_TraceID s = id)) as [<-|Hne]; [by rewrite lookup_insert_eq, Et|by rewrite lookup_insert_ne, app_nil_r].
    + apply NoDup_app. split_and!; [done| |apply NoDup_singleton]. intros id Hin ->%list_elem_of_singleton. by apply Ho in Hin.
    + intros id. rewrite elem_of_app, list_elem_of_singleton, Hs, Ho. destruct (decide (sr_TraceID s = id)) as [<-|Hne].
      * rewrite Et. split; [done|]. by right.
      * rewrite app_nil_r. split; [intros [?| ->]; done|by left].
Qed.

Lemma group_Some ss m : group ss = Some m → ss ≠ [] ∧ mg_Spans m = ss.
Proof. destruct ss; [done|]. by intros [= <-]. Qed.

Lemma Migrations_elem spans m : m ∈ Migrations spans ↔ ∃ id, sorted_spans <$> group (of_trace id spans) = Some m.
Proof.
  unfold Migrations. pose proof (group_fold spans) as H. destruct (fold_left group_step spans (∅, [])) as [byTrace order].
  destruct H as (Hm & Hn & Ho). rewrite sort_by_perm, list_elem_of_omap. split.
  - intros (id & _ & E). exists id. by rewrite <- Hm.
  - intros [id E]. exists id. split; [|by rewrite Hm]. apply Ho. destruct (group _) as [g|] eqn:Eg; [|done]. by apply group_Some in Eg as [? _].
Qed.

Lemma Migrations_sorted spans : sorted_by mg_Start (Migrations spans).
Proof. unfold Migrations. destruct (fold_left _ _ _). apply sort_by_sorted. Qed.

Lemma of_trace_id id spans s : s ∈ of_trace id spans → sr_TraceID s = id ∧ relevant s = true ∧ s ∈ spans.
Proof. unfold of_trace. rewrite list_elem_of_filter. tauto. Qed.

Lemma Migrations_NoDup spans : NoDup (mg_TraceID <$> Migrations spans).
Proof.
  unfold Migrations. pose proof (group_fold spans) as H. destruct (fold_left group_step spans (∅, [])) as [byTrace order].
  destruct H as (Hm & Hn & _). rewrite sort_by_perm. induction Hn as [|id order Hid Hn IH]; [constructor|]. cbn [omap list_omap].
  destruct (sorted_spans <$> byTrace !! id) as [m|] eqn:E; [|done]. rewrite fmap_cons. apply NoDup_cons. split; [|done].
  assert (∀ id' m', sorted_spans <$> byTrace !! id' = Some m' → mg_TraceID m' = id') as Hid'.
  { intros id' m' E'. rewrite Hm in E'. destruct (of_trace id' spans) as [|s ss] eqn:Et; [done|]. injection E' as <-. cbn.
    assert (s ∈ of_trace id' spans) as Hs by (rewrite Et; by left). by apply of_trace_id in Hs as [? _]. }
  intros (m' & E' & (id' & Hin & Eq)%list_elem_of_omap)%list_elem_of_fmap. rewrite (Hid' _ _ E), (Hid' _ _ Eq) in E'. by subst id'.
Qed.

(** ** From a log to a timeline *)

Definition jv (a : attr_value) : jvalue :=
  match a with AString s => JString s | AUint64 n => JNumber (of_int n) | AFloat64 f => JNumber f end.
Definition add_attrs (l : list Attr) (m : gmap string jvalue) : gmap string jvalue := fold_left (λ m kv, <[kv.1 := jv kv.2]> m) l m.

(** A record as slog's JSON handler writes it and encoding/json reads it. *)
Definition json_object (lo : Logger) (time level : string) (r : LogRecord) : gmap string jvalue :=
  add_attrs (("time", AString time) :: ("level", AString level) :: ("msg", AString (lg_msg r)) :: lo_attrs lo ++ lg_attrs r) ∅.

(** The last attribute under a key. *)
Fixpoint attr_get (k : string) (l : list Attr) : option attr_value :=
  match l with
  | [] => None
  | kv :: l => match attr_get k l with Some v => Some v | None => if String.eqb kv.1 k then Some kv.2 else None end
  end.
Lemma add_attrs_get k l : ∀ m, add_attrs l m !! k = match attr_get k l with Some v => Some (jv v) | None => m !! k end.
Proof.
  induction l as [|[k' v] l IH]; intros m; [done|]. unfold add_attrs in *. cbn [fold_left attr_get]. rewrite IH. destruct (attr_get k l); [done|]. cbn.
  destruct (String.eqb_spec k' k) as [->|Hne]; [by rewrite lookup_insert_eq|by rewrite lookup_insert_ne].
Qed.
Lemma attr_get_app k l l' : attr_get k (l ++ l') = match attr_get k l' with Some v => Some v | None => attr_get k l end.
Proof. induction l as [|kv l IH]; cbn; [by destruct (attr_get k l')|]. rewrite IH. by destruct (attr_get k l'). Qed.
Lemma attr_get_other k (P : string → Prop) l : Forall (λ kv : Attr, P kv.1) l → ¬ P k → attr_get k l = None.
Proof.
  intros H Hk. induction H as [|[k' v] l Hk' _ IH]; [done|]. cbn. rewrite IH. destruct (String.eqb_spec k' k) as [->|]; [done|done].
Qed.

Lemma round_length s kw : length s = 8%nat → length (Sha256.round s kw) = 8%nat.
Proof. intros H. do 9 (destruct s as [|? s]; try discriminate H). done. Qed.
Lemma rounds_length l : ∀ s, length s = 8%nat → length (fold_left Sha256.round l s) = 8%nat.
Proof. induction l as [|x l IH]; intros s H; [done|]. cbn. by apply IH, round_length. Qed.
Lemma blocks_length l : ∀ s, length s = 8%nat → length (fold_left Sha256.block_step l s) = 8%nat.
Proof.
  induction l as [|x l IH]; intros s H; [done|]. cbn [fold_left]. apply IH. unfold Sha256.block_step.
  rewrite length_fmap, length_zip_with, rounds_length by done. lia.
Qed.

Lemma traceID_nonempty s : traceID s ≠ "".
Proof.
  unfold traceID, Sha256.Sum256. pose proof (blocks_length (Sha256.chunks 64 (length (Sha256.padded (string_bytes s))) (Sha256.padded (string_bytes s))) Sha256.H0 eq_refl) as H.
  destruct (fold_left Sha256.block_step _ _) as [|h hs]; [done|]. rewrite bind_cons. done.
Qed.

Section read_back.
Context `{!TimeText, !TimeTextLaws} (format_g : float64 → string).

(** A span of a migration as some process logged it. *)
Record logged := mkLogged {
  ld_logger : Logger; ld_time : string; ld_level : string;
  ld_session : string; ld_epoch : Z; ld_name : string; ld_start : Time; ld_attrs : list Attr;
  ld_status : string; ld_err : option string; ld_end : Time }.
Definition logged_span (l : logged) : option Span :=
  StartAt true (WithMigration None (ld_session l) (ld_epoch l)) (ld_name l) (ld_start l) (ld_attrs l).
Definition logged_records (l : logged) : list LogRecord := (EndStatus (ld_status l) (ld_err l) (ld_end l) (logged_span l)).2.
Definition logged_read (l : logged) : list SpanRecord :=
  omap (λ r, read_span format_g (json_object (ld_logger l) (ld_time l) (ld_level l) r)) (logged_records l).

(** The process's logger is one of NewLogger, its attributes have names of
    their own, and the span is a migration's. *)
Record logged_ok (l : logged) : Prop := {
  lk_logger : ∃ cfg, NewLogger cfg = Some (ld_logger l);
  lk_attrs : Forall (λ kv : Attr, kv.1 ∉ spanFields) (ld_attrs l);
  lk_epoch : 0 ≤ ld_epoch l < 2 ^ 53;
  lk_name : HasPrefix (ld_name l) "migration." = true;
}.

Lemma NewLogger_attrs cfg lo : NewLogger cfg = Some lo → Forall (λ kv : Attr, kv.1 ∈ ["role"; "node"; "version"]) (lo_attrs lo).
Proof.
  unfold NewLogger. destruct (ParseLevel _); [|done]. destruct (lc_Writer cfg); [cbn [negb]|done]. destruct (if String.eqb _ _ || _ then _ else _); [|done].
  intros [= <-]. cbn. constructor; [cbn; by left|]. destruct (String.eqb (lc_Node cfg) ""); cbn; repeat constructor; set_solver.
Qed.

Definition read_fields : list string := ["msg"; "trace_id"; "session"; "epoch"; "span"; "status"; "err"; "start"].

Lemma json_get lo time level st err end_ sp k :
  Forall (λ kv : Attr, kv.1 ∈ ["role"; "node"; "version"]) (lo_attrs lo) → Forall (λ kv : Attr, kv.1 ∉ spanFields) (sp_attrs sp) → k ∈ read_fields →
  json_object lo time level (span_record st err end_ sp) !! k =
  jv <$> attr_get k (("msg", AString "span") :: trace_attrs (sp_ctx sp) ++ core_attrs st end_ sp ++ err_attrs err).
Proof.
  intros Hlo Hsp Hk. unfold json_object, span_record. rewrite add_attrs_get, lookup_empty. cbn [lg_attrs lg_msg].
  assert (attr_get k (sp_attrs sp) = None) as E1.
  { apply (attr_get_other k (λ x, x ∉ spanFields)); [done|]. intros Hn. apply Hn. unfold read_fields, spanFields in *.
    repeat apply elem_of_cons in Hk as [->|Hk]; [by repeat constructor..|by apply elem_of_nil in Hk]. }
  assert (attr_get k (lo_attrs lo) = None) as E2.
  { apply (attr_get_other k (λ x, x ∈ ["role"; "node"; "version"]) _ Hlo). intros Hn. repeat apply elem_of_cons in Hk as [->|Hk]; try by apply elem_of_nil in Hk.
    all: repeat apply elem_of_cons in Hn as [Hn|Hn]; try done; by apply elem_of_nil in Hn. }
  assert (k ≠ "time" ∧ k ≠ "level") as [T L].
  { repeat apply elem_of_cons in Hk as [->|Hk]; [done..|by apply elem_of_nil in Hk]. }
  apply not_eq_sym, String.eqb_neq in T, L. cbn [attr_get fst snd]. rewrite T, L, !attr_get_app, E1, E2. destruct (attr_get k (err_attrs err)), (attr_get k (core_attrs st end_ sp)), (attr_get k (trace_attrs (sp_ctx sp))), (String.eqb "msg" k); reflexivity.
Qed.

Lemma read_back l : logged_ok l → ∃ r, logged_read l = [r] ∧ sr_TraceID r = MigrationTraceID (ld_session l) (ld_epoch l)
  ∧ sr_Session r = ld_session l ∧ sr_Epoch r = ld_epoch l ∧ sr_Span r = ld_name l ∧ sr_Status r = ld_status l
  ∧ sr_Err r = default "" (ld_err l) ∧ sr_Start r = ld_start l.
Proof.
  intros [(cfg & Hlog%NewLogger_attrs) Ha He Hn]. unfold logged_read, logged_records, logged_span, StartAt, EndStatus. cbn [sp_ended snd omap list_omap].
  set (sp := mkSpan _ _ _ _ _). set (m := json_object _ _ _ _).
  assert (∀ k, k ∈ read_fields → m !! k = jv <$> attr_get k (("msg", AString "span") :: trace_attrs (sp_ctx sp) ++ core_attrs (ld_status l) (ld_end l) sp ++ err_attrs (ld_err l))) as Hm
    by (intros k Hk; by apply json_get).
  assert (trace_attrs (sp_ctx sp) = ("trace_id", AString (MigrationTraceID (ld_session l) (ld_epoch l)))
    :: (if String.eqb (ld_session l) "" then [] else [("session", AString (ld_session l))]) ++ [("epoch", AUint64 (ld_epoch l))]) as Ht.
  { cbn [sp sp_ctx WithMigration trace_attrs ti_traceID ti_session ti_epoch ti_hasEpoch].
    by rewrite (proj2 (String.eqb_neq _ _)) by apply traceID_nonempty. }
  rewrite Ht in Hm. unfold read_span.
  assert (m !! ("msg" : string) = Some (JString "span")) as ->.
  { rewrite Hm by by repeat constructor. destruct (String.eqb (ld_session l) ""), (ld_err l); reflexivity. }
  cbn [String.eqb Ascii.eqb Bool.eqb]. eexists. split; [reflexivity|].
  cbn [sr_TraceID sr_Session sr_Epoch sr_Span sr_Status sr_Err sr_Start]. rewrite !Hm by by repeat constructor.
  split_and!.
  - destruct (String.eqb (ld_session l) ""), (ld_err l); reflexivity.
  - destruct (String.eqb_spec (ld_session l) "") as [Es|], (ld_err l); try reflexivity; by rewrite Es.
  - transitivity (u64 (to_int (of_int (ld_epoch l)))); [destruct (String.eqb (ld_session l) ""), (ld_err l); reflexivity|].
    rewrite of_int_exact by done. apply wrap_small. unfold fits. lia.
  - destruct (String.eqb (ld_session l) ""), (ld_err l); reflexivity.
  - destruct (String.eqb (ld_session l) ""), (ld_err l); reflexivity.
  - destruct (String.eqb (ld_session l) ""), (ld_err l); reflexivity.
  - transitivity (default zero_time (ParseTime (FormatTime (ld_start l)))); [destruct (String.eqb (ld_session l) ""), (ld_err l); reflexivity|].
    by rewrite Parse_FormatTime.
Qed.

Definition same_migration (s : string) (e : Z) (l : logged) : Prop := ld_session l = s ∧ ld_epoch l = e.
#[local] Instance same_migration_dec s e l : Decision (same_migration s e l).
Proof. unfold same_migration. apply _. Defined.

(** No two of the migrations' trace IDs collide. *)
Definition no_collision (ls : list logged) : Prop :=
  ∀ l l', l ∈ ls → l' ∈ ls → MigrationTraceID (ld_session l) (ld_epoch l) = MigrationTraceID (ld_session l') (ld_epoch l') →
    migration_preimage (ld_session l) (ld_epoch l) = migration_preimage (ld_session l') (ld_epoch l').

Lemma of_trace_read ls s e : Forall logged_ok ls → no_collision ls → (∃ l, l ∈ ls ∧ same_migration s e l) →
  of_trace (MigrationTraceID s e) (ls ≫= logged_read) = filter (same_migration s e) ls ≫= logged_read.
Proof.
  intros Hok Hnc (l0 & Hl0 & <- & <-).
  assert (∀ l, l ∈ ls → MigrationTraceID (ld_session l) (ld_epoch l) = MigrationTraceID (ld_session l0) (ld_epoch l0) ↔ same_migration (ld_session l0) (ld_epoch l0) l) as Hid.
  { intros l Hl. split; [|by intros [-> ->]]. intros E. rewrite Forall_forall in Hok. destruct (Hok l Hl) as [_ _ He _], (Hok l0 Hl0) as [_ _ He0 _].
    apply (preimages_apart _ _ (ld_session l0) (ld_epoch l0)); [unfold fits; lia..|]. by apply Hnc. }
  clear Hnc Hl0. induction ls as [|l ls IH]; [done|]. apply Forall_cons in Hok as [Hl Hok]. rewrite bind_cons.
  destruct (read_back l Hl) as (r & Er & Ht & _ & _ & Hs & _). rewrite Er. unfold of_trace in *. cbn [app]. rewrite !filter_cons.
  assert (relevant r = true) as Hr.
  { unfold relevant. rewrite Hs, (lk_name l Hl), Ht. cbn [andb]. apply negb_true_iff, String.eqb_neq, traceID_nonempty. }
  rewrite (IH Hok) by (intros l' Hl'; apply Hid; by right). rewrite Ht.
  destruct (decide (same_migration (ld_session l0) (ld_epoch l0) l)) as [Hsame|Hn].
  - rewrite decide_True by (split; [done|]; apply Hid; [by left|done]). by rewrite bind_cons, Er.
  - rewrite decide_False; [done|]. intros [_ E]. apply Hn, Hid; [by left|done].
Qed.


(** A span is logged once, however often it is ended. *)
Lemma span_ends_once st err now st' err' now' s : (EndStatus st' err' now' (EndStatus st err now s).1).2 = [].
Proof. destruct s as [s|]; [|done]. cbn. by destruct (sp_ended s) eqn:E; cbn; rewrite ?E. Qed.
End read_back.

(** ** Three processes *)

Module TracingDemo.

(** Times as digits of some numbering. *)
Definition digit (b : bool) : Ascii.ascii := Ascii.ascii_of_nat (if b then 49 else 48).
Fixpoint bits (p : positive) : string :=
  match p with xH => "" | xO p => String (digit false) (bits p) | xI p => String (digit true) (bits p) end.
Fixpoint unbits (s : string) : positive :=
  match s with EmptyString => xH | String c s => if Ascii.eqb c (digit true) then xI (unbits s) else xO (unbits s) end.
#[export] Instance digits : TimeText := {| FormatTime t := bits (encode t); ParseTime s := decode (unbits s) |}.
#[export] Instance digits_laws : TimeTextLaws.
Proof.
  split. intros t. cbn. assert (∀ p, unbits (bits p) = p) as ->; [|apply decode_encode]. induction p as [p IH|p IH|]; [| |done]; change (unbits (bits _)) with (xI (unbits (bits p))) || change (unbits (bits _)) with (xO (unbits (bits p))); by rewrite IH.
Qed.

Definition logger (role node : string) : Logger :=
  default (mkLogger LevelInfo true []) (NewLogger (mkLogConfig true "json" "" role node "1.0")).
Definition logs (lo : Logger) (session : string) (epoch : Z) (name : string) (start : Time) : logged :=
  mkLogged lo "" "INFO" session epoch ("migration." +:+ name) start [("access", AString "sg")] StatusOK None (start + 1000).

(** The client decides, the controller commits, a gateway applies; another
    session moves at the same time. *)
Definition day : list logged :=
  [logs (logger "client" "") "7" 3 "decide" 10; logs (logger "gateway" "sg") "7" 3 "apply" 40;
   logs (logger "client" "") "8" 3 "decide" 5; logs (logger "controller" "") "7" 3 "commit" 20].

Example grouped :
  (λ m, (mg_Session m, mg_Epoch m, (λ r, (Process r, sr_Span r)) <$> mg_Spans m)) <$> Migrations (day ≫= logged_read (λ _, "")) =
  [("8", 3, [("client", "migration.decide")]);
   ("7", 3, [("client", "migration.decide"); ("controller", "migration.commit"); ("gateway sg", "migration.apply")])].
Proof. vm_compute. reflexivity. Qed.

Lemma logs_ok role node session epoch name start : 0 ≤ epoch < 2 ^ 53 → logged_ok (logs (logger role node) session epoch name start).
Proof.
  intros He. split; [by exists (mkLogConfig true "json" "" role node "1.0")| |done|by destruct name].
  apply Forall_singleton. cbn. intros H. repeat apply elem_of_cons in H as [H|H]; try done; by apply elem_of_nil in H.
Qed.

Definition collides (l l' : logged) : bool :=
  String.eqb (MigrationTraceID (ld_session l) (ld_epoch l)) (MigrationTraceID (ld_session l') (ld_epoch l'))
  && negb (String.eqb (migration_preimage (ld_session l) (ld_epoch l)) (migration_preimage (ld_session l') (ld_epoch l'))).
Lemma collision_check ls : existsb (λ l, existsb (collides l) ls) ls = false → no_collision ls.
Proof.
  intros H l l' Hl Hl' E. apply not_true_iff_false in H.
  destruct (String.eqb_spec (migration_preimage (ld_session l) (ld_epoch l)) (migration_preimage (ld_session l') (ld_epoch l'))) as [|Hne]; [done|].
  exfalso. apply H, existsb_exists. exists l. split; [by apply list_elem_of_In|]. apply existsb_exists. exists l'. split; [by apply list_elem_of_In|].
  unfold collides. apply String.eqb_eq in E. apply String.eqb_neq in Hne. by rewrite E, Hne.
Qed.

Lemma day_ok : Forall logged_ok day ∧ no_collision day.
Proof.
  split.
  - unfold day. rewrite !Forall_cons. split_and!; [by apply logs_ok..|constructor].
  - apply collision_check. vm_compute. reflexivity.
Qed.


End TracingDemo.
