(* ===== verification/Http.v ===== *)
(** * The HTTP API between the nodes and the controller: internal/api/client.go
    and the HTTP half of internal/controller/server.go

    The client's methods make requests and read responses as text; the
    controller's mux reads requests and hands them to the handlers of
    Controller. JSON is a [Codec] per type, the transport a function from a
    request to a response. The two state routes are long polls: [waitVersion]
    is a step relation of its own, and in [serve_http] what the other requests
    do to the server during the wait is an argument. *)

From S2P Require Import Prelude GoStrings Store Ownership Services Netip GoFloat Cost Api Controller ControllerSpec.

Definition chr (n : nat) : Ascii.ascii := Ascii.ascii_of_nat n.
Definition text_bytes (s : string) : bytes := (λ c, Z.of_nat (Ascii.nat_of_ascii c)) <$> String.list_ascii_of_string s.
Definition bytes_text (b : bytes) : string := String.string_of_list_ascii ((λ x, chr (Z.to_nat x)) <$> b).

(** [strings.CutPrefix] *)
Fixpoint CutPrefix (s prefix : string) {struct prefix} : option string :=
  match prefix, s with
  | EmptyString, _ => Some s
  | String p prefix, String c s => if Ascii.eqb p c then CutPrefix s prefix else None
  | String _ _, EmptyString => None
  end.

(** ** net/url *)

(** [shouldEscape(c, encodePathSegment)], negated. *)
Definition path_plain (c : Ascii.ascii) : bool :=
  let n := Ascii.nat_of_ascii c in
  ((97 <=? n) && (n <=? 122) || (65 <=? n) && (n <=? 90) || (48 <=? n) && (n <=? 57)
   || existsb (Nat.eqb n) [45; 95; 46; 126; 36; 38; 43; 61; 58; 64])%nat.
Definition upper_hex (d : nat) : Ascii.ascii := chr (if (d <? 10)%nat then 48 + d else 55 + d).
Definition escape_char (c : Ascii.ascii) : list Ascii.ascii :=
  let n := Ascii.nat_of_ascii c in
  if path_plain c then [c] else [chr 37; upper_hex (n / 16); upper_hex (n mod 16)].
Definition PathEscape (s : string) : string :=
  String.string_of_list_ascii (String.list_ascii_of_string s ≫= escape_char).

Definition unhex (c : Ascii.ascii) : option nat :=
  let n := Ascii.nat_of_ascii c in
  if ((48 <=? n) && (n <=? 57))%nat then Some (n - 48)%nat
  else if ((97 <=? n) && (n <=? 102))%nat then Some (n - 87)%nat
  else if ((65 <=? n) && (n <=? 70))%nat then Some (n - 55)%nat else None.
(** [unescape]; in a query a plus sign is a space. *)
Fixpoint unescape (query : bool) (l : list Ascii.ascii) : option (list Ascii.ascii) :=
  match l with
  | [] => Some []
  | c :: l =>
      if Ascii.eqb c (chr 37) then
        match l with
        | a :: b :: l =>
            match unhex a, unhex b with
            | Some x, Some y => cons (chr (16 * x + y)) <$> unescape query l
            | _, _ => None
            end
        | _ => None
        end
      else cons (if query && Ascii.eqb c (chr 43) then chr 32 else c) <$> unescape query l
  end.
Definition Unescape (query : bool) (s : string) : option string :=
  String.string_of_list_ascii <$> unescape query (String.list_ascii_of_string s).

(** [url.Query().Get(key)]: parts with a semicolon or a bad escape are left out. *)
Definition query_part (part : string) : option (string * string) :=
  if negb (lacks (chr 59) part) || String.eqb part "" then None
  else
    let '(k, v) := match Cut (chr 61) part with Some kv => kv | None => (part, "") end in
    match Unescape true k, Unescape true v with Some k, Some v => Some (k, v) | _, _ => None end.
Definition query_get (query key : string) : string :=
  match list_find (λ kv, kv.1 = key) (omap query_part (Split (chr 38) query)) with
  | Some (_, kv) => kv.2
  | None => ""
  end.

(** ** The controller's mux *)

Inductive route := Healthz | RegisterGateway | ReportLinks | GetGatewayState | ListGateways | CreateSession
  | GetClientState | MigrateSession.
Inductive pat := Lit (s : string) | Id.

Definition routes : list (string * list pat * route) :=
  [("GET", [Lit "healthz"], Healthz);
   ("PUT", [Lit "v1"; Lit "gateways"; Id], RegisterGateway);
   ("POST", [Lit "v1"; Lit "gateways"; Id; Lit "links"], ReportLinks);
   ("GET", [Lit "v1"; Lit "gateway-state"], GetGatewayState);
   ("GET", [Lit "v1"; Lit "gateways"], ListGateways);
   ("POST", [Lit "v1"; Lit "sessions"], CreateSession);
   ("GET", [Lit "v1"; Lit "sessions"; Id; Lit "state"], GetClientState);
   ("POST", [Lit "v1"; Lit "sessions"; Id; Lit "migrate"], MigrateSession)].

(** [http.ServeMux]: a pattern matches segment by segment, the segments of the
    request unescaped; [Id] is a wildcard, whose value is the path value. *)
Fixpoint match_path (ps : list pat) (segs : list string) (id : string) : option string :=
  match ps, segs with
  | [], [] => Some id
  | Lit l :: ps, s :: segs => if String.eqb l s then match_path ps segs id else None
  | Id :: ps, s :: segs => if String.eqb s "" then None else match_path ps segs s
  | _, _ => None
  end.

(** A pattern for GET matches HEAD too. *)
Definition method_ok (pattern method : string) : bool :=
  String.eqb pattern method || String.eqb pattern "GET" && String.eqb method "HEAD".

Definition dotted (seg : string) : bool := String.eqb seg "" || String.eqb seg "." || String.eqb seg "..".

(** The route of a request and its path value, or the status the mux answers
    with: a redirect for a path that is not clean, 405 for a path known with
    another method, 404. *)
Definition mux (method path : string) : res Z (route * string) :=
  match Split (chr 47) path with
  | "" :: segs =>
      if existsb dotted (removelast segs) || match last segs with Some s => String.eqb s "." || String.eqb s ".." | None => false end
      then Err 301
      else match mapM (Unescape false) segs with
      | None => Err StatusNotFound
      | Some segs =>
          let hits := omap (λ '(m, ps, r), (λ id, (m, r, id)) <$> match_path ps segs "") routes in
          match list_find (λ h, method_ok h.1.1 method = true) hits with
          | Some (_, (_, r, id)) => Ok (r, id)
          | None => Err (if decide (hits = []) then StatusNotFound else 405)
          end
      end
  | _ => Err StatusBadRequest
  end.

Record http_req := mkReq { rq_Method : string; rq_URL : string; rq_Auth : string; rq_Body : bytes }.
Record http_resp := mkHttp { rs_Code : Z; rs_Body : bytes }.

(** [api.Error] and [api.RegisterGatewayResponse] *)
Record ApiError := mkApiError { e_Error : string; e_Session : option ApiSession }.
Record RegisterGatewayResponse := mkRegistered { rr_NodeIP : Addr; rr_Network : Network }.

Definition maxWait : Duration := 60 * Second.

(** What [strconv.ParseUint] and [ParseInt] return beside an error: 0, or the
    end of the range. *)
Definition digits_value (s : string) : option Z :=
  match String.list_ascii_of_string s with [] => None | cs => fold_left parse_step cs (Some 0) end.
Definition ParseUint_value (s : string) : Z := match digits_value s with Some v => Z.min v (2 ^ 64 - 1) | None => 0 end.
Definition ParseInt_value (s : string) : Z :=
  match ParseInt s with
  | Some v => v
  | None =>
      match s with
      | String c r =>
          if Ascii.eqb c (chr 45) then (if digits_value r then - 2 ^ 63 else 0)
          else if Ascii.eqb c (chr 43) then (if digits_value r then 2 ^ 63 - 1 else 0)
          else if digits_value s then 2 ^ 63 - 1 else 0
      | EmptyString => 0
      end
  end.

(** The parameters of a long poll. *)
Definition poll_after (query : string) : Z := ParseUint_value (query_get query "after").
Definition poll_wait (query : string) : Duration :=
  Z.min (i64 (ParseInt_value (query_get query "wait") * Millisecond)) maxWait.

(** ** The server's HTTP handlers *)

(** The JSON of requests and responses. A body that is not an [api.Error] is
    still read into one by the client: [unmarshal_error] is what is left in it. *)
Class ApiJson := {
  json_register :: Codec RegisterGatewayRequest;
  json_links :: Codec (list Link);
  json_create :: Codec CreateSessionRequest;
  json_migrate :: Codec MigrateRequest;
  json_registered :: Codec RegisterGatewayResponse;
  json_created :: Codec CreateSessionResponse;
  json_session :: Codec ApiSession;
  json_gateways :: Codec (list Gateway);
  json_gwstate :: Codec GatewayState;
  json_clstate :: Codec ClientState;
  marshal_error : ApiError → bytes;
  unmarshal_error : bytes → ApiError;
  error_ok : ApiError → Prop;
}.

Section handlers.
Context `{!NetParse, !Codec Gateway, !Codec clientRecord, !Codec OwnershipRecord, !Codec Policy.PolicyDocument, !ApiJson}.
Context {St : Type} `{!KVStore St} (fencer : option (Fencer St)).
Context (hashSecret : string → string) (hmacPSK : bytes → string → string) (cfg : SConfig).
(** The error texts, which the model of the handlers leaves out, and the texts
    of the mux. *)
Context (texts : response → string) (mux_text : Z → bytes).

(** [New]: the subnets are disjoint IPv4 prefixes, kept masked. *)
Definition Overlaps (p o : Prefix) : bool :=
  if negb (pf_IsValid p) || negb (pf_IsValid o) then false
  else if bool_decide (p = o) then true
  else if negb (Bool.eqb (Is4 (pf_Addr p)) (Is4 (pf_Addr o))) then false
  else
    let minBits := Z.min (pf_Bits p) (pf_Bits o) in
    if minBits =? 0 then true
    else match addr_Prefix (pf_Addr p) minBits, addr_Prefix (pf_Addr o) minBits with
         | Some p, Some o => bool_decide (pf_Addr p = pf_Addr o)
         | _, _ => false
         end.

Definition New (policy : option Policy.PolicyDocument) (st : St) : St * option (SConfig * Server St) :=
  let n := cfg_Network cfg in
  if negb (pf_IsValid (ClientSubnet n)) || negb (pf_IsValid (NodeSubnet n)) || (ProbePort n =? 0) then (st, None)
  else if negb (Is4 (pf_Addr (ClientSubnet n))) || negb (Is4 (pf_Addr (NodeSubnet n))) || Overlaps (ClientSubnet n) (NodeSubnet n)
  then (st, None)
  else
    let cfg := mkSConfig (GatewayToken cfg) (ClientToken cfg)
                 (mkNetwork (Masked (ClientSubnet n)) (Masked (NodeSubnet n)) (ProbePort n))
                 (if AliveAfter cfg <=? 0 then DefaultAliveAfter else AliveAfter cfg) (IPsecKey cfg) in
    match policy with
    | None => (st, Some (cfg, mkServer st 1 ∅ ∅ ∅))
    | Some doc =>
        match Policy.policy_Set doc st with
        | (st, Some _) => (st, None)
        | (st, None) => (st, Some (cfg, mkServer st 1 ∅ ∅ ∅))
        end
    end.

(** [decode]: at most 1 MiB. *)
Definition decode {A} `{!Codec A} (b : bytes) : option A :=
  if Z.of_nat (length b) <=? 2 ^ 20 then unmarshal b else None.

(** [writeJSON] and [writeErr]: an encoding error leaves the body empty. *)
Definition write (r : response) : http_resp :=
  mkHttp (resp_code r)
    (match resp_body r with
     | NoBody => []
     | ErrorBody cur => marshal_error (mkApiError (texts r) cur)
     | RegisteredBody ip n => default [] (marshal (mkRegistered ip n))
     | CreatedBody c => default [] (marshal c)
     | SessionBody s => default [] (marshal s)
     | GatewaysBody gws => default [] (marshal gws)
     | GatewayStateBody st => default [] (marshal st)
     | ClientStateBody st => default [] (marshal st)
     end).

Definition gatewayAuth (auth : string) (s : Server St) (h : Server St * option response) : Server St * option response :=
  if negb (tokenOK (GatewayToken cfg) (bearer auth)) then (s, Some (failed StatusUnauthorized)) else h.
Definition clientAuth (auth : string) (s : Server St) (h : Server St * option response) : Server St * option response :=
  if negb (tokenOK (ClientToken cfg) (bearer auth)) then (s, Some (failed StatusUnauthorized)) else h.
Definition withSession (id auth : string) (s : Server St) (h : clientRecord → Server St * option response)
    : Server St * option response :=
  match sessionAuth hashSecret id (bearer auth) s with Err r => (s, Some r) | Ok c => h c end.

Definition answers (r : Server St * response) : Server St * option response := (r.1, Some r.2).

(** [Handler]: [waited after wait] is what the others do to the server while
    the request waits for a version above [after], [wait] at most. *)
Definition serve_http (fuel : nat) (waited : Z → Duration → Server St → Server St) (now : Time)
    (rnd : list bytes * option string) (rq : http_req) (s : Server St) : Server St * option http_resp :=
  let '(path, query) := match Cut (chr 63) (rq_URL rq) with Some pq => pq | None => (rq_URL rq, "") end in
  match mux (rq_Method rq) path with
  | Err code => (s, Some (mkHttp code (mux_text code)))
  | Ok (r, id) =>
      let auth := rq_Auth rq in
      let poll s := waited (poll_after query) (poll_wait query) s in
      match r with
      | Healthz => (s, Some (mkHttp StatusOK (text_bytes ("ok" +:+ String newline ""))))
      | _ =>
          let '(s, resp) :=
            match r with
            | Healthz => (s, None)
            | RegisterGateway => gatewayAuth auth s (answers (registerGateway cfg id (decode (rq_Body rq)) now s))
            | ReportLinks => gatewayAuth auth s (answers (reportLinks id (decode (rq_Body rq)) now s))
            | GetGatewayState => gatewayAuth auth s (let s := poll s in (s, Some (gatewayState hmacPSK cfg s)))
            | ListGateways => clientAuth auth s (s, Some (listGateways s))
            | CreateSession => createSession fencer hashSecret hmacPSK cfg fuel (bearer auth) (decode (rq_Body rq)) rnd s
            | GetClientState => withSession id auth s (λ c, let s := poll s in (s, Some (clientState hmacPSK cfg c now s)))
            | MigrateSession => withSession id auth s (λ c, migrate fencer hmacPSK cfg fuel c (decode (rq_Body rq)) s)
            end in
          (s, write <$> resp)
      end
  end.
End handlers.

(** ** The client *)

Class UrlParse := { url_Parse : string → option (string * string * string) }.
Class HttpClient (W : Type) := { http_Do : http_req → W → option http_resp * W }.

Inductive api_error :=
| ConflictError (current : ApiSession)
| StatusError (code : Z) (message : string)
| MarshalError | TransportError | UnmarshalError | BadURL (baseURL : string).

Record Client := mkApiClient { ac_base : string; ac_token : string }.

(** [strings.TrimRight(s, "/")] *)
Fixpoint drop_slashes (l : list Ascii.ascii) : list Ascii.ascii :=
  match l with c :: l' => if Ascii.eqb c (chr 47) then drop_slashes l' else l | [] => [] end.
Definition trim_slashes (s : string) : string :=
  String.string_of_list_ascii (rev (drop_slashes (rev (String.list_ascii_of_string s)))).

Definition NewClient `{!UrlParse} (baseURL token : string) : res api_error Client :=
  match url_Parse baseURL with
  | Some (scheme, host, _) =>
      if negb (String.eqb scheme "http" || String.eqb scheme "https") || String.eqb host "" then Err (BadURL baseURL)
      else Ok (mkApiClient (trim_slashes baseURL) token)
  | None => Err (BadURL baseURL)
  end.
Definition client_Host `{!UrlParse} (c : Client) : string :=
  match url_Parse (ac_base c) with Some (_, _, hostname) => hostname | None => "" end.

Section client.
Context `{!ApiJson} {W : Type} `{!HttpClient W}.

(** [io.LimitReader(resp.Body, 16<<20)] *)
Definition limited (b : bytes) : bytes := if Z.of_nat (length b) <=? 2 ^ 24 then b else take (Z.to_nat (2 ^ 24)) b.

(** [do]; [inp] is [None] for a request without a body, [Some None] for a body
    that does not encode. The URL of the request always parses: NewClient has
    parsed the base, and the paths below are escaped. *)
Definition api_do {A} (c : Client) (method path bearer : string) (inp : option (option bytes))
    (out : bytes → option A) (w : W) : res api_error A * W :=
  match inp with
  | Some None => (Err MarshalError, w)
  | _ =>
      let body := match inp with Some (Some b) => b | _ => [] end in
      let auth := if String.eqb bearer "" then "" else "Bearer " +:+ bearer in
      match http_Do (mkReq method (ac_base c +:+ path) auth body) w with
      | (None, w) => (Err TransportError, w)
      | (Some resp, w) =>
          let data := limited (rs_Body resp) in
          (if negb (Z.quot (rs_Code resp) 100 =? 2) then
             let e := unmarshal_error data in
             match e_Session e with
             | Some cur => if rs_Code resp =? StatusConflict then Err (ConflictError cur) else
                             Err (StatusError (rs_Code resp) (if String.eqb (e_Error e) "" then TrimSpace (bytes_text data) else e_Error e))
             | None => Err (StatusError (rs_Code resp) (if String.eqb (e_Error e) "" then TrimSpace (bytes_text data) else e_Error e))
             end
           else match out data with Some v => Ok v | None => Err UnmarshalError end, w)
      end
  end.

Definition waitQuery (after : Z) (wait : Duration) : string :=
  "?after=" +:+ FormatUint after +:+ "&wait=" +:+ Itoa (Z.quot wait Millisecond).

Definition api_RegisterGateway (c : Client) (id : string) (req : RegisterGatewayRequest) : W → res api_error RegisterGatewayResponse * W :=
  api_do c "PUT" ("/v1/gateways/" +:+ PathEscape id) (ac_token c) (Some (marshal req)) unmarshal.
Definition api_ReportLinks (c : Client) (id : string) (rep : list Link) : W → res api_error unit * W :=
  api_do c "POST" ("/v1/gateways/" +:+ PathEscape id +:+ "/links") (ac_token c) (Some (marshal rep)) (λ _, Some tt).
Definition api_GatewayState (c : Client) (after : Z) (wait : Duration) : W → res api_error GatewayState * W :=
  api_do c "GET" ("/v1/gateway-state" +:+ waitQuery after wait) (ac_token c) None unmarshal.
Definition api_Gateways (c : Client) : W → res api_error (list Gateway) * W :=
  api_do c "GET" "/v1/gateways" (ac_token c) None unmarshal.
Definition api_CreateSession (c : Client) (req : CreateSessionRequest) : W → res api_error CreateSessionResponse * W :=
  api_do c "POST" "/v1/sessions" (ac_token c) (Some (marshal req)) unmarshal.
Definition api_ClientState (c : Client) (id secret : string) (after : Z) (wait : Duration) : W → res api_error ClientState * W :=
  api_do c "GET" ("/v1/sessions/" +:+ PathEscape id +:+ "/state" +:+ waitQuery after wait) secret None unmarshal.
Definition api_Migrate (c : Client) (id secret : string) (req : MigrateRequest) : W → res api_error ApiSession * W :=
  api_do c "POST" ("/v1/sessions/" +:+ PathEscape id +:+ "/migrate") secret (Some (marshal req)) unmarshal.
End client.

(** ** Escaped segments read back *)

Lemma escape_char_ok c rest : unescape false (escape_char c ++ rest) = cons c <$> unescape false rest.
Proof. destruct c as [[] [] [] [] [] [] [] []]; reflexivity. Qed.

Lemma Unescape_PathEscape s : Unescape false (PathEscape s) = Some s.
Proof.
  unfold Unescape, PathEscape. rewrite String.list_ascii_of_string_of_list_ascii.
  assert (∀ l, unescape false (l ≫= escape_char) = Some l) as ->.
  { induction l as [|c l IH]; [done|]. rewrite bind_cons, escape_char_ok, IH. done. }
  cbn. by rewrite String.string_of_list_ascii_of_string.
Qed.

Lemma escape_char_lacks c : Forall (λ x, x ≠ chr 47 ∧ x ≠ chr 63) (escape_char c).
Proof. destruct c as [[] [] [] [] [] [] [] []]; cbn; repeat constructor; discriminate. Qed.

Lemma PathEscape_lacks s : lacks (chr 47) (PathEscape s) = true ∧ lacks (chr 63) (PathEscape s) = true.
Proof.
  unfold PathEscape. rewrite !lacks_list, String.list_ascii_of_string_of_list_ascii, <- Forall_and.
  apply Forall_bind, Forall_forall. intros c _. apply escape_char_lacks.
Qed.

(** A segment that the mux does not clean away. *)
Definition seg_ok (id : string) : Prop := id ≠ "" ∧ id ≠ "." ∧ id ≠ "..".

Lemma PathEscape_dotted id : seg_ok id → dotted (PathEscape id) = false.
Proof.
  intros (H0 & H1 & H2). unfold dotted.
  assert (∀ lit, Unescape false lit = Some lit → id ≠ lit → String.eqb (PathEscape id) lit = false) as H.
  { intros lit Hl Hn. apply String.eqb_neq. intros E. pose proof (Unescape_PathEscape id) as Hu. rewrite E, Hl in Hu. congruence. }
  by rewrite (H ""), (H "."), (H "..").
Qed.

Lemma CutPrefix_app p s : CutPrefix (p +:+ s) p = Some s.
Proof.
  induction p as [|c p IH]; [done|]. change (String c p +:+ s) with (String c (p +:+ s)). cbn [CutPrefix]. by rewrite Ascii.eqb_refl.
Qed.

Lemma bearer_of token : bearer (if String.eqb token "" then "" else "Bearer " +:+ token) = token.
Proof.
  destruct (String.eqb_spec token "") as [->|]; [done|]. unfold bearer.
  assert (∀ t, String.substring 0 (String.length t) t = t) as Hall by (induction t as [|c t IH]; [done|]; cbn; by rewrite IH).
  rewrite HasPrefix_app.
  change (String.substring 7 (String.length ("Bearer " +:+ token) - 7) ("Bearer " +:+ token))
    with (String.substring 0 (S (S (S (S (S (S (S (String.length token))))))) - 7) token).
  replace (S (S (S (S (S (S (S (String.length token))))))) - 7)%nat with (String.length token) by lia. apply Hall.
Qed.

(** ** A call through the client is the handler's answer *)

Section mux.
Context (id : string) (Hid : seg_ok id).

Lemma split_v1 lit rest :
  lacks (chr 47) lit = true →
  Split (chr 47) ("/v1/" +:+ lit +:+ String (chr 47) rest) = "" :: "v1" :: lit :: Split (chr 47) rest.
Proof.
  intros Hl. change ("/v1/" +:+ lit +:+ String (chr 47) rest) with ("" +:+ String (chr 47) ("v1" +:+ String (chr 47) (lit +:+ String (chr 47) rest))).
  by rewrite !Split_cons.
Qed.

#[local] Ltac mux_id :=
  let Hl := fresh in let Hd := fresh in let H0 := fresh in let H1 := fresh in let H2 := fresh in let H3 := fresh in
  unfold mux; destruct (PathEscape_lacks id) as [Hl _]; pose proof (PathEscape_dotted id Hid) as Hd; pose proof Hid as (H0 & _);
  rewrite split_v1 by done; rewrite ?Split_cons, Split_one by done;
  apply String.eqb_neq in H0; pose proof Hd as [[H1 H2]%orb_false_iff H3]%orb_false_iff;
  cbn -[PathEscape Unescape routes dotted]; rewrite ?Hd, ?H2, ?H3; cbn -[PathEscape Unescape routes];
  rewrite Unescape_PathEscape; repeat match goal with |- context [Unescape false ?l] => change (Unescape false l) with (Some l) end;
  cbn -[PathEscape]; rewrite H0; reflexivity.

Lemma mux_gateway : mux "PUT" ("/v1/gateways/" +:+ PathEscape id) = Ok (RegisterGateway, id).
Proof. change ("/v1/gateways/" +:+ PathEscape id) with ("/v1/" +:+ "gateways" +:+ String (chr 47) (PathEscape id)). mux_id. Qed.
Lemma mux_links : mux "POST" ("/v1/gateways/" +:+ PathEscape id +:+ "/links") = Ok (ReportLinks, id).
Proof.
  change ("/v1/gateways/" +:+ PathEscape id +:+ "/links") with ("/v1/" +:+ "gateways" +:+ String (chr 47) (PathEscape id +:+ String (chr 47) "links")). mux_id.
Qed.
Lemma mux_state : mux "GET" ("/v1/sessions/" +:+ PathEscape id +:+ "/state") = Ok (GetClientState, id).
Proof.
  change ("/v1/sessions/" +:+ PathEscape id +:+ "/state") with ("/v1/" +:+ "sessions" +:+ String (chr 47) (PathEscape id +:+ String (chr 47) "state")). mux_id.
Qed.
Lemma mux_migrate : mux "POST" ("/v1/sessions/" +:+ PathEscape id +:+ "/migrate") = Ok (MigrateSession, id).
Proof.
  change ("/v1/sessions/" +:+ PathEscape id +:+ "/migrate") with ("/v1/" +:+ "sessions" +:+ String (chr 47) (PathEscape id +:+ String (chr 47) "migrate")). mux_id.
Qed.
End mux.

(** ** The parameters of a long poll read back *)

Lemma Unescape_plain s : lacks (chr 37) s = true → lacks (chr 43) s = true → Unescape true s = Some s.
Proof.
  unfold Unescape. rewrite !lacks_list. intros H1 H2. rewrite <- (String.string_of_list_ascii_of_string s) at 2.
  induction (String.list_ascii_of_string s) as [|c l IH]; [done|]. apply Forall_cons in H1 as [N1 H1], H2 as [N2 H2].
  apply Ascii.eqb_neq in N1, N2. cbn [unescape]. rewrite N1, N2. cbn [andb]. specialize (IH H1 H2).
  destruct (unescape true l); [|done]. cbn in *. injection IH as IH. by rewrite IH.
Qed.

Lemma query_part_pair k v :
  Forall (λ c, lacks (chr c) k = true) [59; 61; 37; 43]%nat → Forall (λ c, lacks (chr c) v = true) [59; 37; 43]%nat →
  query_part (k +:+ "=" +:+ v) = Some (k, v).
Proof.
  rewrite !Forall_cons. intros (K1 & K2 & K3 & K4 & _) (V1 & V2 & V3 & _). unfold query_part.
  change (k +:+ "=" +:+ v) with (k +:+ String (chr 61) v). rewrite Cut_app, !Unescape_plain by done.
  assert (lacks (chr 59) (k +:+ String (chr 61) v) = true) as -> by by rewrite lacks_app, K1.
  by destruct k.
Qed.

Lemma waitQuery_get after wait :
  is_u64 after → i64_min ≤ wait ≤ i64_max →
  ∃ q, waitQuery after wait = String (chr 63) q ∧ poll_after q = after ∧ poll_wait q = Z.min (Z.quot wait Millisecond * Millisecond) maxWait.
Proof.
  intros Ha Hw. pose proof Ha as Ha'. unfold fits in Ha'.
  set (ms := Z.quot wait Millisecond). assert (- 2 ^ 63 ≤ ms < 2 ^ 63 ∧ i64_min ≤ ms * Millisecond ≤ i64_max) as [Hms Hms'].
  { unfold ms, Millisecond, Microsecond, i64_min, i64_max in *. Z.to_euclidean_division_equations. lia. }
  assert (∀ c, char_digit c = None → lacks c (FormatUint after) = true) as HF by (intros; apply FormatUint_lacks; [lia|done]).
  assert (Split (chr 38) ("after=" +:+ FormatUint after +:+ "&wait=" +:+ Itoa ms) = ["after" +:+ "=" +:+ FormatUint after; "wait" +:+ "=" +:+ Itoa ms]) as HS.
  { change ("after=" +:+ FormatUint after +:+ "&wait=" +:+ Itoa ms)
      with ("after=" +:+ (FormatUint after +:+ String (chr 38) ("wait=" +:+ Itoa ms))).
    rewrite <- append_assoc, Split_cons, Split_one; [done|..]; rewrite lacks_app; [by rewrite Itoa_lacks|by rewrite HF]. }
  exists ("after=" +:+ FormatUint after +:+ "&wait=" +:+ Itoa ms). split; [done|].
  assert (∀ key, query_get ("after=" +:+ FormatUint after +:+ "&wait=" +:+ Itoa ms) key =
            if decide ("after" = key) then FormatUint after else if decide ("wait" = key) then Itoa ms else "") as Hget.
  { intros key. unfold query_get. rewrite HS. cbn [omap list_omap].
    rewrite !query_part_pair; [|repeat (apply Forall_cons; split); try apply Forall_nil_2; (done || by apply Itoa_lacks || by apply HF)..].
    cbn. by repeat case_decide. }
  unfold poll_after, poll_wait. rewrite !Hget, decide_True, decide_False, decide_True by done. split.
  - unfold ParseUint_value. pose proof (Parse_FormatUint after Ha) as Hp. unfold ParseUint, digits_value in *.
    destruct (String.list_ascii_of_string (FormatUint after)); [done|]. destruct (fold_left _ _ _); [|done].
    destruct (Z.ltb_spec z (2 ^ 64)); simplify_eq. lia.
  - unfold ParseInt_value. rewrite ParseInt_Itoa by done. by rewrite i64_small.
Qed.

(** ** A call through the client is the handler's answer *)

Class ApiJsonLaws `{ApiJson} : Prop := {
  laws_register :: CodecLaws RegisterGatewayRequest;
  laws_links :: CodecLaws (list Link);
  laws_create :: CodecLaws CreateSessionRequest;
  laws_migrate :: CodecLaws MigrateRequest;
  laws_registered :: CodecLaws RegisterGatewayResponse;
  laws_created :: CodecLaws CreateSessionResponse;
  laws_session :: CodecLaws ApiSession;
  laws_gateways :: CodecLaws (list Gateway);
  laws_gwstate :: CodecLaws GatewayState;
  laws_clstate :: CodecLaws ClientState;
  unmarshal_marshal_error : ∀ e, error_ok e → unmarshal_error (marshal_error e) = e;
}.

Inductive call :=
| CRegister (id : string) (req : RegisterGatewayRequest)
| CLinks (id : string) (rep : list Link)
| CGatewayState (after : Z) (wait : Duration)
| CGateways
| CCreate (req : CreateSessionRequest)
| CClientState (id secret : string) (after : Z) (wait : Duration)
| CMigrate (id secret : string) (req : MigrateRequest).

(** A value that encodes into a body the server accepts. *)
Definition sendable {A} `{!Codec A} (x : A) : Prop := codec_ok x ∧ ∀ b, marshal x = Some b → Z.of_nat (length b) ≤ 2 ^ 20.
Definition poll_ok (after : Z) (wait : Duration) : Prop := is_u64 after ∧ i64_min ≤ wait ≤ i64_max.
Definition call_ok `{!ApiJson} (k : call) : Prop :=
  match k with
  | CRegister id req => seg_ok id ∧ sendable req
  | CLinks id rep => seg_ok id ∧ sendable rep
  | CGatewayState after wait => poll_ok after wait
  | CGateways => True
  | CCreate req => sendable req
  | CClientState id _ after wait => seg_ok id ∧ poll_ok after wait
  | CMigrate id _ req => seg_ok id ∧ sendable req
  end.

Section served.
Context `{!NetParse, !Codec Gateway, !Codec clientRecord, !Codec OwnershipRecord, !Codec Policy.PolicyDocument, !ApiJson, !ApiJsonLaws}.
Context {St : Type} `{!KVStore St} (fencer : option (Fencer St)).
Context (hashSecret : string → string) (hmacPSK : bytes → string → string) (cfg : SConfig).
Context (texts : response → string) (mux_text : Z → bytes).
Context (fuel : nat) (waited : Z → Duration → Server St → Server St) (now : Time) (rnd : list bytes * option string).
Context (base token : string).

(** A transport that reaches the server at [base]. *)
Definition direct : HttpClient (Server St) := {|
  http_Do rq s :=
    match CutPrefix (rq_URL rq) base with
    | Some target =>
        let '(s, r) := serve_http fencer hashSecret hmacPSK cfg texts mux_text fuel waited now rnd
                         (mkReq (rq_Method rq) target (rq_Auth rq) (rq_Body rq)) s in (r, s)
    | None => (None, s)
    end
|}.

Definition as_body {A} (f : A → body) (r : res api_error A * Server St) : res api_error body * Server St :=
  (match r.1 with Ok x => Ok (f x) | Err e => Err e end, r.2).
Definition client_call (k : call) (s : Server St) : res api_error body * Server St :=
  let _ := direct in
  let c := mkApiClient base token in
  match k with
  | CRegister id req => as_body (λ x, RegisteredBody (rr_NodeIP x) (rr_Network x)) (api_RegisterGateway c id req s)
  | CLinks id rep => as_body (λ _, NoBody) (api_ReportLinks c id rep s)
  | CGatewayState after wait => as_body GatewayStateBody (api_GatewayState c after wait s)
  | CGateways => as_body GatewaysBody (api_Gateways c s)
  | CCreate req => as_body CreatedBody (api_CreateSession c req s)
  | CClientState id secret after wait => as_body ClientStateBody (api_ClientState c id secret after wait s)
  | CMigrate id secret req => as_body SessionBody (api_Migrate c id secret req s)
  end.

(** What the call means: the handler itself, behind its check. *)
Definition whole_ms (wait : Duration) : Duration := Z.min (Z.quot wait Millisecond * Millisecond) maxWait.
Definition served (k : call) (s : Server St) : Server St * option response :=
  let gateway h := if tokenOK (GatewayToken cfg) token then h else (s, Some (failed StatusUnauthorized)) in
  let owner id secret h := match sessionAuth hashSecret id secret s with Ok c => h c | Err r => (s, Some r) end in
  match k with
  | CRegister id req => gateway (answers (registerGateway cfg id (Some req) now s))
  | CLinks id rep => gateway (answers (reportLinks id (Some rep) now s))
  | CGatewayState after wait => gateway (let s := waited after (whole_ms wait) s in (s, Some (gatewayState hmacPSK cfg s)))
  | CGateways => if tokenOK (ClientToken cfg) token then (s, Some (listGateways s)) else (s, Some (failed StatusUnauthorized))
  | CCreate req => createSession fencer hashSecret hmacPSK cfg fuel token (Some req) rnd s
  | CClientState id secret after wait =>
      owner id secret (λ c, let s := waited after (whole_ms wait) s in (s, Some (clientState hmacPSK cfg c now s)))
  | CMigrate id secret req => owner id secret (λ c, migrate fencer hmacPSK cfg fuel c (Some req) s)
  end.

(** How an answer reaches the caller. *)
Definition outcome (r : response) : res api_error body :=
  if Z.quot (resp_code r) 100 =? 2 then Ok (resp_body r)
  else match resp_body r with
       | ErrorBody (Some cur) => if resp_code r =? StatusConflict then Err (ConflictError cur) else Err (StatusError (resp_code r) (texts r))
       | _ => Err (StatusError (resp_code r) (texts r))
       end.

(** A response that encodes, within what the client reads. *)
Definition resp_ok (r : response) : Prop :=
  Z.of_nat (length (rs_Body (write texts r))) ≤ 2 ^ 24 ∧
  match resp_body r with
  | NoBody => True
  | ErrorBody cur => error_ok (mkApiError (texts r) cur) ∧ texts r ≠ ""
  | RegisteredBody ip n => codec_ok (mkRegistered ip n)
  | CreatedBody c => codec_ok c
  | SessionBody x => codec_ok x
  | GatewaysBody gws => codec_ok gws
  | GatewayStateBody st => codec_ok st
  | ClientStateBody st => codec_ok st
  end.

(** A handler answers with an error, or with its kind of body. *)
Definition shaped (P : body → Prop) (r : response) : Prop :=
  if Z.quot (resp_code r) 100 =? 2 then P (resp_body r) else ∃ cur, resp_body r = ErrorBody cur.

Lemma shaped_failed P c : Z.quot c 100 ≠ 2 → shaped P (failed c).
Proof. intros Hc. unfold shaped. apply Z.eqb_neq in Hc. cbn. rewrite Hc. eauto. Qed.

#[local] Ltac answered :=
  unfold shaped; cbn [resp_code resp_body];
  match goal with |- context [Z.quot ?c 100 =? 2] => let v := eval vm_compute in (Z.quot c 100 =? 2) in change (Z.quot c 100 =? 2) with v end;
  cbn; by eauto.
#[local] Ltac shape := repeat case_match; simplify_eq/=; (apply shaped_failed; vm_compute; discriminate) || answered || done.

Lemma registerGateway_shaped id req s : shaped (λ b, ∃ ip n, b = RegisteredBody ip n) (registerGateway cfg id req now s).2.
Proof. unfold registerGateway. shape. Qed.
Lemma reportLinks_shaped id rep s : shaped (λ b, b = NoBody) (reportLinks id rep now s).2.
Proof. unfold reportLinks. shape. Qed.
Lemma gatewayState_shaped s : shaped (λ b, ∃ st, b = GatewayStateBody st) (gatewayState hmacPSK cfg s).
Proof. unfold gatewayState. shape. Qed.
Lemma listGateways_shaped s : shaped (λ b, ∃ gws, b = GatewaysBody gws) (listGateways s).
Proof. unfold listGateways. shape. Qed.
Lemma clientState_shaped c s : shaped (λ b, ∃ st, b = ClientStateBody st) (clientState hmacPSK cfg c now s).
Proof. unfold clientState. shape. Qed.
Lemma createSession_shaped req s r :
  (createSession fencer hashSecret hmacPSK cfg fuel token req rnd s).2 = Some r → shaped (λ b, ∃ c, b = CreatedBody c) r.
Proof. unfold createSession, reopenSession, openSession. intros Hr. shape. Qed.
Lemma migrate_shaped c req s r :
  (migrate fencer hmacPSK cfg fuel c req s).2 = Some r → shaped (λ b, ∃ x, b = SessionBody x) r.
Proof. unfold migrate. intros Hr. shape. Qed.
Lemma sessionAuth_failed id secret s r : sessionAuth hashSecret id secret s = Err r → ∀ P, shaped P r.
Proof. unfold sessionAuth. intros Hr P. shape. Qed.

Lemma limited_small b : Z.of_nat (length b) ≤ 2 ^ 24 → limited b = b.
Proof. intros Hb. unfold limited. apply Z.leb_le in Hb. by rewrite Hb. Qed.

Lemma decode_sent {A} `{!Codec A, !CodecLaws A} (x : A) : sendable x → ∃ b, marshal x = Some b ∧ decode b = Some x.
Proof.
  intros [Hx Hlen]. destruct (marshal_ok x Hx) as [b Hb]. exists b. split; [done|]. unfold decode.
  specialize (Hlen b Hb). apply Z.leb_le in Hlen. rewrite Hlen. by apply unmarshal_marshal.
Qed.

(** A request that the server answers with [r] comes back as [outcome r]. *)
Lemma do_direct {A} method path bearer inp body (out : bytes → option A) (f : A → Controller.body) s s' r (P : Controller.body → Prop) :
  inp = None ∧ body = [] ∨ inp = Some (Some body) →
  serve_http fencer hashSecret hmacPSK cfg texts mux_text fuel waited now rnd
    (mkReq method path (if String.eqb bearer "" then "" else "Bearer " +:+ bearer) body) s = (s', write texts <$> r) →
  (∀ x, r = Some x → resp_ok x ∧ shaped P x) →
  (∀ x, r = Some x → P (resp_body x) → ∃ v, out (rs_Body (write texts x)) = Some v ∧ f v = resp_body x) →
  as_body f (@api_do _ _ direct A (mkApiClient base token) method path bearer inp out s) =
  (match r with Some x => outcome x | None => Err TransportError end, s').
Proof.
  intros Hin Hs Hr Hout. unfold api_do. assert (match inp with Some (Some b) => b | _ => [] end = body) as Hb by (destruct Hin as [[-> ->]| ->]; done).
  destruct inp as [[b|]|]; [|by destruct Hin as [[? ?]|?]|]; rewrite Hb; cbn [http_Do direct rq_URL rq_Method rq_Auth rq_Body ac_base];
    rewrite CutPrefix_app, Hs; (destruct r as [x|]; [|done]); cbn [fmap option_fmap option_map];
    destruct (Hr x eq_refl) as [[Hlen Hok] Hsh]; specialize (Hout x eq_refl); rewrite (limited_small _ Hlen);
    unfold as_body, outcome, shaped in *; cbn [fst snd rs_Code write]; destruct (Z.quot (resp_code x) 100 =? 2); cbn [negb];
    try (destruct (Hout Hsh) as (v & -> & <-); done);
    destruct Hsh as [cur Hcur]; cbn [rs_Body write]; rewrite Hcur in *; destruct Hok as [He Ht];
    rewrite (unmarshal_marshal_error _ He); cbn [e_Session e_Error]; apply String.eqb_neq in Ht; rewrite Ht;
    by destruct cur; [destruct (_ =? _)|].
Qed.

Lemma Cut_lacks sep a : lacks sep a = true → Cut sep a = None.
Proof.
  induction a as [|c a IH]; cbn; [done|]. intros [Hc Ha]%andb_true_iff. apply negb_true_iff in Hc. by rewrite Hc, IH.
Qed.

Lemma out_ok {A} `{!Codec A, !CodecLaws A} (x : A) : codec_ok x → unmarshal (default [] (marshal x)) = Some x.
Proof. intros Hx. destruct (marshal_ok x Hx) as [b Hb]. rewrite Hb. by eapply unmarshal_marshal. Qed.

(** The kind of body a call is answered with. *)
Definition kind (k : call) (b : body) : Prop :=
  match k with
  | CRegister _ _ => ∃ ip n, b = RegisteredBody ip n
  | CLinks _ _ => b = NoBody
  | CGatewayState _ _ => ∃ st, b = GatewayStateBody st
  | CGateways => ∃ gws, b = GatewaysBody gws
  | CCreate _ => ∃ c, b = CreatedBody c
  | CClientState _ _ _ _ => ∃ st, b = ClientStateBody st
  | CMigrate _ _ _ => ∃ x, b = SessionBody x
  end.

Lemma served_shaped k s r : (served k s).2 = Some r → shaped (kind k) r.
Proof.
  assert (∀ P (h : Server St * option response) c, (c : bool) = false → (if c then h else (s, Some (failed StatusUnauthorized))).2 = Some r → shaped P r) as Hno.
  { intros P h c -> [= <-]. by apply shaped_failed. }
  destruct k as [id req|id rep|after wait| |req|id secret after wait|id secret req]; cbn [served kind answers fst snd];
    try (destruct (tokenOK _ token) eqn:Ht; [|by apply (Hno _ (s, None) false)]); try (destruct (sessionAuth _ _ _ _) as [c|e] eqn:Ha; [|intros [= <-]; by apply (sessionAuth_failed _ _ _ _ Ha)]).
  - unfold answers. cbn [snd]. intros [= <-]. apply (registerGateway_shaped id (Some req) s).
  - unfold answers. cbn [snd]. intros [= <-]. apply (reportLinks_shaped id (Some rep) s).
  - intros [= <-]. apply gatewayState_shaped.
  - intros [= <-]. apply listGateways_shaped.
  - apply createSession_shaped.
  - intros [= <-]. apply clientState_shaped.
  - apply migrate_shaped.
Qed.

#[local] Ltac read_back Hc :=
  let x := fresh "x" in let Hx := fresh "Hx" in let Hb := fresh "Hb" in
  intros x Hx Hb; cbn [kind] in Hb; specialize (Hc x Hx); unfold write; cbn [rs_Body];
  match type of Hb with
  | ∃ _ _, _ => let ip := fresh in let n := fresh in destruct Hb as (ip & n & Hb)
  | ∃ _, _ => let v := fresh in destruct Hb as (v & Hb)
  end; rewrite Hb in *; eexists; split; [by apply out_ok|done].
#[local] Ltac at_server id :=
  unfold serve_http; cbn [rq_URL rq_Method rq_Auth rq_Body];
  rewrite ?Cut_lacks by (rewrite ?lacks_app; by destruct (PathEscape_lacks id) as [_ ->]).

Lemma client_call_served k s :
  call_ok k → (∀ s' r, served k s = (s', Some r) → resp_ok r) →
  client_call k s = (match (served k s).2 with Some r => outcome r | None => Err TransportError end, (served k s).1).
Proof.
  intros Hk Hr. assert (∀ r, (served k s).2 = Some r → resp_ok r ∧ shaped (kind k) r) as Hok.
  { intros r E. split; [|by apply (served_shaped k s)]. apply (Hr (served k s).1). rewrite <- E. by destruct (served k s). }
  clear Hr. assert (∀ r, (served k s).2 = Some r → match resp_body r with
    | RegisteredBody ip n => codec_ok (mkRegistered ip n) | CreatedBody c => codec_ok c | SessionBody x => codec_ok x
    | GatewaysBody gws => codec_ok gws | GatewayStateBody st => codec_ok st | ClientStateBody st => codec_ok st | _ => True end) as Hc.
  { intros r E. destruct (Hok r E) as [[_ Hb] _]. by destruct (resp_body r). }
  destruct k as [id req|id rep|after wait| |req|id secret after wait|id secret req]; cbn [client_call call_ok] in *.
  - destruct Hk as [Hid [b [Hb Hd]]%decode_sent].
    apply (do_direct _ _ _ _ b _ _ _ _ _ (kind (CRegister id req))); [right; by rewrite Hb| |exact Hok|read_back Hc].
    at_server id. rewrite mux_gateway, Hd by done. unfold gatewayAuth. rewrite bearer_of. cbn [served]. by destruct (tokenOK _ _).
  - destruct Hk as [Hid [b [Hb Hd]]%decode_sent].
    apply (do_direct _ _ _ _ b _ _ _ _ _ (kind (CLinks id rep))); [right; by rewrite Hb| |exact Hok|].
    + at_server id. rewrite mux_links, Hd by done. unfold gatewayAuth. rewrite bearer_of. cbn [served]. by destruct (tokenOK _ _).
    + intros x _ E. by exists tt.
  - destruct Hk as [Ha Hw]. destruct (waitQuery_get after wait Ha Hw) as (q & Hq & <- & Hms).
    apply (do_direct _ _ _ _ [] _ _ _ _ _ (kind (CGatewayState (poll_after q) wait))); [by left| |exact Hok|read_back Hc].
    unfold serve_http. cbn [rq_URL rq_Method rq_Auth rq_Body]. rewrite Hq, Cut_app by done. change (mux "GET" "/v1/gateway-state") with (Ok (E := Z) (GetGatewayState, "")).
    unfold gatewayAuth. rewrite bearer_of, Hms. cbn [served]. by destruct (tokenOK _ _).
  - apply (do_direct _ _ _ _ [] _ _ _ _ _ (kind CGateways)); [by left| |exact Hok|read_back Hc].
    unfold serve_http. cbn [rq_URL rq_Method rq_Auth rq_Body]. rewrite Cut_lacks by done. change (mux "GET" "/v1/gateways") with (Ok (E := Z) (ListGateways, "")).
    unfold clientAuth. rewrite bearer_of. cbn [served]. by destruct (tokenOK _ _).
  - apply decode_sent in Hk as [b [Hb Hd]].
    apply (do_direct _ _ _ _ b _ _ _ _ _ (kind (CCreate req))); [right; by rewrite Hb| |exact Hok|read_back Hc].
    unfold serve_http. cbn [rq_URL rq_Method rq_Auth rq_Body]. rewrite Cut_lacks by done. change (mux "POST" "/v1/sessions") with (Ok (E := Z) (CreateSession, "")).
    rewrite bearer_of, Hd. cbn [served]. by destruct (createSession _ _ _ _ _ _ _ _ _).
  - destruct Hk as [Hid [Ha Hw]]. destruct (waitQuery_get after wait Ha Hw) as (q & Hq & <- & Hms).
    apply (do_direct _ _ _ _ [] _ _ _ _ _ (kind (CClientState id secret (poll_after q) wait))); [by left| |exact Hok|read_back Hc].
    unfold serve_http. cbn [rq_URL rq_Method rq_Auth rq_Body].
    assert ("/v1/sessions/" +:+ PathEscape id +:+ "/state" +:+ waitQuery (poll_after q) wait =
            ("/v1/sessions/" +:+ PathEscape id +:+ "/state") +:+ String (chr 63) q) as -> by by rewrite Hq, !append_assoc.
    rewrite Cut_app by (rewrite !lacks_app; by destruct (PathEscape_lacks id) as [_ ->]). rewrite mux_state, Hms by done.
    unfold withSession. rewrite bearer_of. cbn [served]. by destruct (sessionAuth _ _ _ _).
  - destruct Hk as [Hid [b [Hb Hd]]%decode_sent].
    apply (do_direct _ _ _ _ b _ _ _ _ _ (kind (CMigrate id secret req))); [right; by rewrite Hb| |exact Hok|read_back Hc].
    at_server id. rewrite mux_migrate, Hd by done. unfold withSession. rewrite bearer_of. cbn [served].
    destruct (sessionAuth _ _ _ _); [|done]. by destruct (migrate _ _ _ _ _ _ _).
Qed.

(** C5: a method of the API client is the controller's handler. For every call
    of the client - any gateway or session ID but the empty one and the two
    that the mux cleans away, any token or secret, any body the JSON of which
    is within the limits - the request reaches the one handler it is meant
    for, with the ID, the secret, the body and the poll's version as they were
    given and its wait in whole milliseconds, at most a minute; it changes the
    controller as that handler does, and returns the handler's answer: the
    value, the session of a conflict, or the status with its text. *)
Theorem client_reaches_controller k s :
  call_ok k → (∀ s' r, served k s = (s', Some r) → resp_ok r) →
  client_call k s = (match (served k s).2 with Some r => outcome r | None => Err TransportError end, (served k s).1).
Proof. apply client_call_served. Qed.
End served.

(** ** A new server's subnets *)

Lemma Masked4 v bits : 0 ≤ bits ≤ 32 → Masked (mkPrefix (Addr4 v) bits) = mkPrefix (Addr4 (Z.shiftl (Z.shiftr v (32 - bits)) (32 - bits))) bits.
Proof.
  intros Hb. unfold Masked, addr_Prefix. cbn [pf_Addr pf_Bits BitLen]. destruct (Z.ltb_spec bits 0); [lia|].
  rewrite Z.gtb_ltb. destruct (Z.ltb_spec 32 bits); [lia|]. done.
Qed.

Lemma Masked_subnet v bits : 0 ≤ bits ≤ 32 → fits 32 v → ∃ b, subnet (Masked (mkPrefix (Addr4 v) bits)) b (32 - bits).
Proof.
  intros Hb Hv. rewrite Masked4 by done. eexists. split; [f_equal; lia|]. split; [lia|].
  rewrite Z.shiftl_mul_pow2, Z.shiftr_div_pow2 by lia. assert (0 < 2 ^ (32 - bits)) by (apply Z.pow_pos_nonneg; lia).
  unfold fits in *. split; [|by apply Z.mod_mul; lia].
  pose proof (Z.mul_div_le v (2 ^ (32 - bits)) ltac:(lia)). pose proof (Z.div_pos v (2 ^ (32 - bits)) ltac:(lia) ltac:(lia)). nia.
Qed.

Lemma shiftr_coarser v w n m : 0 ≤ n ≤ m → Z.shiftr v n = Z.shiftr w n → Z.shiftr v m = Z.shiftr w m.
Proof. intros Hn E. replace m with (n + (m - n)) by lia. rewrite <- !Z.shiftr_shiftr by lia. by rewrite E. Qed.

Lemma shiftr_cleared v n : 0 ≤ n → Z.shiftr (Z.shiftl (Z.shiftr v n) n) n = Z.shiftr v n.
Proof. intros Hn. rewrite Z.shiftr_shiftl_l, Z.sub_diag by lia. apply Z.shiftl_0_r. Qed.

Lemma Overlaps_shared v b w c x :
  0 ≤ b ≤ 32 → 0 ≤ c ≤ 32 → Contains (Masked (mkPrefix (Addr4 v) b)) x = true → Contains (Masked (mkPrefix (Addr4 w) c)) x = true →
  Overlaps (mkPrefix (Addr4 v) b) (mkPrefix (Addr4 w) c) = true.
Proof.
  intros Hb Hc. rewrite !Masked4 by done. unfold Contains, Overlaps, pf_IsValid. cbn [pf_Addr pf_Bits addr_IsValid BitLen].
  destruct (Z.leb_spec 0 b), (Z.leb_spec b 32), (Z.leb_spec 0 c), (Z.leb_spec c 32); try lia. cbn [andb negb orb].
  destruct x as [|x|x]; try done. rewrite !shiftr_cleared, !Z.eqb_eq by lia. intros E1 E2.
  case_bool_decide; [done|]. cbn [Is4 Bool.eqb negb]. destruct (Z.eqb_spec (b `min` c) 0); [done|].
  unfold addr_Prefix. cbn [BitLen]. destruct (Z.ltb_spec (b `min` c) 0); [lia|]. rewrite Z.gtb_ltb. destruct (Z.ltb_spec 32 (b `min` c)); [lia|].
  cbn [orb pf_Addr mask_addr]. apply bool_decide_eq_true_2. do 2 f_equal.
  rewrite (shiftr_coarser v x (32 - b) (32 - b `min` c)), (shiftr_coarser w x (32 - c) (32 - b `min` c)) by (lia || done). done.
Qed.

Section new.
Context `{!NetParse, !Codec Gateway, !Codec clientRecord, !Codec OwnershipRecord, !Codec Policy.PolicyDocument}.
Context `{!CodecLaws Gateway, !CodecLaws clientRecord, !CodecLaws OwnershipRecord}.
Context {St : Type} `{!KVStore St, !KVLaws St, !Fencer St, !FencedView St}.
Context (hashSecret : string → string) (hmacPSK : bytes → string → string) (cfg : SConfig).
Context (gateways_encode : ∀ g : Gateway, codec_ok g) (clients_encode : ∀ c : clientRecord, codec_ok c)
        (owners_encode : ∀ r : OwnershipRecord, codec_ok r).

Lemma New_subnets policy (st st' : St) cfg' s :
  addr_ok (pf_Addr (ClientSubnet (cfg_Network cfg))) → addr_ok (pf_Addr (NodeSubnet (cfg_Network cfg))) →
  New cfg policy st = (st', Some (cfg', s)) →
  (∃ b k, subnet (ClientSubnet (cfg_Network cfg')) b k) ∧ (∃ b k, subnet (NodeSubnet (cfg_Network cfg')) b k) ∧
  (∀ a, Contains (ClientSubnet (cfg_Network cfg')) a = true → Contains (NodeSubnet (cfg_Network cfg')) a = false) ∧
  0 < AliveAfter cfg' ∧ sv_store s = st'.
Proof.
  destruct cfg as [tg tc [[ca cb] [na nb] port] al key]. unfold New. cbn [cfg_Network ClientSubnet NodeSubnet ProbePort pf_Addr pf_Bits AliveAfter].
  intros Hca Hna. destruct (pf_IsValid (mkPrefix ca cb)) eqn:Vc; [|done]. destruct (pf_IsValid (mkPrefix na nb)) eqn:Vn; [|done].
  cbn [negb orb]. destruct (port =? 0); [done|]. destruct ca as [|cv|]; try done. destruct na as [|nv|]; try done. cbn [Is4 negb orb].
  destruct (Overlaps _ _) eqn:Ho; [done|]. unfold pf_IsValid in Vc, Vn. cbn in Vc, Vn. zbool.
  destruct (Masked_subnet cv cb ltac:(lia) Hca) as [b Hb]. destruct (Masked_subnet nv nb ltac:(lia) Hna) as [b' Hb'].
  assert (0 < if al <=? 0 then DefaultAliveAfter else al) as Hal by (destruct (Z.leb_spec al 0); [done|lia]).
  assert (∀ a, Contains (Masked (mkPrefix (Addr4 cv) cb)) a = true → Contains (Masked (mkPrefix (Addr4 nv) nb)) a = false) as Hd.
  { intros a Ha. destruct (Contains (Masked (mkPrefix (Addr4 nv) nb)) a) eqn:Hn; [|done].
    by rewrite (Overlaps_shared cv cb nv nb a) in Ho by (lia || done). }
  destruct policy as [doc|]; [destruct (Policy.policy_Set doc st) as [st2 [?|]]|]; intros [= <- <- <-]; cbn; split_and!; eauto.
Qed.

(** C6: no address means two things. The server New makes for any network it
    accepts - any prefixes, masked or not - keeps the sessions' virtual IPs
    and the gateways' node IPs apart: whatever requests it serves, in the
    state reported to the gateways no address is that of two sessions, of two
    gateways, or of a session and a gateway. *)
Theorem addresses_never_shared policy (st st' : St) cfg' s fuel reqs :
  addr_ok (pf_Addr (ClientSubnet (cfg_Network cfg))) → addr_ok (pf_Addr (NodeSubnet (cfg_Network cfg))) →
  New cfg policy st = (st', Some (cfg', s)) →
  store_ok cfg' st' → 2 * Z.of_nat (length reqs) ≤ kvl_left st' → (3 ≤ fuel)%nat →
  let s' := fold_left (λ s r, (serve hashSecret hmacPSK cfg' fuel s r).1) reqs s in
  ∃ rep, gatewayState hmacPSK cfg' s' = mkResp StatusOK (GatewayStateBody rep) ∧
    NoDup ((s_VirtualIP <$> st_Sessions rep) ++ (g_NodeIP <$> st_Gateways rep)).
Proof.
  intros Hca Hna Hnew Hok Hleft Hf s'. destruct (New_subnets policy st st' cfg' s Hca Hna Hnew) as ((b & k & Hc) & (b' & k' & Hn) & Hd & _ & <-).
  destruct (gatewayState_ok hmacPSK cfg' s') as (rep & Hrep & Hst & _ & Hgip & Hu & Hg & _).
  { apply (run_keeps hashSecret hmacPSK cfg' gateways_encode clients_encode owners_encode b k b' k'); done. }
  exists rep. split; [done|]. apply NoDup_app. split_and!; [apply Hst| |done].
  intros a (x & -> & Hx)%list_elem_of_fmap (g & Ha & Hgw)%list_elem_of_fmap.
  assert (∀ p a, usable p a → Contains p a = true) as Hin.
  { intros p a (b1 & k1 & v & Hs & -> & Hv). apply (subnet_Contains p b1 k1); [done|lia]. }
  specialize (Hd (s_VirtualIP x) (Hin _ _ (Hu x Hx))). by rewrite Ha, (Hin _ _ (Hg g Hgw)) in Hd.
Qed.
End new.

(** ** Long polls: the loop of [waitVersion] beside [bumpLocked]

    The version and the channel are read together under the mutex, and a bump
    closes the channel it replaces, so a channel is the number of bumps before
    it was made, and it is closed once there have been more. *)
Module LongPoll.
Record shared := mkShared { sh_version : Z; sh_changed : nat }.
Inductive poller := Reading | Waiting (ch : nat) | Returned.
Inductive event := Bump | Read | Wake | Timer | Cancel.

Definition bump (sh : shared) : shared := mkShared (u64 (sh_version sh + 1)) (S (sh_changed sh)).
Definition closed (sh : shared) (ch : nat) : bool := (ch <? sh_changed sh)%nat.

(** [None]: the event cannot happen in this state. *)
Definition poll_step (after : Z) (st : shared * poller) (e : event) : option (shared * poller) :=
  let '(sh, p) := st in
  match e, p with
  | Bump, _ => Some (bump sh, p)
  | Read, Reading => Some (sh, if sh_version sh >? after then Returned else Waiting (sh_changed sh))
  | Wake, Waiting ch => if closed sh ch then Some (sh, Reading) else None
  | (Timer | Cancel), Waiting _ => Some (sh, Returned)
  | _, _ => None
  end.
Fixpoint poll_run (after : Z) (es : list event) (st : shared * poller) : option (shared * poller) :=
  match es with [] => Some st | e :: es => poll_step after st e ≫= poll_run after es end.

Definition poll_inv (after : Z) (st : shared * poller) : Prop :=
  match st.2 with
  | Waiting ch => (ch ≤ sh_changed st.1)%nat ∧ (ch = sh_changed st.1 → sh_version st.1 ≤ after)
  | _ => True
  end.

Lemma poll_step_inv after st e st' : poll_inv after st → poll_step after st e = Some st' → poll_inv after st'.
Proof.
  destruct st as [sh p], e, p; cbn; intros Hi Hs; simplify_eq; try done.
  - cbn. split; [lia|]. intros ->. lia.
  - unfold poll_inv. cbn [fst snd]. rewrite Z.gtb_ltb. by destruct (Z.ltb_spec after (sh_version sh)).
  - case_match; [by injection Hs as <-|done].
Qed.

(** C33: a long poll does not miss a change. Whatever the order of the bumps of
    other requests, the poll's own reads and its wake-ups, once the version is
    above the one it asked for the poll is not left waiting: its next read, or
    a wake-up that is ready and the read after it, return. *)
Theorem poll_sees_change after v es sh p :
  poll_run after es (mkShared v 0, Reading) = Some (sh, p) → after < sh_version sh →
  match p with
  | Returned => True
  | Reading => poll_step after (sh, p) Read = Some (sh, Returned)
  | Waiting _ => poll_run after [Wake; Read] (sh, p) = Some (sh, Returned)
  end.
Proof.
  intros Hrun Hv. assert (poll_inv after (sh, p)) as Hi.
  { assert (poll_inv after (mkShared v 0, Reading)) as H0 by done. revert Hrun H0. generalize (mkShared v 0, Reading).
    induction es as [|e es IH]; intros st; cbn; [by intros [= <-]|].
    destruct (poll_step after st e) as [st1|] eqn:E; [|done]. intros Hr H0. apply (IH st1 Hr). by eapply poll_step_inv. }
  assert ((sh_version sh >? after) = true) as Hg by (rewrite Z.gtb_ltb; by apply Z.ltb_lt).
  destruct p as [|ch|]; [by cbn; rewrite Hg| |done]. cbn in Hi. cbn [poll_run poll_step].
  assert (closed sh ch = true) as -> by (apply Nat.ltb_lt; lia). cbn. by rewrite Hg.
Qed.

Lemma poll_sees_change_witness :
  poll_run 5 [Read; Bump] (mkShared 5 0, Reading) = Some (mkShared 6 1, Waiting 0) ∧
  poll_run 5 [Wake; Read] (mkShared 6 1, Waiting 0) = Some (mkShared 6 1, Returned).
Proof. split; [reflexivity|]. apply (poll_sees_change 5 5 [Read; Bump] (mkShared 6 1) (Waiting 0)); [reflexivity|reflexivity]. Defined.
End LongPoll.

Module HttpDemo.
Import ControllerSpec.Demo.

(** Codecs that know one value, or none. *)
Definition only {A} (a : A) : Codec A := {| marshal _ := Some [1]; unmarshal _ := Some a; codec_ok x := x = a |}.
Definition never A : Codec A := {| marshal _ := None; unmarshal _ := None; codec_ok _ := False |}.
Lemma only_laws {A} (a : A) : @CodecLaws A (only a).
Proof. split; [cbn; eauto|]. intros x b Hx _. by rewrite Hx. Qed.
Lemma never_laws A : @CodecLaws A (never A).
Proof. by split. Qed.

Definition move : MigrateRequest := mkMigrate 1 "sg" "hk".
Definition moved : ApiSession := api_session psk demo_cfg client1 (mkOwn "7" "sg" "hk" 2).
#[export] Instance json : ApiJson := {|
  json_register := never _; json_links := never _; json_create := never _; json_migrate := only move;
  json_registered := never _; json_created := never _; json_session := only moved; json_gateways := never _;
  json_gwstate := never _; json_clstate := never _;
  marshal_error _ := []; unmarshal_error _ := mkApiError "" None; error_ok _ := False;
|}.
#[export] Instance json_laws : ApiJsonLaws.
Proof. split; (apply never_laws || apply only_laws || done). Qed.

Lemma client_reaches_controller_witness :
  (client_call (Some _) hash psk demo_cfg (λ _, "") (λ _, []) 3 (λ _ _ s, s) 0 ([], None) "http://ctl" ""
     (CMigrate "7" "s3cret" move) demo).1 = Ok (SessionBody moved).
Proof.
  rewrite client_reaches_controller; [vm_compute; reflexivity|..].
  - split; [by split_and!|]. split; [done|]. intros b [= <-]. cbn. lia.
  - intros s' r Hs. assert ((served (Some _) hash psk demo_cfg 3 (λ _ _ s, s) 0 ([], None) "" (CMigrate "7" "s3cret" move) demo).2 =
      Some (mkResp StatusOK (SessionBody moved))) as E by (vm_compute; reflexivity).
    rewrite Hs in E. injection E as ->. split; [vm_compute; discriminate|done].
Defined.

(** A network given by addresses inside its prefixes. *)
Definition sloppy : SConfig :=
  mkSConfig "" "" (mkNetwork (mkPrefix (Addr4 167837697) 24) (mkPrefix (Addr4 167903233) 24) 7777) 0 [1; 2; 3].

Lemma addresses_never_shared_witness :
  ∃ s, New sloppy None NewMemStore = (NewMemStore, Some (demo_cfg, s)) ∧
  ∃ rep, gatewayState psk demo_cfg (fold_left (λ s r, (serve hash psk demo_cfg 3 s r).1) demo_reqs s) = mkResp StatusOK (GatewayStateBody rep) ∧
    NoDup ((s_VirtualIP <$> st_Sessions rep) ++ (g_NodeIP <$> st_Gateways rep)).
Proof.
  exists start. assert (New sloppy None NewMemStore = (NewMemStore, Some (demo_cfg, start))) as E by (vm_compute; reflexivity).
  split; [exact E|].
  apply (addresses_never_shared hash psk sloppy gateways_enc clients_enc owners_enc None NewMemStore NewMemStore demo_cfg start 3 demo_reqs);
    [vm_compute; split; congruence|vm_compute; split; congruence|exact E|apply start_ok|vm_compute; discriminate|lia].
Defined.
End HttpDemo.
