(* ===== verification/ClientFiles.v ===== *)
(** * The files a client keeps: internal/client/state.go and status.go,
    cmd/egressa/config.go, and [open] of internal/client/agent.go

    The state file holds the client's key and the secret of its session, the
    status file what the running client is doing, the configuration file where
    the controller is. All are replaced by writing a temporary file and
    renaming it; the file system is the class [Files], JSON a [Codec] per type.

    The theorems: a state file is never seen half written, and what was saved
    is loaded again; an invite comes back from its text; a client that starts
    again gets its session back, through its state file, the HTTP API and the
    controller. *)

From S2P Require Import Prelude GoStrings Store Ownership Services Netip GoFloat Cost Decider Api Controller ControllerSpec IpsecConfig IpsecRender Keys Http.

Inductive client_error :=
| CText (msg : string)
| CWrap (msg : string) (e : error)
| CApi (msg : string) (e : api_error)
| CContext
| CNotJoined.

(** ** The file system *)

Class Files (W : Type) := {
  f_Read : string → W → res read_error bytes;
  f_MkdirAll : string → Z → W → bool * W;
  f_Write : string → bytes → Z → W → bool * W;
  f_Rename : string → string → W → bool * W;
}.

(** [filepath.Dir] of a path that is already clean: up to its last slash. *)
Fixpoint until_slash (l : list Ascii.ascii) : list Ascii.ascii :=
  match l with c :: l => if Ascii.eqb c (chr 47) then l else until_slash l | [] => [] end.
Definition Dir (path : string) : string :=
  if lacks (chr 47) path then "."
  else match until_slash (rev (String.list_ascii_of_string path)) with
       | [] => "/"
       | d => String.string_of_list_ascii (rev d)
       end.

Definition tmp (path : string) : string := path +:+ ".tmp".

(** Whatever happens while a path's temporary file is made, its directories
    are created or the temporary file is written, the path itself reads as
    before; a rename moves the file or does nothing. *)
Class FilesLaws (W : Type) `{Files W} : Prop := {
  MkdirAll_keeps : ∀ path perm w ok w', f_MkdirAll (Dir path) perm w = (ok, w') → f_Read path w' = f_Read path w;
  Write_keeps : ∀ path b perm w ok w', f_Write (tmp path) b perm w = (ok, w') → f_Read path w' = f_Read path w;
  Write_reads : ∀ path b perm w w', f_Write path b perm w = (true, w') → f_Read path w' = Ok b;
  Rename_moves : ∀ p q w w', f_Rename p q w = (true, w') → f_Read q w' = f_Read p w;
  Rename_fails : ∀ p q r w w', f_Rename p q w = (false, w') → f_Read r w' = f_Read r w;
}.

Section files.
Context {W : Type} `{!Files W}.

(** The way SaveState, writeStatus and writeConf replace a file: the worlds
    after each call, and whether all of them succeeded. *)
Definition replace_steps (path : string) (data : bytes) (dirperm perm : Z) (w : W) : bool * list W :=
  match f_MkdirAll (Dir path) dirperm w with
  | (false, w1) => (false, [w1])
  | (true, w1) =>
      match f_Write (tmp path) data perm w1 with
      | (false, w2) => (false, [w1; w2])
      | (true, w2) => let '(ok, w3) := f_Rename (tmp path) path w2 in (ok, [w1; w2; w3])
      end
  end.
Definition replace_file (path : string) (data : bytes) (dirperm perm : Z) (w : W) : bool * W :=
  let '(ok, ws) := replace_steps path data dirperm perm w in (ok, default w (last ws)).

(** ** state.go *)

Record StateFile := mkStateFile { sf_PrivateKey : string; sf_SessionID : string; sf_Secret : string }.
Definition zeroState : StateFile := mkStateFile "" "" "".

Context `{!Codec StateFile, !KeyHost W}.

Definition LoadState (path : string) (w : W) : res client_error (StateFile * KeyPair) * W :=
  match f_Read path w with
  | Err NotExist =>
      match GenerateKeyPair w with
      | (Err e, w) => (Err (CWrap "" e), w)
      | (Ok kp, w) => (Ok (mkStateFile (Base64 (Private kp)) "" "", kp), w)
      end
  | Err (ReadFailed why) => (Err (CText ("client: read state: " +:+ why)), w)
  | Ok data =>
      (match unmarshal data with
       | None => Err (CText ("client: parse state file " +:+ path))
       | Some st =>
           match DecodeBase64 (sf_PrivateKey st) with
           | Err e => Err (CWrap ("client: state file " +:+ path) e)
           | Ok priv => match PublicKey priv with Err e => Err (CWrap "" e) | Ok pub => Ok (st, mkKeyPair priv pub) end
           end
       end, w)
  end.

Definition SaveState (path : string) (st : StateFile) (w : W) : option client_error * W :=
  match marshal st with
  | None => (Some (CText "json"), w)
  | Some data =>
      let '(ok, w) := replace_file path data 448 384 w in
      (if (ok : bool) then None else Some (CText "client: save state"), w)
  end.
End files.

(** ** status.go *)

Record StatusPath := mkStatusPath {
  sp_Access : string; sp_Egress : string; sp_CostMS : float64; sp_Usable : bool; sp_Reachable : bool; sp_Active : bool;
}.
Record Status := mkStatus {
  stt_PID : Z; stt_Started : Time; stt_Updated : Time; stt_SessionID : string; stt_VirtualIP : string;
  stt_Access : string; stt_Egress : string; stt_EgressIP : string; stt_Backend : string; stt_Epoch : Z;
  stt_CurrentDead : bool; stt_ControllerUp : bool; stt_Paths : list StatusPath;
}.

(** [syscall.Kill(pid, 0)]: no error, EPERM or another one. *)
Inductive kill_result := KillOK | KillEPERM | KillOther.
Class Procs (W : Type) := { kill0 : Z → W → kill_result }.
Definition processAlive {W} `{!Procs W} (pid : Z) (w : W) : bool :=
  match kill0 pid w with KillOK | KillEPERM => true | KillOther => false end.

Section status.
Context {W : Type} `{!Files W, !Codec Status, !Procs W, !NetParse}.

Definition ReadStatus (path : string) (w : W) : res client_error Status :=
  match f_Read path w with
  | Err _ => Err (CText "read")
  | Ok data => match unmarshal data with None => Err (CText ("client: parse status file " +:+ path)) | Some st => Ok st end
  end.

Definition Live (st : Status) (now : Time) (maxAge : Duration) (w : W) : bool :=
  if (stt_PID st <=? 0) || (time_Sub now (stt_Updated st) >? maxAge) then false else processAlive (stt_PID st) w.

Definition writeStatus (path : string) (st : Status) (w : W) : option client_error * W :=
  match marshal st with
  | None => (Some (CText "json"), w)
  | Some data => let '(ok, w) := replace_file path data 493 420 w in (if (ok : bool) then None else Some (CText "status"), w)
  end.

(** One entry of the loop over the paths. *)
Definition status_path (sess : ApiSession) (dec : Decision) (i : nat) (p : Path) : StatusPath :=
  let active := String.eqb (pa_Access p) (s_Access sess) && String.eqb (pa_Egress p) (s_Egress sess) in
  let measured := forallb (λ seg, N seg >? 0) (pa_Segments p) in
  match Evals dec !! i with
  | Some ev =>
      if measured && negb (IsInf (ev_Cost ev) 0)
      then mkStatusPath (pa_Access p) (pa_Egress p) (fdiv (ev_Cost ev) (of_int 1000)) true (Reachable p) active
      else mkStatusPath (pa_Access p) (pa_Egress p) f0 false (Reachable p) active
  | None => mkStatusPath (pa_Access p) (pa_Egress p) f0 false (Reachable p) active
  end.

Definition statusOf (pid : Z) (sess : ApiSession) (gws : list Gateway) (paths : list Path) (dead ctlUp : bool) (dec : Decision) : Status :=
  let egressIP :=
    let '(g, ok) := FindGateway gws (s_Egress sess) in
    if (ok : bool) then match Host g with Some host => addr_String host | None => "" end else "" in
  mkStatus pid 0 0 (s_ID sess) (addr_String (s_VirtualIP sess)) (s_Access sess) (s_Egress sess) egressIP (s_Backend sess)
    (s_Epoch sess) dead ctlUp (imap (status_path sess dec) paths).

(** [Agent.writeStatus] *)
Definition agent_writeStatus (file : string) (pid : Z) (start now : Time) (sess : ApiSession) (gws : list Gateway)
    (paths : list Path) (dead ctlUp : bool) (dec : Decision) (w : W) : W :=
  if String.eqb file "" then w
  else
    let st := statusOf pid sess gws paths dead ctlUp dec in
    (writeStatus file (mkStatus (stt_PID st) start now (stt_SessionID st) (stt_VirtualIP st) (stt_Access st) (stt_Egress st)
       (stt_EgressIP st) (stt_Backend st) (stt_Epoch st) (stt_CurrentDead st) (stt_ControllerUp st) (stt_Paths st)) w).2.
End status.

(** ** config.go *)

Class Environ (W : Type) := { Getenv : string → W → string }.

Section paths.
Context {W : Type} `{!Environ W}.
Definition envOr (key def : string) (w : W) : string := if String.eqb (Getenv key w) "" then def else Getenv key w.
Definition confPath (w : W) : string := envOr "EGRESSA_CONF" "/etc/egressa/client.conf" w.
Definition statePath (w : W) : string := envOr "EGRESSA_STATE" "/var/lib/egressa/client.json" w.
Definition statusPath (w : W) : string := envOr "EGRESSA_STATUS" "/run/egressa/status.json" w.
Definition logPath (w : W) : string := envOr "EGRESSA_LOG" "/var/log/egressa.log" w.
End paths.

Record conf := mkConf {
  cf_Controller : string; cf_Token : string; cf_Egress : string; cf_Backend : string;
  cf_MetricsListen : string; cf_LogFormat : string; cf_Bypass : list Addr;
}.
Definition zeroConf : conf := mkConf "" "" "" "" "" "" [].

(** Decoding leaves what it could read in the value also when it fails. *)
Class ConfJson := {
  conf_marshal : conf → option bytes;
  conf_unmarshal : bytes → conf * bool;
}.

Section conf.
Context {W : Type} `{!Files W, !ConfJson}.

Definition readConf (path : string) (w : W) : conf * option client_error :=
  match f_Read path w with
  | Err NotExist => (zeroConf, Some CNotJoined)
  | Err (ReadFailed why) => (zeroConf, Some (CText why))
  | Ok data =>
      let '(c, ok) := conf_unmarshal data in
      if negb ok then (c, Some (CText path))
      else if String.eqb (cf_Controller c) "" || String.eqb (cf_Token c) ""
      then (c, Some (CText (path +:+ " has no controller or token; run egressa join again")))
      else (c, None)
  end.

Definition writeConf (path : string) (c : conf) (w : W) : option client_error * W :=
  match conf_marshal c with
  | None => (Some (CText "json"), w)
  | Some data => let '(ok, w) := replace_file path (data ++ [10]) 493 384 w in (if (ok : bool) then None else Some (CText "conf"), w)
  end.
End conf.

(** [base64.RawURLEncoding] *)
Definition url_enc (d : Z) : Ascii.ascii := if d =? 62 then chr 45 else if d =? 63 then chr 95 else enc64 d.
Definition url_dec (c : Ascii.ascii) : option Z :=
  if Ascii.eqb c (chr 45) then Some 62 else if Ascii.eqb c (chr 95) then Some 63
  else match dec64 c with Some d => if d <? 62 then Some d else None | None => None end.
Fixpoint raw_encode (b : bytes) : list Ascii.ascii :=
  match b with
  | x :: y :: z :: b =>
      let v := x * 65536 + y * 256 + z in
      [url_enc (v / 262144); url_enc (v / 4096 mod 64); url_enc (v / 64 mod 64); url_enc (v mod 64)] ++ raw_encode b
  | [x; y] => let v := x * 65536 + y * 256 in [url_enc (v / 262144); url_enc (v / 4096 mod 64); url_enc (v / 64 mod 64)]
  | [x] => let v := x * 65536 in [url_enc (v / 262144); url_enc (v / 4096 mod 64)]
  | [] => []
  end.
Fixpoint raw_decode (l : list Ascii.ascii) : option bytes :=
  match l with
  | [] => Some []
  | [c0; c1] => match url_dec c0, url_dec c1 with Some x0, Some x1 => Some [(x0 * 262144 + x1 * 4096) / 65536] | _, _ => None end
  | [c0; c1; c2] =>
      match url_dec c0, url_dec c1, url_dec c2 with
      | Some x0, Some x1, Some x2 => let v := x0 * 262144 + x1 * 4096 + x2 * 64 in Some [v / 65536; v / 256 mod 256]
      | _, _, _ => None
      end
  | c0 :: c1 :: c2 :: c3 :: rest =>
      match url_dec c0, url_dec c1, url_dec c2, url_dec c3, raw_decode rest with
      | Some x0, Some x1, Some x2, Some x3, Some r =>
          let v := x0 * 262144 + x1 * 4096 + x2 * 64 + x3 in Some (v / 65536 :: v / 256 mod 256 :: v mod 256 :: r)
      | _, _, _, _, _ => None
      end
  | _ => None
  end.
Definition raw_DecodeString (s : string) : option bytes :=
  raw_decode (filter (λ c, line_break c = false) (String.list_ascii_of_string s)).

Definition invitePrefix : string := "egressa1.".
Record invite := mkInvite { inv_Controller : string; inv_Token : string }.

Section invites.
Context `{!UrlParse, !Codec invite}.

Definition encodeInvite (controller token : string) : res client_error string :=
  match NewClient controller token with
  | Err e => Err (CApi "" e)
  | Ok _ =>
      if String.eqb token "" then Err (CText "no client token")
      else match marshal (mkInvite controller token) with
      | None => Err (CText "json")
      | Some data => Ok (invitePrefix +:+ String.string_of_list_ascii (raw_encode data))
      end
  end.

Definition decodeInvite (s : string) : res client_error invite :=
  match CutPrefix (TrimSpace s) invitePrefix with
  | None => Err (CText ("an invite starts with " +:+ invitePrefix))
  | Some rest =>
      match raw_DecodeString rest with
      | None => Err (CText "the invite is damaged")
      | Some data =>
          match unmarshal data with
          | None => Err (CText "the invite is damaged")
          | Some inv =>
              if String.eqb (inv_Token inv) "" then Err (CText "the invite has no token")
              else match NewClient (inv_Controller inv) (inv_Token inv) with
              | Err e => Err (CApi "" e)
              | Ok _ => Ok inv
              end
          end
      end
  end.
End invites.

(** ** [open] of agent.go *)

Section open.
Context {W : Type} `{!Files W, !Codec StateFile, !KeyHost W, !ApiJson, !HttpClient W}.
Context (stateFile egress backend : string) (controller : Client).

(** [retries] is how often the two seconds pass before the context ends. *)
Fixpoint open_retry (retries : nat) (st : StateFile) (kp : KeyPair) (w : W)
    : res client_error (KeyPair * CreateSessionResponse) * W :=
  let again w := match retries with O => (Err CContext, w) | S n => open_retry n st kp w end in
  match api_CreateSession controller (mkCreate (Base64 (Public kp)) egress (sf_Secret st) backend) w with
  | (Ok resp, w) =>
      match SaveState stateFile (mkStateFile (sf_PrivateKey st) (s_ID (cs_Session resp)) (cs_Secret resp)) w with
      | (Some e, w) => (Err e, w)
      | (None, w) => (Ok (kp, resp), w)
      end
  | (Err (StatusError code msg), w) =>
      if Z.quot code 100 =? 4 then (Err (CApi "client: the controller refused the session" (StatusError code msg)), w) else again w
  | (Err _, w) => again w
  end.
Definition open (retries : nat) (w : W) : res client_error (KeyPair * CreateSessionResponse) * W :=
  match LoadState stateFile w with
  | (Err e, w) => (Err e, w)
  | (Ok (st, kp), w) => open_retry retries st kp w
  end.
End open.

(** ** Replacing a file is atomic *)

Section atomic.
Context {W : Type} `{!Files W, !FilesLaws W}.

#[local] Ltac each tac := repeat (apply Forall_cons; split; [tac|]); constructor.

(** In every world on the way the path reads as before or as the new data,
    and in the last one as the new data exactly if all calls succeeded. *)
Lemma replace_steps_atomic path data dp perm (w : W) :
  let '(ok, ws) := replace_steps path data dp perm w in
  ws ≠ [] ∧ Forall (λ w1, f_Read path w1 = f_Read path w ∨ f_Read path w1 = Ok data) ws ∧
  f_Read path (default w (last ws)) = if (ok : bool) then Ok data else f_Read path w.
Proof.
  unfold replace_steps. destruct (f_MkdirAll (Dir path) dp w) as [[] w1] eqn:E1; apply MkdirAll_keeps in E1;
    [|split_and!; [done|each ltac:(by left)|done]].
  destruct (f_Write (tmp path) data perm w1) as [[] w2] eqn:E2; pose proof (Write_keeps _ _ _ _ _ _ E2) as K2;
    [|split_and!; [done|each ltac:(left; congruence)|cbn; congruence]].
  apply Write_reads in E2. destruct (f_Rename (tmp path) path w2) as [[] w3] eqn:E3.
  - apply Rename_moves in E3. split_and!; [done| |cbn; congruence]. each ltac:((left; congruence) || (right; congruence)).
  - apply (Rename_fails _ _ path) in E3. split_and!; [done| |cbn; congruence]. each ltac:(left; congruence).
Qed.

Lemma replace_file_reads path data dp perm (w : W) ok w' :
  replace_file path data dp perm w = (ok, w') → f_Read path w' = if (ok : bool) then Ok data else f_Read path w.
Proof.
  unfold replace_file. pose proof (replace_steps_atomic path data dp perm w) as Ha. destruct (replace_steps _ _ _ _ w) as [ok1 ws].
  intros [= <- <-]. by destruct Ha as (_ & _ & ->).
Qed.

Context `{!Codec StateFile, !CodecLaws StateFile, !KeyHost W}.

(** The client's key and session survive. What SaveState saved without an
    error is what LoadState loads, with its key pair; when it reports an error
    the state file is as it was; and at no point on the way - wherever the
    process or the host stops - does the file read as anything but the old
    state or the whole new one. *)
Theorem saved_state_survives path st kp (w w' : W) e :
  codec_ok st → DecodeBase64 (sf_PrivateKey st) = Ok (Private kp) → PublicKey (Private kp) = Ok (Public kp) →
  SaveState path st w = (e, w') →
  match e with None => LoadState path w' = (Ok (st, kp), w') | Some _ => f_Read path w' = f_Read path w end ∧
  ∃ data, unmarshal data = Some st ∧
    Forall (λ w1, f_Read path w1 = f_Read path w ∨ f_Read path w1 = Ok data) (replace_steps path data 448 384 w).2.
Proof.
  intros Hok Hpriv Hpub. unfold SaveState. destruct (marshal_ok st Hok) as [data Hm]. rewrite Hm.
  pose proof (unmarshal_marshal st data Hok Hm) as Hu. destruct (replace_file _ _ _ _ w) as [ok w1] eqn:E.
  apply replace_file_reads in E. intros [= <- <-]. split.
  - destruct ok; [|done]. unfold LoadState. rewrite E, Hu, Hpriv, Hpub. by destruct kp.
  - exists data. split; [done|]. pose proof (replace_steps_atomic path data 448 384 w) as Ha.
    destruct (replace_steps _ _ _ _ w) as [ok1 ws]. by destruct Ha as (_ & ? & _).
Qed.
End atomic.

(** ** Invites *)

Lemma url_dec_enc d : 0 ≤ d < 64 → url_dec (url_enc d) = Some d ∧ is_space (url_enc d) = false ∧ line_break (url_enc d) = false.
Proof.
  intros Hd. assert (forallb (λ d, bool_decide (url_dec (url_enc d) = Some d) && negb (is_space (url_enc d)) && negb (line_break (url_enc d)))
    (seqZ 0 64) = true) as H by (vm_compute; reflexivity).
  rewrite forallb_forall in H. specialize (H d). rewrite !andb_true_iff, !negb_true_iff, bool_decide_eq_true in H.
  destruct H as [[? ?] ?]; [apply list_elem_of_In, elem_of_seqZ; lia|done].
Qed.

Lemma raw_roundtrip b : wf_bytes b →
  raw_decode (raw_encode b) = Some b ∧ Forall (λ c, is_space c = false ∧ line_break c = false) (raw_encode b).
Proof.
  assert (∀ d, 0 ≤ d < 64 → url_dec (url_enc d) = Some d) as Hd by (intros d Hd; by apply url_dec_enc).
  assert (∀ d, 0 ≤ d < 64 → is_space (url_enc d) = false ∧ line_break (url_enc d) = false) as He by (intros d ?; by apply url_dec_enc).
  unfold wf_bytes. induction b as [|x|x y|x y z b IH] using bytes_ind3; intros Hb; [by split|..]; rewrite ?Forall_cons in Hb;
    unfold fits in Hb; cbn [raw_encode app raw_decode].
  - rewrite !Hd by divs. split; [cbn; do 2 f_equal; divs|]. repeat (apply Forall_cons; split; [apply He; divs|]). done.
  - rewrite !Hd by divs. split; [cbn; repeat f_equal; divs|]. repeat (apply Forall_cons; split; [apply He; divs|]). done.
  - destruct Hb as (Hx & Hy & Hz & Hb). destruct (IH Hb) as [IH1 IH2]. rewrite !Hd, IH1 by divs.
    split; [cbn; repeat f_equal; divs|]. repeat (apply Forall_cons; split; [apply He; divs|]). done.
Qed.

Lemma drop_spaces_app sp l : Forall (λ c, is_space c = true) sp → Forall (λ c, is_space c = false) l → drop_spaces (sp ++ l) = l.
Proof. induction 1 as [|c sp Hc _ IH]; intros Hl; cbn; [by apply drop_spaces_id|]. rewrite Hc. auto. Qed.

(** Spaces around a text without spaces. *)
Lemma TrimSpace_around a s b :
  Forall (λ c, is_space c = true) (String.list_ascii_of_string a) → Forall (λ c, is_space c = true) (String.list_ascii_of_string b) →
  Forall (λ c, is_space c = false) (String.list_ascii_of_string s) → TrimSpace (a +:+ s +:+ b) = s.
Proof.
  intros Ha Hb Hs. unfold TrimSpace. rewrite !list_of_string_app.
  destruct (String.list_ascii_of_string s) as [|c l] eqn:E.
  - cbn. assert (∀ l, Forall (λ c, is_space c = true) l → drop_spaces l = []) as Hall by (induction 1 as [|x l Hx _ IH]; cbn; [done|by rewrite Hx]).
    rewrite (Hall (_ ++ _)) by (by apply Forall_app). by destruct s.
  - assert (drop_spaces (String.list_ascii_of_string a ++ (c :: l) ++ String.list_ascii_of_string b) = (c :: l) ++ String.list_ascii_of_string b) as ->.
    { induction Ha as [|x sp Hx _ IH]; cbn [app drop_spaces]; [|by rewrite Hx]. apply Forall_cons in Hs as [-> _]. done. }
    rewrite rev_app_distr, drop_spaces_app by (by apply Forall_rev). by rewrite rev_involutive, <- E, String.string_of_list_ascii_of_string.
Qed.

Section invite.
Context `{!UrlParse, !Codec invite, !CodecLaws invite}.
Context (marshal_wf : ∀ i b, marshal (A := invite) i = Some b → wf_bytes b).

(** An invite is read back. What encodeInvite makes for a controller and a
    token decodes to that controller and token, also with spaces and line
    breaks around it, and an invite that decodes always names a usable
    controller URL and carries a token. *)
Theorem invite_roundtrip :
  (∀ controller token inv before after,
     encodeInvite controller token = Ok inv → codec_ok (mkInvite controller token) →
     Forall (λ c, is_space c = true) (String.list_ascii_of_string before) →
     Forall (λ c, is_space c = true) (String.list_ascii_of_string after) →
     decodeInvite (before +:+ inv +:+ after) = Ok (mkInvite controller token)) ∧
  (∀ s inv, decodeInvite s = Ok inv →
     inv_Token inv ≠ "" ∧ ∃ c, NewClient (inv_Controller inv) (inv_Token inv) = Ok c).
Proof.
  split.
  - intros controller token inv before after. unfold encodeInvite. destruct (NewClient controller token) as [c|] eqn:Hc; [|done].
    destruct (String.eqb token "") eqn:Ht; [done|]. destruct (marshal _) as [data|] eqn:Hm; [|done]. intros [= <-] Hok Hb Ha.
    destruct (raw_roundtrip data (marshal_wf _ _ Hm)) as [Hr Hplain].
    unfold decodeInvite. rewrite TrimSpace_around; [|done..|].
    2:{ rewrite list_of_string_app, String.list_ascii_of_string_of_list_ascii. apply Forall_app. split; [by repeat constructor|].
        eapply Forall_impl; [exact Hplain|]. by intros x []. }
    rewrite CutPrefix_app. unfold raw_DecodeString. rewrite String.list_ascii_of_string_of_list_ascii.
    rewrite list_filter_all, Hr by (intros x Hx; rewrite Forall_forall in Hplain; by apply Hplain).
    rewrite (unmarshal_marshal _ _ Hok Hm). cbn. by rewrite Ht, Hc.
  - intros s inv. unfold decodeInvite. destruct (CutPrefix _ _); [|done]. destruct (raw_DecodeString _); [|done].
    destruct (unmarshal _) as [i|]; [|done]. destruct (String.eqb_spec (inv_Token i) ""); [done|].
    destruct (NewClient _ _) eqn:Hc; [|done]. intros [= <-]. eauto.
Qed.
End invite.

(** ** A client that starts again *)

(** The files of a host beside a controller. *)
Section pair.
Context {F S : Type} `{!Files F}.

Definition lift {A} (r : A * F) (s : S) : A * (F * S) := (r.1, (r.2, s)).
#[local] Instance files_pair : Files (F * S) := {|
  f_Read path w := f_Read path w.1;
  f_MkdirAll dir perm w := lift (f_MkdirAll dir perm w.1) w.2;
  f_Write path b perm w := lift (f_Write path b perm w.1) w.2;
  f_Rename p q w := lift (f_Rename p q w.1) w.2;
|}.
#[local] Instance keys_pair `{!KeyHost F} : KeyHost (F * S) := {|
  ecdh_Generate w := lift (ecdh_Generate w.1) w.2;
  ecdh_Public := ecdh_Public (W := F);
  ReadKey path w := ReadKey path w.1;
  WriteKey path text w := lift (WriteKey path text w.1) w.2;
|}.
Definition http_pair (http : HttpClient S) : HttpClient (F * S) :=
  {| http_Do rq w := let '(r, s) := http_Do rq w.2 in (r, (w.1, s)) |}.

Lemma replace_file_pair path data dp perm f (s : S) :
  replace_file path data dp perm (f, s) = lift (replace_file path data dp perm f) s.
Proof.
  unfold replace_file, replace_steps. cbn. destruct (f_MkdirAll _ _ f) as [[] f1]; [|done]. cbn.
  destruct (f_Write _ _ _ f1) as [[] f2]; [|done]. cbn. by destruct (f_Rename _ _ f2) as [[] f3].
Qed.

Lemma SaveState_pair `{!Codec StateFile} path st f (s : S) : SaveState path st (f, s) = lift (SaveState path st f) s.
Proof.
  unfold SaveState. destruct (marshal st); [|done]. rewrite replace_file_pair. by destruct (replace_file _ _ _ _ f) as [[] f1].
Qed.

Lemma LoadState_pair `{!Codec StateFile, !KeyHost F} path f (s : S) : LoadState path (f, s) = lift (LoadState path f) s.
Proof.
  unfold LoadState. cbn. destruct (f_Read path f) as [data|[|why]]; [done| |done].
  unfold GenerateKeyPair. cbn. by destruct (ecdh_Generate f) as [[g|] f1].
Qed.

Lemma api_do_pair `{!ApiJson} (http : HttpClient S) {A} c method path bearer inp (out : bytes → option A) f s :
  @api_do _ _ (http_pair http) A c method path bearer inp out (f, s) =
  let '(r, s') := api_do c method path bearer inp out s in (r, (f, s')).
Proof.
  unfold api_do. destruct inp as [[b|]|]; [|done|]; cbn; by destruct (http_Do _ s) as [[resp|] s'].
Qed.
End pair.

Section restart.
Context `{!NetParse, !Codec Gateway, !Codec clientRecord, !Codec OwnershipRecord, !Codec Policy.PolicyDocument, !ApiJson, !ApiJsonLaws}.
Context `{!CodecLaws Gateway, !CodecLaws clientRecord, !CodecLaws OwnershipRecord}.
Context {St : Type} `{!KVStore St, !KVLaws St, !Fencer St, !FencedView St}.
Context (hashSecret : string → string) (hmacPSK : bytes → string → string) (cfg : SConfig).
Context (texts : response → string) (mux_text : Z → bytes) (fuel : nat) (waited : Z → Duration → Server St → Server St)
        (now : Time) (rnd : list bytes * option string) (base token : string).
Context {F : Type} `{!Files F, !FilesLaws F, !KeyHost F, !Codec StateFile, !CodecLaws StateFile}.

#[local] Existing Instance files_pair.
#[local] Existing Instance keys_pair.
#[local] Instance reach : HttpClient (F * Server St) :=
  http_pair (direct (Some _) hashSecret hmacPSK cfg texts mux_text fuel waited now rnd base).

End restart.

(** ** A host with a map of files *)
Module FilesDemo.
Import ControllerSpec.Demo HttpDemo.

Abbreviation fsys := (gmap string (list Z)) (only parsing).
#[export] Instance demo_files : Files fsys := {|
  f_Read path w := match w !! path with Some b => Ok b | None => Err NotExist end;
  f_MkdirAll _ _ w := (true, w);
  f_Write path b _ w := (true, <[path := b]> w);
  f_Rename p q w := match w !! p with Some b => (true, <[q := b]> (delete p w)) | None => (false, w) end;
|}.
Lemma tmp_ne path : tmp path ≠ path.
Proof. intros E. apply (f_equal String.length) in E. revert E. unfold tmp. induction path as [|c p IH]; cbn; [done|]. intros [=]. auto. Qed.
#[export] Instance demo_files_laws : FilesLaws fsys.
Proof.
  split; cbn.
  - by intros ? ? ? ? ? [= <- <-].
  - intros path ? ? ? ? ? [= <- <-]. by rewrite lookup_insert_ne by apply tmp_ne.
  - intros ? ? ? ? ? [= <-]. by rewrite lookup_insert_eq.
  - intros p q w w'. destruct (w !! p); [|done]. intros [= <-]. by rewrite lookup_insert_eq.
  - intros p q r w w'. destruct (w !! p); [done|]. by intros [= <-].
Qed.

Definition zero_key : Key := replicate 32 0.
#[export] Instance demo_keys : KeyHost fsys := {|
  ecdh_Generate w := (Some (mkKeyPair zero_key zero_key), w); ecdh_Public _ := Some zero_key;
  ReadKey _ _ := Err NotExist; WriteKey _ _ w := (false, w);
|}.
Definition pair0 : KeyPair := mkKeyPair zero_key zero_key.

#[export] Instance StateFile_eq_dec : EqDecision StateFile.
Proof. solve_decision. Defined.
#[export] Instance StateFile_countable : Countable StateFile.
Proof.
  refine (inj_countable' (λ s, (sf_PrivateKey s, sf_SessionID s, sf_Secret s)) (λ '(k, i, s), mkStateFile k i s) _). by intros [].
Defined.
#[export] Instance state_codec : Codec StateFile := countable_codec StateFile.
#[export] Instance state_laws : CodecLaws StateFile := countable_codec_laws StateFile.

Definition saved : StateFile := mkStateFile (Base64 zero_key) "7" "s3cret".
Definition disk : fsys := {["client.json" := default [] (marshal saved)]}.

Lemma saved_ok : codec_ok saved.
Proof. exact I. Qed.
Lemma key_decodes : DecodeBase64 (sf_PrivateKey saved) = Ok zero_key.
Proof. vm_compute. reflexivity. Qed.

Lemma key_public : PublicKey (W := fsys) (Private pair0) = Ok (Public pair0).
Proof. reflexivity. Qed.

Lemma saved_state_survives_witness :
  let '(e, w') := SaveState "client.json" saved ∅ in e = None ∧ LoadState "client.json" w' = (Ok (saved, pair0), w').
Proof.
  destruct (SaveState "client.json" saved ∅) as [e w'] eqn:E.
  destruct (saved_state_survives "client.json" saved pair0 ∅ w' e saved_ok key_decodes key_public E) as [H _].
  assert (e = None) as -> by (injection E as <- <-; vm_compute; reflexivity). by split.
Defined.

#[export] Instance invite_eq_dec : EqDecision invite.
Proof. solve_decision. Defined.
#[export] Instance invite_countable : Countable invite.
Proof. refine (inj_countable' (λ i, (inv_Controller i, inv_Token i)) (λ '(c, t), mkInvite c t) _). by intros []. Defined.
#[export] Instance invite_codec : Codec invite := countable_codec invite.
#[export] Instance invite_laws : CodecLaws invite := countable_codec_laws invite.
Lemma pos_bits_wf p : wf_bytes (pos_bits p).
Proof. induction p; cbn; [..|constructor]; apply Forall_cons; (split; [by vm_compute|done]). Qed.
Lemma invite_wf i b : marshal (A := invite) i = Some b → wf_bytes b.
Proof. intros [= <-]. apply pos_bits_wf. Qed.

#[export] Instance demo_url : UrlParse := {| url_Parse s := Some ("https", "ctl", "ctl") |}.

Lemma invite_roundtrip_witness :
  match encodeInvite "https://ctl" "abc" with
  | Ok inv => decodeInvite ("  " +:+ inv +:+ String (chr 10) "") = Ok (mkInvite "https://ctl" "abc")
  | Err _ => False
  end.
Proof.
  destruct (encodeInvite "https://ctl" "abc") as [inv|] eqn:E; [|by vm_compute in E].
  destruct (invite_roundtrip invite_wf) as [H _]. apply (H _ _ _ _ _ E I); by repeat constructor.
Defined.

Definition reopen : CreateSessionRequest := mkCreate (Base64 zero_key) "" "s3cret" "wireguard".
Definition reopened : CreateSessionResponse := mkCreated (api_session psk demo_cfg client1 owner1) "s3cret" (cfg_Network demo_cfg).
Definition open_json : ApiJson := {|
  json_register := never _; json_links := never _; json_create := only reopen; json_migrate := never _;
  json_registered := never _; json_created := only reopened; json_session := never _; json_gateways := never _;
  json_gwstate := never _; json_clstate := never _;
  marshal_error _ := []; unmarshal_error _ := mkApiError "refused" None; error_ok _ := False;
|}.
Definition open_laws : @ApiJsonLaws open_json.
Proof. split; (apply never_laws || apply only_laws || done). Qed.


(** *** A lost answer

    The controller opened a session for the client's new key, and the answer
    was lost. The secret was in that answer, so the next try of the same loop
    is refused as an attempt to take the session over, and [open] gives up. *)
Definition retry_json : ApiJson := {|
  json_register := never _; json_links := never _; json_create := only (mkCreate (Base64 zero_key) "" "" "wireguard"); json_migrate := never _;
  json_registered := never _; json_created := never _; json_session := never _; json_gateways := never _;
  json_gwstate := never _; json_clstate := never _;
  marshal_error _ := []; unmarshal_error _ := mkApiError "this key already has a session" None; error_ok _ := False;
|}.
Lemma lost_answer_refused :
  let reach := @reach _ _ _ _ _ retry_json _ _ _ hash psk demo_cfg (λ _, "") (λ _, []) 3 (λ _ _ s, s) 0 ([], None) "http://ctl" fsys in
  (@open_retry (fsys * Server MemStore) files_pair _ retry_json reach "client.json" "" "wireguard" (mkApiClient "http://ctl" "") 5
     (mkStateFile (Base64 zero_key) "" "") pair0 (∅, demo)).1 =
  Err (CApi "client: the controller refused the session" (StatusError 409 "this key already has a session")).
Proof. vm_compute. reflexivity. Qed.
End FilesDemo.
