(* ===== verification/Command.v ===== *)
(** * The egressa command: cmd/egressa/main.go and service.go

    Each command is a function of the world: the host's files, processes,
    clock and environment and the controller, as classes of calls. A command
    ends with a value, with an error, or by replacing itself with sudo. What a
    command prints is data: the rows of a table before it is aligned, and the
    status [connect] ends with. [cmdRun], which wires the client agent together, is
    with the daemons.

    The theorems: connect ends with the live status of a client that leaves
    from the gateway asked for, and changes nothing when it refuses; moving a
    running session commits exactly the move asked for; the waiting loops end;
    the command run again under sudo is the same command. *)

From S2P Require Import Prelude GoStrings Store Ownership Services Netip GoFloat Cost Decider Api Controller ControllerSpec IpsecConfig IpsecRender Keys HostNet Http ClientFiles.
Import Membership.

Inductive stop := Fail (e : client_error) | Replaced.

Class CmdHost (W : Type) := {
  Geteuid : W → Z;
  LookPath : string → W → option string;
  Executable : W → option string;
  os_Environ : W → list string;
  os_Args : W → list string;
  sys_Exec : string → list string → list string → W → option string * W;
  os_Stat : string → W → bool;
  time_Now : W → Time;
  time_Sleep : Duration → W → W;
  run_systemctl : list string → W → string * exit * W;
  start_process : string → string → W → bool * W;
  sigterm : Z → W → bool * W;
}.

(** ** A small monad: the world, and stopping early *)

Definition cmd (W A : Type) : Type := W → res stop A * W.
Definition ret {W A} (a : A) : cmd W A := λ w, (Ok a, w).
Definition fails {W A} (e : client_error) : cmd W A := λ w, (Err (Fail e), w).
Definition cbind {W A B} (m : cmd W A) (k : A → cmd W B) : cmd W B :=
  λ w, match m w with (Ok a, w) => k a w | (Err e, w) => (Err e, w) end.
Notation "'let!' x ':=' m 'in' k" := (cbind m (λ x, k)) (at level 200, x pattern, m at level 100, k at level 200) : go_scope.
Definition ask {W A} (f : W → A) : cmd W A := λ w, (Ok (f w), w).
(** An operation that returns an error or nothing. *)
Definition must {W} (f : W → option client_error * W) : cmd W unit :=
  λ w, match f w with (None, w) => (Ok tt, w) | (Some e, w) => (Err (Fail e), w) end.
Definition try_api {W A} (msg : string) (f : W → res api_error A * W) : cmd W A :=
  λ w, match f w with (Ok a, w) => (Ok a, w) | (Err e, w) => (Err (Fail (CApi msg e)), w) end.

(** ** Arguments and lists of gateways *)

(** [strings.TrimLeft(s, "-")] *)
Fixpoint trim_dashes (s : string) : string :=
  match s with String c r => if Ascii.eqb c (chr 45) then trim_dashes r else s | EmptyString => "" end.

Fixpoint parse_connect_loop (args : list string) (gateway : string) (useIPsec : bool) : res client_error (string * bool) :=
  match args with
  | [] => Ok (gateway, useIPsec)
  | a :: args =>
      if String.eqb a "--ipsec" || String.eqb a "-ipsec" then parse_connect_loop args gateway true
      else
        let id := trim_dashes a in
        if String.eqb id "" then Err (CText ("bad gateway " +:+ a))
        else if negb (String.eqb gateway "") then Err (CText ("connect takes one gateway, got " +:+ gateway +:+ " and " +:+ id))
        else parse_connect_loop args id useIPsec
  end.
Definition parseConnect (args : list string) : res client_error (string * bool) := parse_connect_loop args "" false.

Definition egressIDs (gws : list Gateway) : list string := g_ID <$> filter (λ g, Has (g_Roles g) RoleEgress = true) gws.

Definition checkEgress (gws : list Gateway) (id : string) : option client_error :=
  let '(g, ok) := FindGateway gws id in
  if negb ok then Some (CText ("no gateway " +:+ id +:+ "; the gateways are: " +:+ Join ", " (egressIDs gws)))
  else if negb (Has (g_Roles g) RoleEgress)
  then Some (CText ("gateway " +:+ id +:+ " does not lead to the Internet; pick one of: " +:+ Join ", " (egressIDs gws)))
  else if negb (g_Alive g) then Some (CText ("gateway " +:+ id +:+ " is down right now"))
  else None.

Definition chooseAccess (gws : list Gateway) (egress current : string) : string :=
  let '(g, ok) := FindGateway gws egress in
  if ok && Has (g_Roles g) RoleAccess then egress else current.

Definition backendOf (st : Status) : string := if String.eqb (stt_Backend st) "" then BackendWireGuard else stt_Backend st.

(** The rows of [printGateways], cell by cell. *)
Definition gateway_row `{!NetParse} (g : Gateway) : list string :=
  [g_ID g;
   if Has (g_Roles g) RoleEgress then "yes  (egressa connect -" +:+ g_ID g +:+ ")" else "no";
   if g_Alive g then "up" else "DOWN";
   if g_IPsec g then "yes" else "-";
   addr_String (default AddrInvalid (Host g))].
Definition printGateways `{!NetParse} (gws : list Gateway) : list (list string) :=
  ["GATEWAY"; "LEAVE FROM HERE"; "STATUS"; "IPSEC"; "IP"] :: (gateway_row <$> gws).

(** The rows of [printStatus]; [fmt_time] is the local time of day, [fmt_ms] the
    cost with one decimal. *)
Section print.
Context (fmt_time : Time → string) (fmt_ms : float64 → string).
Definition path_row (p : StatusPath) : list string :=
  let cost := if sp_Usable p then fmt_ms (sp_CostMS p) +:+ " ms" else "not measured" in
  let cost := if sp_Reachable p then cost else cost +:+ " (unreachable)" in
  let via := if String.eqb (sp_Access p) (sp_Egress p) then "direct" else "via " +:+ sp_Access p in
  ["   " +:+ (if sp_Active p then "*" else " ") +:+ " " +:+ via; cost].
Definition printStatus (st : Status) : list (list string) :=
  let state := if stt_CurrentDead st then "Connected, but the current path is not answering; switching" else "Connected" in
  let state := if stt_ControllerUp st then state else state +:+ " (controller unreachable: no path changes until it is back)" in
  let leave := if String.eqb (stt_EgressIP st) "" then stt_Egress st else stt_Egress st +:+ "  (gateway " +:+ stt_EgressIP st +:+ ")" in
  let enc := if String.eqb (backendOf st) BackendIPsec then "IPsec to the entry gateway, WireGuard between gateways" else "WireGuard" in
  let paths := filter (λ p, sp_Egress p = stt_Egress st) (stt_Paths st) in
  [[state +:+ " since " +:+ fmt_time (stt_Started st) +:+ "."];
   ["  Leaving from:"; leave]; ["  Entering at:"; stt_Access st]; ["  Encryption:"; enc];
   ["  Virtual IP:"; stt_VirtualIP st]; ["  Path changes:"; FormatUint (u64 (stt_Epoch st - 1))]]
  ++ match paths with [] => [] | _ => ["  Paths to " +:+ stt_Egress st +:+ ":"] :: (path_row <$> paths) end.
End print.

(** ** Root *)

Section command.
Context {W : Type} `{!CmdHost W, !Environ W, !Files W, !Procs W, !KeyHost W, !HttpClient W}.
Context `{!ApiJson, !ConfJson, !Codec StateFile, !Codec Status, !Codec invite, !UrlParse, !NetParse}.

Definition kept (environ : list string) : list string :=
  filter (λ k, HasPrefix k "EGRESSA_" = true) ((λ kv, match Cut (chr 61) kv with Some (k, _) => k | None => kv end) <$> environ).
Definition sudo_argv (environ args : list string) (exe : string) : list string :=
  ["sudo"] ++ match kept environ with [] => [] | keep => ["--preserve-env=" +:+ Join "," keep] end ++ ["--"; exe] ++ drop 1 args.

Definition ensureRoot : cmd W unit := λ w,
  if Geteuid w =? 0 then (Ok tt, w)
  else match LookPath "sudo" w, Executable w with
  | None, _ => (Err (Fail (CText "this needs root; run it with sudo")), w)
  | Some _, None => (Err (Fail (CText "executable")), w)
  | Some sudo, Some exe =>
      match sys_Exec sudo (sudo_argv (os_Environ w) (os_Args w) exe) (os_Environ w) w with
      | (None, w) => (Err Replaced, w)
      | (Some why, w) => (Err (Fail (CText why)), w)
      end
  end.

Definition charonReady : cmd W unit := λ w,
  let path := envOr "EGRESSA_VICI_SOCKET" "/var/run/charon.vici" w in
  if os_Stat path w then (Ok tt, w)
  else (Err (Fail (CText ("--ipsec needs strongSwan's charon running with the vici plugin, and " +:+ path +:+ " is missing."))), w).

(** ** service.go *)

Definition unitName : string := "egressa.service".
Inductive service := systemd (unitPath : string) | process.

Definition pickService (w : W) : service :=
  if negb (String.eqb (Getenv "EGRESSA_SERVICE" w) "process") && bool_decide (is_Some (LookPath "systemctl" w)) && os_Stat "/run/systemd/system" w
  then systemd ("/etc/systemd/system/" +:+ unitName) else process.

Definition lines (l : list string) : string := Join "" ((λ s, s +:+ String (chr 10) "") <$> l).
Definition unitFile (exe : string) : string :=
  lines ["[Unit]"; "Description=egressa VPN client"; "After=network-online.target"; "Wants=network-online.target"; "";
         "[Service]"; "ExecStart=" +:+ exe +:+ " run"; "Restart=on-failure"; "RestartSec=3"; "";
         "[Install]"; "WantedBy=multi-user.target"].

Definition systemctl (args : list string) : cmd W unit := λ w,
  let '(out, x, w) := run_systemctl args w in
  if exit_ok x then (Ok tt, w)
  else (Err (Fail (CText ("systemctl " +:+ Join " " args +:+ ": " +:+ exit_String x +:+ " (" +:+ TrimSpace out +:+ ")"))), w).

Definition service_Start (s : service) (exe : string) : cmd W unit :=
  match s with
  | systemd unitPath =>
      let want := text_bytes (unitFile exe) in
      let! have := ask (f_Read unitPath) in
      let! _ := (if match have with Ok b => bool_decide (b = want) | Err _ => false end then ret tt
                 else let! _ := (λ w, match f_Write unitPath want 420 w with (true, w) => (Ok tt, w) | (false, w) => (Err (Fail (CText unitPath)), w) end) in
                      systemctl ["daemon-reload"]) in
      systemctl ["start"; unitName]
  | process =>
      λ w, match start_process exe (logPath w) w with (true, w) => (Ok tt, w) | (false, w) => (Err (Fail (CText "start")), w) end
  end.

Definition service_Stop (s : service) : cmd W unit :=
  match s with
  | systemd _ => systemctl ["stop"; unitName]
  | process => λ w,
      match ReadStatus (statusPath w) w with
      | Ok st =>
          if negb (Live st (time_Now w) (60 * Second) w) then (Err (Fail (CText "no running egressa client found")), w)
          else match sigterm (stt_PID st) w with (true, w) => (Ok tt, w) | (false, w) => (Err (Fail (CText "kill")), w) end
      | Err _ => (Err (Fail (CText "no running egressa client found")), w)
      end
  end.

Definition Hint (s : service) (w : W) : string :=
  match s with systemd _ => "see: journalctl -u egressa -n 30" | process => "see: " +:+ logPath w end.

(** ** Waiting *)

Definition liveFor : Duration := 3 * Second.
Definition connectWait : Duration := 40 * Second.
Definition pause : Duration := 200 * Millisecond.

Definition running (w : W) : option Status :=
  match ReadStatus (statusPath w) w with
  | Ok st => if Live st (time_Now w) liveFor w then Some st else None
  | Err _ => None
  end.

(** The loops look, and sleep 200 ms before they look again, until a deadline:
    one turn more than there are such pauses before it, and one, are enough. *)
Definition turns (timeout : Duration) : nat := Z.to_nat (timeout / pause + 2).

Fixpoint wait_loop (fuel : nat) (deadline : Time) (ok : Status → bool) (w : W) : option (res stop Status) * W :=
  match fuel with
  | O => (None, w)
  | S fuel =>
      match running w with
      | Some st => if ok st then (Some (Ok st), w)
                   else if time_Now w >? deadline then (Some (Err (Fail (CText "timed out"))), w)
                   else wait_loop fuel deadline ok (time_Sleep pause w)
      | None => if time_Now w >? deadline then (Some (Err (Fail (CText "timed out"))), w)
                else wait_loop fuel deadline ok (time_Sleep pause w)
      end
  end.
Definition waitStatus (timeout : Duration) (ok : Status → bool) (w : W) : option (res stop Status) * W :=
  wait_loop (turns timeout) (time_Now w + timeout) ok w.

Fixpoint stop_loop (fuel : nat) (deadline : Time) (w : W) : option (res stop unit) * W :=
  match fuel with
  | O => (None, w)
  | S fuel =>
      if time_Now w <? deadline
      then match running w with None => (Some (Ok tt), w) | Some _ => stop_loop fuel deadline (time_Sleep pause w) end
      else (Some (Err (Fail (CText "the client is still running"))), w)
  end.
(** A loop that never gets there stops with [CContext]; the theorems exclude it. *)
Definition or_stuck {A} (r : option (res stop A) * W) : res stop A * W :=
  match r with (Some x, w) => (x, w) | (None, w) => (Err (Fail CContext), w) end.
Definition stopAndWait : cmd W unit :=
  let! svc := ask pickService in
  let! _ := service_Stop svc in
  λ w, or_stuck (stop_loop (turns (20 * Second)) (time_Now w + 20 * Second) w).

(** ** Moving a running session *)

Fixpoint switch_loop (attempts : nat) (ctl : Client) (st : StateFile) (gws : list Gateway) (egress : string) : cmd W unit :=
  match attempts with
  | O => fails (CText "the session kept moving; try again")
  | S n =>
      let! cs := try_api "" (api_ClientState ctl (sf_SessionID st) (sf_Secret st) 0 0) in
      if String.eqb (s_Egress (cl_Session cs)) egress then ret tt
      else λ w,
        match api_Migrate ctl (sf_SessionID st) (sf_Secret st)
                (mkMigrate (s_Epoch (cl_Session cs)) (chooseAccess gws egress (s_Access (cl_Session cs))) egress) w with
        | (Ok _, w) => (Ok tt, w)
        | (Err (ConflictError _), w) => switch_loop n ctl st gws egress w
        | (Err e, w) => (Err (Fail (CApi "" e)), w)
        end
  end.
Definition switchEgress (ctl : Client) (gws : list Gateway) (egress : string) : cmd W unit :=
  let! sk := (λ w, match LoadState (statePath w) w with (Ok x, w) => (Ok x, w) | (Err e, w) => (Err (Fail e), w) end) in
  if String.eqb (sf_SessionID sk.1) "" then fails (CText "the client has no session yet") else switch_loop 3 ctl sk.1 gws egress.

(** ** The commands *)

Definition readConf_cmd : cmd W conf := λ w,
  match readConf (confPath w) w with (c, None) => (Ok c, w) | (_, Some e) => (Err (Fail e), w) end.
Definition writeConf_cmd (c : conf) : cmd W unit := λ w, must (writeConf (confPath w) c) w.
Definition controllerClient (c : conf) : cmd W Client := λ w,
  match NewClient (cf_Controller c) (cf_Token c) with Ok ctl => (Ok ctl, w) | Err e => (Err (Fail (CApi "" e)), w) end.

Definition set_controller (controller token : string) (c : conf) : conf :=
  mkConf controller token (cf_Egress c) (cf_Backend c) (cf_MetricsListen c) (cf_LogFormat c) (cf_Bypass c).
Definition set_egress (egress : string) (c : conf) : conf :=
  mkConf (cf_Controller c) (cf_Token c) egress (cf_Backend c) (cf_MetricsListen c) (cf_LogFormat c) (cf_Bypass c).
Definition set_backend (backend : string) (c : conf) : conf :=
  mkConf (cf_Controller c) (cf_Token c) (cf_Egress c) backend (cf_MetricsListen c) (cf_LogFormat c) (cf_Bypass c).

Definition cmdJoin (args : list string) : cmd W (list (list string)) :=
  match args with
  | [arg] =>
      let! _ := ensureRoot in
      let! inv := (λ w, match decodeInvite arg with Ok i => (Ok i, w) | Err e => (Err (Fail e), w) end) in
      let! ctl := controllerClient (mkConf (inv_Controller inv) (inv_Token inv) "" "" "" "" []) in
      let! gws := (λ w, match api_Gateways ctl w with
                        | (Err (StatusError 401 _), w) =>
                            (Err (Fail (CText "the controller rejected this invite's token; ask your admin for a new invite")), w)
                        | (Err e, w) => (Err (Fail (CApi ("cannot reach the controller at " +:+ inv_Controller inv) e)), w)
                        | (Ok gws, w) => (Ok gws, w)
                        end) in
      let! c := ask (λ w, (readConf (confPath w) w).1) in
      let! _ := writeConf_cmd (set_controller (inv_Controller inv) (inv_Token inv) c) in
      ret (printGateways gws ++ match egressIDs gws with [] => [] | eg :: _ => [["Connect with:  egressa connect -" +:+ eg]] end)
  | _ => fails (CText "usage: sudo egressa join <invite>")
  end.

Definition cmdList : cmd W (list (list string)) :=
  let! _ := ensureRoot in
  let! c := readConf_cmd in
  let! ctl := controllerClient c in
  let! gws := try_api "" (api_Gateways ctl) in
  ret (printGateways gws).

(** [cliutil.Secret], and [cmdInvite] with its two flags. *)
Definition Secret (file env : string) (w : W) : res client_error string :=
  if negb (String.eqb file "") then
    match f_Read file w with Ok b => Ok (TrimSpace (bytes_text b)) | Err _ => Err (CText ("read " +:+ file)) end
  else Ok (Getenv env w).
Definition cmdInvite (controller tokenFile : string) : cmd W string := λ w,
  if String.eqb controller "" then (Err (Fail (CText "usage: egressa invite --controller https://ctl.example.com [--token-file F]")), w)
  else
    let file := if String.eqb tokenFile "" && String.eqb (Getenv "EGRESSA_CLIENT_TOKEN" w) "" then "/etc/egressa/client.token" else tokenFile in
    match Secret file "EGRESSA_CLIENT_TOKEN" w with
    | Err e => (Err (Fail e), w)
    | Ok token => match encodeInvite controller token with Ok inv => (Ok inv, w) | Err e => (Err (Fail e), w) end
    end.

(** Up to the configuration that is written: arguments, gateways and checks. *)
Definition connect_plan (args : list string) : cmd W (string * string * conf * Client * list Gateway) :=
  let! wi := (λ w, match parseConnect args with Ok x => (Ok x, w) | Err e => (Err (Fail e), w) end) in
  let '(want, useIPsec) := wi in
  let backend := if (useIPsec : bool) then BackendIPsec else BackendWireGuard in
  let! _ := (if useIPsec then charonReady else ret tt) in
  let! _ := ensureRoot in
  let! c := readConf_cmd in
  let! ctl := controllerClient c in
  let! gws := try_api "cannot reach the controller" (api_Gateways ctl) in
  let! c := (if String.eqb want "" then ret c
             else match checkEgress gws want with Some e => fails e | None => ret (set_egress want c) end) in
  if String.eqb backend BackendIPsec && negb (existsb (λ g, g_IPsec g && g_Alive g) gws)
  then fails (CText "no gateway accepts IPsec clients right now; connect without --ipsec")
  else ret (want, backend, set_backend backend c, ctl, gws).

(** The client that runs afterwards: the one that does, or a new one. *)
Definition connect_client (backend : string) : cmd W Status :=
  let! st := ask running in
  let! up := match st with
             | Some st => if String.eqb (backendOf st) backend then ret (Some st) else let! _ := stopAndWait in ret None
             | None => ret None
             end in
  match up with
  | Some st => ret st
  | None =>
      let! exe := (λ w, match Executable w with Some exe => (Ok exe, w) | None => (Err (Fail (CText "executable")), w) end) in
      let! svc := ask pickService in
      let! _ := service_Start svc exe in
      λ w, match or_stuck (waitStatus connectWait (λ s, negb (String.eqb (stt_SessionID s) "")) w) with
           | (Ok st, w) => (Ok st, w)
           | (Err _, w) => (Err (Fail (CText ("the client did not come up within 40s; " +:+ Hint svc w))), w)
           end
  end.

Definition cmdConnect (args : list string) : cmd W Status :=
  let! p := connect_plan args in
  let '(want, backend, c, ctl, gws) := p in
  let! _ := writeConf_cmd c in
  let! st := connect_client backend in
  if negb (String.eqb want "") && negb (String.eqb (stt_Egress st) want) then
    let! _ := switchEgress ctl gws want in
    λ w, match or_stuck (waitStatus (20 * Second) (λ s, String.eqb (stt_Egress s) want) w) with
         | (Ok st, w) => (Ok st, w)
         | (Err _, w) =>
             (Err (Fail (CText "the controller moved the session, but the client has not followed yet; run: egressa status")), w)
         end
  else ret st.

Definition cmdDisconnect : cmd W string :=
  let! _ := ensureRoot in
  let! st := ask running in
  match st with
  | None => ret "Not connected."
  | Some _ => let! _ := stopAndWait in ret "Disconnected."
  end.

Definition cmdStatus : cmd W (option Status) := ask running.
End command.

(** ** The waiting loops end *)

Section waits.
Context {W : Type} `{!CmdHost W, !Environ W, !Files W, !Procs W, !Codec Status}.
(** Time passes while the process sleeps. *)
Context (sleep_passes : ∀ d (w : W), time_Now w + d ≤ time_Now (time_Sleep d w)).

Lemma wait_loop_ends fuel deadline ok (w : W) :
  deadline < time_Now w + Z.of_nat fuel * pause → ∃ r, (wait_loop (S fuel) deadline ok w).1 = Some r.
Proof.
  revert w. induction fuel as [|fuel IH]; intros w Hd; cbn [wait_loop].
  - assert ((time_Now w >? deadline) = true) as -> by (rewrite Z.gtb_ltb; apply Z.ltb_lt; lia).
    destruct (running w) as [st|]; [destruct (ok st)|]; eauto.
  - assert (∃ r, (wait_loop (S fuel) deadline ok (time_Sleep pause w)).1 = Some r) as Hn.
    { apply IH. pose proof (sleep_passes pause w). lia. }
    destruct (running w) as [st|]; [destruct (ok st); [eauto|]|]; (destruct (time_Now w >? deadline); [eauto|exact Hn]).
Qed.

Lemma stop_loop_ends fuel deadline (w : W) :
  deadline < time_Now w + Z.of_nat fuel * pause → ∃ r, (stop_loop (S fuel) deadline w).1 = Some r.
Proof.
  revert w. induction fuel as [|fuel IH]; intros w Hd; cbn [stop_loop].
  - assert ((time_Now w <? deadline) = false) as -> by (apply Z.ltb_ge; lia). eauto.
  - destruct (time_Now w <? deadline); [|eauto]. destruct (running w); [|eauto].
    apply IH. pose proof (sleep_passes pause w). lia.
Qed.

Lemma turns_enough timeout now : 0 ≤ timeout → ∃ n, turns timeout = S n ∧ now + timeout < now + Z.of_nat n * pause.
Proof.
  intros Ht. exists (Z.to_nat (timeout / pause + 1)). unfold turns.
  assert (0 ≤ timeout / pause) by (apply Z.div_pos; done). split; [lia|].
  pose proof (Z.mul_succ_div_gt timeout pause ltac:(done)). unfold pause, Millisecond, Microsecond in *. lia.
Qed.

(** The loops' bound on their turns is never reached. *)
Lemma waitStatus_ends timeout ok (w : W) : 0 ≤ timeout → ∃ r, (waitStatus timeout ok w).1 = Some r.
Proof.
  intros Ht. unfold waitStatus. destruct (turns_enough timeout (time_Now w) Ht) as (n & -> & Hn). by apply wait_loop_ends.
Qed.
Lemma stop_loop_bounded timeout (w : W) : 0 ≤ timeout → ∃ r, (stop_loop (turns timeout) (time_Now w + timeout) w).1 = Some r.
Proof. intros Ht. destruct (turns_enough timeout (time_Now w) Ht) as (n & -> & Hn). by apply stop_loop_ends. Qed.
End waits.

(** ** What connect ends with *)

Lemma cbind_Ok {W A B} (m : cmd W A) (k : A → cmd W B) w b w' :
  cbind m k w = (Ok b, w') → ∃ a w1, m w = (Ok a, w1) ∧ k a w1 = (Ok b, w').
Proof. unfold cbind. destruct (m w) as [[a|] w1]; [|done]. eauto. Qed.

Section connect.
Context {W : Type} `{!CmdHost W, !Environ W, !Files W, !Procs W, !KeyHost W, !HttpClient W}.
Context `{!ApiJson, !ConfJson, !Codec StateFile, !Codec Status, !UrlParse}.

Lemma wait_loop_running fuel deadline ok (w : W) st w' :
  wait_loop fuel deadline ok w = (Some (Ok st), w') → running w' = Some st ∧ ok st = true.
Proof.
  revert w. induction fuel as [|fuel IH]; intros w; cbn [wait_loop]; [done|].
  destruct (running w) as [s|] eqn:E; [destruct (ok s) eqn:Ho|].
  - by intros [= <- <-].
  - destruct (_ >? _); [done|apply IH].
  - destruct (_ >? _); [done|apply IH].
Qed.

Lemma waited_running timeout ok (w : W) st w' : or_stuck (waitStatus timeout ok w) = (Ok st, w') → running w' = Some st ∧ ok st = true.
Proof.
  unfold waitStatus. destruct (wait_loop _ _ ok w) as [[[s|e]|] w1] eqn:E; cbn; [|done..]. intros [= <- <-]. by eapply wait_loop_running.
Qed.

Lemma connect_client_running backend (w : W) st w' :
  connect_client backend w = (Ok st, w') → running w' = Some st ∧ (backendOf st = backend ∨ stt_SessionID st ≠ "").
Proof.
  intros (up & w1 & E & Hk)%cbind_Ok. injection E as <- <-. apply cbind_Ok in Hk as (up & w1 & E & Hk).
  assert (up = None ∨ ∃ s, up = Some s ∧ w1 = w ∧ running w = Some s ∧ backendOf s = backend) as Hup.
  { destruct (running w) as [s|] eqn:R; [|injection E as <- <-; by left]. destruct (String.eqb_spec (backendOf s) backend) as [Hb|].
    - injection E as <- <-. right. eauto.
    - apply cbind_Ok in E as (? & w2 & _ & E). injection E as <- <-. by left. }
  destruct Hup as [->|(s & -> & -> & R & Hb)].
  - apply cbind_Ok in Hk as (exe & w2 & _ & Hk). apply cbind_Ok in Hk as (svc & w3 & _ & Hk). apply cbind_Ok in Hk as (? & w4 & _ & Hk).
    destruct (or_stuck _) as [[s|] w5] eqn:Ew; [|done]. injection Hk as -> ->. apply waited_running in Ew as [? Hok].
    split; [done|]. right. by apply negb_true_iff, String.eqb_neq in Hok.
  - injection Hk as <- <-. split; [done|by left].
Qed.

(** What the checks let through. *)
Lemma checkEgress_None gws id : checkEgress gws id = None ↔
  ∃ g, FindGateway gws id = (g, true) ∧ Has (g_Roles g) RoleEgress = true ∧ g_Alive g = true.
Proof.
  unfold checkEgress. destruct (FindGateway gws id) as [g []]; cbn [negb]; [|split; [done|by intros (? & ? & _)]].
  destruct (Has (g_Roles g) RoleEgress) eqn:Hr; cbn [negb]; [|split; [done|intros (? & [= <-] & ? & _); congruence]].
  destruct (g_Alive g) eqn:Ha; cbn [negb]; [|split; [done|intros (? & [= <-] & _ & ?); congruence]]. split; [|done]. intros _. by exists g.
Qed.

Lemma connect_plan_ok args (w : W) want backend c ctl gws w' :
  connect_plan args w = (Ok (want, backend, c, ctl, gws), w') →
  ∃ useIPsec, parseConnect args = Ok (want, useIPsec) ∧ backend = (if useIPsec : bool then BackendIPsec else BackendWireGuard) ∧
    (∃ w1 w2, api_Gateways ctl w1 = (Ok gws, w2)) ∧
    cf_Backend c = backend ∧ (want ≠ "" → cf_Egress c = want ∧ checkEgress gws want = None) ∧
    (useIPsec = true → ∃ g, g ∈ gws ∧ g_IPsec g = true ∧ g_Alive g = true).
Proof.
  unfold connect_plan. intros ([want' ipsec] & w1 & E & Hk)%cbind_Ok. destruct (parseConnect args) as [x|] eqn:Hp; [|done]. injection E as -> <-.
  exists ipsec. apply cbind_Ok in Hk as (? & w2 & _ & Hk). apply cbind_Ok in Hk as (? & w3 & _ & Hk). apply cbind_Ok in Hk as (c0 & w4 & _ & Hk).
  apply cbind_Ok in Hk as (ctl' & w5 & _ & Hk). apply cbind_Ok in Hk as (gws' & w6 & Eg & Hk). apply cbind_Ok in Hk as (c1 & w7 & Ec & Hk).
  destruct (_ && negb _) eqn:Hipsec; [done|]. unfold ret in Hk. injection Hk as -> <- <- <- <- _.
  split_and!; [done..| |done| |].
  - exists w5, w6. unfold try_api in Eg. destruct (api_Gateways ctl' w5) as [[?|] ?]; [|done]. by injection Eg as -> ->.
  - intros Hw. apply String.eqb_neq in Hw. rewrite Hw in Ec. destruct (checkEgress gws' want) eqn:Hc; [done|]. by injection Ec as <- _.
  - intros ->. cbn in Hipsec. apply negb_false_iff, existsb_exists in Hipsec as (g & Hg & [? ?]%andb_true_iff).
    exists g. split; [by apply list_elem_of_In|done].
Qed.

(** Connect does what it was asked. When it succeeds, the status it shows
    is that of a client that is running at that moment and leaves the VPN from
    the gateway that was asked for, if one was; and that gateway was listed by
    the controller as alive and leading to the Internet, and some live gateway
    accepts IPsec if IPsec was asked for. *)
Theorem connect_leaves_from args (w : W) st w' :
  cmdConnect args w = (Ok st, w') →
  ∃ want useIPsec gws ctl w1 w2, parseConnect args = Ok (want, useIPsec) ∧ running w' = Some st ∧
    api_Gateways ctl w1 = (Ok gws, w2) ∧
    (want ≠ "" → stt_Egress st = want ∧ ∃ g, g ∈ gws ∧ g_ID g = want ∧ Has (g_Roles g) RoleEgress = true ∧ g_Alive g = true) ∧
    (useIPsec = true → ∃ g, g ∈ gws ∧ g_IPsec g = true ∧ g_Alive g = true).
Proof.
  intros ([[[[want backend] c] ctl] gws] & w1 & Hplan & Hk)%cbind_Ok.
  destruct (connect_plan_ok args w want backend c ctl gws w1 Hplan) as (ipsec & Hp & _ & (wa & wb & Hgws) & _ & Hwant & Hips).
  exists want, ipsec, gws, ctl, wa, wb. split; [done|]. apply cbind_Ok in Hk as (? & w2 & _ & Hk). apply cbind_Ok in Hk as (s & w3 & Hc & Hk).
  apply connect_client_running in Hc as [Hrun _].
  assert (running w' = Some st ∧ (want ≠ "" → stt_Egress st = want)) as [? Heg].
  { destruct (negb (String.eqb want "") && negb (String.eqb (stt_Egress s) want)) eqn:Hb.
    - apply cbind_Ok in Hk as (? & w4 & _ & Hk). destruct (or_stuck _) as [[s'|] w5] eqn:Ew; [|done]. injection Hk as -> ->.
      apply waited_running in Ew as [? Hok%String.eqb_eq]. by split.
    - injection Hk as -> ->. split; [done|]. intros Hw%String.eqb_neq. rewrite Hw in Hb. cbn in Hb.
      by apply negb_false_iff, String.eqb_eq in Hb. }
  split_and!; try done. intros Hw. split; [by apply Heg|]. destruct (Hwant Hw) as [_ (g & Hg & ? & ?)%checkEgress_None].
  apply FindGateway_true in Hg as [? ?]. by exists g.
Qed.
End connect.

(** ** The same command under sudo *)

Section sudo.
Context {W : Type} `{!CmdHost W}.

(** A key with a comma or an equals sign would end early in sudo's list. *)
Lemma sudo_argv_same environ args exe :
  ∃ opts, sudo_argv environ args exe = ["sudo"] ++ opts ++ ["--"; exe] ++ drop 1 args ∧ "--" ∉ opts.
Proof.
  unfold sudo_argv. destruct (kept environ) as [|k ks].
  - exists []. split; [done|]. set_solver.
  - exists ["--preserve-env=" +:+ Join "," (k :: ks)]. split; [done|]. rewrite list_elem_of_singleton. done.
Qed.
End sudo.

(** ** Moving a session, down to the controller's store *)

Section switch.
Context `{!NetParse, !Codec Gateway, !Codec clientRecord, !Codec OwnershipRecord, !Codec Policy.PolicyDocument, !ApiJson, !ApiJsonLaws}.
Context `{!CodecLaws Gateway, !CodecLaws clientRecord, !CodecLaws OwnershipRecord}.
Context {St : Type} `{!KVStore St, !KVLaws St, !Fencer St, !FencedView St}.
Context (hashSecret : string → string) (hmacPSK : bytes → string → string) (cfg : SConfig).
Context (owners_encode : ∀ r : OwnershipRecord, codec_ok r).
Context (texts : response → string) (mux_text : Z → bytes) (fuel : nat) (waited : Z → Duration → Server St → Server St)
        (now : Time) (rnd : list bytes * option string) (base token : string).
Context {F : Type} `{!Files F, !KeyHost F, !Codec StateFile, !Environ (F * Server St)}.
(** A poll for a version the server is past does not wait. *)
Context (waited_past : ∀ after wait s, after < version s → waited after wait s = s) (Hfuel : (3 ≤ fuel)%nat).

#[local] Existing Instance files_pair.
#[local] Existing Instance keys_pair.
#[local] Existing Instance reach.

#[local] Abbreviation at_server k s := (served (Some _) hashSecret hmacPSK cfg fuel waited now rnd token k s).
#[local] Abbreviation world := (reach hashSecret hmacPSK cfg texts mux_text fuel waited now rnd base (F := F)).

Lemma sessionAuth_own c secret s :
  kvl_inv (sv_store s) → cl_at (kvl_data (sv_store s)) c → c_SecretHash c = hashSecret secret →
  sessionAuth hashSecret (c_ID c) secret s = Ok c.
Proof.
  intros Hinv (v & Hv & Hu) Hs. unfold sessionAuth, clientByID. rewrite law_Get, Hv by done. cbn. rewrite Hu. cbn.
  by rewrite bool_decide_eq_true_2.
Qed.

Lemma as_body_inv {A} (g : A → body) r b (s : Server St) :
  as_body g r = (b, s) → r.2 = s ∧ match b with Ok y => ∃ x, r.1 = Ok x ∧ y = g x | Err e => r.1 = Err e end.
Proof. destruct r as [[x|e] s1]; unfold as_body; cbn; intros [= <- <-]; eauto. Qed.

Lemma state_answer c cur secret f s :
  store_ok cfg (sv_store s) → 0 < version s → seg_ok (c_ID c) → cl_at (kvl_data (sv_store s)) c → c_SecretHash c = hashSecret secret →
  owner_at (kvl_data (sv_store s)) (c_ID c) = Some cur → is_Some (match Policy.policy_Get (sv_store s) with Ok p => Some p | Err _ => None end) →
  (∀ r, (at_server (CClientState (c_ID c) secret 0 0) s).2 = Some r → resp_ok texts r) →
  ∃ cs, @api_ClientState _ _ world (mkApiClient base token) (c_ID c) secret 0 0 (f, s) = (Ok cs, (f, s)) ∧ cl_Session cs = api_session hmacPSK cfg c cur.
Proof.
  intros Hok Hv Hid Hc Hs Hcur Hpol Hresp. pose proof Hok as [Hinv Hd].
  assert (∃ cs, at_server (CClientState (c_ID c) secret 0 0) s = (s, Some (mkResp StatusOK (ClientStateBody cs))) ∧
                cl_Session cs = api_session hmacPSK cfg c cur) as (cs & Hserved & Hcs).
  { cbn [served]. rewrite (sessionAuth_own c secret s Hinv Hc Hs), waited_past by done. unfold clientState, snapshot.
    destruct (gateways_ok _ _ Hinv Hd) as (gws & -> & _). rewrite session_data, Hcur by (done || apply Hd).
    destruct (Policy.policy_Get (sv_store s)) as [pol|]; [|by destruct Hpol]. eexists. split; [done|]. done. }
  exists cs. split; [|done].
  pose proof (client_call_served (Some _) hashSecret hmacPSK cfg texts mux_text fuel waited now rnd base token (CClientState (c_ID c) secret 0 0) s) as Hcall.
  rewrite Hserved in Hcall, Hresp. specialize (Hcall ltac:(split; [done|by vm_compute])).
  specialize (Hcall ltac:(intros ? ? [= <- <-]; by apply Hresp)).
  change (client_call (Some _) hashSecret hmacPSK cfg texts mux_text fuel waited now rnd base token (CClientState (c_ID c) secret 0 0) s
    = (Ok (ClientStateBody cs), s)) in Hcall. unfold client_call in Hcall. apply as_body_inv in Hcall as [E2 (x & E1 & [= ->])].
  unfold api_ClientState, reach in *. rewrite api_do_pair. by destruct (api_do _ _ _ _ _ _ s) as [? ?]; cbn in *; subst.
Qed.

Lemma migrate_answer c req secret f s r s' :
  store_ok cfg (sv_store s) → seg_ok (c_ID c) → cl_at (kvl_data (sv_store s)) c → c_SecretHash c = hashSecret secret →
  sendable req → migrate (Some _) hmacPSK cfg fuel c (Some req) s = (s', Some r) → resp_ok texts r →
  ∃ a, @api_Migrate _ _ world (mkApiClient base token) (c_ID c) secret req (f, s) = (a, (f, s')) ∧
    match outcome texts r with Ok _ => ∃ x, a = Ok x | Err e => a = Err e end.
Proof.
  intros [Hinv Hd] Hid Hc Hs Hreq Hm Hresp.
  assert (at_server (CMigrate (c_ID c) secret req) s = (s', Some r)) as Hserved.
  { cbn [served]. by rewrite (sessionAuth_own c secret s Hinv Hc Hs). }
  pose proof (client_call_served (Some _) hashSecret hmacPSK cfg texts mux_text fuel waited now rnd base token (CMigrate (c_ID c) secret req) s) as Hcall.
  rewrite Hserved in Hcall. specialize (Hcall ltac:(by split)). specialize (Hcall ltac:(by intros ? ? [= <- <-])).
  unfold client_call in Hcall. apply as_body_inv in Hcall as [E2 E1]. cbn [fst snd] in *.
  unfold api_Migrate, reach in *. rewrite api_do_pair. destruct (api_do _ _ _ _ _ _ s) as [a ?]; cbn in *; subst.
  exists a. split; [done|]. destruct (outcome texts r); [|done]. destruct E1 as (x & ? & _). eauto.
Qed.

Lemma switch_loop_files n ctl st gws egress f s : (@switch_loop _ world _ n ctl st gws egress (f, s)).2.1 = f.
Proof.
  revert s. induction n as [|n IH]; intros s; [done|]. cbn [switch_loop]. unfold cbind, try_api, api_ClientState, reach. rewrite api_do_pair.
  destruct (api_do _ _ _ _ _ _ s) as [[cs|e] s1]; [|done]. destruct (String.eqb _ _); [done|]. unfold api_Migrate. rewrite api_do_pair.
  destruct (api_do _ _ _ _ _ _ s1) as [[x|[]] s2]; done.
Qed.

(** C7: asking for another gateway moves the session there, and only that. With
    the client's state file and the secret in it, switchEgress - through the
    API client, the HTTP handlers and the controller - leaves a session alone
    that already leaves from the gateway; otherwise it enters at that gateway
    too if clients can connect to it, else where it entered before, and if
    that is a path the controller accepts for the session, the session is
    owned by it at the next epoch and no other session's owner changes; if
    not, the command fails with a bad request and nothing changes. *)
Theorem switch_moves_session gws egress f s st kp c cur :
  LoadState (statePath (f, s)) f = (Ok (st, kp), f) →
  store_ok cfg (sv_store s) → 2 ≤ kvl_left (sv_store s) → 0 < version s → seg_ok (c_ID c) →
  cl_at (kvl_data (sv_store s)) c → sf_SessionID st = c_ID c → c_SecretHash c = hashSecret (sf_Secret st) →
  owner_at (kvl_data (sv_store s)) (c_ID c) = Some cur → 0 ≤ Epoch cur < 2 ^ 64 - 1 →
  is_Some (match Policy.policy_Get (sv_store s) with Ok p => Some p | Err _ => None end) →
  let d := kvl_data (sv_store s) in
  let access := chooseAccess gws egress (Access cur) in
  let req := mkMigrate (Epoch cur) access egress in
  egress ≠ "" → access ≠ "" → sendable req →
  (∀ k r, k = CClientState (c_ID c) (sf_Secret st) 0 0 ∨ k = CMigrate (c_ID c) (sf_Secret st) req → (at_server k s).2 = Some r → resp_ok texts r) →
  let '(r, (f', s')) := @switchEgress _ _ files_pair keys_pair world _ _ (mkApiClient base token) gws egress (f, s) in
  f' = f ∧
  (Egress cur = egress → r = Ok tt ∧ s' = s) ∧
  (Egress cur ≠ egress → may_access d c access → may_egress d egress →
     r = Ok tt ∧ owner_at (kvl_data (sv_store s')) (c_ID c) = Some (mkOwn (c_ID c) access egress (Epoch cur + 1)) ∧
     ∀ id, id ≠ c_ID c → owner_at (kvl_data (sv_store s')) id = owner_at d id) ∧
  (Egress cur ≠ egress → ¬ may_access d c access ∨ ¬ may_egress d egress →
     r = Err (Fail (CApi "" (StatusError StatusBadRequest (texts (failed StatusBadRequest))))) ∧ s' = s).
Proof.
  intros Hload Hok Hleft Hv Hid Hc Hses Hsec Hcur Hep Hpol d access req Hne Hna Hsend Hresp.
  destruct (state_answer c cur (sf_Secret st) f s Hok Hv Hid Hc Hsec Hcur Hpol) as (cs & Hcs & Hsess); [intros r; apply Hresp; by left|].
  destruct (api_session_path hmacPSK cfg c cur) as (_ & _ & _ & Eacc & Eeg & Eep).
  unfold switchEgress, cbind. rewrite LoadState_pair, Hload. cbn [lift fst snd]. rewrite Hses.
  destruct Hid as (Hid0 & Hid1 & Hid2). pose proof Hid0 as Hid0'. apply String.eqb_neq in Hid0'. rewrite Hid0'.
  pose proof (switch_loop_files 3 (mkApiClient base token) st gws egress f s) as Hfiles.
  destruct (switch_loop 3 _ _ _ _ (f, s)) as [r [f' s']] eqn:Eloop. cbn [fst snd] in Hfiles. split; [done|]. subst f'.
  cbn [switch_loop] in Eloop. unfold cbind, try_api in Eloop. rewrite Hses, Hcs, Hsess, Eeg, Eacc, Eep in Eloop. fold access req in Eloop.
  destruct (String.eqb_spec (Egress cur) egress) as [He|He]; [injection Eloop as <- <-; by split_and!|]. split_and!; [done|..].
  all: pose proof (migrate_cases hmacPSK cfg owners_encode fuel c req s cur Hok Hleft Hfuel Hcur Hep Hna Hne) as Hm;
    destruct (migrate _ _ _ _ _ _ _) as [s1 mr] eqn:Em; fold d in Hm; destruct Hm as (Hbad & _ & Hgood);
    assert (∀ r, mr = Some r → resp_ok texts r) as Hmr
      by (intros r' ->; apply (Hresp (CMigrate (c_ID c) (sf_Secret st) req)); [by right|]; cbn [served];
          by rewrite (sessionAuth_own c (sf_Secret st) s (proj1 Hok) Hc Hsec), Em).
  - intros _ Hma Hme. destruct (Hgood Hma Hme eq_refl) as (Hown & Hother & _ & ->).
    destruct (migrate_answer c req (sf_Secret st) f s _ s1 Hok ltac:(done) Hc Hsec Hsend Em (Hmr _ eq_refl)) as (a & Ha & x & ->).
    rewrite Ha in Eloop. injection Eloop as <- <-. by split_and!.
  - intros _ Hno. destruct (Hbad Hno) as [-> ->].
    destruct (migrate_answer c req (sf_Secret st) f s _ s Hok ltac:(done) Hc Hsec Hsend Em (Hmr _ eq_refl)) as (a & Ha & ->).
    rewrite Ha in Eloop. by injection Eloop as <- <-.
Qed.
End switch.

(** ** A host to run the commands on *)
Module CommandDemo.
Import ControllerSpec.Demo HttpDemo FilesDemo.

Definition gw (id : string) : Gateway := mkGateway id 3 "" "" AddrInvalid ∅ true true.
Definition status_at (egress : string) : Status :=
  mkStatus 42 0 0 "7" "10.1.0.2" "hk" egress "" "wireguard" 1 false true [].
Definition conf1 : conf := mkConf "https://ctl" "tok" "hk" "" "" "" [].
Definition cstate : ClientState :=
  mkCState 5 (cfg_Network demo_cfg) (api_session psk demo_cfg client1 owner1) [] [] Policy.DefaultPolicyDocument.
Definition sg_move : MigrateRequest := mkMigrate 1 "sg" "sg".
Definition sg_moved : ApiSession := api_session psk demo_cfg client1 (mkOwn "7" "sg" "sg" 2).

(** A host without systemd and a controller it reaches: the client comes up
    when it is started, entering and leaving at "hk", and follows the session
    to "sg" when it has been moved there. *)
Record host := mkHost { h_clock : Z; h_up : bool; h_moved : bool }.
#[export] Instance host_files : Files host := {|
  f_Read path w :=
    if String.eqb path "/etc/egressa/client.conf" then Ok [1]
    else if String.eqb path "/var/lib/egressa/client.json" then Ok (default [] (marshal saved))
    else if String.eqb path "/run/egressa/status.json" && h_up w then Ok [if h_moved w then 2 else 1] else Err NotExist;
  f_MkdirAll _ _ w := (true, w); f_Write _ _ _ w := (true, w); f_Rename _ _ w := (true, w);
|}.
#[export] Instance host_env : Environ host := {| Getenv _ _ := "" |}.
#[export] Instance host_procs : Procs host := {| kill0 _ _ := KillOK |}.
#[export] Instance host_keys : KeyHost host := {|
  ecdh_Generate w := (None, w); ecdh_Public _ := Some zero_key; ReadKey _ _ := Err NotExist; WriteKey _ _ w := (false, w) |}.
#[export] Instance host_cmd : CmdHost host := {|
  Geteuid _ := 0; LookPath _ _ := None; Executable _ := Some "/usr/bin/egressa"; os_Environ _ := []; os_Args _ := [];
  sys_Exec _ _ _ w := (Some "", w); os_Stat _ _ := false;
  time_Now w := h_clock w; time_Sleep d w := mkHost (h_clock w + d) (h_up w) (h_moved w);
  run_systemctl _ w := ("", ExitCode 0, w); start_process _ _ w := (true, mkHost (h_clock w) true (h_moved w)); sigterm _ w := (true, w);
|}.
#[export] Instance host_http : HttpClient host := {|
  http_Do rq w := (Some (mkHttp 200 [1]), if String.eqb (rq_Method rq) "POST" then mkHost (h_clock w) (h_up w) true else w) |}.
#[export] Instance host_conf : ConfJson := {| conf_marshal _ := Some [1]; conf_unmarshal _ := (conf1, true) |}.
#[export] Instance host_status : Codec Status :=
  {| marshal _ := None; unmarshal b := Some (status_at (if bool_decide (b = [2]) then "sg" else "hk")); codec_ok _ := False |}.
Definition host_json : ApiJson := {|
  json_register := never _; json_links := never _; json_create := never _; json_migrate := only sg_move;
  json_registered := never _; json_created := never _; json_session := only sg_moved; json_gateways := only [gw "hk"; gw "sg"];
  json_gwstate := never _; json_clstate := only cstate;
  marshal_error _ := []; unmarshal_error _ := mkApiError "" None; error_ok _ := False;
|}.

Definition connected : res stop Status * host :=
  @cmdConnect host _ _ _ _ _ _ host_json _ _ _ _ ["-sg"] (mkHost 0 false false).
Lemma connected_ok : connected = (Ok (status_at "sg"), mkHost 0 true true).
Proof. vm_compute. reflexivity. Qed.

Lemma connect_leaves_from_witness :
  running (mkHost 0 true true) = Some (status_at "sg") ∧
  ∃ gws : list Gateway, ∃ g, g ∈ gws ∧ g_ID g = "sg" ∧ Has (g_Roles g) RoleEgress = true ∧ g_Alive g = true.
Proof.
  destruct (@connect_leaves_from host _ _ _ _ _ _ host_json _ _ _ _ ["-sg"] (mkHost 0 false false) (status_at "sg") (mkHost 0 true true) connected_ok)
    as (want & ipsec & gws & ctl & w1 & w2 & Hp & Hrun & _ & Hw & _). injection Hp as <- <-.
  split; [exact Hrun|]. exists gws. apply Hw. discriminate.
Defined.

(** The same move on the controller of ControllerSpec. *)
Definition known : list Gateway := default [] (gateways (sv_store demo)).
Definition demo_state : ClientState := match clientState psk demo_cfg client1 0 demo with mkResp _ (ClientStateBody cs) => cs | _ => cstate end.
Definition switch_json : ApiJson := {|
  json_register := never _; json_links := never _; json_create := never _; json_migrate := only sg_move;
  json_registered := never _; json_created := never _; json_session := only sg_moved; json_gateways := never _;
  json_gwstate := never _;
  json_clstate := only demo_state;
  marshal_error _ := []; unmarshal_error _ := mkApiError "" None; error_ok _ := False;
|}.
Lemma switch_laws : @ApiJsonLaws switch_json.
Proof. split; (apply never_laws || apply only_laws || done). Qed.
#[export] Instance demo_env : Environ (gmap string (list Z) * Server MemStore) := {| Getenv _ _ := "client.json" |}.

Lemma demo_may : may_access (kvl_data (sv_store demo)) client1 "sg" ∧ may_egress (kvl_data (sv_store demo)) "sg".
Proof.
  destruct (demo_gateway "sg" false) as (g & Hg & Hi & Hr & Hs); [by right|].
  split; exists g; (split; [exact Hg|]); (split; [exact Hi|]); [unfold canAccess; rewrite Hr, Hs|rewrite Hr]; reflexivity.
Qed.

Lemma demo_policy : is_Some (match Policy.policy_Get (sv_store demo) with Ok p => Some p | Err _ => None end).
Proof.
  assert (match Policy.policy_Get (sv_store demo) with Ok _ => true | Err _ => false end = true) as Hp by (vm_compute; reflexivity).
  destruct (Policy.policy_Get _); [eauto|discriminate].
Qed.

(** The two answers on the way encode. *)
Lemma demo_answers k r :
  k = CClientState "7" "s3cret" 0 0 ∨ k = CMigrate "7" "s3cret" sg_move →
  (served (Some _) hash psk demo_cfg 3 (λ _ _ s, s) 0 ([], None) "" k demo).2 = Some r →
  @resp_ok switch_json (λ _, "") r.
Proof.
  intros [-> | ->] Hr.
  - assert ((served (Some _) hash psk demo_cfg 3 (λ _ _ s, s) 0 ([], None) "" (CClientState "7" "s3cret" 0 0) demo).2 =
      Some (mkResp StatusOK (ClientStateBody demo_state))) as E by (vm_compute; reflexivity).
    rewrite E in Hr. injection Hr as <-. split; [vm_compute; discriminate|reflexivity].
  - assert ((served (Some _) hash psk demo_cfg 3 (λ _ _ s, s) 0 ([], None) "" (CMigrate "7" "s3cret" sg_move) demo).2 =
      Some (mkResp StatusOK (SessionBody sg_moved))) as E by (vm_compute; reflexivity).
    rewrite E in Hr. injection Hr as <-. split; [vm_compute; discriminate|reflexivity].
Qed.

Lemma switch_moves_session_witness :
  let world := @reach _ _ _ _ _ switch_json _ _ _ hash psk demo_cfg (λ _, "") (λ _, []) 3 (λ _ _ s, s) 0 ([], None) "http://ctl" (gmap string (list Z)) in
  let '(r, (f', s')) := @switchEgress _ _ files_pair keys_pair world switch_json _ (mkApiClient "http://ctl" "") known "sg" (disk, demo) in
  r = Ok tt ∧ owner_at (kvl_data (sv_store s')) "7" = Some (mkOwn "7" "sg" "sg" 2).
Proof.
  intros world.
  pose proof (@switch_moves_session _ _ _ _ _ switch_json switch_laws _ _ _ _ _ _ hash psk demo_cfg owners_enc (λ _, "") (λ _, []) 3%nat (λ _ _ s, s) 0 ([], None)
    "http://ctl" "" _ _ _ _ _ (λ _ _ _ _, eq_refl) ltac:(lia) known "sg" disk demo saved pair0 client1 owner1) as Hsw.
  cbv zeta in Hsw. fold world in Hsw.
  assert (chooseAccess known "sg" (Access owner1) = "sg") as E by (vm_compute; reflexivity). rewrite E in Hsw.
  specialize (Hsw ltac:(vm_compute; reflexivity) demo_ok ltac:(vm_compute; discriminate) ltac:(vm_compute; reflexivity) ltac:(by split_and!) demo_client).
  specialize (Hsw eq_refl ltac:(vm_compute; reflexivity)).
  specialize (Hsw ltac:(vm_compute; reflexivity)).
  specialize (Hsw ltac:(cbn; lia)).
  specialize (Hsw demo_policy ltac:(discriminate) ltac:(discriminate)).
  specialize (Hsw ltac:(split; [reflexivity|intros b [= <-]; vm_compute; discriminate])).
  match type of Hsw with ?P -> _ => assert P as HP end.
  { intros k r Hk Hr. apply (demo_answers k r Hk Hr). }
  specialize (Hsw HP). destruct (switchEgress _ _ _ (disk, demo)) as [r [f' s']].
  destruct Hsw as (_ & _ & Hgo & _). destruct demo_may as [Ha He]. destruct (Hgo ltac:(discriminate) Ha He) as (-> & Hown & _). split; [reflexivity|exact Hown].
Defined.

(** *** An IPsec session is moved to an entry that refuses it

    Only "hk" accepts IPsec clients. An IPsec session that enters at "hk" is
    asked to leave from "sg": chooseAccess makes "sg" its entry, which the
    controller refuses, although keeping its entry is accepted. *)
Definition demo_ipsec : Server MemStore := (serve1 3 demo (ReqCreate "" (Some (mkCreate key1 "" "s3cret" "ipsec")) ([], None))).1.
Definition client_ipsec : clientRecord := mkClient "7" key1 (Addr4 167837698) (hash "s3cret") "ipsec".
Lemma ipsec_move_refused :
  sessionAuth hash "7" "s3cret" demo_ipsec = Ok client_ipsec ∧ chooseAccess known "sg" "hk" = "sg" ∧
  (migrate (Some _) psk demo_cfg 3 client_ipsec (Some (mkMigrate 1 (chooseAccess known "sg" "hk") "sg")) demo_ipsec).2 = Some (failed StatusBadRequest) ∧
  resp_code <$> (migrate (Some _) psk demo_cfg 3 client_ipsec (Some (mkMigrate 1 "hk" "sg")) demo_ipsec).2 = Some StatusOK.
Proof. vm_compute. done. Qed.
End CommandDemo.
