(* ===== verification/Netem.v ===== *)
(** * Network emulation: internal/netem/netem.go and scenario.go

    A device is shaped with tc: a prio qdisc, one extra band per destination
    with a netem of its own, and a filter per destination. A scenario changes
    the shaping over time. Running tc is the class of laws [TcLaws]: what the
    four commands used do to the qdiscs and filters of a device. Numbers and
    durations as text are the class [NumText]. *)

From Stdlib Require Import SpecFloat.
From S2P Require Import Prelude GoStrings GoFloat Netip IpsecConfig IpsecRender ClientAgent HostNet Tracing.

Class NumText := {
  ParseDuration : string → option Duration;
  Duration_String : Duration → string;
  ParseFloat : string → option float64;
  (** strconv.FormatFloat(x, 'f', -1, 64) *)
  FormatFloat : float64 → string;
}.

(** [strings.TrimSuffix] and [strings.TrimRightFunc]. *)
Definition HasSuffix (s suffix : string) : bool :=
  bool_decide (drop (String.length s - String.length suffix) (String.list_ascii_of_string s) = String.list_ascii_of_string suffix).
Definition TrimSuffix (s suffix : string) : string :=
  if HasSuffix s suffix then String.substring 0 (String.length s - String.length suffix) s else s.
Fixpoint drop_while (f : Ascii.ascii → bool) (l : list Ascii.ascii) : list Ascii.ascii :=
  match l with c :: l' => if f c then drop_while f l' else l | [] => [] end.
Definition TrimRightFunc (f : Ascii.ascii → bool) (s : string) : string :=
  String.string_of_list_ascii (rev (drop_while f (rev (String.list_ascii_of_string s)))).

(** ** Shapes *)

Record Shape := mkShape { Delay : Duration; Jitter : Duration; Loss : float64; Rate : string }.
#[export] Instance Shape_eq_dec : EqDecision Shape.
Proof. solve_decision. Defined.
Definition zeroShape : Shape := mkShape 0 0 f0 "".

(** [s == Shape{}]: -0 equals 0, NaN nothing. *)
Definition IsZero (s : Shape) : bool := (Delay s =? 0) && (Jitter s =? 0) && feq (Loss s) f0 && String.eqb (Rate s) "".

Definition is_lower (c : Ascii.ascii) : bool := let n := Ascii.nat_of_ascii c in ((97 <=? n) && (n <=? 122))%nat.
Definition rate_units : list string := ["bit"; "kbit"; "mbit"; "gbit"; "bps"; "kbps"; "mbps"; "gbps"].
Definition priomap : list string := ["1"; "2"; "2"; "2"; "1"; "2"; "0"; "0"; "1"; "1"; "1"; "1"; "1"; "1"; "1"; "1"].
Definition MaxDestinations : nat := 13.
Definition benign : list string :=
  ["No such file or directory"; "Cannot delete qdisc with handle of zero"; "Invalid handle"].

(** A command's combined output and the text of its error. *)
Definition Runner (W : Type) := string → list string → W → string * option string * W.
Record Device (W : Type) := mkDevice { dv_Name : string; dv_Run : Runner W }.
Arguments mkDevice {W}.
Arguments dv_Name {W}.
Arguments dv_Run {W}.

Definition Exec {W} `{Shell W} : Runner W := λ name args w,
  let '(out, x, w) := sh name args w in
  if exit_ok x then (out, None, w)
  else (out, Some (name +:+ " " +:+ Join " " args +:+ ": " +:+ exit_String x +:+ " (" +:+ TrimSpace out +:+ ")"), w).

Section shapes.
Context `{NumText}.

Definition rateRE (r : string) : bool :=
  let num := TrimRightFunc is_lower r in
  let unit_ := String.substring (String.length num) (String.length r - String.length num) r in
  match ParseFloat num with
  | None => false
  | Some _ => negb (String.eqb num "") && bool_decide (unit_ ∈ rate_units)
  end.

Definition shape_Validate (s : Shape) : option error :=
  if (Delay s <? 0) || (Jitter s <? 0) then Some (ErrText "netem: delay and jitter must not be negative")
  else if (0 <? Jitter s) && (Delay s =? 0) then Some (ErrText "netem: jitter needs a delay")
  else if flt (Loss s) f0 || fgt (Loss s) (of_int 100) then Some (ErrText "netem: loss is not a percentage")
  else if negb (String.eqb (Rate s) "") && negb (rateRE (Rate s)) then Some (ErrText "netem: rate must look like 10mbit, 500kbit or 1gbit")
  else None.

Definition ms (d : Duration) : string := FormatFloat (fdiv (of_int d) (of_int Millisecond)) +:+ "ms".

Definition Args (s : Shape) : list string :=
  ["delay"; ms (Delay s)]
  ++ (if 0 <? Jitter s then [ms (Jitter s)] else [])
  ++ (if fgt (Loss s) f0 then ["loss"; FormatFloat (Loss s) +:+ "%"] else [])
  ++ (if String.eqb (Rate s) "" then [] else ["rate"; Rate s]).
Definition shape_String (s : Shape) : string := Join " " (Args s).

Definition as_err {A} (what : string) (o : option A) : res error A :=
  match o with Some a => Ok a | None => Err (ErrWrap "netem" (ErrText what)) end.

(** One setting of the list. *)
Definition parse_setting (kv : string) (s : Shape) : res error Shape :=
  let kv := TrimSpace kv in
  if String.eqb kv "" then Ok s else
  match Cut (Ascii.ascii_of_nat 61) kv with
  | None => Err (ErrText ("netem: " +:+ kv +:+ " is not key=value"))
  | Some (k, v) =>
      if String.eqb k "delay" then try d := as_err k (ParseDuration v) in Ok (mkShape d (Jitter s) (Loss s) (Rate s))
      else if String.eqb k "jitter" then try d := as_err k (ParseDuration v) in Ok (mkShape (Delay s) d (Loss s) (Rate s))
      else if String.eqb k "loss" then try l := as_err k (ParseFloat (TrimSuffix v "%")) in Ok (mkShape (Delay s) (Jitter s) l (Rate s))
      else if String.eqb k "rate" then Ok (mkShape (Delay s) (Jitter s) (Loss s) v)
      else Err (ErrText ("netem: unknown setting " +:+ k))
  end.
Fixpoint parse_settings (l : list string) (s : Shape) : res error Shape :=
  match l with [] => Ok s | kv :: l => try s := parse_setting kv s in parse_settings l s end.

Definition comma : Ascii.ascii := Ascii.ascii_of_nat 44.
Definition ParseShape (spec : string) : res error Shape :=
  try s := parse_settings (Split comma spec) zeroShape in
  match shape_Validate s with Some e => Err e | None => Ok s end.

(** ** Devices *)

Definition addr_val (a : Addr) : Z := match a with AddrInvalid => 0 | Addr4 v | Addr6 v => v end.
(** [netip.Addr.Compare] at most 0: shorter addresses first, then by value. *)
Definition addr_le (a b : Addr) : Prop := BitLen a < BitLen b ∨ BitLen a = BitLen b ∧ addr_val a ≤ addr_val b.
#[export] Instance addr_le_dec : RelDecision addr_le.
Proof. intros a b. unfold addr_le. apply _. Defined.

Fixpoint check_rules (l : list (Addr * Shape)) : res error (list Addr) :=
  match l with
  | [] => Ok []
  | (a, s) :: l =>
      if negb (Is4 a) then Err (ErrText ("netem: " +:+ addr_String a +:+ ": only IPv4 destinations are supported"))
      else match shape_Validate s with
           | Some e => Err (ErrWrap ("netem: " +:+ addr_String a) e)
           | None => try dsts := check_rules l in Ok (a :: dsts)
           end
  end.

Definition band (i : nat) : string := "1:" +:+ Itoa (4 + Z.of_nat i).
Definition netem_cmd (dev : string) (i : nat) (s : Shape) : list string :=
  ["qdisc"; "add"; "dev"; dev; "parent"; band i; "handle"; Itoa (40 + Z.of_nat i) +:+ ":"; "netem"] ++ Args s.
Definition filter_cmd (dev : string) (i : nat) (dst : Addr) : list string :=
  ["filter"; "add"; "dev"; dev; "parent"; "1:"; "protocol"; "ip"; "prio"; "1"; "u32"; "match"; "ip"; "dst";
   pf_String (mkPrefix dst 32); "flowid"; band i].
Definition prio_cmd (dev : string) (n : nat) : list string :=
  ["qdisc"; "add"; "dev"; dev; "root"; "handle"; "1:"; "prio"; "bands"; Itoa (3 + Z.of_nat n); "priomap"] ++ priomap.

(** The loop over the sorted destinations. *)
Fixpoint band_cmds (dev : string) (rules : gmap Addr Shape) (i : nat) (dsts : list Addr) : list (list string) :=
  match dsts with
  | [] => []
  | dst :: dsts => netem_cmd dev i (default zeroShape (rules !! dst)) :: filter_cmd dev i dst :: band_cmds dev rules (S i) dsts
  end.

Definition Commands `{Range} (dev : string) (rules : gmap Addr Shape) : res error (list (list string)) :=
  try dsts := check_rules (range rules) in
  if (length dsts =? 0)%nat then Ok []
  else if (MaxDestinations <? length dsts)%nat then Err (ErrText ("netem: too many destinations on " +:+ dev))
  else
    let dsts := merge_sort addr_le dsts in
    Ok (prio_cmd dev (length dsts) :: band_cmds dev rules 0 dsts).

Section device.
Context {W : Type} `{!Range}.
Implicit Types d : Device W.

Definition clear_cmd (dev : string) : list string := ["qdisc"; "del"; "dev"; dev; "root"].
Definition is_benign (msg : string) : bool := existsb (substr msg) benign.

Definition Clear d (w : W) : option error * W :=
  match dv_Run d "tc" (clear_cmd (dv_Name d)) w with
  | (_, None, w) => (None, w)
  | (out, Some e, w) => if is_benign (out +:+ e) then (None, w) else (Some (ErrText e), w)
  end.

Fixpoint run_cmds d (cmds : list (list string)) (w : W) : option error * W :=
  match cmds with
  | [] => (None, w)
  | c :: cmds =>
      match dv_Run d "tc" c w with
      | (_, Some e, w) => (Some (ErrText e), (Clear d w).2)
      | (_, None, w) => run_cmds d cmds w
      end
  end.

Definition dev_Apply d (rules : gmap Addr Shape) (w : W) : option error * W :=
  match Commands (dv_Name d) rules with
  | Err e => (Some e, w)
  | Ok cmds =>
      match Clear d w with
      | (Some e, w) => (Some e, w)
      | (None, w) => run_cmds d cmds w
      end
  end.

Definition Show d (w : W) : res error string * W :=
  match dv_Run d "tc" ["qdisc"; "show"; "dev"; dv_Name d] w with
  | (_, Some e, w) => (Err (ErrText e), w)
  | (q, None, w) =>
      match dv_Run d "tc" ["filter"; "show"; "dev"; dv_Name d] w with
      | (_, Some e, w) => (Err (ErrText e), w)
      | (f, None, w) => (Ok (q +:+ f), w)
      end
  end.
End device.

(** ** Scenarios *)

Record Step := mkStep {
  st_At : Duration; st_Node : string; st_Peer : string;
  st_Delay : Duration; st_Jitter : Duration; st_Loss : float64; st_Rate : string; st_Clear : bool;
}.
Record Scenario := mkScenario { sc_Name : string; sc_Description : string; sc_Expect : string; sc_Steps : list Step }.

Definition step_Shape (s : Step) : Shape :=
  if st_Clear s then zeroShape else mkShape (st_Delay s) (st_Jitter s) (st_Loss s) (st_Rate s).

Definition step_Validate (st : Step) : option error :=
  if String.eqb (st_Node st) "" || String.eqb (st_Peer st) "" then Some (ErrText "netem: node and peer are required")
  else if String.eqb (st_Node st) (st_Peer st) then Some (ErrText ("netem: " +:+ st_Node st +:+ " shapes itself"))
  else if st_At st <? 0 then Some (ErrText "netem: negative time")
  else if st_Clear st && (negb (st_Delay st =? 0) || negb (st_Jitter st =? 0) || negb (feq (st_Loss st) f0) || negb (String.eqb (st_Rate st) ""))
  then Some (ErrText "netem: clear takes no shape")
  else shape_Validate (step_Shape st).
Fixpoint steps_Validate (l : list Step) : option error :=
  match l with [] => None | st :: l => match step_Validate st with Some e => Some e | None => steps_Validate l end end.
Definition scenario_Validate (s : Scenario) : option error :=
  if String.eqb (sc_Name s) "" then Some (ErrText "netem: a scenario needs a name")
  else match sc_Steps s with
       | [] => Some (ErrText ("netem: scenario " +:+ sc_Name s +:+ " has no steps"))
       | steps => steps_Validate steps
       end.

(** Parse and Load: the JSON decoder with unknown fields refused is an argument. *)
Definition scenario_Parse (decode : string → option Scenario) (data : string) : res error Scenario :=
  match decode data with
  | None => Err (ErrText "netem: scenario")
  | Some s => match scenario_Validate s with Some e => Err e | None => Ok s end
  end.
Definition scenario_Load {W} `{Shell W} (decode : string → option Scenario) (path : string) (w : W) : res error Scenario :=
  match ReadFile path w with
  | None => Err ErrNotExist
  | Some data => res_map_err (ErrWrap path) (scenario_Parse decode data)
  end.

Definition add_node (out : list string) (st : Step) : list string := if bool_decide (st_Node st ∈ out) then out else out ++ [st_Node st].
Definition Nodes (s : Scenario) : list string := merge_sort (λ a b, str_leb a b = true) (fold_left add_node (sc_Steps s) []).
Definition scenario_Duration (s : Scenario) : Duration := fold_left (λ d st, Z.max d (st_At st)) (sc_Steps s) 0.

Fixpoint parse_hosts (ParseAddr : string → option Addr) (l : list string) (hosts : gmap string Addr) : res error (gmap string Addr) :=
  match l with
  | [] => Ok hosts
  | kv :: l =>
      let kv := TrimSpace kv in
      if String.eqb kv "" then parse_hosts ParseAddr l hosts else
      match Cut (Ascii.ascii_of_nat 61) kv with
      | None => Err (ErrText ("netem: host " +:+ kv +:+ " is not name=address"))
      | Some (k, v) =>
          if String.eqb k "" then Err (ErrText ("netem: host " +:+ kv +:+ " is not name=address"))
          else match ParseAddr v with
               | None => Err (ErrText ("netem: host " +:+ k))
               | Some a => parse_hosts ParseAddr l (<[k := a]> hosts)
               end
      end
  end.
Definition ParseHosts (ParseAddr : string → option Addr) (spec : string) : res error (gmap string Addr) :=
  parse_hosts ParseAddr (Split comma spec) ∅.

(** *** Run *)

(** slices.SortStableFunc; [cmp] at most 0 puts the earlier element first. *)
Fixpoint insert_func {A} (cmp : A → A → Z) (x : A) (l : list A) : list A :=
  match l with [] => [x] | y :: l' => if cmp x y <=? 0 then x :: l else y :: insert_func cmp x l' end.
Definition SortStableFunc {A} (cmp : A → A → Z) (l : list A) : list A := foldr (insert_func cmp) [] l.
(** int is 64 bits wide; the subtraction wraps. *)
Definition cmp_At (a b : Step) : Z := i64 (st_At a - st_At b).

Fixpoint mine_loop (s : Scenario) (node : string) (hosts : gmap string Addr) (l : list Step) : res error (list Step) :=
  match l with
  | [] => Ok []
  | st :: l =>
      if negb (String.eqb (st_Node st) node) then mine_loop s node hosts l
      else match hosts !! st_Peer st with
           | None => Err (ErrText ("netem: scenario " +:+ sc_Name s +:+ ": no address for " +:+ st_Peer st))
           | Some _ => try rest := mine_loop s node hosts l in Ok (st :: rest)
           end
  end.

(** mine cut into the runs of steps of one time, mine[i:j]. *)
Fixpoint groups (l : list Step) : list (Duration * list Step) :=
  match l with
  | [] => []
  | st :: l =>
      match groups l with
      | (at_, g) :: gs => if st_At st =? at_ then (at_, st :: g) :: gs else (st_At st, [st]) :: (at_, g) :: gs
      | [] => [(st_At st, [st])]
      end
  end.

Definition describe (st : Step) : string := let sh := step_Shape st in if IsZero sh then "clear" else shape_String sh.
Definition log_step (node : string) (st : Step) : string :=
  "t+" +:+ Duration_String (st_At st) +:+ " " +:+ node +:+ " -> " +:+ st_Peer st +:+ ": " +:+ describe st.

Definition set_rule (hosts : gmap string Addr) (rules : gmap Addr Shape) (st : Step) : gmap Addr Shape :=
  let a := default AddrInvalid (hosts !! st_Peer st) in
  let sh := step_Shape st in if IsZero sh then delete a rules else <[a := sh]> rules.

Class Clock (W : Type) := { Now : W → Time; Sleep : Duration → W → option error * W }.

Section run.
Context {W : Type} `{!Range, !Clock W}.

Definition wait_until (t : Time) (w : W) : option error * W :=
  let wait := time_Sub t (Now w) in
  if 0 <? wait then Sleep wait w else (None, w).

(** One turn of the loop. *)
Definition run_group (node : string) (hosts : gmap string Addr) (d : Device W) (start : Time)
  (at_ : Duration) (g : list Step) (rules : gmap Addr Shape) (w : W) : option error * list string * gmap Addr Shape * W :=
  match wait_until (time_Add start at_) w with
  | (Some e, w) => (Some e, [], rules, w)
  | (None, w) =>
      let rules := fold_left (set_rule hosts) g rules in
      match dev_Apply d rules w with
      | (Some e, w) => (Some e, [], rules, w)
      | (None, w) => (None, log_step node <$> g, rules, w)
      end
  end.
Fixpoint run_groups (node : string) (hosts : gmap string Addr) (d : Device W) (start : Time)
  (gs : list (Duration * list Step)) (rules : gmap Addr Shape) (w : W) : option error * list string * gmap Addr Shape * W :=
  match gs with
  | [] => (None, [], rules, w)
  | (at_, g) :: gs =>
      match run_group node hosts d start at_ g rules w with
      | (Some e, log, rules, w) => (Some e, log, rules, w)
      | (None, log, rules, w) =>
          let '(e, log', rules, w) := run_groups node hosts d start gs rules w in (e, log ++ log', rules, w)
      end
  end.

(** The error, what was logged and the world after it. *)
Definition Run (s : Scenario) (node : string) (hosts : gmap string Addr) (d : Device W) (start : Time) (w : W)
  : option error * list string * W :=
  match mine_loop s node hosts (sc_Steps s) with
  | Err e => (Some e, [], w)
  | Ok [] => (Some (ErrText ("netem: scenario " +:+ sc_Name s +:+ " has no step for node " +:+ node)), [], w)
  | Ok mine =>
      let '(e, log, _, w) := run_groups node hosts d start (groups (SortStableFunc cmp_At mine)) ∅ w in (e, log, w)
  end.
End run.
End shapes.

(** ** What tc does *)

(** A root prio qdisc: the number of its bands, the map from a packet's priority
    to a band, the netem below each class and the filters, oldest first. *)
Record qtree := mkTree {
  q_bands : Z; q_map : list string;
  q_netem : gmap string (list string); q_handles : list string; q_filters : list (string * string);
}.
Abbreviation tcstate := (gmap string qtree).

Inductive tc_cmd :=
| TcDel (dev : string)
| TcPrio (dev bands : string) (pmap : list string)
| TcNetem (dev parent handle : string) (args : list string)
| TcFilter (dev dst flowid : string).

Definition tc_parse (args : list string) : option tc_cmd :=
  match args with
  | obj :: verb :: _ :: dev :: rest =>
      if String.eqb obj "qdisc" && String.eqb verb "del" then Some (TcDel dev)
      else if String.eqb obj "qdisc" && String.eqb verb "add" then
        match rest with
        | at_ :: parent :: _ :: handle :: kind :: more =>
            if String.eqb at_ "root" then match more with n :: _ :: pmap => Some (TcPrio dev n pmap) | _ => None end
            else if String.eqb kind "netem" then Some (TcNetem dev parent handle more) else None
        | _ => None
        end
      else if String.eqb obj "filter" && String.eqb verb "add" then
        match rest with
        | [_; _; _; _; _; _; _; _; _; _; dst; _; flowid] => Some (TcFilter dev dst flowid)
        | _ => None
        end
      else None
  | _ => None
  end.

Definition class_of (n : Z) : string := "1:" +:+ Itoa n.

(** When tc does it (prio has 2 to 16 bands, a handle names one qdisc), and what
    it then does. *)
Definition tc_can (c : tc_cmd) (v : tcstate) : Prop :=
  match c with
  | TcDel dev => is_Some (v !! dev)
  | TcPrio dev bands pmap =>
      v !! dev = None ∧ match ParseInt bands with Some n => 2 ≤ n ≤ 16 | None => False end ∧ length pmap = 16%nat
  | TcNetem dev parent handle _ =>
      match v !! dev with
      | Some q => (handle ∉ q_handles q) ∧ (parent ∉ dom (q_netem q)) ∧ parent ∈ class_of <$> seqZ 1 (q_bands q)
      | None => False
      end
  | TcFilter dev _ _ => is_Some (v !! dev)
  end.
#[export] Instance tc_can_dec c v : Decision (tc_can c v).
Proof.
  destruct c; cbn [tc_can]; [apply _| |destruct (v !! dev); apply _|apply _]. destruct (ParseInt bands); apply _.
Defined.
Definition add_netem (parent handle : string) (args : list string) (q : qtree) : qtree :=
  mkTree (q_bands q) (q_map q) (<[parent := args]> (q_netem q)) (handle :: q_handles q) (q_filters q).
Definition add_filter (dst flowid : string) (q : qtree) : qtree :=
  mkTree (q_bands q) (q_map q) (q_netem q) (q_handles q) (q_filters q ++ [(dst, flowid)]).
Definition tc_effect (c : tc_cmd) (v : tcstate) : tcstate :=
  match c with
  | TcDel dev => delete dev v
  | TcPrio dev bands pmap => <[dev := mkTree (default 0 (ParseInt bands)) pmap ∅ [] []]> v
  | TcNetem dev parent handle args => alter (add_netem parent handle args) dev v
  | TcFilter dev dst flowid => alter (add_filter dst flowid) dev v
  end.

(** A command that fails has done nothing; a message that is benign says that
    there was nothing to delete. *)
Class TcLaws {W} (run : Runner W) := {
  tcview : W → tcstate;
  tc_ok : ∀ args c w out w', run "tc" args w = (out, None, w') → tc_parse args = Some c →
    tc_can c (tcview w) ∧ tcview w' = tc_effect c (tcview w);
  tc_failed : ∀ args c w out e w', run "tc" args w = (out, Some e, w') → tc_parse args = Some c → tcview w' = tcview w;
  tc_nothing : ∀ dev w out e w', run "tc" (clear_cmd dev) w = (out, Some e, w') → is_benign (out +:+ e) = true →
    tcview w !! dev = None;
}.
Arguments tcview {W run _} w : assert.

(** tc does what it can, and says so when there is nothing to delete. *)
Class TcWorks {W} (run : Runner W) `{!TcLaws run} : Prop := {
  tc_done : ∀ args c w, tc_parse args = Some c → tc_can c (tcview w) → ∃ out w', run "tc" args w = (out, None, w');
  tc_none : ∀ dev w, tcview w !! dev = None → ∃ out e w', run "tc" (clear_cmd dev) w = (out, Some e, w') ∧ is_benign (out +:+ e) = true;
}.

(** The netem a packet with a destination and a priority goes through: the first
    filter on its destination picks the class, without one the priority map. *)
Definition way (v : option qtree) (a : Addr) (prio : nat) : option (list string) :=
  q ← v;
  let dst := pf_String (mkPrefix a 32) in
  q_netem q !! (match list_find (λ f, f.1 = dst) (q_filters q) with
               | Some (_, (_, flowid)) => flowid
               | None => class_of (1 + default 0 (ParseInt (default "0" (q_map q !! prio))))
                end).

(** The step for one destination that is in force at a time: the latest so far,
    of several at one time the one written last. *)
Fixpoint latest (l : list Step) : option Step :=
  match l with
  | [] => None
  | st :: l => match latest l with Some y => if st_At st <=? st_At y then Some y else Some st | None => Some st end
  end.
Definition concerns_at (node : string) (hosts : gmap string Addr) (t : Duration) (a : Addr) (st : Step) : Prop :=
  st_Node st = node ∧ hosts !! st_Peer st = Some a ∧ st_At st ≤ t.
#[export] Instance concerns_at_dec node hosts t a st : Decision (concerns_at node hosts t a st).
Proof. unfold concerns_at. apply _. Defined.
Definition in_force (s : Scenario) (node : string) (hosts : gmap string Addr) (t : Duration) (a : Addr) : option Shape :=
  st ← latest (filter (concerns_at node hosts t a) (sc_Steps s));
  if IsZero (step_Shape st) then None else Some (step_Shape st).

(** ** Shaping a device *)

Lemma string_app_inj_l (a b c : string) : a +:+ b = a +:+ c → b = c.
Proof. induction a; cbn; [done|]. intros [= ?]. auto. Qed.

Lemma Itoa_inj n m : - 2 ^ 63 ≤ n < 2 ^ 63 → - 2 ^ 63 ≤ m < 2 ^ 63 → Itoa n = Itoa m → n = m.
Proof. intros Hn Hm E. apply (f_equal ParseInt) in E. rewrite !ParseInt_Itoa in E by done. by injection E. Qed.

Lemma class_of_inj n m : - 2 ^ 63 ≤ n < 2 ^ 63 → - 2 ^ 63 ≤ m < 2 ^ 63 → class_of n = class_of m → n = m.
Proof. intros Hn Hm E%string_app_inj_l. by apply Itoa_inj in E. Qed.

Lemma Cut_dot a a' b b' (sep : Ascii.ascii) : lacks sep a = true → lacks sep a' = true →
  a +:+ String sep b = a' +:+ String sep b' → a = a' ∧ b = b'.
Proof. intros Ha Ha' E. apply (f_equal (Cut sep)) in E. rewrite !Cut_app in E by done. by injection E. Qed.

(** Different IPv4 addresses print differently. *)
Lemma string4_inj v v' : fits 32 v → fits 32 v' → string4 v +:+ "/32" = string4 v' +:+ "/32" → v = v'.
Proof.
  unfold fits, string4. intros Hv Hv' E. rewrite !append_assoc in E. cbn [String.append] in E.
  assert (∀ n, is_u64 (n mod 256)) as Hb by (intros n; unfold fits; pose proof (Z.mod_pos_bound n 256 ltac:(lia)); lia).
  assert (∀ n sep, char_digit sep = None → lacks sep (FormatUint (n mod 256)) = true) as Hd
    by (intros n sep; apply FormatUint_lacks; apply Hb).
  apply Cut_dot in E as [E3 E]; [|by apply Hd..]. apply Cut_dot in E as [E2 E]; [|by apply Hd..].
  apply Cut_dot in E as [E1 E]; [|by apply Hd..]. apply Cut_dot in E as [E0 _]; [|by apply Hd..].
  apply FormatUint_inj in E0, E1, E2, E3; [|apply Hb..].
  assert (∀ x, 0 ≤ x < 2 ^ 32 → x = (x / 2 ^ 24 mod 256) * 2 ^ 24 + (x / 2 ^ 16 mod 256) * 2 ^ 16 + (x / 2 ^ 8 mod 256) * 2 ^ 8 + x mod 256) as Hx.
  { clear. intros x Hx. pose proof (Z.div_mod x 256 ltac:(lia)). pose proof (Z.div_mod (x / 256) 256 ltac:(lia)).
    pose proof (Z.div_mod (x / 256 / 256) 256 ltac:(lia)). rewrite !Z.div_div in * by lia.
    change (256 * 256 * 256) with (2 ^ 24) in *. change (256 * 256) with (2 ^ 16) in *. change (2 ^ 8) with 256.
    rewrite (Z.mod_small (x / 2 ^ 24)) by (split; [apply Z.div_pos; lia|apply Z.div_lt_upper_bound; lia]). lia. }
  rewrite (Hx v), (Hx v') by done. congruence.
Qed.

Lemma dst_text_inj a a' : Is4 a = true → Is4 a' = true → addr_ok a → addr_ok a' →
  pf_String (mkPrefix a 32) = pf_String (mkPrefix a' 32) → a = a'.
Proof.
  destruct a as [|v|], a' as [|v'|]; try done. cbn. intros _ _ Hv Hv' E. f_equal. by apply string4_inj.
Qed.

Section shaping.
Context {W : Type} `{!NumText, !Range, !RangeLaws} (d : Device W) `{!TcLaws (dv_Run d)}.
Abbreviation dev := (dv_Name d).
Implicit Types (w : W) (rules : gmap Addr Shape).

Lemma parse_prio n : tc_parse (prio_cmd dev n) = Some (TcPrio dev (Itoa (3 + Z.of_nat n)) priomap).
Proof. done. Qed.
Lemma parse_netem i s : tc_parse (netem_cmd dev i s) = Some (TcNetem dev (band i) (Itoa (40 + Z.of_nat i) +:+ ":") (Args s)).
Proof. done. Qed.
Lemma parse_filter i a : tc_parse (filter_cmd dev i a) = Some (TcFilter dev (pf_String (mkPrefix a 32)) (band i)).
Proof. done. Qed.
Lemma parse_clear : tc_parse (clear_cmd dev) = Some (TcDel dev).
Proof. done. Qed.

Lemma Clear_ok w w' : Clear d w = (None, w') → tcview w' = delete dev (tcview w).
Proof.
  unfold Clear. destruct (dv_Run d "tc" (clear_cmd dev) w) as [[out [e|]] w1] eqn:E.
  - destruct (is_benign _) eqn:Eb; [|done]. intros [= <-]. rewrite (tc_failed _ _ _ _ _ _ E parse_clear).
    symmetry. apply delete_id. by eapply tc_nothing.
  - intros [= <-]. by destruct (tc_ok _ _ _ _ _ E parse_clear) as [_ ->].
Qed.
Lemma Clear_failed w e w' : Clear d w = (Some e, w') → tcview w' = tcview w.
Proof.
  unfold Clear. destruct (dv_Run d "tc" (clear_cmd dev) w) as [[out [e'|]] w1] eqn:E; [|done].
  destruct (is_benign _) eqn:Eb; [done|]. intros [= _ <-]. by eapply tc_failed, parse_clear.
Qed.

(** The commands of [Commands] as tc reads them. *)
Fixpoint band_effects rules (i : nat) (dsts : list Addr) : list tc_cmd :=
  match dsts with
  | [] => []
  | a :: dsts => TcNetem dev (band i) (Itoa (40 + Z.of_nat i) +:+ ":") (Args (default zeroShape (rules !! a)))
                 :: TcFilter dev (pf_String (mkPrefix a 32)) (band i) :: band_effects rules (S i) dsts
  end.
Lemma parse_bands rules i dsts : Forall2 (λ args c, tc_parse args = Some c) (band_cmds dev rules i dsts) (band_effects rules i dsts).
Proof. revert i. induction dsts; intros i; cbn; repeat constructor; done. Qed.

Lemma run_cmds_ok cmds cs w w' : Forall2 (λ args c, tc_parse args = Some c) cmds cs →
  run_cmds d cmds w = (None, w') → tcview w' = fold_left (λ v c, tc_effect c v) cs (tcview w).
Proof.
  intros Hp. revert w. induction Hp as [|args c cmds cs Hc Hp IH]; intros w; cbn; [by intros [= <-]|].
  destruct (dv_Run d "tc" args w) as [[out [e|]] w1] eqn:E; [done|]. intros Hr.
  rewrite (IH _ Hr). by destruct (tc_ok _ _ _ _ _ E Hc) as [_ ->].
Qed.

Lemma check_rules_ok l dsts : check_rules l = Ok dsts →
  dsts = l.*1 ∧ Forall (λ kv, Is4 kv.1 = true ∧ shape_Validate kv.2 = None) l.
Proof.
  revert dsts. induction l as [|[a s] l IH]; cbn; intros dsts; [by intros [= <-]|].
  destruct (Is4 a) eqn:E4; [|done]. destruct (shape_Validate s) eqn:Es; [done|]. destruct (check_rules l) as [dsts'|]; [|done].
  intros [= <-]. destruct (IH _ eq_refl) as [-> HF]. split; [done|]. by constructor.
Qed.

(** What the loop over the destinations adds to the tree. *)
Lemma bands_tree rules i dsts q v : - 2 ^ 63 ≤ 4 + Z.of_nat (i + length dsts) < 2 ^ 63 →
  ∃ q', fold_left (λ v c, tc_effect c v) (band_effects rules i dsts) (<[dev := q]> v) = <[dev := q']> v
    ∧ q_map q' = q_map q ∧ q_filters q' = q_filters q ++ imap (λ j a, (pf_String (mkPrefix a 32), band (i + j))) dsts
    ∧ (∀ j a, dsts !! j = Some a → q_netem q' !! band (i + j) = Some (Args (default zeroShape (rules !! a))))
    ∧ (∀ n, 0 ≤ n < 4 + Z.of_nat i → q_netem q' !! class_of n = q_netem q !! class_of n).
Proof.
  revert i q. induction dsts as [|a dsts IH]; intros i q Hl; cbn [band_effects fold_left length] in *.
  { exists q. cbn. rewrite app_nil_r. by split_and!. }
  cbn [tc_effect]. rewrite !alter_insert_eq. edestruct (IH (S i)) as (q' & -> & Hm & Hf & Hn & Ho); [lia|].
  exists q'. split; [done|]. split; [by rewrite Hm|]. split; [|split].
  - rewrite Hf. cbn. rewrite <- app_assoc. cbn. rewrite Nat.add_0_r. do 2 f_equal. apply imap_ext. intros j x _. cbn. by rewrite Nat.add_succ_r.
  - intros [|j] x; cbn; [|rewrite Nat.add_succ_r; apply Hn]. intros [= <-]. rewrite Nat.add_0_r.
    change (band i) with (class_of (4 + Z.of_nat i)). rewrite Ho by lia. cbn. by rewrite lookup_insert_eq.
  - intros n Hlt. rewrite Ho by lia. cbn. rewrite lookup_insert_ne; [done|]. intros E%class_of_inj; lia.
Qed.

(** Packets to an address of [rules] go through its netem, all others through
    none. *)
Definition shaped_as (rules : gmap Addr Shape) (v : option qtree) : Prop :=
  ∀ a prio, Is4 a = true → addr_ok a → (prio < 16)%nat → way v a prio = Args <$> rules !! a.
Definition rules_ok rules : Prop := map_Forall (λ a _, addr_ok a) rules.

Lemma prio_class prio : (prio < 16)%nat → ∃ n, 0 ≤ n < 4 ∧ class_of (1 + default 0 (ParseInt (default "0" (priomap !! prio)))) = class_of n.
Proof.
  intros Hp. do 16 (destruct prio as [|prio]; [eexists; split; [|reflexivity]; vm_compute; by split|]). lia.
Qed.

Lemma find_dst dsts a : NoDup dsts → Forall (λ a, Is4 a = true ∧ addr_ok a) (a :: dsts) →
  match list_find (λ f, f.1 = pf_String (mkPrefix a 32)) (imap (λ j a, (pf_String (mkPrefix a 32), band j)) dsts) with
  | Some (_, (_, b)) => ∃ j, dsts !! j = Some a ∧ b = band j
  | None => a ∉ dsts
  end.
Proof.
  intros Hnd [[Ha1 Ha2] HF]%Forall_cons. destruct (list_find _ _) as [[j [t b]]|] eqn:E.
  - apply list_find_Some in E as (Hl & Ht & _). rewrite list_lookup_imap in Hl. destruct (dsts !! j) as [a'|] eqn:Ej; [|done].
    cbn in Hl, Ht. injection Hl as Hl1 Hl2. exists j. split; [|done]. rewrite Ej. f_equal.
    rewrite Forall_lookup in HF. destruct (HF _ _ Ej). apply dst_text_inj; [done..|]. congruence.
  - apply list_find_None in E. intros [j Hj]%list_elem_of_lookup. rewrite Forall_lookup in E.
    refine (E j (pf_String (mkPrefix a 32), band j) _ eq_refl). by rewrite list_lookup_imap, Hj.
Qed.

Lemma Commands_ok rules cmds : Commands dev rules = Ok cmds →
  (cmds = [] ∧ rules = ∅)
  ∨ (∃ dsts, NoDup dsts ∧ (∀ a, a ∈ dsts ↔ is_Some (rules !! a)) ∧ Forall (λ a, Is4 a = true) dsts ∧ (1 ≤ length dsts ≤ 13)%nat
       ∧ cmds = prio_cmd dev (length dsts) :: band_cmds dev rules 0 dsts).
Proof.
  unfold Commands. destruct (check_rules (range rules)) as [l|] eqn:E; cbn [res_bind]; [|done].
  apply check_rules_ok in E as [-> HF]. pose proof (range_perm rules) as HP.
  assert ((range rules).*1 ≡ₚ (map_to_list rules).*1) as HK by by rewrite HP.
  destruct (Nat.eqb_spec (length (range rules).*1) 0) as [E0|E0].
  { intros [= <-]. left. split; [done|]. apply map_to_list_empty_iff. rewrite length_fmap in E0.
    apply Permutation_nil. rewrite <- HP. by destruct (range rules). }
  destruct (Nat.ltb_spec MaxDestinations (length (range rules).*1)) as [?|E1]; [done|]. intros [= <-]. right.
  pose proof (merge_sort_Permutation addr_le (range rules).*1) as HS. exists (merge_sort addr_le (range rules).*1).
  split_and!.
  - rewrite HS, HK. apply NoDup_fst_map_to_list.
  - intros a. rewrite HS, HK, list_elem_of_fmap. split.
    + intros ([a' s] & -> & Hin%elem_of_map_to_list). by eexists.
    + intros [s Hs]. exists (a, s). split; [done|]. by apply elem_of_map_to_list.
  - rewrite HS. apply Forall_fmap. eapply Forall_impl; [exact HF|]. by intros ? [? _].
  - rewrite HS. lia.
  - rewrite HS. unfold MaxDestinations in E1. lia.
  - done.
Qed.

(** The commands of [rules], all of them successful, shape the device so. *)
Lemma run_Commands rules cmds w w' : rules_ok rules → Commands dev rules = Ok cmds → tcview w !! dev = None →
  run_cmds d cmds w = (None, w') →
  delete dev (tcview w') = delete dev (tcview w) ∧ shaped_as rules (tcview w' !! dev).
Proof.
  intros Hok [[-> ->]|(dsts & Hnd & Hin & H4 & Hlen & ->)]%Commands_ok Hv Hr.
  { cbn in Hr. injection Hr as <-. split; [done|]. intros a prio _ _ _. by rewrite Hv, lookup_empty. }
  apply (run_cmds_ok (_ :: _) (TcPrio dev (Itoa (3 + Z.of_nat (length dsts))) priomap :: band_effects rules 0 dsts)) in Hr;
    [|constructor; [done|apply parse_bands]].
  cbn [fold_left tc_effect] in Hr. set (q0 := mkTree _ _ _ _ _) in Hr.
  destruct (bands_tree rules 0 dsts q0 (tcview w)) as (q & Eq & Hm & Hf & Hn & Ho); [lia|]. rewrite Eq in Hr.
  rewrite Hr, delete_insert_eq. split; [done|]. rewrite lookup_insert_eq. intros a prio Ha1 Ha2 Hp.
  unfold way. cbn [mbind option_bind]. rewrite Hf, Hm. cbn [q0 q_filters q_map app].
  assert (Forall (λ a, Is4 a = true ∧ addr_ok a) (a :: dsts)) as HF.
  { constructor; [done|]. rewrite Forall_forall in H4 |- *. intros x Hx. split; [by apply H4|]. apply Hin in Hx as [s Hs]. by eapply Hok. }
  pose proof (find_dst dsts a Hnd HF) as Hfind. cbn [Nat.add]. destruct (list_find _ _) as [[j [t b]]|].
  - destruct Hfind as (i & Hi & ->). pose proof (Hn i a Hi) as Hni. cbn [Nat.add] in Hni. rewrite Hni.
    assert (a ∈ dsts) as [s Hs]%Hin by by eapply list_elem_of_lookup_2.
    by rewrite Hs.
  - rewrite Hin in Hfind. apply eq_None_not_Some in Hfind. rewrite Hfind. destruct (prio_class prio Hp) as (n & Hb & ->).
    rewrite Ho by lia. cbn. apply lookup_empty.
Qed.

(** A command of [Commands] touches no other device. *)
Definition local_cmd (c : list string) : Prop := ∃ t, tc_parse c = Some t ∧ ∀ v, delete dev (tc_effect t v) = delete dev v.
Lemma Commands_local rules cmds : Commands dev rules = Ok cmds → Forall local_cmd cmds.
Proof.
  intros [[-> ->]|(dsts & _ & _ & _ & _ & ->)]%Commands_ok; constructor.
  { eexists. split; [done|]. intros v. apply delete_insert_eq. }
  generalize 0%nat. induction dsts as [|a dsts IH]; intros i; [constructor|]. cbn. constructor; [|constructor; [|apply IH]];
    eexists; (split; [done|]); intros v; cbn [tc_effect]; apply delete_alter_eq.
Qed.
Lemma run_cmds_failed cmds w e w' : Forall local_cmd cmds → run_cmds d cmds w = (Some e, w') →
  delete dev (tcview w') = delete dev (tcview w) ∧ (tcview w' !! dev = None ∨ ∃ w1 e, Clear d w1 = (Some e, w')).
Proof.
  intros HF. revert w. induction HF as [|c cmds (t & Ht & Hd) HF IH]; intros w; cbn [run_cmds]; [done|].
  destruct (dv_Run d "tc" c w) as [[out [e'|]] w2] eqn:E.
  - intros [= _ <-]. rewrite <- (tc_failed _ _ _ _ _ _ E Ht). destruct (Clear d w2) as [[e2|] w3] eqn:E3; cbn.
    + rewrite (Clear_failed _ _ _ E3). eauto.
    + rewrite (Clear_ok _ _ E3), delete_delete_eq. split; [done|]. left. apply lookup_delete_eq.
  - intros Hr. destruct (IH _ Hr) as [-> IH2]. destruct (tc_ok _ _ _ _ _ E Ht) as [_ ->]. by rewrite Hd.
Qed.

(** [Apply]: the device is shaped as the rules say; or it is as it was, or
    unshaped; or it could not be cleared. Other devices keep their shaping. *)
Lemma Apply_shapes rules w r w' : rules_ok rules → dev_Apply d rules w = (r, w') →
  delete dev (tcview w') = delete dev (tcview w)
  ∧ match r with
    | None => shaped_as rules (tcview w' !! dev)
    | Some _ => tcview w' = tcview w ∨ tcview w' !! dev = None ∨ ∃ w1 e, Clear d w1 = (Some e, w')
    end.
Proof.
  intros Hok. unfold dev_Apply. destruct (Commands dev rules) as [cmds|e] eqn:Ec; [|intros [= <- <-]; auto].
  destruct (Clear d w) as [[e|] w1] eqn:E1; [intros [= <- <-]; rewrite (Clear_failed _ _ _ E1); auto|]. apply Clear_ok in E1.
  intros Hr. assert (tcview w1 !! dev = None) as Hv by (rewrite E1; apply lookup_delete_eq).
  assert (delete dev (tcview w1) = delete dev (tcview w)) as <- by (rewrite E1; apply delete_delete_eq).
  destruct r as [e|]; [|by apply (run_Commands _ _ _ _ Hok Ec Hv)].
  apply run_cmds_failed in Hr as [-> Hr]; [auto|by eapply Commands_local].
Qed.

(** *** tc is never asked for what it cannot do *)

Fixpoint can_all (cs : list tc_cmd) (v : tcstate) : Prop :=
  match cs with [] => True | c :: cs => tc_can c v ∧ can_all cs (tc_effect c v) end.
Lemma run_cmds_works `{!TcWorks (dv_Run d)} cmds cs w : Forall2 (λ args c, tc_parse args = Some c) cmds cs →
  can_all cs (tcview w) → ∃ w', run_cmds d cmds w = (None, w').
Proof.
  intros Hp. revert w. induction Hp as [|args c cmds cs Hc Hp IH]; intros w; cbn; [eauto|]. intros [Hcan Hall].
  destruct (tc_done _ _ _ Hc Hcan) as (out & w1 & E). rewrite E. apply IH. by destruct (tc_ok _ _ _ _ _ E Hc) as [_ ->].
Qed.

Lemma handle_inj i j : Z.of_nat i < 2 ^ 60 → Z.of_nat j < 2 ^ 60 →
  Itoa (40 + Z.of_nat i) +:+ ":" = Itoa (40 + Z.of_nat j) +:+ ":" → i = j.
Proof. intros Hi Hj E. apply Cut_dot in E as [E%Itoa_inj _]; [lia|lia|lia|by apply Itoa_lacks..]. Qed.

Lemma bands_can rules i dsts q v : Z.of_nat (i + length dsts) < 2 ^ 60 → 3 + Z.of_nat (i + length dsts) ≤ q_bands q →
  (∀ h, h ∈ q_handles q → ∃ j, (j < i)%nat ∧ h = Itoa (40 + Z.of_nat j) +:+ ":") →
  (∀ j, (i ≤ j)%nat → Z.of_nat j < 2 ^ 60 → q_netem q !! band j = None) →
  can_all (band_effects rules i dsts) (<[dev := q]> v).
Proof.
  revert i q. induction dsts as [|a dsts IH]; intros i q Hl Hb Hh Hn; cbn [band_effects can_all length] in *; [done|].
  cbn [tc_can tc_effect]. rewrite !alter_insert_eq, !lookup_insert_eq. split; [|split].
  - split_and!.
    + intros (j & Hj & E%handle_inj)%Hh; lia.
    + apply not_elem_of_dom. apply Hn; lia.
    + apply list_elem_of_fmap. exists (4 + Z.of_nat i). split; [done|]. apply elem_of_seqZ. lia.
  - by eexists.
  - apply IH; cbn [q_bands q_handles q_netem add_netem add_filter]; [lia|lia| |].
    + intros h [->|(j & Hj & ->)%Hh]%elem_of_cons; [exists i|exists j]; (split; [lia|done]).
    + intros j Hij Hj. rewrite lookup_insert_ne; [apply Hn; lia|]. intros E%class_of_inj; lia.
Qed.

Lemma Apply_works `{!TcWorks (dv_Run d)} rules cmds w : Commands dev rules = Ok cmds → ∃ w', dev_Apply d rules w = (None, w').
Proof.
  intros Hc. unfold dev_Apply. rewrite Hc.
  assert (∃ w1, Clear d w = (None, w1)) as [w1 E1].
  { unfold Clear. destruct (tcview w !! dev) as [q|] eqn:Eq.
    - destruct (tc_done _ _ w parse_clear) as (out & w1 & ->); [by eexists|eauto].
    - destruct (tc_none _ _ Eq) as (out & e & w1 & -> & ->). eauto. }
  rewrite E1. apply Clear_ok in E1. apply Commands_ok in Hc as [[-> ->]|(dsts & _ & _ & _ & Hlen & ->)]; [cbn; eauto|].
  apply (run_cmds_works _ (TcPrio dev (Itoa (3 + Z.of_nat (length dsts))) priomap :: band_effects rules 0 dsts));
    [constructor; [done|apply parse_bands]|].
  cbn [can_all tc_can tc_effect]. rewrite ParseInt_Itoa by lia. split.
  - rewrite E1, lookup_delete_eq. split_and!; [done|lia|lia|done].
  - apply bands_can; cbn [q_bands q_handles q_netem]; [lia|cbn; lia|by intros h ?%not_elem_of_nil|intros; apply lookup_empty].
Qed.
End shaping.

(** ** Scenarios over time *)

Lemma insert_func_by x l : 0 ≤ st_At x < 2 ^ 63 → Forall (λ st, 0 ≤ st_At st < 2 ^ 63) l →
  insert_func cmp_At x l = insert_by st_At x l.
Proof.
  intros Hx HF. induction HF as [|y l Hy HF IH]; cbn; [done|]. rewrite IH. unfold cmp_At. rewrite i64_small by (unfold i64_min, i64_max; lia).
  destruct (Z.leb_spec (st_At x - st_At y) 0), (Z.leb_spec (st_At x) (st_At y)); (lia || done).
Qed.
(** The wrapping comparison sorts by time. *)
Lemma sort_At l : Forall (λ st, 0 ≤ st_At st < 2 ^ 63) l → SortStableFunc cmp_At l = sort_by st_At l.
Proof.
  induction 1 as [|x l Hx HF IH]; [done|].
  change (insert_func cmp_At x (SortStableFunc cmp_At l) = insert_by st_At x (sort_by st_At l)).
  rewrite IH. apply insert_func_by; [done|]. by rewrite sort_by_perm.
Qed.

Lemma last_insert_by (x : Step) l : sorted_by st_At l →
  last (insert_by st_At x l) = match last l with Some y => if st_At x <=? st_At y then Some y else Some x | None => Some x end.
Proof.
  induction 1 as [|y l Hs IH HF]; cbn [insert_by]; [done|]. destruct (Z.leb_spec (st_At x) (st_At y)).
  - change (last (x :: y :: l)) with (last (y :: l)). destruct (last (y :: l)) as [z|] eqn:E; [|by apply last_None in E].
    assert (z ∈ y :: l) as Hz by by apply last_Some_elem_of. destruct (Z.leb_spec (st_At x) (st_At z)) as [?|Hlt]; [done|].
    apply elem_of_cons in Hz as [->|Hz]; [lia|]. rewrite Forall_forall in HF. specialize (HF z Hz). cbn in HF. lia.
  - assert (∃ z r, insert_by st_At x l = z :: r) as (z & r & E) by (destruct l as [|u l]; cbn; [|destruct (_ <=? _)]; eauto).
    rewrite E. change (last (y :: z :: r)) with (last (z :: r)). rewrite <- E, IH. destruct l as [|u l]; [|done].
    cbn. by destruct (Z.leb_spec (st_At x) (st_At y)); [lia|].
Qed.
Lemma latest_last l : last (sort_by st_At l) = latest l.
Proof.
  induction l as [|x l IH]; [done|]. change (sort_by st_At (x :: l)) with (insert_by st_At x (sort_by st_At l)).
  by rewrite last_insert_by, IH by apply sort_by_sorted.
Qed.

Lemma filter_insert_by (P : Step → Prop) `{∀ st, Decision (P st)} x l : sorted_by st_At l →
  filter P (insert_by st_At x l) = if decide (P x) then insert_by st_At x (filter P l) else filter P l.
Proof.
  induction 1 as [|y l Hs IH HF]; cbn [insert_by]; [rewrite filter_cons; by destruct (decide _)|].
  destruct (Z.leb_spec (st_At x) (st_At y)) as [Hle|Hlt].
  - rewrite (filter_cons _ x). destruct (decide (P x)); [|done].
    destruct (filter P (y :: l)) as [|z r] eqn:E; [done|]. cbn. assert (z ∈ y :: l) as Hz.
    { assert (z ∈ filter P (y :: l)) as [_ ?]%list_elem_of_filter by (rewrite E; by left). done. }
    assert (st_At y ≤ st_At z) as Hyz.
    { apply elem_of_cons in Hz as [->|Hz]; [lia|]. rewrite Forall_forall in HF. by apply HF. }
    by destruct (Z.leb_spec (st_At x) (st_At z)); [|lia].
  - rewrite !filter_cons, IH. destruct (decide (P y)), (decide (P x)); try done. cbn.
    by destruct (Z.leb_spec (st_At x) (st_At y)); [lia|].
Qed.
Lemma filter_sort_by (P : Step → Prop) `{∀ st, Decision (P st)} l : filter P (sort_by st_At l) = sort_by st_At (filter P l).
Proof.
  induction l as [|x l IH]; [done|]. cbn [sort_by foldr]. rewrite filter_insert_by by apply sort_by_sorted.
  rewrite filter_cons. unfold sort_by in IH. rewrite IH. by destruct (decide _).
Qed.

Lemma set_rules_last hosts l a : (∀ st, st ∈ l → is_Some (hosts !! st_Peer st)) →
  fold_left (set_rule hosts) l ∅ !! a =
    (st ← last (filter (λ st, hosts !! st_Peer st = Some a) l); if IsZero (step_Shape st) then None else Some (step_Shape st)).
Proof.
  induction l as [|st l IH] using rev_ind; intros Hh; [done|]. rewrite fold_left_app, filter_app. cbn [fold_left].
  destruct (Hh st) as [b Hb]; [apply elem_of_app; right; by left|].
  unfold set_rule at 1. rewrite Hb. cbn [default]. rewrite filter_cons, filter_nil. destruct (decide _) as [E|Hn].
  - rewrite Hb in E. injection E as ->. rewrite last_snoc. cbn [mbind option_bind].
    destruct (IsZero _); [apply lookup_delete_eq|apply lookup_insert_eq].
  - assert (b ≠ a) by congruence. rewrite app_nil_r, <- IH by (intros st' Hin; apply Hh, elem_of_app; by left).
    destruct (IsZero _); [by apply lookup_delete_ne|by apply lookup_insert_ne].
Qed.

Lemma mine_loop_ok s node hosts l mine : mine_loop s node hosts l = Ok mine →
  mine = filter (λ st, st_Node st = node) l ∧ ∀ st, st ∈ mine → is_Some (hosts !! st_Peer st).
Proof.
  revert mine. induction l as [|st l IH]; cbn [mine_loop]; intros mine; [intros [= <-]; split; [done|by intros ? ?%not_elem_of_nil]|].
  rewrite filter_cons. destruct (String.eqb_spec (st_Node st) node), (decide (st_Node st = node)); try done; cbn [negb]; [|auto].
  destruct (hosts !! st_Peer st) as [a|] eqn:E; [|done]. destruct (mine_loop _ _ _ l) as [m|]; [|done]. intros [= <-].
  destruct (IH _ eq_refl) as [-> Hm]. split; [done|]. intros st' [->|Hin]%elem_of_cons; [by eexists|auto].
Qed.

(** The rules after the steps up to a time are those in force then. *)
Lemma rules_in_force s node hosts mine t a : mine_loop s node hosts (sc_Steps s) = Ok mine →
  fold_left (set_rule hosts) (filter (λ st, st_At st ≤ t) (sort_by st_At mine)) ∅ !! a = in_force s node hosts t a.
Proof.
  intros [-> Hh]%mine_loop_ok. rewrite set_rules_last.
  - unfold in_force. rewrite !filter_sort_by, latest_last, !list_filter_filter. do 2 f_equal.
    apply list_filter_ext. intros st _. unfold concerns_at. tauto.
  - intros st [_ Hin]%list_elem_of_filter. rewrite sort_by_perm in Hin. by apply Hh.
Qed.

Lemma elem_of_concat {A} (x : A) ls : x ∈ concat ls ↔ ∃ l, x ∈ l ∧ l ∈ ls.
Proof.
  rewrite list_elem_of_In, in_concat. split; intros (l & H1 & H2); exists l; by rewrite !list_elem_of_In in *.
Qed.

Lemma groups_concat l : concat (groups l).*2 = l.
Proof.
  induction l as [|st l IH]; cbn; [done|]. destruct (groups l) as [|[t g] gs]; cbn in *; [by rewrite <- IH|].
  destruct (_ =? _); cbn; by rewrite <- IH.
Qed.
Definition same_time (tg : Duration * list Step) : Prop := tg.2 ≠ [] ∧ Forall (λ st, st_At st = tg.1) tg.2.
Lemma groups_times l : sorted_by st_At l → Forall same_time (groups l) ∧ StronglySorted Z.lt (groups l).*1
  ∧ (∀ t, head (groups l).*1 = Some t → st_At <$> head l = Some t).
Proof.
  induction 1 as [|st l Hs (IH1 & IH2 & IH3) HF]; cbn; [split_and!; [constructor..|done]|].
  assert (∀ t, t ∈ (groups l).*1 → st_At st ≤ t) as Hle.
  { intros t ([t' g] & -> & Hin)%list_elem_of_fmap. rewrite Forall_forall in IH1. destruct (IH1 _ Hin) as [Hne Hg]. cbn in *.
    destruct g as [|st' g]; [done|]. apply Forall_cons in Hg as [<- _]. rewrite Forall_forall in HF. apply HF.
    rewrite <- (groups_concat l). apply elem_of_concat. exists (st' :: g). split; [by left|].
    apply list_elem_of_fmap. by exists (st_At st', st' :: g). }
  destruct (groups l) as [|[t g] gs] eqn:Eg; cbn in *.
  - split_and!; [|repeat constructor|by intros ? [= <-]]. repeat constructor; done.
  - apply Forall_cons in IH1 as [[Hne Hg] IH1]. cbn in *. destruct (Z.eqb_spec (st_At st) t) as [<-|Hn]; cbn.
    + split_and!; [|done|by intros ? [= <-]]. constructor; [|done]. split; [done|]. by constructor.
    + split_and!; [|constructor; [done|]|by intros ? [= <-]].
      * repeat constructor; done.
      * assert (st_At st < t) as Hlt by (specialize (Hle t ltac:(by left)); lia). constructor; [done|].
        apply StronglySorted_inv in IH2 as [_ IH2]. eapply Forall_impl; [exact IH2|]. cbn. intros ? ?. lia.
Qed.

(** The steps of the groups up to one of them are the steps up to its time. *)
Lemma groups_prefix l gs1 t g gs2 : sorted_by st_At l → groups l = gs1 ++ (t, g) :: gs2 →
  concat (gs1 ++ [(t, g)]).*2 = filter (λ st, st_At st ≤ t) l.
Proof.
  intros Hs E. destruct (groups_times l Hs) as (HF & HS & _). rewrite <- (groups_concat l). rewrite E in HF, HS |- *.
  replace (gs1 ++ (t, g) :: gs2) with ((gs1 ++ [(t, g)]) ++ gs2) in * by by rewrite <- app_assoc.
  rewrite (fmap_app _ (gs1 ++ [(t, g)]) gs2), (concat_app _ (gs2.*2)), filter_app.
  rewrite (fmap_app _ (gs1 ++ [(t, g)]) gs2) in HS. apply Forall_app in HF as [HF1 HF2].
  assert (∀ t', t' ∈ (gs1 ++ [(t, g)]).*1 → t' ≤ t) as H1.
  { intros t'. rewrite fmap_app, elem_of_app. cbn. intros [Hin|E'%list_elem_of_singleton]; [|lia].
    rewrite fmap_app, <- app_assoc in HS. apply Z.lt_le_incl. eapply StronglySorted_app_1_elem_of; [exact HS|done|by left]. }
  assert (∀ t', t' ∈ gs2.*1 → t < t') as H2.
  { intros t' Hin. eapply StronglySorted_app_1_elem_of; [exact HS| |done]. rewrite fmap_app. apply elem_of_app. right. by left. }
  assert (∀ gs st, Forall same_time gs → st ∈ concat gs.*2 → st_At st ∈ gs.*1) as Hat.
  { intros gs st Hgs (gr & Hst & Hin)%elem_of_concat. apply list_elem_of_fmap in Hin as ([t' g'] & -> & Hin).
    rewrite Forall_forall in Hgs. destruct (Hgs _ Hin) as [_ Hg]. rewrite Forall_forall in Hg. rewrite (Hg _ Hst).
    apply list_elem_of_fmap. by exists (t', g'). }
  rewrite (list_filter_all _ (concat _)).
  - replace (filter _ (concat gs2.*2)) with (@nil Step); [by rewrite app_nil_r|]. symmetry.
    destruct (filter _ _) as [|st r] eqn:Ef; [done|]. exfalso.
    assert (st ∈ filter (λ st, st_At st ≤ t) (concat gs2.*2)) as [Hle Hst%Hat]%list_elem_of_filter by (rewrite Ef; by left); [|done].
    apply H2 in Hst. cbn in Hle. lia.
  - intros st Hst%Hat; [|done]. by apply H1.
Qed.

(** Sleeping and running commands take time; sleeping shapes nothing. *)
Class ClockLaws {W} (run : Runner W) `{!TcLaws run, !Clock W} : Prop := {
  Sleep_wakes : ∀ t w w', Sleep t w = (None, w') → Now w + t ≤ Now w';
  Sleep_time : ∀ t w, Now w ≤ Now (Sleep t w).2;
  Sleep_tc : ∀ t w, tcview (Sleep t w).2 = tcview w;
  run_time : ∀ name args w, Now w ≤ Now (run name args w).2;
}.

Section scenario.
Context {W : Type} `{!NumText, !Range, !RangeLaws, !Clock W} (d : Device W) `{!TcLaws (dv_Run d), !ClockLaws (dv_Run d)}.
Context (node : string) (hosts : gmap string Addr) (start : Time).
Abbreviation dev := (dv_Name d).
Implicit Types (w : W) (rules : gmap Addr Shape).

Lemma Clear_time w : Now w ≤ Now (Clear d w).2.
Proof.
  unfold Clear. pose proof (run_time "tc" (clear_cmd dev) w) as Hl.
  destruct (dv_Run d "tc" (clear_cmd dev) w) as [[out [e|]] w1]; [destruct (is_benign _)|]; exact Hl.
Qed.
Lemma run_cmds_time cmds w : Now w ≤ Now (run_cmds d cmds w).2.
Proof.
  revert w. induction cmds as [|c cmds IH]; intros w; cbn; [lia|]. pose proof (run_time "tc" c w) as Hl.
  destruct (dv_Run d "tc" c w) as [[out [e|]] w1]; cbn in *; [pose proof (Clear_time w1)|pose proof (IH w1)]; lia.
Qed.
Lemma Apply_time rules w : Now w ≤ Now (dev_Apply d rules w).2.
Proof.
  unfold dev_Apply. destruct (Commands dev rules); cbn; [|lia]. pose proof (Clear_time w).
  destruct (Clear d w) as [[e|] w1]; cbn in *; [lia|]. pose proof (run_cmds_time a w1). lia.
Qed.

Lemma wait_until_spec t w r w' : t - Now w ≤ i64_max → wait_until t w = (r, w') →
  tcview w' = tcview w ∧ Now w ≤ Now w' ∧ (r = None → t ≤ Now w').
Proof.
  unfold wait_until. intros Ht. assert (time_Sub t (Now w) = Z.max i64_min (t - Now w)) as -> by (unfold time_Sub; f_equal; lia).
  pose proof (Sleep_tc (Z.max i64_min (t - Now w)) w) as Hv. pose proof (Sleep_time (Z.max i64_min (t - Now w)) w) as Hn.
  destruct (Z.ltb_spec 0 (Z.max i64_min (t - Now w))) as [Hlt|Hge].
  - intros E. rewrite E in Hv, Hn. split_and!; [done..|]. intros ->. apply Sleep_wakes in E. unfold i64_min in *. lia.
  - intros [= <- <-]. split_and!; [done|lia|]. intros _. unfold i64_min in *. lia.
Qed.

Lemma run_group_ok t g rules w log rules' w' : start + t - Now w ≤ i64_max →
  run_group node hosts d start t g rules w = (None, log, rules', w') →
  rules' = fold_left (set_rule hosts) g rules ∧ start + t ≤ Now w' ∧ Now w ≤ Now w'
  ∧ (rules_ok rules' → shaped_as rules' (tcview w' !! dev)).
Proof.
  intros Ht. unfold run_group, time_Add. destruct (wait_until (start + t) w) as [[e|] w1] eqn:E1; [done|].
  apply wait_until_spec in E1 as (Hv & Hn & Hs); [|done]. pose proof (Apply_time (fold_left (set_rule hosts) g rules) w1) as Ha.
  destruct (dev_Apply d _ w1) as [[e|] w2] eqn:E2; [done|]. intros [= _ <- <-]. cbn in Ha. split_and!; [done|specialize (Hs eq_refl); lia|lia|].
  intros Hok. by apply (Apply_shapes d) in E2 as [_ E2].
Qed.

Lemma run_groups_app gs1 gs2 rules w log rules' w' :
  run_groups node hosts d start (gs1 ++ gs2) rules w = (None, log, rules', w') →
  ∃ log1 log2 rules1 w1, log = log1 ++ log2 ∧ run_groups node hosts d start gs1 rules w = (None, log1, rules1, w1)
    ∧ run_groups node hosts d start gs2 rules1 w1 = (None, log2, rules', w').
Proof.
  revert rules w log. induction gs1 as [|[t g] gs1 IH]; intros rules w log; cbn [run_groups app].
  { intros E. by exists [], log, rules, w. }
  destruct (run_group _ _ _ _ _ _ _ _) as [[[[e|] lg] r1] w1]; [done|].
  destruct (run_groups _ _ _ _ (gs1 ++ gs2) r1 w1) as [[[e lg'] r2] w2] eqn:E. intros [= -> <- -> ->].
  apply IH in E as (l1 & l2 & r & w3 & -> & -> & E). exists (lg ++ l1), l2, r, w3. split_and!; [by rewrite app_assoc|done..].
Qed.

Lemma run_groups_rules gs rules w log rules' w' :
  run_groups node hosts d start gs rules w = (None, log, rules', w') → rules' = fold_left (set_rule hosts) (concat gs.*2) rules.
Proof.
  revert rules w log. induction gs as [|[t g] gs IH]; intros rules w log; cbn [run_groups fmap list_fmap concat snd]; [by intros [= _ <- _]|].
  rewrite fold_left_app. unfold run_group. destruct (wait_until _ _) as [[e|] w1]; [done|]. destruct (dev_Apply _ _ _) as [[e|] w2]; [done|].
  destruct (run_groups _ _ _ _ gs _ w2) as [[[e lg'] r2] w3] eqn:E. intros [= -> _ -> ->]. by eapply IH.
Qed.

Lemma run_groups_time gs rules w : (∀ t, t ∈ gs.*1 → start + t - Now w ≤ i64_max) →
  Now w ≤ Now (run_groups node hosts d start gs rules w).2.
Proof.
  revert rules w. induction gs as [|[t g] gs IH]; intros rules w Ht; cbn; [lia|]. unfold run_group, time_Add.
  destruct (wait_until (start + t) w) as [r w1] eqn:E1. apply wait_until_spec in E1 as (_ & Hn & _); [|apply Ht; by left].
  destruct r as [e|]; cbn; [lia|]. pose proof (Apply_time (fold_left (set_rule hosts) g rules) w1) as Ha.
  destruct (dev_Apply _ _ _) as [[e|] w2]; cbn in *; [lia|]. specialize (IH (fold_left (set_rule hosts) g rules) w2).
  destruct (run_groups _ _ _ _ gs _ w2) as [[[e lg'] r2] w3]. cbn in *. etransitivity; [|apply IH; intros t' Ht'; specialize (Ht t' (list_elem_of_further _ _ _ Ht')); lia]. lia.
Qed.

(** The world [w1] is one a run of the scenario passes through, between two of
    its turns. *)
Definition passes (s : Scenario) w w1 w' : Prop :=
  ∃ mine gs1 gs2 log1 log2 rules1 rules2,
    mine_loop s node hosts (sc_Steps s) = Ok mine ∧ groups (SortStableFunc cmp_At mine) = gs1 ++ gs2
    ∧ run_groups node hosts d start gs1 ∅ w = (None, log1, rules1, w1)
    ∧ run_groups node hosts d start gs2 rules1 w1 = (None, log2, rules2, w').

Definition shaped_at (s : Scenario) (t : Duration) w : Prop :=
  ∀ a prio, Is4 a = true → addr_ok a → (prio < 16)%nat → way (tcview w !! dev) a prio = Args <$> in_force s node hosts t a.

(** Every peer of the node has an IPv4 address, and there are no more of them
    than bands. *)
Record runnable (s : Scenario) : Prop := {
  run_valid : scenario_Validate s = None;
  run_int64 : ∀ st, st ∈ sc_Steps s → st_At st < 2 ^ 63;
  run_mine : ∃ st, st ∈ sc_Steps s ∧ st_Node st = node;
  run_hosts : ∀ st, st ∈ sc_Steps s → st_Node st = node → ∃ v, hosts !! st_Peer st = Some (Addr4 v) ∧ fits 32 v;
  run_bands : (size (list_to_set (omap (λ st, hosts !! st_Peer st) (filter (λ st, st_Node st = node) (sc_Steps s))) : gset Addr) ≤ 13)%nat;
}.

Lemma valid_steps s st : scenario_Validate s = None → st ∈ sc_Steps s → 0 ≤ st_At st ∧ shape_Validate (step_Shape st) = None.
Proof.
  unfold scenario_Validate. destruct (String.eqb _ _); [done|]. destruct (sc_Steps s) as [|st0 l]; [done|].
  generalize (st0 :: l). clear. intros l. induction l as [|st' l IH]; [by intros _ ?%not_elem_of_nil|]. cbn [steps_Validate].
  destruct (step_Validate st') eqn:E; [done|]. intros Hl [->|Hin]%elem_of_cons; [|auto]. unfold step_Validate in E.
  repeat case_match; try done. zbool. done.
Qed.

Lemma mine_ok s : runnable s → mine_loop s node hosts (sc_Steps s) = Ok (filter (λ st, st_Node st = node) (sc_Steps s)).
Proof.
  intros [_ _ _ Hh _]. induction (sc_Steps s) as [|st l IH]; [done|]. cbn [mine_loop].
  assert (mine_loop s node hosts l = Ok (filter (λ st, st_Node st = node) l)) as Hl by (apply IH; intros st' ?; apply Hh; by right).
  rewrite filter_cons, Hl. destruct (String.eqb_spec (st_Node st) node) as [E|Hn], (decide (st_Node st = node)); try done; cbn [negb].
  by destruct (Hh st ltac:(by left) E) as (v & -> & _).
Qed.

Lemma sorted_mine s : runnable s →
  SortStableFunc cmp_At (filter (λ st, st_Node st = node) (sc_Steps s)) = sort_by st_At (filter (λ st, st_Node st = node) (sc_Steps s)).
Proof.
  intros Hr. apply sort_At, Forall_forall. intros st [_ Hin]%list_elem_of_filter. split; [by apply (valid_steps s); [apply Hr|]|].
  by apply Hr.
Qed.

(** The rules at any point of a run are valid ones. *)
Lemma rules_valid s l a sh : runnable s → (∀ st, st ∈ l → st ∈ sc_Steps s ∧ st_Node st = node) →
  fold_left (set_rule hosts) l ∅ !! a = Some sh →
  ∃ st v, st ∈ l ∧ hosts !! st_Peer st = Some a ∧ a = Addr4 v ∧ fits 32 v ∧ shape_Validate sh = None.
Proof.
  intros Hr Hl. rewrite set_rules_last; [|intros st Hin; destruct (Hl st Hin) as [H1' H2']; destruct (run_hosts s Hr st H1' H2') as (v & -> & _); by eexists].
  intros (st & Hlast & Hsh)%bind_Some. apply last_Some_elem_of, list_elem_of_filter in Hlast as [Hp Hin].
  destruct (Hl st Hin) as [Hs Hn]. destruct (run_hosts s Hr st Hs Hn) as (v & Hv & Hfit). exists st, v.
  destruct (IsZero _); [done|]. injection Hsh as <-. split_and!; [done..|congruence|done|]. by apply (valid_steps s); [apply Hr|].
Qed.

Lemma rules_are_ok s l : runnable s → (∀ st, st ∈ l → st ∈ sc_Steps s ∧ st_Node st = node) → rules_ok (fold_left (set_rule hosts) l ∅).
Proof. intros Hr Hl a sh Ha. by destruct (rules_valid s l a sh Hr Hl Ha) as (st & v & _ & _ & -> & Hv & _). Qed.

Lemma check_rules_total l : Forall (λ kv, Is4 kv.1 = true ∧ shape_Validate kv.2 = None) l → check_rules l = Ok l.*1.
Proof. induction 1 as [|[a sh] l [H4 Hs] HF IH]; cbn in *; [done|]. by rewrite H4, Hs, IH. Qed.

Lemma Commands_total s l : runnable s → (∀ st, st ∈ l → st ∈ sc_Steps s ∧ st_Node st = node) →
  ∃ cmds, Commands dev (fold_left (set_rule hosts) l ∅) = Ok cmds.
Proof.
  intros Hr Hl. set (rules := fold_left _ _ _). unfold Commands. rewrite check_rules_total; cbn [res_bind].
  - destruct (Nat.eqb_spec (length (range rules).*1) 0); [eauto|].
    destruct (Nat.ltb_spec MaxDestinations (length (range rules).*1)) as [Hlt|]; [|eauto].
    exfalso. rewrite length_fmap, (range_perm rules), length_map_to_list, <- size_dom in Hlt.
    pose proof (run_bands s Hr). unfold MaxDestinations in Hlt. cut (dom rules ⊆ (list_to_set (omap (λ st, hosts !! st_Peer st) (filter (λ st, st_Node st = node) (sc_Steps s))) : gset Addr)).
    { intros Hsub%subseteq_size. lia. }
    intros a [sh Hsh]%elem_of_dom. apply elem_of_list_to_set, list_elem_of_omap.
    destruct (rules_valid s l a sh Hr Hl Hsh) as (st & v & Hin & Hp & _). exists st. split; [|done].
    apply list_elem_of_filter. by destruct (Hl st Hin).
  - rewrite (range_perm rules). apply Forall_forall. intros [a sh] Hin%elem_of_map_to_list.
    by destruct (rules_valid s l a sh Hr Hl Hin) as (st & v & _ & _ & -> & _ & Hv).
Qed.

Lemma run_groups_completes `{!TcWorks (dv_Run d)} s done gs w : (∀ t w, (Sleep t w).1 = None) → runnable s →
  (∀ st, st ∈ done ++ concat gs.*2 → st ∈ sc_Steps s ∧ st_Node st = node) →
  ∃ log rules' w', run_groups node hosts d start gs (fold_left (set_rule hosts) done ∅) w = (None, log, rules', w').
Proof.
  intros Hsl Hr. revert done w. induction gs as [|[t g] gs IH]; intros done w Hin; cbn [run_groups]; [eauto|].
  cbn [fmap list_fmap concat snd] in Hin. unfold run_group.
  assert (∃ w1, wait_until (time_Add start t) w = (None, w1)) as [w1 ->].
  { unfold wait_until. destruct (_ <? _); [|eauto]. specialize (Hsl (time_Sub (time_Add start t) (Now w)) w).
    destruct (Sleep _ w) as [r w1]. cbn in Hsl. rewrite Hsl. eauto. }
  rewrite <- fold_left_app. destruct (Commands_total s (done ++ g) Hr) as [cmds Hc].
  { intros st Hst. apply Hin. rewrite app_assoc. apply elem_of_app. by left. }
  destruct (Apply_works d _ _ w1 Hc) as [w2 ->]. destruct (IH (done ++ g) w2) as (log & rules' & w' & ->); [|eauto].
  by rewrite <- app_assoc.
Qed.

Lemma Duration_bound s st : st ∈ sc_Steps s → st_At st ≤ scenario_Duration s.
Proof.
  unfold scenario_Duration. generalize 0. induction (sc_Steps s) as [|st' l IH]; intros m; [by intros ?%not_elem_of_nil|]. cbn.
  assert (∀ l m, m ≤ fold_left (λ d st, Z.max d (st_At st)) l m) as Hm.
  { clear. intros l. induction l as [|x l IHl]; intros m; cbn; [lia|]. specialize (IHl (Z.max m (st_At x))). lia. }
  intros [->|Hin]%elem_of_cons; [|by apply IH]. specialize (Hm l (Z.max m (st_At st'))). lia.
Qed.

(** A group of a finished run: the state right after it. *)
Lemma group_reached s gs1 t g gs2 w log rules w' : runnable s → start + scenario_Duration s - Now w ≤ i64_max →
  let mine := filter (λ st, st_Node st = node) (sc_Steps s) in
  groups (sort_by st_At mine) = gs1 ++ (t, g) :: gs2 →
  run_groups node hosts d start (gs1 ++ (t, g) :: gs2) ∅ w = (None, log, rules, w') →
  ∃ w1, passes s w w1 w' ∧ start + t ≤ Now w1 ∧ shaped_at s t w1 ∧ (gs2 = [] → w1 = w').
Proof.
  intros Hr Hd mine Eg. pose proof (mine_ok s Hr) as Hm. fold mine in Hm.
  assert (∀ t', t' ∈ (gs1 ++ (t, g) :: gs2).*1 → start + t' - Now w ≤ i64_max) as Ht.
  { intros t' ([t2 g2] & -> & Hin)%list_elem_of_fmap. rewrite <- Eg in Hin.
    destruct (groups_times (sort_by st_At mine)) as (HF & _); [apply sort_by_sorted|]. rewrite Forall_forall in HF.
    destruct (HF _ Hin) as [Hne HF2]. cbn in *. destruct g2 as [|st g2]; [done|]. apply Forall_cons in HF2 as [<- _].
    assert (st ∈ sc_Steps s) as Hst%Duration_bound; [|lia].
    assert (st ∈ concat (groups (sort_by st_At mine)).*2) as Hc.
    { apply elem_of_concat. exists (st :: g2). split; [by left|]. apply list_elem_of_fmap. by exists (st_At st, st :: g2). }
    rewrite groups_concat, sort_by_perm in Hc. by apply list_elem_of_filter in Hc as [_ ?]. }
  replace (gs1 ++ (t, g) :: gs2) with ((gs1 ++ [(t, g)]) ++ gs2) by by rewrite <- app_assoc.
  intros (l1 & l2 & r1 & w1 & -> & E1 & E2)%run_groups_app. exists w1.
  split; [exists mine, (gs1 ++ [(t, g)]), gs2, l1, l2, r1, rules; rewrite <- app_assoc; cbn; unfold mine; by rewrite (sorted_mine s Hr)|].
  pose proof (run_groups_rules _ _ _ _ _ _ E1) as Hr1. rewrite (groups_prefix _ _ _ _ _ (sort_by_sorted _ _) Eg) in Hr1.
  apply run_groups_app in E1 as (l3 & l4 & r0 & w0 & _ & E0 & E1). cbn [run_groups] in E1.
  destruct (run_group _ _ _ _ _ _ r0 w0) as [[[[e|] lg] r] w2] eqn:E; [done|]. injection E1 as _ -> ->.
  pose proof (run_groups_time gs1 ∅ w) as Hn. rewrite E0 in Hn. cbn in Hn.
  assert (start + t - Now w0 ≤ i64_max) as Hw0.
  { assert (start + t - Now w ≤ i64_max) by (apply Ht; rewrite fmap_app; apply elem_of_app; right; by left).
    assert (Now w ≤ Now w0); [|lia]. apply Hn. intros t' Hin. apply Ht. rewrite fmap_app. apply elem_of_app. by left. }
  apply run_group_ok in E as (_ & Hs & _ & Hsh); [|done]. split_and!; [done| |intros ->; cbn in E2; by injection E2].
  intros a prio H4 Ha Hp. rewrite <- (rules_in_force s node hosts mine t a Hm), <- Hr1. apply Hsh; [|done..]. rewrite Hr1.
  apply (rules_are_ok s); [done|]. intros st [_ Hin]%list_elem_of_filter. rewrite sort_by_perm in Hin.
  by apply list_elem_of_filter in Hin as [? ?].
Qed.

(** After the last group nothing changes any more. *)
Lemma in_force_end s gs1 t g a :
  groups (sort_by st_At (filter (λ st, st_Node st = node) (sc_Steps s))) = gs1 ++ [(t, g)] →
  in_force s node hosts t a = in_force s node hosts (scenario_Duration s) a.
Proof.
  intros Eg. unfold in_force. do 2 f_equal. apply list_filter_ext. intros st Hst. unfold concerns_at.
  split; intros (Hn & Hh & Ht); split_and!; try done; [by apply Duration_bound|].
  pose proof (groups_prefix _ _ _ _ _ (sort_by_sorted _ _) Eg) as Hp. rewrite <- Eg, groups_concat in Hp.
  assert (st ∈ sort_by st_At (filter (λ st, st_Node st = node) (sc_Steps s))) as Hin.
  { rewrite sort_by_perm. by apply list_elem_of_filter. }
  rewrite Hp in Hin. by apply list_elem_of_filter in Hin as [? _].
Qed.

End scenario.

(** ** A host with tc on it *)

Module NetemDemo.

(** Durations in whole milliseconds or seconds and floats that are integers or
    NaN are enough here. *)
Definition parse_units (s : string) : option Duration :=
  if HasSuffix s "ms" then (λ n, n * Millisecond) <$> ParseInt (TrimSuffix s "ms")
  else if HasSuffix s "s" then (λ n, n * Second) <$> ParseInt (TrimSuffix s "s") else None.
#[export] Instance some_text : NumText := {|
  ParseDuration := parse_units;
  Duration_String d := Itoa (Z.quot d Millisecond) +:+ "ms";
  ParseFloat s := if String.eqb s "nan" || String.eqb s "NaN" then Some NaN else of_int <$> ParseInt s;
  FormatFloat x := Itoa (to_int x);
|}.

#[export] Instance some_order : Range := {| range K _ _ V m := map_to_list m |}.
#[export] Instance some_order_laws : RangeLaws.
Proof. split. done. Qed.

Record host := mkHost { hs_tc : tcstate; hs_now : Time }.
Definition host_run : Runner host := λ name args h,
  let later v := mkHost v (hs_now h + Millisecond) in
  match tc_parse args with
  | None => ("", None, later (hs_tc h))
  | Some c =>
      if bool_decide (tc_can c (hs_tc h)) then ("", None, later (tc_effect c (hs_tc h)))
      else ("Error: Invalid handle.", Some "exit status 2", later (hs_tc h))
  end.
#[export] Instance host_clock : Clock host := {| Now := hs_now; Sleep t h := (None, mkHost (hs_tc h) (hs_now h + Z.max 0 t)) |}.

#[export] Instance host_laws : TcLaws host_run.
Proof.
  refine {| tcview := hs_tc |}.
  - intros args c h out h' Hr Hp. unfold host_run in Hr. rewrite Hp in Hr. case_bool_decide; by simplify_eq/=.
  - intros args c h out e h' Hr Hp. unfold host_run in Hr. rewrite Hp in Hr. case_bool_decide; by simplify_eq/=.
  - intros dev h out e h' Hr _. unfold host_run in Hr. change (tc_parse (clear_cmd dev)) with (Some (TcDel dev)) in Hr. cbn [tc_can] in Hr.
    case_bool_decide as Hs; simplify_eq/=. by apply eq_None_not_Some.
Defined.
#[export] Instance host_works : TcWorks host_run.
Proof.
  split.
  - intros args c h Hp Hc. unfold host_run. rewrite Hp, bool_decide_true by done. eauto.
  - intros dev h Hn. unfold host_run. change (tc_parse (clear_cmd dev)) with (Some (TcDel dev)). cbn [tc_can].
    rewrite bool_decide_false by (cbn in Hn; rewrite Hn; by intros [? ?]). do 3 eexists. split; [done|]. reflexivity.
Qed.
#[export] Instance host_clock_laws : ClockLaws host_run.
Proof.
  split.
  - intros t h h' Hs. cbn in Hs. injection Hs as <-. cbn. lia.
  - intros t h. cbn. lia.
  - done.
  - intros name args h. unfold host_run. destruct (tc_parse args) as [c|]; [case_bool_decide|]; cbn; unfold Millisecond, Microsecond; lia.
Qed.

Definition peers : gmap string Addr := {["gw1" := Addr4 3221225995; "gw2" := Addr4 3221225996]}.
(** The path to gw1 gets slow, a second later that to gw2 lossy; then the first
    one recovers. The steps are not written in the order of their times. *)
Definition slow_then_lossy : Scenario := mkScenario "slow-then-lossy" "" ""
  [mkStep (2 * Second) "client" "gw1" 0 0 f0 "" true;
   mkStep 0 "client" "gw1" (80 * Millisecond) (5 * Millisecond) f0 "" false;
   mkStep Second "client" "gw2" 0 0 (of_int 3) "10mbit" false;
   mkStep Second "gw1" "gw2" (10 * Millisecond) 0 f0 "" false].
Definition eth0 : Device host := mkDevice "eth0" host_run.
Definition booted : host := mkHost ∅ 0.

Lemma demo_runnable : runnable "client" peers slow_then_lossy.
Proof.
  split.
  - vm_compute. reflexivity.
  - apply Forall_forall. cbn [sc_Steps slow_then_lossy]. repeat (apply Forall_cons; split; [vm_compute; reflexivity|]). by apply Forall_nil.
  - eexists. split; [by left|done].
  - intros st Hst. repeat (apply elem_of_cons in Hst as [->|Hst]; [intros Hn; vm_compute in Hn; (discriminate || (eexists; split; [vm_compute; reflexivity|by vm_compute]))|]).
    by apply not_elem_of_nil in Hst.
  - apply Nat.leb_le. vm_compute. reflexivity.
Qed.

Example shaped_in_between :
  in_force slow_then_lossy "client" peers Second (Addr4 3221225995) = Some (mkShape (80 * Millisecond) (5 * Millisecond) f0 "")
  ∧ in_force slow_then_lossy "client" peers (2 * Second) (Addr4 3221225995) = None.
Proof. vm_compute. by split. Qed.

Lemma never_woken t (h : host) : (Sleep t h).1 = None.
Proof. reflexivity. Qed.


(** *** Shapes that are not checked *)

(** A loss that is not a number passes for a percentage, and no loss is set. *)
Lemma loss_nan_accepted : ∃ s, ParseShape "loss=nan" = Ok s ∧ Args s = ["delay"; "0ms"] ∧ IsZero s = false.
Proof. exists (mkShape 0 0 NaN ""). split_and!; vm_compute; reflexivity. Qed.
(** So does a negative rate, or one that is not a number. *)
Lemma odd_rates_accepted : rateRE "-5mbit" = true ∧ rateRE "NaNmbit" = true.
Proof. vm_compute. by split. Qed.

End NetemDemo.
