(* ===== verification/Vpnctl.v ===== *)
(** * The operator's tool: cmd/vpnctl/main.go

    Package flag as far as it is used, the netem commands and the trace command
    up to what is printed. The theorem is that a scenario that is interrupted or
    fails leaves no shaping of its own behind. *)

From S2P Require Import Prelude GoStrings GoFloat Netip IpsecConfig IpsecRender ClientAgent HostNet Tracing Netem.

(** ** Package flag *)

(** [FlagSet.Parse] for flags that take a value: [flag] gives what setting one
    does, [None] for a flag that is not defined. *)
Section flags.
Context {F : Type} (flag : string → option (string → F → res error F)).

Definition minus : Ascii.ascii := Ascii.ascii_of_nat 45.
Definition equals : Ascii.ascii := Ascii.ascii_of_nat 61.
(** What follows one or two dashes; [None] is an argument that is no flag. *)
Definition dashed (s : string) : option string :=
  match s with
  | String c (String c' r) =>
      if Ascii.eqb c minus then Some (if Ascii.eqb c' minus then r else String c' r) else None
  | _ => None
  end.
Definition set_flag (name value : string) (f : F) : res error F :=
  match flag name with
  | Some set => res_map_err (ErrWrap ("invalid value for flag -" +:+ name)) (set value f)
  | None => Err (if String.eqb name "help" || String.eqb name "h" then ErrText "flag: help requested"
                 else ErrText ("flag provided but not defined: -" +:+ name))
  end.
Fixpoint flag_Parse (args : list string) (f : F) : res error (F * list string) :=
  match args with
  | [] => Ok (f, [])
  | s :: rest =>
      match dashed s with
      | None => Ok (f, args)
      | Some name =>
          if String.eqb s "--" then Ok (f, rest) else
          match name with
          | EmptyString => Err (ErrText ("bad flag syntax: " +:+ s))
          | String c _ =>
              if Ascii.eqb c minus || Ascii.eqb c equals then Err (ErrText ("bad flag syntax: " +:+ s)) else
              match Cut equals name with
              | Some (name, value) => try f := set_flag name value f in flag_Parse rest f
              | None =>
                  match flag name, rest with
                  | None, _ => try f := set_flag name "" f in Ok (f, rest)
                  | Some _, [] => Err (ErrText ("flag needs an argument: -" +:+ name))
                  | Some _, value :: rest => try f := set_flag name value f in flag_Parse rest f
                  end
              end
          end
      end
  end.
End flags.

(** What the tool uses of the standard library without looking inside. *)
Class CtlText := {
  ctl_ParseAddr : string → option Addr;
  (** strconv.ParseInt(s, 0, 64) *)
  ctl_ParseInt0 : string → option Z;
  ctl_RFC3339 : Time → string;
  ctl_decode : string → option Scenario;
  (** json.Unmarshal into a map *)
  ctl_object : string → option (gmap string jvalue);
  ctl_format_g : float64 → string;
}.

Definition errUsage : error := ErrText "see vpnctl help".
(** [time.Unix(n, 0)] *)
Definition time_Unix (n : Z) : Time := (n + 62135596800) * Second.

Section netem.
Context {W : Type} `{!NumText, !CtlText, !Range, !Clock W, !Shell W}.
Implicit Types w : W.

Definition rules_Set (v : string) (r : gmap Addr Shape) : res error (gmap Addr Shape) :=
  match Cut (Ascii.ascii_of_nat 58) v with
  | None => Err (ErrText ("rule " +:+ v +:+ " must be IP:SHAPE"))
  | Some (ip, spec) =>
      match ctl_ParseAddr ip with
      | None => Err (ErrText ("ParseAddr " +:+ ip))
      | Some a => try s := ParseShape spec in Ok (<[a := s]> r)
      end
  end.

Record netem_flags := mkNetemFlags {
  nf_dev : string; nf_rules : gmap Addr Shape; nf_scenario : string; nf_node : string; nf_hosts : string; nf_start : Z;
}.
Definition netem_flag (cmd : string) (name : string) : option (string → netem_flags → res error netem_flags) :=
  if String.eqb name "dev" then Some (λ v f, Ok (mkNetemFlags v (nf_rules f) (nf_scenario f) (nf_node f) (nf_hosts f) (nf_start f)))
  else if String.eqb name "scenario" then Some (λ v f, Ok (mkNetemFlags (nf_dev f) (nf_rules f) v (nf_node f) (nf_hosts f) (nf_start f)))
  else if String.eqb name "node" then Some (λ v f, Ok (mkNetemFlags (nf_dev f) (nf_rules f) (nf_scenario f) v (nf_hosts f) (nf_start f)))
  else if String.eqb name "hosts" then Some (λ v f, Ok (mkNetemFlags (nf_dev f) (nf_rules f) (nf_scenario f) (nf_node f) v (nf_start f)))
  else if String.eqb name "start" then
    Some (λ v f, match ctl_ParseInt0 v with
                 | None => Err (ErrText "parse error")
                 | Some n => Ok (mkNetemFlags (nf_dev f) (nf_rules f) (nf_scenario f) (nf_node f) (nf_hosts f) n)
                 end)
  else if String.eqb name "rule" && String.eqb cmd "apply" then
    Some (λ v f, try r := rules_Set v (nf_rules f) in
                 Ok (mkNetemFlags (nf_dev f) r (nf_scenario f) (nf_node f) (nf_hosts f) (nf_start f)))
  else None.

(** The runner that notes whether something was added, in a world with that note. *)
Definition adds_qdisc (name : string) (args : list string) : bool :=
  String.eqb name "tc" && match args with a :: b :: _ => String.eqb a "qdisc" && String.eqb b "add" | _ => false end.
Definition watched (run : Runner W) : Runner (W * bool) := λ name args '(w, shaped),
  let '(out, err, w') := run name args w in (out, err, (w', adds_qdisc name args || shaped)).
#[export] Instance watched_Clock : Clock (W * bool) := {
  Now p := Now p.1;
  Sleep t p := let '(e, w') := Sleep t p.1 in (e, (w', p.2));
}.

(** Running a scenario that has been read. *)
Definition netem_run (runner : Runner W) (dev : string) (s : Scenario) (node : string) (h : gmap string Addr) (start : Time) (w : W)
  : option error * list string * W :=
  let hello := "scenario " +:+ sc_Name s +:+ " on " +:+ node +:+ " (" +:+ dev +:+ "), starting " +:+ ctl_RFC3339 start +:+ ", "
               +:+ Duration_String (scenario_Duration s) +:+ " long" in
  let d := mkDevice dev (watched runner) in
  match Run s node h d start (w, false) with
  | (Some e, log, (w, true)) =>
      match Clear d (w, true) with
      | (Some ce, (w, _)) => (Some (ErrJoin [e; ErrWrap ("could not remove the shaping from " +:+ dev) ce]), hello :: log, w)
      | (None, (w, _)) => (Some e, hello :: log ++ ["stopped: removed the shaping from " +:+ dev], w)
      end
  | (e, log, (w, _)) => (e, hello :: log, w)
  end.

(** The error, what is printed, and the world. *)
Definition cmdNetem (runner : Runner W) (args : list string) (w : W) : option error * list string * W :=
  match args with
  | [] => (Some (ErrText "usage: vpnctl netem apply|clear|show|run ..."), [], w)
  | cmd :: args =>
      match flag_Parse (netem_flag cmd) args (mkNetemFlags "" ∅ "" "" "" 0) with
      | Err e => (Some e, [], w)
      | Ok (f, _) =>
          if String.eqb (nf_dev f) "" then (Some (ErrText "--dev is required"), [], w) else
          let d := mkDevice (nf_dev f) runner in
          if String.eqb cmd "apply" then
            if (size (nf_rules f) =? 0)%nat then (Some (ErrText "give at least one --rule IP:SHAPE (or use clear)"), [], w)
            else let '(e, w) := dev_Apply d (nf_rules f) w in (e, [], w)
          else if String.eqb cmd "clear" then let '(e, w) := Clear d w in (e, [], w)
          else if String.eqb cmd "show" then
            match Show d w with (Err e, w) => (Some e, [], w) | (Ok out, w) => (None, [out], w) end
          else if String.eqb cmd "run" then
            if String.eqb (nf_scenario f) "" || String.eqb (nf_node f) "" || String.eqb (nf_hosts f) ""
            then (Some (ErrText "run needs --scenario, --node and --hosts"), [], w) else
            match scenario_Load ctl_decode (nf_scenario f) w with
            | Err e => (Some e, [], w)
            | Ok s =>
                match ParseHosts ctl_ParseAddr (nf_hosts f) with
                | Err e => (Some e, [], w)
                | Ok h => netem_run runner (nf_dev f) s (nf_node f) h (if 0 <? nf_start f then time_Unix (nf_start f) else Now w) w
                end
            end
          else (Some (ErrText ("unknown netem command " +:+ cmd)), [], w)
      end
  end.

(** ** vpnctl trace, up to the migrations that are printed *)

(** Lines of a bufio.Scanner with room for 4 MiB: an end of line may have a
    carriage return, a line that does not fit ends the scan with an error. *)
Definition strip_cr (s : string) : string := TrimSuffix s (String (Ascii.ascii_of_nat 13) "").
Definition text_lines (s : string) : list string :=
  let l := Split GoStrings.newline s in if bool_decide (last l = Some "") then take (length l - 1) l else l.
Definition brace : Ascii.ascii := Ascii.ascii_of_nat 123.
Definition span_of_line (TP : TimeText) (line : string) : option SpanRecord :=
  match Cut brace line with
  | None => None
  | Some (_, rest) => m ← ctl_object (String brace rest); read_span ctl_format_g m
  end.
Definition ReadSpans (TP : TimeText) (text : string) : res error (list SpanRecord) :=
  let fits_ line := (Z.of_nat (String.length line) <? 4 * 2 ^ 20) in
  if forallb fits_ (text_lines text) then Ok (omap (span_of_line TP) (strip_cr <$> text_lines text))
  else Err (ErrText "bufio.Scanner: token too long").

Fixpoint read_logs (TP : TimeText) (stdin : string) (paths : list string) (w : W) : res error (list SpanRecord) :=
  match paths with
  | [] => Ok []
  | path :: paths =>
      try text := (if String.eqb path "-" then Ok stdin
                   else match ReadFile path w with Some text => Ok text | None => Err (ErrText ("open " +:+ path)) end) in
      try s := res_map_err (ErrWrap path) (ReadSpans TP text) in
      try rest := read_logs TP (if String.eqb path "-" then "" else stdin) paths w in Ok (s ++ rest)
  end.
Definition trace_flag (name : string) : option (string → string → res error string) :=
  if String.eqb name "session" then Some (λ v _, Ok v) else None.
Definition cmdTrace (TP : TimeText) (stdin : string) (args : list string) (w : W) : res error (list Migration) :=
  try (session, paths) := flag_Parse trace_flag args "" in
  if (length paths =? 0)%nat then Err (ErrText "usage: vpnctl trace [--session ID] <log>...")
  else
    try spans := read_logs TP stdin paths w in
    let ms := Migrations spans in
    Ok (if String.eqb session "" then ms else filter (λ m, mg_Session m = session) ms).
End netem.

(** ** A run that ends early *)

Section clean.
Context {W : Type} `{!NumText, !CtlText, !Range, !RangeLaws, !Clock W} (runner : Runner W) `{!TcLaws runner, !ClockLaws runner}.
Context (dev : string).
Implicit Types (w : W) (p : W * bool).

#[local] Instance watched_laws : TcLaws (watched runner).
Proof.
  refine {| tcview p := tcview p.1 |}.
  - intros args c [w b] out [w' b'] Hw Hp. unfold watched in Hw. destruct (runner "tc" args w) as [[o e] w1] eqn:E.
    injection Hw as -> -> -> _. by eapply tc_ok.
  - intros args c [w b] out e [w' b'] Hw Hp. unfold watched in Hw. destruct (runner "tc" args w) as [[o e'] w1] eqn:E.
    injection Hw as -> -> -> _. by eapply tc_failed.
  - intros dv [w b] out e [w' b'] Hw Hb. unfold watched in Hw. destruct (runner "tc" _ w) as [[o e'] w1] eqn:E.
    injection Hw as -> -> -> _. by eapply tc_nothing.
Defined.

(** The shaping there was, and a note that nothing was added since. *)
Definition untouched (v : option qtree) p : Prop := p.2 = false → tcview p.1 !! dev = v ∨ tcview p.1 !! dev = None.
Abbreviation d := (mkDevice dev (watched runner)).

Lemma watched_note name args p : (watched runner name args p).2.2 = adds_qdisc name args || p.2.
Proof. destruct p as [w b]. unfold watched. by destruct (runner name args w) as [[o e] w1]. Qed.
Lemma Clear_note p : (Clear d p).2.2 = p.2.
Proof.
  unfold Clear. cbn [dv_Run dv_Name]. pose proof (watched_note "tc" (clear_cmd dev) p) as Hn.
  destruct (watched runner "tc" (clear_cmd dev) p) as [[out [e|]] p1]; [destruct (is_benign _)|]; exact Hn.
Qed.
Lemma Clear_untouched v p : untouched v p → untouched v (Clear d p).2.
Proof.
  intros Hp Hf. pose proof (Clear_note p) as Hn. destruct (Clear d p) as [[e|] p1] eqn:E; cbn in *.
  - apply (Clear_failed d) in E. unfold untouched in Hp. cbn in E. rewrite E. apply Hp. congruence.
  - apply (Clear_ok d) in E. cbn in E. rewrite E, lookup_delete_eq. by right.
Qed.
Lemma run_cmds_noted cmds p : p.2 = true → (run_cmds d cmds p).2.2 = true.
Proof.
  revert p. induction cmds as [|c cmds IH]; intros p Hp; cbn [run_cmds dv_Run]; [done|].
  pose proof (watched_note "tc" c p) as Hn. rewrite Hp, orb_true_r in Hn.
  destruct (watched runner "tc" c p) as [[out [e|]] p1]; cbn in Hn; [|by apply IH]. cbn [snd]. by rewrite Clear_note.
Qed.
(** The first command that can add something is noted. *)
Lemma Apply_untouched v rules p : untouched v p → untouched v (dev_Apply d rules p).2.
Proof.
  intros Hp. unfold dev_Apply. destruct (Commands _ rules) as [cmds|] eqn:Ec; [|done]. cbn [dv_Name] in Ec.
  pose proof (Clear_untouched v p Hp) as Hc. destruct (Clear d p) as [[e|] p1]; [done|].
  apply (Commands_ok d) in Ec as [[-> _]|(dsts & _ & _ & _ & _ & ->)]; [done|].
  intros Hf. exfalso. cbn [run_cmds dv_Run dv_Name] in Hf. pose proof (watched_note "tc" (prio_cmd dev (length dsts)) p1) as Hn.
  change (adds_qdisc "tc" (prio_cmd dev (length dsts))) with true in Hn. cbn [orb] in Hn.
  destruct (watched runner "tc" (prio_cmd dev (length dsts)) p1) as [[out [e|]] p2]; cbn in Hn.
  - cbn [snd] in Hf. rewrite Clear_note in Hf. congruence.
  - rewrite run_cmds_noted in Hf; done.
Qed.

Lemma run_groups_untouched v node hosts start gs rules p : untouched v p → untouched v (run_groups node hosts d start gs rules p).2.
Proof.
  revert rules p. induction gs as [|[t g] gs IH]; intros rules p Hp; cbn [run_groups]; [done|]. unfold run_group.
  assert (untouched v (wait_until (time_Add start t) p).2) as Hw.
  { unfold wait_until. destruct (_ <? _); [|done]. cbn. pose proof (Sleep_tc (time_Sub (time_Add start t) (Now p.1)) p.1) as Hs.
    destruct (Sleep _ p.1) as [e w']. cbn in *. unfold untouched. cbn. by rewrite Hs. }
  destruct (wait_until _ p) as [[e|] p1]; [done|]. pose proof (Apply_untouched v (fold_left (set_rule hosts) g rules) p1 Hw) as Ha.
  destruct (dev_Apply d _ p1) as [[e|] p2]; [done|]. specialize (IH (fold_left (set_rule hosts) g rules) p2 Ha).
  by destruct (run_groups _ _ _ _ gs _ p2) as [[[e lg] r] p3].
Qed.

(** A scenario that fails or is interrupted half-way leaves none of its own
    shaping behind: when the run ends with an error, the device is as it was
    before or not shaped at all, unless the tool says that it could not remove
    the shaping. *)
Theorem failed_run_leaves_nothing s node h start w e log w' :
  netem_run runner dev s node h start w = (Some e, log, w') →
  tcview w' !! dev = tcview w !! dev ∨ tcview w' !! dev = None
  ∨ ∃ e1 e2, e = ErrJoin [e1; ErrWrap ("could not remove the shaping from " +:+ dev) e2].
Proof.
  unfold netem_run. assert (untouched (tcview w !! dev) (Run s node h d start (w, false)).2) as Hu.
  { unfold Run. destruct (mine_loop _ _ _ _) as [[|st mine]|]; try (intros _; by left).
    pose proof (run_groups_untouched (tcview w !! dev) node h start (groups (SortStableFunc cmp_At (st :: mine))) ∅ (w, false)) as Hr.
    destruct (run_groups _ _ _ _ _ _ _) as [[[? ?] ?] ?]. apply Hr. intros _. by left. }
  destruct (Run s node h d start (w, false)) as [[[er|] lg] [w1 []]]; cbn in Hu; [| |done|done].
  - destruct (Clear d (w1, true)) as [[ce|] [w2 b]] eqn:E; intros [= <- _ <-]; [right; right; eauto|].
    apply (Clear_ok d) in E. cbn in E. rewrite E, lookup_delete_eq. auto.
  - intros [= _ _ <-]. destruct (Hu eq_refl); auto.
Qed.
End clean.

Module VpnctlDemo.
Import NetemDemo.

#[export] Instance some_ctl : CtlText := {|
  ctl_ParseAddr s := if String.eqb s "192.0.2.11" then Some (Addr4 3221225995) else None;
  ctl_ParseInt0 := ParseInt;
  ctl_RFC3339 t := Itoa t;
  ctl_decode s := if String.eqb s "slow" then Some slow_then_lossy else None;
  ctl_object _ := None;
  ctl_format_g x := FormatFloat x;
|}.
#[export] Instance some_shell : Shell host := {|
  sh _ _ h := ("", ExitCode 0, h);
  WriteFile _ _ h := (true, h);
  ReadFile path _ := if String.eqb path "slow.json" then Some "slow" else None;
|}.

Example apply_prints :
  let '(e, out, h) := cmdNetem host_run ["apply"; "--dev"; "eth0"; "-rule=192.0.2.11:delay=80ms, loss=1%"] booted in
  e = None ∧ out = [] ∧ way (hs_tc h !! "eth0") (Addr4 3221225995) 3 = Some ["delay"; "80ms"; "loss"; "1%"].
Proof. vm_compute. by split_and!. Qed.

(** The second host of the scenario has no IPv4 address: the run fails when it
    gets there, after gw1 was shaped. *)
Definition one_v6 : gmap string Addr := {["gw1" := Addr4 3221225995; "gw2" := Addr6 1]}.
Definition stopped := netem_run host_run "eth0" slow_then_lossy "client" one_v6 1000 booted.
Example stopped_late : stopped.1.1 = Some (ErrText "netem: ::1: only IPv4 destinations are supported") ∧ length stopped.1.2 = 3%nat.
Proof. vm_compute. by split. Qed.

Lemma failed_run_leaves_nothing_witness :
  let h' := stopped.2 in
  hs_tc h' !! "eth0" = None ∨ ∃ e1 e2, stopped.1.1 = Some (ErrJoin [e1; ErrWrap "could not remove the shaping from eth0" e2]).
Proof.
  destruct stopped as [[[e|] log] h'] eqn:E; [|apply (f_equal (λ r, r.1.1)) in E; by vm_compute in E].
  destruct (failed_run_leaves_nothing host_run "eth0" slow_then_lossy "client" one_v6 1000 booted e log h' E) as [Hv|[Hv|(e1 & e2 & ->)]].
  - left. cbn. rewrite <- (lookup_empty (M := gmap string) (A := qtree) "eth0"). exact Hv.
  - by left.
  - right. by exists e1, e2.
Defined.

End VpnctlDemo.
