(* ===== verification/Etcd.v ===== *)
(** * The etcd store: internal/control/etcdstore.go

    The etcd client is the class [EtcdClient]: gets, puts and a transaction with
    one comparison. [EtcdLaws] is what etcd documents of them: one revision
    counter for the whole store, raised by every write; a key's create and mod
    revisions; and that a transaction is atomic. The store is shown to keep the
    laws of the interface, and to be indistinguishable from [MemStore] for a
    client that only hands revisions back. *)

From S2P Require Import Prelude Store Ownership.

Record etcd_kv := mkEtcdKV { ek_Key : string; ek_Value : bytes; ek_CreateRevision : Z; ek_ModRevision : Z }.
Inductive etcd_cmp := CmpCreate (key : string) (rev : Z) | CmpMod (key : string) (rev : Z).
(** The response of a transaction; a response that is no range is [None]. *)
Record etcd_txn := mkTxn { tx_Succeeded : bool; tx_Revision : Z; tx_Responses : list (option (list etcd_kv)) }.

Class EtcdClient (S : Type) := {
  (** [WithPrefix] when the flag is set; [None] is an error *)
  etcd_Get : string → bool → S → option (list etcd_kv);
  etcd_Put : string → bytes → option Z → S → S * bool;
  (** If(cmp).Then(OpPut(key, value)).Else(OpGet(key)) *)
  etcd_Txn : etcd_cmp → string → bytes → S → S * option etcd_txn;
}.

Inductive etcd_event_type := EventTypePut | EventTypeDelete.

Section store.
Context {S : Type} `{!EtcdClient S}.

Record EtcdStore := mkEtcd { client : S }.
Definition NewEtcdStore (c : S) : EtcdStore := mkEtcd c.

Definition failed {A} (what key : string) : res store_error A := Err (StoreFailure ("control: etcd " +:+ what +:+ " " +:+ key)).

Definition et_Put (key : string) (value : bytes) (e : EtcdStore) : EtcdStore * option store_error :=
  let '(c, ok) := etcd_Put key value None (client e) in
  (mkEtcd c, if ok : bool then None else Some (StoreFailure ("control: etcd put " +:+ key))).

Definition et_Get (key : string) (e : EtcdStore) : res store_error (option bytes) :=
  match etcd_Get key false (client e) with
  | None => failed "get" key
  | Some [] => Ok None
  | Some (kv :: _) => Ok (Some (ek_Value kv))
  end.

Definition et_List (prefix : string) (e : EtcdStore) : res store_error (gmap string bytes) :=
  match etcd_Get prefix true (client e) with
  | None => failed "list" prefix
  | Some kvs => Ok (fold_left (λ out kv, <[ek_Key kv := ek_Value kv]> out) kvs ∅)
  end.

(** What [Watch] sends on for an event of etcd. *)
Definition et_event (t : etcd_event_type) (kv : etcd_kv) : Event :=
  match t with
  | EventTypeDelete => mkEvent (ek_Key kv) [] true
  | EventTypePut => mkEvent (ek_Key kv) (ek_Value kv) false
  end.
(** Its goroutine: the responses received until the channel is closed, and how
    many events could be sent before the context ended. *)
Definition et_Watch (resps : list (list (etcd_event_type * etcd_kv))) (sent : nat) : list Event :=
  take sent ((λ ev, et_event ev.1 ev.2) <$> concat resps).

Definition et_Revision (key : string) (e : EtcdStore) : res store_error (option Z) :=
  match etcd_Get key false (client e) with
  | None => failed "revision" key
  | Some [] => Ok None
  | Some (kv :: _) => Ok (Some (ek_ModRevision kv))
  end.

Definition et_CompareAndSwap (key : string) (expectedRevision : Z) (value : bytes) (e : EtcdStore)
  : EtcdStore * res store_error (Z * bool) :=
  let cmp := if expectedRevision =? 0 then CmpCreate key 0 else CmpMod key expectedRevision in
  match etcd_Txn cmp key value (client e) with
  | (c, None) => (mkEtcd c, failed "compare-and-swap" key)
  | (c, Some resp) =>
      if negb (tx_Succeeded resp) then
        let cur := match tx_Responses resp with
                   | Some (kv :: _) :: _ => ek_ModRevision kv
                   | _ => 0
                   end in
        (mkEtcd c, Ok (cur, false))
      else (mkEtcd c, Ok (tx_Revision resp, true))
  end.

Definition PutWithLease (key : string) (value : bytes) (leaseID : Z) (e : EtcdStore) : EtcdStore * option store_error :=
  let '(c, ok) := etcd_Put key value (Some leaseID) (client e) in
  (mkEtcd c, if ok : bool then None else Some (StoreFailure ("control: etcd put-with-lease " +:+ key))).

#[export] Instance EtcdStore_KVStore : KVStore EtcdStore := { kv_Put := et_Put; kv_Get := et_Get; kv_List := et_List }.
#[export] Instance EtcdStore_Fencer : Fencer EtcdStore :=
  { fence_Revision := et_Revision; fence_CompareAndSwap := et_CompareAndSwap }.
End store.
Arguments EtcdStore : clear implicits.

(** ** What etcd does *)

Record etcd_entry := mkEE { ee_value : bytes; ee_create : Z; ee_mod : Z }.
Definition kv_of (k : string) (x : etcd_entry) : etcd_kv := mkEtcdKV k (ee_value x) (ee_create x) (ee_mod x).
(** The state: the entries, and the revision of the last write. *)
Record etcd_state := mkES { es_data : gmap string etcd_entry; es_rev : Z }.
Definition etcd_write (k : string) (v : bytes) (s : etcd_state) : etcd_state :=
  let rev := es_rev s + 1 in
  mkES (<[k := mkEE v (match es_data s !! k with Some x => ee_create x | None => rev end) rev]> (es_data s)) rev.
(** A key that does not exist has revisions 0. *)
Definition cmp_holds (c : etcd_cmp) (s : etcd_state) : bool :=
  match c with
  | CmpCreate k r => (match es_data s !! k with Some x => ee_create x | None => 0 end) =? r
  | CmpMod k r => (match es_data s !! k with Some x => ee_mod x | None => 0 end) =? r
  end.
Record etcd_ok (s : etcd_state) : Prop := {
  eo_bound : 0 < es_rev s;
  eo_revs : ∀ k x, es_data s !! k = Some x → 0 < ee_create x ≤ ee_mod x ∧ ee_mod x ≤ es_rev s;
}.

(** On a cluster that answers. *)
Class EtcdLaws (S : Type) `{!EtcdClient S} := {
  eview : S → etcd_state;
  etcd_up : S → Prop;
  etcd_up_ok : ∀ s, etcd_up s → etcd_ok (eview s);
  law_get : ∀ k s, etcd_up s → etcd_Get k false s = Some (match es_data (eview s) !! k with Some x => [kv_of k x] | None => [] end);
  law_prefix : ∀ p s, etcd_up s → ∃ l, etcd_Get p true s = Some l
    ∧ l ≡ₚ (λ kx, kv_of kx.1 kx.2) <$> map_to_list (filter (λ kx, HasPrefix kx.1 p = true) (es_data (eview s)));
  law_put : ∀ k v s, etcd_up s → es_rev (eview s) < i64_max →
    ∃ s', etcd_Put k v None s = (s', true) ∧ etcd_up s' ∧ eview s' = etcd_write k v (eview s);
  law_txn : ∀ c k v s, etcd_up s → es_rev (eview s) < i64_max →
    ∃ s' r, etcd_Txn c k v s = (s', Some r) ∧ etcd_up s' ∧ tx_Succeeded r = cmp_holds c (eview s)
      ∧ if cmp_holds c (eview s)
        then eview s' = etcd_write k v (eview s) ∧ tx_Revision r = es_rev (eview s')
        else eview s' = eview s ∧ tx_Responses r = [Some (match es_data (eview s) !! k with Some x => [kv_of k x] | None => [] end)];
}.

Section laws.
Context {S : Type} `{!EtcdClient S, !EtcdLaws S}.
Implicit Types e : EtcdStore S.
Abbreviation view e := (eview (client e)).
Abbreviation up e := (etcd_up (client e)).

Lemma et_Get_spec k e : up e → et_Get k e = Ok (ee_value <$> es_data (view e) !! k).
Proof. intros Hu. unfold et_Get. rewrite law_get by done. by destruct (es_data (view e) !! k). Qed.
Lemma et_Revision_spec k e : up e → et_Revision k e = Ok (ee_mod <$> es_data (view e) !! k).
Proof. intros Hu. unfold et_Revision. rewrite law_get by done. by destruct (es_data (view e) !! k). Qed.

Lemma collect_kvs (l : list (string * etcd_entry)) (m : gmap string bytes) : NoDup l.*1 →
  fold_left (λ out kv, <[ek_Key kv := ek_Value kv]> out) ((λ kx, kv_of kx.1 kx.2) <$> l) m
  = list_to_map ((λ kx, (kx.1, ee_value kx.2)) <$> l) ∪ m.
Proof.
  revert m. induction l as [|[k x] l IH]; intros m Hnd; cbn; [by rewrite (left_id_L ∅ (∪))|].
  apply NoDup_cons in Hnd as [Hk Hnd]. rewrite IH by done. rewrite <- insert_union_r; [by rewrite insert_union_l|].
  apply not_elem_of_list_to_map_1. rewrite <- list_fmap_compose. exact Hk.
Qed.
Lemma et_List_spec p e : up e → et_List p e = Ok (ee_value <$> filter (λ kx, HasPrefix kx.1 p = true) (es_data (view e))).
Proof.
  intros Hu. unfold et_List. destruct (law_prefix p (client e) Hu) as (l & -> & HP). f_equal.
  set (m := filter _ _) in *. apply Permutation_map_inv in HP as (l' & -> & HP).
  change (map ?f l') with (f <$> l').
  rewrite collect_kvs by (rewrite <- HP; apply NoDup_fst_map_to_list). rewrite (right_id_L ∅ (∪)).
  rewrite <- (list_to_map_to_list (ee_value <$> m)), map_to_list_fmap. apply list_to_map_proper.
  - rewrite <- list_fmap_compose. change (NoDup l'.*1). rewrite <- HP. apply NoDup_fst_map_to_list.
  - rewrite HP. apply Permutation_refl'. apply list_fmap_ext. by intros ? [? ?].
Qed.

(** [CompareAndSwap] swaps exactly when the key is at the revision expected, 0
    for a key that does not exist; otherwise it says which one it is at. *)
Lemma et_CAS_spec k x v e : up e → es_rev (view e) < i64_max →
  let cur := default 0 (ee_mod <$> es_data (view e) !! k) in
  ∃ e' r, up e' ∧ et_CompareAndSwap k x v e = (e', Ok (r, bool_decide (x = cur)))
    ∧ if bool_decide (x = cur) then view e' = etcd_write k v (view e) ∧ r = es_rev (view e') else view e' = view e ∧ r = cur.
Proof.
  intros Hu Hr cur. unfold et_CompareAndSwap. set (c := if x =? 0 then _ else _).
  destruct (law_txn c k v (client e) Hu Hr) as (s' & rp & -> & Hu' & Hs & Hc).
  assert (cmp_holds c (view e) = bool_decide (x = cur)) as Hcur.
  { destruct (etcd_up_ok _ Hu) as [_ Hrev]. specialize (Hrev k). unfold c, cur.
    destruct (Z.eqb_spec x 0) as [->|Hx]; cbn; (destruct (es_data (view e) !! k) as [y|]; cbn; [destruct (Hrev y eq_refl) as [? ?]|]);
      [destruct (Z.eqb_spec (ee_create y) 0); [lia|]; rewrite bool_decide_false by lia; done|by rewrite bool_decide_true
      |destruct (Z.eqb_spec (ee_mod y) x); [by rewrite bool_decide_true|by rewrite bool_decide_false by congruence]
      |by destruct x; [done|rewrite bool_decide_false..]]. }
  rewrite Hcur in Hs, Hc. rewrite Hs. destruct (bool_decide (x = cur)); cbn [negb].
  - destruct Hc as [Hv ->]. exists (mkEtcd s'). eexists. split_and!; [done| reflexivity|done|]. done.
  - destruct Hc as [Hv Hresp]. exists (mkEtcd s'). eexists. split_and!; [done|reflexivity|done|]. rewrite Hresp. unfold cur.
    by destruct (es_data (view e) !! k).
Qed.

Lemma es_rev_write k v s : es_rev (etcd_write k v s) = es_rev s + 1.
Proof. done. Qed.
Lemma values_write k v s : ee_value <$> es_data (etcd_write k v s) = <[k := v]> (ee_value <$> es_data s).
Proof. cbn. by rewrite fmap_insert. Qed.

(** What was proved against the interface holds of the etcd store. *)
#[export] Instance EtcdStore_KVLaws : KVLaws (EtcdStore S).
Proof.
  refine {| kvl_inv e := up e; kvl_left e := i64_max - es_rev (view e); kvl_data e := ee_value <$> es_data (view e) |}.
  - intros e k Hu. cbn. rewrite et_Get_spec by done. by rewrite lookup_fmap.
  - intros e p Hu. cbn. rewrite et_List_spec by done. f_equal. by rewrite map_filter_fmap.
  - intros e k v Hu Hl. cbn. unfold et_Put. destruct (law_put k v (client e) Hu ltac:(lia)) as (s' & -> & Hu' & Hv).
    exists (mkEtcd s'). cbn. rewrite Hv, values_write, es_rev_write. split_and!; [done..|lia|done].
Defined.
#[export] Instance EtcdStore_FencedView : FencedView (EtcdStore S).
Proof.
  split.
  - intros e k Hu. cbn in *. rewrite lookup_fmap, et_Revision_spec by done. destruct (es_data (view e) !! k) as [x|] eqn:Ex; cbn; [|done].
    exists (ee_mod x). split; [done|]. destruct (etcd_up_ok _ Hu) as [_ Hrev]. specialize (Hrev k x Ex). lia.
  - intros e k v Hu Hl expected. cbn in *.
    assert (expected = default 0 (ee_mod <$> es_data (view e) !! k)) as ->.
    { unfold expected. rewrite et_Revision_spec by done. by destruct (es_data (view e) !! k). }
    destruct (et_CAS_spec k (default 0 (ee_mod <$> es_data (view e) !! k)) v e Hu ltac:(lia)) as (e' & r & Hu' & -> & Hc).
    rewrite bool_decide_true in * by done. destruct Hc as [Hv ->]. exists e'. eexists.
    rewrite Hv, values_write, es_rev_write. split_and!; [done..|lia|done].
Qed.
#[export] Instance EtcdStore_FencedLaws : FencedLaws (EtcdStore S).
Proof.
  refine {| kv_inv e := up e; kv_room e := es_rev (view e) < i64_max |}.
  - intros e k Hu. cbn. rewrite et_Revision_spec, et_Get_spec by done. destruct (es_data (view e) !! k) as [x|] eqn:Ex; cbn; [|by left].
    right. exists (ee_mod x), (ee_value x). split_and!; [done..|]. destruct (etcd_up_ok _ Hu) as [_ Hrev]. specialize (Hrev k x Ex). lia.
  - intros e k v Hu Hl expected. pose proof (@law_CAS _ _ _ _ EtcdStore_FencedView e k v Hu) as Hcas. cbn in Hcas.
    destruct Hcas as (e' & r & Hc & Hu' & _ & Hd); [lia|]. exists e', r. split_and!; [exact Hc|done|..].
    + cbn. rewrite et_Get_spec, <- lookup_fmap, Hd by done. by rewrite lookup_insert_eq.
    + intros k' Hk. cbn. rewrite !et_Get_spec, <- !lookup_fmap, Hd by done. by rewrite lookup_insert_ne.
Defined.
End laws.

(** ** The same answers as MemStore *)

(** A client of a store that treats revisions as tokens: it hands back the n-th
    one it was given, or 0 for a key it expects not to exist. *)
Inductive kvop := OPut (k : string) (v : bytes) | OGet (k : string) | OList (p : string) | ORevision (k : string)
| OSwap (k : string) (token : nat) (v : bytes).
Inductive kvans := AErr | ADone | AValue (v : option bytes) | AMap (m : gmap string bytes) | AFound (b : bool) | ASwapped (b : bool).

Definition token_rev (ts : list Z) (n : nat) : Z := match n with O => 0 | S n => nth n ts 0 end.
Definition kv_do {St} `{!KVStore St, !Fencer St} (o : kvop) (p : St * list Z) : kvans * (St * list Z) :=
  let '(s, ts) := p in
  match o with
  | OPut k v => let '(s, err) := kv_Put k v s in (match err with None => ADone | Some _ => AErr end, (s, ts))
  | OGet k => (match kv_Get k s with Ok v => AValue v | Err _ => AErr end, (s, ts))
  | OList p => (match kv_List p s with Ok m => AMap m | Err _ => AErr end, (s, ts))
  | ORevision k =>
      match fence_Revision k s with
      | Ok (Some r) => (AFound true, (s, ts ++ [r]))
      | Ok None => (AFound false, (s, ts))
      | Err _ => (AErr, (s, ts))
      end
  | OSwap k n v =>
      match fence_CompareAndSwap k (token_rev ts n) v s with
      | (s, Ok (r, b)) => (ASwapped b, (s, ts ++ [r]))
      | (s, Err _) => (AErr, (s, ts))
      end
  end.
Fixpoint kv_run {St} `{!KVStore St, !Fencer St} (os : list kvop) (p : St * list Z) : list kvans * (St * list Z) :=
  match os with
  | [] => ([], p)
  | o :: os => let '(a, p) := kv_do o p in let '(l, p) := kv_run os p in (a :: l, p)
  end.

Section equiv.
Context {S : Type} `{!EtcdClient S, !EtcdLaws S}.
Implicit Types (e : EtcdStore S) (m : MemStore).
Abbreviation view e := (eview (client e)).

(** Revisions that stand for each other. *)
Record paired (P : Z → Z → Prop) e m : Prop := {
  pr_up : etcd_up (client e);
  pr_mem : mem_ok m;
  pr_values : ee_value <$> es_data (view e) = me_value <$> ms_data m;
  pr_zero : P 0 0;
  pr_same : ∀ a b a' b', P a b → P a' b' → a = a' ↔ b = b';
  pr_past : ∀ a b, P a b → a ≤ ms_nextRev m ∧ b ≤ es_rev (view e);
  pr_revs : ∀ k, P (default 0 (me_revision <$> ms_data m !! k)) (default 0 (ee_mod <$> es_data (view e) !! k));
}.
Definition simulates e te m tm : Prop := ∃ P, paired P e m ∧ Forall2 P tm te.

Lemma token_paired (P : Z → Z → Prop) tm te n : P 0 0 → Forall2 P tm te → P (token_rev tm n) (token_rev te n).
Proof.
  intros H0 HF. destruct n as [|n]; cbn; [done|]. revert n. induction HF as [|a b tm te Hab HF IH]; intros [|n]; cbn; auto.
Qed.

Definition wrote (P : Z → Z → Prop) (a b : Z) : Z → Z → Prop := λ x y, P x y ∨ (x = a ∧ y = b).
Lemma paired_write P e m k v e' m' : paired P e m → ms_nextRev m < i64_max → etcd_up (client e') →
  view e' = etcd_write k v (view e) → mem_ok m' → same_data (mem_write k v m) m' →
  paired (wrote P (ms_nextRev m') (es_rev (view e'))) e' m'.
Proof.
  intros [Hu Hm Hv H0 Hs Hp Hr] Hroom Hu' He Hm' [Hd Hn]. pose proof (mem_write_nextRev k v m Hm Hroom) as Hw.
  rewrite Hn in Hw. rewrite He. cbn [es_rev etcd_write]. split; [done..| | | | |].
  - rewrite He, values_write, Hv, <- Hd. cbn. by rewrite fmap_insert.
  - by left.
  - intros a b a' b' [Hab|[-> ->]] [Hab'|[-> ->]]; [by eapply Hs|..|done];
      [specialize (Hp a b Hab)|specialize (Hp a' b' Hab')]; split; lia.
  - rewrite He. cbn. intros a b [Hab%Hp|[-> ->]]; lia.
  - intros k'. rewrite He, <- Hd. cbn. destruct (decide (k = k')) as [<-|Hk].
    + rewrite !lookup_insert_eq. cbn. right. cbn in Hn. by rewrite Hn.
    + rewrite !lookup_insert_ne by done. left. apply Hr.
Qed.

Lemma wrote_more P a b tm te : Forall2 P tm te → Forall2 (wrote P a b) tm te.
Proof. intros HF. eapply Forall2_impl; [exact HF|]. by left. Qed.

Lemma kv_do_same o e te m tm : simulates e te m tm → ms_nextRev m < i64_max → es_rev (view e) < i64_max →
  let '(a, (e', te')) := kv_do o (e, te) in let '(a', (m', tm')) := kv_do o (m, tm) in
  a = a' ∧ a ≠ AErr ∧ simulates e' te' m' tm' ∧ ms_nextRev m' ≤ ms_nextRev m + 1 ∧ es_rev (view e') ≤ es_rev (view e) + 1.
Proof.
  intros (P & HP & HF) Hrm Hre. pose proof HP as [Hu Hm Hv H0 Hs Hp Hr]. destruct o as [k v|k|p|k|k n v].
  - cbn. unfold et_Put. destruct (law_put k v (client e) Hu Hre) as (s' & -> & Hu' & He). cbn.
    destruct (mem_Put_ok k v m Hm Hrm) as (m' & -> & Hm' & Hd). cbn. split_and!; [done..| | |].
    + eexists. split; [|by apply wrote_more]. by eapply (paired_write P e m k v (mkEtcd s') m').
    + destruct Hd as [_ <-]. rewrite mem_write_nextRev by done. lia.
    + rewrite He. cbn. lia.
  - cbn. rewrite et_Get_spec by done. unfold mem_Get. rewrite <- !lookup_fmap, Hv. split_and!; [done..|by exists P|lia|lia].
  - cbn [kv_do]. rewrite (@law_List _ _ EtcdStore_KVLaws e p Hu), (@law_List _ _ MemStore_KVLaws m p Hm). cbn. rewrite Hv. split_and!; [done..|by exists P|lia|lia].
  - cbn. rewrite et_Revision_spec by done. unfold mem_Revision. specialize (Hr k).
    assert (ee_value <$> es_data (view e) !! k = me_value <$> ms_data m !! k) as Hk by by rewrite <- !lookup_fmap, Hv.
    destruct (es_data (view e) !! k) as [x|], (ms_data m !! k) as [y|]; try done; cbn in *; (split_and!; [done..| |lia|lia]); exists P; split; try done.
    apply Forall2_app; [done|]. by constructor.
  - cbn. pose proof (token_paired P tm te n H0 HF) as Ht. specialize (Hr k).
    destruct (et_CAS_spec k (token_rev te n) v e Hu Hre) as (e' & r & Hu' & -> & Hc).
    destruct (mem_CAS_spec k (token_rev tm n) v m Hm Hrm) as (m' & r' & ok & -> & Hm' & Hc'). cbn in Hc'.
    assert (ok = bool_decide (token_rev te n = default 0 (ee_mod <$> es_data (view e) !! k))) as Hok.
    { destruct Hc' as [(-> & E & _)|(-> & E & _)]; symmetry; [apply bool_decide_true|apply bool_decide_false];
        rewrite <- (Hs _ _ _ _ Ht Hr); done. }
    rewrite <- Hok in *. split; [done|]. split; [done|]. destruct Hc' as [(-> & _ & Hd & ->)|(-> & _ & -> & ->)]; destruct Hc as [He ->].
    + split_and!.
      * eexists. split; [by eapply (paired_write P e m k v e' m')|]. apply Forall2_app; [by apply wrote_more|].
        constructor; [by right|constructor].
      * destruct Hd as [_ <-]. rewrite mem_write_nextRev by done. lia.
      * rewrite He. cbn. lia.
    + rewrite He. split_and!; [|lia..]. exists P. split; [|by apply Forall2_app; [|constructor]].
      destruct HP. split; rewrite ?He; done.
Qed.

Lemma kv_run_same os e te m tm : simulates e te m tm →
  es_rev (view e) + Z.of_nat (length os) ≤ i64_max → ms_nextRev m + Z.of_nat (length os) ≤ i64_max →
  (kv_run os (e, te)).1 = (kv_run os (m, tm)).1 ∧ (AErr ∉ (kv_run os (e, te)).1).
Proof.
  revert e te m tm. induction os as [|o os IH]; intros e te m tm Hsim He Hm; cbn [kv_run]; [split; [done|apply not_elem_of_nil]|].
  cbn [length] in *. pose proof (kv_do_same o e te m tm Hsim ltac:(lia) ltac:(lia)) as Hd.
  destruct (kv_do o (e, te)) as [a [e1 te1]], (kv_do o (m, tm)) as [a' [m1 tm1]]. destruct Hd as (<- & Ha & Hsim' & H1 & H2).
  destruct (IH e1 te1 m1 tm1 Hsim' ltac:(lia) ltac:(lia)) as [E Hn].
  destruct (kv_run os (e1, te1)) as [l p], (kv_run os (m1, tm1)) as [l' p']. cbn in *. subst l'. split; [done|].
  apply not_elem_of_cons. done.
Qed.

(** C20: The etcd store cannot be told from the store in memory by a client that
    hands revisions back and does not compute with them, as SetIfNewer does:
    over any sequence of puts, gets, lists, revision reads and swaps on a
    cluster that answers, both give the same answers, swaps succeed on the one
    exactly when they succeed on the other, and neither reports an error. *)
Theorem etcd_same_as_mem os e m :
  etcd_up (client e) → mem_ok m → es_data (view e) = ∅ → ms_data m = ∅ →
  es_rev (view e) + Z.of_nat (length os) ≤ i64_max → ms_nextRev m + Z.of_nat (length os) ≤ i64_max →
  (kv_run os (e, [])).1 = (kv_run os (m, [])).1 ∧ (AErr ∉ (kv_run os (e, [])).1).
Proof.
  intros Hu Hm He0 Hm0.
  assert (simulates e [] m []) as Hsim.
  { exists (λ a b, a = 0 ∧ b = 0). split; [|constructor]. split; try done.
    - by rewrite He0, Hm0, !fmap_empty.
    - by intros a b a' b' [-> ->] [-> ->].
    - intros a b [-> ->]. pose proof (ok_rev_bound _ Hm). pose proof (eo_bound _ (etcd_up_ok _ Hu)). lia.
    - intros k. by rewrite He0, Hm0, !lookup_empty. }
  by apply kv_run_same.
Qed.
End equiv.

(** ** An etcd of one node *)

Module EtcdDemo.

Record node := mkNode { nd_state : etcd_state; nd_ok : etcd_ok nd_state }.
Lemma etcd_write_ok k v s : etcd_ok s → etcd_ok (etcd_write k v s).
Proof.
  intros [Hb Hr]. split; cbn; [lia|]. intros k' x [[<- <-]|[_ Hx]]%lookup_insert_Some; cbn; [|specialize (Hr _ _ Hx); lia].
  destruct (es_data s !! k) as [y|] eqn:Ey; [specialize (Hr _ _ Ey)|]; lia.
Qed.
Definition node_write (k : string) (v : bytes) (n : node) : node :=
  mkNode (etcd_write k v (nd_state n)) (etcd_write_ok k v _ (nd_ok n)).
Definition node_get (k : string) (n : node) : list etcd_kv :=
  match es_data (nd_state n) !! k with Some x => [kv_of k x] | None => [] end.
#[export] Instance node_client : EtcdClient node := {
  etcd_Get k prefix n :=
    Some (if prefix : bool then (λ kx, kv_of kx.1 kx.2) <$> map_to_list (filter (λ kx, HasPrefix kx.1 k = true) (es_data (nd_state n)))
          else node_get k n);
  etcd_Put k v _ n := (node_write k v n, true);
  etcd_Txn c k v n :=
    if cmp_holds c (nd_state n) then (node_write k v n, Some (mkTxn true (es_rev (nd_state n) + 1) []))
    else (n, Some (mkTxn false (es_rev (nd_state n)) [Some (node_get k n)]));
}.
#[export] Instance node_laws : EtcdLaws node.
Proof.
  refine {| eview := nd_state; etcd_up _ := True |}.
  - intros n _. apply nd_ok.
  - done.
  - intros p n _. eexists. by split.
  - intros k v n _ _. eexists. by split_and!.
  - intros c k v n _ _. cbn. destruct (cmp_holds c (nd_state n)) eqn:E; do 2 eexists; split_and!; done.
Defined.

Lemma empty_ok : etcd_ok (mkES ∅ 1).
Proof. split; cbn; [lia|]. intros k x. by rewrite lookup_empty. Qed.
Definition fresh : EtcdStore node := NewEtcdStore (mkNode (mkES ∅ 1) empty_ok).

(** Two writers that both saw no record: the second swap fails. *)
Definition race_ops : list kvop :=
  [ORevision "s/7"; OSwap "s/7" 0 [1]; OSwap "s/7" 0 [2]; OSwap "s/7" 1 [3]; OSwap "s/7" 1 [4]; OList "s/"].
Lemma etcd_same_as_mem_witness :
  (kv_run race_ops (fresh, [])).1 = (kv_run race_ops (NewMemStore, [])).1
  ∧ (kv_run race_ops (NewMemStore, [])).1
    = [AFound false; ASwapped true; ASwapped false; ASwapped true; ASwapped false; AMap {["s/7" := [3]]}].
Proof.
  split; [|vm_compute; reflexivity].
  apply (etcd_same_as_mem race_ops fresh NewMemStore); [exact I|apply NewMemStore_ok|reflexivity|reflexivity| |]; vm_compute; discriminate.
Defined.

End EtcdDemo.
