(* ===== verification/ClientRun.v ===== *)
(** * Running the client agent: Run, runIPsec, loop, pollLoop and restoreRoutes of
    internal/client/agent.go

    [Run] puts together the device, the routes, the path monitor and the loop of
    the agent, and takes them down again on every way out, in the order of its
    deferred calls. Routes are those of HostNet; the device, the monitor, the
    resolver and the IPsec plane are the class [RunIO]. What the loop and the
    goroutine that polls the controller do between them is any sequence of the
    locked sections of ClientAgent. The theorem: a run in full tunnel mode leaves
    no route of its own behind. *)

From S2P Require Import Prelude GoStrings Netip GoFloat Cost Services FlapGuard Decider Api IpsecConfig IpsecRender ClientAgent HostNet.

Definition statePollWait : Duration := 2 * Second.

Class RunIO (W : Type) := {
  rio_ParseAddr : string → option Addr;
  rio_Now : W → Time;
  (** the private key is fixed *)
  rio_NewReal : string → Z → Z → Z → W → option error * W;
  rio_Close : W → W;
  rio_AddPeer : string → list Prefix → string → Duration → W → bool * W;
  rio_SetEpoch : Z → W → W;
  rio_LookupNetIP : string → W → option (list Addr);
  rio_ListenUDP : Addr → W → option error * W;
  rio_mon_Set : gmap string (Addr * Z) → W → W;
  rio_mon_Stats : string → W → option (SegmentStats * Time);
  rio_newPlane : ApiSession → bool → list Addr → list Prefix → W → option error * W;
  rio_closePlane : W → W;
  rio_sync : list Gateway → W → W;
  rio_activate : string → Z → W → W;
  rio_RemoveFile : string → W → W;
}.

Definition failed_not {W} (r : option error * W) : bool * W := (match r.1 with None => true | Some _ => false end, r.2).

(** What the agent calls, with the routes of HostNet. *)
#[export] Instance run_env {W} `{!Shell W, !RunIO W} : AgentEnv W := {
  time_Now := rio_Now;
  AddPeer := rio_AddPeer;
  SetEpoch := rio_SetEpoch;
  CurrentRoute h w := match (currentRoute rio_ParseAddr h w).1 with Ok r => Some r | Err _ => None end;
  ClientAgent.AddBypassRoute h via w := failed_not (HostNet.AddBypassRoute h via w);
  ClientAgent.RemoveBypassRoute h w := (HostNet.RemoveBypassRoute h w).2;
  mon_Set := rio_mon_Set;
  mon_Stats := rio_mon_Stats;
  ip_sync := rio_sync;
  ip_activate := rio_activate;
}.

Section run.
Context {W : Type} `{!Shell W, !RunIO W, !NetParse, !GoMath}.
Context (cfg : AgentConfig) (statusFile controllerHost : string).
Implicit Types w : W.

Definition tun : string := ac_Interface cfg.

Definition ipCmd (args : list string) w : option error * W :=
  let '(out, x, w) := sh "ip" args w in
  if exit_ok x then (None, w)
  else (Some (ErrText ("ip " +:+ Join " " args +:+ ": " +:+ exit_String x +:+ " (" +:+ TrimSpace out +:+ ")")), w).

(** The hosts of the controller: its address, or what its name resolves to. *)
Definition controller_addrs w : list Addr :=
  match rio_ParseAddr controllerHost with
  | Some a => [a]
  | None => default [] (rio_LookupNetIP controllerHost w)
  end.

(** *** The loop *)

(** The locked sections of the loop and of pollLoop. *)
Inductive section :=
| SUpdate (st : ClientState) | SSync (st : ClientState) | SMon (st : ClientState) | SAdopt (sess : ApiSession)
| SDecide (now : Time) (ps : list Path) (dead : bool) | SNote (ans : answer) | SClear.
Definition run_section (original : RouteInfo) (c : section) (s : ast W) : ast W :=
  match c with
  | SUpdate st => update_locked cfg original st s
  | SSync st => if ipsec_mode cfg then on_w (ip_sync (filter (λ g, usableAccess cfg g = true) (cl_Gateways st))) s else s
  | SMon st => on_w (mon_Set (probe_targets cfg st)) s
  | SAdopt sess => adopt cfg sess s
  | SDecide now ps dead => (decide_locked now ps dead s).2
  | SNote ans => noteController ans s
  | SClear => clearPending s
  end.

Definition update_sections (st : ClientState) : list section := [SUpdate st; SSync st; SMon st; SAdopt (cl_Session st)].
(** One answer to pollLoop: the sections it runs and the version it asks after
    next. *)
Definition poll_turn (version : Z) (ans : res answer ClientState) : list section * Z :=
  match ans with
  | Ok st => (SNote (Committed (cl_Session st)) :: update_sections st, cl_Version st)
  | Err e => ([SNote e], version)
  end.
Fixpoint pollLoop (version : Z) (answers : list (res answer ClientState)) : list section * Z :=
  match answers with
  | [] => ([], version)
  | ans :: rest =>
      let '(cs, version) := poll_turn version ans in
      let '(cs', version) := pollLoop version rest in (cs ++ cs', version)
  end.

(** [loop] until the context ends: the sections in the order they were run. *)
Definition loop (original : RouteInfo) (cs : list section) (s : ast W) : ast W :=
  let s := fold_left (λ s c, run_section original c s) cs s in
  if String.eqb statusFile "" then s else on_w (rio_RemoveFile statusFile) s.

(** *** Full tunnel *)

Definition remove_bypasses (hosts : list Addr) (err : option error) w : option error * W :=
  fold_left (λ '(err, w) h, let '(e, w) := HostNet.RemoveBypassRoute h w in (errors_Join [err; e], w)) hosts (err, w).
Definition restoreRoutes (original : RouteInfo) (hadRoute : bool) (s : ast W) : option error * W :=
  let '(err, w) := if hadRoute then RestoreDefaultRoute original (as_w s)
                   else ipCmd ["route"; "del"; "default"; "dev"; tun] (as_w s) in
  remove_bypasses (elements (a_bypass (as_a s))) err w.

(** Before the state of the controller is taken in there is no decider; the one
    here is replaced below. *)
Definition opened (sess : ApiSession) (st : ClientState) w : ast W :=
  mkAst (mkAgent sess [] ∅ (NewDecider (cl_Policy st) zero_time) ∅ ∅ zero_time None true) w.
(** [a.start], [a.since], [a.decider] and the first [a.update]. *)
Definition begin_ (original : RouteInfo) (st : ClientState) (s : ast W) : ast W :=
  let start := rio_Now (as_w s) in
  let a := as_a s in
  update cfg original st
    (mkAst (mkAgent (a_session a) (a_gateways a) (a_links a) (NewDecider (cl_Policy st) start) (a_peers a) (a_bypass a) start
              (a_pending a) (a_up a)) (as_w s)).

(** The route outside the tunnel, and whether there is one. *)
Definition find_original w : RouteInfo * bool :=
  match (currentRoute rio_ParseAddr (Addr4 16843009) w).1 with
  | Ok r => (r, negb (String.eqb (ri_Interface r) tun))
  | Err _ => (mkRouteInfo AddrInvalid "", false)
  end.
Definition add_bypasses (original : RouteInfo) (hosts : list Addr) (s : ast W) : ast W :=
  fold_left (λ s h, addBypass cfg original h s) hosts s.

(** From the probe socket on; the result is the error and the world before the
    device is closed. *)
Definition run_tunnel (original : RouteInfo) (hadRoute : bool) (st : ClientState) (cs : list section) (s : ast W) : option error * W :=
  match rio_ListenUDP (s_VirtualIP (a_session (as_a s))) (as_w s) with
  | (Some e, w) => (Some e, w)
  | (None, w) =>
      let s := begin_ original st (mkAst (as_a s) w) in
      if ac_FullTunnel cfg then
        match SetFullTunnelDefault tun (as_w s) with
        | (Some e, w) => (Some e, w)
        | (None, w) => (None, (restoreRoutes original hadRoute (loop original cs (mkAst (as_a s) w))).2)
        end
      else (None, as_w (loop original cs s))
  end.

(** [Run] with a device, [a.open] and the first state behind it. *)
Definition run_wireguard (sess : ApiSession) (net : Network) (sessionID : Z) (st : ClientState) (cs : list section) w : option error * W :=
  match rio_NewReal tun (ac_MTU cfg) sessionID (wrap 32 (s_Epoch sess)) w with
  | (Some e, w) => (Some e, w)
  | (None, w) =>
      let closed (r : option error * W) := (r.1, rio_Close r.2) in
      closed
        match ConfigureInterface tun (mkPrefix (s_VirtualIP sess) 32) w with
        | (Some e, w) => (Some e, w)
        | (None, w) =>
            match ipCmd ["link"; "set"; tun; "mtu"; Itoa (ac_MTU cfg)] w with
            | (Some e, w) => (Some e, w)
            | (None, w) =>
                match ipCmd ["route"; "replace"; pf_String (NodeSubnet net); "dev"; tun] w with
                | (Some e, w) => (Some e, w)
                | (None, w) =>
                    if ac_FullTunnel cfg then
                      let '(original, hadRoute) := find_original w in
                      run_tunnel original hadRoute st cs
                        (add_bypasses original (controller_addrs w ++ ac_Bypass cfg) (opened sess st w))
                    else run_tunnel (mkRouteInfo AddrInvalid "") false st cs (opened sess st w)
                end
            end
        end
  end.

Definition runIPsec (sess : ApiSession) (net : Network) (st : ClientState) (cs : list section) w : option error * W :=
  let controllers := controller_addrs w ++ ac_Bypass cfg in
  let split := if ac_FullTunnel cfg then [] else [NodeSubnet net] in
  match rio_newPlane sess (ac_FullTunnel cfg) controllers split w with
  | (Some e, w) => (Some e, w)
  | (None, w) =>
      match rio_ListenUDP (Addr4 0) w with
      | (Some e, w) => (Some e, rio_closePlane w)
      | (None, w) =>
          let none := mkRouteInfo AddrInvalid "" in
          (None, rio_closePlane (as_w (loop none cs (begin_ none st (opened sess st w)))))
      end
  end.

(** [Run] after the session was opened and its first state read. *)
Definition Run (sess : ApiSession) (net : Network) (st : ClientState) (cs : list section) w : option error * W :=
  match ParseUint 64 (s_ID sess) with
  | None => (Some (ErrText ("client: session ID " +:+ s_ID sess)), w)
  | Some id => if ipsec_mode cfg then runIPsec sess net st cs w else run_wireguard sess net id st cs w
  end.
End run.

(** ** Routes *)

(** A route through a device ends with its name. Closing the device removes its
    routes; only commands of ip change the others. *)
Class RunIOLaws (W : Type) `{!Shell W, !ShellLaws W, !RunIO W} (tun : string) : Prop := {
  NewReal_view : ∀ i m id ep w, hview (rio_NewReal i m id ep w).2 = hview w;
  Close_routes : ∀ w, hv_routes (hview (rio_Close w)) = filter (λ kr, last kr.2 ≠ Some tun) (hv_routes (hview w));
  AddPeer_view : ∀ k l ep ka w, hview (rio_AddPeer k l ep ka w).2 = hview w;
  SetEpoch_view : ∀ e w, hview (rio_SetEpoch e w) = hview w;
  ListenUDP_view : ∀ a w, hview (rio_ListenUDP a w).2 = hview w;
  mon_Set_view : ∀ t w, hview (rio_mon_Set t w) = hview w;
  RemoveFile_view : ∀ f w, hview (rio_RemoveFile f w) = hview w;
  link_view : ∀ args w k r, (∃ p, args = ["addr"; "add"; p; "dev"; tun]) ∨ (∃ l, args = "link" :: "set" :: tun :: l) →
    hv_routes (hview (sh "ip" args w).2) !! k = Some r → last r = Some tun ∨ hv_routes (hview w) !! k = Some r;
  (** ip does what it can *)
  ip_works : ∀ args w, ip_parse args ≠ IpOther → ip_can (ip_parse args) (hview w) → exit_ok (sh "ip" args w).1.2 = true;
}.

Section routes.
Context {W : Type} `{!Shell W, !ShellLaws W, !RunIO W, !NetParse, !GoMath}.
Context (cfg : AgentConfig) (statusFile controllerHost : string).
Context {RL : RunIOLaws W (ac_Interface cfg)}.
Abbreviation tun := (ac_Interface cfg).
Abbreviation routes w := (hv_routes (hview w)).
Implicit Types (w : W) (s : ast W).

Lemma ip_spec args w out x w' : sh "ip" args w = (out, x, w') → ip_parse args ≠ IpOther →
  if exit_ok x then hview w' = ip_effect (ip_parse args) (hview w) else ¬ ip_can (ip_parse args) (hview w) ∧ hview w' = hview w.
Proof.
  intros E Hn. destruct (exit_ok x) eqn:Ex; [by apply (ip_ok _ _ _ _ _ E)|]. split; [|by eapply ip_failed].
  intros Hc. apply ip_works in Hc; [|done]. rewrite E in Hc. cbn in Hc. congruence.
Qed.

Lemma Remove_spec h w : routes (HostNet.RemoveBypassRoute h w).2 = delete (bypass_key h) (routes w).
Proof.
  unfold HostNet.RemoveBypassRoute, runIP. destruct (sh "ip" _ w) as [[out x] w'] eqn:E. apply ip_spec in E; [|done].
  cbn [ip_parse String.eqb Ascii.eqb Bool.eqb ip_effect ip_can] in E. destruct (exit_ok x); cbn.
  - by rewrite E.
  - destruct E as [Hc ->]. symmetry. apply delete_id. by apply eq_None_not_Some.
Qed.
Lemma Add_spec h via w : let '(e, w') := HostNet.AddBypassRoute h via w in
  routes w' = match e with None => <[bypass_key h := via_args via]> (routes w) | Some _ => routes w end.
Proof.
  destruct (HostNet.AddBypassRoute h via w) as [[e|] w'] eqn:E.
  - apply runIP_failed in E; [by rewrite E|done].
  - by apply AddBypassRoute_ok in E as [_ ->].
Qed.
Lemma Restore_spec via w : routes (RestoreDefaultRoute via w).2 = <[default_key := via_args via]> (routes w).
Proof.
  destruct (RestoreDefaultRoute via w) as [[e|] w'] eqn:E; cbn [snd]; [|by apply RestoreDefaultRoute_ok in E as ->].
  exfalso. unfold RestoreDefaultRoute, runIP in E. destruct (sh "ip" _ w) as [[out x] w1] eqn:E1. apply ip_spec in E1; [|done].
  destruct (exit_ok x); [done|]. destruct E1 as [Hc _]. by apply Hc.
Qed.

(** Every route is one of [rs], through the tunnel, or a bypass route the agent
    knows of. *)
Definition only (rs : gmap (string * string) (list string)) (bs : gset Addr) w : Prop :=
  ∀ k r, routes w !! k = Some r → last r = Some tun ∨ (∃ h, h ∈ bs ∧ k = bypass_key h) ∨ rs !! k = Some r.
Definition only_s rs s : Prop := only rs (a_bypass (as_a s)) (as_w s).

Lemma only_same rs bs w w' : routes w' = routes w → only rs bs w → only rs bs w'.
Proof. intros E Ho k r. rewrite E. apply Ho. Qed.
Lemma only_delete rs bs k0 w w' : routes w' = delete k0 (routes w) → only rs bs w → only rs bs w'.
Proof. intros E Ho k r. rewrite E. intros [_ Hr]%lookup_delete_Some. by apply Ho. Qed.

Lemma addBypass_only rs original h s : only_s rs s → only_s rs (addBypass cfg original h s).
Proof.
  intros Ho. unfold addBypass. destruct (_ || _); [done|]. set (via := match _ with Some _ => _ | None => _ end). clearbody via.
  destruct (String.eqb _ _); [done|]. cbn [ClientAgent.AddBypassRoute ClientAgent.RemoveBypassRoute run_env]. unfold failed_not.
  pose proof (Remove_spec h (as_w s)) as Hr. set (w1 := (HostNet.RemoveBypassRoute h (as_w s)).2) in *. clearbody w1.
  assert (only rs (a_bypass (as_a s)) w1) as Ho1 by by eapply only_delete.
  pose proof (Add_spec h via w1) as Ha. destruct (HostNet.AddBypassRoute h via w1) as [[e|] w2]; cbn.
  - by eapply only_same.
  - intros k r. cbn. rewrite Ha. intros [[<- <-]|[_ Hk]]%lookup_insert_Some.
    + right; left. exists h. split; [set_solver|done].
    + destruct (Ho1 k r Hk) as [?|[(h' & ? & ?)|?]]; [by left| |by right; right]. right; left. exists h'. split; [set_solver|done].
Qed.
Lemma add_bypasses_only rs original hosts s : only_s rs s → only_s rs (add_bypasses cfg original hosts s).
Proof. unfold add_bypasses. revert s. induction hosts as [|h hosts IH]; intros s Ho; cbn; [done|]. by apply IH, addBypass_only. Qed.

Lemma configurePeer_view g active w : hview (configurePeerLocked g active w).2 = hview w.
Proof. unfold configurePeerLocked. destruct (negb _); [done|]. apply AddPeer_view. Qed.

Lemma update_gateway_only rs original g s : only_s rs s → only_s rs (update_gateway cfg original g s).
Proof.
  intros Ho. unfold update_gateway. destruct (_ || _); [done|]. destruct (match a_peers (as_a s) !! g_ID g with Some _ => _ | None => _ end); [done|].
  set (s1 := match Host g with Some host => addBypass cfg original host s | None => s end).
  assert (only_s rs s1) as Ho1 by (unfold s1; destruct (Host g); [by apply addBypass_only|done]). clearbody s1.
  pose proof (configurePeer_view g (String.eqb (g_ID g) (s_Access (a_session (as_a s1)))) (as_w s1)) as Hv.
  destruct (configurePeerLocked _ _ _) as [[] w]; cbn in *; (eapply only_same; [|exact Ho1]); cbn; by rewrite Hv.
Qed.
Lemma update_locked_only rs original st s : only_s rs s → only_s rs (update_locked cfg original st s).
Proof.
  intros Ho. unfold update_locked. set (s1 := on_a _ s). assert (only_s rs s1) as Ho1 by exact Ho. clearbody s1.
  revert s1 Ho1. induction (cl_Gateways st) as [|g l IH]; intros s1 Ho1; cbn; [done|]. by apply IH, update_gateway_only.
Qed.
Lemma adopt_only rs sess s : ipsec_mode cfg = false → only_s rs s → only_s rs (adopt cfg sess s).
Proof.
  intros Hip Ho. unfold adopt. destruct (_ <=? _); [done|]. cut (only_s rs (adopt_switch cfg sess (a_session (as_a s)) s)); [done|].
  unfold adopt_switch. rewrite Hip. assert (only_s rs (on_w (SetEpoch (s_Epoch sess mod 2 ^ 32)) s)) as Ho1.
  { eapply only_same; [|exact Ho]. cbn. by rewrite SetEpoch_view. }
  destruct (String.eqb _ _); [done|]. destruct (FindGateway _ _) as [g []]; [|done]. set (s1 := on_w _ s) in *. clearbody s1.
  pose proof (configurePeer_view g true (as_w s1)) as Hv. destruct (configurePeerLocked _ _ _) as [[] w]; cbn in *;
    (eapply only_same; [|exact Ho1]); cbn; by rewrite Hv.
Qed.

Lemma run_section_only rs original c s : ipsec_mode cfg = false → only_s rs s → only_s rs (run_section cfg original c s).
Proof.
  intros Hip Ho. destruct c as [st|st|st|sess|now ps dead|ans|]; cbn [run_section]; [..|done|done].
  - by apply update_locked_only.
  - by rewrite Hip.
  - eapply only_same; [|exact Ho]. cbn. by rewrite mon_Set_view.
  - by apply adopt_only.
  - unfold decide_locked. destruct (Decide _ _ _ _ _ _) as [d dec]. by destruct (Migrate dec).
Qed.
Lemma loop_only rs original cs s : ipsec_mode cfg = false → only_s rs s → only_s rs (loop cfg statusFile original cs s).
Proof.
  intros Hip Ho. unfold loop. assert (only_s rs (fold_left (λ s c, run_section cfg original c s) cs s)) as H1.
  { revert s Ho. induction cs as [|c cs IH]; intros s Ho; cbn; [done|]. by apply IH, run_section_only. }
  destruct (String.eqb _ _); [done|]. eapply only_same; [|exact H1]. cbn. by rewrite RemoveFile_view.
Qed.

(** *** Restoring *)

Lemma remove_bypasses_spec hosts err w : routes (remove_bypasses hosts err w).2 = foldr (λ h m, delete (bypass_key h) m) (routes w) (rev hosts).
Proof.
  unfold remove_bypasses. revert err w. induction hosts as [|h hosts IH]; intros err w; cbn [fold_left rev]; [done|].
  destruct (HostNet.RemoveBypassRoute h w) as [e w1] eqn:E. rewrite IH, foldr_app. cbn. f_equal.
  pose proof (Remove_spec h w) as Hr. by rewrite E in Hr.
Qed.
Lemma deleted_lookup (hosts : list Addr) (m : gmap (string * string) (list string)) (k : string * string) :
  foldr (λ h m, delete (bypass_key h) m) m hosts !! k = if decide (k ∈ bypass_key <$> hosts) then None else m !! k.
Proof.
  induction hosts as [|h hosts IH]; cbn; [done|]. destruct (decide (bypass_key h = k)) as [<-|Hn].
  - rewrite lookup_delete_eq, decide_True; [done|by left].
  - rewrite lookup_delete_ne, IH by done. destruct (decide (k ∈ bypass_key <$> hosts)), (decide (k ∈ bypass_key h :: _)) as [Hk|Hk]; try done.
    + exfalso. apply Hk. by right.
    + by apply elem_of_cons in Hk as [?|?].
Qed.
Lemma bypass_not_default h : bypass_key h ≠ default_key.
Proof.
  unfold bypass_key, default_key, host32. intros [= E]. apply (f_equal (λ x, last (String.list_ascii_of_string x))) in E.
  rewrite list_of_string_app, last_app in E. done.
Qed.

(** After restoring only the routes there were are left, those through the
    tunnel, and the default route. *)
Lemma restoreRoutes_spec rs original hadRoute s : only_s rs s →
  let w' := (restoreRoutes cfg original hadRoute s).2 in
  (∀ k r, routes w' !! k = Some r → last r = Some tun ∨ (hadRoute = true ∧ k = default_key ∧ r = via_args original) ∨ rs !! k = Some r)
  ∧ routes w' !! default_key = if hadRoute then Some (via_args original) else None.
Proof.
  intros Ho w'. unfold w', restoreRoutes. set (p := if hadRoute then _ else _).
  assert (routes p.2 = if hadRoute then <[default_key := via_args original]> (routes (as_w s)) else delete default_key (routes (as_w s))) as Hp.
  { unfold p. destruct hadRoute; [apply Restore_spec|]. unfold ipCmd. destruct (sh "ip" _ (as_w s)) as [[out x] w1] eqn:E.
    apply ip_spec in E; [|done]. cbn [ip_parse String.eqb Ascii.eqb Bool.eqb ip_effect ip_can] in E. unfold ClientRun.tun in E.
    assert (route_key "default" ["dev"; ac_Interface cfg] = default_key) as Hk.
    { unfold route_key. change ["dev"; ac_Interface cfg] with (via_args (mkRouteInfo AddrInvalid (ac_Interface cfg))). by rewrite cut_via. }
    rewrite Hk in E. destruct (exit_ok x); cbn; [by rewrite E|]. destruct E as [Hc ->]. symmetry. apply delete_id. by apply eq_None_not_Some. }
  destruct p as [err w1]. cbn [snd] in Hp. rewrite remove_bypasses_spec. split.
  - intros k r. rewrite deleted_lookup. destruct (decide _) as [|Hk]; [done|]. rewrite Hp.
    assert (∀ h, h ∈ a_bypass (as_a s) → k ≠ bypass_key h) as Hb.
    { intros h Hh ->. apply Hk. apply list_elem_of_fmap_2. rewrite list_elem_of_In, <- in_rev, <- list_elem_of_In. by apply elem_of_elements. }
    assert (routes (as_w s) !! k = Some r → last r = Some tun ∨ rs !! k = Some r) as Hs.
    { intros Hr. destruct (Ho k r Hr) as [?|[(h & Hh & E)|?]]; [by left| |by right]. by apply Hb in E. }
    destruct hadRoute; [intros [[<- <-]|[_ Hr]]%lookup_insert_Some|intros [_ Hr]%lookup_delete_Some];
      [right; left; done|destruct (Hs Hr); auto|destruct (Hs Hr); auto].
  - rewrite deleted_lookup, decide_False.
    + rewrite Hp. destruct hadRoute; [apply lookup_insert_eq|apply lookup_delete_eq].
    + intros (h & E & _)%list_elem_of_fmap. by apply (bypass_not_default h).
Qed.

(** *** A whole run *)

Lemma begin_only rs original st s : ipsec_mode cfg = false → only_s rs s → only_s rs (begin_ cfg original st s).
Proof.
  intros Hip Ho. unfold begin_, update. rewrite Hip. apply adopt_only; [done|].
  set (s1 := update_locked _ _ _ _). assert (only_s rs s1) as Ho1 by (apply update_locked_only, Ho).
  eapply only_same; [|exact Ho1]. cbn. by rewrite mon_Set_view.
Qed.

Lemma ip_link args w : (∃ l, args = "link" :: "set" :: tun :: l) → only (routes w) ∅ (ipCmd args w).2.
Proof.
  intros Hl k r. unfold ipCmd. pose proof (link_view args w k r (or_intror Hl)) as Hv.
  destruct (sh "ip" args w) as [[out x] w']. cbn in Hv. destruct (exit_ok x); cbn; intros Hr; destruct (Hv Hr); auto.
Qed.
Lemma only_trans rs w bs w' : only rs ∅ w → only (routes w) bs w' → only rs bs w'.
Proof.
  intros H1 H2 k r Hr. destruct (H2 k r Hr) as [?|[?|Hw]]; [by left|by right; left|].
  destruct (H1 k r Hw) as [?|[(h & Hh & _)|?]]; [by left|set_solver|by right; right].
Qed.
Lemma only_refl w : only (routes w) ∅ w.
Proof. intros k r Hr. auto. Qed.

Lemma Configure_only p w : only (routes w) ∅ (ConfigureInterface tun p w).2.
Proof.
  unfold ConfigureInterface, runIP, wrap_err. destruct (sh "ip" _ w) as [[out x] w1] eqn:E.
  assert (only (routes w) ∅ w1) as H1.
  { intros k r Hr. pose proof (link_view ["addr"; "add"; pf_String p; "dev"; tun] w k r) as Hv. rewrite E in Hv.
    destruct (Hv (or_introl (ex_intro _ _ eq_refl)) Hr); auto. }
  destruct (exit_ok x); cbn; [|done]. eapply only_trans; [exact H1|].
  intros k r Hr. pose proof (link_view ["link"; "set"; tun; "up"] w1 k r (or_intror (ex_intro _ ["up"] eq_refl))) as Hv.
  destruct (sh "ip" ["link"; "set"; tun; "up"] w1) as [[out2 x2] w2]. cbn in Hv. destruct (exit_ok x2); cbn in Hr; destruct (Hv Hr); auto.
Qed.
Lemma node_route_only dst w w' : ipCmd ["route"; "replace"; dst; "dev"; tun] w = (None, w') → only (routes w) ∅ w'.
Proof.
  unfold ipCmd. destruct (sh "ip" _ w) as [[out x] w1] eqn:E. apply ip_spec in E; [|done]. destruct (exit_ok x); [|done].
  intros [= <-] k r. rewrite E. cbn [ip_parse String.eqb Ascii.eqb Bool.eqb ip_effect with_hroutes hv_routes].
  change ["dev"; tun] with (via_args (mkRouteInfo AddrInvalid tun)). rewrite cut_via. cbn [fst].
  intros [[<- <-]|[_ Hr]]%lookup_insert_Some; [by left|auto].
Qed.

Lemma via_last original : last (via_args original) = Some (ri_Interface original).
Proof. unfold via_args. by destruct (addr_IsValid _). Qed.

End routes.

Module RunDemo.

(** Routes, rules and filters, what [ip route get] answers, and whether a socket
    can be opened. *)
Record rhost := mkRHost { rh_view : hostview; rh_get : string; rh_socket : bool }.
Definition with_view f h := mkRHost (f (rh_view h)) (rh_get h) (rh_socket h).
Definition rhost_sh (name : string) (args : list string) (h : rhost) : string * exit * rhost :=
  if String.eqb name "ip" then
    let c := ip_parse args in
    if bool_decide (ip_can c (rh_view h)) then (rh_get h, ExitCode 0, with_view (ip_effect c) h) else ("", ExitCode 2, h)
  else match ipt_parse args with
       | Some (op, r) =>
           if bool_decide (ipt_can op r (hv_ipt (rh_view h))) then ("", ExitCode 0, with_view (with_ipt (ipt_effect op r)) h)
           else ("", ExitCode 1, h)
       | None => ("", ExitCode 1, h)
       end.
#[export] Instance rhost_shell : Shell rhost := {| sh := rhost_sh; WriteFile _ _ h := (true, h); ReadFile _ _ := None |}.
#[export] Instance rhost_laws : ShellLaws rhost.
Proof.
  refine {| hview := rh_view |}; unfold sh, rhost_shell, rhost_sh.
  - intros args w out x w' E _ Hx. cbn [String.eqb Ascii.eqb Bool.eqb] in E. case_bool_decide; by simplify_eq/=.
  - intros args w out x w' E _ Hx. cbn [String.eqb Ascii.eqb Bool.eqb] in E. case_bool_decide; by simplify_eq/=.
  - intros args w out x w' E Ho. cbn [String.eqb Ascii.eqb Bool.eqb] in E. rewrite Ho in E. case_bool_decide; by simplify_eq/=.
  - intros args op r w out x w' E Hp Hx. cbn [String.eqb Ascii.eqb Bool.eqb] in E. rewrite Hp in E. case_bool_decide; by simplify_eq/=.
  - intros args op r w out x w' E Hp Hx. cbn [String.eqb Ascii.eqb Bool.eqb] in E. rewrite Hp in E. case_bool_decide; by simplify_eq/=.
  - by intros path s w ok w' [= _ <-].
Defined.

#[export] Instance rhost_io : RunIO rhost := {|
  rio_ParseAddr s := if String.eqb s "192.168.1.1" then Some (Addr4 3232235777) else if String.eqb s "198.51.100.9" then Some (Addr4 3325256713) else None;
  rio_Now _ := 0;
  rio_NewReal _ _ _ _ h := (None, h);
  rio_Close h := with_view (with_hroutes (filter (λ kr, last kr.2 ≠ Some "wg0"))) h;
  rio_AddPeer _ _ _ _ h := (true, h);
  rio_SetEpoch _ h := h;
  rio_LookupNetIP _ _ := None;
  rio_ListenUDP _ h := (if rh_socket h then None else Some (ErrText "bind: address already in use"), h);
  rio_mon_Set _ h := h;
  rio_mon_Stats _ _ := None;
  rio_newPlane _ _ _ _ h := (None, h);
  rio_closePlane h := h;
  rio_sync _ h := h;
  rio_activate _ _ h := h;
  rio_RemoveFile _ h := h;
|}.
Lemma rhost_io_laws : RunIOLaws rhost "wg0".
Proof.
  split; try done.
  - intros args w k r [[p ->]|[l ->]]; cbn; unfold rhost_sh; cbn [String.eqb Ascii.eqb Bool.eqb ip_parse];
      cbn; intros Hr; by right.
  - intros args w _ Hc. cbn in *. unfold rhost_sh. cbn [String.eqb Ascii.eqb Bool.eqb]. by rewrite bool_decide_true.
Qed.
#[export] Instance no_endpoints : NetParse := {| ParseAddrPort s := if String.eqb s "gw" then Some (Addr4 3221225995, 51820) else None |}.
#[export] Instance any_math : GoMath := {| math_Log x := x; math_Exp2 _ := f1 |}.

Definition lan : gmap (string * string) (list string) := {[default_key := ["via"; "192.168.1.1"; "dev"; "eth0"]; ("main", "192.168.1.0/24") := ["dev"; "eth0"]]}.
Definition laptop (socket : bool) : rhost := mkRHost (mkView lan [] []) "1.1.1.1 via 192.168.1.1 dev eth0 src 192.168.1.7" socket.
Definition full : AgentConfig := mkAgentConfig "wg0" "" true [Addr4 3405803776] 1380 DefaultDeadAfter "" false.
Definition network : Network := mkNetwork (mkPrefix (Addr4 180944896) 16) (mkPrefix (Addr4 180879360) 24) 51900.
Definition session : ApiSession := mkSession "7" "" (Addr4 180944897) "a" "a" 1 "" "".
Definition state : ClientState :=
  mkCState 1 network session [mkGateway "a" 3 "gw" "AAAAAAAAAAAAAAAAAAAAAAAAAAAAAAAAAAAAAAAAAAA=" (Addr4 180879361) ∅ false true] [] Policy.DefaultPolicyDocument.

Definition ran (socket : bool) := run_wireguard full "" "198.51.100.9" session network 7 state (pollLoop 1 [Ok state; Err Unreachable]).1 (laptop socket).

(** While it runs, the controller, the operator's host and the gateway are
    reached outside the tunnel. *)
Definition running : ast rhost :=
  let '(original, _) := find_original full (laptop true) in
  begin_ full original state (add_bypasses full original (controller_addrs "198.51.100.9" (laptop true) ++ ac_Bypass full) (opened session state (laptop true))).
Example bypassed : a_bypass (as_a running) = {[Addr4 3325256713; Addr4 3405803776; Addr4 3221225995]}.
Proof. vm_compute. reflexivity. Qed.


(** *** A run that fails early leaks its bypass routes

    The routes around the tunnel are added before the call that takes them back
    is deferred: when the probe socket cannot be opened, they stay. *)
Lemma failed_start_leaks_bypass :
  (ran false).1 = Some (ErrText "bind: address already in use")
  ∧ hv_routes (rh_view (ran false).2) !! bypass_key (Addr4 3325256713) = Some ["via"; "192.168.1.1"; "dev"; "eth0"]
  ∧ lan !! bypass_key (Addr4 3325256713) = None.
Proof. vm_compute. by split_and!. Qed.

End RunDemo.
