(* ===== verification/GatewayRun.v ===== *)
(** * Running a gateway: New, Run, register, registerRetry, portsChanged,
    noteController and reportLoop of internal/gateway/agent.go

    [Run] registers, sets the host up (GatewayHost), follows the controller with
    the plans GatewayAgent applies, and tears everything down. Three goroutines
    share the agent: [Run]'s own loop, the loop that reports links, and the path
    monitor. Each is a thread here, with a program counter at every place where
    another thread can come in between, and a run is any interleaving of their
    steps. The commands of GatewayAgent are given here by the shell commands
    behind them. Two theorems: a gateway leaves its host's rules as it found
    them, and the controller knows the ports of its backbones. *)

From S2P Require Import Prelude Netip GoStrings Cost Services Api Plan EpochGate Controller Http Metrics IpsecRender HostNet GatewayAgent GatewayHost.
Import Membership.

Definition reportInterval : Duration := Second.
Definition pollWait : Duration := 25 * Second.
Definition DefaultMTU : Z := 1380.

(** ** What a gateway runs on *)

(** WireGuard devices by name, the path monitor, and charon; [pio_ike] takes the
    commands of GatewayAgent that are for charon. *)
Class PeerIO (W : Type) := {
  pio_AddPeer : string → string → list Prefix → option (Addr * Z) → Duration → W → bool * W;
  pio_RemovePeer : string → string → W → bool * W;
  pio_handshaken : string → string → W → bool;
  pio_ListenPort : string → W → option Z;
  pio_monSet : gmap string (Addr * Z) → W → bool * W;
  pio_monStats : string → W → option SegmentStats;
  pio_monTurn : W → W;
  pio_ike : cmd → W → bool * W;
}.

(** The calls of the controller's API a gateway makes; [api_controller] is the
    client of the API. *)
Class ControllerApi (W : Type) := {
  ctl_Register : string → RegisterGatewayRequest → W → res api_error RegisterGatewayResponse * W;
  ctl_Report : string → list Link → W → res api_error unit * W;
  ctl_State : Z → Duration → W → res api_error GatewayState * W;
}.
Definition api_controller `{!ApiJson} {W} `{!HttpClient W} (c : Client) : ControllerApi W := {|
  ctl_Register := api_RegisterGateway c; ctl_Report := api_ReportLinks c; ctl_State := api_GatewayState c |}.

(** ** Configuration *)

Record Config := mkConfig {
  gc_ID : string; gc_Controller : bool; gc_Roles : Z; gc_PublicKey : string; gc_Endpoint : string; gc_Uplink : string;
  gc_MTU : Z; gc_IPsec : bool }.

Inductive new_error := NoIdentity | BadEndpoint (endpoint : string) | NoUplink.
Definition New `{!NetParse} (cfg : Config) : res new_error Config :=
  if String.eqb (gc_ID cfg) "" || negb (gc_Controller cfg) || String.eqb (gc_Endpoint cfg) "" then Err NoIdentity
  else match ParseAddrPort (gc_Endpoint cfg) with
  | None => Err (BadEndpoint (gc_Endpoint cfg))
  | Some _ =>
      if Has (gc_Roles cfg) RoleEgress && String.eqb (gc_Uplink cfg) "" then Err NoUplink
      else Ok (mkConfig (gc_ID cfg) (gc_Controller cfg) (gc_Roles cfg) (gc_PublicKey cfg) (gc_Endpoint cfg) (gc_Uplink cfg)
                 (if gc_MTU cfg =? 0 then DefaultMTU else gc_MTU cfg) (gc_IPsec cfg))
  end.

(** The commands behind GatewayAgent's, for a gateway whose devices have this MTU. *)
Section shell.
Context {W : Type} `{!Shell W, !HostIO W, !PeerIO W} (mtu : Z).

Definition done_of (r : option string * W) : bool * W := (match r.1 with None => true | Some _ => false end, r.2).
Definition all_prefix : Prefix := mkPrefix (Addr4 0) 0.

Definition shell_exec (c : cmd) (w : W) : bool * W :=
  match c with
  | FlushTable t => done_of (flushTable t w)
  | Blackhole t => done_of (ip ["route"; "replace"; "blackhole"; "default"; "metric"; "4000"; "table"; Itoa t] w)
  | NewDevice name => NewReal name w
  | AddrUp name addr => done_of (addrUp name addr mtu w)
  | DefaultRoute name t => done_of (ip ["route"; "replace"; "default"; "dev"; name; "table"; Itoa t] w)
  | CloseDevice name => (true, CloseReal name w)
  | DevAddPeer name key endpoint keepalive => pio_AddPeer name key [all_prefix] endpoint keepalive w
  | DevRemovePeer name key => pio_RemovePeer name key w
  | NodeRoute node name src => done_of (ip ["route"; "replace"; host32 node; "dev"; name; "src"; addr_String src] w)
  | MonitorSet targets => pio_monSet targets w
  | ClientAddPeer key vip => pio_AddPeer clientDevice key [mkPrefix vip 32] None 0 w
  | ClientRemovePeer key => pio_RemovePeer clientDevice key w
  | AddRule vip t => done_of (addRule (ruleFrom vip t) w)
  | DelRule vip t => done_of (delRule (ruleFrom vip t) w)
  | ReplaceRoute vip name => done_of (ip ["route"; "replace"; host32 vip; "dev"; name] w)
  | DelRoute vip => done_of (ipIgnore ["route"; "del"; host32 vip] w)
  | DelRouteDev vip name => done_of (ipIgnore ["route"; "del"; host32 vip; "dev"; name] w)
  | ProbeRoute vip =>
      done_of (ip ["route"; "replace"; host32 vip; "dev"; GatewayHost.ipsecDevice; "table"; Itoa probeTable] w)
  | DelProbeRoute vip =>
      done_of (ipIgnore ["route"; "del"; host32 vip; "dev"; GatewayHost.ipsecDevice; "table"; Itoa probeTable] w)
  | LoadShared _ _ _ | LoadConn _ _ _ _ _ | UnloadShared _ | UnloadConn _ | TerminateIKE _ => pio_ike c w
  end.

Definition shell_host : GatewayAgent.Host W := {|
  exec := shell_exec; handshaken w dev key := pio_handshaken dev key w |}.
End shell.

(** ** The agent *)

Section gateway.
Context {W : Type} `{!Shell W, !HostIO W, !PeerIO W, !ControllerApi W, !Range, !NetParse} (cfg : Config).
#[local] Instance gateway_host : GatewayAgent.Host W := shell_host (gc_MTU cfg).
Implicit Types w : W.

(** What the goroutines share. *)
Record shared := mkShared {
  sh_ag : Agent;
  sh_w : W;
  sh_ports : gmap string Z;         (* as last registered *)
  sh_version : Z;                   (* stateVersion *)
  sh_up : bool;                     (* controllerUp *)
  sh_metrics : option GatewayMetrics;
}.
Implicit Types s : shared.
Definition with_agent (a : Agent) w s := mkShared a w (sh_ports s) (sh_version s) (sh_up s) (sh_metrics s).
Definition with_w w s := with_agent (sh_ag s) w s.
Definition with_ports ports s := mkShared (sh_ag s) (sh_w s) ports (sh_version s) (sh_up s) (sh_metrics s).
Definition with_version v s := mkShared (sh_ag s) (sh_w s) (sh_ports s) v (sh_up s) (sh_metrics s).
Definition with_up up s := mkShared (sh_ag s) (sh_w s) (sh_ports s) (sh_version s) up (sh_metrics s).
Definition record_ (e : gateway_event) s :=
  mkShared (sh_ag s) (sh_w s) (sh_ports s) (sh_version s) (sh_up s) (gateway_record e (sh_metrics s)).

Definition is_status (e : api_error) : bool := match e with StatusError _ _ => true | _ => false end.
Definition noteController {A} (r : res api_error A) s : shared :=
  with_up (match r with Ok _ => true | Err e => is_status e end) s.

Definition publish s : shared :=
  record_ (GSnapshot (gw_publish (bb_up <$> ag_backbones (sh_ag s)) (λ id, pio_monStats id (sh_w s))
    (ag_sessions (sh_ag s)).1 (ag_sessions (sh_ag s)).2 (sh_version s) (sh_up s))) s.

(** *** Registration *)

Definition listen_ports (a : Agent) w : gmap string Z := omap (λ b, pio_ListenPort (bb_name b) w) (ag_backbones a).
Definition request (ports : gmap string Z) : RegisterGatewayRequest :=
  mkRegister (gc_Roles cfg) (gc_Endpoint cfg) (gc_PublicKey cfg) ports (gc_IPsec cfg && Has (gc_Roles cfg) RoleAccess).

(** The three parts of [register], which holds no lock while it waits. *)
Definition register_send (ports : gmap string Z) s : res api_error RegisterGatewayResponse * shared :=
  let '(r, w) := ctl_Register (gc_ID cfg) (request ports) (sh_w s) in (r, with_w w s).
Definition register s : res api_error RegisterGatewayResponse * shared :=
  let ports := listen_ports (sh_ag s) (sh_w s) in
  match register_send ports s with
  | (Ok resp, s) => (Ok resp, with_ports ports s)
  | (Err e, s) => (Err e, s)
  end.

Inductive run_error := Refused (e : api_error) | SetupFailed (msg : string) | CtxErr.
(** The context ends after [tries] attempts that failed. *)
Fixpoint registerRetry (tries : nat) s : res run_error RegisterGatewayResponse * shared :=
  match tries with
  | O => (Err CtxErr, s)
  | S tries =>
      match register s with
      | (Ok resp, s) => (Ok resp, s)
      | (Err (StatusError code msg), s) =>
          if Z.quot code 100 =? 4 then (Err (Refused (StatusError code msg)), s) else registerRetry tries s
      | (Err _, s) => registerRetry tries s
      end
  end.

Definition port_changed s (kv : string * backbone) : bool :=
  match pio_ListenPort (bb_name kv.2) (sh_w s) with None => true | Some p => negb (default 0 (sh_ports s !! kv.1) =? p) end.
Definition portsChanged s : bool :=
  negb (Nat.eqb (size (sh_ports s)) (size (ag_backbones (sh_ag s))))
  || existsb (port_changed s) (map_to_list (ag_backbones (sh_ag s))).

(** *** The loops *)

(** Where the loop of [Run] is; [version] is its own. *)
Inductive main_pc := MAsk | MApply (st : GatewayState) | MPublish (st : GatewayState) | MCheck | MRead
| MSend (ports : gmap string Z) | MStore (ports : gmap string Z).
(** Where [reportLoop] is. *)
Inductive report_pc := RTick | RReport (ids : list string) | RRead | RSend (ports : gmap string Z) | RStore (ports : gmap string Z) | RPublish.

Record machine := mkMachine { m_sh : shared; m_main : main_pc; m_version : Z; m_report : report_pc }.
Implicit Types m : machine.

Context (agent_cfg : AConfig).

Definition apply_state (st : GatewayState) s : shared :=
  let '(errs, _, a, w) := apply agent_cfg (MakePlan (gc_ID cfg) (gc_Roles cfg) st) (sh_ag s) (sh_w s) in
  let s := with_agent a w s in
  match errs with [] => s | _ => record_ GApplyError s end.

Definition main_step m : machine :=
  let '(mkMachine s pc version r) := m in
  match pc with
  | MAsk =>
      let '(ans, w) := ctl_State version pollWait (sh_w s) in
      let s := noteController ans (with_w w s) in
      match ans with
      | Ok st => mkMachine s (MApply st) (st_Version st) r
      | Err _ => mkMachine s MAsk version r
      end
  | MApply st => mkMachine (apply_state st s) (MPublish st) version r
  | MPublish st => mkMachine (publish (with_version (st_Version st) s)) MCheck version r
  | MCheck => mkMachine s (if portsChanged s then MRead else MAsk) version r
  | MRead => mkMachine s (MSend (listen_ports (sh_ag s) (sh_w s))) version r
  | MSend ports => match register_send ports s with
                   | (Ok _, s) => mkMachine s (MStore ports) version r
                   | (Err _, s) => mkMachine s MAsk version r
                   end
  | MStore ports => mkMachine (with_ports ports s) MAsk version r
  end.

Definition set_targets s : shared :=
  let a := setProbeTargetsLocked agent_cfg (mkAst (sh_ag s) (sh_w s) [] ∅) in with_agent (as_ag a) (as_host a) s.
Definition link_report (ids : list string) w : list Link :=
  omap (λ id, (λ st, mkLink "" id st 0) <$> pio_monStats id w) ids.

Definition report_step m : machine :=
  let '(mkMachine s pc version r) := m in
  match r with
  | RTick => mkMachine (set_targets s) pc version (RReport (range (ag_backbones (sh_ag s))).*1)
  | RReport ids =>
      let '(ans, w) := ctl_Report (gc_ID cfg) (link_report ids (sh_w s)) (sh_w s) in
      let s := noteController ans (with_w w s) in
      let s := record_ (GLinkReport (match ans with Ok _ => ReportOK | Err _ => ReportError end)) s in
      mkMachine s pc version (match ans with
                              | Err (StatusError code _) => if code =? StatusNotFound then RRead else RPublish
                              | _ => RPublish
                              end)
  | RRead => mkMachine s pc version (RSend (listen_ports (sh_ag s) (sh_w s)))
  | RSend ports => match register_send ports s with
                   | (Ok _, s) => mkMachine s pc version (RStore ports)
                   | (Err _, s) => mkMachine s pc version RPublish
                   end
  | RStore ports => mkMachine (with_ports ports s) pc version RPublish
  | RPublish => mkMachine (publish s) pc version RTick
  end.

Inductive thread := Main | Report | Monitor.
Definition step (m : machine) (t : thread) : machine :=
  match t with
  | Main => main_step m
  | Report => report_step m
  | Monitor => mkMachine (with_w (pio_monTurn (sh_w (m_sh m))) (m_sh m)) (m_main m) (m_version m) (m_report m)
  end.
Definition start s : machine := mkMachine s MAsk 0 RTick.
Definition run_threads (ts : list thread) m : machine := fold_left step ts m.
End gateway.

(** *** Run *)

Section run.
Context {W : Type} `{!Shell W, !HostIO W, !PeerIO W, !ControllerApi W, !Range, !NetParse} (cfg : Config).
Implicit Types s : shared (W := W).

Definition host_config (resp : RegisterGatewayResponse) : GConfig :=
  mkGConfig (gc_Roles cfg) (gc_Uplink cfg) (gc_MTU cfg) (gc_IPsec cfg) (rr_NodeIP resp) (ClientSubnet (rr_Network resp)) (ProbePort (rr_Network resp)).
Definition apply_config (resp : RegisterGatewayResponse) : AConfig :=
  mkAConfig (gc_ID cfg) (gc_Roles cfg) (rr_NodeIP resp) (ProbePort (rr_Network resp)) (gc_IPsec cfg).

Definition NewShared (metrics : option GatewayMetrics) (w : W) : shared := mkShared NewAgent w ∅ 0 false metrics.

(** unloadIPsec of every client, of teardownIPsec. *)
Definition unload_all (a : Agent) (w : W) : W :=
  let _ : GatewayAgent.Host W := gateway_host cfg in
  as_host (fold_left (λ x kv, unloadIPsec kv.1 kv.2 x) (range (ag_ipsecConns a)) (mkAst a w [] ∅)).
Definition stopped (a : Agent) : Agent :=
  let a := set_backbones ∅ a in if gc_IPsec cfg then set_ipsec ∅ (ag_ipsecHere a) a else a.
Definition teardown_run (resp : RegisterGatewayResponse) (us : list gundo) s : shared :=
  let a := sh_ag s in
  with_agent (stopped a)
    (teardown (host_config resp) (bb_name <$> (range (ag_backbones a)).*2) (range (ag_index a)).*2 (unload_all a) us (sh_w s)) s.

(** Set-up and the loops, with the error of [Run] and what is to be undone. *)
Definition run_body (resp : RegisterGatewayResponse) (ts : list thread) s : option run_error * list gundo * shared :=
  let '(err, us, w) := run_setup (host_config resp) (setup (host_config resp)) [] (sh_w s) in
  let s := with_w w s in
  match err with
  | Some e => (Some (SetupFailed e), us, s)
  | None => (None, us, m_sh (run_threads cfg (apply_config resp) ts (start s)))
  end.

Definition Run (tries : nat) (ts : list thread) s : option run_error * shared :=
  match registerRetry cfg tries s with
  | (Err e, s) => (Some e, s)
  | (Ok resp, s) => let '(err, us, s) := run_body resp ts s in (err, teardown_run resp us s)
  end.
End run.

(** ** What holds of every command holds of [apply] *)

Section leads.
Context {H : Type} `{!GatewayAgent.Host H} (R : H → H → Prop) `{!PreOrder R}.
Implicit Types s : ast (H := H).
Definition leads s s' : Prop := R (as_host s) (as_host s').

Lemma leads_trans s s1 s2 : leads s s1 → leads s1 s2 → leads s s2.
Proof. unfold leads. intros. by etransitivity. Qed.
Lemma leads_refl s : leads s s.
Proof. unfold leads. reflexivity. Qed.

Lemma leads_fold {B} (f : ast → B → ast) l : (∀ s x, leads s (f s x)) → ∀ s, leads s (fold_left f l s).
Proof. intros Hf. induction l as [|x l IH]; intros s; cbn; [apply leads_refl|]. eapply leads_trans; [apply Hf|apply IH]. Qed.
Lemma leads_two {B C} (f : ast → B → ast) (g : ast → C → ast) l k s :
  (∀ s x, leads s (f s x)) → (∀ s x, leads s (g s x)) → leads s (fold_left g k (fold_left f l s)).
Proof. intros Hf Hg. apply (leads_trans _ (fold_left f l s)); by apply leads_fold. Qed.

Lemma leads_sys_err c s : (∀ h, R h (exec c h).2) → leads s (sys_err c s).
Proof. intros Hc. unfold sys_err, sys, leads. specialize (Hc (as_host s)). by destruct (exec c (as_host s)) as [[] h]. Qed.

(** The commands that unload an IPsec client. *)
Definition unload_cmd (c : cmd) : Prop :=
  match c with TerminateIKE _ | UnloadConn _ | UnloadShared _ | DelProbeRoute _ => True | _ => False end.
Lemma leads_unload session c s : (∀ c h, unload_cmd c → R h (exec c h).2) → leads s (unloadIPsec session c s).
Proof.
  intros Hc. unfold unloadIPsec. do 3 (eapply leads_trans; [|apply leads_sys_err; intros; by apply Hc]).
  apply leads_sys_err. intros. by apply Hc.
Qed.
End leads.

Section lift.
Context {H : Type} `{!GatewayAgent.Host H, !Range} (cfg : AConfig) (R : H → H → Prop) `{!PreOrder R}.
Context (R_exec : ∀ c h, R h (exec c h).2).
Implicit Types s : ast (H := H).

#[local] Ltac follow :=
  repeat match goal with
         | |- R ?a ?a => reflexivity
         | E : R ?a ?b |- R ?a _ => transitivity b; [exact E|]; clear E
         end.
#[local] Ltac chain :=
  repeat first
    [ progress cbn
    | match goal with
      | |- context [exec ?c ?h] => let E := fresh "E" in pose proof (R_exec c h) as E; destruct (exec c h) as [[] ?]; cbn in E
      | |- context [match ?x with _ => _ end] => destruct x
      end ]; follow.

Lemma leads_sys_all cs : ∀ s, leads R s (sys_all cs s).2.
Proof.
  induction cs as [|c cs IH]; intros s; cbn; [apply (leads_refl R)|]. unfold sys, leads. pose proof (R_exec c (as_host s)) as E.
  destruct (exec c (as_host s)) as [[] h]; cbn in *; [|done]. by etransitivity; [|apply IH].
Qed.
Lemma leads_index id s : leads R s (indexLocked id s).2.
Proof. unfold indexLocked, sys, leads. chain. Qed.

Lemma leads_device id s : leads R s (backbone_device cfg id s).2.
Proof.
  unfold backbone_device. destruct (ag_backbones _ !! id); [apply (leads_refl R)|]. pose proof (leads_index id s) as E.
  destruct (indexLocked id s) as [[[e|] n] s1]; [done|]. eapply (leads_trans R); [exact E|]. unfold sys at 1, leads. clear E.
  pose proof (R_exec (NewDevice ("egb" +:+ pretty n)) (as_host s1)) as E. destruct (exec _ _) as [[] h]; [|done]. cbn in E. cbn [negb].
  match goal with |- context [sys_all ?cs ?s2] => pose proof (leads_sys_all cs s2) as E2; destruct (sys_all cs s2) as [[e|] s3] end;
    unfold leads in E2; cbn [as_host snd] in E2; unfold sys_, sys; chain.
Qed.

Lemma leads_backbone id want s : leads R s (applyBackboneLocked cfg id want s).2.
Proof.
  unfold applyBackboneLocked. pose proof (leads_device id s) as E. destruct (backbone_device cfg id s) as [[b|e] s1]; [|done].
  destruct (bb_set b && _); [done|]. cbn zeta.
  match goal with |- context [let '(b, s) := ?x in _] => assert (leads R s x.2) as E1; [|destruct x as [b' s2]] end.
  { eapply (leads_trans R); [exact E|]. unfold leads, sys_, sys, set_backbone. chain. }
  destruct (negb _); [done|].
  match goal with |- context [sys_all ?cs ?s3] => pose proof (leads_sys_all cs s3) as E2; destruct (sys_all cs s3) as [[e|] s4] end;
    by eapply (leads_trans R).
Qed.

Lemma leads_probe s : leads R s (setProbeTargetsLocked cfg s).
Proof. unfold setProbeTargetsLocked, sys_err, sys, leads. chain. Qed.

Lemma leads_backbones p s : leads R s (apply_backbones cfg p s).
Proof.
  unfold apply_backbones. eapply (leads_trans R); [|apply leads_probe].
  apply (leads_two R); [intros s1 [id b]; unfold leads, drop_backbone, sys_, sys; chain|].
  intros s1 id. unfold add_backbone. destruct (Backbones p !! id) as [want|]; [|apply (leads_refl R)].
  pose proof (leads_backbone id want s1) as E. by destruct (applyBackboneLocked cfg id want s1) as [[e|] s2].
Qed.

Lemma leads_forward p s : leads R s (apply_forward p s).
Proof.
  apply (leads_two R); intros s1 [vip e]; [unfold drop_forward, sys, leads; chain|]. unfold add_forward.
  destruct (ag_forward _ !! vip); [apply (leads_refl R)|]. pose proof (leads_index e s1) as E.
  destruct (indexLocked e s1) as [[[x|] n] s2]; [done|]. unfold sys, leads in *. cbn in E. chain.
Qed.

Lemma leads_peers p s : leads R s (apply_peers p s).
Proof.
  apply (leads_two R); intros s1 [k v]; [unfold drop_peer, sys_err, sys, leads; chain|unfold add_peer, sys, leads; chain].
Qed.
Lemma leads_return p s : leads R s (apply_return p s).
Proof. apply (leads_two R); intros s1 [v x]; [unfold drop_return|unfold add_return]; unfold sys, leads; chain. Qed.
Lemma leads_removeIPsec p s : leads R s (removeIPsecLocked p s).
Proof.
  apply (leads_two R); intros s1 [x y]; [unfold drop_conn|unfold drop_here, sys_err, sys, leads; chain].
  destruct (bool_decide _); [apply (leads_refl R)|]. apply (leads_unload R x y s1). intros. apply R_exec.
Qed.
Lemma leads_addIPsec p s : leads R s (addIPsecLocked cfg p s).
Proof. apply (leads_two R); intros s1 [x y]; [unfold add_conn, sys_, sys_err|unfold add_here]; unfold sys, leads; chain. Qed.

Lemma leads_epochs p s : leads R s (apply_epochs p s).
Proof. unfold leads. reflexivity. Qed.

Lemma leads_all p s : leads R s (apply_all cfg p s).
Proof.
  unfold apply_all. cbn zeta. eapply (leads_trans R); [apply (leads_backbones p)|]. eapply (leads_trans R); [apply (leads_peers p)|].
  eapply (leads_trans R); [apply (leads_epochs p)|]. eapply (leads_trans R); [apply (leads_forward p)|].
  destruct (ipsecOn cfg); [|apply leads_return]. eapply (leads_trans R); [apply (leads_removeIPsec p)|].
  eapply (leads_trans R); [apply (leads_return p)|apply leads_addIPsec].
Qed.

Lemma leads_apply p a h : R h (apply cfg p a h).2.
Proof.
  unfold apply. pose proof (leads_all p (mkAst a h [] ∅)) as E. unfold leads in E. cbn [as_host] in E.
  assert (∀ l (x : list span * ast (H := H)), as_host (fold_left trace_move l x).2 = as_host x.2) as Ht.
  { induction l as [|[id now] l IH]; intros [sp s]; [done|]. cbn [fold_left]. rewrite IH. unfold trace_move. by repeat case_match. }
  unfold traceMovesLocked. destruct (fold_left trace_move _ _) as [sp s'] eqn:E'. cbn [snd].
  specialize (Ht (range (Sessions p)) ([], apply_all cfg p (mkAst a h [] ∅))). rewrite E' in Ht. cbn in Ht. by rewrite Ht.
Qed.
End lift.

(** ** The host's rules *)

Class RunLaws (W : Type) `{!Shell W, !ShellLaws W, !HostIO W, !HostIOLaws W, !Working W, !PeerIO W, !ControllerApi W} : Prop := {
  AddPeer_rules : ∀ dev key ps e k w, same_rules w (pio_AddPeer dev key ps e k w).2;
  RemovePeer_rules : ∀ dev key w, same_rules w (pio_RemovePeer dev key w).2;
  monSet_rules : ∀ ts w, same_rules w (pio_monSet ts w).2;
  monTurn_rules : ∀ w, same_rules w (pio_monTurn w);
  ike_rules : ∀ c w, same_rules w (pio_ike c w).2;
  ike_healthy : ∀ c w, healthy w → healthy (pio_ike c w).2;
  Register_rules : ∀ id req w, same_rules w (ctl_Register id req w).2;
  Report_rules : ∀ id rep w, same_rules w (ctl_Report id rep w).2;
  State_rules : ∀ v d w, same_rules w (ctl_State v d w).2;
  (** a uint16 *)
  Register_port : ∀ id req w resp w', ctl_Register id req w = (Ok resp, w') → 0 ≤ ProbePort (rr_Network resp);
}.

Section restores.
Context {W : Type} `{!Shell W, !ShellLaws W, !HostIO W, !HostIOLaws W, !Working W, !PeerIO W, !ControllerApi W, !RunLaws W, !Range, !NetParse}.
Context (cfg : Config).
Implicit Types w : W.
Implicit Types s : shared (W := W).

(** Only policy rules at the forwarding preference are different. *)
Definition off_fwd w : list (list string) := filter (λ r, ¬ has_pref "1000" r) (hv_rules (hview w)).
Definition only_fwd w w' : Prop := hv_ipt (hview w') = hv_ipt (hview w) ∧ off_fwd w' = off_fwd w.
#[local] Instance only_fwd_pre : PreOrder only_fwd.
Proof. split; [by intros w|]. intros w w1 w2 [? ?] [? ?]. split; congruence. Qed.

Lemma same_only_fwd w w' : same_rules w w' → only_fwd w w'.
Proof. intros [E1 E2]. split; [done|]. unfold off_fwd. by rewrite E1. Qed.

Lemma off_fwd_add r l : has_pref "1000" r → filter (λ r, ¬ has_pref "1000" r) (l ++ [r]) = filter (λ r, ¬ has_pref "1000" r) l.
Proof. intros Hr. rewrite filter_app, filter_cons_False, filter_nil, app_nil_r; [done|]. intros Hn. by apply Hn. Qed.
Lemma off_fwd_remove r l : has_pref "1000" r → filter (λ r, ¬ has_pref "1000" r) (remove_first r l) = filter (λ r, ¬ has_pref "1000" r) l.
Proof.
  intros Hr. induction l as [|x l IH]; cbn [remove_first]; [done|]. case_decide as Hx.
  - subst. rewrite filter_cons_False; [done|]. intros Hn. by apply Hn.
  - rewrite !filter_cons. by rewrite IH.
Qed.

Lemma rule_only_fwd (verb : bool) vip t w :
  only_fwd w (done_of ((if verb then addRule else delRule) (ruleFrom vip t) w)).2.
Proof.
  destruct ((if verb then addRule else delRule) (ruleFrom vip t) w) as [e w'] eqn:E. cbn.
  assert (has_pref "1000" (ruleFrom vip t)) as Hp by done.
  destruct verb; apply ipIgnore_ip in E as (e' & E & _); (apply ip_cases in E; [|done]);
    destruct E as [(_ & _ & E)|[_ E]]; try (by apply same_only_fwd, same_rules_view); split; try by rewrite E.
  - unfold off_fwd. rewrite E. by apply off_fwd_add.
  - unfold off_fwd. rewrite E. by apply off_fwd_remove.
Qed.

Lemma done_quiet (f : W → option string * W) w : (∀ e w', f w = (e, w') → same_rules w w') → only_fwd w (done_of (f w)).2.
Proof. intros Hf. apply same_only_fwd. unfold done_of. destruct (f w) as [e w']. by eapply Hf. Qed.

Lemma shell_exec_only c w : only_fwd w (shell_exec (gc_MTU cfg) c w).2.
Proof.
  destruct c; cbn [shell_exec].
  all: try (apply done_quiet; intros e w' E; first [by eapply flushTable_quiet|by eapply addrUp_quiet|eapply ip_quiet; [|exact E]; exact I|eapply ipIgnore_quiet; [|exact E]; exact I]).
  all: try (apply same_only_fwd; first [apply AddPeer_rules|apply RemovePeer_rules|apply monSet_rules|apply ike_rules|apply CloseReal_rules]).
  - destruct (NewReal name w) as [ok w'] eqn:E. eapply same_only_fwd, NewReal_rules, E.
  - apply (rule_only_fwd true).
  - apply (rule_only_fwd false).
Qed.

Lemma unload_unloads a : unloads (unload_all cfg a).
Proof.
  assert (∀ w, (healthy w → healthy (unload_all cfg a w)) ∧ same_rules w (unload_all cfg a w)) as Ha; [|intros w Hw; split; by apply Ha].
  intros w. set (R w w' := (healthy w → healthy w') ∧ same_rules w w').
  assert (PreOrder R) by (split; [by intros x|]; intros x y z [? [? ?]] [? [? ?]]; split; [auto|split; congruence]).
  unfold unload_all. refine (leads_fold R _ (range (ag_ipsecConns a)) _ (mkAst a w [] ∅)). intros s [x c].
  apply (leads_unload (H := W) R). intros c' h Hc. destruct c'; try done; cbn; try (split; [apply ike_healthy|apply ike_rules]).
  destruct (ipIgnore _ h) as [e h'] eqn:E. cbn. split; [|eapply ipIgnore_quiet; [|exact E]; exact I]. intros Hh.
  apply ipIgnore_ip in E as (e' & E & _). eapply healthy_run_ip; [done|exact E|done].
Qed.

(** *** The threads *)

Section threads.
Context (acfg : AConfig).
Implicit Types m : machine (W := W).

Lemma send_only ports s : only_fwd (sh_w s) (sh_w (register_send cfg ports s).2).
Proof.
  unfold register_send. pose proof (Register_rules (gc_ID cfg) (request cfg ports) (sh_w s)) as E.
  destruct (ctl_Register _ _ _) as [r w]. by apply same_only_fwd.
Qed.

Lemma main_only m : only_fwd (sh_w (m_sh m)) (sh_w (m_sh (main_step cfg acfg m))).
Proof.
  destruct m as [s pc v r]. destruct pc; cbn; try reflexivity.
  - pose proof (State_rules v pollWait (sh_w s)) as E. destruct (ctl_State _ _ _) as [[st|e] w]; by apply same_only_fwd.
  - unfold apply_state. pose proof (leads_apply (H0 := gateway_host cfg) acfg only_fwd (shell_exec_only)
      (MakePlan (gc_ID cfg) (gc_Roles cfg) st) (sh_ag s) (sh_w s)) as E.
    destruct (apply _ _ _ _) as [[[[|e es] sp] a] w]; exact E.
  - pose proof (send_only ports s) as E. by destruct (register_send cfg ports s) as [[resp|e] s'].
Qed.

Lemma report_only m : only_fwd (sh_w (m_sh m)) (sh_w (m_sh (report_step cfg acfg m))).
Proof.
  destruct m as [s pc v r]. destruct r; cbn; try reflexivity.
  - apply (leads_probe (H0 := gateway_host cfg) acfg only_fwd shell_exec_only (mkAst (sh_ag s) (sh_w s) [] ∅)).
  - pose proof (Report_rules (gc_ID cfg) (link_report ids (sh_w s)) (sh_w s)) as E.
    destruct (ctl_Report _ _ _) as [[u|e] w]; by apply same_only_fwd.
  - pose proof (send_only ports s) as E. by destruct (register_send cfg ports s) as [[resp|e] s'].
Qed.

Lemma threads_only ts : ∀ m, only_fwd (sh_w (m_sh m)) (sh_w (m_sh (run_threads cfg acfg ts m))).
Proof.
  induction ts as [|t ts IH]; intros m; cbn; [reflexivity|]. etransitivity; [|apply IH].
  destruct t; [apply main_only|apply report_only|]. apply same_only_fwd, monTurn_rules.
Qed.
End threads.

Lemma register_only s : same_rules (sh_w s) (sh_w (register cfg s).2).
Proof.
  unfold register, register_send. pose proof (Register_rules (gc_ID cfg) (request cfg (listen_ports (sh_ag s) (sh_w s))) (sh_w s)) as E.
  by destruct (ctl_Register _ _ _) as [[resp|e] w].
Qed.
Lemma retry_only tries : ∀ s r s', registerRetry cfg tries s = (r, s') →
  same_rules (sh_w s) (sh_w s') ∧ (∀ resp, r = Ok resp → 0 ≤ ProbePort (rr_Network resp)).
Proof.
  induction tries as [|n IH]; intros s r s'; cbn; [by intros [= <- <-]|].
  pose proof (register_only s) as E. destruct (register cfg s) as [a s1] eqn:Ea. cbn in E.
  assert (∀ r s', registerRetry cfg n s1 = (r, s') → same_rules (sh_w s) (sh_w s') ∧ (∀ resp, r = Ok resp → 0 ≤ ProbePort (rr_Network resp))) as Hn.
  { intros r1 s2 [? ?]%IH. split; [|done]. by eapply same_rules_trans. }
  destruct a as [resp|[]]; try apply Hn; try (destruct (_ =? 4); [by intros [= <- <-]|apply Hn]).
  intros [= <- <-]. split; [done|]. intros ? [= <-]. unfold register, register_send in Ea.
  destruct (ctl_Register _ _ _) as [[resp1|] w1] eqn:Er; simplify_eq. by eapply Register_port.
Qed.

End restores.

(** ** The ports the controller knows *)

(** [told]: the ports in the controller's record of this gateway, if it has one.
    Anything but a registration leaves the record as it is, or the controller
    loses it. A device that listens has a port. *)
Class Registry (W : Type) `{!Shell W, !HostIO W, !PeerIO W, !ControllerApi W} := {
  told : W → option (gmap string Z);
  told_registered : ∀ id req w resp w', ctl_Register id req w = (Ok resp, w') → told w' = Some (rg_BackbonePorts req);
  told_exec : ∀ mtu c w, told (shell_exec mtu c w).2 = told w ∨ told (shell_exec mtu c w).2 = None;
  told_report : ∀ id rep w, told (ctl_Report id rep w).2 = told w ∨ told (ctl_Report id rep w).2 = None;
  told_state : ∀ v d w, told (ctl_State v d w).2 = told w ∨ told (ctl_State v d w).2 = None;
  told_monitor : ∀ w, told (pio_monTurn w) = told w ∨ told (pio_monTurn w) = None;
  ListenPort_bound : ∀ dev w p, pio_ListenPort dev w = Some p → p ≠ 0;
}.

Definition registering_main (pc : main_pc) : bool := match pc with MSend _ | MStore _ => true | _ => false end.
Definition registering_report (r : report_pc) : bool := match r with RSend _ | RStore _ => true | _ => false end.

Section ports.
Context {W : Type} `{!Shell W, !HostIO W, !PeerIO W, !ControllerApi W, !Registry W, !Range, !NetParse} (cfg : Config) (acfg : AConfig).
Implicit Types w : W.
Implicit Types s : shared (W := W).
Implicit Types m : machine (W := W).

(** After this step the two loops are not both registering, and it is not a
    registration that failed. *)
Definition smooth m (t : thread) : bool :=
  let m' := step cfg acfg m t in
  negb (registering_main (m_main m') && registering_report (m_report m'))
  && match t, m_main m, m_main m', m_report m, m_report m' with
     | Main, MSend _, MAsk, _, _ | Report, _, _, RSend _, RPublish => false
     | _, _, _, _, _ => true
     end.
Fixpoint smooth_run m (ts : list thread) : bool :=
  match ts with [] => true | t :: ts => smooth m t && smooth_run (step cfg acfg m t) ts end.

Definition keeps w w' : Prop := told w' = told w ∨ told w' = None.
#[local] Instance keeps_pre : PreOrder keeps.
Proof. split; [by left|]. intros w w1 w2 [E|E] [E'|E']; unfold keeps; rewrite E', ?E; auto. Qed.

(** What the controller should have: the ports last registered, or those of the
    registration it has just answered. *)
Definition expected m : gmap string Z :=
  match m_main m, m_report m with MStore p, _ => p | _, RStore p => p | _, _ => sh_ports (m_sh m) end.
Record agreed m : Prop := {
  agreed_told : told (sh_w (m_sh m)) = None ∨ told (sh_w (m_sh m)) = Some (expected m);
  agreed_one : registering_main (m_main m) && registering_report (m_report m) = false;
}.

Lemma keeps_told w w' p : keeps w w' → told w = None ∨ told w = Some p → told w' = None ∨ told w' = Some p.
Proof. intros [->| ->]; auto. Qed.

Lemma send_told ports s resp s' : register_send cfg ports s = (Ok resp, s') → told (sh_w s') = Some ports ∧ sh_ports s' = sh_ports s.
Proof.
  unfold register_send. destruct (ctl_Register _ _ _) as [r w] eqn:E. intros [= -> <-]. by apply told_registered in E.
Qed.

Lemma apply_keeps st s : keeps (sh_w s) (sh_w (apply_state cfg acfg st s)) ∧ sh_ports (apply_state cfg acfg st s) = sh_ports s.
Proof.
  unfold apply_state. pose proof (leads_apply (H0 := gateway_host cfg) acfg keeps (told_exec (gc_MTU cfg))
    (MakePlan (gc_ID cfg) (gc_Roles cfg) st) (sh_ag s) (sh_w s)) as E.
  by destruct (apply _ _ _ _) as [[[[|e es] sp] a] w].
Qed.

Lemma main_agreed m : agreed m → smooth m Main = true → agreed (step cfg acfg m Main).
Proof.
  intros [Ht Ho] [Hs Hf]%andb_prop. apply negb_true_iff in Hs. split; [|done]. revert Ht Ho Hf Hs. clear.
  destruct m as [s pc v r]. unfold expected. destruct pc; cbn; intros Ht Ho Hf Hs; try done.
  - pose proof (told_state v pollWait (sh_w s)) as E. destruct (ctl_State _ _ _) as [[st|e] w]; by eapply keeps_told.
  - destruct (apply_keeps st s) as [E ->]. by eapply keeps_told.
  - by destruct (portsChanged s).
  - destruct (register_send cfg ports s) as [[resp|e] s'] eqn:E; [|done]. apply send_told in E as [E _]. auto.
  - by destruct r.
Qed.

Lemma report_agreed m : agreed m → smooth m Report = true → agreed (step cfg acfg m Report).
Proof.
  intros [Ht Ho] [Hs Hf]%andb_prop. apply negb_true_iff in Hs. split; [|done]. revert Ht Ho Hf Hs. clear.
  destruct m as [s pc v r]. unfold expected. destruct r; cbn; intros Ht Ho Hf Hs; try (by destruct pc).
  - pose proof (leads_probe (H0 := gateway_host cfg) acfg keeps (told_exec (gc_MTU cfg)) (mkAst (sh_ag s) (sh_w s) [] ∅)) as E.
    destruct pc; by eapply keeps_told.
  - pose proof (told_report (gc_ID cfg) (link_report ids (sh_w s)) (sh_w s)) as E.
    destruct (ctl_Report _ _ _) as [ans w]. cbn in *. pose proof (keeps_told _ w _ E Ht). destruct ans as [|[]]; cbn; destruct pc; try done; by destruct (_ =? _).
  - destruct (register_send cfg ports s) as [[resp|e] s'] eqn:E; [|by destruct pc]. apply send_told in E as [E _]. destruct pc; by auto.
Qed.

Lemma step_agreed m t : agreed m → smooth m t = true → agreed (step cfg acfg m t).
Proof.
  intros Ha Hs. destruct t; [by apply main_agreed|by apply report_agreed|]. destruct Ha as [Ht Ho]. split; [|done].
  exact (keeps_told _ _ _ (told_monitor (sh_w (m_sh m))) Ht).
Qed.

Lemma run_agreed ts : ∀ m, agreed m → smooth_run m ts = true → agreed (run_threads cfg acfg ts m).
Proof. induction ts as [|t ts IH]; intros m Ha; [done|]. intros [Hs Hr]%andb_prop. by apply IH; [apply step_agreed|]. Qed.

(** Registration leaves the loops with such a record. *)
Lemma retry_told tries : ∀ s resp s', registerRetry cfg tries s = (Ok resp, s') → told (sh_w s') = Some (sh_ports s').
Proof.
  induction tries as [|n IH]; intros s resp s'; cbn; [done|]. unfold register.
  destruct (register_send cfg _ s) as [[r|[]] s1] eqn:E; try (destruct (_ =? 4); [done|]); try apply IH.
  intros [= <- <-]. by apply send_told in E as [E _].
Qed.

(** When there is nothing to register again, the ports registered are those the
    devices listen on. *)
Lemma portsChanged_false s : portsChanged s = false → sh_ports s = listen_ports (sh_ag s) (sh_w s).
Proof.
  intros [Hn He]%orb_false_elim. apply negb_false_iff, Nat.eqb_eq in Hn.
  assert (∀ id b, ag_backbones (sh_ag s) !! id = Some b → is_Some (pio_ListenPort (bb_name b) (sh_w s)) ∧ sh_ports s !! id = pio_ListenPort (bb_name b) (sh_w s)) as Hb.
  { intros id b Hin%elem_of_map_to_list%list_elem_of_In. assert (port_changed s (id, b) = false) as Hc.
    { destruct (port_changed s (id, b)) eqn:E; [|done]. rewrite <- He. symmetry. apply existsb_exists. eauto. }
    unfold port_changed in Hc. cbn in Hc. destruct (pio_ListenPort (bb_name b) (sh_w s)) as [p|] eqn:E; [|done]. split; [done|].
    apply negb_false_iff, Z.eqb_eq in Hc. apply ListenPort_bound in E. destruct (sh_ports s !! id) as [q|]; cbn in Hc; congruence. }
  assert (listen_ports (sh_ag s) (sh_w s) ⊆ sh_ports s) as Hsub.
  { apply map_subseteq_spec. intros id p. unfold listen_ports. rewrite lookup_omap_Some. intros (b & E & Hin).
    destruct (Hb id b Hin) as [_ ->]. done. }
  symmetry. apply map_subseteq_size_eq; [done|]. rewrite Hn. apply Nat.eq_le_incl. rewrite <- !size_dom. f_equal.
  apply leibniz_equiv. intros id. rewrite !elem_of_dom. unfold listen_ports. rewrite lookup_omap. split.
  - intros [b E]. rewrite E. cbn. by apply (Hb id).
  - intros [p E]. destruct (ag_backbones (sh_ag s) !! id); [by eexists|done].
Qed.

(** C18: outside of a registration, and when the agent finds nothing to register
    again, the controller's record of this gateway has exactly the ports its
    backbone devices listen on, or the controller has lost the record (which the
    next report finds out). It is so in every interleaving of the loops in which
    their registrations do not overlap and none fails, whatever plans are
    applied, devices come and go, and records are lost in between. *)
Theorem controller_knows_ports ts s :
  told (sh_w s) = None ∨ told (sh_w s) = Some (sh_ports s) → smooth_run (start s) ts = true →
  let m := run_threads cfg acfg ts (start s) in
  registering_main (m_main m) = false → registering_report (m_report m) = false → portsChanged (m_sh m) = false →
  told (sh_w (m_sh m)) = None ∨ told (sh_w (m_sh m)) = Some (listen_ports (sh_ag (m_sh m)) (sh_w (m_sh m))).
Proof.
  intros Ht Hs m Hm Hr Hp. rewrite <- portsChanged_false by done.
  destruct (run_agreed ts (start s)) as [Ha _]; [by split|done|]. fold m in Ha. unfold expected in Ha.
  by destruct (m_main m), (m_report m).
Qed.
End ports.

(** ** Two gateways *)

Module GatewayRunDemo.
Import HostDemo GatewayHostDemo.

(** A host, the controller's record of the gateway, and the states it will
    answer with; [None] is a restart that loses the record. *)
Record net := mkNet { n_host : sim; n_told : option (gmap string Z); n_answers : list (option GatewayState) }.
Definition with_host (h : sim) (w : net) : net := mkNet h (n_told w) (n_answers w).

#[export] Instance net_shell : Shell net := {
  sh name args w := let '(out, x, h) := sh name args (n_host w) in (out, x, with_host h w);
  WriteFile path s w := let '(ok, h) := WriteFile path s (n_host w) in (ok, with_host h w);
  ReadFile path w := ReadFile path (n_host w);
}.
#[export] Instance net_shell_laws : ShellLaws net.
Proof.
  refine {| hview w := hview (n_host w) |}.
  - intros args w out x w' E. cbn in E. destruct (sim_sh _ _ _) as [[out' x'] h] eqn:Es. simplify_eq. by eapply (ip_ok (W := sim)).
  - intros args w out x w' E. cbn in E. destruct (sim_sh _ _ _) as [[out' x'] h] eqn:Es. simplify_eq. by eapply (ip_failed (W := sim)).
  - intros args w out x w' E. cbn in E. destruct (sim_sh _ _ _) as [[out' x'] h] eqn:Es. simplify_eq. by eapply (ip_other (W := sim)).
  - intros args op r w out x w' E. cbn in E. destruct (sim_sh _ _ _) as [[out' x'] h] eqn:Es. simplify_eq. by eapply (iptables_ok (W := sim)).
  - intros args op r w out x w' E. cbn in E. destruct (sim_sh _ _ _) as [[out' x'] h] eqn:Es. simplify_eq. by eapply (iptables_failed (W := sim)).
  - by intros path s w ok w' [= _ <-].
Defined.

#[export] Instance net_io : HostIO net := {
  NewReal _ w := (true, w); CloseReal _ w := w; AddXfrm _ _ w := (true, w); DelXfrm _ w := w;
  ListenUDP _ _ w := (true, w); CloseUDP w := w;
}.
#[export] Instance net_io_laws : HostIOLaws net.
Proof. split; intros; cbn in *; simplify_eq; by split. Qed.
#[export] Instance net_working : Working net.
Proof.
  refine {| healthy w := healthy (n_host w) |}.
  - intros args w out x w' Hh E. cbn in E. destruct (sim_sh _ _ _) as [[out' x'] h] eqn:Es. simplify_eq. by eapply (healthy_ip (W := sim)).
  - intros args op r w out x w' Hh E. cbn in E. destruct (sim_sh _ _ _) as [[out' x'] h] eqn:Es. simplify_eq. by eapply (healthy_iptables (W := sim)).
  - done.
Defined.

#[export] Instance net_peers : PeerIO net := {
  pio_AddPeer _ _ _ _ _ w := (true, w); pio_RemovePeer _ _ w := (true, w); pio_handshaken _ _ _ := true;
  pio_ListenPort _ _ := Some 51001; pio_monSet _ w := (true, w); pio_monStats _ _ := None; pio_monTurn w := w;
  pio_ike _ w := (true, w);
}.

Definition reg : RegisterGatewayResponse :=
  mkRegistered (Addr4 0x0a400001) (mkNetwork (mkPrefix (Addr4 0x0a410000) 16) (mkPrefix (Addr4 0x0a400000) 24) 7100).
#[export] Instance net_controller : ControllerApi net := {
  ctl_Register _ req w := (Ok reg, mkNet (n_host w) (Some (rg_BackbonePorts req)) (n_answers w));
  ctl_Report _ _ w := (match n_told w with Some _ => Ok tt | None => Err (StatusError StatusNotFound "gateway not registered") end, w);
  ctl_State _ _ w :=
    match n_answers w with
    | Some st :: rest => (Ok st, mkNet (n_host w) (n_told w) rest)
    | None :: rest => (Err TransportError, mkNet (n_host w) None rest)
    | [] => (Err TransportError, w)
    end;
}.
#[export] Instance net_run_laws : RunLaws net.
Proof.
  split; try (intros; by split); [| |by intros id req w resp w' [= <- _]].
  - intros. by destruct c.
  - intros v d w. cbn. by destruct (n_answers w) as [|[st|] rest].
Qed.
#[export] Instance net_registry : Registry net.
Proof.
  refine {| told := n_told |}.
  - by intros id req w resp w' [= _ <-].
  - intros mtu c w. left. assert (∀ args w, n_told (ip args w).2 = n_told w) as Hip.
    { intros args x. unfold ip, GatewayHost.run. cbn. destruct (sim_sh _ _ _) as [[o e] h]. by destruct (exit_ok e). }
    assert (∀ args w, n_told (ipIgnore args w).2 = n_told w) as Hig.
    { intros args x. unfold ipIgnore. specialize (Hip args x). destruct (ip args x) as [[msg|] x']; [by destruct (existsb _ _)|done]. }
    destruct c; cbn [shell_exec done_of snd]; unfold flushTable, addRule, delRule; try done; try apply Hip; try apply Hig.
    unfold addrUp, and_then. pose proof (Hig ["addr"; "add"; host32 addr; "dev"; name] w) as E1.
    destruct (ipIgnore _ w) as [[e|] w1]; [done|]. pose proof (Hip ["link"; "set"; name; "mtu"; Itoa mtu; "up"] w1) as E2.
    destruct (ip _ w1) as [[e|] w2]; cbn in *; congruence.
  - by left.
  - intros v d w. cbn. destruct (n_answers w) as [|[st|] rest]; cbn; auto.
  - by left.
  - by intros dev w p [= <-].
Defined.
#[export] Instance net_range : Range := {| range K _ _ V m := map_to_list m |}.
#[export] Instance net_parse : NetParse := {| ParseAddrPort s := if String.eqb s "" then None else Some (Addr4 3405803777, 51820) |}.

Definition me : Config := mkConfig "hk" true (Z.lor RoleAccess RoleEgress) "" "203.0.113.1:51820" "eth0" 1380 false.
Definition key : string := "AAAAAAAAAAAAAAAAAAAAAAAAAAAAAAAAAAAAAAAAAAA=".
Definition peer : Gateway := mkGateway "sg" (Z.lor RoleAccess RoleEgress) "203.0.113.2:51820" key (Addr4 0x0a400002) {["hk" := 51002]} false true.
Definition client : ApiSession := mkSession "7" key (Addr4 0x0a410007) "hk" "sg" 1 "" "".
Definition with_peer : GatewayState := mkGWState 3 (rr_Network reg) [peer] [client].
Definition fresh (faults : list bool) (answers : list (option GatewayState)) : shared :=
  NewShared (Some NewGatewayMetrics) (mkNet (host faults) None answers).

(** The gateway applies a plan with a backbone and a session it forwards, and
    reports. *)
Definition turn : list thread := [Main; Main; Main; Main; Main; Main; Main].
Definition day : list thread := turn ++ [Report; Monitor; Report; Report; Main].
Definition busy : shared := (run_body me reg day (registerRetry me 1 (fresh [] [Some with_peer])).2).2.
Example forwarded : hv_rules (hview (sh_w busy)) =
  [["from"; "10.0.0.0/8"; "lookup"; "7"; "pref"; "50"]; ["from"; "10.64.0.1/32"; "lookup"; "100"; "pref"; "100"];
   ["from"; "10.65.0.7/32"; "lookup"; "1000"; "pref"; "1000"]] ∧ sh_ports busy = {["sg" := 51001]} ∧ sh_version busy = 3.
Proof. vm_compute. by split_and!. Qed.


Definition registered (answers : list (option GatewayState)) : shared := (registerRetry me 1 (fresh [] answers)).2.
Lemma controller_knows_ports_witness :
  let m := run_threads me (apply_config me reg) day (start (registered [Some with_peer])) in
  told (sh_w (m_sh m)) = None ∨ told (sh_w (m_sh m)) = Some (listen_ports (sh_ag (m_sh m)) (sh_w (m_sh m))).
Proof.
  refine (controller_knows_ports me (apply_config me reg) day (registered [Some with_peer]) _ _ _ _ _).
  - right. vm_compute. reflexivity.
  - vm_compute. reflexivity.
  - vm_compute. reflexivity.
  - vm_compute. reflexivity.
  - vm_compute. reflexivity.
Defined.

(** *** Registrations that overlap

    The controller restarts; the report that finds out reads the ports, a plan
    brings a new backbone, and both loops register. The report's request is the
    last one the controller takes, and the loop of [Run] is the last to note
    what it registered: the controller has no port for the backbone, and the
    agent takes it for registered. *)
Definition overlap : list thread :=
  [Main; Report; Report; Report] ++ [Main; Main; Main; Main; Main] ++ [Main; Report; Report; Main; Report].
Lemma overlapping_registrations_disagree :
  let m := run_threads me (apply_config me reg) overlap (start (registered [None; Some with_peer])) in
  m_main m = MAsk ∧ m_report m = RTick ∧ told (sh_w (m_sh m)) = Some ∅ ∧ sh_ports (m_sh m) = {["sg" := 51001]}
  ∧ listen_ports (sh_ag (m_sh m)) (sh_w (m_sh m)) = {["sg" := 51001]} ∧ portsChanged (m_sh m) = false.
Proof. vm_compute. by split_and!. Qed.

(** What New refuses. *)
Example new_checks : New me = Ok me ∧ New (mkConfig "hk" true RoleEgress "" "x" "" 0 false) = Err NoUplink
  ∧ New (mkConfig "" true RoleEgress "" "x" "eth0" 0 false) = Err NoIdentity.
Proof. vm_compute. by split_and!. Qed.
End GatewayRunDemo.
