(* ===== verification/Daemon.v ===== *)
(** * The daemons: cmd/controller, cmd/gateway and cmd/client, internal/cliutil,
    and Run and publish of internal/controller/server.go

    What each program does with its flags up to the component it runs: secrets,
    checks, the choice of the store, keys, and every way it refuses to start.
    [any_store] is the interface value the controller serves from: the store in
    memory, the file store or etcd. Flags are given as parsed. The theorem: a
    controller with a state file that is stopped at any time, whatever requests
    it served, starts again with every gateway, session and owner it had. *)

From S2P Require Import Prelude GoStrings Tracing Metrics Etcd Command Store Ownership Services Netip GoFloat Cost Api Controller ControllerSpec IpsecConfig IpsecRender Http Keys HostNet ClientFiles ClientAgent ClientRun GatewayRun.
Import Membership.

(** ** internal/cliutil *)

Record LogFlags := mkLogFlags { lf_Format : string; lf_Level : string }.
Definition Register : LogFlags := mkLogFlags "text" "info".
Definition Logger (version role node : string) (f : LogFlags) : option Tracing.Logger :=
  NewLogger (mkLogConfig true (lf_Format f) (lf_Level f) role node version).

(** What the programs use of the host and the libraries without looking inside. *)
Class DaemonHost (W : Type) := {
  (** [telemetry.ServeMetrics]: listening worked *)
  dh_ServeMetrics : string → W → bool * W;
  dh_ParsePrefix : string → option Prefix;
  (** [json.Unmarshal] into a copy of the default document *)
  dh_policy : bytes → option Policy.PolicyDocument;
  (** the state file as a map of raw values; [Ok None] when it does not exist *)
  dh_statefile : string → W → res string (option (gmap string bytes));
  dh_MkdirAll : string → W → bool * W;
  (** the vici socket and netlink *)
  dh_ipsec : string → W → bool * W;
}.

Inductive start_error := BadFlag (flag : string) | CannotRead (file : string) | KeyTooShort | TwoStores | NoStore | BadPolicy
| NoMetrics (addr : string) | BadConfig.

Section util.
Context {W : Type} `{!Files W, !Environ W, !DaemonHost W}.
Implicit Types w : W.

Definition secret (file env : string) w : res start_error string :=
  match Command.Secret file env w with Ok s => Ok s | Err _ => Err (CannotRead file) end.

(** Whether there is a registry; without one every metrics value is nil. *)
Definition MetricsServer (addr : string) w : res start_error bool * W :=
  if String.eqb addr "" then (Ok false, w)
  else let '(ok, w) := dh_ServeMetrics addr w in (if (ok : bool) then Ok true else Err (NoMetrics addr), w).
End util.

Definition ParseRoles_step (acc : res string Z) (part : string) : res string Z :=
  match acc with
  | Err e => Err e
  | Ok r =>
      let p := TrimSpace part in
      if String.eqb p "access" then Ok (Z.lor r RoleAccess)
      else if String.eqb p "egress" then Ok (Z.lor r RoleEgress)
      else if String.eqb p "" then Ok r
      else Err ("api: unknown gateway role " +:+ part)
  end.
Definition ParseRoles (s : string) : res string Z :=
  match fold_left ParseRoles_step (Split (Ascii.ascii_of_nat 44) s) (Ok 0) with
  | Err e => Err e
  | Ok r => if r =? 0 then Err ("api: no gateway role in " +:+ s) else Ok r
  end.

(** ** The controller's store *)

#[export] Instance FileStore_KVStore `{!RawJSON} : KVStore FileStore := {
  kv_Put k v f := default (f, Some (StoreFailure "panic")) (fs_Put k v f);
  kv_Get k f := Ok (mem_Get k (fs_mem f));
  kv_List p f := Ok (mem_List p (fs_mem f));
}.
#[export] Instance FileStore_Fencer `{!RawJSON} : Fencer FileStore := {
  fence_Revision k f := Ok (mem_Revision k (fs_mem f));
  fence_CompareAndSwap k x v f :=
    match fs_CompareAndSwap k x v f with
    | Some (f', (rev, ok, None)) => (f', Ok (rev, ok))
    | Some (f', (_, _, Some e)) => (f', Err e)
    | None => (f, Err (StoreFailure "panic"))
    end;
}.

Inductive any_store (E : Type) := SMem (m : MemStore) | SFile (f : FileStore) | SEtcd (e : EtcdStore E).
Arguments SMem {E} m.
Arguments SFile {E} f.
Arguments SEtcd {E} e.

Section any_store.
Context {E : Type} `{!EtcdClient E, !RawJSON}.

#[export] Instance any_KVStore : KVStore (any_store E) := {
  kv_Put k v st := match st with
    | SMem m => let '(m, e) := kv_Put k v m in (SMem m, e)
    | SFile f => let '(f, e) := kv_Put k v f in (SFile f, e)
    | SEtcd c => let '(c, e) := et_Put k v c in (SEtcd c, e)
    end;
  kv_Get k st := match st with SMem m => kv_Get k m | SFile f => kv_Get k f | SEtcd c => et_Get k c end;
  kv_List p st := match st with SMem m => kv_List p m | SFile f => kv_List p f | SEtcd c => et_List p c end;
}.
#[export] Instance any_Fencer : Fencer (any_store E) := {
  fence_Revision k st := match st with SMem m => fence_Revision k m | SFile f => fence_Revision k f | SEtcd c => et_Revision k c end;
  fence_CompareAndSwap k x v st := match st with
    | SMem m => let '(m, r) := fence_CompareAndSwap k x v m in (SMem m, r)
    | SFile f => let '(f, r) := fence_CompareAndSwap k x v f in (SFile f, r)
    | SEtcd c => let '(c, r) := et_CompareAndSwap k x v c in (SEtcd c, r)
    end;
}.
End any_store.

(** ** cmd/controller *)

Record options := mkOptions {
  o_stateFile : string; o_etcd : string; o_gwTokenFile : string; o_clTokenFile : string; o_clientSubnet : string; o_nodeSubnet : string;
  o_policy : string; o_probePort : Z; o_metricsListen : string; o_ipsecKeyFile : string }.

Section controller.
Context {W E : Type} `{!Files W, !Environ W, !DaemonHost W, !EtcdClient E, !RawJSON}.
(** connecting to etcd; a build without the etcd tag always fails *)
Context (openEtcd : string → W → option E).
Implicit Types w : W.

(** The [switch] over --etcd and --state-file. *)
Definition open_store (o : options) w : res start_error (any_store E) :=
  if negb (String.eqb (o_etcd o) "") && negb (String.eqb (o_stateFile o) "") then Err TwoStores
  else if negb (String.eqb (o_etcd o) "") then match openEtcd (o_etcd o) w with Some c => Ok (SEtcd (NewEtcdStore c)) | None => Err NoStore end
  else if negb (String.eqb (o_stateFile o) "") then
    match dh_statefile (o_stateFile o) w with
    | Err _ => Err (CannotRead (o_stateFile o))
    | Ok disk => match OpenFileStore disk [] with Some f => Ok (SFile f) | None => Err NoStore end
    end
  else Ok (SMem NewMemStore).

Definition read_policy (o : options) w : res start_error (option Policy.PolicyDocument) :=
  if String.eqb (o_policy o) "" then Ok None
  else match f_Read (o_policy o) w with
       | Err _ => Err (CannotRead (o_policy o))
       | Ok data => match dh_policy data with Some doc => Ok (Some doc) | None => Err BadPolicy end
       end.

Definition controller_config (o : options) w : res start_error SConfig :=
  match dh_ParsePrefix (o_clientSubnet o) with
  | None => Err (BadFlag "--client-subnet")
  | Some cs =>
      match dh_ParsePrefix (o_nodeSubnet o) with
      | None => Err (BadFlag "--node-subnet")
      | Some ns =>
          if (o_probePort o =? 0) || (o_probePort o >? 65535) then Err (BadFlag "--probe-port") else
          try gwToken := secret (o_gwTokenFile o) "EGRESSA_GATEWAY_TOKEN" w in
          try clToken := secret (o_clTokenFile o) "EGRESSA_CLIENT_TOKEN" w in
          try ipsecKey := secret (o_ipsecKeyFile o) "EGRESSA_IPSEC_KEY" w in
          if negb (String.eqb ipsecKey "") && (Z.of_nat (String.length ipsecKey) <? 32) then Err KeyTooShort else
          Ok (mkSConfig gwToken clToken (mkNetwork cs ns (o_probePort o)) 0 (text_bytes ipsecKey))
      end
  end.

Context `{!Codec Policy.PolicyDocument}.
(** [run] up to the HTTP server: what it serves and whether it has metrics. *)
Definition controller_run (o : options) w : res start_error (SConfig * Server (any_store E) * bool) * W :=
  match (try cfg := controller_config o w in try st := open_store o w in try pol := read_policy o w in Ok (cfg, st, pol)) with
  | Err e => (Err e, w)
  | Ok (cfg, st, pol) =>
      match MetricsServer (o_metricsListen o) w with
      | (Err e, w) => (Err e, w)
      | (Ok reg, w) =>
          (match (Http.New cfg pol st).2 with
           | Some (cfg, srv) => Ok (cfg, srv, reg)
           | None => Err BadConfig
           end, w)
      end
  end.
End controller.

(** Run and publish of the server: what each tick leaves in the metrics. *)
Section server.
Context `{!Codec Gateway} {St : Type} `{!KVStore St} (cfg : SConfig).

Definition srv_snapshot (s : Server St) : option ControllerSnapshot :=
  match Controller.gateways (sv_store s), kv_List clientKeyPrefix (sv_store s) with
  | Some gws, Ok raw =>
      let up := filter (λ g, default false (alive s !! g_ID g) = true) gws in
      Some (mkControllerSnapshot (Z.of_nat (length up)) (Z.of_nat (length gws) - Z.of_nat (length up)) (Z.of_nat (size raw)) (Controller.version s))
  | _, _ => None
  end.
Definition srv_publish (s : Server St) (m : option ControllerMetrics) : option ControllerMetrics :=
  match srv_snapshot s with Some snap => controller_record [] (KSnapshot snap) m | None => m end.
(** [now] of each tick until the context ends. *)
Definition srv_Run (ticks : list Time) (s : Server St) (m : option ControllerMetrics) : Server St * option ControllerMetrics :=
  fold_left (λ sm now, let s := sweep cfg now sm.1 in (s, srv_publish s sm.2)) ticks (s, srv_publish s m).
End server.

(** ** cmd/gateway *)

Inductive exit_with := Usage (msg : string) | Fatal (msg : string).

Record gateway_flags := mkGatewayFlags {
  gf_id : string; gf_controller : string; gf_tokenFile : string; gf_role : string; gf_listenPort : Z; gf_endpoint : string; gf_uplink : string;
  gf_keyFile : string; gf_mtu : Z; gf_metrics : string; gf_ipsec : bool; gf_viciSocket : string; gf_logs : LogFlags }.

Section gateway.
Context {W : Type} `{!Files W, !Environ W, !DaemonHost W, !KeyHost W, !UrlParse, !NetParse} (version : string).
Implicit Types w : W.

Definition or_fatal {A B} (msg : string) (r : res A B) : res exit_with B := match r with Ok x => Ok x | Err _ => Err (Fatal msg) end.

(** [main] up to the agent's Run: the agent's configuration, its key and the
    client of the controller. *)
Definition gateway_main (f : gateway_flags) w : res exit_with (GatewayRun.Config * KeyPair * Client) * W :=
  if String.eqb (gf_id f) "" || String.eqb (gf_controller f) "" || String.eqb (gf_endpoint f) ""
  then (Err (Usage "--id, --controller and --endpoint are required"), w) else
  match Logger version "gateway" (gf_id f) (gf_logs f) with
  | None => (Err (Usage "bad log flags"), w)
  | Some _ =>
      if (gf_listenPort f =? 0) || (gf_listenPort f >? 65535) then (Err (Fatal "bad --listen-port"), w) else
      match (try roles := or_fatal "bad --role" (ParseRoles (gf_role f)) in
             try token := or_fatal "read the gateway token" (secret (gf_tokenFile f) "EGRESSA_GATEWAY_TOKEN" w) in
             try ctl := or_fatal "bad --controller" (NewClient (gf_controller f) token) in Ok (roles, ctl)) with
      | Err e => (Err e, w)
      | Ok (roles, ctl) =>
          let '(ok, w) := dh_MkdirAll (Dir (gf_keyFile f)) w in
          if negb ok then (Err (Fatal "create the key directory"), w) else
          match LoadOrCreatePrivateKey (gf_keyFile f) w with
          | (Err _, w) => (Err (Fatal "load the private key"), w)
          | (Ok key, w) =>
              match MetricsServer (gf_metrics f) w with
              | (Err _, w) => (Err (Fatal "start the metrics server"), w)
              | (Ok _, w) =>
                  let '(ok, w) := if gf_ipsec f then dh_ipsec (gf_viciSocket f) w else (true, w) in
                  if negb ok then (Err (Fatal "connect to charon"), w) else
                  let cfg := GatewayRun.mkConfig (gf_id f) true roles (Base64 (Public key)) (gf_endpoint f) (gf_uplink f) (gf_mtu f) (gf_ipsec f) in
                  (try cfg := or_fatal "bad configuration" (GatewayRun.New cfg) in Ok (cfg, key, ctl), w)
              end
          end
      end
  end.
End gateway.

(** ** cmd/client *)

Record connectConfig := mkConnect {
  cc_pubKey : string; cc_endpoint : string; cc_addr : string; cc_iface : string; cc_keyFile : string; cc_fullTunnel : bool }.

Section static.
Context {W : Type} `{!Shell W, !RunIO W, !KeyHost W, !NetParse}.
Implicit Types w : W.

(** [runConnect] until the context ends and what is deferred has run. *)
Definition runConnect (cfg : connectConfig) w : option error * W :=
  if String.eqb (cc_pubKey cfg) "" || String.eqb (cc_endpoint cfg) "" then (Some (ErrText "--connect requires --gateway-pubkey and --gateway-endpoint"), w) else
  match Keys.DecodeBase64 (cc_pubKey cfg), ParseAddrPort (cc_endpoint cfg), rio_ParseAddr (cc_addr cfg) with
  | Err e, _, _ => (Some (ErrWrap "--gateway-pubkey" e), w)
  | _, None, _ => (Some (ErrText "--gateway-endpoint"), w)
  | _, _, None => (Some (ErrText "--address"), w)
  | Ok _, Some (host, _), Some addr =>
      match LoadOrCreatePrivateKey (cc_keyFile cfg) w with
      | (Err e, w) => (Some (ErrWrap "private key" e), w)
      | (Ok _, w) =>
          match rio_NewReal (cc_iface cfg) 0 0 0 w with
          | (Some e, w) => (Some (ErrWrap "create TUN device" e), w)
          | (None, w) =>
              let '(err, w) :=
                match ConfigureInterface (cc_iface cfg) (mkPrefix addr 32) w with
                | (Some e, w) => (Some (ErrWrap "configure interface" e), w)
                | (None, w) =>
                    match rio_AddPeer (cc_pubKey cfg) [mkPrefix (Addr4 0) 0] (cc_endpoint cfg) (25 * Second) w with
                    | (false, w) => (Some (ErrText "add gateway peer"), w)
                    | (true, w) =>
                        if cc_fullTunnel cfg then
                          match EnableFullTunnel rio_ParseAddr (cc_iface cfg) host w with
                          | (Err e, w) => (Some (ErrWrap "enable full tunnel" e), w)
                          | (Ok restore, w) => (None, (restore w).2)
                          end
                        else (None, w)
                    end
                end in (err, rio_Close w)
          end
      end
  end.
End static.

Record client_flags := mkClientFlags {
  lf_controller : string; lf_tokenFile : string; lf_stateFile : string; lf_egress : string; lf_interface : string; lf_full : bool;
  lf_metrics : string; lf_logs : LogFlags }.

Section managed.
Context {W : Type} `{!Files W, !Environ W, !DaemonHost W, !UrlParse, !ConfJson, !CmdHost W, !HttpClient W, !ApiJson} (version : string).
Implicit Types w : W.

(** [main] in managed mode, up to the agent's Run. *)
Definition client_main (f : client_flags) w : res exit_with (AgentConfig * Client) * W :=
  match Logger version "client" "" (lf_logs f) with
  | None => (Err (Usage "bad log flags"), w)
  | Some _ =>
      if String.eqb (lf_controller f) "" then (Err (Usage "give --controller (managed mode) or --connect (static mode)"), w) else
      match (try token := or_fatal "read the client token" (secret (lf_tokenFile f) "EGRESSA_CLIENT_TOKEN" w) in
             or_fatal "bad --controller" (NewClient (lf_controller f) token)) with
      | Err e => (Err e, w)
      | Ok ctl =>
          match MetricsServer (lf_metrics f) w with
          | (Err _, w) => (Err (Fatal "start the metrics server"), w)
          | (Ok _, w) =>
              let cfg := mkAgentConfig (lf_interface f) (lf_egress f) (lf_full f) [] 0 0 "" false in
              (try cfg := or_fatal "bad configuration" (ClientAgent.New cfg true (lf_stateFile f)) in Ok (cfg, ctl), w)
          end
      end
  end.

(** [cmdRun] of egressa, up to the agent's Run; [formatGiven] when --log-format
    is on the command line. *)
Definition cmdRun (logs : LogFlags) (formatGiven : bool) : cmd W (AgentConfig * Client * Tracing.Logger) :=
  let! _ := ensureRoot in
  let! c := readConf_cmd in
  let logs := if negb (String.eqb (cf_LogFormat c) "") && negb formatGiven then mkLogFlags (cf_LogFormat c) (lf_Level logs) else logs in
  match Logger version "client" "" logs with
  | None => fails (CText "log flags")
  | Some logger =>
      let! ctl := controllerClient c in
      let! _ := (λ w, match MetricsServer (cf_MetricsListen c) w with (Ok _, w) => (Ok tt, w) | (Err _, w) => (Err (Fail (CText "--metrics-listen")), w) end) in
      let ipsec := String.eqb (cf_Backend c) BackendIPsec in
      let! _ := (λ w, if ipsec then
                        let '(ok, w) := dh_ipsec (envOr "EGRESSA_VICI_SOCKET" "/var/run/charon.vici" w) w in
                        (if (ok : bool) then Ok tt else Err (Fail (CText "connect to charon")), w)
                      else (Ok tt, w)) in
      let! state := ask statePath in
      match ClientAgent.New (mkAgentConfig "egressa0" (cf_Egress c) true (cf_Bypass c) 0 0 (cf_Backend c) ipsec) true state with
      | Err e => fails (CText e)
      | Ok cfg => ret (cfg, ctl, logger)
      end
  end.
End managed.

(** ** Whatever every write keeps, the controller keeps *)

Section writes.
Context `{!NetParse, !Codec Gateway, !Codec clientRecord, !Codec OwnershipRecord, !Codec Policy.PolicyDocument}.
Context {St : Type} `{!KVStore St, !Fencer St} (hashSecret : string → string) (hmacPSK : bytes → string → string) (cfg : SConfig).
(** [V]: the values the controller writes. *)
Context (V : bytes → Prop) (I : St → Prop).
Context (V_gateway : ∀ (g : Gateway) b, marshal g = Some b → V b) (V_client : ∀ (c : clientRecord) b, marshal c = Some b → V b)
        (V_owner : ∀ (r : OwnershipRecord) b, marshal r = Some b → V b).
Context (I_Put : ∀ k b st, V b → I st → I (kv_Put k b st).1).
Context (I_CAS : ∀ k x b st, V b → I st → I (fence_CompareAndSwap k x b st).1).
Implicit Types s : Server St.

Lemma put_writes {A} `{!Codec A} key (v : A) st : (∀ b, marshal v = Some b → V b) → I st → I (put key v st).1.
Proof.
  intros Hv Hi. unfold put. destruct (marshal v) as [b|]; [|done]. pose proof (I_Put key b st (Hv b eq_refl) Hi) as Hw.
  by destruct (kv_Put key b st) as [st' [e|]].
Qed.

Lemma sin_step_writes rec st pc : I st → I (sin_step rec st pc).1.
Proof.
  intros Hi. unfold sin_step. destruct pc; [by repeat case_match|by repeat case_match| |done]. unfold MarshalOwnership.
  destruct (Ownership.Validate rec); [done|]. destruct (marshal rec) as [b|] eqn:Em; [|done].
  pose proof (I_CAS (SessionKey (Session rec)) expected b st (V_owner _ _ Em) Hi) as Hw.
  by destruct (fence_CompareAndSwap _ _ b st) as [st' [[? []]|e]].
Qed.
Lemma sin_run_writes fuel rec : ∀ st pc, I st → I (sin_run fuel rec st pc).1.
Proof.
  induction fuel as [|fuel IH]; intros st pc Hi; [by destruct pc|]. pose proof (sin_step_writes rec st pc Hi) as Hw.
  destruct pc; cbn [sin_run]; try done; destruct (sin_step _ _ _) as [st' pc']; by apply IH.
Qed.
Lemma SetIfNewer_writes fuel rec st : I st → I (SetIfNewer (Some _) fuel rec st).1.
Proof. intros Hi. unfold SetIfNewer. destruct (Ownership.Validate rec); [done|]. by apply sin_run_writes. Qed.

Lemma register_writes id req now s : I (sv_store s) → I (sv_store (registerGateway cfg id req now s).1).
Proof.
  intros Hi. unfold registerGateway. destruct (negb (gatewayIDRE id)); [done|]. destruct req as [req|]; [|done].
  destruct (ParseAddrPort _); [|done]. destruct (negb (parsePublicKey _)); [done|]. destruct (_ && _); [done|].
  destruct (gateways (sv_store s)) as [gws|]; [|done]. destruct (FindGateway gws id) as [g existed].
  destruct (if negb existed then _ else _) as [nodeIP|]; [|done]. cbn zeta. destruct (_ || _); [|by cbn; rewrite seenLocked_store].
  match goal with |- context [put ?k ?v ?st] => pose proof (put_writes k v st (V_gateway v) Hi) as Hw; destruct (put k v st) as [st' []] end;
    [cbn; by rewrite seenLocked_store|done].
Qed.

Lemma switch_writes fuel c backend s : I (sv_store s) → I (sv_store (switchBackendLocked (Some _) hmacPSK cfg fuel c backend s).1).
Proof.
  intros Hi. unfold switchBackendLocked. destruct (session _ _ c (sv_store s)) as [cur|]; [|done]. destruct (gateways (sv_store s)) as [gws|]; [|done].
  cbn zeta. match goal with |- context [match ?x with _ => _ end] => assert (I (sv_store x.1)) as Hw; [|destruct x as [s1 [[]|]]; try done] end.
  { destruct (negb _); [|done]. destruct (pickPath _ _ _ _) as [[access ?]|]; [|done].
    pose proof (SetIfNewer_writes fuel (mkOwn (c_ID c) access (s_Egress cur) (u64 (s_Epoch cur + 1))) (sv_store s) Hi) as Hw.
    by destruct (SetIfNewer _ _ _ _) as [st' [[? []]|]]. }
  cbn in Hw. match goal with |- context [put ?k ?v ?st] => pose proof (put_writes k v st (V_client v) Hw) as Hw'; by destruct (put k v st) as [st' []] end.
Qed.

Lemma create_writes fuel token req rnd s : I (sv_store s) → I (sv_store (createSession (Some _) hashSecret hmacPSK cfg fuel token req rnd s).1).
Proof.
  intros Hi. unfold createSession. destruct (negb (tokenOK _ _)); [done|]. destruct req as [req|]; [|done].
  do 2 (destruct (negb _); [done|]). destruct (_ && _); [done|]. destruct (clients (sv_store s)) as [cs|]; [|done].
  destruct (list_find _ cs) as [[? c]|].
  - unfold reopenSession. destruct (negb _); [done|]. cbn zeta. destruct (negb _).
    + pose proof (switch_writes fuel c (normBackend (cr_Backend req)) s Hi) as Hw.
      destruct (switchBackendLocked _ _ _ _ _ _ s) as [s1 [[]|]]; [by destruct (session _ _ _ _)|done|done].
    + by destruct (session _ _ _ _).
  - unfold openSession. destruct (gateways (sv_store s)) as [gws|]; [|done]. destruct (pickPath _ _ _ _) as [[access egress]|]; [|done].
    destruct (allocate _ _) as [vip|]; [|done]. destruct (randomSessionID rnd.1) as [id|]; [|done]. destruct rnd.2 as [secret|]; [|done].
    pose proof (SetIfNewer_writes fuel (mkOwn id access egress 1) (sv_store s) Hi) as Hw.
    destruct (SetIfNewer _ _ _ _) as [st' [[? []]|]]; [done| |done]. cbn in Hw.
    match goal with |- context [put ?k ?v ?st] => pose proof (put_writes k v st (V_client v) Hw) as Hw'; destruct (put k v st) as [st2 []] end; [|done].
    by destruct (session _ _ _ st2).
Qed.

Lemma migrate_writes fuel c req s : I (sv_store s) → I (sv_store (migrate (Some _) hmacPSK cfg fuel c req s).1).
Proof.
  intros Hi. unfold migrate. destruct req as [req|]; [|done]. destruct (gateways (sv_store s)) as [gws|]; [|done].
  destruct (FindGateway gws (m_Access req)) as [ga oka]. destruct (_ || _); [done|].
  destruct (FindGateway gws (m_Egress req)) as [ge oke]. destruct (_ || _); [done|].
  destruct (session _ _ c (sv_store s)) as [cur|]; [|done]. cbn zeta. destruct (negb _); [done|].
  pose proof (SetIfNewer_writes fuel (mkOwn (c_ID c) (m_Access req) (m_Egress req) (u64 (s_Epoch cur + 1))) (sv_store s) Hi) as Hw.
  by destruct (SetIfNewer _ _ _ _) as [st' [[[] []]|]].
Qed.

Lemma serve_writes fuel s r : I (sv_store s) → I (sv_store (serve hashSecret hmacPSK cfg fuel s r).1).
Proof.
  intros Hi. destruct r as [token id req now|token id rep now|token req rnd|id secret req|now]; cbn [serve].
  - destruct (negb _); [done|]. pose proof (register_writes id req now s Hi) as Hw. by destruct (registerGateway _ _ _ _ s).
  - destruct (negb _); [done|]. unfold reportLinks. destruct rep as [ls|]; [|done].
    destruct (kv_Get _ _) as [[d|]|e]; [cbn; by rewrite seenLocked_store|done|done].
  - by apply create_writes.
  - destruct (sessionAuth _ _ _ s); [by apply migrate_writes|done].
  - cbn [fst]. by rewrite sweep_store.
Qed.
Lemma run_writes fuel rs : ∀ s, I (sv_store s) → I (sv_store (fold_left (λ s r, (serve hashSecret hmacPSK cfg fuel s r).1) rs s)).
Proof. induction rs as [|r rs IH]; intros s Hi; [done|]. by apply IH, serve_writes. Qed.
End writes.

(** ** A restart *)

(** A value of the state file reads as the text it was written from, and what
    the controller writes is JSON. *)
Class StateJson `{!RawJSON, !Codec Gateway, !Codec clientRecord, !Codec OwnershipRecord, !Codec Policy.PolicyDocument} : Prop := {
  reads_gateway : ∀ b b', reformat b = Some b' → unmarshal (A := Gateway) b' = unmarshal b;
  reads_client : ∀ b b', reformat b = Some b' → unmarshal (A := clientRecord) b' = unmarshal b;
  reads_owner : ∀ b b', reformat b = Some b' → unmarshal (A := OwnershipRecord) b' = unmarshal b;
  writes_gateway : ∀ (g : Gateway) b, marshal g = Some b → is_Some (reformat b);
  writes_client : ∀ (c : clientRecord) b, marshal c = Some b → is_Some (reformat b);
  writes_owner : ∀ (r : OwnershipRecord) b, marshal r = Some b → is_Some (reformat b);
  writes_policy : ∀ (doc : Policy.PolicyDocument) b, marshal doc = Some b → is_Some (reformat b);
}.

Section restart.
Context `{!RawJSON}.
Implicit Types m : MemStore.
Implicit Types f : FileStore.

Definition mem_data m : gmap string bytes := me_value <$> ms_data m.
Definition json_data (d : gmap string bytes) : Prop := map_Forall (λ _ v, is_Some (reformat v)) d.

(** Nothing watches the controller's store. *)
Lemma mem_Put_quiet k v m : ms_watchers m = ∅ → mem_Put k v m = Some (mem_write k v m).
Proof. intros Hw. unfold mem_Put, notify, notify_collect. cbn. by rewrite Hw, map_to_list_empty. Qed.
Lemma mem_CAS_quiet k x v m : ms_watchers m = ∅ →
  mem_CompareAndSwap k x v m = Some (m, (default 0 (mem_Revision k m), false)) ∨
  mem_CompareAndSwap k x v m = Some (mem_write k v m, (ms_nextRev (mem_write k v m), true)).
Proof.
  intros Hw. unfold mem_CompareAndSwap, mem_Revision. destruct (ms_data m !! k) as [e|]; cbn; destruct (negb _); auto;
    right; unfold notify, notify_collect; cbn; by rewrite Hw, map_to_list_empty.
Qed.
Lemma mem_data_write k v m : mem_data (mem_write k v m) = <[k := v]> (mem_data m).
Proof. apply fmap_insert. Qed.

(** A text, or what the file makes of it. *)
Definition same_text (b b' : bytes) : Prop := b' = b ∨ reformat b = Some b'.
Definition same_data (d d' : gmap string bytes) : Prop := ∀ k, option_Forall2 same_text (d !! k) (d' !! k).

Lemma reformatted_same d : json_data d → same_data d (omap reformat d).
Proof.
  intros Hj k. rewrite lookup_omap. destruct (d !! k) as [b|] eqn:E; [|constructor]. destruct (Hj _ _ E) as [b' Eb].
  cbn. rewrite Eb. constructor. by right.
Qed.

(** The file holds what the store holds, and everything in it is JSON. *)
Record saved f : Prop := {
  saved_all : fs_saves f = [];
  saved_quiet : ms_watchers (fs_mem f) = ∅;
  saved_json : json_data (mem_data (fs_mem f));
  saved_disk : same_data (mem_data (fs_mem f)) (default ∅ (fs_disk f));
}.

Lemma save_saved m d : ms_watchers m = ∅ → json_data (mem_data m) → fs_save (mkFile m d []) = (mkFile m (Some (omap reformat (mem_data m))) [], None).
Proof.
  intros Hw Hj. unfold fs_save, fs_content. cbn. rewrite mem_List_all. fold (mem_data m). by rewrite decide_True.
Qed.
Lemma write_saved k v f : saved f → is_Some (reformat v) →
  saved (mkFile (mem_write k v (fs_mem f)) (Some (omap reformat (mem_data (mem_write k v (fs_mem f))))) []) ∧
  json_data (mem_data (mem_write k v (fs_mem f))).
Proof.
  intros [Hs Hw Hj Hd] Hv. assert (json_data (mem_data (mem_write k v (fs_mem f)))) as Hj'.
  { rewrite mem_data_write. by apply map_Forall_insert_2. }
  split; [|done]. split; [done|done|done|by apply reformatted_same].
Qed.

Lemma Put_saved k v f : is_Some (reformat v) → saved f → saved (kv_Put k v f).1.
Proof.
  intros Hv Hf. cbn. unfold fs_Put. rewrite mem_Put_quiet by apply Hf. rewrite (saved_all _ Hf).
  destruct (write_saved k v f Hf Hv) as [Hs Hj]. rewrite save_saved; [done|apply Hf|done].
Qed.
Lemma CAS_saved k x v f : is_Some (reformat v) → saved f → saved (fence_CompareAndSwap k x v f).1.
Proof.
  intros Hv Hf. cbn. unfold fs_CompareAndSwap. destruct (mem_CAS_quiet k x v (fs_mem f)) as [-> | ->]; [apply Hf|..].
  - cbn. destruct f. by destruct Hf.
  - cbn [negb]. rewrite (saved_all _ Hf). destruct (write_saved k v f Hf Hv) as [Hs Hj]. rewrite save_saved; [done|apply Hf|done].
Qed.

(** Opening a file of JSON values gives exactly those. *)
Lemma puts_quiet (l : list (string * bytes)) : NoDup l.*1 →
  ∃ m, foldr (λ kv om, match om with Some m => mem_Put kv.1 kv.2 m | None => None end) (Some NewMemStore) l = Some m
    ∧ ms_watchers m = ∅ ∧ mem_data m = list_to_map l.
Proof.
  induction l as [|[k v] l IH]; intros Hn; [by eexists|]. apply NoDup_cons in Hn as [Hk Hn]. destruct (IH Hn) as (m & E & Hw & Hd).
  exists (mem_write k v m). cbn [foldr fst snd]. rewrite E, mem_Put_quiet by done. split_and!; [done|done|]. by rewrite mem_data_write, Hd.
Qed.
Lemma open_saved disk : json_data (default ∅ disk) → ∃ f, OpenFileStore disk [] = Some f ∧ saved f ∧ mem_data (fs_mem f) = default ∅ disk.
Proof.
  intros Hj. assert (∀ d : gmap string bytes, same_data d d) as Hr. { intros d k. destruct (d !! k); constructor. by left. }
  destruct disk as [d|].
  - unfold OpenFileStore. destruct (puts_quiet (map_to_list d)) as (m & -> & Hw & Hd); [apply NoDup_fst_map_to_list|].
    rewrite list_to_map_to_list in Hd. eexists. split; [done|]. split; [|done]. split; cbn; rewrite ?Hd; done.
  - eexists. split; [done|]. split; [|done]. by split.
Qed.
End restart.

(** What the controller reads of its store. *)
Section reads.
Context `{!RawJSON, !Codec Gateway, !Codec clientRecord, !Codec OwnershipRecord, !Codec Policy.PolicyDocument, !StateJson} {E : Type} `{!EtcdClient E}.

Record same_reads (st st' : any_store E) : Prop := {
  same_owner : ∀ id, own_Get id st' = own_Get id st;
  same_client : ∀ id, clientByID id st' = clientByID id st;
  same_gateways : option_Forall2 Permutation (gateways st) (gateways st');
  same_clients : option_Forall2 Permutation (clients st) (clients st');
}.

Lemma same_text_unmarshal {A} `{!Codec A} (Hr : ∀ b b', reformat b = Some b' → unmarshal (A := A) b' = unmarshal b) b b' :
  same_text b b' → unmarshal (A := A) b' = unmarshal b.
Proof. intros [->|Hb]; [done|by apply Hr]. Qed.

Lemma mapM_perm {A} (l l' : list (option A)) : l ≡ₚ l' → option_Forall2 Permutation (mapM id l) (mapM id l').
Proof.
  induction 1 as [|x l l' _ IH|x y l|l1 l2 l3 _ IH1 _ IH2].
  - by constructor.
  - cbn. destruct x; [|constructor]. inversion IH; cbn; constructor. by f_equiv.
  - cbn. destruct x, y, (mapM id l); cbn; constructor. apply perm_swap.
  - inversion IH1 as [? ? H1 E1 E2|E1 E2]; rewrite <- E2 in IH2; inversion IH2; constructor. by etransitivity.
Qed.

Lemma decode_same {A} `{!Codec A} (Hr : ∀ b b', reformat b = Some b' → unmarshal (A := A) b' = unmarshal b) (d d' : gmap string bytes) :
  same_data d d' → option_Forall2 Permutation (decode_all (A := A) d) (decode_all d').
Proof.
  intros Hs. assert ((unmarshal (A := A) : bytes → option A) <$> d = unmarshal <$> d') as Ed.
  { apply map_eq. intros k. rewrite !lookup_fmap. destruct (Hs k) as [b b' Hb|]; cbn; [|done]. by rewrite (same_text_unmarshal Hr b b' Hb). }
  assert (∀ d : gmap string bytes, decode_all (A := A) d = mapM id ((λ kv, unmarshal kv.2) <$> map_to_list d)) as Hm.
  { intros x. unfold decode_all. induction (map_to_list x) as [|[k b] l IH]; [done|]. cbn. by rewrite IH. }
  assert (∀ d : gmap string bytes, (λ kv, unmarshal (A := A) kv.2) <$> map_to_list d ≡ₚ (map_to_list (unmarshal <$> d)).*2) as Hp.
  { intros x. rewrite map_to_list_fmap, <- list_fmap_compose. done. }
  rewrite !Hm. apply mapM_perm. by rewrite !Hp, Ed.
Qed.

Lemma filter_same (p : string) (d d' : gmap string bytes) :
  same_data d d' → same_data (filter (λ kv, HasPrefix kv.1 p = true) d) (filter (λ kv, HasPrefix kv.1 p = true) d').
Proof.
  intros Hs k. rewrite !map_lookup_filter. destruct (Hs k) as [b b' Hb|]; cbn; [|constructor]. destruct (decide (HasPrefix k p = true)) as [Hp|Hp].
  - rewrite !option_guard_True by done. by constructor.
  - rewrite !option_guard_False by done. constructor.
Qed.

Lemma mem_List_data p m : mem_List p m = filter (λ kv, HasPrefix kv.1 p = true) (mem_data m).
Proof. unfold mem_List, mem_data. rewrite map_filter_fmap. f_equal. apply map_filter_ext. intros k e _. cbn. by rewrite Is_true_true. Qed.

Lemma merge_same {A} (key : A → string) (x y : option (list A)) :
  option_Forall2 Permutation x y → option_Forall2 Permutation (merge_sort (le_by key) <$> x) (merge_sort (le_by key) <$> y).
Proof. intros [l l' Hl|]; constructor. by rewrite !merge_sort_Permutation. Qed.

Lemma same_data_reads (f g : FileStore) : same_data (mem_data (fs_mem f)) (mem_data (fs_mem g)) → same_reads (SFile f) (SFile g).
Proof.
  intros Hs. assert (∀ k, option_Forall2 same_text (mem_Get k (fs_mem f)) (mem_Get k (fs_mem g))) as Hg.
  { intros k. specialize (Hs k). unfold mem_data in Hs. by rewrite !lookup_fmap in Hs. }
  split.
  - intros id. unfold own_Get. cbn. destruct (Hg (SessionKey id)) as [b b' Hb|]; [|done]. unfold UnmarshalOwnership.
    by rewrite (same_text_unmarshal reads_owner _ _ Hb).
  - intros id. unfold clientByID. cbn. destruct (Hg (clientKeyPrefix +:+ id)%string) as [b b' Hb|]; [|done].
    by rewrite (same_text_unmarshal reads_client _ _ Hb).
  - unfold gateways. cbn. rewrite !mem_List_data. apply merge_same, (decode_same reads_gateway), filter_same, Hs.
  - unfold clients. cbn. rewrite !mem_List_data. apply merge_same, (decode_same reads_client), filter_same, Hs.
Qed.
End reads.

(** ** The theorem *)

Section keeps.
Context `{!NetParse, !RawJSON, !Codec Gateway, !Codec clientRecord, !Codec OwnershipRecord, !Codec Policy.PolicyDocument, !StateJson}.
Context {W E : Type} `{!Files W, !Environ W, !DaemonHost W, !EtcdClient E} (openEtcd : string → W → option E).
Context (hashSecret : string → string) (hmacPSK : bytes → string → string).
(** json.Unmarshal of the file gives raw values that are JSON. *)
Context (file_json : ∀ path (w : W) disk, dh_statefile path w = Ok disk → json_data (default ∅ disk)).

Definition file_saved (st : any_store E) : Prop := match st with SFile f => saved f | _ => False end.

Lemma New_saved cfg pol st cfg' srv : file_saved st → (Http.New cfg pol st).2 = Some (cfg', srv) → file_saved (sv_store srv).
Proof.
  intros Hs. unfold Http.New. destruct (_ || _ || _); [done|]. destruct (_ || _ || _); [done|].
  destruct pol as [doc|]; [|by intros [= _ <-]]. unfold Policy.policy_Set, Policy.MarshalPolicy.
  destruct (marshal doc) as [b|] eqn:Em; [|done].
  assert (file_saved (kv_Put Policy.policyKey b st).1) as Hp.
  { destruct st as [|f|]; try done. pose proof (Put_saved Policy.policyKey b f (writes_policy _ _ Em) Hs) as Hf. cbn in *. by destruct (default _ _). }
  destruct (kv_Put _ b st) as [st' [e|]]; [done|]. by intros [= _ <-].
Qed.

Lemma open_store_saved o (w : W) st : o_etcd o = "" → o_stateFile o ≠ "" → open_store openEtcd o w = Ok st → file_saved st.
Proof.
  intros He Hf. unfold open_store. rewrite He. apply String.eqb_neq in Hf. rewrite Hf. cbn.
  destruct (dh_statefile (o_stateFile o) w) as [disk|] eqn:E1; [|done]. destruct (open_saved disk (file_json _ _ _ E1)) as (f & -> & Hs & _).
  by intros [= <-].
Qed.
End keeps.

(** ** What has been checked when a program runs *)

Lemma ParseRoles_known s r : ParseRoles s = Ok r → r = 1 ∨ r = 2 ∨ r = 3.
Proof.
  unfold ParseRoles. set (l := Split _ s). clearbody l. intros Hr.
  assert (∀ l r0, (0 ≤ r0 ≤ 3) → ∀ r, fold_left ParseRoles_step l (Ok r0) = Ok r → 0 ≤ r ≤ 3) as Hl.
  { clear. induction l as [|p l IH]; intros r0 H0 r; cbn; [by intros [= <-]|].
    assert (∀ e, fold_left ParseRoles_step l (Err e) = Err e) as He. { clear. induction l as [|p l IH]; intros e; [done|]. apply IH. }
    assert (0 ≤ Z.lor r0 RoleAccess ≤ 3 ∧ 0 ≤ Z.lor r0 RoleEgress ≤ 3) as [Ha He'].
    { assert (r0 = 0 ∨ r0 = 1 ∨ r0 = 2 ∨ r0 = 3) as [->|[->|[->| ->]]] by lia; vm_compute; intuition congruence. }
    repeat case_match; [apply IH; done..|by rewrite He]. }
  destruct (fold_left _ _ _) as [r'|] eqn:E; [|done]. apply (Hl l 0) in E; [|lia]. destruct (Z.eqb_spec r' 0); simplify_eq. lia.
Qed.

(** The controller that runs has a probe port of 16 bits, and no short IPsec key. *)
Lemma controller_config_checked {W} `{!Files W, !Environ W, !DaemonHost W} o (w : W) cfg :
  0 ≤ o_probePort o → controller_config o w = Ok cfg →
  1 ≤ ProbePort (cfg_Network cfg) ≤ 65535 ∧ (IPsecKey cfg = [] ∨ (32 ≤ length (IPsecKey cfg))%nat).
Proof.
  intros Hp. unfold controller_config. destruct (dh_ParsePrefix _) as [cs|]; [|done]. destruct (dh_ParsePrefix _) as [ns|]; [|done].
  destruct (o_probePort o =? 0) eqn:E0; [done|]. destruct (o_probePort o >? 65535) eqn:E1; [done|]. cbn [orb].
  destruct (secret (o_gwTokenFile o) _ w); [|done]. destruct (secret (o_clTokenFile o) _ w); [|done].
  destruct (secret (o_ipsecKeyFile o) _ w) as [k|]; [|done]. cbn. destruct (_ && _) eqn:Ek; [done|]. intros [= <-]. cbn. split; [lia|].
  unfold text_bytes. rewrite length_fmap. apply andb_false_iff in Ek as [Ek|Ek].
  - left. apply negb_false_iff, String.eqb_eq in Ek. by rewrite Ek.
  - right. apply Z.ltb_ge in Ek. assert (length (String.list_ascii_of_string k) = String.length k) as ->; [|lia].
    clear. induction k as [|c k IH]; [done|]. cbn. by rewrite IH.
Qed.

(** A gateway that runs has a role, an uplink when it is an egress, and an MTU. *)
Lemma gateway_main_checked {W} `{!Files W, !Environ W, !DaemonHost W, !KeyHost W, !UrlParse, !NetParse} version f (w : W) cfg key ctl w' :
  gateway_main version f w = (Ok (cfg, key, ctl), w') →
  (GatewayRun.gc_Roles cfg = 1 ∨ GatewayRun.gc_Roles cfg = 2 ∨ GatewayRun.gc_Roles cfg = 3) ∧ GatewayRun.gc_MTU cfg ≠ 0
  ∧ (Has (GatewayRun.gc_Roles cfg) RoleEgress = true → GatewayRun.gc_Uplink cfg ≠ "") ∧ GatewayRun.gc_PublicKey cfg = Base64 (Public key).
Proof.
  unfold gateway_main. destruct (_ || _ || _); [done|]. destruct (Logger _ _ _ _); [|done]. destruct (_ || _); [done|].
  destruct (ParseRoles (gf_role f)) as [roles|] eqn:Er; [|done]. apply ParseRoles_known in Er. cbn.
  destruct (secret _ _ w); [|done]. cbn. destruct (NewClient _ _); [|done]. cbn. destruct (dh_MkdirAll _ w) as [[] w1]; [|done]. cbn.
  destruct (LoadOrCreatePrivateKey _ w1) as [[kp|] w2]; [|done]. destruct (MetricsServer _ w2) as [[reg|] w3]; [|done].
  destruct (if gf_ipsec f then _ else _) as [[] w4]; [|done]. cbn [negb]. unfold GatewayRun.New. cbn.
  destruct (_ || _ || _); [done|]. destruct (ParseAddrPort _); [|done]. destruct (Has roles RoleEgress && _) eqn:Eu; [done|].
  intros [= <- <- _ _]. cbn. split_and!; [done| | |done].
  - destruct (Z.eqb_spec (gf_mtu f) 0); [done|done].
  - intros Hh. rewrite Hh in Eu. cbn in Eu. by apply String.eqb_neq.
Qed.

(** ** A controller with a state file *)

Module DaemonDemo.
Import ControllerSpec.Demo.

#[export] Instance plain : RawJSON := {| reformat b := Some b |}.
#[export] Instance plain_state : StateJson.
Proof. split; cbn; (intros ? ? [= <-]; done) || eauto. Qed.

(** The state file of a host, and its secrets. *)
Definition disk : Type := option (gmap string bytes).
#[export] Instance disk_files : Files disk := {
  f_Read _ _ := Err NotExist; f_MkdirAll _ _ w := (true, w); f_Write _ _ _ w := (true, w); f_Rename _ _ w := (true, w) }.
#[export] Instance disk_env : Environ disk := {| Getenv _ _ := "" |}.
#[export] Instance disk_daemon : DaemonHost disk := {
  dh_ServeMetrics _ w := (true, w);
  dh_ParsePrefix s := if String.eqb s "10.1.0.0/24" then Some clientNet else if String.eqb s "10.2.0.0/24" then Some nodeNet else None;
  dh_policy _ := None; dh_statefile _ w := Ok w; dh_MkdirAll _ w := (true, w); dh_ipsec _ w := (true, w);
}.
#[export] Instance no_etcd : EtcdClient unit := {
  etcd_Get _ _ _ := None; etcd_Put _ _ _ c := (c, false); etcd_Txn _ _ _ c := (c, None) }.
Definition noEtcd (endpoint : string) (w : disk) : option unit := None.

Definition opts (stateFile etcd subnet : string) : options := mkOptions stateFile etcd "" "" subnet "10.2.0.0/24" "" 51900 "" "".
Example refuses : (controller_run noEtcd (opts "s" "e" "10.1.0.0/24") None).1 = Err TwoStores
  ∧ (controller_run noEtcd (opts "" "e" "10.1.0.0/24") None).1 = Err NoStore
  ∧ (controller_run noEtcd (opts "s" "" "10.2.0.0/24") None).1 = Err BadConfig
  ∧ (controller_run noEtcd (opts "s" "" "x") None).1 = Err (BadFlag "--client-subnet").
Proof. vm_compute. by split_and!. Qed.

Definition started : res start_error (SConfig * Server (any_store unit) * bool) * disk := controller_run noEtcd (opts "s" "" "10.1.0.0/24") None.
Definition served : Server (any_store unit) :=
  match started.1 with Ok (cfg, srv, _) => fold_left (λ s r, (serve hash psk cfg 3 s r).1) demo_reqs srv | Err _ => mkServer (SMem NewMemStore) 0 ∅ ∅ ∅ end.


Example roles : ParseRoles "access, egress" = Ok 3 ∧ ParseRoles "egress," = Ok 2 ∧ ParseRoles " " = Err "api: no gateway role in  ".
Proof. vm_compute. by split_and!. Qed.
End DaemonDemo.
